(* ===== verification/_CoqProject ===== *)
-Q . S2P
Prelude.v
Schema.v
AuthTypes.v
Acl.v
AclTheory.v
AclProps.v
AclPrivs.v
AclConfig.v
Permission.v
CachedUserInfo.v
DebVersion.v
Cidr.v
CidrRange.v
IpAddr.v
F64.v
Rrd.v
RrdTheory.v
ByteBuffer.v
WebSocket.v
WebSocketFrames.v
WebSocketStream.v
RateLimiter.v
Tfa.v
TfaTheory.v
Gregorian.v
TmEditor.v
CalendarEvent.v
CalendarTheory.v
CalendarLive.v
Nom.v
TimeParse.v
TimeSpan.v
TimeSpanTheory.v
Rfc3339.v
MatchExpr.v
SystemdEscape.v
Json.v
ObjectSchema.v
ObjectSchemaTheory.v
SectionConfig.v
SectionConfigTheory.v
PropertyString.v
PropertyStringTheory.v
Notify.v
NotifyTheory.v
NotifyConfig.v
NotifyConfigTheory.v
Interfaces.v
InterfacesParser.v
InterfacesTheory.v
InterfacesRoundtrip.v
NetworkApi.v
NetworkApiTheory.v
Backup.v
BackupTheory.v
PropertyVerify.v
PropertyVerifyTheory.v
Datastore.v
DatastoreTheory.v
TextCoding.v
TfaLogin.v
Ticket.v
TicketTheory.v
AuthApi.v
AuthApiTheory.v
RrdJournal.v
RrdCache.v
RrdCacheTheory.v
RrdCacheHistory.v
Shellword.v
Cli.v
CliTheory.v
Apt.v
AptTheory.v
AptStandard.v
AptStandardTheory.v
AptApi.v
AptApiTheory.v
Rest.v
RestTheory.v
