(* ===== verification/Prelude.v ===== *)
(** * Verification of the Proxmox Rust crates

    This library models core parts of the workspace of Rust crates that the
    Proxmox products share, and proves what the code promises. Definitions are
    executable and keep the names of the source; every file says which source
    files it models. This file is the prelude: text, lines, decimal numbers, ordered
    maps, the error monad and the tactics that the components share.

    ** Parts of the program and their models

    _Access control_ ([proxmox-access-control], [proxmox-auth-api],
    [proxmox-router]). A request is made by an authentication id
    ([AuthTypes], from [auth-api/src/types.rs]: [Userid], [Authid], their parsers
    and printers over the string checks of [Schema]). The access control tree
    assigns ids roles at paths ([Acl], [acl.rs]: [AclTreeNode] with the
    operations of [AclTree], the parser of [acl.cfg], role extraction and
    privilege lookup; [AclConfig]: the writer). [Permission] ([permission.rs])
    decides the declarative permissions of API methods against the interface
    [UserInformation]; [CachedUserInfo] ([cached_user_info.rs], [types.rs])
    implements that interface by the tree, and models the two caches through
    which the configuration is read.

    _Second factors_ ([proxmox-tfa]). [Tfa] ([api/mod.rs], [recovery.rs],
    [totp.rs]): the factors of a user, the challenge file with its failure
    counters, [TfaConfig::verify] with all its branches, unlocking. [TfaTheory]:
    its guarantees over runs of verifications. [TfaLogin] ([api/mod.rs]): the
    challenge of a login, which decides whether a password is enough.

    _Logins and requests_ ([proxmox-auth-api], [proxmox-rest-server]). [TextCoding]
    is UTF-8, hexadecimal numbers and the interfaces of percent encoding and base64;
    [Ticket] ([auth_key.rs], [ticket.rs], [api/ticket.rs]) has keyrings, signed
    tickets and full and partial API tickets; [AuthApi] ([api/access.rs],
    [api/mod.rs], cookies of [rest-server/src/lib.rs]) the login with first and
    second factor, which calls [Tfa] and [TfaLogin] on the stored configuration, CSRF
    tokens and [http_check_auth]. [TicketTheory] and [AuthApiTheory] have the
    theorems. [Rest] ([router/src/router.rs], [rest-server/src/rest.rs], [api_config.rs],
    [formatter.rs], [compression.rs]) is the way of a request: the normalized path, the
    handler and its router, authorization through [Permission], parameters from path, query
    and body through [ObjectSchema], the call, the pass to the privileged server or the
    answer, static files, and the address of clients behind a proxy. [RestTheory] has the
    theorems, also of the composition with [AuthApi] and [CachedUserInfo].

    _Websockets_ ([proxmox-http], [proxmox-io]). [ByteBuffer]
    ([byte_buffer.rs]) is the queue the reader works on; [WebSocket]
    ([websocket/mod.rs]) has masking, frames, the header parser and the reader,
    a state machine with one [poll_iter] per iteration of its loop;
    [WebSocketFrames] and [WebSocketStream] have the theorems.

    _Round robin database_ ([proxmox-rrd]). [F64] is binary64 arithmetic by the
    standard library's executable IEEE 754 specification; [Rrd] ([rrd.rs]) the data
    sources, archives and database; [RrdTheory] the refinement to the history of
    measurements. [RrdJournal] ([cache.rs], [cache/journal.rs]) has the text of journal
    entries, reading of journals and dropping of an incomplete entry; [RrdCache]
    ([cache.rs], [cache/rrd_map.rs], [cache/journal.rs]) the cache that applies updates in
    memory and appends them to the journal, and the thread that replays journals, writes
    the databases back and removes journals, as events under one lock each, with
    failures and crashes. [RrdCacheTheory] is the refinement to the log of all updates,
    against an interface of databases; [RrdCacheHistory] implements it by [Rrd].

    _Network types_ ([proxmox-network-types], [ip_address.rs]). [Cidr]: prefixes
    and ranges for either address width; [CidrRange]: their theory; [IpAddr]: the
    combined types and their text.

    _Versions_ ([proxmox-deb-version]): [DebVersion]. _Traffic_
    ([proxmox-rate-limiter]): [RateLimiter].

    _Time_ ([proxmox-time]). [Gregorian] is the calendar behind the C library;
    [TmEditor] ([tm_editor.rs], [posix.rs]) the broken-down time with its setters
    over [timegm], [mktime], [gmtime_r] and [localtime_r], parameters with their
    documented laws (class [Libc]); [CalendarEvent] ([calendar_event.rs],
    [date_time_value.rs], [week_days.rs], [daily_duration.rs]) the search for the
    next event and daily windows, with [CalendarTheory] and [CalendarLive];
    [TimeParse] ([parse_helpers.rs] and the parsers of the former) on the
    combinators of [Nom]; [TimeSpan] and [TimeSpanTheory] ([time_span.rs]);
    [Rfc3339] ([posix.rs]).

    _Schemas and configuration_ ([proxmox-schema], [proxmox-section-config]).
    [Json] is the type of values. [ObjectSchema] ([schema.rs]) has the schemas of
    objects with aliases, combined schemas and choices: lookup, verification of
    values, parameters from strings, the iterator over all properties;
    [PropertyString] ([property_string.rs], [ser/mod.rs]) writes and reads objects
    in one string, [PropertyVerify] ([de/mod.rs], [de/verify.rs]) checks such strings
    with the schema deserializer and collects the errors; [SectionConfig] ([section-config/src/lib.rs]) is the data, the
    writer and the parser of section files in both syntaxes, which call the schema
    of the section's type. [ObjectSchemaTheory], [PropertyStringTheory],
    [PropertyVerifyTheory] and [SectionConfigTheory] have the theorems.

    _Command lines_ ([proxmox-router/src/cli]). [Shellword] ([shellword.rs]) splits text
    into words; [Cli] ([getopts.rs], [command.rs], [mod.rs]) parses options and positional
    arguments, finds commands with aliases and abbreviations, and drives them with and
    without global options, down to the parameters, which [ObjectSchema] checks.
    [CliTheory] has the theorems.

    _Repositories_ ([proxmox-apt], [proxmox-apt-api-types]). [Apt] ([repositories/]) has
    both formats of repository files with parser, writer and check; [AptStandard]
    ([standard.rs], [repository.rs], [file.rs]) handles, the table of standard repositories,
    their recognition, notes on suites and origins; [AptApi] ([api.rs], [mod.rs],
    [release.rs]) the files of a host and the calls that list, add and change
    repositories. [AptTheory] (with the interface [FileFormat] that each format
    implements), [AptStandardTheory] and [AptApiTheory] have the theorems.

    _Expressions and unit names_: [MatchExpr] ([proxmox-match-expression]) evaluates
    nested match expressions over leaves of an interface; [SystemdEscape]
    ([proxmox-systemd/src/escape.rs]) escapes names of systemd units.

    _Notifications_ ([proxmox-notify]). [Notify] ([lib.rs], [matcher/]) has the
    matchers, older directives and expressions over [MatchExpr], their inline texts
    and the bus that hands a notification to endpoints; [NotifyConfig] ([lib.rs],
    [api/]) the configuration as section files over [SectionConfig], merged with the
    built-in one, and the API calls that change it. [NotifyTheory] and
    [NotifyConfigTheory] have the theorems.

    _Network interfaces_ ([proxmox-network-api]). [Interfaces] ([api_types.rs],
    [config/mod.rs], [config/helper.rs]) is the configuration with its checks and its
    writer; [InterfacesParser] ([config/lexer.rs], [config/parser.rs]) the lexer and
    the parser, in a monad of tokens and line numbers; [NetworkApi] ([api_impl.rs])
    creation and update of interfaces on the pair of files, which call parser and
    writer. [InterfacesTheory], [InterfacesRoundtrip] and [NetworkApiTheory] have
    the theorems.

    _Backups_ ([pbs-api-types]). [Backup] ([datastore.rs], [lib.rs], [jobs.rs]) has
    namespaces, groups, snapshots, archive names and group filters with their texts;
    [Datastore] ([datastore.rs], [maintenance.rs]) the configuration of datastores:
    the check for nested directories, and the maintenance mode, which is written by
    the serializer of property strings and read by the schema deserializer.
    [BackupTheory] and [DatastoreTheory] have the theorems.

    ** What the theorems show

    - Access control: effective roles refine an abstract view of the tree, by
      nearest node; every reachable tree is well formed; each update has
      precisely its effect on roles; privileges are the union over the effective
      roles; tokens never exceed their owner; [check_privs], [any_privs_below] and
      the permission check decide what they mean; cached data is fresh; ids
      survive printing and parsing.
    - Second factors: the number of TOTP codes that can be tried is bounded, a
      code and a recovery key are good for one login, a lock holds.
    - Logins: a full ticket takes a refreshed ticket, a password without second
      factor, or a verified second factor; what a login returns lets requests in
      until it expires; a request is let in only with a signed, full, unexpired
      ticket and CSRF token, or a token secret; signatures are unambiguous.
    - Requests: a method is called only for the route of the path, with the user of the
      credentials, the permission for the parameters of the path and exactly these
      parameters, all of them conforming to the schema; with tickets and the access control
      tree in place, a required privilege is one that the tree grants to the holder of a
      signed ticket or token. Files are served below the configured directories only; what
      a client writes in front of the element of its proxy does not become its address.
    - Websockets: the optimised masking equals the byte-wise one, the parser
      inverts the writer, and the reader delivers exactly the payload of the
      stream however it arrives.
    - Database: what a query returns is the consolidation of the accepted
      measurements of each interval of the archive's window. Whatever happens between,
      also crashes in the middle of a write, the cache and the files with the journals
      determine what the log of all accepted updates determines, and a restart ends
      with this state on disk.
    - Networks: a range is split into exactly its addresses with the minimal
      number of prefixes; overlap, canonical form and mapped addresses are right;
      text round trips.
    - Versions: the comparison loop decides the order of deb-version(7), stated by
      rules without the weights of the code, which is total; text round trips. Traffic: the delays keep a caller within the rate, and
      frequent refills lose next to nothing.
    - Time: the next event matches all lists of the event, none in between does
      if the lists stay in their fields, and live events are found within the
      loop limit of the code; daily windows mean what they say; time spans and RFC
      3339 times survive printing and parsing; parsed values are in range, and the
      loop of the span parser ends.
    - Schemas: [verify_json] decides the relation [conforms]; what the parameter
      parser accepts conforms; the iterator ends and yields all properties;
      property strings and section files are read back as they were written, under
      hypotheses that name what the formats cannot express; the check of property
      strings accepts what their parser accepts.
    - Command lines: splitting accepts a grammar of plain, escaped and quoted parts;
      a command gets exactly the parameters that are written, or the line is refused
      for missing, wrong or additional ones, and global options are
      found wherever they stand; both drivers agree without global options.
    - Repositories: a file is read back as it was written, in both formats; ASCII text
      never makes the parser panic; handles are read back from their texts; the
      repository of a handle is recognised as this handle only; the canonical form of
      components keeps what a repository is; a repository that is added is listed as
      enabled, a change touches one repository.
    - Expressions: evaluation equals a reference with the error of the leftmost
      failing leaf. Unit names: unescaping inverts escaping.
    - Notifications: exactly the enabled endpoints that a matching matcher names are
      notified, once; the expression for the older directives means the same; the
      written configuration is read back with its origins; the API keeps every
      target in existence, built-in endpoints that are deleted apart; the search for referenced entities ends unless an entity
      refers to itself.
    - Network interfaces: the parser ends on every text with errors at its lines; a
      written configuration is read back; API calls keep gateways unique and
      methods in line with addresses.
    - Backups: namespaces stay within their limits and their texts and paths name
      them uniquely; a snapshot is read back from its path; filters select what
      their texts say; names of archives keep their type; a datastore that is being
      deleted stays in that mode; no path lies in two datastores, as far as
      components that are not resolved tell.

    Lemmas named in the findings show inputs on which the code departs from its
    documentation; they are evaluations of the model.

    ** Modelling choices

    Text is a list of Unicode scalar values, bytes and machine integers are [N] or
    [Z] with the wrap-around or saturation of the operation written out. A
    [HashMap] is a [gmap], iterated as some list; a [BTreeMap] is a list in key
    order. Errors are values of [result], panics are [None] of an option or named
    errors ([NotFinitePanic], [NotAnArrayPanic], [Panicked]). State
    that the code mutates is passed and returned. The clock, files, randomness,
    cryptography and the pieces in which a stream arrives are inputs.

    Fuel: the split of a range has two iterations per address bit and three more,
    the comparison of versions one per character, a poll of the websocket reader
    [poll_fuel] (eight per byte of the stream, four per byte of the buffer, three
    more), a time span one per character, verification the depth of the schema,
    the iterator over properties its number of frames and entries, a property
    string and the path of a namespace one per character, the loops of the interface
    parser one per token, the binary search of a router one per entry, reading of a
    journal and the tokens of a repository line one per byte, the search for referenced
    entities two more than the longest chain of targets; the theorems show that each is
    enough. The search for an event has the 1001 iterations of the code.

    Parameters, each with an instance that satisfies its laws: the C library
    ([Libc]), the combinators ([Nom]), [strftime], the text of floating point
    numbers ([F64Text]), the table of alphabetic characters ([Alphabetic]), regular
    expressions ([RegexLib]), the text of expressions ([ExpressionText]), the values of
    notification entities ([EntityCodec]), Unicode digits ([UnicodeDigit]), OpenSSL
    ([OpenSsl]), percent encoding ([PercentCoding]), base64 ([Base64]), forms and JSON of
    requests, the JSON of challenges ([ChallengeJson]), the context of a product ([AuthContext]), digests.

    ** What is not modelled

    I/O (files, sockets, processes), serialisation by serde, macros and generated
    types; the crates the manifest lists as not modelled. The default display of
    time spans and conversions over floating point seconds; the schema deserializer
    for targets other than the check and the maintenance mode, its key aliases of
    legacy formats, and the typed section files; the variants for unknown values that
    the feature [enum-fallback] adds; generation and files of keys, realms; usage texts,
    completion and the shell of the command line; version 1 files of the database; the
    package cache behind libapt-pkg; connections, worker tasks and logs of the server.
    What is left of the workspace is I/O (HTTP connections and clients, system calls,
    mail delivery, ACME), generated code, wrappers of other libraries, or arithmetic over
    floating point numbers without a contract of its own: its behaviour is that of code
    outside of the workspace. *)
From Stdlib Require Export NArith ZArith Lia ZifyBool ZifyN ZifyNat.
From Stdlib Require Import Ascii.
From stdpp Require Export numbers base strings gmap list list_relations list_monad list_misc.

#[global] Open Scope nat_scope.

(** The nested inductive types of the development have their own induction
    principles. *)
#[export] Set Warnings "-register-all,-clear-no-such-hyp".

(** ** Text

    A Rust [char] is a Unicode scalar value and a [str] a sequence of them.
    Byte offsets that the code computes by searching for an ASCII byte are
    represented by the corresponding char offset; [utf8_len] is [str::len]. *)
Abbreviation rchar := N.
Abbreviation rstr := (list N).

Definition lit (s : string) : rstr := N_of_ascii <$> String.list_ascii_of_string s.
Arguments lit _%_string_scope.

(** The code point of an ASCII character literal. *)
Definition chr (s : string) : rchar :=
  match s with
  | String.String a _ => N_of_ascii a
  | String.EmptyString => 0%N
  end.
Arguments chr _%_string_scope.

(** The number of bytes of the UTF-8 encoding of a char, and [str::len]. *)
Definition utf8_width (c : rchar) : N :=
  if (c <? 128)%N then 1%N else if (c <? 2048)%N then 2%N
  else if (c <? 65536)%N then 3%N else 4%N.

Definition utf8_len (s : rstr) : N := foldr (fun c n => N.add (utf8_width c) n) 0%N s.

(** [char::is_whitespace]: the Unicode [White_Space] property. *)
Definition is_whitespace (c : rchar) : bool :=
  ((9 <=? c) && (c <=? 13) || (c =? 32) || (c =? 133) || (c =? 160) || (c =? 5760)
   || (8192 <=? c) && (c <=? 8202) || (c =? 8232) || (c =? 8233) || (c =? 8239)
   || (c =? 8287) || (c =? 12288))%N.

(** [char::is_ascii_digit], [char::is_ascii_alphabetic], and their disjunction. *)
Definition is_ascii_digit (c : rchar) : bool := ((48 <=? c) && (c <=? 57))%N.
Definition is_ascii_alphabetic (c : rchar) : bool :=
  ((65 <=? c) && (c <=? 90) || (97 <=? c) && (c <=? 122))%N.
Definition is_ascii_alphanumeric (c : rchar) : bool :=
  is_ascii_alphabetic c || is_ascii_digit c.

(** [str::cmp]: lexicographic, which for UTF-8 is the order of the code points. *)
Fixpoint str_compare (a b : rstr) : comparison :=
  match a, b with
  | [], [] => Eq
  | [], _ :: _ => Lt
  | _ :: _, [] => Gt
  | x :: a', y :: b' =>
      match N.compare x y with
      | Eq => str_compare a' b'
      | c => c
      end
  end.

(** ** Lists as the code slices and splits them *)
Section Splitting.
Context {A : Type} `{EqDecision A}.
Implicit Types (c x : A) (s : list A).

(** [str::split(c)]: never empty, [n] separators give [n + 1] pieces. *)
Fixpoint split_on c s : list (list A) :=
  match s with
  | [] => [[]]
  | x :: s' =>
      if decide (x = c) then [] :: split_on c s'
      else match split_on c s' with
           | [] => [[x]]
           | w :: ws => (x :: w) :: ws
           end
  end.

(** [slice::join(sep)]. *)
Fixpoint join_with (sep : list A) (l : list (list A)) : list A :=
  match l with
  | [] => []
  | [w] => w
  | w :: ws => w ++ sep ++ join_with sep ws
  end.

(** [Iterator::position] and [rposition] of an element. *)
Fixpoint position c s : option nat :=
  match s with
  | [] => None
  | x :: s' => if decide (x = c) then Some 0 else S <$> position c s'
  end.

Fixpoint rposition c s : option nat :=
  match s with
  | [] => None
  | x :: s' =>
      match rposition c s' with
      | Some i => Some (S i)
      | None => if decide (x = c) then Some 0 else None
      end
  end.

(** [str::strip_prefix(c)] of a single char. *)
Definition strip_prefix_char c s : option (list A) :=
  match s with
  | x :: s' => if decide (x = c) then Some s' else None
  | [] => None
  end.

Lemma split_on_nonempty c s : split_on c s ≠ [].
Proof. destruct s as [|x s]; simpl; [done|]. repeat case_match; done. Qed.

Lemma split_on_no_sep c s : c ∉ s → split_on c s = [s].
Proof.
  induction s as [|x s IH]; simpl; [done|].
  rewrite not_elem_of_cons. intros [? Hs]. rewrite decide_False by done.
  by rewrite (IH Hs).
Qed.

Lemma split_on_app c s t : c ∉ s → split_on c (s ++ c :: t) = s :: split_on c t.
Proof.
  induction s as [|x s IH]; simpl.
  - intros _. by rewrite decide_True.
  - rewrite not_elem_of_cons. intros [? Hs]. rewrite decide_False by done.
    by rewrite (IH Hs).
Qed.

(** The pieces never contain the separator, and joining them gives the text. *)
Lemma split_on_no_sep_in c s : Forall (λ w, c ∉ w) (split_on c s).
Proof.
  induction s as [|x s IH]; simpl.
  - repeat constructor. apply not_elem_of_nil.
  - case_decide as Hx; [constructor; [apply not_elem_of_nil|done]|].
    destruct (split_on c s) as [|w ws]; inversion IH; subst; repeat constructor; try done.
    + rewrite not_elem_of_cons. split; [done|apply not_elem_of_nil].
    + rewrite not_elem_of_cons. done.
Qed.

Lemma join_split_on c s : join_with [c] (split_on c s) = s.
Proof.
  induction s as [|x s IH]; simpl; [done|].
  pose proof (split_on_nonempty c s) as Hne.
  case_decide as Hx; [subst x|]; destruct (split_on c s) as [|w ws]; try done.
  - simpl. by f_equal.
  - destruct ws; simpl in *; by f_equal.
Qed.

Lemma split_on_join c l :
  l ≠ [] → Forall (λ w, c ∉ w) l → split_on c (join_with [c] l) = l.
Proof.
  induction l as [|w l IH]; [done|]. intros _ Hall.
  inversion Hall as [|? ? Hw Hl]; subst. destruct l as [|w' l].
  - by apply split_on_no_sep.
  - change (join_with [c] (w :: w' :: l)) with (w ++ c :: join_with [c] (w' :: l)).
    rewrite split_on_app by done. by rewrite IH.
Qed.

Lemma rposition_None c s : c ∉ s → rposition c s = None.
Proof.
  induction s as [|x s IH]; simpl; [done|].
  rewrite not_elem_of_cons. intros [? Hs]. rewrite IH by done. by rewrite decide_False.
Qed.

(** The last separator is found in front of a suffix that does not contain it. *)
Lemma rposition_app c s t : c ∉ t → rposition c (s ++ c :: t) = Some (length s).
Proof.
  intros Ht. induction s as [|x s IH]; simpl.
  - rewrite rposition_None by done. by rewrite decide_True.
  - by rewrite IH.
Qed.

Lemma rposition_lt c s i : rposition c s = Some i → i < length s.
Proof.
  revert i. induction s as [|x s IH]; simpl; intros i; [done|].
  destruct (rposition c s) eqn:E; [|case_decide]; intros; simplify_eq; [|lia].
  specialize (IH _ eq_refl). lia.
Qed.

Lemma rposition_app_l c s t : c ∉ t → rposition c (s ++ t) = rposition c s.
Proof.
  intros Ht. induction s as [|x s IH]; simpl; [by apply rposition_None|].
  by rewrite IH.
Qed.
End Splitting.

Lemma position_app {A} `{EqDecision A} (c : A) s t :
  c ∉ s → position c (s ++ c :: t) = Some (length s).
Proof.
  induction s as [|x s IH]; simpl; intros Hc; [by rewrite decide_True|].
  apply not_elem_of_cons in Hc as [? Hs]. rewrite decide_False by done. by rewrite IH.
Qed.

Lemma position_None {A} `{EqDecision A} (c : A) s : c ∉ s → position c s = None.
Proof.
  induction s as [|x s IH]; simpl; intros Hc; [done|].
  apply not_elem_of_cons in Hc as [? Hs]. rewrite decide_False by done. by rewrite IH.
Qed.

(** [str::strip_prefix] and [str::split_once]. *)
Fixpoint strip_prefix (p s : rstr) : option rstr :=
  match p, s with
  | [], _ => Some s
  | c :: p', x :: s' => if decide (c = x) then strip_prefix p' s' else None
  | _ :: _, [] => None
  end.

Definition split_once (c : rchar) (s : rstr) : option (rstr * rstr) :=
  match position c s with
  | Some i => Some (take i s, drop (S i) s)
  | None => None
  end.

Lemma strip_prefix_app p s : strip_prefix p (p ++ s) = Some s.
Proof. induction p as [|c p IH]; [done|]. simpl. by rewrite decide_True. Qed.

Lemma strip_prefix_Some p : ∀ s r, strip_prefix p s = Some r ↔ s = p ++ r.
Proof.
  intros s r. split; [|intros ->; apply strip_prefix_app].
  revert s. induction p as [|c p IH]; intros [|x s]; simpl; try (by intros [= <-]).
  case_decide; [|done]. intros ->%IH. by subst.
Qed.

Lemma position_Some (c : rchar) s i : position c s = Some i →
  s = take i s ++ c :: drop (S i) s ∧ (c ∉ take i s).
Proof.
  revert i. induction s as [|x s IH]; intros i; simpl; [done|]. case_decide as Hx.
  - intros [= <-]. subst. split; [done|]. apply not_elem_of_nil.
  - destruct (position c s) as [j|]; [|done]. intros [= <-]. destruct (IH j eq_refl) as [H1 H2]. simpl.
    split; [by f_equal|]. apply not_elem_of_cons. by split; [intros ->|].
Qed.

Lemma position_is_None (c : rchar) s : position c s = None → c ∉ s.
Proof.
  induction s as [|x s IH]; simpl; [intros _; apply not_elem_of_nil|]. case_decide as Hx; [done|].
  destruct (position c s); [done|]. intros _. apply not_elem_of_cons. split; [by intros ->|auto].
Qed.

Lemma drop_middle (s t : rstr) c : drop (S (length s)) (s ++ c :: t) = t.
Proof. induction s; simpl; [done|]. done. Qed.

Lemma split_once_iff (c : rchar) s a b : split_once c s = Some (a, b) ↔ s = a ++ c :: b ∧ (c ∉ a).
Proof.
  unfold split_once. split.
  - destruct (position c s) as [i|] eqn:E; [|done]. intros [= <- <-]. by apply position_Some.
  - intros [-> H]. rewrite position_app by done. by rewrite take_app_length, drop_middle.
Qed.

Lemma split_once_None (c : rchar) s : split_once c s = None ↔ c ∉ s.
Proof.
  unfold split_once. split; [|intros H; by rewrite position_None].
  destruct (position c s) eqn:E; [done|]. intros _. by apply position_is_None.
Qed.

(** [str::trim]. *)
Fixpoint drop_while {A} (p : A → bool) (s : list A) : list A :=
  match s with
  | [] => []
  | x :: s' => if p x then drop_while p s' else s
  end.

Fixpoint take_while {A} (p : A → bool) (s : list A) : list A :=
  match s with
  | [] => []
  | x :: s' => if p x then x :: take_while p s' else []
  end.

Definition trim_start (s : rstr) : rstr := drop_while is_whitespace s.
Definition trim_end (s : rstr) : rstr := reverse (drop_while is_whitespace (reverse s)).
Definition trim (s : rstr) : rstr := trim_end (trim_start s).

(** [str::lines]: split behind every line feed, a carriage return in front of
    the line feed is dropped with it, a final empty piece is not a line. *)
Definition strip_cr (s : rstr) : rstr :=
  match reverse s with
  | 13%N :: r => reverse r
  | _ => s
  end.

Fixpoint lines_of (pieces : list rstr) : list rstr :=
  match pieces with
  | [] => []
  | [p] => if decide (p = []) then [] else [p]
  | p :: ps => strip_cr p :: lines_of ps
  end.

Definition lines (s : rstr) : list rstr := lines_of (split_on 10%N s).

(** ** [BTreeMap<String, V>]: an association list kept in key order *)
Section BTree.
Context {V : Type}.
Implicit Types (k : rstr) (m : list (rstr * V)).

Fixpoint bt_get k m : option V :=
  match m with
  | [] => None
  | (k', v) :: m' => if decide (k = k') then Some v else bt_get k m'
  end.

Fixpoint bt_insert k (v : V) m : list (rstr * V) :=
  match m with
  | [] => [(k, v)]
  | (k', v') :: m' =>
      match str_compare k k' with
      | Lt => (k, v) :: m
      | Eq => (k, v) :: m'
      | Gt => (k', v') :: bt_insert k v m'
      end
  end.

Definition bt_remove k m : list (rstr * V) := filter (λ kv, kv.1 ≠ k) m.

Lemma bt_get_remove_eq k m : bt_get k (bt_remove k m) = None.
Proof.
  unfold bt_remove. induction m as [|[k' v] m IH]; [done|].
  rewrite filter_cons. case_decide; simpl; [|done]. by rewrite decide_False.
Qed.

Lemma bt_get_remove_ne k k' m : k ≠ k' → bt_get k' (bt_remove k m) = bt_get k' m.
Proof.
  intros Hne. unfold bt_remove. induction m as [|[k0 v] m IH]; [done|].
  rewrite filter_cons. simpl in *. repeat case_decide; simpl; subst; try done;
    try (by rewrite decide_True); try (by rewrite decide_False); congruence.
Qed.
End BTree.

Lemma str_compare_eq a b : str_compare a b = Eq ↔ a = b.
Proof.
  revert b. induction a as [|x a IH]; intros [|y b]; simpl; try (split; done).
  destruct (N.compare_spec x y) as [->|H|H].
  - rewrite IH. split; congruence.
  - split; [done|]. intros [= -> ->]. lia.
  - split; [done|]. intros [= -> ->]. lia.
Qed.

Lemma str_compare_refl a : str_compare a a = Eq.
Proof. by apply str_compare_eq. Qed.

Lemma str_compare_antisym a b : str_compare b a = CompOpp (str_compare a b).
Proof.
  revert b. induction a as [|x a IH]; intros [|y b]; simpl; try done.
  rewrite N.compare_antisym. destruct (N.compare x y); simpl; auto.
Qed.

Lemma str_compare_lt_trans a b c :
  str_compare a b = Lt → str_compare b c = Lt → str_compare a c = Lt.
Proof.
  revert b c. induction a as [|x a IH]; intros [|y b] [|z c]; simpl; try done.
  destruct (N.compare_spec x y), (N.compare_spec y z), (N.compare_spec x z);
    subst; try done; try lia. apply IH.
Qed.

Section BTreeTheory.
Context {V : Type}.
Implicit Types (k : rstr) (m : list (rstr * V)).

Lemma bt_get_insert_eq k v m : bt_get k (bt_insert k v m) = Some v.
Proof.
  induction m as [|[k' v'] m IH]; simpl; [by rewrite decide_True|].
  destruct (str_compare k k') eqn:E; simpl; try by rewrite decide_True.
  rewrite decide_False; [done|]. intros ->. by rewrite str_compare_refl in E.
Qed.

Lemma bt_get_insert_ne k k' v m :
  k ≠ k' → bt_get k' (bt_insert k v m) = bt_get k' m.
Proof.
  intros Hne. induction m as [|[k0 v0] m IH]; simpl; [by rewrite decide_False|].
  destruct (str_compare k k0) eqn:E; simpl.
  - apply str_compare_eq in E as ->. by rewrite !(decide_False (P := k' = k0)).
  - by rewrite (decide_False (P := k' = k)).
  - by rewrite IH.
Qed.

(** Keys strictly ascending: what iteration over a [BTreeMap] relies on. *)
Fixpoint bt_lb k m : Prop :=
  match m with
  | [] => True
  | (k', _) :: m' => str_compare k k' = Lt ∧ bt_lb k m'
  end.
Fixpoint bt_sorted m : Prop :=
  match m with
  | [] => True
  | (k, _) :: m' => bt_lb k m' ∧ bt_sorted m'
  end.

Lemma bt_lb_lt k k' m : str_compare k k' = Lt → bt_lb k' m → bt_lb k m.
Proof.
  intros Hk. induction m as [|[k0 v0] m IH]; simpl; [done|].
  intros [? ?]. split; [by eapply str_compare_lt_trans|auto].
Qed.

Lemma bt_lb_insert k k' v m :
  str_compare k k' = Lt → bt_lb k m → bt_lb k (bt_insert k' v m).
Proof.
  intros Hk. induction m as [|[k0 v0] m IH]; simpl; [done|].
  intros [? ?]. destruct (str_compare k' k0); simpl; auto.
Qed.

Lemma bt_sorted_insert k v m : bt_sorted m → bt_sorted (bt_insert k v m).
Proof.
  induction m as [|[k0 v0] m IH]; simpl; [done|]. intros [Hlb Hs].
  destruct (str_compare k k0) eqn:E; simpl.
  - apply str_compare_eq in E as ->. done.
  - split; [|done]. split; [done|]. by eapply bt_lb_lt.
  - split; [|auto]. apply bt_lb_insert; [|done].
    by rewrite str_compare_antisym, E.
Qed.

Lemma bt_lb_remove k k' m : bt_lb k m → bt_lb k (bt_remove k' m).
Proof.
  unfold bt_remove. induction m as [|[k0 v0] m IH]; [done|].
  rewrite filter_cons. intros [? ?]. case_decide; simpl; auto.
Qed.

Lemma bt_sorted_remove k m : bt_sorted m → bt_sorted (bt_remove k m).
Proof.
  unfold bt_remove. induction m as [|[k0 v0] m IH]; [done|].
  rewrite filter_cons. intros [? ?]. case_decide; simpl; auto.
  split; [|auto]. by apply bt_lb_remove.
Qed.

Lemma bt_get_In k v m : bt_get k m = Some v → (k, v) ∈ m.
Proof.
  induction m as [|[k0 v0] m IH]; simpl; [done|].
  case_decide; intros; simplify_eq; [by left|right; auto].
Qed.

Lemma bt_lb_get k m : bt_lb k m → bt_get k m = None.
Proof.
  induction m as [|[k0 v0] m IH]; simpl; [done|]. intros [Hk Hm].
  rewrite decide_False; [auto|]. intros ->. by rewrite str_compare_refl in Hk.
Qed.
End BTreeTheory.

(** ** Results *)
Inductive result (A E : Type) : Type :=
| Ok (a : A)
| Err (e : E).
Arguments Ok {A E} a.
Arguments Err {A E} e.

Definition rbind {A B E} (m : result A E) (k : A → result B E) : result B E :=
  match m with
  | Ok a => k a
  | Err e => Err e
  end.

Declare Scope rust_scope.
Delimit Scope rust_scope with rust.
Notation "'let?' x ':=' m 'in' k" := (rbind m (fun x => k))
  (at level 10, x binder, m at level 100, k at level 200) : rust_scope.
#[global] Open Scope rust_scope.

Definition is_ok {A E} (r : result A E) : bool :=
  match r with
  | Ok _ => true
  | Err _ => false
  end.

Definition ok {A E} (r : result A E) : option A :=
  match r with
  | Ok a => Some a
  | Err _ => None
  end.

Definition ok_or {A E} (o : option A) (e : E) : result A E :=
  match o with
  | Some a => Ok a
  | None => Err e
  end.

Lemma rbind_ok {A B E} (m : result A E) (k : A → result B E) y :
  rbind m k = Ok y ↔ ∃ x, m = Ok x ∧ k x = Ok y.
Proof. destruct m; simpl; naive_solver. Qed.

Lemma ok_or_ok {A E} (o : option A) (e : E) x : ok_or o e = Ok x → o = Some x.
Proof. by destruct o; intros [= <-]. Qed.

(** ** Automation shared by the components *)
Create HintDb rust discriminated.
#[export] Hint Resolve split_on_nonempty str_compare_refl bt_sorted_insert
  bt_sorted_remove : rust.

(** Splits the goal along the conditions and results the code tests. *)
Ltac cases := repeat (case_match || case_decide || case_bool_decide); simplify_eq/=.

(** ** Decimal numbers

    [str::parse] of the unsigned integer types and their [Display]. A number is a
    list of ASCII digits; [parse_uint max] is the parser of the type whose largest
    value is [max]. *)

(** The value of a run of digits, most significant first. *)
Definition digit_val (c : rchar) : N := (c - 48)%N.
Definition digits_val (s : rstr) : N := foldl (λ v c, (v * 10 + digit_val c)%N) 0%N s.

(** [u32::from_str] and the like: an optional sign ['+'], at least one digit, no
    other characters, and a value that fits. *)
Definition parse_uint (max : N) (s : rstr) : option N :=
  let digits := match s with
                | 43%N :: s' => s'
                | _ => s
                end in
  match digits with
  | [] => None
  | _ => if forallb is_ascii_digit digits && (digits_val digits <=? max)%N
         then Some (digits_val digits) else None
  end.

Definition u8_max : N := 255%N.
Definition u16_max : N := 65535%N.
Definition u32_max : N := 4294967295%N.
Definition u64_max : N := 18446744073709551615%N.

(** [Display] of an unsigned integer; the fuel is the number of binary digits. *)
Fixpoint dec_digits (fuel : nat) (n : N) (acc : rstr) : rstr :=
  match fuel with
  | O => acc
  | S fuel' =>
      let acc' := ((48 + n mod 10) :: acc)%N in
      if (n <? 10)%N then acc' else dec_digits fuel' (n / 10) acc'
  end.

Definition dec (n : N) : rstr := dec_digits (S (N.to_nat (N.log2 n))) n [].

(** ** Round trip *)
Lemma foldl_digits_app s t v :
  foldl (λ v c, (v * 10 + digit_val c)%N) v (s ++ t) =
  foldl (λ v c, (v * 10 + digit_val c)%N) (foldl (λ v c, (v * 10 + digit_val c)%N) v s) t.
Proof. apply foldl_app. Qed.

Lemma digits_val_snoc s c : digits_val (s ++ [c]) = (digits_val s * 10 + digit_val c)%N.
Proof. unfold digits_val. by rewrite foldl_app. Qed.

(** The digits written in front of [acc] have the value [n]. *)
Lemma dec_digits_spec fuel n acc :
  (N.to_nat (N.log2 n) < fuel) →
  ∃ ds, dec_digits fuel n acc = ds ++ acc ∧ digits_val ds = n ∧
        Forall (λ c, is_ascii_digit c = true) ds ∧ ds ≠ [].
Proof.
  revert n acc. induction fuel as [|fuel IH]; intros n acc Hf; [lia|].
  assert (is_ascii_digit (48 + n mod 10) = true) as Hd.
  { unfold is_ascii_digit. pose proof (N.mod_lt n 10). lia. }
  simpl. destruct (N.ltb_spec n 10) as [Hn|Hn].
  - exists [(48 + n mod 10)%N]. split; [done|]. rewrite (N.mod_small n 10) in * by lia.
    unfold digits_val, digit_val. simpl. repeat split; [lia|by repeat constructor|done].
  - destruct (IH (n / 10)%N ((48 + n mod 10)%N :: acc)) as (ds & Hds & Hv & Hall & Hne).
    { assert (N.log2 (n / 10) < N.log2 n)%N; [|lia].
      assert (n / 10 ≤ n / 2)%N as Hle by (apply N.div_le_compat_l; lia).
      apply N.log2_le_mono in Hle.
      assert (N.log2 (n / 2) < N.log2 n)%N; [|lia].
      rewrite <- N.div2_div, N.div2_spec, N.log2_shiftr.
      assert (0 < N.log2 n)%N by (apply N.log2_pos; lia). lia. }
    exists (ds ++ [(48 + n mod 10)%N]). rewrite Hds, <- app_assoc. split; [done|].
    rewrite digits_val_snoc, Hv. unfold digit_val. repeat split.
    + pose proof (N.div_mod n 10). lia.
    + apply Forall_app. split; [done|by repeat constructor].
    + by destruct ds.
Qed.

Lemma dec_spec n :
  digits_val (dec n) = n ∧ Forall (λ c, is_ascii_digit c = true) (dec n) ∧ dec n ≠ [].
Proof.
  destruct (dec_digits_spec (S (N.to_nat (N.log2 n))) n []) as (ds & Hds & Hv & Hall & Hne);
    [lia|]. unfold dec. rewrite Hds, app_nil_r. auto.
Qed.

Lemma dec_digit n c : c ∈ dec n → is_ascii_digit c = true.
Proof. destruct (dec_spec n) as (_ & H & _). rewrite Forall_forall in H. apply H. Qed.

(** Characters that are not digits do not occur in a printed number. *)
Lemma dec_not_in n c : is_ascii_digit c = false → c ∉ dec n.
Proof. intros Hc Hin. apply dec_digit in Hin. congruence. Qed.

Lemma forallb_Forall {A} (f : A → bool) l : forallb f l = true ↔ Forall (λ x, f x = true) l.
Proof.
  rewrite Forall_forall, forallb_forall. by setoid_rewrite list_elem_of_In.
Qed.

(** Printing and parsing: the number comes back when it fits the type. *)
Lemma parse_uint_dec max n : (n ≤ max)%N → parse_uint max (dec n) = Some n.
Proof.
  intros Hn. destruct (dec_spec n) as (Hv & Hall & Hne).
  unfold parse_uint. destruct (dec n) as [|c s] eqn:E; [done|].
  assert (c ≠ 43%N) as Hc.
  { inversion Hall as [|? ? Hd]; subst. intros ->. done. }
  replace (match c with 43%N => s | _ => c :: s end) with (c :: s).
  2: { destruct c as [|p]; [done|]. repeat (destruct p as [p|p|]; try done). }
  apply forallb_Forall in Hall. rewrite Hall, Hv. simpl.
  by rewrite (proj2 (N.leb_le _ _) Hn).
Qed.
#[export] Hint Resolve dec_not_in parse_uint_dec : rust.
