(* ===== verification/Schema.v ===== *)
(** * Schema: the constraint checks of proxmox-schema

    Models [StringSchema], [IntegerSchema] and [ArraySchema] length checks of
    [proxmox-schema/src/schema.rs].  A regular expression is the predicate it
    decides; the schema of a property string and a verify function are the
    check they perform. *)
From S2P Require Import Prelude.

Inductive SchemaError :=
| TooShort (min_length : N)
| TooLong (max_length : N)
| PatternMismatch
| NotInEnum
| FormatError
| BelowMinimum (minimum : Z)
| AboveMaximum (maximum : Z).

Inductive ApiStringFormat :=
| Enum (variants : list rstr)
| Pattern (is_match : rstr → bool)
| PropertyString (verify : rstr → bool)
| VerifyFn (verify_fn : rstr → bool).

Record StringSchema := {
  min_length : option N;
  max_length : option N;
  format : option ApiStringFormat;
  format_is_optional : bool
}.

Definition check_length (schema : StringSchema) (length : N) : result unit SchemaError :=
  let? _ := match schema.(min_length) with
            | Some min_length => if (length <? min_length)%N then Err (TooShort min_length) else Ok tt
            | None => Ok tt
            end in
  match schema.(max_length) with
  | Some max_length => if (max_length <? length)%N then Err (TooLong max_length) else Ok tt
  | None => Ok tt
  end.

Definition check_constraints (schema : StringSchema) (value : rstr) : result unit SchemaError :=
  let? _ := check_length schema (N.of_nat (length value)) in
  if schema.(format_is_optional) then Ok tt
  else match schema.(format) with
       | None => Ok tt
       | Some (Pattern is_match) => if is_match value then Ok tt else Err PatternMismatch
       | Some (Enum variants) => if decide (value ∈ variants) then Ok tt else Err NotInEnum
       | Some (PropertyString verify) => if verify value then Ok tt else Err FormatError
       | Some (VerifyFn verify_fn) => if verify_fn value then Ok tt else Err FormatError
       end.

(** The character classes and patterns of [api_types.rs]. *)
Definition safe_id_first (c : rchar) : bool := is_ascii_alphanumeric c || (c =? 95)%N.
Definition safe_id_rest (c : rchar) : bool :=
  is_ascii_alphanumeric c || (c =? 46)%N || (c =? 95)%N || (c =? 45)%N.

(** SAFE_ID_REGEX_STR: one of [A-Za-z0-9_], then any number of [A-Za-z0-9._-]. *)
Definition SAFE_ID_REGEX (s : rstr) : bool :=
  match s with
  | [] => false
  | c :: s' => safe_id_first c && forallb safe_id_rest s'
  end.

Record IntegerSchema := {
  minimum : option Z;
  maximum : option Z
}.

Definition check_integer (schema : IntegerSchema) (value : Z) : result unit SchemaError :=
  let? _ := match schema.(minimum) with
            | Some minimum => if (value <? minimum)%Z then Err (BelowMinimum minimum) else Ok tt
            | None => Ok tt
            end in
  match schema.(maximum) with
  | Some maximum => if (maximum <? value)%Z then Err (AboveMaximum maximum) else Ok tt
  | None => Ok tt
  end.

(** ** What the checks accept *)
Lemma SAFE_ID_forall s : SAFE_ID_REGEX s = true → Forall (λ c, safe_id_rest c = true) s.
Proof.
  destruct s as [|c s]; simpl; [done|]. rewrite andb_true_iff. intros [Hc Hs].
  constructor.
  - unfold safe_id_first, safe_id_rest in *. destruct (is_ascii_alphanumeric c); [done|].
    simpl in *. by rewrite Hc, orb_true_r.
  - rewrite Forall_forall. intros x Hx. rewrite forallb_forall in Hs.
    by apply Hs, list_elem_of_In.
Qed.

Lemma SAFE_ID_not_in s c : SAFE_ID_REGEX s = true → safe_id_rest c = false → c ∉ s.
Proof.
  intros Hs Hc Hin. apply SAFE_ID_forall in Hs. rewrite Forall_forall in Hs.
  specialize (Hs c Hin). congruence.
Qed.

Lemma SAFE_ID_nonempty s : SAFE_ID_REGEX s = true → s ≠ [].
Proof. by destruct s. Qed.

Lemma check_length_ok schema n :
  check_length schema n = Ok tt ↔
  (∀ m, schema.(min_length) = Some m → (m ≤ n)%N) ∧
  (∀ m, schema.(max_length) = Some m → (n ≤ m)%N).
Proof.
  unfold check_length.
  destruct (min_length schema) as [mi|], (max_length schema) as [ma|]; simpl;
    repeat case_match; simpl;
    (split; [intros; try done; split; intros ? [= <-]; lia|intros [H1 H2]; try done]);
    exfalso; try specialize (H1 _ eq_refl); try specialize (H2 _ eq_refl); lia.
Qed.
