(* ===== verification/AuthTypes.v ===== *)
(** * AuthTypes: user ids and authentication ids

    Models [Userid], [Authid] and their parsers and printers of
    [proxmox-auth-api/src/types.rs]. *)
From S2P Require Import Prelude Schema.

Definition at_sign : rchar := 64%N.
Definition bang : rchar := 33%N.

(** [[^\s:/[:cntrl:]]]: the characters of a user name. *)
Definition user_name_char (c : rchar) : bool :=
  negb (is_whitespace c || (c =? 58)%N || (c =? 47)%N || (c <? 32)%N || (c =? 127)%N).

Definition PROXMOX_USER_NAME_REGEX (s : rstr) : bool :=
  negb (bool_decide (s = [])) && forallb user_name_char s.

Definition PROXMOX_TOKEN_NAME_REGEX (s : rstr) : bool := SAFE_ID_REGEX s.

Definition PROXMOX_AUTH_REALM_STRING_SCHEMA : StringSchema := {|
  min_length := Some 2%N;
  max_length := Some 32%N;
  format := Some (Pattern SAFE_ID_REGEX);
  format_is_optional := false
|}.

Inductive AuthError :=
| NotAValidUserId
| EmptyTokenName
| InvalidUserName
| InvalidRealm
| InvalidTokenName.

(** ** Userid: the text and the offset of the separator *)
Record Userid := mkUserid {
  data : rstr;
  name_len : nat
}.

#[global] Instance Userid_eq_dec : EqDecision Userid.
Proof. solve_decision. Defined.
#[global] Program Instance Userid_countable : Countable Userid :=
  inj_countable' (λ u, (u.(data), u.(name_len))) (λ p, mkUserid p.1 p.2) _.
Next Obligation. by intros []. Qed.

Definition userid_name (u : Userid) : rstr := take u.(name_len) u.(data).
Definition userid_realm (u : Userid) : rstr := drop (S u.(name_len)) u.(data).

Definition ROOT_USERID : Userid := mkUserid (lit "root@pam") 4.

(** [From<(&UsernameRef, &RealmRef)> for Userid] *)
Definition userid_from_parts (name realm : rstr) : Userid :=
  mkUserid (name ++ at_sign :: realm) (length name).

(** [impl FromStr for Userid] *)
Definition userid_from_str (id : rstr) : result Userid AuthError :=
  let? name_len := ok_or (rposition at_sign id) NotAValidUserId in
  let name := take name_len id in
  let realm := drop (name_len + 1) id in
  if negb (PROXMOX_USER_NAME_REGEX name) then Err InvalidUserName
  else match check_constraints PROXMOX_AUTH_REALM_STRING_SCHEMA realm with
       | Err _ => Err InvalidRealm
       | Ok _ => Ok (userid_from_parts name realm)
       end.

(** [impl TryFrom<String> for Userid] *)
Definition userid_try_from (data : rstr) : result Userid AuthError :=
  let? name_len := ok_or (rposition at_sign data) NotAValidUserId in
  if negb (PROXMOX_USER_NAME_REGEX (take name_len data)) then Err InvalidUserName
  else match check_constraints PROXMOX_AUTH_REALM_STRING_SCHEMA (drop (name_len + 1) data) with
       | Err _ => Err InvalidRealm
       | Ok _ => Ok (mkUserid data name_len)
       end.

(** [impl TryFrom<String> for Tokenname] *)
Definition tokenname_try_from (s : rstr) : result rstr AuthError :=
  if negb (PROXMOX_TOKEN_NAME_REGEX s) then Err InvalidTokenName else Ok s.

(** ** Authid: a user id with an optional token name *)
Record Authid := mkAuthid {
  user : Userid;
  tokenname : option rstr
}.

#[global] Instance Authid_eq_dec : EqDecision Authid.
Proof. solve_decision. Defined.
#[global] Program Instance Authid_countable : Countable Authid :=
  inj_countable' (λ a, (a.(user), a.(tokenname))) (λ p, mkAuthid p.1 p.2) _.
Next Obligation. by intros []. Qed.

Definition is_token (a : Authid) : bool := bool_decide (is_Some a.(tokenname)).

Definition authid_from_userid (u : Userid) : Authid := mkAuthid u None.

Definition ROOT_AUTHID : Authid := authid_from_userid ROOT_USERID.

(** [impl Display for Authid] *)
Definition authid_to_string (a : Authid) : rstr :=
  match a.(tokenname) with
  | Some token => a.(user).(data) ++ bang :: token
  | None => a.(user).(data)
  end.

(** Where the user id ends: at the last ['!'] behind the last ['@'], or at the
    end of the text. *)
Definition realm_end_of (id : rstr) (name_len : nat) : nat :=
  match rposition bang id with
  | Some pos => if pos <? name_len then length id else pos
  | None => length id
  end.

(** [impl FromStr for Authid] *)
Definition authid_from_str (id : rstr) : result Authid AuthError :=
  let? name_len := ok_or (rposition at_sign id) NotAValidUserId in
  let realm_end := realm_end_of id name_len in
  if realm_end =? length id - 1 then Err EmptyTokenName
  else
    let? user := userid_from_str (take realm_end id) in
    if realm_end <? length id then
      let? token := tokenname_try_from (drop (realm_end + 1) id) in
      Ok (mkAuthid user (Some token))
    else Ok (mkAuthid user None).

(** [impl TryFrom<String> for Authid]: the token is checked before the user. *)
Definition authid_try_from (data : rstr) : result Authid AuthError :=
  let? name_len := ok_or (rposition at_sign data) NotAValidUserId in
  let realm_end := realm_end_of data name_len in
  if realm_end =? length data - 1 then Err EmptyTokenName
  else
    let? tokenname :=
      (if realm_end <? length data then
         let? token := tokenname_try_from (drop (realm_end + 1) data) in Ok (Some token)
       else Ok None) in
    let? user := userid_from_str (take realm_end data) in
    Ok (mkAuthid user tokenname).

(** ** Well-formed ids: those a parser accepts *)
Definition valid_realm (realm : rstr) : Prop :=
  SAFE_ID_REGEX realm = true ∧ 2 ≤ length realm ≤ 32.

Definition valid_userid (u : Userid) : Prop :=
  ∃ name realm, PROXMOX_USER_NAME_REGEX name = true ∧ valid_realm realm ∧
    u = userid_from_parts name realm.

Definition valid_authid (a : Authid) : Prop :=
  valid_userid a.(user) ∧
  match a.(tokenname) with
  | Some token => PROXMOX_TOKEN_NAME_REGEX token = true
  | None => True
  end.

Lemma realm_constraints_ok realm :
  check_constraints PROXMOX_AUTH_REALM_STRING_SCHEMA realm = Ok tt ↔ valid_realm realm.
Proof.
  unfold check_constraints, valid_realm.
  destruct (check_length _ _) as [[]|e] eqn:E; simpl.
  - apply check_length_ok in E as [Hmin Hmax].
    specialize (Hmin _ eq_refl). specialize (Hmax _ eq_refl).
    case_match; split; intros; try done; try split; try done; try lia;
      match goal with H : _ ∧ _ |- _ => by destruct H end.
  - split; [done|]. intros [_ [H1 H2]].
    assert (check_length PROXMOX_AUTH_REALM_STRING_SCHEMA (N.of_nat (length realm)) = Ok tt)
      as Hok; [|congruence].
    apply check_length_ok. split; intros m [= <-]; lia.
Qed.

(** A safe id holds neither of the two separators. *)
Lemma safe_id_no_at s : SAFE_ID_REGEX s = true → at_sign ∉ s.
Proof. intros H. by eapply SAFE_ID_not_in. Qed.
Lemma safe_id_no_bang s : SAFE_ID_REGEX s = true → bang ∉ s.
Proof. intros H. by eapply SAFE_ID_not_in. Qed.
#[export] Hint Resolve safe_id_no_at safe_id_no_bang : rust.

Lemma userid_from_str_parts name realm :
  PROXMOX_USER_NAME_REGEX name = true → valid_realm realm →
  userid_from_str (name ++ at_sign :: realm) = Ok (userid_from_parts name realm).
Proof.
  intros Hn Hr. pose proof Hr as [Hs _]. unfold userid_from_str.
  rewrite rposition_app by auto with rust. simpl.
  rewrite take_app_length, Hn. simpl.
  replace (drop (length name + 1) (name ++ at_sign :: realm)) with realm.
  - apply realm_constraints_ok in Hr. by rewrite Hr.
  - rewrite Nat.add_1_r, drop_app_ge by lia.
    replace (S (length name) - length name) with 1 by lia. done.
Qed.

Lemma rposition_split {A} `{EqDecision A} (c : A) s i :
  rposition c s = Some i → s = take i s ++ c :: drop (S i) s.
Proof.
  revert i. induction s as [|x s IH]; intros i; simpl; [done|].
  destruct (rposition c s) eqn:E; [|case_decide]; intros; simplify_eq; simpl.
  - by rewrite <- IH.
  - by rewrite drop_0.
Qed.

Lemma userid_from_str_valid id u :
  userid_from_str id = Ok u → valid_userid u ∧ u.(data) = id.
Proof.
  unfold userid_from_str. destruct (rposition at_sign id) as [i|] eqn:E; simpl; [|done].
  destruct (PROXMOX_USER_NAME_REGEX (take i id)) eqn:Hn; simpl; [|done].
  destruct (check_constraints _ _) as [[]|] eqn:Hr; [|done]. intros [= <-].
  apply realm_constraints_ok in Hr. split.
  - by exists (take i id), (drop (i + 1) id).
  - simpl. rewrite Nat.add_1_r. symmetry. by apply rposition_split.
Qed.

(** The two parsers of a [Userid] are the same function. *)
Lemma userid_try_from_eq id : userid_try_from id = userid_from_str id.
Proof.
  unfold userid_try_from, userid_from_str.
  destruct (rposition at_sign id) as [i|] eqn:E; simpl; [|done].
  cases; try done. f_equal. unfold userid_from_parts. rewrite Nat.add_1_r.
  rewrite <- (rposition_split _ _ _ E). f_equal.
  rewrite length_take. apply rposition_lt in E. lia.
Qed.

(** ** Authid *)
Lemma userid_from_parts_no_bang_end name realm :
  SAFE_ID_REGEX realm = true →
  let id := name ++ at_sign :: realm in
  realm_end_of id (length name) = length id.
Proof.
  intros Hr id. unfold realm_end_of.
  assert (bang ∉ at_sign :: realm) as Hb.
  { rewrite not_elem_of_cons. split; [done|auto with rust]. }
  unfold id. rewrite rposition_app_l by done.
  destruct (rposition bang name) as [i|] eqn:E; [|done].
  apply rposition_lt in E. by rewrite (proj2 (Nat.ltb_lt _ _) E).
Qed.

Lemma authid_from_str_user name realm :
  PROXMOX_USER_NAME_REGEX name = true → valid_realm realm →
  authid_from_str (name ++ at_sign :: realm) = Ok (mkAuthid (userid_from_parts name realm) None).
Proof.
  intros Hn Hr. pose proof Hr as [Hs Hlen]. unfold authid_from_str.
  rewrite rposition_app by auto with rust. simpl rbind.
  rewrite userid_from_parts_no_bang_end by done.
  rewrite (proj2 (Nat.eqb_neq _ _)) by (rewrite length_app; simpl; lia).
  rewrite firstn_all, userid_from_str_parts by done. simpl rbind.
  by rewrite Nat.ltb_irrefl.
Qed.

(** With a token, the user id ends at the ['!'] in front of the token name. *)
Lemma realm_end_of_token name realm token :
  SAFE_ID_REGEX token = true →
  realm_end_of ((name ++ at_sign :: realm) ++ bang :: token) (length name) =
  length (name ++ at_sign :: realm).
Proof.
  intros Ht. unfold realm_end_of. rewrite rposition_app by auto with rust.
  by rewrite (proj2 (Nat.ltb_ge _ _)) by (rewrite length_app; simpl; lia).
Qed.

Lemma authid_from_str_token name realm token :
  PROXMOX_USER_NAME_REGEX name = true → valid_realm realm → SAFE_ID_REGEX token = true →
  authid_from_str ((name ++ at_sign :: realm) ++ bang :: token) =
  Ok (mkAuthid (userid_from_parts name realm) (Some token)).
Proof.
  intros Hn Hr Ht. pose proof Hr as [Hs Hlen]. unfold authid_from_str.
  replace (rposition at_sign ((name ++ at_sign :: realm) ++ bang :: token))
    with (Some (length name)).
  2: { rewrite <- app_assoc. simpl. rewrite rposition_app; [done|].
       rewrite not_elem_of_app, not_elem_of_cons. auto 6 with rust. }
  simpl rbind. rewrite realm_end_of_token by done.
  set (u := name ++ at_sign :: realm) in *.
  pose proof (SAFE_ID_nonempty _ Ht). destruct token as [|t token]; [done|].
  rewrite length_app. simpl length.
  rewrite (proj2 (Nat.eqb_neq _ _)), (proj2 (Nat.ltb_lt _ _)) by lia.
  rewrite take_app_length. unfold u at 1. rewrite userid_from_str_parts by done. simpl rbind.
  rewrite Nat.add_1_r, drop_app_ge by lia.
  replace (S (length u) - length u) with 1 by lia.
  simpl drop. unfold tokenname_try_from, PROXMOX_TOKEN_NAME_REGEX. by rewrite Ht.
Qed.

(** Printing an authentication id and parsing the text again gives the id
    back: for every id built from a user name, a realm and an optional token
    name that the respective patterns accept, [from_str] of [to_string] is [Ok]
    of that id, even when the user name itself holds ['@'] or ['!']. *)
Theorem authid_display_from_str (a : Authid) :
  valid_authid a → authid_from_str (authid_to_string a) = Ok a.
Proof.
  destruct a as [u tok]. intros [Hu Htok]. simpl in Hu, Htok.
  destruct Hu as (name & realm & Hn & Hr & ->). destruct tok as [token|].
  - by apply authid_from_str_token.
  - by apply authid_from_str_user.
Qed.

(** What [from_str] accepts is well formed and prints as the text it was
    parsed from, so no two texts denote the same authentication id. *)
Theorem authid_from_str_sound (id : rstr) (a : Authid) :
  authid_from_str id = Ok a → valid_authid a ∧ authid_to_string a = id.
Proof.
  unfold authid_from_str. destruct (rposition at_sign id) as [nl|] eqn:E; simpl; [|done].
  set (re := realm_end_of id nl). case_match eqn:E1; [done|].
  destruct (userid_from_str (take re id)) as [u|] eqn:Eu; simpl; [|done].
  apply userid_from_str_valid in Eu as [Hu Hd].
  case_match eqn:E2.
  - unfold tokenname_try_from. destruct (PROXMOX_TOKEN_NAME_REGEX _) eqn:Et; simpl; [|done].
    intros [= <-]. split; [done|]. unfold authid_to_string; simpl. rewrite Hd.
    apply Nat.ltb_lt in E2. unfold re, realm_end_of in *.
    destruct (rposition bang id) as [p|] eqn:Ep; [|lia].
    case_match; [lia|]. rewrite Nat.add_1_r. symmetry. by apply rposition_split.
  - intros [= <-]. split; [done|]. unfold authid_to_string; simpl. rewrite Hd.
    apply firstn_all2. apply Nat.ltb_ge in E2. lia.
Qed.

(** The borrowing parser ([FromStr]) and the owning parser
    ([TryFrom<String>]) accept the same texts with the same results; they can
    differ only in which of several defects they report. *)
Theorem authid_try_from_from_str (id : rstr) :
  ok (authid_try_from id) = ok (authid_from_str id).
Proof.
  unfold authid_try_from, authid_from_str.
  destruct (rposition at_sign id) as [nl|]; simpl; [|done].
  case_match; [done|].
  destruct (userid_from_str _) as [u|]; simpl; cases; try done;
    destruct (tokenname_try_from _); done.
Qed.

(** ** Witnesses *)
Definition alice_token : Authid :=
  mkAuthid (userid_from_parts (lit "al!ice@x") (lit "pbs")) (Some (lit "backup")).

Lemma alice_token_valid : valid_authid alice_token.
Proof.
  split; [|reflexivity]. exists (lit "al!ice@x"), (lit "pbs").
  split; [reflexivity|]. split; [|reflexivity]. split; [reflexivity|]. simpl. lia.
Qed.

Lemma authid_display_from_str_witness :
  authid_from_str (lit "al!ice@x@pbs!backup") = Ok alice_token.
Proof. exact (authid_display_from_str alice_token alice_token_valid). Defined.

Lemma authid_from_str_sound_witness :
  authid_to_string (mkAuthid ROOT_USERID (Some (lit "t1"))) = lit "root@pam!t1".
Proof.
  exact (proj2 (authid_from_str_sound (lit "root@pam!t1") (mkAuthid ROOT_USERID (Some (lit "t1")))
                  eq_refl)).
Defined.
