(* ===== verification/Acl.v ===== *)
(** * Acl: the access control tree

    Models [proxmox-access-control/src/acl.rs] and the product interface
    [AccessControlConfig] of [init.rs].  A node's [HashMap]s are finite maps,
    iterated in an arbitrary order that the loops take as a list; its [BTreeMap]
    of children is an association list in key order. *)
From S2P Require Import Prelude Schema AuthTypes.

(** ** The interface a product implements ([trait AccessControlConfig]) *)
Class AccessControlConfig := {
  privileges : list (rstr * N);
  conf_roles : gmap rstr (N * rstr);
  is_superuser : Authid → bool;
  is_group_member : Userid → rstr → bool;
  role_no_access : option rstr;
  role_admin : option rstr
}.

Definition slash : rchar := 47%N.
Definition colon : rchar := 58%N.
Definition comma : rchar := 44%N.

(** [split_acl_path] *)
Definition split_acl_path (path : rstr) : list rstr :=
  filter (λ name, name ≠ []) (split_on slash path).

(** The components the nested loops [for outer in path { for comp in
    outer.split('/') { .. } }] visit. *)
Definition path_comps (path : list rstr) : list rstr := path ≫= split_on slash.

Abbreviation RoleMap := (gmap rstr bool).

Inductive AclTreeNode := mkNode {
  users : gmap Authid RoleMap;
  groups : gmap rstr RoleMap;
  children : list (rstr * AclTreeNode)
}.

(** [AclTreeNode::new] *)
Definition node_new : AclTreeNode := mkNode ∅ ∅ [].

Inductive AclError :=
| WrongNumberOfItems
| NoAclPrefix
| BadPropagateFlag
| UnknownRole (role : rstr)
| BadAuthid (e : AuthError)
| AtLine (linenr : nat) (e : AclError).

Section Acl.
Context {conf : AccessControlConfig}.

(** ** Roles of a single node *)

(** The loop of [extract_user_roles] and [extract_group_roles] over one role
    map: [inl] is the early return with the single role ["NoAccess"]. *)
Fixpoint extract_loop (leaf : bool) (items : list (rstr * bool)) (map : RoleMap)
    : RoleMap + RoleMap :=
  match items with
  | [] => inr map
  | (role, propagate) :: items' =>
      if propagate || leaf then
        if decide (role_no_access = Some role) then inl {[ role := false ]}
        else extract_loop leaf items' (<[ role := propagate ]> map)
      else extract_loop leaf items' map
  end.

Definition either {A} (x : A + A) : A := match x with inl a => a | inr a => a end.

Definition extract_user_roles (node : AclTreeNode) (auth_id : Authid) (leaf : bool) : RoleMap :=
  match node.(users) !! auth_id with
  | Some roles => either (extract_loop leaf (map_to_list roles) ∅)
  | None => ∅
  end.

(** The loop over the groups; the membership test is the constant [false]. *)
Fixpoint extract_groups_loop (leaf : bool) (gs : list RoleMap) (map : RoleMap) : RoleMap :=
  match gs with
  | [] => map
  | roles :: gs' =>
      let is_member := false in
      if negb is_member then extract_groups_loop leaf gs' map
      else match extract_loop leaf (map_to_list roles) map with
           | inl r => r
           | inr map' => extract_groups_loop leaf gs' map'
           end
  end.

Definition extract_group_roles (node : AclTreeNode) (u : Userid) (leaf : bool) : RoleMap :=
  extract_groups_loop leaf ((map_to_list node.(groups)).*2) ∅.

Definition extract_roles (node : AclTreeNode) (auth_id : Authid) (leaf : bool) : RoleMap :=
  let user_roles := extract_user_roles node auth_id leaf in
  if negb (bool_decide (user_roles = ∅)) || is_token auth_id then user_roles
  else extract_group_roles node auth_id.(user) leaf.

(** ** Updates of a single node *)
Definition node_delete_group_role (node : AclTreeNode) (group role : rstr) : AclTreeNode :=
  match node.(groups) !! group with
  | Some roles => mkNode node.(users) (<[ group := delete role roles ]> node.(groups)) node.(children)
  | None => node
  end.

Definition node_delete_user_role (node : AclTreeNode) (auth_id : Authid) (role : rstr) : AclTreeNode :=
  match node.(users) !! auth_id with
  | Some roles => mkNode (<[ auth_id := delete role roles ]> node.(users)) node.(groups) node.(children)
  | None => node
  end.

Fixpoint node_delete_authid (auth_id : Authid) (node : AclTreeNode) : AclTreeNode :=
  mkNode (delete auth_id node.(users)) node.(groups)
    ((fix go (l : list (rstr * AclTreeNode)) : list (rstr * AclTreeNode) :=
        match l with
        | [] => []
        | (k, n) :: l' => (k, node_delete_authid auth_id n) :: go l'
        end) node.(children)).

(** The body shared by [insert_group_role] and [insert_user_role]: ["NoAccess"]
    replaces every other role and is replaced by any other role. *)
Definition insert_role (map : RoleMap) (role : rstr) (propagate : bool) : RoleMap :=
  let map' :=
    match role_no_access with
    | Some no_access => if decide (role = no_access) then ∅ else delete no_access map
    | None => map
    end in
  <[ role := propagate ]> map'.

Definition node_insert_group_role (node : AclTreeNode) (group role : rstr) (propagate : bool)
    : AclTreeNode :=
  let map := default ∅ (node.(groups) !! group) in
  mkNode node.(users) (<[ group := insert_role map role propagate ]> node.(groups)) node.(children).

Definition node_insert_user_role (node : AclTreeNode) (auth_id : Authid) (role : rstr)
    (propagate : bool) : AclTreeNode :=
  let map := default ∅ (node.(users) !! auth_id) in
  mkNode (<[ auth_id := insert_role map role propagate ]> node.(users)) node.(groups) node.(children).

(** ** Walking the tree *)

Fixpoint get_node_comps (node : AclTreeNode) (comps : list rstr) : option AclTreeNode :=
  match comps with
  | [] => Some node
  | comp :: comps' =>
      match bt_get comp node.(children) with
      | Some n => get_node_comps n comps'
      | None => None
      end
  end.

(** [get_node] *)
Definition get_node (root : AclTreeNode) (path : list rstr) : option AclTreeNode :=
  get_node_comps root (path_comps path).

(** [get_node_mut], with the update [f] the caller makes through the returned
    reference; [None] when the path does not exist. *)
Fixpoint update_node_comps (node : AclTreeNode) (comps : list rstr)
    (f : AclTreeNode → AclTreeNode) : option AclTreeNode :=
  match comps with
  | [] => Some (f node)
  | comp :: comps' =>
      match bt_get comp node.(children) with
      | Some n =>
          match update_node_comps n comps' f with
          | Some n' => Some (mkNode node.(users) node.(groups) (bt_insert comp n' node.(children)))
          | None => None
          end
      | None => None
      end
  end.

Definition get_node_mut (root : AclTreeNode) (path : list rstr)
    (f : AclTreeNode → AclTreeNode) : option AclTreeNode :=
  update_node_comps root (path_comps path) f.

(** [get_or_insert_node], with the update the caller makes. *)
Fixpoint insert_node_comps (node : AclTreeNode) (comps : list rstr)
    (f : AclTreeNode → AclTreeNode) : AclTreeNode :=
  match comps with
  | [] => f node
  | comp :: comps' =>
      let n := default node_new (bt_get comp node.(children)) in
      mkNode node.(users) node.(groups)
        (bt_insert comp (insert_node_comps n comps' f) node.(children))
  end.

Definition get_or_insert_node (root : AclTreeNode) (path : list rstr)
    (f : AclTreeNode → AclTreeNode) : AclTreeNode :=
  insert_node_comps root (path_comps path) f.

(** ** Operations of the tree; a tree is its root *)

Definition find_node (tree : AclTreeNode) (path : rstr) : option AclTreeNode :=
  get_node tree (split_acl_path path).

Definition delete_group_role (tree : AclTreeNode) (path group role : rstr) : AclTreeNode :=
  default tree (get_node_mut tree (split_acl_path path)
                  (λ n, node_delete_group_role n group role)).

Definition delete_user_role (tree : AclTreeNode) (path : rstr) (auth_id : Authid) (role : rstr)
    : AclTreeNode :=
  default tree (get_node_mut tree (split_acl_path path)
                  (λ n, node_delete_user_role n auth_id role)).

Definition delete_node (tree : AclTreeNode) (path : rstr) : AclTreeNode :=
  let comps := split_acl_path path in
  let parent := removelast comps in
  default tree (get_node_mut tree parent (λ n,
    match last comps with
    | Some name => mkNode n.(users) n.(groups) (bt_remove name n.(children))
    | None => n
    end)).

Definition delete_authid (tree : AclTreeNode) (auth_id : Authid) : AclTreeNode :=
  node_delete_authid auth_id tree.

Definition insert_group_role (tree : AclTreeNode) (path group role : rstr) (propagate : bool)
    : AclTreeNode :=
  get_or_insert_node tree (split_acl_path path)
    (λ n, node_insert_group_role n group role propagate).

Definition insert_user_role (tree : AclTreeNode) (path : rstr) (auth_id : Authid) (role : rstr)
    (propagate : bool) : AclTreeNode :=
  get_or_insert_node tree (split_acl_path path)
    (λ n, node_insert_user_role n auth_id role propagate).

(** ** Parsing [acl.cfg] *)

(** The loops over users and roles of one line, on the node they update. *)
Fixpoint insert_entries (propagate : bool) (items : list (rstr * rstr)) (node : AclTreeNode)
    : AclTreeNode * result unit AclError :=
  match items with
  | [] => (node, Ok tt)
  | (user_or_group, role) :: items' =>
      if bool_decide (conf_roles !! role = None) then (node, Err (UnknownRole role))
      else match strip_prefix_char at_sign user_or_group with
           | Some group =>
               insert_entries propagate items' (node_insert_group_role node group role propagate)
           | None =>
               match authid_from_str user_or_group with
               | Ok auth_id =>
                   insert_entries propagate items' (node_insert_user_role node auth_id role propagate)
               | Err e => (node, Err (BadAuthid e))
               end
           end
  end.

Definition entries (uglist rolelist : list rstr) : list (rstr * rstr) :=
  uglist ≫= λ ug, (λ role, (ug, role)) <$> rolelist.

(** [parse_acl_line]: the tree after the line and whether the line was valid. *)
Definition parse_acl_line (tree : AclTreeNode) (line : rstr)
    : AclTreeNode * result unit AclError :=
  match split_on colon line with
  | [i0; i1; path_str; i3; i4] =>
      if negb (bool_decide (i0 = lit "acl")) then (tree, Err NoAclPrefix)
      else
        let continue (propagate : bool) :=
          let path := split_acl_path path_str in
          let uglist := trim <$> split_on comma i3 in
          let rolelist := trim <$> split_on comma i4 in
          let run n := insert_entries propagate (entries uglist rolelist) n in
          let node := default node_new (get_node tree path) in
          (get_or_insert_node tree path (λ n, (run n).1), (run node).2) in
        if decide (i1 = lit "0") then continue false
        else if decide (i1 = lit "1") then continue true
        else (tree, Err BadPropagateFlag)
  | _ => (tree, Err WrongNumberOfItems)
  end.

Fixpoint parse_lines (linenr : nat) (ls : list rstr) (tree : AclTreeNode)
    : result AclTreeNode AclError :=
  match ls with
  | [] => Ok tree
  | l :: ls' =>
      let line := trim l in
      if decide (line = []) then parse_lines (S linenr) ls' tree
      else match parse_acl_line tree line with
           | (tree', Ok _) => parse_lines (S linenr) ls' tree'
           | (_, Err e) => Err (AtLine (linenr + 1) e)
           end
  end.

(** [from_raw], which [load] repeats on the text of the file. *)
Definition from_raw (raw : rstr) : result AclTreeNode AclError :=
  parse_lines 0 (lines raw) node_new.

(** ** Queries *)

(** The loop of [roles] below a node: [rest] are the components that follow. *)
Fixpoint roles_loop (auth_id : Authid) (node : AclTreeNode) (comps : list rstr)
    (role_map : RoleMap) : RoleMap :=
  match comps with
  | [] => role_map
  | sub_comp :: rest =>
      let last_sub_comp := bool_decide (rest = []) in
      match bt_get sub_comp node.(children) with
      | None => role_map
      | Some n =>
          let new_map := extract_roles n auth_id last_sub_comp in
          roles_loop auth_id n rest (if decide (new_map = ∅) then role_map else new_map)
      end
  end.

Definition roles (tree : AclTreeNode) (auth_id : Authid) (path : list rstr) : RoleMap :=
  roles_loop auth_id tree (path_comps path)
    (extract_roles tree auth_id (bool_decide (path = []))).

Fixpoint node_child_paths (path : rstr) (auth_id : Authid) (node : AclTreeNode) : list rstr :=
  (fix go (l : list (rstr * AclTreeNode)) : list rstr :=
     match l with
     | [] => []
     | (sub_comp, child_node) :: l' =>
         let child_path := path ++ slash :: sub_comp in
         (if bool_decide (extract_roles child_node auth_id true = ∅) then [] else [child_path])
         ++ node_child_paths child_path auth_id child_node ++ go l'
     end) node.(children).

Definition get_child_paths (tree : AclTreeNode) (auth_id : Authid) (path : list rstr) : list rstr :=
  match get_node tree path with
  | Some node => node_child_paths (join_with [slash] path) auth_id node
  | None => []
  end.

(** The privileges and the propagated privileges of a role map. *)
Definition add_role (acc : N * N) (entry : rstr * bool) : N * N :=
  match conf_roles !! entry.1 with
  | Some (role_privs, _) =>
      (N.lor acc.1 role_privs,
       if entry.2 : bool then N.lor acc.2 role_privs else acc.2)
  | None => acc
  end.

Definition sum_privs (rs : RoleMap) : N * N := foldl add_role (0%N, 0%N) (map_to_list rs).

Definition superuser_privs (auth_id : Authid) : option N :=
  if is_superuser auth_id then
    match role_admin with
    | Some admin => fst <$> conf_roles !! admin
    | None => None
    end
  else None.

(** The owner of a token is a user, so the recursion of
    [lookup_privs_details] is one level deep. *)
Definition lookup_privs_user (tree : AclTreeNode) (auth_id : Authid) (path : list rstr) : N * N :=
  match superuser_privs auth_id with
  | Some admin => (admin, admin)
  | None => sum_privs (roles tree auth_id path)
  end.

Definition lookup_privs_details (tree : AclTreeNode) (auth_id : Authid) (path : list rstr) : N * N :=
  match superuser_privs auth_id with
  | Some admin => (admin, admin)
  | None =>
      let '(privs, propagated_privs) := sum_privs (roles tree auth_id path) in
      if is_token auth_id then
        let '(owner_privs, owner_propagated_privs) :=
          lookup_privs_user tree (authid_from_userid auth_id.(user)) path in
        (N.land privs owner_privs, N.land propagated_privs owner_propagated_privs)
      else (privs, propagated_privs)
  end.

Definition lookup_privs (tree : AclTreeNode) (auth_id : Authid) (path : list rstr) : N :=
  (lookup_privs_details tree auth_id path).1.

(** [check_privs]; the error carries the names of the required privileges and
    the path. *)
Definition privs_to_priv_names (privs : N) : list rstr :=
  foldl (λ priv_names '(name, value),
           if negb (N.land value privs =? 0)%N then priv_names ++ [name] else priv_names)
    [] privileges.

Inductive MissingPermissions := missing_permissions (priv_names path : rstr).

Definition check_privs (tree : AclTreeNode) (auth_id : Authid) (path : list rstr)
    (required_privs : N) (partial : bool) : result unit MissingPermissions :=
  let privs := lookup_privs tree auth_id path in
  let allowed :=
    if partial then negb (N.land privs required_privs =? 0)%N
    else (N.land privs required_privs =? required_privs)%N in
  if allowed then Ok tt
  else
    let priv_names := privs_to_priv_names required_privs in
    let priv_names := if partial then join_with (lit "|") priv_names
                      else join_with (lit "&") priv_names in
    Err (missing_permissions priv_names (slash :: join_with [slash] path)).

Definition any_privs_below (tree : AclTreeNode) (auth_id : Authid) (path : list rstr) (privs : N)
    : bool :=
  let '(_, propagated_privs) := lookup_privs_details tree auth_id path in
  if negb (N.land propagated_privs privs =? 0)%N then true
  else existsb (λ p, negb (N.land privs (lookup_privs tree auth_id [p]) =? 0)%N)
         (get_child_paths tree auth_id path).
End Acl.
