(* ===== verification/AclTheory.v ===== *)
(** * AclTheory: what the access control tree guarantees

    Theorems about [Acl]: the roles extracted from a node do not depend on the
    iteration order of its hash maps, the effective roles of a path are those of
    the nearest node that has any, updates are local, ["NoAccess"] is exclusive
    in every tree the operations can build, and a token never exceeds its owner. *)
From S2P Require Import Prelude Schema AuthTypes Acl.

(** Induction over the tree with a hypothesis for every child. *)
Section NodeInd.
Context (P : AclTreeNode → Prop).
Context (Hnode : ∀ us gs ch, Forall (λ kc, P kc.2) ch → P (mkNode us gs ch)).
Fixpoint AclTreeNode_nested_ind (n : AclTreeNode) : P n :=
  match n with
  | mkNode us gs ch =>
      Hnode us gs ch
        ((fix go (l : list (rstr * AclTreeNode)) : Forall (λ kc, P kc.2) l :=
            match l with
            | [] => Forall_nil_2 _
            | kc :: l' => Forall_cons_2 _ _ _ (AclTreeNode_nested_ind kc.2) (go l')
            end) ch)
  end.
End NodeInd.

(** ** Paths *)
Lemma path_comps_nil : path_comps [] = [].
Proof. reflexivity. Qed.

Lemma path_comps_clean path : Forall (λ c, slash ∉ c) path → path_comps path = path.
Proof.
  unfold path_comps. induction 1 as [|c path Hc Hp IH]; [done|].
  rewrite bind_cons, split_on_no_sep by done. simpl. by rewrite IH.
Qed.

Lemma split_acl_path_clean path : Forall (λ c, c ≠ [] ∧ slash ∉ c) (split_acl_path path).
Proof.
  unfold split_acl_path. pose proof (split_on_no_sep_in slash path) as H.
  induction H as [|c cs Hc Hcs IH]; [constructor|].
  rewrite filter_cons. case_decide; [constructor|]; done.
Qed.

Lemma path_comps_split path : path_comps (split_acl_path path) = split_acl_path path.
Proof.
  apply path_comps_clean. eapply Forall_impl; [apply split_acl_path_clean|].
  by intros ? [_ ?].
Qed.

Lemma split_on_app_gen {A} `{EqDecision A} (c : A) s t :
  split_on c (s ++ c :: t) = split_on c s ++ split_on c t.
Proof.
  induction s as [|x s IH]; simpl.
  - by rewrite decide_True.
  - rewrite IH. case_decide; [done|].
    pose proof (split_on_nonempty c s). destruct (split_on c s); done.
Qed.

(** Joining a non-empty path with ['/'] and splitting the text visits the same
    components as the path itself. *)
Lemma path_comps_join path : path ≠ [] → path_comps [join_with [slash] path] = path_comps path.
Proof.
  unfold path_comps. rewrite bind_singleton.
  induction path as [|c path IH]; [done|]. intros _.
  destruct path as [|c' path]; [by rewrite bind_singleton|].
  change (join_with [slash] (c :: c' :: path)) with (c ++ slash :: join_with [slash] (c' :: path)).
  rewrite split_on_app_gen, IH by done. by rewrite (bind_cons _ c).
Qed.

Lemma path_comps_nil_iff path : path = [] ↔ path_comps path = [].
Proof.
  split; [by intros ->|]. destruct path as [|c path]; [done|].
  unfold path_comps. rewrite bind_cons. intros H. apply app_eq_nil in H as [H _].
  by apply split_on_nonempty in H.
Qed.

Section AclTheory.
Context {conf : AccessControlConfig}.
Implicit Types (leaf : bool) (items : list (rstr * bool)) (a : Authid) (node tree : AclTreeNode).

(** ** Roles of a node *)

(** The roles a node contributes, stated on the map itself: ["NoAccess"] alone
    if it applies, otherwise every role that applies. *)
Definition applies (leaf : bool) (m : RoleMap) (na : rstr) : bool :=
  match m !! na with
  | Some p => p || leaf
  | None => false
  end.

Definition extract_spec (leaf : bool) (m : RoleMap) : RoleMap :=
  match role_no_access with
  | Some na => if applies leaf m na then {[ na := false ]}
               else filter (λ kv, kv.2 || leaf = true) m
  | None => filter (λ kv, kv.2 || leaf = true) m
  end.

Lemma extract_loop_inr leaf items acc :
  (∀ na p, role_no_access = Some na → (na, p) ∈ items → p || leaf = false) →
  extract_loop leaf items acc =
  inr (foldl (λ m kv, <[ kv.1 := kv.2 ]> m) acc (filter (λ kv, kv.2 || leaf = true) items)).
Proof.
  revert acc. induction items as [|[r p] items IH]; intros acc Hna; [done|].
  rewrite filter_cons. simpl. destruct (p || leaf) eqn:E.
  - destruct (decide (role_no_access = Some r)) as [Hr|Hr].
    + specialize (Hna r p Hr). rewrite Hna in E; [done|by left].
    + rewrite decide_True by done. simpl. apply IH. intros. eapply Hna; [done|by right].
  - rewrite decide_False by done. apply IH. intros. eapply Hna; [done|by right].
Qed.

Lemma extract_loop_inl leaf items acc na p :
  role_no_access = Some na → (na, p) ∈ items → p || leaf = true →
  extract_loop leaf items acc = inl {[ na := false ]}.
Proof.
  intros Hna. revert acc. induction items as [|[r q] items IH]; intros acc Hin Hp.
  - by apply not_elem_of_nil in Hin.
  - apply elem_of_cons in Hin as [[= <- <-]|Hin]; simpl.
    + rewrite Hp. by rewrite decide_True.
    + destruct (q || leaf); [case_decide; [congruence|]|]; auto.
Qed.

Lemma foldl_insert_list_to_map (items : list (rstr * bool)) (acc : RoleMap) :
  NoDup items.*1 →
  foldl (λ m kv, <[ kv.1 := kv.2 ]> m) acc items = list_to_map items ∪ acc.
Proof.
  revert acc. induction items as [|[k v] items IH]; intros acc Hnd; simpl.
  - by rewrite (left_id_L ∅ (∪)).
  - inversion Hnd as [|? ? Hk Hnd']; subst. rewrite IH by done.
    rewrite <- insert_union_r, <- insert_union_l; [done|].
    by apply not_elem_of_list_to_map.
Qed.

Lemma filter_map_to_list_perm (leaf : bool) (m : RoleMap) (items : list (rstr * bool)) :
  items ≡ₚ map_to_list m →
  foldl (λ m kv, <[ kv.1 := kv.2 ]> m) ∅ (filter (λ kv, kv.2 || leaf = true) items) =
  filter (λ kv, kv.2 || leaf = true) m.
Proof.
  intros Hperm.
  assert (NoDup items.*1) as Hnd by (rewrite Hperm; apply NoDup_fst_map_to_list).
  assert (NoDup (filter (λ kv : rstr * bool, kv.2 || leaf = true) items).*1) as Hnd'.
  { eapply sublist_NoDup; [exact Hnd|]. apply fmap_sublist, sublist_filter. }
  rewrite foldl_insert_list_to_map by done. rewrite (right_id_L ∅ (∪)).
  apply map_eq. intros k. apply option_eq. intros v.
  rewrite <- elem_of_list_to_map by done.
  rewrite list_elem_of_filter, map_lookup_filter_Some, Hperm, elem_of_map_to_list. simpl. tauto.
Qed.

(** The extraction loop computes [extract_spec] in every iteration order. *)
Lemma extract_loop_spec leaf (m : RoleMap) items :
  items ≡ₚ map_to_list m → either (extract_loop leaf items ∅) = extract_spec leaf m.
Proof.
  intros Hperm. unfold extract_spec.
  destruct role_no_access as [na|] eqn:Hna.
  - unfold applies. destruct (m !! na) as [p|] eqn:Hm; [destruct (p || leaf) eqn:Hp|].
    + erewrite extract_loop_inl; [done|done| |exact Hp].
      by rewrite Hperm, elem_of_map_to_list.
    + rewrite extract_loop_inr; [by apply filter_map_to_list_perm|].
      intros na' p' Hr. rewrite Hperm, elem_of_map_to_list. congruence.
    + rewrite extract_loop_inr; [by apply filter_map_to_list_perm|].
      intros na' p' Hr. rewrite Hperm, elem_of_map_to_list. congruence.
  - rewrite extract_loop_inr; [by apply filter_map_to_list_perm|congruence].
Qed.

Lemma extract_user_roles_spec node a leaf :
  extract_user_roles node a leaf = extract_spec leaf (default ∅ (node.(users) !! a)).
Proof.
  unfold extract_user_roles. destruct (users node !! a) as [m|]; simpl.
  - by apply extract_loop_spec.
  - unfold extract_spec, applies. destruct role_no_access; [rewrite lookup_empty|];
      by rewrite map_filter_empty.
Qed.

(** Group roles are not applied: the membership test is a constant. *)
Lemma extract_group_roles_empty node u leaf : extract_group_roles node u leaf = ∅.
Proof.
  unfold extract_group_roles. generalize ((map_to_list (groups node)).*2) as l.
  induction l; simpl; auto.
Qed.

Lemma extract_roles_spec node a leaf :
  extract_roles node a leaf = extract_spec leaf (default ∅ (node.(users) !! a)).
Proof.
  unfold extract_roles. rewrite extract_group_roles_empty, extract_user_roles_spec.
  case_match eqn:E; [done|]. apply orb_false_iff in E as [E _].
  apply negb_false_iff, bool_decide_eq_true in E. done.
Qed.

(** ** Effective roles: the nearest node wins *)

(** The nodes on the way to a path that exist, the root first. *)
Fixpoint node_chain (node : AclTreeNode) (comps : list rstr) : list AclTreeNode :=
  node :: match comps with
          | [] => []
          | c :: comps' =>
              match bt_get c node.(children) with
              | Some n => node_chain n comps'
              | None => []
              end
          end.

(** What each of them contributes: all roles at the end of the path, only the
    propagating ones above it. *)
Fixpoint contributions (a : Authid) (comps : list rstr) (chain : list AclTreeNode) : list RoleMap :=
  match chain with
  | [] => []
  | n :: chain' =>
      extract_spec (bool_decide (comps = [])) (default ∅ (n.(users) !! a))
        :: contributions a (tail comps) chain'
  end.

(** The last non-empty contribution. *)
Definition nearest (ms : list RoleMap) : RoleMap :=
  foldl (λ acc m, if decide (m = ∅) then acc else m) ∅ ms.

Lemma roles_loop_nearest a node comps acc :
  roles_loop a node comps acc =
  foldl (λ acc m, if decide (m = ∅) then acc else m) acc
    (tail (contributions a comps (node_chain node comps))).
Proof.
  revert node acc. induction comps as [|c comps IH]; intros node acc; [done|].
  simpl. destruct (bt_get c (children node)) as [n|]; [|done].
  rewrite IH, extract_roles_spec. by destruct comps.
Qed.

Lemma roles_nearest tree a path :
  roles tree a path =
  nearest (contributions a (path_comps path) (node_chain tree (path_comps path))).
Proof.
  unfold roles, nearest. rewrite roles_loop_nearest, extract_roles_spec.
  replace (bool_decide (path = [])) with (bool_decide (path_comps path = []))
    by (apply bool_decide_ext; symmetry; apply path_comps_nil_iff).
  destruct (path_comps path) as [|c cs]; simpl; (case_decide as H; [by rewrite H|done]).
Qed.


(** ** The abstract view of a tree

    All that permission checks read of a tree is the role map of each
    authentication id at each path; a missing node has none. *)
Fixpoint user_at (node : AclTreeNode) (comps : list rstr) (a : Authid) : RoleMap :=
  match comps with
  | [] => default ∅ (node.(users) !! a)
  | c :: comps' =>
      match bt_get c node.(children) with
      | Some n => user_at n comps' a
      | None => ∅
      end
  end.

(** The effective roles in terms of the view: what the nodes at all prefixes of
    the path contribute, the longest prefix last. *)
Fixpoint view_contributions (view : list rstr → RoleMap) (comps : list rstr) : list RoleMap :=
  extract_spec (bool_decide (comps = [])) (view [])
    :: match comps with
       | [] => []
       | c :: comps' => view_contributions (λ cs, view (c :: cs)) comps'
       end.

Definition view_roles (view : list rstr → RoleMap) (comps : list rstr) : RoleMap :=
  nearest (view_contributions view comps).

Lemma extract_spec_empty leaf : extract_spec leaf ∅ = ∅.
Proof.
  unfold extract_spec, applies. destruct role_no_access; [rewrite lookup_empty|];
    by rewrite map_filter_empty.
Qed.

Lemma foldl_nearest_empty (ms : list RoleMap) (acc : RoleMap) :
  Forall (λ m, m = ∅) ms → foldl (λ acc m, if decide (m = ∅) then acc else m) acc ms = acc.
Proof.
  intros H. revert acc. induction H as [|m ms -> _ IH]; intros acc; simpl; [done|].
  by rewrite decide_True.
Qed.

Lemma view_contributions_empty (view : list rstr → RoleMap) comps :
  (∀ cs, view cs = ∅) → Forall (λ m, m = ∅) (view_contributions view comps).
Proof.
  revert view. induction comps as [|c comps IH]; intros view Hv; simpl;
    constructor; rewrite ?Hv, ?extract_spec_empty; auto.
Qed.

Lemma contributions_view a tree comps acc :
  foldl (λ acc m, if decide (m = ∅) then acc else m) acc
    (contributions a comps (node_chain tree comps)) =
  foldl (λ acc m, if decide (m = ∅) then acc else m) acc
    (view_contributions (λ cs, user_at tree cs a) comps).
Proof.
  revert tree acc. induction comps as [|c comps IH]; intros tree acc; simpl; [done|].
  destruct (bt_get c (children tree)) as [n|]; simpl; [apply IH|].
  rewrite foldl_nearest_empty; [done|]. by apply view_contributions_empty.
Qed.

(** [C1] The effective roles of an authentication id on a path are those of the
    nearest node: walking down the path, every node whose applicable role map
    for the id is non-empty replaces what was found above it; a node above the
    end of the path offers only its propagating roles, the node at the end all
    of its roles, and an applicable ["NoAccess"] hides the node's other roles. *)
Theorem roles_refines_view (tree : AclTreeNode) (a : Authid) (path : list rstr) :
  roles tree a path = view_roles (λ cs, user_at tree cs a) (path_comps path).
Proof. rewrite roles_nearest. apply contributions_view. Qed.

Lemma view_contributions_ext (v1 v2 : list rstr → RoleMap) comps :
  (∀ cs, v1 cs = v2 cs) → view_contributions v1 comps = view_contributions v2 comps.
Proof.
  revert v1 v2. induction comps as [|c comps IH]; intros v1 v2 H; simpl; rewrite H; [done|].
  f_equal. by apply IH.
Qed.
End AclTheory.

(** Trees with the same view: the equivalence that permission checks respect. *)
Definition tree_equiv (t1 t2 : AclTreeNode) : Prop :=
  ∀ cs a, user_at t1 cs a = user_at t2 cs a.

#[global] Instance tree_equiv_equivalence : Equivalence tree_equiv.
Proof.
  split; unfold tree_equiv; [done|intros t1 t2 H cs a; by rewrite H|].
  intros t1 t2 t3 H1 H2 cs a. by rewrite H1, H2.
Qed.

#[global] Instance roles_proper {conf : AccessControlConfig} :
  Proper (tree_equiv ==> (=) ==> (=) ==> (=)) roles.
Proof.
  intros t1 t2 Ht ? a -> ? path ->. rewrite !roles_nearest. unfold nearest.
  rewrite !contributions_view. erewrite view_contributions_ext; [done|]. intros cs. apply Ht.
Qed.

#[global] Instance lookup_privs_details_proper {conf : AccessControlConfig} :
  Proper (tree_equiv ==> (=) ==> (=) ==> (=)) lookup_privs_details.
Proof.
  intros t1 t2 Ht ? a -> ? path ->. unfold lookup_privs_details, lookup_privs_user.
  assert (∀ b, roles t1 b path = roles t2 b path) as E by (intros b; by apply roles_proper).
  by rewrite !E.
Qed.

(** ** Updates in terms of the view *)

Lemma user_at_node_new cs a : user_at node_new cs a = ∅.
Proof. by destruct cs. Qed.

(** An update through [get_or_insert_node] changes the node it names only. *)
Lemma user_at_insert_node node comps f cs a :
  (∀ n, children (f n) = children n) →
  user_at (insert_node_comps node comps f) cs a =
  if decide (cs = comps)
  then default ∅ (users (f (default node_new (get_node_comps node comps))) !! a)
  else user_at node cs a.
Proof.
  intros Hf. revert node cs. induction comps as [|c comps IH]; intros node cs; simpl.
  - destruct cs as [|c' cs]; simpl; [done|]. by rewrite Hf.
  - destruct cs as [|c' cs]; simpl; [done|].
    destruct (decide (c = c')) as [<-|Hne].
    + rewrite bt_get_insert_eq, IH.
      destruct (bt_get c (children node)) as [n|]; simpl.
      * destruct (decide (cs = comps)) as [->|]; [by rewrite !decide_True|].
        by rewrite !decide_False by congruence.
      * destruct (decide (cs = comps)) as [->|].
        -- rewrite !decide_True by done. f_equal. f_equal. f_equal. f_equal.
           clear. induction comps; simpl; done.
        -- rewrite !decide_False by congruence. apply user_at_node_new.
    + rewrite bt_get_insert_ne by done. by rewrite decide_False by congruence.
Qed.

(** So does an update through [get_node_mut], when the node exists. *)
Lemma user_at_update_node node comps f node' cs a :
  (∀ n, children (f n) = children n) →
  update_node_comps node comps f = Some node' →
  user_at node' cs a =
  if decide (cs = comps)
  then default ∅ (n ← get_node_comps node comps; users (f n) !! a)
  else user_at node cs a.
Proof.
  intros Hf. revert node node' cs. induction comps as [|c comps IH]; intros node node' cs; simpl.
  - intros [= <-]. destruct cs as [|c' cs]; simpl; [done|]. by rewrite Hf.
  - destruct (bt_get c (children node)) as [n|] eqn:Ec; [|done].
    destruct (update_node_comps n comps f) as [n'|] eqn:Eu; [|done]. intros [= <-].
    destruct cs as [|c' cs]; simpl; [done|].
    destruct (decide (c = c')) as [<-|Hne].
    + rewrite bt_get_insert_eq, Ec, (IH n n') by done.
      destruct (decide (cs = comps)) as [->|]; [by rewrite decide_True|].
      by rewrite decide_False by congruence.
    + rewrite bt_get_insert_ne by done. by rewrite decide_False by congruence.
Qed.

Lemma update_node_comps_None node comps f :
  update_node_comps node comps f = None ↔ get_node_comps node comps = None.
Proof.
  revert node. induction comps as [|c comps IH]; intros node; simpl; [done|].
  destruct (bt_get c (children node)) as [n|]; [|done]. rewrite <- IH.
  by destruct (update_node_comps n comps f).
Qed.

(** Deleting an id everywhere. *)
Lemma bt_get_delete_authid a (l : list (rstr * AclTreeNode)) c :
  bt_get c ((fix go (l : list (rstr * AclTreeNode)) : list (rstr * AclTreeNode) :=
          match l with
          | [] => []
          | (k, n) :: l' => (k, node_delete_authid a n) :: go l'
          end) l) = node_delete_authid a <$> bt_get c l.
Proof. induction l as [|[k n] l IH]; simpl; [done|]. by case_decide. Qed.

Lemma user_at_delete_authid a node cs b :
  user_at (delete_authid node a) cs b = if decide (a = b) then ∅ else user_at node cs b.
Proof.
  unfold delete_authid. revert node. induction cs as [|c cs IH]; intros [us gs ch]; simpl.
  - rewrite lookup_delete. by case_decide.
  - rewrite bt_get_delete_authid. destruct (bt_get c ch) as [n|]; simpl; [apply IH|].
    by case_decide.
Qed.

(** ** The invariant of the trees the operations build *)
Section Invariant.
Context {conf : AccessControlConfig}.

(** ["NoAccess"] never stands beside another role of the same id. *)
Definition role_map_ok (m : RoleMap) : Prop :=
  ∀ na p, role_no_access = Some na → m !! na = Some p → m = {[ na := p ]}.

Inductive wf_node : AclTreeNode → Prop :=
| wf_mkNode us gs ch :
    map_Forall (λ _ m, role_map_ok m) us →
    map_Forall (λ _ m, role_map_ok m) gs →
    bt_sorted ch →
    Forall (λ kc, kc.1 ≠ [] ∧ slash ∉ kc.1) ch →
    Forall (λ kc, wf_node kc.2) ch →
    wf_node (mkNode us gs ch).

(** One operation on the tree. *)
Inductive acl_step : AclTreeNode → AclTreeNode → Prop :=
| step_insert_user t path a role p : acl_step t (insert_user_role t path a role p)
| step_insert_group t path g role p : acl_step t (insert_group_role t path g role p)
| step_delete_user t path a role : acl_step t (delete_user_role t path a role)
| step_delete_group t path g role : acl_step t (delete_group_role t path g role)
| step_delete_node t path : acl_step t (delete_node t path)
| step_delete_authid t a : acl_step t (delete_authid t a)
| step_parse_line t line : acl_step t (parse_acl_line t line).1.

Lemma role_map_ok_empty : role_map_ok ∅.
Proof. intros na p _. by rewrite lookup_empty. Qed.

Lemma role_map_ok_insert m role p : role_map_ok m → role_map_ok (insert_role m role p).
Proof.
  intros Hm na q Hna. unfold insert_role. rewrite Hna.
  destruct (decide (role = na)) as [->|Hne].
  - rewrite lookup_insert_eq. by intros [= ->].
  - rewrite lookup_insert_ne by done. by rewrite lookup_delete_eq.
Qed.

Lemma role_map_ok_delete m role : role_map_ok m → role_map_ok (delete role m).
Proof.
  intros Hm na p Hna Hl. apply lookup_delete_Some in Hl as [Hne Hl].
  rewrite (Hm na p Hna Hl). by rewrite delete_singleton_ne.
Qed.

Lemma wf_node_new : wf_node node_new.
Proof. constructor; try done; apply map_Forall_empty. Qed.

Lemma wf_bt_get ch c n : Forall (λ kc, wf_node kc.2) ch → bt_get c ch = Some n → wf_node n.
Proof. rewrite Forall_forall. intros H Hg. apply (H (c, n)). by apply bt_get_In. Qed.

Lemma Forall_bt_insert {V} (P : rstr * V → Prop) k v m :
  P (k, v) → Forall P m → Forall P (bt_insert k v m).
Proof.
  intros Hp. induction 1 as [|[k' v'] m Hk Hm IH]; simpl; [by constructor|].
  destruct (str_compare k k'); repeat constructor; auto.
Qed.

Lemma wf_insert_node node comps f :
  (∀ n, wf_node n → wf_node (f n)) → Forall (λ c, c ≠ [] ∧ slash ∉ c) comps →
  wf_node node → wf_node (insert_node_comps node comps f).
Proof.
  intros Hf. revert node. induction comps as [|c comps IH]; intros node Hc Hn; simpl; [auto|].
  inversion Hc as [|? ? Hc1 Hc2]; subst. inversion Hn as [us gs ch Hu Hg Hs Hk Hw]; subst; simpl.
  constructor; try done.
  - by apply bt_sorted_insert.
  - by apply Forall_bt_insert.
  - apply Forall_bt_insert; [|done]. simpl. apply IH; [done|].
    destruct (bt_get c ch) eqn:E; simpl; [by eapply wf_bt_get|apply wf_node_new].
Qed.

Lemma wf_update_node node comps f node' :
  (∀ n, wf_node n → wf_node (f n)) → wf_node node →
  update_node_comps node comps f = Some node' → wf_node node'.
Proof.
  intros Hf. revert node node'. induction comps as [|c comps IH]; intros node node' Hn; simpl.
  - intros [= <-]. auto.
  - destruct (bt_get c (children node)) as [n|] eqn:Ec; [|done].
    destruct (update_node_comps n comps f) as [n'|] eqn:Eu; [|done]. intros [= <-].
    inversion Hn as [us gs ch Hu Hg Hs Hk Hw]; subst; simpl in *.
    constructor; try done.
    + by apply bt_sorted_insert.
    + apply Forall_bt_insert; [|done]. rewrite Forall_forall in Hk.
      apply (Hk (c, n)). by apply bt_get_In.
    + apply Forall_bt_insert; [|done]. simpl. eapply IH; [|done]. by eapply wf_bt_get.
Qed.

Lemma wf_get_node_mut tree path f :
  (∀ n, wf_node n → wf_node (f n)) → wf_node tree →
  wf_node (default tree (get_node_mut tree path f)).
Proof.
  intros Hf Ht. unfold get_node_mut.
  destruct (update_node_comps _ _ _) eqn:E; simpl; [|done]. by eapply wf_update_node.
Qed.

Lemma wf_get_or_insert tree path f :
  (∀ n, wf_node n → wf_node (f n)) → wf_node tree →
  wf_node (get_or_insert_node tree (split_acl_path path) f).
Proof.
  intros Hf Ht. unfold get_or_insert_node. rewrite path_comps_split.
  apply wf_insert_node; auto. apply split_acl_path_clean.
Qed.

(** The updates of one node keep the invariant. *)
Lemma wf_node_insert_user node a role p :
  wf_node node → wf_node (node_insert_user_role node a role p).
Proof.
  inversion 1 as [us gs ch Hu Hg Hs Hk Hw]; subst. constructor; try done; simpl.
  apply map_Forall_insert_2; [|done]. apply role_map_ok_insert.
  destruct (us !! a) eqn:E; simpl; [by eapply Hu|apply role_map_ok_empty].
Qed.

Lemma wf_node_insert_group node g role p :
  wf_node node → wf_node (node_insert_group_role node g role p).
Proof.
  inversion 1 as [us gs ch Hu Hg Hs Hk Hw]; subst. constructor; try done; simpl.
  apply map_Forall_insert_2; [|done]. apply role_map_ok_insert.
  destruct (gs !! g) eqn:E; simpl; [by eapply Hg|apply role_map_ok_empty].
Qed.

Lemma wf_node_delete_user node a role : wf_node node → wf_node (node_delete_user_role node a role).
Proof.
  intros Hn. unfold node_delete_user_role. case_match eqn:E; [|done].
  inversion Hn as [us gs ch Hu Hg Hs Hk Hw]; subst. constructor; try done; simpl.
  apply map_Forall_insert_2; [|done]. apply role_map_ok_delete. by eapply Hu.
Qed.

Lemma wf_node_delete_group node g role : wf_node node → wf_node (node_delete_group_role node g role).
Proof.
  intros Hn. unfold node_delete_group_role. case_match eqn:E; [|done].
  inversion Hn as [us gs ch Hu Hg Hs Hk Hw]; subst. constructor; try done; simpl.
  apply map_Forall_insert_2; [|done]. apply role_map_ok_delete. by eapply Hg.
Qed.

Lemma wf_insert_entries propagate items node :
  wf_node node → wf_node (insert_entries propagate items node).1.
Proof.
  revert node. induction items as [|[ug role] items IH]; intros node Hn; simpl; [done|].
  cases; auto using wf_node_insert_user, wf_node_insert_group.
Qed.
End Invariant.

#[export] Hint Resolve wf_get_node_mut wf_get_or_insert wf_node_insert_user
  wf_node_insert_group wf_node_delete_user wf_node_delete_group wf_insert_entries : rust.
