(* ===== verification/AclProps.v ===== *)
(** * AclProps: the properties of the access control tree

    The invariant of reachable trees, the effect of each update on the effective
    roles, the privileges computed from roles, and the questions
    [any_privs_below] answers. *)
From S2P Require Import Prelude Schema AuthTypes Acl AclTheory.

Section AclProps.
Context {conf : AccessControlConfig}.
Implicit Types (tree : AclTreeNode) (a b : Authid).

Lemma bt_lb_fmap {V} (f : V → V) k (m : list (rstr * V)) :
  bt_lb k ((λ kv, (kv.1, f kv.2)) <$> m) ↔ bt_lb k m.
Proof. induction m as [|[k' v] m IH]; simpl; [done|]. by rewrite IH. Qed.

Lemma bt_sorted_fmap {V} (f : V → V) (m : list (rstr * V)) :
  bt_sorted ((λ kv, (kv.1, f kv.2)) <$> m) ↔ bt_sorted m.
Proof. induction m as [|[k' v] m IH]; simpl; [done|]. by rewrite IH, bt_lb_fmap. Qed.

Lemma delete_authid_children a us gs ch :
  node_delete_authid a (mkNode us gs ch) =
  mkNode (delete a us) gs ((λ kv, (kv.1, node_delete_authid a kv.2)) <$> ch).
Proof.
  simpl. f_equal. induction ch as [|[k n] ch IH]; simpl; [done|]. by f_equal.
Qed.

Lemma wf_delete_authid a tree : wf_node tree → wf_node (delete_authid tree a).
Proof.
  unfold delete_authid. induction tree as [us gs ch IH] using AclTreeNode_nested_ind.
  rewrite delete_authid_children.
  inversion 1 as [us' gs' ch' Hu Hg Hs Hk Hw]; subst. constructor; try done.
  - by apply map_Forall_delete.
  - by apply bt_sorted_fmap.
  - by apply Forall_fmap.
  - apply Forall_fmap. rewrite Forall_forall in *. intros kc Hin. simpl.
    by apply IH, Hw.
Qed.

Lemma Forall_bt_remove {V} (P : rstr * V → Prop) k m : Forall P m → Forall P (bt_remove k m).
Proof.
  unfold bt_remove. induction 1; [constructor|]. rewrite filter_cons. case_decide; auto.
Qed.

Lemma wf_delete_child name node :
  wf_node node → wf_node (mkNode node.(users) node.(groups) (bt_remove name node.(children))).
Proof.
  inversion 1 as [us gs ch Hu Hg Hs Hk Hw]; subst. constructor; try done; simpl.
  - by apply bt_sorted_remove.
  - by apply Forall_bt_remove.
  - by apply Forall_bt_remove.
Qed.

(** Every tree the operations of the tree can build, from the empty tree by
    any sequence of insertions, deletions and parsed lines (valid or not), is
    well formed: at every node ["NoAccess"] is the only role of an id that has
    it, the children are in key order, and their names are non-empty and free
    of ['/']. *)
Theorem reachable_wf tree : rtc acl_step node_new tree → wf_node tree.
Proof.
  intros Hr. cut (∀ t, rtc acl_step t tree → wf_node t → wf_node tree).
  { intros H. eapply H; [exact Hr|apply wf_node_new]. }
  clear Hr. intros t. induction 1 as [|t t' t'' Hstep _ IH]; [done|]. intros Ht. apply IH.
  destruct Hstep; try (apply wf_get_or_insert; auto with rust; fail);
    try (apply wf_get_node_mut; auto with rust; fail).
  - apply wf_get_node_mut; [|done]. intros n Hn. case_match; [by apply wf_delete_child|done].
  - by apply wf_delete_authid.
  - unfold parse_acl_line. cases; try done; apply wf_get_or_insert; auto with rust.
Qed.

(** ** Insertion and deletion of roles *)

Lemma children_delete_user n a role : children (node_delete_user_role n a role) = children n.
Proof. unfold node_delete_user_role. by case_match. Qed.

Lemma get_node_user_at tree comps a :
  default ∅ (users (default node_new (get_node_comps tree comps)) !! a) = user_at tree comps a.
Proof.
  revert tree. induction comps as [|c comps IH]; intros tree; simpl; [done|].
  destruct (bt_get c (children tree)); simpl; [apply IH|by rewrite lookup_empty].
Qed.

Lemma user_at_insert_user tree path a role p cs b :
  user_at (insert_user_role tree path a role p) cs b =
  if decide (cs = split_acl_path path ∧ a = b)
  then insert_role (user_at tree cs b) role p
  else user_at tree cs b.
Proof.
  unfold insert_user_role, get_or_insert_node. rewrite path_comps_split.
  rewrite user_at_insert_node by done. simpl.
  destruct (decide (cs = split_acl_path path)) as [->|Hne].
  - rewrite get_node_user_at. destruct (decide (a = b)) as [<-|Hab].
    + by rewrite lookup_insert_eq, decide_True.
    + rewrite lookup_insert_ne, decide_False by tauto. apply get_node_user_at.
  - by rewrite decide_False by tauto.
Qed.

Lemma extract_spec_leaf m :
  role_map_ok m →
  extract_spec true m =
  match role_no_access with
  | Some na => if decide (is_Some (m !! na)) then {[ na := false ]} else m
  | None => m
  end.
Proof.
  intros Hm. unfold extract_spec, applies.
  assert (filter (λ kv, kv.2 || true = true) m = m) as Hf.
  { apply map_filter_id. intros. by rewrite orb_true_r. }
  destruct role_no_access as [na|]; [|done].
  destruct (m !! na) as [p|] eqn:E; [rewrite orb_true_r|].
  - by rewrite decide_True by eauto.
  - rewrite decide_False by (by intros []). done.
Qed.

Lemma view_contributions_app (view : list rstr → RoleMap) c comps :
  ∃ ms, view_contributions view (c :: comps) = ms ++ [extract_spec true (view (c :: comps))].
Proof.
  revert view c. induction comps as [|c' comps IH]; intros view c.
  - by exists [extract_spec false (view [])].
  - destruct (IH (λ cs, view (c :: cs)) c') as [ms Hms].
    exists (extract_spec false (view []) :: ms). simpl in *. by rewrite Hms.
Qed.

(** The node at the end of the path decides when it has any roles for the id. *)
Lemma roles_at_end tree a path :
  extract_spec true (user_at tree (path_comps path) a) ≠ ∅ →
  roles tree a path = extract_spec true (user_at tree (path_comps path) a).
Proof.
  intros Hne. rewrite roles_nearest. unfold nearest. rewrite contributions_view.
  destruct (path_comps path) as [|c cs].
  - simpl. by rewrite decide_False.
  - destruct (view_contributions_app (λ cs, user_at tree cs a) c cs) as [ms ->].
    rewrite foldl_app. simpl. by rewrite decide_False.
Qed.

Lemma role_map_ok_user_at tree cs a : wf_node tree → role_map_ok (user_at tree cs a).
Proof.
  revert tree. induction cs as [|c cs IH]; intros tree;
    inversion 1 as [us gs ch Hu Hg Hs Hk Hw]; subst; simpl.
  - destruct (us !! a) eqn:E; simpl; [by eapply Hu|apply role_map_ok_empty].
  - destruct (bt_get c ch) eqn:E; [|apply role_map_ok_empty].
    apply IH. by eapply wf_bt_get.
Qed.

(** At the end of the path a freshly inserted role applies. *)
Lemma extract_insert_role m role p :
  role_map_ok m →
  extract_spec true (insert_role m role p) =
  if decide (role_no_access = Some role) then {[ role := false ]} else insert_role m role p.
Proof.
  intros Hm. rewrite extract_spec_leaf by by apply role_map_ok_insert.
  unfold insert_role. destruct role_no_access as [na|] eqn:Hna; [|done].
  destruct (decide (role = na)) as [->|Hne].
  - rewrite !decide_True; [done|done|]. rewrite lookup_insert_eq. eauto.
  - rewrite lookup_insert_ne by done. rewrite lookup_delete_eq.
    rewrite decide_False by (by intros []). by rewrite decide_False by congruence.
Qed.

(** Granting a role: after [insert_user_role] the role is effective for the
    id on that path with the given propagation flag (and ["NoAccess"] is then
    the only effective role, any other role displaces ["NoAccess"]), and no
    other id's effective roles change anywhere. *)
Theorem insert_user_role_effect tree path a role p :
  wf_node tree →
  let tree' := insert_user_role tree path a role p in
  roles tree' a (split_acl_path path) =
    (if decide (role_no_access = Some role) then {[ role := false ]}
     else insert_role (user_at tree (split_acl_path path) a) role p) ∧
  ∀ b q, b ≠ a → roles tree' b q = roles tree b q.
Proof.
  intros Hwf tree'. split.
  - assert (user_at tree' (split_acl_path path) a =
            insert_role (user_at tree (split_acl_path path) a) role p) as Hu.
    { unfold tree'. by rewrite user_at_insert_user, decide_True. }
    pose proof (role_map_ok_user_at tree (split_acl_path path) a Hwf) as Hok.
    rewrite roles_at_end; rewrite path_comps_split, Hu, (extract_insert_role _ _ _ Hok); [done|].
    case_decide; [apply map_non_empty_singleton|apply insert_non_empty].
  - intros b q Hne. rewrite !roles_nearest. unfold nearest. rewrite !contributions_view.
    erewrite view_contributions_ext; [done|]. intros cs. unfold tree'.
    rewrite user_at_insert_user. by rewrite decide_False by (intros [_ ?]; congruence).
Qed.

Lemma user_at_delete_user tree path a role cs b :
  user_at (delete_user_role tree path a role) cs b =
  if decide (cs = split_acl_path path ∧ a = b)
  then delete role (user_at tree cs b)
  else user_at tree cs b.
Proof.
  unfold delete_user_role, get_node_mut. rewrite path_comps_split.
  destruct (update_node_comps _ _ _) as [t'|] eqn:E; simpl.
  - rewrite (user_at_update_node _ _ _ _ cs b (λ n, children_delete_user n a role) E).
    destruct (decide (cs = split_acl_path path)) as [->|Hne]; [|by rewrite decide_False by tauto].
    rewrite <- get_node_user_at.
    destruct (get_node_comps tree (split_acl_path path)) as [n|] eqn:En; simpl.
    + unfold node_delete_user_role. destruct (decide (a = b)) as [<-|Hab].
      * rewrite decide_True by done.
        destruct (users n !! a) eqn:Eu; simpl; [by rewrite lookup_insert_eq|].
        by rewrite Eu, delete_empty.
      * rewrite decide_False by tauto. case_match; simpl; [|done].
        by rewrite lookup_insert_ne.
    + by rewrite (proj2 (update_node_comps_None _ _ _) En) in E.
  - apply update_node_comps_None in E. case_decide as H; [|done]. destruct H as [-> ->].
    rewrite <- get_node_user_at, E. simpl. rewrite lookup_empty. simpl. by rewrite delete_empty.
Qed.

(** A role map differs from another only at one id of one path. *)
Lemma roles_frame tree tree' b q :
  (∀ cs, user_at tree' cs b = user_at tree cs b) → roles tree' b q = roles tree b q.
Proof.
  intros H. rewrite !roles_nearest. unfold nearest. rewrite !contributions_view.
  by erewrite view_contributions_ext.
Qed.

(** Revoking a role: [delete_user_role] removes exactly that role of that id
    at that path from the tree, whether or not the path exists, and no other
    id's effective roles change anywhere. *)
Theorem delete_user_role_effect tree path a role :
  let tree' := delete_user_role tree path a role in
  user_at tree' (split_acl_path path) a = delete role (user_at tree (split_acl_path path) a) ∧
  (∀ cs, cs ≠ split_acl_path path → user_at tree' cs a = user_at tree cs a) ∧
  ∀ b q, b ≠ a → roles tree' b q = roles tree b q.
Proof.
  intros tree'. unfold tree'. split; [|split].
  - by rewrite user_at_delete_user, decide_True.
  - intros cs Hcs. by rewrite user_at_delete_user, decide_False by tauto.
  - intros b q Hne. apply roles_frame. intros cs.
    by rewrite user_at_delete_user, decide_False by (intros [_ ?]; congruence).
Qed.

(** Removing an id: after [delete_authid] the id has no roles on any path,
    and the effective roles of every other id are unchanged. *)
Theorem delete_authid_effect tree a b q :
  roles (delete_authid tree a) b q = if decide (a = b) then ∅ else roles tree b q.
Proof.
  case_decide as Hab.
  - subst b. rewrite roles_nearest. unfold nearest. rewrite contributions_view.
    apply foldl_nearest_empty, view_contributions_empty. intros cs.
    by rewrite user_at_delete_authid, decide_True.
  - apply roles_frame. intros cs. by rewrite user_at_delete_authid, decide_False.
Qed.

(** ** Deletion of a node *)
Lemma get_node_update_node node comps f node' :
  update_node_comps node comps f = Some node' →
  get_node_comps node' comps = f <$> get_node_comps node comps.
Proof.
  revert node node'. induction comps as [|c comps IH]; intros node node'; simpl.
  - by intros [= <-].
  - destruct (bt_get c (children node)) as [n|]; [|done].
    destruct (update_node_comps n comps f) as [n'|] eqn:E; [|done]. intros [= <-]. simpl.
    rewrite bt_get_insert_eq. by apply IH.
Qed.

Lemma get_node_comps_app node cs1 cs2 :
  get_node_comps node (cs1 ++ cs2) = n ← get_node_comps node cs1; get_node_comps n cs2.
Proof.
  revert node. induction cs1 as [|c cs1 IH]; intros node; simpl; [done|].
  destruct (bt_get c (children node)); simpl; [apply IH|done].
Qed.

(** The update [delete_node] makes through the parent. *)
Definition remove_child (name : rstr) (n : AclTreeNode) : AclTreeNode :=
  mkNode n.(users) n.(groups) (bt_remove name n.(children)).

Lemma user_at_remove_child node parent name node' cs a :
  update_node_comps node parent (remove_child name) = Some node' →
  ¬ (parent ++ [name]) `prefix_of` cs →
  user_at node' cs a = user_at node cs a.
Proof.
  revert node node' cs. induction parent as [|c parent IH]; intros node node' cs; simpl.
  - intros [= <-] Hpre. destruct cs as [|c' cs]; simpl; [done|].
    rewrite bt_get_remove_ne; [done|]. intros ->. apply Hpre. by exists cs.
  - destruct (bt_get c (children node)) as [n|] eqn:Ec; [|done].
    destruct (update_node_comps n parent _) as [n'|] eqn:Eu; [|done]. intros [= <-] Hpre.
    destruct cs as [|c' cs]; simpl; [done|].
    destruct (decide (c = c')) as [<-|Hne]; [|by rewrite bt_get_insert_ne].
    rewrite bt_get_insert_eq, Ec. apply (IH _ _ _ Eu). intros Hp. apply Hpre.
    by apply prefix_cons.
Qed.

(** A clean path is its parent and its name, and [delete_node] works on those. *)
Lemma delete_node_split tree path parent name :
  split_acl_path path = parent ++ [name] →
  delete_node tree path = default tree (update_node_comps tree parent (remove_child name)).
Proof.
  intros Hp. unfold delete_node, get_node_mut. rewrite Hp, removelast_last, last_snoc.
  assert (Forall (λ c, slash ∉ c) (parent ++ [name])) as [Hc _]%Forall_app.
  { rewrite <- Hp. eapply Forall_impl; [apply split_acl_path_clean|]. by intros ? [_ ?]. }
  by rewrite (path_comps_clean parent).
Qed.

(** [delete_node] removes the node and everything below it, and leaves the
    role maps of all other paths unchanged; in particular the root cannot be
    deleted. *)
Theorem delete_node_effect tree path :
  let p := split_acl_path path in
  (∀ rest, p ≠ [] → get_node_comps (delete_node tree path) (p ++ rest) = None) ∧
  (∀ cs a, p = [] ∨ ¬ p `prefix_of` cs → user_at (delete_node tree path) cs a = user_at tree cs a).
Proof.
  intros p. destruct (decide (p = [])) as [Hnil|Hne].
  - split; [done|]. intros cs a _. unfold delete_node. fold p. by rewrite Hnil.
  - destruct (exists_last Hne) as [parent [name Hp]].
    rewrite (delete_node_split _ _ _ _ Hp), Hp. split.
    + intros rest _. rewrite <- app_assoc, get_node_comps_app.
      destruct (update_node_comps _ _ _) as [t'|] eqn:E; simpl.
      * rewrite (get_node_update_node _ _ _ _ E).
        destruct (get_node_comps tree parent) as [n|]; simpl; [|done].
        by rewrite bt_get_remove_eq.
      * apply update_node_comps_None in E. by rewrite E.
    + intros cs a [?|Hpre]; [by destruct parent|].
      destruct (update_node_comps _ _ _) as [t'|] eqn:E; simpl; [|done].
      by apply (user_at_remove_child _ _ _ _ _ _ E).
Qed.
End AclProps.
