(* ===== verification/AclPrivs.v ===== *)
(** * AclPrivs: privileges computed from the effective roles

    Theorems about [lookup_privs_details], [check_privs] and [any_privs_below]
    of [proxmox-access-control/src/acl.rs]. *)
From S2P Require Import Prelude Schema AuthTypes Acl AclTheory AclProps.

Section AclPrivs.
Context {conf : AccessControlConfig}.
Implicit Types (tree : AclTreeNode) (a : Authid) (i : N).

(** The privileges the configuration gives a role. *)
Definition role_bit (role : rstr) (i : N) : bool :=
  match conf_roles !! role with
  | Some (privs, _) => N.testbit privs i
  | None => false
  end.

Lemma foldl_add_role_bits (items : list (rstr * bool)) acc i :
  N.testbit (foldl add_role acc items).1 i =
    N.testbit acc.1 i || existsb (λ e, role_bit e.1 i) items ∧
  N.testbit (foldl add_role acc items).2 i =
    N.testbit acc.2 i || existsb (λ e, e.2 && role_bit e.1 i) items.
Proof.
  revert acc. induction items as [|[r p] items IH]; intros acc; simpl; [by rewrite !orb_false_r|].
  destruct (IH (add_role acc (r, p))) as [-> ->]. unfold add_role, role_bit. simpl.
  destruct (conf_roles !! r) as [[pv c]|]; simpl; [|by rewrite andb_false_r].
  rewrite N.lor_spec, orb_assoc. split; [done|].
  destruct p; simpl; [by rewrite N.lor_spec, orb_assoc|done].
Qed.

Lemma existsb_map_to_list (f : rstr * bool → bool) (m : RoleMap) :
  existsb f (map_to_list m) = true ↔ ∃ r p, m !! r = Some p ∧ f (r, p) = true.
Proof.
  rewrite existsb_exists. split.
  - intros [[r p] [Hin Hf]]. exists r, p. split; [|done].
    by apply elem_of_map_to_list, list_elem_of_In.
  - intros (r & p & Hm & Hf). exists (r, p). split; [|done].
    by apply list_elem_of_In, elem_of_map_to_list.
Qed.

Lemma sum_privs_bits (m : RoleMap) i :
  (N.testbit (sum_privs m).1 i = true ↔ ∃ r p, m !! r = Some p ∧ role_bit r i = true) ∧
  (N.testbit (sum_privs m).2 i = true ↔ ∃ r, m !! r = Some true ∧ role_bit r i = true).
Proof.
  unfold sum_privs. destruct (foldl_add_role_bits (map_to_list m) (0%N, 0%N) i) as [-> ->].
  simpl. rewrite !existsb_map_to_list. split; [done|]. simpl.
  setoid_rewrite andb_true_iff. split.
  - intros (r & p & Hm & -> & Hb). eauto.
  - intros (r & Hm & Hb). exists r, true. auto.
Qed.

(** [b] is included in [c], as sets of privilege bits. *)
Definition privs_incl (b c : N) : Prop := N.land b c = b.

Lemma privs_incl_bits b c : privs_incl b c ↔ ∀ i, N.testbit b i = true → N.testbit c i = true.
Proof.
  unfold privs_incl. split.
  - intros H i Hb. rewrite <- H, N.land_spec in Hb. by apply andb_true_iff in Hb as [_ ?].
  - intros H. apply N.bits_inj. intros i. rewrite N.land_spec.
    specialize (H i). destruct (N.testbit b i); simpl; auto.
Qed.

Lemma sum_privs_incl m : privs_incl (sum_privs m).2 (sum_privs m).1.
Proof.
  apply privs_incl_bits. intros i. rewrite (proj1 (sum_privs_bits m i)), (proj2 (sum_privs_bits m i)).
  intros (r & ? & ?). eauto.
Qed.

Lemma lookup_privs_details_owner tree u path :
  lookup_privs_details tree (authid_from_userid u) path =
  lookup_privs_user tree (authid_from_userid u) path.
Proof.
  unfold lookup_privs_details, lookup_privs_user. case_match; [done|]. by destruct (sum_privs _).
Qed.

(** The privileges of a plain user on a path are exactly the union of the
    privileges of the effective roles, and the propagated privileges the union
    over the roles with the propagation flag, whatever the order in which the
    hash map of roles is iterated. *)
Theorem lookup_privs_bits tree a path i :
  superuser_privs a = None → is_token a = false →
  (N.testbit (lookup_privs tree a path) i = true ↔
   ∃ role p, roles tree a path !! role = Some p ∧ role_bit role i = true) ∧
  (N.testbit (lookup_privs_details tree a path).2 i = true ↔
   ∃ role, roles tree a path !! role = Some true ∧ role_bit role i = true).
Proof.
  intros Hs Ht. unfold lookup_privs, lookup_privs_details. rewrite Hs, Ht.
  pose proof (sum_privs_bits (roles tree a path) i) as H. by destruct (sum_privs _).
Qed.

(** [C2] An API token that is not itself a superuser has no more privileges on a path
    than the user who owns it, neither direct nor propagated ones. A token that the
    product configures as a superuser has exactly the privileges of the administrator
    role, before its owner is asked for. *)
Theorem token_privs_le_owner tree a path :
  is_token a = true →
  match superuser_privs a with
  | Some admin => lookup_privs_details tree a path = (admin, admin)
  | None =>
      let owner := authid_from_userid a.(user) in
      privs_incl (lookup_privs tree a path) (lookup_privs tree owner path) ∧
      privs_incl (lookup_privs_details tree a path).2 (lookup_privs_details tree owner path).2
  end.
Proof.
  intros Ht. unfold lookup_privs. cbv zeta. rewrite lookup_privs_details_owner.
  unfold lookup_privs_details. destruct (superuser_privs a); [done|]. rewrite Ht.
  destruct (sum_privs _), (lookup_privs_user _ _ _); simpl. unfold privs_incl.
  by rewrite <- !N.land_assoc, !N.land_diag.
Qed.

(** What is granted by propagation is granted on the path itself. *)
Lemma propagated_privs_incl tree a path :
  privs_incl (lookup_privs_details tree a path).2 (lookup_privs_details tree a path).1.
Proof.
  assert (∀ b, privs_incl (lookup_privs_user tree b path).2 (lookup_privs_user tree b path).1) as Hu.
  { intros b. unfold lookup_privs_user. case_match; simpl; [apply N.land_diag|apply sum_privs_incl]. }
  unfold lookup_privs_details. case_match; simpl; [apply N.land_diag|].
  pose proof (sum_privs_incl (roles tree a path)) as Hi.
  destruct (sum_privs _) as [p pp]. case_match; [|done].
  specialize (Hu (authid_from_userid a.(user))). destruct (lookup_privs_user _ _ _) as [o oo].
  simpl in *. rewrite privs_incl_bits in *. intros i. rewrite !N.land_spec, !andb_true_iff.
  intros [? ?]. auto.
Qed.

(** [C36] [check_privs] succeeds exactly when the id holds one of the required
    privileges (partial) or all of them (not partial) on the path. *)
Theorem check_privs_ok tree a path required partial :
  check_privs tree a path required partial = Ok tt ↔
  if partial : bool
  then ∃ i, N.testbit required i = true ∧ N.testbit (lookup_privs tree a path) i = true
  else ∀ i, N.testbit required i = true → N.testbit (lookup_privs tree a path) i = true.
Proof.
  unfold check_privs. generalize (lookup_privs tree a path) as privs. intros privs.
  destruct partial.
  - destruct (N.eqb_spec (N.land privs required) 0) as [E|E]; simpl; split; try done.
    + intros (i & Hr & Hp). assert (N.testbit (N.land privs required) i = false) as Hb
        by (rewrite E; apply N.bits_0).
      by rewrite N.land_spec, Hr, Hp in Hb.
    + intros _. exists (N.log2 (N.land privs required)).
      pose proof (N.bit_log2 _ E) as Hb. rewrite N.land_spec in Hb.
      by apply andb_true_iff in Hb as [? ?].
  - pose proof (privs_incl_bits required privs) as Hi. unfold privs_incl in Hi.
    rewrite N.land_comm. destruct (N.eqb_spec (N.land required privs) required) as [E|E]; split; try done.
    + intros _. by apply Hi.
    + intros H. apply Hi in H. congruence.
Qed.

(** ** Privileges below a path *)

(** The text of the components below a node, each behind a ['/']. *)
Definition rel_path (rel : list rstr) : rstr := rel ≫= λ c, slash :: c.
Arguments rel_path : simpl never.

Lemma rel_path_cons k rel : rel_path (k :: rel) = (slash :: k) ++ rel_path rel.
Proof. done. Qed.

Lemma bt_sorted_get (ch : list (rstr * AclTreeNode)) k n :
  bt_sorted ch → (k, n) ∈ ch → bt_get k ch = Some n.
Proof.
  induction ch as [|[k' n'] ch IH]; intros Hs Hin; [by apply not_elem_of_nil in Hin|].
  destruct Hs as [Hlb Hs]. apply elem_of_cons in Hin as [[= -> ->]|Hin]; simpl.
  - by rewrite decide_True.
  - specialize (IH Hs Hin). rewrite decide_False; [done|]. intros ->.
    apply bt_lb_get in Hlb. congruence.
Qed.

Lemma node_child_paths_unfold path a us gs ch :
  node_child_paths path a (mkNode us gs ch) =
  ch ≫= λ kc, (if bool_decide (extract_roles kc.2 a true = ∅) then []
               else [path ++ slash :: kc.1]) ++
              node_child_paths (path ++ slash :: kc.1) a kc.2.
Proof.
  simpl. induction ch as [|[k n] ch IH]; simpl; [done|]. rewrite IH. by rewrite <- app_assoc.
Qed.

(** The enumerated paths are those of the nodes below that have roles for the id. *)
Lemma node_child_paths_spec a node path p :
  wf_node node →
  p ∈ node_child_paths path a node ↔
  ∃ rel n, rel ≠ [] ∧ get_node_comps node rel = Some n ∧
    extract_roles n a true ≠ ∅ ∧ p = path ++ rel_path rel.
Proof.
  revert path. induction node as [us gs ch IH] using AclTreeNode_nested_ind.
  intros path Hwf. inversion Hwf as [us' gs' ch' Hu Hg Hs Hk Hw]; subst.
  rewrite node_child_paths_unfold, list_elem_of_bind. split.
  - intros ([k n] & Hp & Hin). rewrite Forall_forall in IH, Hw.
    specialize (Hw _ Hin). specialize (IH _ Hin (path ++ slash :: k)). simpl in *.
    apply (bt_sorted_get _ _ _ Hs) in Hin. apply elem_of_app in Hp as [Hp|Hp].
    + case_bool_decide; [by apply not_elem_of_nil in Hp|].
      apply list_elem_of_singleton in Hp as ->. exists [k], n. simpl. rewrite Hin.
      by rewrite rel_path_cons, app_nil_r.
    + apply IH in Hp as (rel & m & Hrel & Hget & Hex & ->); [|done].
      exists (k :: rel), m. simpl. rewrite Hin. split; [done|]. split; [done|]. split; [done|].
      by rewrite rel_path_cons, <- app_assoc.
  - intros (rel & m & Hrel & Hget & Hex & ->). destruct rel as [|k rel]; [done|].
    simpl in Hget. destruct (bt_get k ch) as [n|] eqn:Ek; [|done].
    apply bt_get_In in Ek. exists (k, n). split; [|done]. simpl.
    rewrite Forall_forall in IH, Hw. specialize (Hw _ Ek). specialize (IH _ Ek). simpl in *.
    rewrite rel_path_cons. apply elem_of_app.
    destruct rel as [|k' rel].
    + left. simpl in Hget. simplify_eq. rewrite bool_decide_eq_false_2 by done.
      apply list_elem_of_singleton. by rewrite app_nil_r.
    + right. apply IH; [done|]. exists (k' :: rel), m. rewrite <- app_assoc. done.
Qed.

Lemma get_node_comps_clean node rel n :
  wf_node node → get_node_comps node rel = Some n → Forall (λ c, slash ∉ c) rel ∧ wf_node n.
Proof.
  revert node. induction rel as [|k rel IH]; intros node Hwf; simpl.
  - intros [= <-]. split; [constructor|done].
  - inversion Hwf as [us gs ch Hu Hg Hs Hk Hw]; subst; simpl.
    destruct (bt_get k ch) as [m|] eqn:E; [|done]. intros Hget.
    destruct (IH m) as [? ?]; [by eapply wf_bt_get|done|].
    split; [|done]. constructor; [|done]. rewrite Forall_forall in Hk.
    apply bt_get_In in E. by destruct (Hk _ E) as [_ ?].
Qed.

Lemma split_on_rel_path s rel :
  Forall (λ c, slash ∉ c) rel → split_on slash (s ++ rel_path rel) = split_on slash s ++ rel.
Proof.
  intros H. revert s. induction H as [|c rel Hc _ IH]; intros s.
  - by rewrite !app_nil_r.
  - rewrite rel_path_cons, app_assoc, IH.
    rewrite split_on_app_gen, (split_on_no_sep slash c) by done. by rewrite <- app_assoc.
Qed.

(** Only the components of a non-empty path matter. *)
Lemma lookup_privs_comps tree a p1 p2 :
  path_comps p1 = path_comps p2 → lookup_privs_details tree a p1 = lookup_privs_details tree a p2.
Proof.
  intros Hc. unfold lookup_privs_details, lookup_privs_user.
  assert (∀ b, roles tree b p1 = roles tree b p2) as E
    by (intros b; by rewrite !roles_nearest, Hc).
  by rewrite !E.
Qed.

Lemma any_privs_below_child tree a path rel :
  path ≠ [] → Forall (λ c, slash ∉ c) rel →
  lookup_privs tree a [join_with [slash] path ++ rel_path rel] =
  lookup_privs tree a (path_comps path ++ rel).
Proof.
  intros Hp Hrel. unfold lookup_privs. f_equal. apply lookup_privs_comps.
  unfold path_comps at 1. rewrite bind_singleton, split_on_rel_path by done.
  rewrite <- (path_comps_join path Hp). unfold path_comps. rewrite !bind_singleton.
  rewrite bind_app. fold (path_comps rel).
  fold (path_comps (split_on slash (join_with [slash] path))).
  by rewrite !path_comps_clean by (done || apply split_on_no_sep_in).
Qed.

(** For a non-empty path of a well-formed tree, [any_privs_below] answers
    true exactly when the id has one of the privileges on the path itself by
    propagation, or holds one of them on a node below the path at which the id
    has roles of its own. *)
Theorem any_privs_below_spec tree a path privs :
  wf_node tree → path ≠ [] →
  any_privs_below tree a path privs = true ↔
  N.land (lookup_privs_details tree a path).2 privs ≠ 0%N ∨
  ∃ rel n, rel ≠ [] ∧ get_node_comps tree (path_comps path ++ rel) = Some n ∧
    extract_roles n a true ≠ ∅ ∧
    N.land privs (lookup_privs tree a (path_comps path ++ rel)) ≠ 0%N.
Proof.
  intros Hwf Hp. unfold any_privs_below.
  destruct (lookup_privs_details tree a path) as [pv pp] eqn:Ed. simpl.
  destruct (N.eqb_spec (N.land pp privs) 0) as [E|E]; simpl; [|split; [by left|done]].
  rewrite existsb_exists. unfold get_child_paths, get_node.
  destruct (get_node_comps tree (path_comps path)) as [n|] eqn:Eg.
  - destruct (get_node_comps_clean _ _ _ Hwf Eg) as [_ Hn]. split.
    + intros (p & Hin & Hb). right. apply list_elem_of_In, node_child_paths_spec in Hin as
        (rel & m & Hrel & Hget & Hex & ->); [|done].
      exists rel, m. rewrite get_node_comps_app, Eg. split; [done|]. split; [done|]. split; [done|].
      rewrite any_privs_below_child in Hb; [|done|by eapply get_node_comps_clean].
      by apply negb_true_iff, N.eqb_neq in Hb.
    + intros [?|(rel & m & Hrel & Hget & Hex & Hb)]; [done|].
      rewrite get_node_comps_app, Eg in Hget. simpl in Hget.
      exists (join_with [slash] path ++ rel_path rel). split.
      * apply list_elem_of_In, node_child_paths_spec; [done|]. by exists rel, m.
      * rewrite any_privs_below_child; [|done|by eapply get_node_comps_clean].
        by apply negb_true_iff, N.eqb_neq.
  - split; [by intros (p & [] & _)|].
    intros [?|(rel & m & Hrel & Hget & _)]; [done|].
    by rewrite get_node_comps_app, Eg in Hget.
Qed.
End AclPrivs.
