(* ===== verification/AclConfig.v ===== *)
(** * AclConfig: writing [acl.cfg], and the tree on concrete configurations

    Models [write_node_config] and [write_config] of
    [proxmox-access-control/src/acl.rs], evaluates the tree on the role
    configuration of the crate's own tests, and records the inputs on which the
    code departs from its documentation. *)
From S2P Require Import Prelude Schema AuthTypes Acl AclTheory AclProps AclPrivs.

(** [BTreeSet<String>]: an ascending list without duplicates. *)
Fixpoint bset_insert (x : rstr) (s : list rstr) : list rstr :=
  match s with
  | [] => [x]
  | y :: s' =>
      match str_compare x y with
      | Lt => x :: s
      | Eq => s
      | Gt => y :: bset_insert x s'
      end
  end.

Section WriteConfig.
Context {conf : AccessControlConfig}.

(** One role of one user or group, in the map of its propagation flag. *)
Definition add_ug (ug : rstr) (maps : gmap rstr (list rstr) * gmap rstr (list rstr))
    (entry : rstr * bool) : gmap rstr (list rstr) * gmap rstr (list rstr) :=
  let '(map0, map1) := maps in
  let '(role, propagate) := entry in
  if propagate : bool then (map0, <[ role := bset_insert ug (default [] (map1 !! role)) ]> map1)
  else (<[ role := bset_insert ug (default [] (map0 !! role)) ]> map0, map1).

Definition role_ug_maps (node : AclTreeNode) : gmap rstr (list rstr) * gmap rstr (list rstr) :=
  let maps :=
    foldl (λ maps '(auth_id, roles),
             if negb (is_token auth_id) && bool_decide (auth_id.(user).(data) = lit "root@pam")
             then maps
             else foldl (add_ug (authid_to_string auth_id)) maps (map_to_list roles))
      (∅, ∅) (map_to_list node.(users)) in
  foldl (λ maps '(group, roles), foldl (add_ug (at_sign :: group)) maps (map_to_list roles))
    maps (map_to_list node.(groups)).

(** The folds that build a comma separated list. *)
Definition push_comma (acc v : rstr) : rstr :=
  (if decide (acc = []) then acc else acc ++ [comma]) ++ v.
Definition comma_list (s : list rstr) : rstr := foldl push_comma [] s.

Definition group_by_property_list (item_property_map : gmap rstr (list rstr))
    : list (rstr * list rstr) :=
  foldl (λ result_map '(item, property_map),
           let item_list := comma_list property_map in
           bt_insert item_list (bset_insert item (default [] (bt_get item_list result_map))) result_map)
    [] (map_to_list item_property_map).

Definition role_list (roles : list rstr) : rstr :=
  match role_no_access with
  | Some no_access => if decide (no_access ∈ roles) then no_access else comma_list roles
  | None => comma_list roles
  end.

Definition write_line (flag path uglist : rstr) (roles : list rstr) : rstr :=
  lit "acl:" ++ flag ++ [colon] ++ (if decide (path = []) then [slash] else path) ++ [colon] ++
  uglist ++ [colon] ++ role_list roles ++ [10%N].

Fixpoint write_node_config (path : rstr) (node : AclTreeNode) : rstr :=
  let '(role_ug_map0, role_ug_map1) := role_ug_maps node in
  let uglist_role_map0 := group_by_property_list role_ug_map0 in
  let uglist_role_map1 := group_by_property_list role_ug_map1 in
  (uglist_role_map0 ≫= λ '(uglist, roles), write_line (lit "0") path uglist roles) ++
  (uglist_role_map1 ≫= λ '(uglist, roles), write_line (lit "1") path uglist roles) ++
  (fix go (l : list (rstr * AclTreeNode)) : rstr :=
     match l with
     | [] => []
     | (name, child) :: l' => write_node_config (path ++ slash :: name) child ++ go l'
     end) node.(children).

Definition write_config (tree : AclTreeNode) : rstr := write_node_config [] tree.
End WriteConfig.

(** ** The configuration of the crate's tests *)
Definition test_conf : AccessControlConfig := {|
  privileges := [];
  conf_roles := list_to_map [
    (lit "NoAccess", (0%N, lit "comment")); (lit "Admin", (18446744073709551615%N, lit "comment"));
    (lit "DatastoreBackup", (4%N, lit "comment")); (lit "DatastoreReader", (8%N, lit "comment"))];
  is_superuser := λ _, false;
  is_group_member := λ _ _, false;
  role_no_access := Some (lit "NoAccess");
  role_admin := Some (lit "Admin")
|}.

Definition user1 : Authid := authid_from_userid (userid_from_parts (lit "user1") (lit "pbs")).
Definition token1 : Authid := mkAuthid user1.(user) (Some (lit "tok")).

Definition nl (s : string) : rstr := lit s ++ [10%N].
Arguments nl _%_string_scope.

(** [test_acl_line_compression]: equal user sets and equal role sets share a line. *)
Example acl_line_compression :
  (let? tree := @from_raw test_conf
     (nl "acl:0:/store/store2:user1@pbs:Admin" ++ nl "acl:0:/store/store2:user2@pbs:Admin" ++
      nl "acl:0:/store/store2:user1@pbs:DatastoreBackup" ++
      nl "acl:0:/store/store2:user2@pbs:DatastoreBackup") in
   Ok (@write_config test_conf tree)) =
  Ok (nl "acl:0:/store/store2:user1@pbs,user2@pbs:Admin,DatastoreBackup").
Proof. vm_compute. reflexivity. Qed.

(** ** Inputs on which the code departs from its documentation *)

Definition granted (t : AclTreeNode) (a : Authid) (path : list rstr) (privs : N) : bool :=
  negb (N.land privs (@lookup_privs test_conf t a path) =? 0)%N.

(** For the root, given as the empty path, [any_privs_below] looks the children
    up under ["/name"], whose first component is empty and does not exist, so
    privileges below the root are missed. *)
Definition tree_below_root : AclTreeNode :=
  @insert_user_role test_conf node_new (lit "/store") user1 (lit "Admin") true.
Theorem any_privs_below_root_incomplete :
  granted tree_below_root user1 [lit "store"] 4%N = true ∧
  @any_privs_below test_conf tree_below_root user1 [] 4%N = false.
Proof. vm_compute. done. Qed.

(** A role without propagation at the anchor path replaces the inherited roles
    there but not below it: the id still has the inherited privileges on every
    object below, and [any_privs_below] answers false. *)
Definition tree_shadowed : AclTreeNode :=
  @insert_user_role test_conf
    (@insert_user_role test_conf node_new (lit "/") user1 (lit "Admin") true)
    (lit "/storage") user1 (lit "NoAccess") false.
Theorem any_privs_below_shadow_incomplete :
  granted tree_shadowed user1 [lit "storage"; lit "store2"] 4%N = true ∧
  @any_privs_below test_conf tree_shadowed user1 [lit "storage"] 4%N = false.
Proof. vm_compute. done. Qed.

(** A token with an inherited role, whose owner has the role only further down,
    holds privileges below a path at which [any_privs_below] answers false: only
    nodes with roles of the token itself are visited. *)
Definition tree_token_below : AclTreeNode :=
  @insert_user_role test_conf
    (@insert_user_role test_conf node_new (lit "/") token1 (lit "Admin") true)
    (lit "/store/s1") user1 (lit "Admin") true.
Theorem any_privs_below_token_incomplete :
  granted tree_token_below token1 [lit "store"; lit "s1"] 4%N = true ∧
  @any_privs_below test_conf tree_token_below token1 [lit "store"] 4%N = false.
Proof. vm_compute. done. Qed.

(** A user name may hold a comma, which separates users in [acl.cfg]: what
    [write_config] writes for such a user is rejected by the parser. *)
Definition comma_user : Authid := authid_from_userid (userid_from_parts (lit "a,b") (lit "pbs")).
Theorem write_config_comma_unreadable :
  authid_from_str (lit "a,b@pbs") = Ok comma_user ∧
  @from_raw test_conf (@write_config test_conf
    (@insert_user_role test_conf node_new (lit "/") comma_user (lit "Admin") true)) =
  Err (AtLine 1 (BadAuthid NotAValidUserId)).
Proof. vm_compute. done. Qed.

(** A user name may start with ['@'], which marks a group in [acl.cfg]: such a
    user's entry is read back as the entry of a group. *)
Definition at_user : Authid := authid_from_userid (userid_from_parts (lit "@x") (lit "pbs")).
Theorem write_config_at_user_lost :
  authid_from_str (lit "@x@pbs") = Ok at_user ∧
  match @from_raw test_conf (@write_config test_conf
          (@insert_user_role test_conf node_new (lit "/") at_user (lit "Admin") true)) with
  | Ok t => bool_decide (t.(users) = ∅) && bool_decide (is_Some (t.(groups) !! lit "x@pbs"))
  | Err _ => false
  end = true.
Proof. vm_compute. done. Qed.

(** ** The properties applied to concrete trees *)
Lemma reachable_wf_witness : @wf_node test_conf tree_shadowed.
Proof.
  apply (@reachable_wf test_conf). eapply rtc_l; [constructor|]. apply rtc_once. constructor.
Defined.

Lemma insert_user_role_effect_witness :
  @roles test_conf tree_below_root user1 (split_acl_path (lit "/store")) =
  {[ lit "Admin" := true ]}.
Proof.
  exact (proj1 (@insert_user_role_effect test_conf node_new (lit "/store") user1 (lit "Admin") true
                  (@wf_node_new test_conf))).
Defined.

Lemma delete_user_role_effect_witness :
  user_at (@delete_user_role tree_below_root (lit "/store") user1 (lit "Admin")) [] user1 = ∅.
Proof.
  exact (proj1 (proj2 (@delete_user_role_effect test_conf tree_below_root (lit "/store") user1
    (lit "Admin"))) [] ltac:(vm_compute; discriminate)).
Defined.

Lemma delete_node_effect_witness :
  get_node_comps (delete_node tree_below_root (lit "/store")) [lit "store"; lit "x"] = None.
Proof.
  exact (proj1 (delete_node_effect tree_below_root (lit "/store")) [lit "x"]
           ltac:(vm_compute; discriminate)).
Defined.

Lemma lookup_privs_bits_witness :
  N.testbit (@lookup_privs test_conf tree_below_root user1 [lit "store"]) 2 = true.
Proof.
  apply (proj1 (@lookup_privs_bits test_conf tree_below_root user1 [lit "store"] 2
                  eq_refl eq_refl)).
  exists (lit "Admin"), true. split; vm_compute; reflexivity.
Defined.

Lemma token_privs_le_owner_witness :
  privs_incl (@lookup_privs test_conf tree_token_below token1 [lit "store"])
             (@lookup_privs test_conf tree_token_below user1 [lit "store"]).
Proof.
  exact (proj1 (@token_privs_le_owner test_conf tree_token_below token1 [lit "store"] eq_refl)).
Defined.

Lemma any_privs_below_spec_witness :
  @any_privs_below test_conf tree_token_below user1 [lit "store"] 4%N = true.
Proof.
  apply (@any_privs_below_spec test_conf tree_token_below user1 [lit "store"] 4%N).
  - repeat (apply wf_get_or_insert; [intros; by apply wf_node_insert_user|]). apply wf_node_new.
  - discriminate.
  - right. exists [lit "s1"]. eexists. split; [discriminate|]. split; [vm_compute; reflexivity|].
    split; vm_compute; discriminate.
Defined.
