(* ===== verification/Permission.v ===== *)
(** * Permission: declarative API permissions

    Models [proxmox-router/src/permission.rs].  The permission check is written
    against the interface [UserInformation]; [CachedUserInfo] implements it. *)
From S2P Require Import Prelude.

(** ** The interface ([trait UserInformation]) *)
Class UserInformation := {
  info_is_superuser : rstr → bool;
  info_is_group_member : rstr → rstr → bool;
  info_lookup_privs : rstr → list rstr → N
}.

Inductive Permission :=
| Superuser
| World
| Anybody
| User (userid : rstr)
| UserParam (param_name : rstr)
| Group (group : rstr)
| WithParam (param_name : rstr) (subtest : Permission)
| Privilege (path : list rstr) (privs : N) (partial : bool)
| And (list : list Permission)
| Or (list : list Permission).

(** The loops of [And] and [Or]. *)
Section Loops.
Context (check : Permission → bool).
Fixpoint all_subtests (l : list Permission) : bool :=
  match l with
  | [] => true
  | subtest :: l' => if negb (check subtest) then false else all_subtests l'
  end.
Fixpoint any_subtest (l : list Permission) : bool :=
  match l with
  | [] => false
  | subtest :: l' => if check subtest then true else any_subtest l'
  end.

Lemma all_subtests_true l : all_subtests l = true ↔ ∀ p, p ∈ l → check p = true.
Proof.
  induction l as [|p l IH]; simpl.
  - split; [intros _ p Hin; by apply not_elem_of_nil in Hin|done].
  - destruct (check p) eqn:E; simpl.
    + rewrite IH. split; [intros Hl q [->|Hq]%elem_of_cons; auto|].
      intros Hl q Hq. apply Hl. by right.
    + split; [done|]. intros Hl. rewrite <- E. apply Hl. by left.
Qed.

Lemma any_subtest_true l : any_subtest l = true ↔ ∃ p, p ∈ l ∧ check p = true.
Proof.
  induction l as [|p l IH]; simpl.
  - split; [done|]. intros (p & Hin & _). by apply not_elem_of_nil in Hin.
  - destruct (check p) eqn:E.
    + split; [|done]. intros _. exists p. split; [by left|done].
    + rewrite IH. split; [intros (q & ? & ?); exists q; split; [by right|done]|].
      intros (q & [->|Hq]%elem_of_cons & Hg); [congruence|eauto].
Qed.
End Loops.

Section Check.
Context {info : UserInformation} (param : gmap rstr rstr).

(** Whether a component is a variable ["{name}"], and its name. *)
Definition uri_var (comp : rstr) : option rstr :=
  match comp, last comp with
  | 123%N :: rest, Some 125%N => Some (removelast rest)
  | _, _ => None
  end.

(** The loop that replaces variables in the components of the path; [None] when
    a parameter is missing. *)
Fixpoint expand_comps (comps : list rstr) (new_path : list rstr) : option (list rstr) :=
  match comps with
  | [] => Some new_path
  | comp :: comps' =>
      match uri_var comp with
      | Some param_name =>
          match param !! param_name with
          | None => None
          | Some value => expand_comps comps' (new_path ++ split_on 47%N value)
          end
      | None => expand_comps comps' (new_path ++ [comp])
      end
  end.

Definition expand_path (path : list rstr) : option (list rstr) :=
  expand_comps (path ≫= split_on 47%N) [].

Fixpoint check_api_permission_tail (perm : Permission) (userid : option rstr) : bool :=
  match perm with
  | World => true
  | Anybody => bool_decide (is_Some userid)
  | Superuser =>
      match userid with
      | None => false
      | Some userid => info_is_superuser userid
      end
  | User expected_userid =>
      match userid with
      | None => false
      | Some userid => bool_decide (userid = expected_userid)
      end
  | UserParam param_name =>
      match userid, param !! param_name with
      | None, _ => false
      | _, None => false
      | Some userid, Some expected => bool_decide (userid = expected)
      end
  | Group expected_group =>
      match userid with
      | None => false
      | Some userid => info_is_group_member userid expected_group
      end
  | WithParam param_name subtest =>
      let userid := param !! param_name in
      match userid with
      | Some u => if info_is_superuser u then true else check_api_permission_tail subtest userid
      | None => check_api_permission_tail subtest userid
      end
  | Privilege path expected_privs partial =>
      match expand_path path with
      | None => false
      | Some new_path =>
          match userid with
          | None => false
          | Some userid =>
              let privs := info_lookup_privs userid new_path in
              if (privs =? 0)%N then false
              else if partial then negb (N.land expected_privs privs =? 0)%N
              else (N.land expected_privs privs =? expected_privs)%N
          end
      end
  | And l => all_subtests (λ subtest, check_api_permission_tail subtest userid) l
  | Or l => any_subtest (λ subtest, check_api_permission_tail subtest userid) l
  end.

Definition check_api_permission (perm : Permission) (userid : option rstr) : bool :=
  match userid with
  | Some u => if info_is_superuser u then true else check_api_permission_tail perm userid
  | None => check_api_permission_tail perm userid
  end.

(** ** What a permission means *)

(** The variables of a path replaced by the components of their parameters. *)
Inductive expands : list rstr → list rstr → Prop :=
| expands_nil : expands [] []
| expands_var comp name value comps comps' :
    uri_var comp = Some name → param !! name = Some value → expands comps comps' →
    expands (comp :: comps) (split_on 47%N value ++ comps')
| expands_const comp comps comps' :
    uri_var comp = None → expands comps comps' → expands (comp :: comps) (comp :: comps').

(** The privileges [privs] meet the requirement [expected]. *)
Definition privs_suffice (partial : bool) (expected privs : N) : Prop :=
  privs ≠ 0%N ∧
  if partial then N.land expected privs ≠ 0%N else N.land expected privs = expected.

(** Access granted to the caller [userid]: by rule, or because the caller is a
    superuser.  A parameter's user takes the caller's place below [WithParam]. *)
Inductive grants : option rstr → Permission → Prop :=
| grants_superuser u perm : info_is_superuser u = true → grants (Some u) perm
| grants_rule userid perm : grants_tail userid perm → grants userid perm
with grants_tail : option rstr → Permission → Prop :=
| grants_world userid : grants_tail userid World
| grants_anybody u : grants_tail (Some u) Anybody
| grants_is_superuser u : info_is_superuser u = true → grants_tail (Some u) Superuser
| grants_user u : grants_tail (Some u) (User u)
| grants_user_param u name : param !! name = Some u → grants_tail (Some u) (UserParam name)
| grants_group u g : info_is_group_member u g = true → grants_tail (Some u) (Group g)
| grants_with_param userid name perm :
    grants (param !! name) perm → grants_tail userid (WithParam name perm)
| grants_privilege u path new_path expected partial :
    expands (path ≫= split_on 47%N) new_path →
    privs_suffice partial expected (info_lookup_privs u new_path) →
    grants_tail (Some u) (Privilege path expected partial)
| grants_and userid l : (∀ p, p ∈ l → grants_tail userid p) → grants_tail userid (And l)
| grants_or userid l p : p ∈ l → grants_tail userid p → grants_tail userid (Or l).

Lemma expand_comps_spec comps acc res :
  expand_comps comps acc = Some res ↔ ∃ new, expands comps new ∧ res = acc ++ new.
Proof.
  revert acc. induction comps as [|comp comps IH]; intros acc; simpl.
  - split; [intros [= <-]; exists []; by rewrite app_nil_r; repeat constructor|].
    intros (new & Hn & ->). inversion Hn; subst. by rewrite app_nil_r.
  - destruct (uri_var comp) as [name|] eqn:Ev.
    + destruct (param !! name) as [value|] eqn:Ep.
      * rewrite IH. split.
        -- intros (new & Hn & ->). eexists. split; [by econstructor|]. by rewrite app_assoc.
        -- intros (new & Hn & ->). inversion Hn; subst; simplify_eq. eexists. split; [done|].
           by rewrite app_assoc.
      * split; [done|]. intros (new & Hn & _). inversion Hn; congruence.
    + rewrite IH. split.
      * intros (new & Hn & ->). exists (comp :: new). split; [by constructor|].
        by rewrite <- app_assoc.
      * intros (new & Hn & ->). inversion Hn; subst; simplify_eq. eexists. split; [done|].
        by rewrite <- app_assoc.
Qed.

Lemma expand_path_spec path res :
  expand_path path = Some res ↔ expands (path ≫= split_on 47%N) res.
Proof.
  unfold expand_path. rewrite expand_comps_spec. split; [by intros (new & ? & ->)|].
  intros H. by exists res.
Qed.

Lemma privs_suffice_bool (partial : bool) (expected privs : N) :
  (if (privs =? 0)%N then false
   else if partial then negb (N.land expected privs =? 0)%N
   else (N.land expected privs =? expected)%N) = true ↔ privs_suffice partial expected privs.
Proof.
  unfold privs_suffice. destruct (N.eqb_spec privs 0) as [E|E]; [split; [done|tauto]|].
  destruct partial.
  - rewrite negb_true_iff, N.eqb_neq. tauto.
  - rewrite N.eqb_eq. tauto.
Qed.
End Check.

(** Induction over permissions with a hypothesis for every listed subtest. *)
Section PermissionInd.
Context (P : Permission → Prop).
Context (Hsuper : P Superuser) (Hworld : P World) (Hany : P Anybody).
Context (Huser : ∀ u, P (User u)) (Hparam : ∀ n, P (UserParam n)) (Hgroup : ∀ g, P (Group g)).
Context (Hwith : ∀ n p, P p → P (WithParam n p)).
Context (Hpriv : ∀ path e b, P (Privilege path e b)).
Context (Hand : ∀ l, Forall P l → P (And l)) (Hor : ∀ l, Forall P l → P (Or l)).
Fixpoint Permission_nested_ind (p : Permission) : P p :=
  let fix all (l : list Permission) : Forall P l :=
    match l with
    | [] => Forall_nil_2 _
    | q :: l' => Forall_cons_2 _ _ _ (Permission_nested_ind q) (all l')
    end in
  match p with
  | Superuser => Hsuper
  | World => Hworld
  | Anybody => Hany
  | User u => Huser u
  | UserParam n => Hparam n
  | Group g => Hgroup g
  | WithParam n q => Hwith n q (Permission_nested_ind q)
  | Privilege path e b => Hpriv path e b
  | And l => Hand l (all l)
  | Or l => Hor l (all l)
  end.
End PermissionInd.

Section Correct.
Context {info : UserInformation} (param : gmap rstr rstr).

Lemma check_tail_grants perm userid :
  check_api_permission_tail param perm userid = true ↔ grants_tail param userid perm.
Proof.
  revert userid. induction perm as [| | |u|n|g|n p IH|path e b|l IH|l IH] using Permission_nested_ind;
    intros userid; simpl.
  - destruct userid; split; intros H; try by inversion H. by constructor.
  - split; [constructor|done].
  - rewrite bool_decide_eq_true. split; [intros [u ->]; constructor|inversion 1; eauto].
  - destruct userid; split; intros H; try by inversion H.
    + apply bool_decide_eq_true in H as ->. constructor.
    + inversion H; subst. by apply bool_decide_eq_true.
  - destruct userid as [u|]; [destruct (param !! n) eqn:E|]; split; intros H; try by inversion H.
    + apply bool_decide_eq_true in H as ->. by constructor.
    + inversion H; subst. apply bool_decide_eq_true. congruence.
    + inversion H; congruence.
  - destruct userid; split; intros H; try by inversion H. by constructor.
  - split.
    + intros H. constructor. destruct (param !! n) as [u|]; [|by apply grants_rule, IH].
      destruct (info_is_superuser u) eqn:E; [by apply grants_superuser|by apply grants_rule, IH].
    + inversion 1 as [| | | | | |? ? ? Hg| | |]; subst.
      inversion Hg as [u q Hs Eu|u q Ht]; subst; [by rewrite Hs|].
      apply IH in Ht. rewrite Ht. by repeat case_match.
  - destruct (expand_path param path) as [new|] eqn:E.
    + apply expand_path_spec in E. destruct userid as [u|]; [|split; [done|by inversion 1]].
      rewrite privs_suffice_bool. split; [intros; by econstructor|].
      inversion 1 as [| | | | | | |? ? new' ? ? Hx Hs| |]; subst.
      apply expand_path_spec in E, Hx. by simplify_eq.
    + split; [done|]. inversion 1 as [| | | | | | |? ? new' ? ? Hx Hs| |]; subst.
      apply expand_path_spec in Hx. congruence.
  - rewrite all_subtests_true. rewrite Forall_forall in IH. split.
    + intros Hl. constructor. intros p Hp. by apply IH, Hl.
    + inversion 1 as [| | | | | | | |? ? Hl|]; subst. intros p Hp. by apply IH, Hl.
  - rewrite any_subtest_true. rewrite Forall_forall in IH. split.
    + intros (p & Hp & Hc). econstructor; [done|]. by apply IH.
    + inversion 1 as [| | | | | | | | |? ? p Hp Hg]; subst. exists p. split; [done|]. by apply IH.
Qed.

Lemma check_api_permission_iff perm userid :
  check_api_permission param perm userid = true ↔ grants param userid perm.
Proof.
  unfold check_api_permission. split.
  - intros H. destruct userid as [u|]; [|by apply grants_rule, check_tail_grants].
    destruct (info_is_superuser u) eqn:E; [by apply grants_superuser|].
    by apply grants_rule, check_tail_grants.
  - inversion 1 as [u q Hs|u q Ht]; subst; [by rewrite Hs|].
    apply check_tail_grants in Ht. rewrite Ht. by repeat case_match.
Qed.

(** [C3] The permission check decides the declarative meaning of permissions:
    access is granted exactly when the caller is a superuser or a rule of the
    permission applies, for arbitrarily nested [And], [Or] and [WithParam]. *)
Theorem check_api_permission_correct perm userid :
  check_api_permission param perm userid = true ↔ grants param userid perm.
Proof. apply check_api_permission_iff. Qed.
End Correct.
