(* ===== verification/CachedUserInfo.v ===== *)
(** * CachedUserInfo: the user information behind API permissions

    Models [proxmox-access-control/src/cached_user_info.rs], the
    activity checks of [types.rs], and the modification-time cache that
    [acl.rs] and [user.rs] share, and connects the permission check of
    [Permission] with the access control tree of [Acl]. *)
From S2P Require Import Prelude Schema AuthTypes Acl AclTheory AclProps AclPrivs AclConfig Permission.

(** ** Users and tokens *)
Record UserEntry := {
  user_enable : option bool;
  user_expire : option Z
}.
Record ApiToken := {
  token_enable : option bool;
  token_expire : option Z
}.

(** [User::is_active] and [ApiToken::is_active], at the time [now]. *)
Definition user_is_active (now : Z) (u : UserEntry) : bool :=
  if negb (default true u.(user_enable)) then false
  else match u.(user_expire) with
       | Some expire => negb ((0 <? expire)%Z && (expire <=? now)%Z)
       | None => true
       end.

Definition token_is_active (now : Z) (t : ApiToken) : bool :=
  if negb (default true t.(token_enable)) then false
  else match t.(token_expire) with
       | Some expire => negb ((0 <? expire)%Z && (expire <=? now)%Z)
       | None => true
       end.

(** The sections of [user.cfg], by id; the type of a section selects its data. *)
Inductive UserSection :=
| user_section (u : UserEntry)
| token_section (t : ApiToken).

Record CachedUserInfo := {
  user_cfg : gmap rstr UserSection;
  acl_tree : AclTreeNode
}.

(** [SectionConfigData::lookup] with the types ["user"] and ["token"]. *)
Definition lookup_user (cfg : gmap rstr UserSection) (id : rstr) : option UserEntry :=
  match cfg !! id with
  | Some (user_section u) => Some u
  | _ => None
  end.
Definition lookup_token (cfg : gmap rstr UserSection) (id : rstr) : option ApiToken :=
  match cfg !! id with
  | Some (token_section t) => Some t
  | _ => None
  end.

Section CachedUserInfo.
Context {conf : AccessControlConfig}.

Definition is_active_user_id (info : CachedUserInfo) (now : Z) (userid : Userid) : bool :=
  match lookup_user info.(user_cfg) userid.(data) with
  | Some u => user_is_active now u
  | None => false
  end.

Definition is_active_auth_id (info : CachedUserInfo) (now : Z) (auth_id : Authid) : bool :=
  if negb (is_active_user_id info now auth_id.(user)) then false
  else if is_token auth_id then
    match lookup_token info.(user_cfg) (authid_to_string auth_id) with
    | Some t => token_is_active now t
    | None => false
    end
  else true.

(** [impl UserInformation for CachedUserInfo] *)
Definition info_superuser (userid : rstr) : bool :=
  match authid_from_str userid with
  | Ok authid => is_superuser authid
  | Err _ => false
  end.

Definition info_group_member (userid group : rstr) : bool :=
  match userid_from_str userid with
  | Ok userid => is_group_member userid group
  | Err _ => false
  end.

Definition info_privs (info : CachedUserInfo) (auth_id : rstr) (path : list rstr) : N :=
  match authid_from_str auth_id with
  | Ok auth_id => lookup_privs info.(acl_tree) auth_id path
  | Err _ => 0%N
  end.

#[global] Instance CachedUserInfo_UserInformation (info : CachedUserInfo) : UserInformation := {
  info_is_superuser := info_superuser;
  info_is_group_member := info_group_member;
  info_lookup_privs := info_privs info
}.

(** A token is active only while its owner is: disabling or expiring a user
    deactivates all of the user's tokens, whatever the tokens' own settings. *)
Theorem active_token_active_owner info now a :
  is_active_auth_id info now a = true →
  is_active_auth_id info now (authid_from_userid a.(user)) = true ∧
  (is_token a = true →
   ∃ t, lookup_token info.(user_cfg) (authid_to_string a) = Some t ∧ token_is_active now t = true).
Proof.
  unfold is_active_auth_id. simpl.
  destruct (is_active_user_id info now (user a)); simpl; [|done]. intros H.
  split; [done|]. intros Ht. rewrite Ht in H. case_match; [eauto|done].
Qed.

Lemma privilege_check_agrees info param path new_path required partial a :
  required ≠ 0%N →
  expand_path param path = Some new_path →
  valid_authid a →
  @check_api_permission_tail (CachedUserInfo_UserInformation info) param
    (Privilege path required partial) (Some (authid_to_string a)) =
  is_ok (check_privs info.(acl_tree) a new_path required partial).
Proof.
  intros Hr Hx Ha. simpl. rewrite Hx. unfold info_privs.
  assert (authid_from_str (authid_to_string a) = Ok a) as ->.
  { destruct a as [u tok]. destruct Ha as [Hu Htok]. simpl in Hu, Htok.
    destruct Hu as (name & realm & Hn & Hre & ->). destruct tok as [token|].
    - by apply authid_from_str_token.
    - by apply authid_from_str_user. }
  unfold check_privs. set (pv := lookup_privs _ a new_path).
  rewrite (N.land_comm pv required).
  destruct (N.eqb_spec pv 0) as [->|Hpv].
  - rewrite N.land_0_r. destruct partial; [done|].
    destruct (N.eqb_spec 0 required); [congruence|done].
  - by destruct partial; case_match.
Qed.

(** An API method guarded by a privilege on a path lets an authenticated
    caller through exactly when the access control tree itself grants the
    privilege on the path with its variables filled in: the router's check and
    [AclTree::check_privs] agree for every non-empty set of required
    privileges. *)
Theorem privilege_check_is_acl_check info param path new_path required partial a :
  required ≠ 0%N →
  expand_path param path = Some new_path →
  valid_authid a →
  @check_api_permission_tail (CachedUserInfo_UserInformation info) param
    (Privilege path required partial) (Some (authid_to_string a)) =
  is_ok (check_privs info.(acl_tree) a new_path required partial).
Proof. apply privilege_check_agrees. Qed.
End CachedUserInfo.

(** ** The cache of user information ([CachedUserInfo::new]) *)
Section InfoCache.
Context {I E : Type}.

Record ConfigCache := mkCache {
  cache_data : option I;
  last_update : Z;
  last_user_cache_generation : N
}.

Definition empty_cache : ConfigCache := mkCache None 0 0.

(** A call: the time, the product's cache generation, and what loading the two
    configuration files would give. *)
Record CacheCall := mkCall {
  call_now : Z;
  call_generation : option N;
  call_load : result I E
}.

Definition cached_new (cache : ConfigCache) (call : CacheCall) : ConfigCache * result I E :=
  let hit :=
    match call.(call_generation) with
    | Some current_generation =>
        if (current_generation =? cache.(last_user_cache_generation))%N &&
           (call.(call_now) - cache.(last_update) <? 5)%Z
        then cache.(cache_data) else None
    | None => None
    end in
  match hit with
  | Some config => (cache, Ok config)
  | None =>
      match call.(call_load) with
      | Err e => (cache, Err e)
      | Ok config =>
          (mkCache (Some config) call.(call_now)
             (default cache.(last_user_cache_generation) call.(call_generation)), Ok config)
      end
  end.

Fixpoint run_calls (cache : ConfigCache) (calls : list CacheCall) : ConfigCache :=
  match calls with
  | [] => cache
  | c :: calls' => run_calls (cached_new cache c).1 calls'
  end.

(** What the cache holds was loaded by an earlier call with its generation. *)
Definition cache_from (hist : list CacheCall) (cache : ConfigCache) : Prop :=
  ∀ d, cache.(cache_data) = Some d →
  ∃ c, c ∈ hist ∧ c.(call_load) = Ok d ∧ c.(call_now) = cache.(last_update) ∧
       c.(call_generation) = Some cache.(last_user_cache_generation).

Lemma cached_new_from hist cache call :
  is_Some call.(call_generation) →
  cache_from hist cache → cache_from (hist ++ [call]) (cached_new cache call).1.
Proof.
  intros [g Hg] Hc. unfold cached_new. rewrite Hg.
  assert (cache_from (hist ++ [call]) cache) as Hext.
  { intros d Hd. destruct (Hc d Hd) as (c & Hin & ?). exists c. split; [|done].
    apply elem_of_app. by left. }
  repeat case_match; simplify_eq; try done; simpl.
  all: intros d [= <-]; exists call; simpl; split;
    [apply elem_of_app; right; by left|]; auto.
Qed.

Lemma run_calls_from cache hist calls :
  Forall (λ c, is_Some c.(call_generation)) calls →
  cache_from hist cache → cache_from (hist ++ calls) (run_calls cache calls).
Proof.
  intros H. revert cache hist. induction H as [|c calls Hc _ IH]; intros cache hist Hf; simpl.
  - by rewrite app_nil_r.
  - rewrite (cons_middle c hist calls), app_assoc. apply IH. by apply cached_new_from.
Qed.

(** [C37] Permission data is never stale: when a product counts cache
    generations, whatever sequence of calls came before, the data a call returns
    was loaded by this call, or by an earlier call less than five seconds before
    with the same cache generation. *)
Theorem cached_new_fresh calls call d :
  Forall (λ c, is_Some c.(call_generation)) calls → is_Some call.(call_generation) →
  (cached_new (run_calls empty_cache calls) call).2 = Ok d →
  call.(call_load) = Ok d ∨
  ∃ c, c ∈ calls ∧ c.(call_load) = Ok d ∧ (call.(call_now) - c.(call_now) < 5)%Z ∧
       c.(call_generation) = call.(call_generation).
Proof.
  intros Hgen [g Hg].
  assert (cache_from ([] ++ calls) (run_calls empty_cache calls)) as Hf
    by (by apply run_calls_from).
  set (cache := run_calls empty_cache calls) in *. unfold cached_new. rewrite Hg.
  destruct (_ && _) eqn:Hhit; [destruct (cache_data cache) as [d'|] eqn:Ed|].
  - intros [= <-]. right. destruct (Hf _ Ed) as (c & Hin & Hl & Hn & Hcg). exists c.
    apply andb_true_iff in Hhit as [E1 E2]. apply N.eqb_eq in E1. apply Z.ltb_lt in E2.
    rewrite Hn, Hcg. by repeat split; try congruence.
  - case_match; simpl; [|done]. intros [= <-]. by left.
  - case_match; simpl; [|done]. intros [= <-]. by left.
Qed.
End InfoCache.

(** ** The modification-time cache of [acl.rs] and [user.rs] ([cached_config]) *)
Section MtimeCache.
Context {T F : Type}.

Record MtimeCache := mkMtime {
  mt_data : option T;
  last_mtime : Z;
  last_mtime_nsec : Z
}.

Definition empty_mtime_cache : MtimeCache := mkMtime None 0 0.

(** What the file system answers during a call: the times of the file, [None]
    when it does not exist, an error otherwise; and what reading it gives. *)
Record FileState := mkFile {
  file_stat : result (option (Z * Z)) F;
  file_config : result T F
}.

Definition cached_config (cache : MtimeCache) (file : FileState) : MtimeCache * result T F :=
  match file.(file_stat) with
  | Err e => (cache, Err e)
  | Ok stat =>
      let hit :=
        match cache.(mt_data) with
        | Some config =>
            match stat with
            | Some (mtime, nsec) =>
                if (mtime =? cache.(last_mtime))%Z && (nsec =? cache.(last_mtime_nsec))%Z
                then Some config else None
            | None =>
                if (cache.(last_mtime) =? 0)%Z && (cache.(last_mtime_nsec) =? 0)%Z
                then Some config else None
            end
        | None => None
        end in
      match hit with
      | Some config => (cache, Ok config)
      | None =>
          match file.(file_config) with
          | Err e => (cache, Err e)
          | Ok config =>
              match stat with
              | Some (mtime, nsec) => (mkMtime (Some config) mtime nsec, Ok config)
              | None => (mkMtime (Some config) cache.(last_mtime) cache.(last_mtime_nsec), Ok config)
              end
          end
      end
  end.

Fixpoint run_files (cache : MtimeCache) (files : list FileState) : MtimeCache :=
  match files with
  | [] => cache
  | f :: files' => run_files (cached_config cache f).1 files'
  end.

(** What the cache holds was read while the file had the recorded times. *)
Definition mtime_from (hist : list FileState) (cache : MtimeCache) : Prop :=
  ∀ d, cache.(mt_data) = Some d →
  ∃ f, f ∈ hist ∧ f.(file_config) = Ok d ∧
       f.(file_stat) = Ok (Some (cache.(last_mtime), cache.(last_mtime_nsec))).

Definition file_exists (f : FileState) : Prop := ∃ m n, f.(file_stat) = Ok (Some (m, n)).

Lemma cached_config_from hist cache file :
  file_exists file → mtime_from hist cache →
  mtime_from (hist ++ [file]) (cached_config cache file).1.
Proof.
  intros (m & n & Hs) Hc. unfold cached_config. rewrite Hs.
  assert (mtime_from (hist ++ [file]) cache) as Hext.
  { intros d Hd. destruct (Hc d Hd) as (f & Hin & ?). exists f. split; [|done].
    apply elem_of_app. by left. }
  repeat case_match; simplify_eq; try done; simpl.
  all: intros d [= <-]; exists file; simpl; split; [apply elem_of_app; right; by left|]; auto.
Qed.

Lemma run_files_from cache hist files :
  Forall file_exists files → mtime_from hist cache → mtime_from (hist ++ files) (run_files cache files).
Proof.
  intros H. revert cache hist. induction H as [|f files Hf _ IH]; intros cache hist Hc; simpl.
  - by rewrite app_nil_r.
  - rewrite (cons_middle f hist files), app_assoc. apply IH. by apply cached_config_from.
Qed.

(** As long as the file exists at every call, the configuration that
    [cached_config] returns was read when the file had the modification time it
    has now. *)
Theorem cached_config_fresh files file d :
  Forall file_exists files → file_exists file →
  (cached_config (run_files empty_mtime_cache files) file).2 = Ok d →
  ∃ f, f ∈ files ++ [file] ∧ f.(file_config) = Ok d ∧ f.(file_stat) = file.(file_stat).
Proof.
  intros Hfiles (m & n & Hs).
  assert (mtime_from ([] ++ files) (run_files empty_mtime_cache files)) as Hf
    by (by apply run_files_from).
  set (cache := run_files empty_mtime_cache files) in *. unfold cached_config. rewrite Hs.
  destruct (mt_data cache) as [d'|] eqn:Ed; [destruct (_ && _) eqn:Hhit|].
  - intros [= <-]. destruct (Hf _ Ed) as (f & Hin & Hl & Hst). exists f.
    split; [apply elem_of_app; by left|]. split; [done|].
    apply andb_true_iff in Hhit as [->%Z.eqb_eq ->%Z.eqb_eq]. done.
  - case_match; [|done]. intros [= <-]. exists file. split; [apply elem_of_app; right; by left|done].
  - case_match; [|done]. intros [= <-]. exists file. split; [apply elem_of_app; right; by left|done].
Qed.
End MtimeCache.

(** When the file disappears, the (empty) configuration read meanwhile is cached
    under the times of the old file: if the same file comes back, for example
    renamed away and back, the empty configuration is served for it. *)
Theorem cached_config_stale_after_removal :
  let present := @mkFile nat unit (Ok (Some (1700000000%Z, 5%Z))) (Ok 42) in
  let absent := @mkFile nat unit (Ok None) (Ok 0) in
  (cached_config (run_files empty_mtime_cache [present; absent]) present).2 = Ok 0.
Proof. reflexivity. Qed.

(** ** Witnesses *)
Definition wit_call (now : Z) : @CacheCall nat unit := mkCall now (Some 3%N) (Ok (Z.to_nat now)).
Lemma cached_new_fresh_witness :
  call_load (wit_call 12%Z) = Ok 10 ∨
  ∃ c, c ∈ [wit_call 10%Z] ∧ call_load c = Ok 10 ∧ (call_now (wit_call 12%Z) - call_now c < 5)%Z ∧
       call_generation c = call_generation (wit_call 12%Z).
Proof.
  apply (cached_new_fresh [wit_call 10%Z] (wit_call 12%Z) 10);
    [repeat constructor; eexists; reflexivity|eexists; reflexivity|reflexivity].
Defined.

Definition wit_file (d : nat) : @FileState nat unit := mkFile (Ok (Some (7%Z, 0%Z))) (Ok d).
Lemma cached_config_fresh_witness :
  ∃ f, f ∈ [wit_file 1] ++ [wit_file 2] ∧ file_config f = Ok 1 ∧ file_stat f = file_stat (wit_file 2).
Proof.
  apply (cached_config_fresh [wit_file 1] (wit_file 2) 1);
    [repeat constructor; eexists _, _; reflexivity|eexists _, _; reflexivity|reflexivity].
Defined.

Definition wit_info : CachedUserInfo := {|
  user_cfg := {[ lit "user1@pbs" := user_section {| user_enable := None; user_expire := Some 0%Z |};
                 lit "user1@pbs!tok" := token_section {| token_enable := Some true; token_expire := None |} ]};
  acl_tree := tree_token_below
|}.

Lemma active_token_active_owner_witness :
  is_active_auth_id wit_info 1000%Z (authid_from_userid token1.(user)) = true.
Proof.
  exact (proj1 (active_token_active_owner wit_info 1000%Z token1
                  ltac:(vm_compute; reflexivity))).
Defined.

Lemma user1_valid : valid_authid user1.
Proof.
  split; [|done]. exists (lit "user1"), (lit "pbs"). split; [reflexivity|].
  split; [|reflexivity]. split; [reflexivity|]. simpl. lia.
Qed.

Definition wit_param : gmap rstr rstr := {[ lit "ns" := lit "s1" ]}.
Lemma privilege_check_is_acl_check_witness :
  @check_api_permission_tail (@CachedUserInfo_UserInformation test_conf wit_info) wit_param
    (Privilege [lit "store"; lit "{ns}"] 4%N true) (Some (authid_to_string user1)) =
  is_ok (@check_privs test_conf wit_info.(acl_tree) user1 [lit "store"; lit "s1"] 4%N true).
Proof.
  apply (@privilege_check_is_acl_check test_conf wit_info wit_param [lit "store"; lit "{ns}"]
           [lit "store"; lit "s1"] 4%N true user1);
    [discriminate|vm_compute; reflexivity|exact user1_valid].
Defined.
