(* ===== verification/DebVersion.v ===== *)
(** * DebVersion: Debian version numbers

    Models [proxmox-deb-version/src/lib.rs]: parsing, printing and the
    comparison of Debian package versions. *)
From S2P Require Import Prelude.

Inductive ParseError :=
| Empty
| MissingUpstream
| InvalidEpoch.

Record Version := mkVersion {
  epoch : N;
  upstream : rstr;
  revision : option rstr
}.

Definition v_colon : rchar := 58%N.
Definition v_dash : rchar := 45%N.

(** [parse_version_parts] *)
Definition parse_version_parts (s : rstr) : result Version ParseError :=
  if decide (s = []) then Err Empty
  else
    let? er := match split_once v_colon s with
               | Some (e, r) =>
                   match parse_uint u32_max e with
                   | Some epoch => Ok (epoch, r)
                   | None => Err InvalidEpoch
                   end
               | None => Ok (0%N, s)
               end in
    let '(epoch, rest) := er in
    let '(upstream, revision) :=
      match rposition v_dash rest with
      | Some idx => (take idx rest, Some (drop (idx + 1) rest))
      | None => (rest, None)
      end in
    if decide (upstream = []) then Err MissingUpstream
    else Ok (mkVersion epoch upstream revision).

(** [impl FromStr for Version] *)
Definition version_from_str (s : rstr) : result Version ParseError := parse_version_parts s.

(** [impl Display for Version] *)
Definition version_to_string (v : Version) : rstr :=
  (if (0 <? v.(epoch))%N then dec v.(epoch) ++ [v_colon] else []) ++ v.(upstream) ++
  match v.(revision) with
  | Some rev => v_dash :: rev
  | None => []
  end.

(** ** Comparison *)

(** [order_char], an [i32]. *)
Definition order_char (c : rchar) : Z :=
  if (c =? 126)%N then -1
  else if is_ascii_alphabetic c then Z.of_N c
  else Z.of_N c + 256.

(** [compare_non_digits]: the result and what both iterators have left. *)
Fixpoint compare_non_digits (a b : rstr) : comparison * rstr * rstr :=
  match a, b with
  | ca :: a', cb :: b' =>
      if is_ascii_digit ca then
        if is_ascii_digit cb then (Eq, a, b) else (Z.compare 0 (order_char cb), a, b')
      else if is_ascii_digit cb then (Z.compare (order_char ca) 0, a', b)
      else match Z.compare (order_char ca) (order_char cb) with
           | Eq => compare_non_digits a' b'
           | ord => (ord, a', b')
           end
  | ca :: a', [] =>
      if is_ascii_digit ca then (Eq, a, b) else (Z.compare (order_char ca) 0, a', b)
  | [], cb :: b' =>
      if is_ascii_digit cb then (Eq, a, b) else (Z.compare 0 (order_char cb), a, b')
  | [], [] => (Eq, a, b)
  end.

Definition skip_zeros (s : rstr) : rstr := drop_while (λ c, (c =? 48)%N) s.

(** The loop of [compare_digits]. *)
Fixpoint digits_loop (a b : rstr) (first_diff : comparison) : comparison * rstr * rstr :=
  match a, b with
  | ca :: a', cb :: b' =>
      if is_ascii_digit ca then
        if is_ascii_digit cb then
          digits_loop a' b' (match first_diff with Eq => N.compare ca cb | d => d end)
        else (Gt, a, b)
      else if is_ascii_digit cb then (Lt, a, b)
      else (first_diff, a, b)
  | ca :: a', [] => if is_ascii_digit ca then (Gt, a, b) else (first_diff, a, b)
  | [], cb :: b' => if is_ascii_digit cb then (Lt, a, b) else (first_diff, a, b)
  | [], [] => (first_diff, a, b)
  end.

Definition compare_digits (a b : rstr) : comparison * rstr * rstr :=
  digits_loop (skip_zeros a) (skip_zeros b) Eq.

(** The loop of [debian_cmp_str]; [None] when the fuel runs out. *)
Fixpoint debian_cmp_loop (fuel : nat) (a b : rstr) : option comparison :=
  match a, b with
  | [], [] => Some Eq
  | _, _ =>
      match fuel with
      | O => None
      | S fuel' =>
          match compare_non_digits a b with
          | (Eq, a', b') =>
              match compare_digits a' b' with
              | (Eq, a'', b'') => debian_cmp_loop fuel' a'' b''
              | (diff, _, _) => Some diff
              end
          | (diff, _, _) => Some diff
          end
      end
  end.

(** Every iteration consumes a character, so the two lengths are enough fuel. *)
Definition debian_cmp_str (a b : rstr) : comparison :=
  default Eq (debian_cmp_loop (length a + length b) a b).

Definition then_with (c1 c2 : comparison) : comparison :=
  match c1 with
  | Eq => c2
  | _ => c1
  end.

(** [cmp_version_parts], the [Ord] of [Version]. *)
Definition cmp_version_parts (a b : Version) : comparison :=
  then_with (N.compare a.(epoch) b.(epoch))
    (then_with (debian_cmp_str a.(upstream) b.(upstream))
       match a.(revision), b.(revision) with
       | Some a_rev, Some b_rev => debian_cmp_str a_rev b_rev
       | Some _, None => Gt
       | None, Some _ => Lt
       | None, None => Eq
       end).

Definition cmp_versions (a b : rstr) : result comparison ParseError :=
  let? a_parts := parse_version_parts a in
  let? b_parts := parse_version_parts b in
  Ok (cmp_version_parts a_parts b_parts).

(** ** The order the comparison implements

    A text is a sequence of alternating non-digit and digit runs.  Its key lists
    the weights of each run's characters, closed by 0, then the run's number;
    keys are compared as if continued by zeros forever. *)
Definition non_digit (c : rchar) : bool := negb (is_ascii_digit c).

Fixpoint key_loop (fuel : nat) (s : rstr) : list Z :=
  match s, fuel with
  | [], _ => []
  | _, O => []
  | _, S fuel' =>
      let rest := drop_while non_digit s in
      (order_char <$> take_while non_digit s) ++
      [0%Z; Z.of_N (digits_val (take_while is_ascii_digit rest))] ++
      key_loop fuel' (drop_while is_ascii_digit rest)
  end.

Definition key (s : rstr) : list Z := key_loop (length s) s.

(** Comparison of sequences continued by zeros. *)
Fixpoint lex_zero (a : list Z) : comparison :=
  match a with
  | [] => Eq
  | x :: a' => then_with (Z.compare x 0) (lex_zero a')
  end.

Fixpoint lex_pad (a b : list Z) : comparison :=
  match a, b with
  | x :: a', y :: b' => then_with (Z.compare x y) (lex_pad a' b')
  | _, [] => lex_zero a
  | [], _ => CompOpp (lex_zero b)
  end.

Example manpage_order :
  debian_cmp_str (lit "~~") (lit "~~a") = Lt ∧ debian_cmp_str (lit "~") [] = Lt ∧
  debian_cmp_str [] (lit "a") = Lt ∧ debian_cmp_str (lit "000.1") (lit "0.1") = Eq ∧
  debian_cmp_str (lit "1.0") (lit "1.0.0") = Lt.
Proof. vm_compute. done. Qed.
Example key_order :
  lex_pad (key (lit "~~")) (key (lit "~~a")) = Lt ∧ lex_pad (key (lit "~")) [] = Lt ∧
  lex_pad [] (key (lit "a")) = Lt ∧ lex_pad (key (lit "000.1")) (key (lit "0.1")) = Eq ∧
  lex_pad (key (lit "1.0")) (key (lit "1.0.0")) = Lt.
Proof. vm_compute. done. Qed.

(** ** The reference order is a total preorder *)
#[local] Arguments Z.compare : simpl never.
Lemma then_with_Eq_r c : then_with c Eq = c.
Proof. by destruct c. Qed.

Lemma lex_pad_nil_l b : lex_pad [] b = CompOpp (lex_zero b).
Proof. by destruct b. Qed.
Lemma lex_pad_nil_r a : lex_pad a [] = lex_zero a.
Proof. by destruct a. Qed.

Lemma CompOpp_then c1 c2 : CompOpp (then_with c1 c2) = then_with (CompOpp c1) (CompOpp c2).
Proof. by destruct c1. Qed.

Lemma lex_pad_antisym a b : lex_pad b a = CompOpp (lex_pad a b).
Proof.
  revert b. induction a as [|x a IH]; intros [|y b].
  - done.
  - by rewrite lex_pad_nil_r, lex_pad_nil_l, CompOpp_involutive.
  - by rewrite lex_pad_nil_r, lex_pad_nil_l.
  - simpl. by rewrite CompOpp_then, <- IH, Z.compare_antisym.
Qed.

(** One step of the comparison, also at the end of a sequence. *)
Definition hd0 (a : list Z) : Z := default 0%Z (head a).
Lemma lex_pad_step a b :
  lex_pad a b = then_with (Z.compare (hd0 a) (hd0 b)) (lex_pad (tail a) (tail b)).
Proof.
  destruct a as [|x a], b as [|y b]; unfold hd0; cbn [tail head default]; try done.
  - rewrite !lex_pad_nil_l. simpl. by rewrite CompOpp_then, <- Z.compare_antisym.
  - by rewrite !lex_pad_nil_r.
Qed.

(** The results [o1], [o2] and [o3] of comparing [a] with [b], [b] with [c] and
    [a] with [c] in a total preorder. *)
Definition consistent (o1 o2 o3 : comparison) : Prop :=
  (o1 = Eq → o3 = o2) ∧ (o2 = Eq → o3 = o1) ∧ (o1 = o2 → o3 = o1).

Lemma consistent_then o1 o2 o3 p1 p2 p3 :
  consistent o1 o2 o3 → consistent p1 p2 p3 →
  consistent (then_with o1 p1) (then_with o2 p2) (then_with o3 p3).
Proof. unfold consistent. destruct o1, o2, o3; simpl; intuition congruence. Qed.

Lemma consistent_Zcompare x y z : consistent (Z.compare x y) (Z.compare y z) (Z.compare x z).
Proof.
  unfold consistent. destruct (Z.compare_spec x y), (Z.compare_spec y z), (Z.compare_spec x z);
    repeat split; intros; try done; try lia.
Qed.

Lemma consistent_Ncompare x y z : consistent (N.compare x y) (N.compare y z) (N.compare x z).
Proof.
  unfold consistent. destruct (N.compare_spec x y), (N.compare_spec y z), (N.compare_spec x z);
    repeat split; intros; try done; try lia.
Qed.

Lemma lex_pad_consistent a b c : consistent (lex_pad a b) (lex_pad b c) (lex_pad a c).
Proof.
  remember (length a + length b + length c) as n eqn:Hn. revert a b c Hn.
  induction n as [n IH] using lt_wf_ind. intros a b c ->.
  destruct (decide (length a + length b + length c = 0)) as [H0|H0].
  - destruct a, b, c; simpl in H0; try lia. by repeat split.
  - rewrite (lex_pad_step a b), (lex_pad_step b c), (lex_pad_step a c).
    apply consistent_then; [apply consistent_Zcompare|].
    eapply IH; [|done]. destruct a, b, c; simpl in *; lia.
Qed.

Lemma lex_pad_refl a : lex_pad a a = Eq.
Proof. induction a; simpl; [done|]. by rewrite Z.compare_refl. Qed.

(** ** The code computes the reference order *)

(** A run of non-digits with its terminator. *)
Lemma order_char_ne0 c : order_char c ≠ 0%Z.
Proof. unfold order_char, is_ascii_alphabetic. repeat case_match; lia. Qed.

Lemma order_char_cmp0 c : Z.compare (order_char c) 0 ≠ Eq ∧ Z.compare 0 (order_char c) ≠ Eq.
Proof.
  pose proof (order_char_ne0 c). split; intros H0%Z.compare_eq_iff; congruence.
Qed.

Lemma compare_non_digits_spec a b ka kb :
  lex_pad ((order_char <$> take_while non_digit a) ++ 0%Z :: ka)
          ((order_char <$> take_while non_digit b) ++ 0%Z :: kb) =
  then_with (compare_non_digits a b).1.1 (lex_pad ka kb) ∧
  ((compare_non_digits a b).1.1 = Eq →
   compare_non_digits a b = (Eq, drop_while non_digit a, drop_while non_digit b)).
Proof.
  revert b. induction a as [|ca a IH]; intros [|cb b]; simpl; [done| | |]; unfold non_digit.
  - destruct (is_ascii_digit cb); simpl; [done|].
    destruct (order_char_cmp0 cb) as [_ H]. by destruct (Z.compare 0 (order_char cb)).
  - destruct (is_ascii_digit ca); simpl; [done|].
    destruct (order_char_cmp0 ca) as [H _]. by destruct (Z.compare (order_char ca) 0).
  - destruct (is_ascii_digit ca) eqn:Ea, (is_ascii_digit cb) eqn:Eb; simpl; try done.
    + destruct (order_char_cmp0 cb) as [_ H]. by destruct (Z.compare 0 (order_char cb)).
    + destruct (order_char_cmp0 ca) as [H _]. by destruct (Z.compare (order_char ca) 0).
    + destruct (Z.compare (order_char ca) (order_char cb)) eqn:E; simpl; by try apply IH.
Qed.

(** A run of digits. *)
Lemma skip_zeros_rest s : drop_while is_ascii_digit (skip_zeros s) = drop_while is_ascii_digit s.
Proof.
  unfold skip_zeros. induction s as [|c s IH]; simpl; [done|].
  destruct (N.eqb_spec c 48) as [->|]; [done|]. done.
Qed.

Lemma skip_zeros_val s :
  digits_val (take_while is_ascii_digit (skip_zeros s)) = digits_val (take_while is_ascii_digit s).
Proof.
  unfold skip_zeros. induction s as [|c s IH]; simpl; [done|].
  destruct (N.eqb_spec c 48) as [->|]; simpl; [by rewrite IH|done].
Qed.

Lemma digits_loop_spec a b d :
  let da := take_while is_ascii_digit a in
  let db := take_while is_ascii_digit b in
  (digits_loop a b d).1.1 =
    match Nat.compare (length da) (length db) with
    | Eq => then_with d (str_compare da db)
    | o => o
    end ∧
  (length da = length db →
   digits_loop a b d = ((digits_loop a b d).1.1, drop_while is_ascii_digit a, drop_while is_ascii_digit b)).
Proof.
  revert b d. induction a as [|ca a IH]; intros [|cb b] d; simpl.
  - by rewrite then_with_Eq_r.
  - destruct (is_ascii_digit cb); simpl; [done|]. by rewrite then_with_Eq_r.
  - destruct (is_ascii_digit ca); simpl; [done|]. by rewrite then_with_Eq_r.
  - destruct (is_ascii_digit ca) eqn:Ea, (is_ascii_digit cb) eqn:Eb; simpl; try done.
    + destruct (IH b (match d with Eq => N.compare ca cb | _ => d end)) as [H1 H2]. split.
      * rewrite H1. destruct (Nat.compare _ _); try done. by destruct d, (N.compare ca cb).
      * intros Hl. apply H2. lia.
    + by rewrite then_with_Eq_r.
Qed.

Abbreviation all_digits := (Forall (λ c, is_ascii_digit c = true)).

Lemma take_while_all {A} (p : A → bool) s : Forall (λ c, p c = true) (take_while p s).
Proof. induction s as [|c s IH]; simpl; [constructor|]. destruct (p c) eqn:E; by constructor. Qed.

Lemma digits_val_acc s v :
  foldl (λ v c, (v * 10 + digit_val c)%N) v s = (v * 10 ^ N.of_nat (length s) + digits_val s)%N.
Proof.
  unfold digits_val. revert v. induction s as [|c s IH]; intros v; simpl foldl; [simpl; lia|].
  rewrite IH, (IH (0 * 10 + digit_val c)%N). simpl length.
  rewrite Nat2N.inj_succ, N.pow_succ_r'. lia.
Qed.

Lemma digits_val_cons c s :
  digits_val (c :: s) = (digit_val c * 10 ^ N.of_nat (length s) + digits_val s)%N.
Proof. unfold digits_val at 1. simpl foldl. by rewrite digits_val_acc. Qed.

Lemma digit_val_lt c : is_ascii_digit c = true → (digit_val c < 10)%N.
Proof. unfold is_ascii_digit, digit_val. lia. Qed.

Lemma digits_val_lt s : all_digits s → (digits_val s < 10 ^ N.of_nat (length s))%N.
Proof.
  induction 1 as [|c s Hc Hs IH]; [done|]. rewrite digits_val_cons. simpl length.
  rewrite Nat2N.inj_succ, N.pow_succ_r'. apply digit_val_lt in Hc. nia.
Qed.

(** Without leading zeros, more digits make a larger number. *)
Lemma digits_val_ge c s :
  is_ascii_digit c = true → c ≠ 48%N → (10 ^ N.of_nat (length s) ≤ digits_val (c :: s))%N.
Proof.
  intros Hc H0. rewrite digits_val_cons.
  assert (1 ≤ digit_val c)%N by (unfold is_ascii_digit, digit_val in *; lia). nia.
Qed.

Definition no_leading_zero (s : rstr) : Prop := head s ≠ Some 48%N.

Lemma digits_longer_lt a b :
  all_digits a → all_digits b → no_leading_zero b → length a < length b →
  (digits_val a < digits_val b)%N.
Proof.
  intros Ha Hb Hz Hl. destruct b as [|c b]; [simpl in Hl; lia|].
  inversion Hb as [|? ? Hc Hb']; subst. apply digits_val_lt in Ha.
  assert (c ≠ 48%N) as Hc0 by (intros ->; by apply Hz).
  pose proof (digits_val_ge c b Hc Hc0).
  assert (10 ^ N.of_nat (length a) ≤ 10 ^ N.of_nat (length b))%N; [|lia].
  apply N.pow_le_mono_r; [lia|]. simpl in Hl. lia.
Qed.

Lemma digits_same_length a b :
  all_digits a → all_digits b → length a = length b →
  N.compare (digits_val a) (digits_val b) = str_compare a b.
Proof.
  intros Ha. revert b. induction Ha as [|x a Hx Ha IH]; intros [|y b] Hb Hl; simpl in *; try done.
  inversion Hb as [|? ? Hy Hb']; subst. injection Hl as Hl. rewrite <- (IH b Hb' Hl).
  rewrite !digits_val_cons, <- Hl.
  pose proof (digits_val_lt a Ha) as Ba. pose proof (digits_val_lt b Hb') as Bb. rewrite <- Hl in Bb.
  unfold digit_val, is_ascii_digit in *.
  destruct (N.compare_spec x y) as [->|Hxy|Hxy].
  - destruct (N.compare_spec (digits_val a) (digits_val b)) as [->|?|?].
    + apply N.compare_refl.
    + apply N.compare_lt_iff. lia.
    + apply N.compare_gt_iff. lia.
  - apply N.compare_lt_iff. nia.
  - apply N.compare_gt_iff. nia.
Qed.

Lemma skip_zeros_no_leading s : no_leading_zero (take_while is_ascii_digit (skip_zeros s)).
Proof.
  unfold skip_zeros, no_leading_zero. induction s as [|c s IH]; simpl; [done|].
  destruct (N.eqb_spec c 48) as [->|Hc]; [done|]. simpl.
  destruct (is_ascii_digit c); simpl; congruence.
Qed.

(** [compare_digits] compares the numbers and consumes both runs. *)
Lemma compare_digits_spec a b :
  (compare_digits a b).1.1 =
    N.compare (digits_val (take_while is_ascii_digit a)) (digits_val (take_while is_ascii_digit b)) ∧
  ((compare_digits a b).1.1 = Eq →
   compare_digits a b = (Eq, drop_while is_ascii_digit a, drop_while is_ascii_digit b)).
Proof.
  unfold compare_digits.
  destruct (digits_loop_spec (skip_zeros a) (skip_zeros b) Eq) as [H1 H2].
  set (da := take_while is_ascii_digit (skip_zeros a)) in *.
  set (db := take_while is_ascii_digit (skip_zeros b)) in *.
  rewrite !skip_zeros_rest in H2.
  assert ((digits_loop (skip_zeros a) (skip_zeros b) Eq).1.1 =
          N.compare (digits_val da) (digits_val db)) as Hcmp.
  { rewrite H1. assert (all_digits da ∧ all_digits db) as [Hda Hdb] by (split; apply take_while_all).
    destruct (Nat.compare_spec (length da) (length db)) as [Hl|Hl|Hl].
    - simpl. by rewrite digits_same_length.
    - symmetry. apply N.compare_lt_iff. apply digits_longer_lt; auto. apply skip_zeros_no_leading.
    - symmetry. apply N.compare_gt_iff. apply digits_longer_lt; auto. apply skip_zeros_no_leading. }
  rewrite <- (skip_zeros_val a), <- (skip_zeros_val b). split; [exact Hcmp|].
  intros HEq. assert (length da = length db) as Hl.
  { destruct (Nat.compare_spec (length da) (length db)); congruence. }
  rewrite (H2 Hl). by rewrite HEq.
Qed.

(** ** The whole loop *)
Definition rest_of (s : rstr) : rstr := drop_while is_ascii_digit (drop_while non_digit s).
Definition chunk (s : rstr) : list Z :=
  (order_char <$> take_while non_digit s) ++
  [0%Z; Z.of_N (digits_val (take_while is_ascii_digit (drop_while non_digit s)))].

Lemma length_drop_while {A} (p : A → bool) s : length (drop_while p s) ≤ length s.
Proof. induction s as [|c s IH]; simpl; [lia|]. destruct (p c); simpl; lia. Qed.

Lemma rest_of_le s : length (rest_of s) ≤ length s.
Proof. unfold rest_of. etrans; apply length_drop_while. Qed.

Lemma rest_of_lt s : s ≠ [] → length (rest_of s) < length s.
Proof.
  destruct s as [|c s]; [done|]. intros _. unfold rest_of, non_digit. simpl.
  destruct (is_ascii_digit c) eqn:E; simpl.
  - rewrite E. pose proof (length_drop_while is_ascii_digit s). lia.
  - pose proof (length_drop_while is_ascii_digit (drop_while (λ c, negb (is_ascii_digit c)) s)).
    pose proof (length_drop_while (λ c, negb (is_ascii_digit c)) s). lia.
Qed.

Lemma key_loop_S fuel s : s ≠ [] → key_loop (S fuel) s = chunk s ++ key_loop fuel (rest_of s).
Proof. destruct s; [done|]. intros _. unfold chunk. by rewrite <- app_assoc. Qed.

Lemma key_loop_fuel f1 f2 s :
  length s ≤ f1 → length s ≤ f2 → key_loop f1 s = key_loop f2 s.
Proof.
  revert f2 s. induction f1 as [|f1 IH]; intros f2 s H1 H2.
  - destruct s; [by destruct f2|simpl in H1; lia].
  - destruct s as [|c s]; [by destruct f2|]. destruct f2 as [|f2]; [simpl in H2; lia|].
    rewrite !key_loop_S by done. f_equal. pose proof (rest_of_lt (c :: s) ltac:(done)). apply IH; simpl in *; lia.
Qed.

Lemma key_chunk s : s ≠ [] → key s = chunk s ++ key (rest_of s).
Proof.
  intros Hs. destruct s as [|c s]; [done|]. unfold key at 1.
  simpl length. rewrite key_loop_S by done. f_equal. pose proof (rest_of_lt (c :: s) Hs). apply key_loop_fuel; simpl in *; lia.
Qed.

Lemma lex_pad_zeros b : lex_pad [0%Z; 0%Z] b = lex_pad [] b.
Proof.
  rewrite (lex_pad_step _ b), (lex_pad_step [] b). simpl tail.
  by rewrite (lex_pad_step [0%Z] (tail b)), (lex_pad_step [] (tail b)).
Qed.

(** Also an exhausted text compares as an empty chunk followed by nothing. *)
Lemma lex_pad_key_chunk a b :
  lex_pad (key a) (key b) = lex_pad (chunk a ++ key (rest_of a)) (chunk b ++ key (rest_of b)).
Proof.
  assert (∀ s x, lex_pad (key s) x = lex_pad (chunk s ++ key (rest_of s)) x) as Hl.
  { intros s x. destruct (decide (s = [])) as [->|Hs]; [|by rewrite key_chunk].
    symmetry. apply lex_pad_zeros. }
  rewrite Hl. rewrite lex_pad_antisym, Hl. symmetry. apply lex_pad_antisym.
Qed.

Lemma debian_cmp_loop_spec fuel a b :
  length a + length b ≤ fuel → debian_cmp_loop fuel a b = Some (lex_pad (key a) (key b)).
Proof.
  revert a b. induction fuel as [|fuel IH]; intros a b Hf.
  - destruct a, b; simpl in Hf; try lia. done.
  - destruct (decide (a = [] ∧ b = [])) as [[-> ->]|Hne]; [done|].
    assert (length (rest_of a) + length (rest_of b) < length a + length b) as Hlt.
    { pose proof (rest_of_le a). pose proof (rest_of_le b).
      destruct (decide (a = [])) as [->|Ha]; [|pose proof (rest_of_lt a Ha); lia].
      assert (b ≠ []) as Hb by tauto. pose proof (rest_of_lt b Hb). lia. }
    rewrite lex_pad_key_chunk. unfold chunk. rewrite <- !app_assoc. simpl app.
    assert (debian_cmp_loop (S fuel) a b =
      match compare_non_digits a b with
      | (Eq, a', b') => match compare_digits a' b' with
                        | (Eq, a'', b'') => debian_cmp_loop fuel a'' b''
                        | (diff, _, _) => Some diff
                        end
      | (diff, _, _) => Some diff
      end) as -> by (destruct a, b; [tauto|done..]).
    match goal with |- context [lex_pad (_ ++ 0%Z :: ?ka) (_ ++ 0%Z :: ?kb)] =>
      destruct (compare_non_digits_spec a b ka kb) as [-> Hrest] end.
    destruct (compare_non_digits a b) as [[o a'] b'] eqn:E. simpl in *.
    destruct o; simpl; try done. specialize (Hrest eq_refl). injection Hrest as -> ->.
    destruct (compare_digits_spec (drop_while non_digit a) (drop_while non_digit b)) as [Hc Hr].
    destruct (compare_digits _ _) as [[o a''] b'']. simpl in *.
    rewrite N2Z.inj_compare, <- Hc. destruct o; simpl; try done.
    specialize (Hr eq_refl). injection Hr as -> ->. apply IH. lia.
Qed.

Lemma debian_cmp_str_key a b : debian_cmp_str a b = lex_pad (key a) (key b).
Proof. unfold debian_cmp_str. by rewrite (debian_cmp_loop_spec (length a + length b) a b). Qed.

(** ** The order of the manual page

    deb-version(7): the non-digit parts are compared first, letters sort before all other
    characters and a tilde before everything, even the end of a part; then the numbers
    behind them; and so on with the remainders. *)
Definition letter (c : rchar) : Prop := (65 ≤ c ≤ 90)%N ∨ (97 ≤ c ≤ 122)%N.

Inductive char_before : rchar → rchar → Prop :=
| tilde_first d : d ≠ 126%N → char_before 126%N d
| letter_first c d : letter c → ¬ letter d → d ≠ 126%N → char_before c d
| letters_by_code c d : letter c → letter d → (c < d)%N → char_before c d
| others_by_code c d : ¬ letter c → ¬ letter d → c ≠ 126%N → d ≠ 126%N → (c < d)%N → char_before c d.

Inductive part_before : rstr → rstr → Prop :=
| tilde_before_end s : part_before (126%N :: s) []
| end_before c s : c ≠ 126%N → part_before [] (c :: s)
| part_by_char c d s t : char_before c d → part_before (c :: s) (d :: t)
| part_next c s t : part_before s t → part_before (c :: s) (c :: t).

(** [s] starts with the non-digits [part], followed by all the digits [number] there. *)
Definition version_parts (s part number rest : rstr) : Prop :=
  s = part ++ number ++ rest ∧ Forall (λ c, ¬ (48 ≤ c ≤ 57)%N) part ∧ Forall (λ c, 48 ≤ c ≤ 57)%N number ∧
  (∀ c, head rest = Some c → ¬ (48 ≤ c ≤ 57)%N) ∧ (number = [] → rest = []).

Inductive version_before : rstr → rstr → Prop :=
| by_part a b pa na ra pb nb rb :
    version_parts a pa na ra → version_parts b pb nb rb → part_before pa pb → version_before a b
| by_number a b p na ra nb rb :
    version_parts a p na ra → version_parts b p nb rb → (digits_val na < digits_val nb)%N → version_before a b
| by_remainder a b p na ra nb rb :
    version_parts a p na ra → version_parts b p nb rb → digits_val na = digits_val nb → version_before ra rb → version_before a b.

Lemma digit_iff c : is_ascii_digit c = true ↔ (48 ≤ c ≤ 57)%N.
Proof. unfold is_ascii_digit. lia. Qed.

Lemma char_before_order c d : char_before c d ↔ (order_char c < order_char d)%Z.
Proof.
  unfold order_char. destruct (decide (c = 126%N)) as [->|Hc].
  - rewrite N.eqb_refl. destruct (N.eqb_spec d 126) as [->|Hd].
    + split; [|lia]. intros H; inversion H; unfold letter in *; lia.
    + split; [intros _|intros _; by constructor]. destruct (is_ascii_alphabetic d); lia.
  - rewrite (proj2 (N.eqb_neq c 126)) by done.
    assert (∀ c, is_ascii_alphabetic c = true ↔ letter c) as Hl by (intros x; unfold is_ascii_alphabetic, letter; lia).
    destruct (N.eqb_spec d 126) as [->|Hd].
    + split; [intros H; inversion H; unfold letter in *; lia|]. destruct (is_ascii_alphabetic c); lia.
    + destruct (is_ascii_alphabetic c) eqn:Ec, (is_ascii_alphabetic d) eqn:Ed.
      * apply Hl in Ec, Ed. split; [intros H; inversion H; try done; lia|intros H; apply letters_by_code; try done; lia].
      * apply Hl in Ec. assert (¬ letter d) as Hnd by (intros ?%Hl; congruence).
        split; [intros _; unfold letter in *; lia|intros _; by apply letter_first].
      * apply Hl in Ed. assert (¬ letter c) as Hnc by (intros ?%Hl; congruence).
        split; [intros H; inversion H; try done; lia|unfold letter in *; lia].
      * assert (¬ letter c ∧ ¬ letter d) as [Hnc Hnd] by (split; intros ?%Hl; congruence).
        split; [intros H; inversion H; try done; lia|intros H; apply others_by_code; try done; lia].
Qed.

Lemma order_char_inj c d : order_char c = order_char d → c = d.
Proof. unfold order_char, is_ascii_alphabetic. repeat case_match; lia. Qed.

(** Two parts, each closed by its end. *)
Lemma part_lex s t ka kb :
  lex_pad ((order_char <$> s) ++ 0%Z :: ka) ((order_char <$> t) ++ 0%Z :: kb) = Lt ↔
  part_before s t ∨ s = t ∧ lex_pad ka kb = Lt.
Proof.
  revert t. induction s as [|c s IH]; intros [|d t]; cbn [fmap list_fmap app lex_pad].
  - rewrite Z.compare_refl. simpl. split; [auto|]. intros [H|[_ H]]; [inversion H|done].
  - pose proof (order_char_ne0 d) as Hd. destruct (Z.compare_spec 0 (order_char d)); simpl; [lia| |].
    + split; [|done]. intros _. left. constructor. intros ->. vm_compute in H. done.
    + split; [done|]. intros [H'|[? _]]; [|done]. inversion H'; subst. unfold order_char in H. repeat case_match; lia.
  - pose proof (order_char_ne0 c) as Hc. destruct (Z.compare_spec (order_char c) 0); simpl; [lia| |].
    + split; [|done]. intros _. left. assert (c = 126%N) as ->; [|constructor]. unfold order_char in H. repeat case_match; lia.
    + split; [done|]. intros [H'|[? _]]; [|done]. inversion H'; subst. by vm_compute in H.
  - destruct (Z.compare_spec (order_char c) (order_char d)) as [H%order_char_inj|H|H]; simpl.
    + subst d. rewrite IH. split.
      * intros [H|[-> H]]; [left; by constructor|by right].
      * intros [H|[[= ->] H]]; [|by right]. inversion H as [| |? ? ? ? Hcb|]; subst; [|by left].
        apply char_before_order in Hcb. lia.
    + split; [|done]. intros _. left. constructor. by apply char_before_order.
    + split; [done|]. intros [H'|[[= -> ->] _]]; [|lia]. inversion H' as [| |? ? ? ? Hcb|]; subst; [apply char_before_order in Hcb|]; lia.
Qed.

Lemma take_while_app {A} (p : A → bool) l r :
  Forall (λ c, p c = true) l → (∀ c, head r = Some c → p c = false) → take_while p (l ++ r) = l ∧ drop_while p (l ++ r) = r.
Proof.
  intros Hl Hr. induction Hl as [|c l Hc _ [IH1 IH2]]; simpl.
  - destruct r as [|c r]; [done|]. simpl. by rewrite Hr.
  - by rewrite Hc, IH1, IH2.
Qed.

Lemma parts_split s p n r :
  version_parts s p n r → p = take_while non_digit s ∧ n = take_while is_ascii_digit (drop_while non_digit s) ∧ r = rest_of s.
Proof.
  intros (-> & Hp & Hn & Hr & He).
  destruct (take_while_app non_digit p (n ++ r)) as [H1 H2].
  - eapply Forall_impl; [exact Hp|]. intros c Hc. unfold non_digit. apply negb_true_iff, not_true_iff_false. by rewrite digit_iff.
  - intros c Hc. unfold non_digit. apply negb_false_iff, digit_iff. destruct n as [|x n]; simpl in Hc.
    + rewrite (He eq_refl) in Hc. done.
    + injection Hc as <-. by apply Forall_cons in Hn as [? _].
  - destruct (take_while_app is_ascii_digit n r) as [H3 H4].
    + eapply Forall_impl; [exact Hn|]. intros c. by rewrite digit_iff.
    + intros c Hc%Hr. apply not_true_iff_false. by rewrite digit_iff.
    + unfold rest_of. by rewrite H1, H2, H3, H4.
Qed.

Lemma while_split {A} (p : A → bool) l :
  l = take_while p l ++ drop_while p l ∧ Forall (λ c, p c = true) (take_while p l) ∧
  (∀ c, head (drop_while p l) = Some c → p c = false).
Proof.
  induction l as [|c l (IH1 & IH2 & IH3)]; simpl; [done|]. destruct (p c) eqn:E; simpl.
  - split; [by f_equal|]. split; [by constructor|done].
  - split; [done|]. split; [done|]. by intros ? [= <-].
Qed.

Lemma parts_exist s : version_parts s (take_while non_digit s) (take_while is_ascii_digit (drop_while non_digit s)) (rest_of s).
Proof.
  destruct (while_split non_digit s) as (H1 & H2 & H3).
  destruct (while_split is_ascii_digit (drop_while non_digit s)) as (H4 & H5 & H6). fold (rest_of s) in *.
  split; [by rewrite <- H4|]. split; [|split; [|split]].
  - eapply Forall_impl; [exact H2|]. intros c Hc%negb_true_iff. rewrite <- digit_iff. by rewrite Hc.
  - eapply Forall_impl; [exact H5|]. intros c. by rewrite digit_iff.
  - intros c Hc%H6. rewrite <- digit_iff. by rewrite Hc.
  - intros E. destruct (drop_while non_digit s) as [|c r] eqn:Er; [by unfold rest_of; rewrite Er|].
    specialize (H3 c eq_refl). apply negb_false_iff in H3. simpl in E. by rewrite H3 in E.
Qed.

(** The key in one step. *)
Lemma key_before a b :
  lex_pad (key a) (key b) = Lt ↔
  part_before (take_while non_digit a) (take_while non_digit b) ∨
  take_while non_digit a = take_while non_digit b ∧
  let na := digits_val (take_while is_ascii_digit (drop_while non_digit a)) in
  let nb := digits_val (take_while is_ascii_digit (drop_while non_digit b)) in
  (na < nb)%N ∨ na = nb ∧ lex_pad (key (rest_of a)) (key (rest_of b)) = Lt.
Proof.
  rewrite lex_pad_key_chunk. unfold chunk. rewrite <- !app_assoc. cbn [app]. rewrite part_lex.
  cbn [lex_pad]. cbv zeta. rewrite N2Z.inj_compare.
  match goal with |- context [N.compare ?x ?y] => destruct (N.compare_spec x y) end; simpl;
    split; intros [?|[? ?]]; auto; right; (split; [done|]); naive_solver lia.
Qed.

Lemma version_before_key a b : version_before a b ↔ lex_pad (key a) (key b) = Lt.
Proof.
  split.
  - induction 1 as [a b pa na ra pb nb rb Ha Hb Hp|a b p na ra nb rb Ha Hb Hn|a b p na ra nb rb Ha Hb Hn _ IH];
      apply parts_split in Ha as (Ea & -> & ->), Hb as (Eb & -> & ->); apply key_before; subst; auto.
  - remember (length a + length b) as n eqn:En. revert a b En. induction n as [n IH] using lt_wf_ind. intros a b -> H.
    pose proof (parts_exist a) as Ha. pose proof (parts_exist b) as Hb.
    apply key_before in H as [H|[E [H|[E' H]]]]; [by eapply by_part|rewrite E in Ha; by eapply by_number|].
    rewrite E in Ha. eapply by_remainder; [done..|]. eapply IH; [|done|done].
    pose proof (rest_of_le a). pose proof (rest_of_le b). destruct (decide (a = [])) as [->|Hna].
    + destruct (decide (b = [])) as [->|Hnb]; [done|]. pose proof (rest_of_lt b Hnb). lia.
    + pose proof (rest_of_lt a Hna). lia.
Qed.


Lemma debian_cmp_consistent a b c :
  consistent (debian_cmp_str a b) (debian_cmp_str b c) (debian_cmp_str a c).
Proof. rewrite !debian_cmp_str_key. apply lex_pad_consistent. Qed.

Lemma cmp_revision_consistent (a b c : option rstr) :
  let cmp (x y : option rstr) :=
    match x, y with
    | Some x, Some y => debian_cmp_str x y
    | Some _, None => Gt
    | None, Some _ => Lt
    | None, None => Eq
    end in
  consistent (cmp a b) (cmp b c) (cmp a c).
Proof.
  destruct a, b, c; simpl; try apply debian_cmp_consistent; unfold consistent;
    repeat split; intros; try done.
Qed.

(** [Ord for Version] is a total order on versions: reflexive, reversing
    the arguments reverses the result, and comparisons compose ([consistent]:
    equal versions are interchangeable, smaller-than and larger-than are
    transitive). *)
Theorem cmp_version_total_order a b c :
  cmp_version_parts a a = Eq ∧
  cmp_version_parts b a = CompOpp (cmp_version_parts a b) ∧
  consistent (cmp_version_parts a b) (cmp_version_parts b c) (cmp_version_parts a c).
Proof.
  unfold cmp_version_parts. split; [|split].
  - rewrite N.compare_refl, debian_cmp_str_key, lex_pad_refl. simpl.
    destruct (revision a); [|done]. by rewrite debian_cmp_str_key, lex_pad_refl.
  - rewrite !CompOpp_then, <- N.compare_antisym, !(debian_cmp_str_key (upstream _)), <- lex_pad_antisym.
    destruct (revision a), (revision b); simpl; try done.
    by rewrite !debian_cmp_str_key, <- lex_pad_antisym.
  - apply consistent_then; [apply consistent_Ncompare|].
    apply consistent_then; [apply debian_cmp_consistent|apply cmp_revision_consistent].
Qed.

(** ** Printing and parsing *)
(** The versions whose text determines them: a colon in the upstream version
    needs a non-zero epoch, a dash a revision. *)
Definition wf_version (v : Version) : Prop :=
  (v.(epoch) ≤ u32_max)%N ∧ v.(upstream) ≠ [] ∧
  (v.(epoch) = 0%N → (v_colon ∉ v.(upstream)) ∧ (∀ r, v.(revision) = Some r → v_colon ∉ r)) ∧
  match v.(revision) with
  | Some r => v_dash ∉ r
  | None => v_dash ∉ v.(upstream)
  end.

(** The text behind the epoch. *)
Definition version_rest (v : Version) : rstr :=
  v.(upstream) ++ match v.(revision) with Some rev => v_dash :: rev | None => [] end.

Lemma parse_rest v :
  wf_version v →
  (let '(up, rev) := match rposition v_dash (version_rest v) with
                     | Some idx => (take idx (version_rest v), Some (drop (idx + 1) (version_rest v)))
                     | None => (version_rest v, None)
                     end in
   if decide (up = []) then Err MissingUpstream else Ok (mkVersion v.(epoch) up rev)) =
  (Ok v : result Version ParseError).
Proof.
  intros (_ & Hu & _ & Hd). destruct v as [e u r]. simpl in *. unfold version_rest; simpl.
  destruct r as [r|].
  - rewrite rposition_app by done. rewrite take_app_length, Nat.add_1_r, drop_app_ge by lia.
    replace (S (length u) - length u) with 1 by lia. simpl. by rewrite decide_False.
  - rewrite app_nil_r, rposition_None by done. by rewrite decide_False.
Qed.

(** Printing a version and parsing the text gives the version back, for
    every version whose epoch fits 32 bits and whose parts do not hold a
    separator that printing cannot protect. *)
Theorem version_display_from_str v :
  wf_version v → version_from_str (version_to_string v) = Ok v.
Proof.
  intros Hwf. pose proof (parse_rest v Hwf) as Hrest.
  destruct Hwf as (He & Hu & Hcol & _). unfold version_from_str, parse_version_parts.
  assert (version_to_string v = (if (0 <? epoch v)%N then dec (epoch v) ++ [v_colon] else [])
            ++ version_rest v) as -> by done.
  assert (version_rest v ≠ []) as Hne.
  { unfold version_rest. intros H%app_eq_nil. tauto. }
  rewrite decide_False by (intros H%app_eq_nil; tauto).
  destruct (N.ltb_spec 0 (epoch v)) as [Hpos|Hzero].
  - unfold split_once. rewrite <- app_assoc. simpl.
    rewrite position_app by auto with rust. rewrite take_app_length.
    rewrite drop_app_ge by lia. replace (S (length (dec (epoch v))) - length (dec (epoch v))) with 1 by lia.
    rewrite parse_uint_dec by done. simpl. exact Hrest.
  - assert (epoch v = 0%N) as E0 by lia. destruct (Hcol E0) as [Hc1 Hc2]. simpl.
    unfold split_once. rewrite position_None.
    + simpl. rewrite E0 in Hrest. exact Hrest.
    + unfold version_rest. rewrite not_elem_of_app. split; [done|].
      destruct (revision v) as [r|]; [|apply not_elem_of_nil].
      rewrite not_elem_of_cons. split; [done|auto].
Qed.

Lemma version_display_from_str_witness :
  version_from_str (lit "1:2.0:a-rc1-2") = Ok (mkVersion 1 (lit "2.0:a-rc1") (Some (lit "2"))).
Proof.
  apply (version_display_from_str (mkVersion 1 (lit "2.0:a-rc1") (Some (lit "2")))).
  repeat split; simpl; try done; vm_compute; set_solver.
Defined.

(** An explicit zero epoch is not printed, also when the upstream version holds
    a colon that it protects: the printed text denotes another version. *)
Theorem version_zero_epoch_not_printed :
  version_from_str (lit "0:1:2") = Ok (mkVersion 0 (lit "1:2") None) ∧
  version_from_str (version_to_string (mkVersion 0 (lit "1:2") None)) = Ok (mkVersion 1 (lit "2") None).
Proof. vm_compute. done. Qed.

(** Versions that compare as equal need not be equal: the derived [Eq] compares
    the texts, [Ord] the numbers. *)
Theorem version_ord_eq_differ :
  cmp_version_parts (mkVersion 0 (lit "1.0") None) (mkVersion 0 (lit "1.00") None) = Eq ∧
  mkVersion 0 (lit "1.0") None ≠ mkVersion 0 (lit "1.00") None.
Proof. split; [vm_compute; done|]. vm_compute. congruence. Qed.

(** A missing revision sorts before the revision ["0"]. *)
Theorem version_no_revision_before_zero :
  cmp_versions (lit "1.0") (lit "1.0-0") = Ok Lt.
Proof. vm_compute. done. Qed.
