(* ===== verification/Cidr.v ===== *)
(** * Cidr: CIDR prefixes and address ranges

    Models [Ipv4Cidr], [Ipv6Cidr], [Cidr], [AddressRange] and [IpRange] of
    [proxmox-network-types/src/ip_address.rs].  The code is written twice, for
    [u32] and for [u128]; the definitions here take the width as a parameter and
    are instantiated with 32 and 128.  An address is the integer of its octets
    in network order. *)
From S2P Require Import Prelude.

#[local] Open Scope Z_scope.

Inductive CidrError :=
| InvalidNetmask
| InvalidAddress.

Inductive IpRangeError :=
| MismatchedFamilies
| StartGreaterThanLast
| InvalidFormat.

(** [Ipv4Cidr] and [Ipv6Cidr] *)
Record IpCidr := mkCidr {
  addr : Z;
  mask : Z
}.

#[global] Instance IpCidr_eq_dec : EqDecision IpCidr.
Proof. solve_decision. Defined.

(** [AddressRange<T>] *)
Record AddressRange := mkRange {
  start : Z;
  range_last : Z
}.

Section Width.
Context (W : Z).

(** Unsigned operations of the width. *)
Definition checked_shr (n k : Z) : option Z := if k <? W then Some (Z.shiftr n k) else None.
Definition checked_shl (n k : Z) : option Z :=
  if k <? W then Some (Z.shiftl n k mod 2 ^ W) else None.
Definition checked_add (a b : Z) : option Z := if a + b <? 2 ^ W then Some (a + b) else None.
Definition saturating_pow2 (k : Z) : Z := Z.min (2 ^ k) (2 ^ W - 1).
Definition uint_max : Z := 2 ^ W - 1.

(** [trailing_zeros]: the width for zero. *)
Fixpoint ctz (fuel : nat) (n : Z) : Z :=
  match fuel with
  | O => 0
  | S fuel' => if Z.odd n then 0 else 1 + ctz fuel' (n / 2)
  end.
Definition trailing_zeros (n : Z) : Z := ctz (Z.to_nat W) n.

Definition checked_ilog2 (n : Z) : option Z := if n <=? 0 then None else Some (Z.log2 n).

(** [Ipv4Cidr::new] and [Ipv6Cidr::new] *)
Definition cidr_new (addr mask : Z) : result IpCidr CidrError :=
  if W <? mask then Err InvalidNetmask else Ok (mkCidr addr mask).

(** [contains_address] *)
Definition contains_address (c : IpCidr) (other : Z) : bool :=
  let shift_amount := Z.max 0 (W - c.(mask)) in
  default 0 (checked_shr c.(addr) shift_amount) =? default 0 (checked_shr other shift_amount).

(** [normalize] *)
Definition normalize (addr mask : Z) : Z :=
  Z.land addr (default 0 (checked_shl uint_max (W - mask))).

(** [overlaps] *)
Definition overlaps (a b : IpCidr) : bool :=
  let min_mask := Z.min a.(mask) b.(mask) in
  normalize a.(addr) min_mask =? normalize b.(addr) min_mask.

(** [canonical] *)
Definition canonical (c : IpCidr) : IpCidr := mkCidr (normalize c.(addr) c.(mask)) c.(mask).

(** [AddressRange::new_v4] and [new_v6] *)
Definition range_new (start last : Z) : result AddressRange IpRangeError :=
  if last <? start then Err StartGreaterThanLast else Ok (mkRange start last).

(** The loop of [to_cidrs]; [None] stands for a panic of [unwrap] or for missing
    fuel, and is shown not to occur. *)
Fixpoint to_cidrs_loop (fuel : nat) (current last : Z) (cidrs : list IpCidr)
    : option (list IpCidr) :=
  match fuel with
  | O => None
  | S fuel' =>
      if current <=? last then
        let current_max_mask := W - trailing_zeros current in
        let delta_min_mask :=
          match checked_ilog2 ((last - current) + 1) with
          | Some mask => W - mask
          | None => W
          end in
        let netmask := Z.max current_max_mask delta_min_mask in
        match cidr_new current netmask with
        | Err _ => None
        | Ok cidr =>
            let delta := saturating_pow2 (W - netmask) in
            match checked_add current delta with
            | Some result => to_cidrs_loop fuel' result last (cidrs ++ [cidr])
            | None => Some (cidrs ++ [cidr])
            end
        end
      else Some cidrs
  end.

(** [AddressRange::to_cidrs]; at most two blocks per bit are needed. *)
Definition to_cidrs (r : AddressRange) : option (list IpCidr) :=
  let current := r.(start) in
  let last := r.(range_last) in
  if current =? last then ok (let? c := cidr_new current W in Ok [c])
  else if (current =? 0) && (last =? uint_max) then ok (let? c := cidr_new current 0 in Ok [c])
  else to_cidrs_loop (Z.to_nat (2 * W + 3)) current last [].
End Width.

Definition ipv4_to_cidrs : AddressRange → option (list IpCidr) := to_cidrs 32.
Definition ipv6_to_cidrs : AddressRange → option (list IpCidr) := to_cidrs 128.

Example to_cidrs_ex :
  ipv4_to_cidrs (mkRange 3232235781 3232235786) =
  Some [mkCidr 3232235781 32; mkCidr 3232235782 31; mkCidr 3232235784 31; mkCidr 3232235786 32].
Proof. vm_compute. reflexivity. Qed.

(** ** Blocks *)

(** The prefix length fits and the address fits the width. *)
Definition wf_cidr (W : Z) (c : IpCidr) : Prop := 0 ≤ c.(mask) ≤ W ∧ 0 ≤ c.(addr) < 2 ^ W.

(** The first and the last address of the block a prefix denotes. *)
Definition block_size (W : Z) (c : IpCidr) : Z := 2 ^ (W - c.(mask)).
Definition first_address (W : Z) (c : IpCidr) : Z :=
  c.(addr) - c.(addr) mod block_size W c.
Definition last_address (W : Z) (c : IpCidr) : Z := first_address W c + block_size W c - 1.

Lemma pow2_pos k : 0 ≤ k → 0 < 2 ^ k.
Proof. intros. by apply Z.pow_pos_nonneg. Qed.

Lemma same_quotient_iff a b s :
  0 < s → (a / s = b / s ↔ a - a mod s ≤ b ≤ a - a mod s + s - 1).
Proof.
  intros Hs. pose proof (Z.div_mod a s). pose proof (Z.div_mod b s).
  pose proof (Z.mod_pos_bound a s). pose proof (Z.mod_pos_bound b s).
  split; intros Hq; [nia|]. assert (s * (a / s) ≤ b < s * (a / s) + s) as Hb by nia.
  apply (Z.div_unique b s (a / s) (b - s * (a / s))); lia.
Qed.

Section Facts.
Context (W : Z).

(** Shifting out all bits gives 0, as the checked shift does. *)
Lemma checked_shr_div n k :
  0 ≤ k ≤ W → 0 ≤ n < 2 ^ W → default 0 (checked_shr W n k) = n / 2 ^ k.
Proof.
  intros Hk Hn. unfold checked_shr. destruct (Z.ltb_spec k W); simpl.
  - apply Z.shiftr_div_pow2. lia.
  - replace k with W by lia. by rewrite Z.div_small.
Qed.

Lemma contains_address_spec c a :
  wf_cidr W c → 0 ≤ a < 2 ^ W →
  contains_address W c a = true ↔ first_address W c ≤ a ≤ last_address W c.
Proof.
  intros [Hm Ha] Hb. unfold contains_address, last_address, first_address, block_size.
  rewrite Z.max_r, !checked_shr_div, Z.eqb_eq by lia.
  apply same_quotient_iff. apply pow2_pos. lia.
Qed.

(** The mask of [normalize] clears the host bits. *)
Lemma normalize_spec a m :
  0 ≤ m ≤ W → 0 ≤ a < 2 ^ W → normalize W a m = a - a mod 2 ^ (W - m).
Proof.
  intros Hm Ha. unfold normalize, checked_shl. destruct (Z.ltb_spec (W - m) W); simpl.
  - replace (a - a mod 2 ^ (W - m)) with (Z.shiftl (Z.shiftr a (W - m)) (W - m)).
    2: { rewrite Z.shiftl_mul_pow2, Z.shiftr_div_pow2 by lia.
         pose proof (Z.div_mod a (2 ^ (W - m)) ltac:(pose proof (pow2_pos (W - m)); lia)). lia. }
    apply Z.bits_inj'. intros i Hi. rewrite Z.land_spec, Z.shiftl_spec by lia.
    destruct (Z.ltb_spec i W) as [HiW|HiW].
    + rewrite Z.mod_pow2_bits_low, Z.shiftl_spec by lia.
      destruct (Z.ltb_spec i (W - m)) as [Hlo|Hhi].
      * by rewrite !(Z.testbit_neg_r _ (i - (W - m))), andb_false_r by lia.
      * rewrite Z.shiftr_spec by lia. replace (i - (W - m) + (W - m)) with i by lia.
        replace (uint_max W) with (Z.ones W) by (rewrite Z.ones_equiv; unfold uint_max; lia).
        rewrite Z.ones_spec_low by lia.
        apply andb_true_r.
    + rewrite Z.mod_pow2_bits_high by lia. rewrite andb_false_r. symmetry.
      rewrite Z.shiftr_spec by lia. replace (i - (W - m) + (W - m)) with i by lia.
      destruct (Z.eq_dec a 0) as [->|Hne]; [apply Z.bits_0|].
      apply Z.bits_above_log2; [lia|]. apply Z.log2_lt_pow2; [lia|].
      apply (Z.lt_le_trans _ (2 ^ W)); [lia|]. apply Z.pow_le_mono_r; lia.
  - replace (W - m) with W by lia. rewrite Z.land_0_r, Z.mod_small by lia. lia.
Qed.
End Facts.

Section Overlap.
Context (W : Z).

(** Membership as equality of network parts. *)
Lemma contains_address_quotient c a :
  wf_cidr W c → 0 ≤ a < 2 ^ W →
  contains_address W c a = true ↔ c.(addr) / block_size W c = a / block_size W c.
Proof.
  intros Hc Ha. rewrite (contains_address_spec W c a Hc Ha).
  symmetry. apply same_quotient_iff. destruct Hc. apply pow2_pos. lia.
Qed.

Lemma normalize_eq_iff a b m :
  0 ≤ m ≤ W → 0 ≤ a < 2 ^ W → 0 ≤ b < 2 ^ W →
  normalize W a m = normalize W b m ↔ a / 2 ^ (W - m) = b / 2 ^ (W - m).
Proof.
  intros Hm Ha Hb. rewrite !normalize_spec by lia.
  pose proof (pow2_pos (W - m)). pose proof (Z.div_mod a (2 ^ (W - m))).
  pose proof (Z.div_mod b (2 ^ (W - m))). split; nia.
Qed.

(** The network part of a longer prefix determines that of a shorter one. *)
Lemma quotient_shorter a b m1 m2 :
  m1 ≤ m2 ≤ W → a / 2 ^ (W - m2) = b / 2 ^ (W - m2) → a / 2 ^ (W - m1) = b / 2 ^ (W - m1).
Proof.
  intros Hm Hq. replace (W - m1) with ((W - m2) + (m2 - m1)) by lia.
  rewrite Z.pow_add_r by lia.
  rewrite <- !Z.div_div by (try apply Z.pow_nonzero; try apply pow2_pos; lia). by rewrite Hq.
Qed.

Lemma overlaps_le a b :
  wf_cidr W a → wf_cidr W b → a.(mask) ≤ b.(mask) →
  overlaps W a b = true ↔
  ∃ x, 0 ≤ x < 2 ^ W ∧ contains_address W a x = true ∧ contains_address W b x = true.
Proof.
  intros Ha Hb Hm. pose proof Ha as [Hma Haa]. pose proof Hb as [Hmb Hab].
  unfold overlaps. rewrite Z.min_l, Z.eqb_eq, normalize_eq_iff by lia. split.
  - intros Hq. exists b.(addr). split; [done|].
    by rewrite !contains_address_quotient by done.
  - intros (x & Hx & H1 & H2). rewrite contains_address_quotient in H1, H2 by done.
    unfold block_size in H1, H2.
    rewrite H1. symmetry. by apply (quotient_shorter _ _ (mask a) (mask b)); [lia|].
Qed.

Lemma overlaps_sym a b : overlaps W a b = overlaps W b a.
Proof. unfold overlaps. rewrite Z.min_comm. apply Z.eqb_sym. Qed.

Lemma overlaps_iff a b :
  wf_cidr W a → wf_cidr W b →
  overlaps W a b = true ↔
  ∃ x, 0 ≤ x < 2 ^ W ∧ contains_address W a x = true ∧ contains_address W b x = true.
Proof.
  intros Ha Hb. destruct (Z.le_ge_cases a.(mask) b.(mask)) as [Hm|Hm].
  - by apply overlaps_le.
  - rewrite overlaps_sym, (overlaps_le b a) by done. naive_solver.
Qed.

Lemma canonical_contains c x :
  wf_cidr W c → 0 ≤ x < 2 ^ W → contains_address W (canonical W c) x = contains_address W c x.
Proof.
  intros Hc Hx. pose proof Hc as [Hm Ha].
  assert (normalize W (addr c) (mask c) = first_address W c) as Hn by (by apply normalize_spec).
  assert (0 < block_size W c) as Hs by (apply pow2_pos; lia).
  pose proof (Z.mod_pos_bound (addr c) (block_size W c) Hs).
  pose proof (Z.mod_le (addr c) (block_size W c)).
  assert (wf_cidr W (canonical W c)) as Hw.
  { split; simpl; [done|]. rewrite Hn. unfold first_address. lia. }
  apply eq_true_iff_eq. rewrite !contains_address_quotient by done.
  change (block_size W (canonical W c)) with (block_size W c). simpl. rewrite Hn.
  replace (first_address W c / block_size W c) with (addr c / block_size W c); [done|].
  unfold first_address. pose proof (Z.div_mod (addr c) (block_size W c)).
  apply (Z.div_unique _ _ _ 0); lia.
Qed.
End Overlap.

(** ** Decomposition of a range into blocks *)
Lemma ctz_le fuel n : 0 ≤ ctz fuel n ≤ Z.of_nat fuel.
Proof.
  revert n. induction fuel as [|fuel IH]; intros n; cbn [ctz]; [lia|].
  specialize (IH (n / 2)). destruct (Z.odd n); lia.
Qed.

Lemma ctz_divide fuel n : (2 ^ ctz fuel n | n).
Proof.
  revert n. induction fuel as [|fuel IH]; intros n; cbn [ctz]; [apply Z.divide_1_l|].
  destruct (Z.odd n) eqn:E; [apply Z.divide_1_l|].
  specialize (IH (n / 2)). pose proof (ctz_le fuel (n / 2)).
  rewrite Z.pow_add_r by lia. destruct IH as [q Hq].
  exists q. assert (n mod 2 = 0) as Hm by (rewrite Zmod_odd, E; done).
  pose proof (Z.div_mod n 2). lia.
Qed.

(** The number of trailing zeros is the largest power of two that divides. *)
Lemma ctz_max fuel n j : 0 ≤ j ≤ Z.of_nat fuel → (2 ^ j | n) → j ≤ ctz fuel n.
Proof.
  revert n j. induction fuel as [|fuel IH]; intros n j Hj Hd; cbn [ctz]; [lia|].
  destruct (Z.eq_dec j 0) as [->|Hj0]; [destruct (Z.odd n); pose proof (ctz_le fuel (n / 2)); lia|].
  destruct Hd as [q Hq].
  assert (2 ^ j = 2 * 2 ^ (j - 1)) as Hp.
  { replace j with (1 + (j - 1)) at 1 by lia. rewrite Z.pow_add_r by lia. lia. }
  assert (n = 2 * (q * 2 ^ (j - 1))) as Hn by lia.
  replace (Z.odd n) with false by (rewrite Hn, Z.odd_mul; done).
  assert (j - 1 ≤ ctz fuel (n / 2)); [|lia].
  apply IH; [lia|]. exists q. rewrite Hn, (Z.mul_comm 2), Z.div_mul by lia. done.
Qed.
