(* ===== verification/CidrRange.v ===== *)
(** * CidrRange: address ranges as the smallest set of prefixes

    Properties of the prefixes of [Cidr] and of [AddressRange::to_cidrs]: the
    loop ends, the blocks it returns cover exactly the range, and no other set
    of blocks that does so is smaller. *)
From S2P Require Import Prelude Cidr.

#[local] Open Scope Z_scope.

Section Decomposition.
Context (W : Z) (HW : 0 < W).

(** The exponent of the block the loop takes at [cur]. *)
Definition greedy (cur last : Z) : Z := Z.min (trailing_zeros W cur) (Z.log2 (last - cur + 1)).

(** The blocks from [cur] on, as the loop finds them. *)
Inductive decomposition (last : Z) : Z → list IpCidr → Prop :=
| decomposition_nil cur : cur = last + 1 → decomposition last cur []
| decomposition_cons cur l :
    cur ≤ last → decomposition last (cur + 2 ^ greedy cur last) l →
    decomposition last cur (mkCidr cur (W - greedy cur last) :: l).

Lemma trailing_zeros_le n : 0 ≤ trailing_zeros W n ≤ W.
Proof. unfold trailing_zeros. pose proof (ctz_le (Z.to_nat W) n). lia. Qed.
Lemma trailing_zeros_divide n : (2 ^ trailing_zeros W n | n).
Proof. apply ctz_divide. Qed.
Lemma trailing_zeros_max n j : 0 ≤ j ≤ W → (2 ^ j | n) → j ≤ trailing_zeros W n.
Proof. intros. apply ctz_max; [lia|done]. Qed.
Lemma trailing_zeros_0 : trailing_zeros W 0 = W.
Proof.
  pose proof (trailing_zeros_le 0).
  assert (W ≤ trailing_zeros W 0) by (apply trailing_zeros_max; [lia|apply Z.divide_0_r]). lia.
Qed.

Lemma log2_pow_le n : 0 < n → 2 ^ Z.log2 n ≤ n < 2 * 2 ^ Z.log2 n.
Proof.
  intros Hn. pose proof (Z.log2_spec n Hn) as [H1 H2]. pose proof (Z.log2_nonneg n).
  rewrite Z.pow_succ_r in H2 by lia. lia.
Qed.

Lemma greedy_nonneg cur last : 0 ≤ greedy cur last.
Proof. unfold greedy. pose proof (trailing_zeros_le cur). pose proof (Z.log2_nonneg (last - cur + 1)). lia. Qed.

(** The block fits into the range that is left. *)
Lemma greedy_fits cur last : cur ≤ last → 2 ^ greedy cur last ≤ last - cur + 1.
Proof.
  intros H. pose proof (log2_pow_le (last - cur + 1)) as Hl. pose proof (greedy_nonneg cur last).
  transitivity (2 ^ Z.log2 (last - cur + 1)); [|lia].
  apply Z.pow_le_mono_r; [lia|]. unfold greedy. lia.
Qed.

Lemma greedy_divide cur last : (2 ^ greedy cur last | cur).
Proof.
  pose proof (greedy_nonneg cur last). transitivity (2 ^ trailing_zeros W cur);
    [|apply trailing_zeros_divide].
  exists (2 ^ (trailing_zeros W cur - greedy cur last)).
  rewrite <- Z.pow_add_r; [f_equal; lia|unfold greedy; lia|lia].
Qed.

(** Unless the range is the whole address space, the block is not. *)
Lemma greedy_lt cur last :
  0 ≤ cur ≤ last → last < 2 ^ W → ¬ (cur = 0 ∧ last = uint_max W) → greedy cur last < W.
Proof.
  intros Hc Hl Hfull. unfold uint_max in Hfull. pose proof (greedy_fits cur last) as Hf.
  destruct (Z.lt_ge_cases (greedy cur last) W) as [|Hge]; [done|].
  assert (2 ^ W ≤ 2 ^ greedy cur last) by (apply Z.pow_le_mono_r; lia). lia.
Qed.

(** One iteration of the loop. *)
Lemma to_cidrs_loop_step fuel cur last acc :
  0 ≤ cur ≤ last → last < 2 ^ W → ¬ (cur = 0 ∧ last = uint_max W) →
  to_cidrs_loop W (S fuel) cur last acc =
  (let k := greedy cur last in
   if cur + 2 ^ k <? 2 ^ W then to_cidrs_loop W fuel (cur + 2 ^ k) last (acc ++ [mkCidr cur (W - k)])
   else Some (acc ++ [mkCidr cur (W - k)])).
Proof.
  intros Hc Hl Hfull. pose proof (greedy_lt cur last Hc Hl Hfull) as Hlt.
  pose proof (greedy_nonneg cur last). cbn [to_cidrs_loop].
  rewrite (proj2 (Z.leb_le cur last)) by lia. unfold checked_ilog2.
  rewrite (proj2 (Z.leb_gt (last - cur + 1) 0)) by lia.
  replace (Z.max (W - trailing_zeros W cur) (W - Z.log2 (last - cur + 1)))
    with (W - greedy cur last) by (unfold greedy; lia).
  unfold cidr_new. rewrite (proj2 (Z.ltb_ge W (W - greedy cur last))) by lia.
  replace (W - (W - greedy cur last)) with (greedy cur last) by lia.
  unfold checked_add, saturating_pow2. rewrite Z.min_l; [by destruct (_ <? _)|].
  assert (2 ^ greedy cur last < 2 ^ W) by (apply Z.pow_lt_mono_r; lia). lia.
Qed.

(** Iterations left: while blocks grow the trailing zeros grow, once the rest of
    the range limits the block its logarithm shrinks. *)
Definition iterations (cur last : Z) : Z :=
  if cur <=? last then
    if trailing_zeros W cur <? Z.log2 (last - cur + 1) then 2 * W + 1 - trailing_zeros W cur
    else Z.log2 (last - cur + 1) + 1
  else 0.

Lemma log2_range cur last : 0 ≤ cur ≤ last → last < 2 ^ W → 0 ≤ Z.log2 (last - cur + 1) ≤ W.
Proof.
  intros Hc Hl. split; [apply Z.log2_nonneg|].
  assert (Z.log2 (last - cur + 1) ≤ Z.log2 (2 ^ W)) as H by (apply Z.log2_le_mono; lia).
  by rewrite Z.log2_pow2 in H by lia.
Qed.

Lemma trailing_zeros_grow cur :
  0 ≤ cur → trailing_zeros W cur < W →
  trailing_zeros W cur < trailing_zeros W (cur + 2 ^ trailing_zeros W cur).
Proof.
  intros Hc Ht. pose proof (trailing_zeros_le cur) as Hb. set (t := trailing_zeros W cur) in *.
  assert (t + 1 ≤ trailing_zeros W (cur + 2 ^ t)); [|lia].
  apply trailing_zeros_max; [lia|]. destruct (trailing_zeros_divide cur) as [q Hq]. fold t in Hq.
  destruct (Z.Even_or_Odd q) as [[r ->]|[r ->]].
  - assert (t + 1 ≤ t); [|lia]. apply trailing_zeros_max; [lia|].
    exists r. rewrite Z.pow_add_r by lia. lia.
  - exists (r + 1). rewrite Z.pow_add_r by lia. lia.
Qed.

Lemma iterations_decrease cur last :
  0 ≤ cur ≤ last → last < 2 ^ W →
  iterations (cur + 2 ^ greedy cur last) last < iterations cur last.
Proof.
  intros Hc Hl. pose proof (greedy_fits cur last ltac:(lia)) as Hf.
  pose proof (greedy_nonneg cur last) as Hg. pose proof (log2_range cur last Hc Hl) as HL.
  pose proof (pow2_pos (greedy cur last) Hg) as Hpos. pose proof (trailing_zeros_le cur) as Ht.
  unfold iterations. rewrite (proj2 (Z.leb_le cur last)) by lia.
  destruct (Z.leb_spec (cur + 2 ^ greedy cur last) last) as [Hle|Hgt];
    [|destruct (Z.ltb_spec (trailing_zeros W cur) (Z.log2 (last - cur + 1))); lia].
  pose proof (log2_range (cur + 2 ^ greedy cur last) last ltac:(lia) Hl) as HL'.
  destruct (Z.ltb_spec (trailing_zeros W cur) (Z.log2 (last - cur + 1))) as [Hlt|Hge].
  - assert (greedy cur last = trailing_zeros W cur) as Eg by (unfold greedy; lia).
    rewrite Eg in *.
    pose proof (trailing_zeros_grow cur ltac:(lia) ltac:(lia)). case_match; lia.
  - assert (greedy cur last = Z.log2 (last - cur + 1)) as Eg by (unfold greedy; lia).
    pose proof (log2_pow_le (last - cur + 1) ltac:(lia)) as Hp. rewrite <- Eg in Hp.
    set (cur' := cur + 2 ^ greedy cur last) in *.
    assert (Z.log2 (last - cur' + 1) < greedy cur last) as Hlog.
    { apply Z.log2_lt_pow2; lia. }
    assert (greedy cur last ≤ trailing_zeros W cur') as Hz.
    { apply trailing_zeros_max; [lia|]. apply Z.divide_add_r; [apply greedy_divide|].
      apply Z.divide_refl. }
    case_match; lia.
Qed.

Lemma iterations_bound cur last : 0 ≤ cur → last < 2 ^ W → 0 ≤ iterations cur last ≤ 2 * W + 1.
Proof.
  intros Hc Hl. unfold iterations. destruct (Z.leb_spec cur last); [|lia].
  pose proof (log2_range cur last ltac:(lia) Hl). pose proof (trailing_zeros_le cur).
  case_match; lia.
Qed.

(** The loop ends with the decomposition of what is left of the range. *)
Lemma to_cidrs_loop_decomposition fuel cur last acc :
  0 ≤ cur ≤ last + 1 → last < 2 ^ W → ¬ (cur = 0 ∧ last = uint_max W) →
  iterations cur last < Z.of_nat fuel →
  ∃ l, to_cidrs_loop W fuel cur last acc = Some (acc ++ l) ∧ decomposition last cur l.
Proof.
  revert cur acc. induction fuel as [|fuel IH]; intros cur acc Hc Hl Hfull Hf.
  - pose proof (iterations_bound cur last ltac:(lia) Hl). lia.
  - destruct (Z.le_gt_cases cur last) as [Hle|Hgt].
    + rewrite to_cidrs_loop_step by (try done; lia). simpl.
      pose proof (greedy_fits cur last Hle). pose proof (pow2_pos _ (greedy_nonneg cur last)).
      pose proof (iterations_decrease cur last ltac:(lia) Hl).
      destruct (Z.ltb_spec (cur + 2 ^ greedy cur last) (2 ^ W)) as [Hlt|Hge].
      * destruct (IH (cur + 2 ^ greedy cur last) (acc ++ [mkCidr cur (W - greedy cur last)]))
          as (l & Hloop & Hd); [lia|done|lia|lia|].
        eexists. split; [by rewrite Hloop, <- app_assoc|]. by constructor.
      * eexists. split; [done|]. constructor; [done|]. constructor. lia.
    + exists []. rewrite app_nil_r. cbn [to_cidrs_loop].
      rewrite (proj2 (Z.leb_gt cur last)) by lia. split; [done|]. constructor. lia.
Qed.

(** ** Blocks are aligned intervals *)
Lemma first_address_divide c : wf_cidr W c → (block_size W c | first_address W c).
Proof.
  intros [Hm Ha]. unfold first_address. assert (0 < block_size W c) by (apply pow2_pos; lia).
  exists (addr c / block_size W c). pose proof (Z.div_mod (addr c) (block_size W c)). lia.
Qed.

Lemma block_bounds c :
  wf_cidr W c → 0 ≤ first_address W c ∧ last_address W c < 2 ^ W ∧ 0 < block_size W c.
Proof.
  intros Hc. pose proof Hc as [Hm Ha]. pose proof (first_address_divide c Hc) as [q Hq].
  assert (0 < block_size W c) as Hs by (apply pow2_pos; lia).
  pose proof (Z.mod_pos_bound (addr c) (block_size W c) Hs).
  pose proof (Z.mod_le (addr c) (block_size W c)).
  assert (2 ^ W = 2 ^ mask c * block_size W c) as HW2.
  { unfold block_size. rewrite <- Z.pow_add_r by lia. f_equal. lia. }
  assert (first_address W c ≤ addr c) by (unfold first_address; lia).
  unfold last_address. split; [unfold first_address; lia|]. split; [|done].
  assert (q < 2 ^ mask c) by nia. nia.
Qed.

(** The list covers exactly the addresses from [lo] to [hi]. *)
Definition covers (l : list IpCidr) (lo hi : Z) : Prop :=
  ∀ a, (∃ c, c ∈ l ∧ first_address W c ≤ a ≤ last_address W c) ↔ lo ≤ a ≤ hi.

Lemma aligned_block cur k :
  0 ≤ k ≤ W → (2 ^ k | cur) →
  first_address W (mkCidr cur (W - k)) = cur ∧
  last_address W (mkCidr cur (W - k)) = cur + 2 ^ k - 1.
Proof.
  intros Hk Hd. unfold last_address, first_address, block_size. simpl.
  replace (W - (W - k)) with k by lia. pose proof (pow2_pos k).
  rewrite (proj2 (Z.mod_divide cur (2 ^ k) ltac:(lia)) Hd). lia.
Qed.

Lemma greedy_le_W cur last : greedy cur last ≤ W.
Proof. unfold greedy. pose proof (trailing_zeros_le cur). lia. Qed.

Lemma decomposition_wf last cur l :
  decomposition last cur l → 0 ≤ cur → last < 2 ^ W → Forall (wf_cidr W) l.
Proof.
  induction 1 as [|cur l Hle Hd IH]; intros Hc Hl; constructor.
  - pose proof (greedy_nonneg cur last). pose proof (greedy_le_W cur last).
    split; simpl; lia.
  - apply IH; [|done]. pose proof (pow2_pos _ (greedy_nonneg cur last)). lia.
Qed.

Lemma decomposition_covers last cur l : decomposition last cur l → covers l cur last.
Proof.
  unfold covers. induction 1 as [cur Hcur|cur l Hle Hd IH]; intros a.
  - split; [intros (c & Hin & _); by apply not_elem_of_nil in Hin|lia].
  - pose proof (greedy_nonneg cur last) as Hg. pose proof (greedy_fits cur last Hle).
    pose proof (pow2_pos _ Hg).
    destruct (aligned_block cur (greedy cur last)) as [Hf Hla];
      [split; [done|apply greedy_le_W]|apply greedy_divide|].
    split.
    + intros (c & [->|Hin]%elem_of_cons & Hr); [lia|].
      assert (cur + 2 ^ greedy cur last ≤ a ≤ last); [|lia]. apply IH. eauto.
    + intros Ha. destruct (Z.lt_ge_cases a (cur + 2 ^ greedy cur last)) as [Hlt|Hge].
      * eexists. split; [by left|]. lia.
      * destruct (proj2 (IH a)) as (c & Hin & Hr); [lia|]. exists c. split; [by right|done].
Qed.

(** A block of an exact cover that reaches behind the greedy block starts behind it. *)
Lemma block_behind_greedy cur last c a :
  cur ≤ last → wf_cidr W c → cur ≤ first_address W c → last_address W c ≤ last →
  first_address W c ≤ a ≤ last_address W c → cur + 2 ^ greedy cur last ≤ a →
  cur + 2 ^ greedy cur last ≤ first_address W c.
Proof.
  intros Hle Hc Hf Hla Ha Hbehind. set (k := greedy cur last) in *.
  destruct (Z.le_gt_cases (cur + 2 ^ k) (first_address W c)) as [|Hlt]; [done|exfalso].
  pose proof (greedy_nonneg cur last) as Hk. fold k in Hk.
  pose proof (greedy_divide cur last) as [p Hp]. fold k in Hp.
  pose proof Hc as [Hm _]. destruct (first_address_divide c Hc) as [q Hq].
  set (j := W - mask c). unfold last_address, block_size in *. fold j in Hq, Hla, Ha.
  assert (0 ≤ j ≤ W) as Hj by lia. pose proof (pow2_pos k Hk). pose proof (pow2_pos j ltac:(lia)).
  destruct (Z.le_gt_cases j k) as [Hjk|Hjk].
  - assert (2 ^ k = 2 ^ (k - j) * 2 ^ j) as E by (rewrite <- Z.pow_add_r by lia; f_equal; lia).
    assert (q < p * 2 ^ (k - j) + 2 ^ (k - j)) by nia. nia.
  - assert (2 ^ j = 2 ^ (j - k) * 2 ^ k) as E by (rewrite <- Z.pow_add_r by lia; f_equal; lia).
    assert (p = q * 2 ^ (j - k)) as Hpq by nia.
    assert (j ≤ trailing_zeros W cur) as H1.
    { apply trailing_zeros_max; [lia|]. exists q. nia. }
    assert (j ≤ Z.log2 (last - cur + 1)) as H2.
    { apply Z.log2_le_pow2; nia. }
    assert (j ≤ k); [unfold k, greedy; lia|lia].
Qed.

Lemma length_filter_lt {A} (P : A → Prop) `{∀ x, Decision (P x)} (l : list A) x :
  x ∈ l → ¬ P x → (length (filter P l) < length l)%nat.
Proof.
  induction l as [|y l IH]; intros Hin Hx; [by apply not_elem_of_nil in Hin|].
  rewrite filter_cons. apply elem_of_cons in Hin as [<-|Hin].
  - rewrite decide_False by done. pose proof (length_filter P l). simpl. lia.
  - specialize (IH Hin Hx). case_decide; simpl; lia.
Qed.

Lemma decomposition_minimal last cur l :
  decomposition last cur l →
  ∀ l', Forall (wf_cidr W) l' → covers l' cur last → (length l ≤ length l')%nat.
Proof.
  induction 1 as [cur Hcur|cur l Hle Hd IH]; intros l' Hwf Hcov; simpl; [lia|].
  pose proof (pow2_pos _ (greedy_nonneg cur last)) as Hpos.
  rewrite Forall_forall in Hwf.
  assert (∀ c, c ∈ l' → cur ≤ first_address W c ∧ last_address W c ≤ last) as Hin'.
  { intros c Hc. destruct (block_bounds c (Hwf c Hc)) as (_ & _ & Hs).
    unfold last_address in *. split.
    - assert (cur ≤ first_address W c ≤ last); [|lia]. apply Hcov. exists c. unfold last_address. split; [done|lia].
    - assert (cur ≤ first_address W c + block_size W c - 1 ≤ last); [|lia].
      apply Hcov. exists c. unfold last_address. split; [done|lia]. }
  destruct (proj2 (Hcov cur)) as (c0 & Hc0 & Hr0); [lia|].
  set (P := λ c, cur + 2 ^ greedy cur last ≤ first_address W c).
  assert (length (filter P l') < length l')%nat as Hlen.
  { apply (length_filter_lt P l' c0); [done|]. unfold P. destruct (Hin' c0 Hc0). lia. }
  assert (length l ≤ length (filter P l'))%nat; [|lia].
  apply IH.
  - apply Forall_forall. intros c [_ Hc]%list_elem_of_filter. auto.
  - intros a. split.
    + intros (c & [HP Hc]%list_elem_of_filter & Hr). unfold P in HP.
      assert (cur ≤ a ≤ last); [|lia]. apply Hcov. eauto.
    + intros Ha. destruct (proj2 (Hcov a)) as (c & Hc & Hr); [lia|].
      exists c. split; [|done]. apply list_elem_of_filter. split; [|done]. unfold P.
      destruct (Hin' c Hc). eapply block_behind_greedy; eauto. lia.
Qed.

(** [to_cidrs] returns the decomposition of the range, also in its special cases. *)
Lemma to_cidrs_decomposition r :
  0 ≤ r.(start) ≤ r.(range_last) → r.(range_last) < 2 ^ W →
  ∃ l, to_cidrs W r = Some l ∧ decomposition r.(range_last) r.(start) l.
Proof.
  destruct r as [s e]. simpl. intros Hs He. unfold to_cidrs. simpl.
  destruct (Z.eqb_spec s e) as [->|Hne].
  - unfold cidr_new. rewrite (proj2 (Z.ltb_ge W W)) by lia. eexists. split; [done|].
    assert (greedy e e = 0) as Hg.
    { unfold greedy. replace (e - e + 1) with 1 by lia. change (Z.log2 1) with 0.
      pose proof (trailing_zeros_le e). lia. }
    replace (mkCidr e W) with (mkCidr e (W - greedy e e)) by (rewrite Hg; f_equal; lia).
    constructor; [lia|]. rewrite Hg. by constructor.
  - destruct (_ && _) eqn:Efull.
    + apply andb_true_iff in Efull as [->%Z.eqb_eq ->%Z.eqb_eq]. unfold cidr_new, uint_max.
      rewrite (proj2 (Z.ltb_ge W 0)) by lia. eexists. split; [done|].
      assert (greedy 0 (2 ^ W - 1) = W) as Hg.
      { unfold greedy. rewrite trailing_zeros_0.
        replace (2 ^ W - 1 - 0 + 1) with (2 ^ W) by lia. rewrite Z.log2_pow2 by lia. lia. }
      replace (mkCidr 0 0) with (mkCidr 0 (W - greedy 0 (2 ^ W - 1))) by (rewrite Hg; f_equal; lia).
      constructor; [lia|]. rewrite Hg. constructor. lia.
    + destruct (to_cidrs_loop_decomposition (Z.to_nat (2 * W + 3)) s e []) as (l & -> & Hd);
        [lia|done| | |by exists l].
      * intros [-> ->]. by rewrite !Z.eqb_refl in Efull.
      * pose proof (iterations_bound s e ltac:(lia) He). lia.
Qed.
End Decomposition.

(** ** Properties for both address families *)

Lemma covers_contains W l lo hi :
  0 < W → 0 ≤ lo → hi < 2 ^ W → Forall (wf_cidr W) l →
  covers W l lo hi ↔
  ∀ a, 0 ≤ a < 2 ^ W → (∃ c, c ∈ l ∧ contains_address W c a = true) ↔ lo ≤ a ≤ hi.
Proof.
  intros HW Hlo Hhi Hwf. rewrite Forall_forall in Hwf. unfold covers. split.
  - intros Hc a Ha. rewrite <- Hc. split; intros (c & Hin & Hr); exists c; (split; [done|]);
      by apply contains_address_spec; auto.
  - intros Hc a. split.
    + intros (c & Hin & Hr). destruct (block_bounds W HW c (Hwf c Hin)) as (? & ? & _).
      apply Hc; [lia|]. exists c. split; [done|]. apply contains_address_spec; auto. lia.
    + intros Ha. destruct (proj2 (Hc a ltac:(lia)) Ha) as (c & Hin & Hr). exists c. split; [done|].
      apply contains_address_spec in Hr; auto. lia.
Qed.

(** [C15] Splitting a range into prefixes always succeeds (no [unwrap] panics and
    the loop ends within two iterations per address bit), and the returned
    prefixes contain exactly the addresses of the range; for IPv4 and IPv6. *)
Theorem to_cidrs_exact W r :
  W = 32 ∨ W = 128 → 0 ≤ r.(start) ≤ r.(range_last) → r.(range_last) < 2 ^ W →
  ∃ l, to_cidrs W r = Some l ∧ Forall (wf_cidr W) l ∧
    ∀ a, 0 ≤ a < 2 ^ W →
      (∃ c, c ∈ l ∧ contains_address W c a = true) ↔ r.(start) ≤ a ≤ r.(range_last).
Proof.
  intros HW Hs He. assert (0 < W) as HW0 by lia.
  destruct (to_cidrs_decomposition W HW0 r Hs He) as (l & Hl & Hd). exists l. split; [done|].
  assert (Forall (wf_cidr W) l) as Hwf by (eapply decomposition_wf; eauto; lia).
  split; [done|]. apply covers_contains; [lia|lia|done|done|].
  eapply decomposition_covers; eauto.
Qed.

(** The documentation's promise of the minimum number of prefixes holds: no
    list of valid prefixes that contains exactly the addresses of the range is
    shorter than the one [to_cidrs] returns. *)
Theorem to_cidrs_minimal W r l l' :
  W = 32 ∨ W = 128 → 0 ≤ r.(start) ≤ r.(range_last) → r.(range_last) < 2 ^ W →
  to_cidrs W r = Some l →
  Forall (wf_cidr W) l' →
  (∀ a, 0 ≤ a < 2 ^ W →
     (∃ c, c ∈ l' ∧ contains_address W c a = true) ↔ r.(start) ≤ a ≤ r.(range_last)) →
  (length l ≤ length l')%nat.
Proof.
  intros HW Hs He Hl Hwf Hc. assert (0 < W) as HW0 by lia.
  destruct (to_cidrs_decomposition W HW0 r Hs He) as (l0 & Hl0 & Hd).
  rewrite Hl in Hl0. injection Hl0 as <-.
  eapply decomposition_minimal; eauto. apply covers_contains; auto; lia.
Qed.

(** Two prefixes overlap, as the code decides by comparing the network
    parts under the shorter mask, exactly when some address is in both. *)
Theorem overlaps_correct W a b :
  wf_cidr W a → wf_cidr W b →
  overlaps W a b = true ↔
  ∃ x, 0 ≤ x < 2 ^ W ∧ contains_address W a x = true ∧ contains_address W b x = true.
Proof. apply overlaps_iff. Qed.

(** The canonical form of a prefix names the first address of its block,
    contains the same addresses, and is its own canonical form. *)
Theorem canonical_correct W c :
  W = 32 ∨ W = 128 → wf_cidr W c →
  (canonical W c).(addr) = first_address W c ∧
  (∀ x, 0 ≤ x < 2 ^ W → contains_address W (canonical W c) x = contains_address W c x) ∧
  canonical W (canonical W c) = canonical W c.
Proof.
  intros HW Hc. assert (0 < W) as HW0 by lia. pose proof Hc as [Hm Ha].
  assert (normalize W (addr c) (mask c) = first_address W c) as Hn by (by apply normalize_spec).
  split; [done|]. split; [intros; by apply canonical_contains|].
  unfold canonical. simpl. f_equal. rewrite Hn.
  destruct (block_bounds W HW0 c Hc) as (Hlo & Hhi & Hs).
  rewrite normalize_spec; [|done|unfold last_address in Hhi; lia].
  pose proof (first_address_divide W HW0 c Hc) as Hdiv. unfold block_size in Hs, Hdiv.
  rewrite (proj2 (Z.mod_divide (first_address W c) (2 ^ (W - mask c)) ltac:(lia)) Hdiv). lia.
Qed.

(** ** Witnesses *)
Lemma to_cidrs_exact_witness :
  ∃ l, to_cidrs 32 (mkRange 5 10) = Some l ∧ Forall (wf_cidr 32) l ∧
    ∀ a, 0 ≤ a < 2 ^ 32 → (∃ c, c ∈ l ∧ contains_address 32 c a = true) ↔ 5 ≤ a ≤ 10.
Proof. apply (to_cidrs_exact 32 (mkRange 5 10)); [by left|simpl; lia|simpl; lia]. Defined.

Lemma to_cidrs_minimal_witness : (1 ≤ length [mkCidr 8 31; mkCidr 10 31])%nat.
Proof.
  apply (to_cidrs_minimal 32 (mkRange 8 11) [mkCidr 8 30] [mkCidr 8 31; mkCidr 10 31]);
    [by left|simpl; lia|simpl; lia|vm_compute; reflexivity|repeat constructor; simpl; lia|].
  apply covers_contains; [lia|simpl; lia|simpl; lia|repeat constructor; simpl; lia|].
  intros a. simpl. split.
  - intros (c & Hin & Hr). apply elem_of_cons in Hin as [->|Hin];
      [vm_compute first_address in Hr; vm_compute last_address in Hr; lia|].
    apply list_elem_of_singleton in Hin as ->.
    vm_compute first_address in Hr; vm_compute last_address in Hr; lia.
  - intros Ha. destruct (Z.le_gt_cases a 9).
    + exists (mkCidr 8 31). split; [by left|]. vm_compute first_address; vm_compute last_address; lia.
    + exists (mkCidr 10 31). split; [right; by left|]. vm_compute first_address; vm_compute last_address; lia.
Defined.

Lemma overlaps_correct_witness :
  ∃ x, 0 ≤ x < 2 ^ 32 ∧ contains_address 32 (mkCidr 3232235776 24) x = true ∧
       contains_address 32 (mkCidr 3232235904 25) x = true.
Proof.
  apply (overlaps_correct 32 (mkCidr 3232235776 24) (mkCidr 3232235904 25));
    [split; simpl; lia|split; simpl; lia|vm_compute; reflexivity].
Defined.

Lemma canonical_correct_witness : canonical 32 (canonical 32 (mkCidr 33686216 24)) = mkCidr 33686016 24.
Proof.
  exact (proj2 (proj2 (canonical_correct 32 (mkCidr 33686216 24) (or_introl eq_refl) ltac:(split; simpl; lia)))).
Defined.
