(* ===== verification/IpAddr.v ===== *)
(** * IpAddr: prefixes and ranges of either family, and their text

    Models the enums [Cidr] and [IpRange] of
    [proxmox-network-types/src/ip_address.rs] with their parsers and printers.
    The text of IPv4 addresses follows the standard library; the text of IPv6
    addresses is a parameter. *)
From S2P Require Import Prelude DebVersion Cidr CidrRange.

#[local] Open Scope Z_scope.

Inductive Cidr :=
| Ipv4 (c : IpCidr)
| Ipv6 (c : IpCidr).

Inductive IpAddr :=
| V4 (a : Z)
| V6 (a : Z).

Inductive IpRange :=
| RangeV4 (r : AddressRange)
| RangeV6 (r : AddressRange).

(** [Ipv6Addr::to_ipv4_mapped] and [Ipv4Addr::to_ipv6_mapped]: [::ffff:a.b.c.d]. *)
Definition to_ipv4_mapped (v6 : Z) : option Z :=
  if v6 / 2 ^ 32 =? 65535 then Some (v6 mod 2 ^ 32) else None.
Definition to_ipv6_mapped (v4 : Z) : Z := 65535 * 2 ^ 32 + v4.

(** The operations of [Ipv4Cidr] and [Ipv6Cidr], which differ in the width only. *)
Definition ipv4_cidr_new := cidr_new 32.
Definition ipv6_cidr_new := cidr_new 128.
Definition ipv4_contains_address := contains_address 32.
Definition ipv6_contains_address := contains_address 128.
Definition ipv4_overlaps := overlaps 32.
Definition ipv6_overlaps := overlaps 128.

(** [Cidr::new] *)
Definition cidr_new_any (a : IpAddr) (mask : Z) : result Cidr CidrError :=
  match a with
  | V4 v4 => let? c := ipv4_cidr_new v4 mask in Ok (Ipv4 c)
  | V6 v6 => let? c := ipv6_cidr_new v6 mask in Ok (Ipv6 c)
  end.

(** [Cidr::overlaps] *)
Definition cidr_overlaps (a b : Cidr) : bool :=
  match a, b with
  | Ipv4 a, Ipv4 b => ipv4_overlaps a b
  | Ipv6 a, Ipv6 b => ipv6_overlaps a b
  | _, _ => false
  end.

(** [Cidr::contains_address] *)
Definition cidr_contains_address (c : Cidr) (ip : IpAddr) : bool :=
  match c, ip with
  | Ipv4 cidr, V4 ip => ipv4_contains_address cidr ip
  | Ipv6 cidr, V6 ip => ipv6_contains_address cidr ip
  | Ipv4 cidr, V6 v6 =>
      match to_ipv4_mapped v6 with
      | Some v4 => ipv4_contains_address cidr v4
      | None => false
      end
  | Ipv6 cidr, V4 v4 => ipv6_contains_address cidr (to_ipv6_mapped v4)
  end.

(** [IpRange::new] *)
Definition ip_range_new (start last : IpAddr) : result IpRange IpRangeError :=
  match start, last with
  | V4 start, V4 last => let? r := range_new start last in Ok (RangeV4 r)
  | V6 start, V6 last => let? r := range_new start last in Ok (RangeV6 r)
  | _, _ => Err MismatchedFamilies
  end.

(** [IpRange::to_cidrs] *)
Definition ip_range_to_cidrs (r : IpRange) : option (list Cidr) :=
  match r with
  | RangeV4 r => option_map (map Ipv4) (ipv4_to_cidrs r)
  | RangeV6 r => option_map (map Ipv6) (ipv6_to_cidrs r)
  end.

(** ** Text *)
Definition dot : rchar := 46%N.
Definition ip_slash : rchar := 47%N.
Definition hyphen : rchar := 45%N.

(** [Ipv4Addr::from_str]: four decimal octets without leading zeros. *)
Definition parse_octet (s : rstr) : option Z :=
  if forallb is_ascii_digit s && (0 <? length s)%nat && (length s <=? 3)%nat &&
     (negb (bool_decide (head s = Some 48%N)) || (length s =? 1)%nat) &&
     (digits_val s <=? 255)%N
  then Some (Z.of_N (digits_val s)) else None.

Definition parse_ipv4 (s : rstr) : option Z :=
  match split_on dot s with
  | [a; b; c; d] =>
      match parse_octet a, parse_octet b, parse_octet c, parse_octet d with
      | Some a, Some b, Some c, Some d => Some (((a * 256 + b) * 256 + c) * 256 + d)
      | _, _, _, _ => None
      end
  | _ => None
  end.

(** [Display for Ipv4Addr] *)
Definition octet (a i : Z) : N := Z.to_N (a / 256 ^ i mod 256).
Definition show_ipv4 (a : Z) : rstr :=
  join_with [dot] [dec (octet a 3); dec (octet a 2); dec (octet a 1); dec (octet a 0)].

(** [FromStr] and [Display] of a prefix over the text of its addresses. *)
Definition cidr_from_str (W : Z) (parse_addr : rstr → option Z) (s : rstr)
    : result IpCidr CidrError :=
  match split_once ip_slash s with
  | None => match parse_addr s with
            | Some a => Ok (mkCidr a W)
            | None => Err InvalidAddress
            end
  | Some (addr, mask) =>
      match parse_addr addr with
      | None => Err InvalidAddress
      | Some a => match parse_uint u8_max mask with
                  | None => Err InvalidNetmask
                  | Some m => cidr_new W a (Z.of_N m)
                  end
      end
  end.

Definition cidr_to_string (show_addr : Z → rstr) (c : IpCidr) : rstr :=
  show_addr c.(addr) ++ ip_slash :: dec (Z.to_N c.(mask)).

(** [FromStr] and [Display] of a range. *)
Definition range_from_str (parse_addr : rstr → option Z) (s : rstr)
    : result AddressRange IpRangeError :=
  match split_once hyphen s with
  | Some (start, last) =>
      match parse_addr start with
      | None => Err InvalidFormat
      | Some start_address =>
          match parse_addr last with
          | None => Err InvalidFormat
          | Some last_address => range_new start_address last_address
          end
      end
  | None => Err InvalidFormat
  end.

Definition range_to_string (show_addr : Z → rstr) (r : AddressRange) : rstr :=
  show_addr r.(start) ++ hyphen :: show_addr r.(range_last).

Definition ipv4_cidr_from_str := cidr_from_str 32 parse_ipv4.
Definition ipv4_range_from_str := range_from_str parse_ipv4.

Section Text.
Context (parse_ipv6 : rstr → option Z).

Definition ipv6_cidr_from_str := cidr_from_str 128 parse_ipv6.
Definition ipv6_range_from_str := range_from_str parse_ipv6.

(** [FromStr for Cidr]: IPv4 first. *)
Definition cidr_any_from_str (s : rstr) : result Cidr CidrError :=
  match ipv4_cidr_from_str s with
  | Ok ip => Ok (Ipv4 ip)
  | Err _ => let? ip := ipv6_cidr_from_str s in Ok (Ipv6 ip)
  end.

(** [FromStr for IpRange] *)
Definition ip_range_from_str (s : rstr) : result IpRange IpRangeError :=
  match ipv4_range_from_str s with
  | Ok range => Ok (RangeV4 range)
  | Err _ => match ipv6_range_from_str s with
             | Ok range => Ok (RangeV6 range)
             | Err _ => Err InvalidFormat
             end
  end.

(** [Cidr::from_str_list]; a range that [to_cidrs] cannot split would panic. *)
Fixpoint from_str_list_loop (pieces : list rstr) (res : list Cidr)
    : option (result (list Cidr) IpRangeError) :=
  match pieces with
  | [] => Some (Ok res)
  | piece :: pieces' =>
      let s := trim piece in
      if decide (s = []) then from_str_list_loop pieces' res
      else match cidr_any_from_str s with
           | Ok cidr => from_str_list_loop pieces' (res ++ [cidr])
           | Err _ =>
               match ip_range_from_str s with
               | Err _ => Some (Err InvalidFormat)
               | Ok range =>
                   match ip_range_to_cidrs range with
                   | Some l => from_str_list_loop pieces' (res ++ l)
                   | None => None
                   end
               end
           end
  end.

Definition from_str_list (l : rstr) : option (result (list Cidr) IpRangeError) :=
  from_str_list_loop (split_on 44%N l) [].
End Text.

Example from_str_list_ex :
  from_str_list (λ _, None) (lit "10.0.0.1, 192.168.1.5-192.168.1.6,192.168.0.0/16,") =
  Some (Ok [Ipv4 (mkCidr 167772161 32); Ipv4 (mkCidr 3232235781 32); Ipv4 (mkCidr 3232235782 32);
            Ipv4 (mkCidr 3232235520 16)]).
Proof. vm_compute. reflexivity. Qed.

(** ** Mapped addresses *)

(** Membership does not depend on how an IPv4 address is written: an IPv4
    prefix contains the IPv6-mapped form of an address exactly when it contains
    the address, and the prefix mapped to IPv6, with 96 added to its length,
    contains the same addresses in either form. *)
Theorem contains_address_mapped c a :
  wf_cidr 32 c → 0 ≤ a < 2 ^ 32 →
  let mapped := Ipv6 (mkCidr (to_ipv6_mapped c.(addr)) (96 + c.(mask))) in
  cidr_contains_address (Ipv4 c) (V6 (to_ipv6_mapped a)) = cidr_contains_address (Ipv4 c) (V4 a) ∧
  cidr_contains_address mapped (V4 a) = cidr_contains_address (Ipv4 c) (V4 a) ∧
  cidr_contains_address mapped (V6 (to_ipv6_mapped a)) = cidr_contains_address (Ipv4 c) (V4 a).
Proof.
  intros [Hm Ha] Hb mapped. unfold mapped. simpl.
  unfold ipv4_contains_address, ipv6_contains_address.
  assert (to_ipv4_mapped (to_ipv6_mapped a) = Some a) as ->.
  { unfold to_ipv4_mapped, to_ipv6_mapped. rewrite (Z.add_comm _ a), Z.div_add by lia.
    rewrite Z.div_small by lia. simpl. rewrite Z.mod_add, Z.mod_small by lia. done. }
  split; [done|].
  assert (∀ x, 0 ≤ x < 2 ^ 32 → 0 ≤ to_ipv6_mapped x < 2 ^ 128) as Hr
    by (unfold to_ipv6_mapped; intros; lia).
  assert (contains_address 128 (mkCidr (to_ipv6_mapped (addr c)) (96 + mask c)) (to_ipv6_mapped a)
          = contains_address 32 c a) as H; [|by rewrite H].
  apply eq_true_iff_eq. rewrite !contains_address_quotient; try done; try (split; simpl; lia);
    try (apply Hr; done); [|split; simpl; [lia|apply Hr; lia]].
  unfold block_size. simpl. replace (128 - (96 + mask c)) with (32 - mask c) by lia.
  unfold to_ipv6_mapped. set (k := 32 - mask c).
  assert (65535 * 2 ^ 32 = (65535 * 2 ^ mask c) * 2 ^ k) as E.
  { rewrite <- Z.mul_assoc, <- Z.pow_add_r by lia. unfold k. do 2 f_equal. lia. }
  rewrite E, !(Z.add_comm (_ * 2 ^ k)), !Z.div_add by (apply Z.pow_nonzero; lia). lia.
Qed.

(** ** Round trips *)
Lemma parse_octet_dec n : (n ≤ 255)%N → parse_octet (dec n) = Some (Z.of_N n).
Proof.
  intros Hn.
  assert (forallb (λ m, bool_decide (parse_octet (dec (N.of_nat m)) = Some (Z.of_nat m)))
            (seq 0 256) = true) as Hall by (vm_compute; reflexivity).
  rewrite forallb_forall in Hall. specialize (Hall (N.to_nat n)).
  rewrite bool_decide_eq_true, N2Nat.id, N_nat_Z in Hall. apply Hall.
  apply in_seq. lia.
Qed.

Lemma parse_show_ipv4 a : 0 ≤ a < 2 ^ 32 → parse_ipv4 (show_ipv4 a) = Some a.
Proof.
  intros Ha. unfold parse_ipv4, show_ipv4.
  rewrite split_on_join; [|done|repeat constructor; by apply dec_not_in].
  assert (∀ i, (octet a i ≤ 255)%N) as Hoct.
  { intros i. unfold octet. pose proof (Z.mod_pos_bound (a / 256 ^ i) 256). lia. }
  rewrite !parse_octet_dec by apply Hoct. f_equal. unfold octet.
  rewrite !Z2N.id by (apply Z.mod_pos_bound; lia).
  change (256 ^ 3) with (256 * 256 * 256). change (256 ^ 2) with (256 * 256).
  change (256 ^ 1) with 256. change (256 ^ 0) with 1. rewrite Z.div_1_r.
  rewrite <- !Z.div_div by lia.
  rewrite (Z.mod_small (a / 256 / 256 / 256)).
  2: { rewrite !Z.div_div by lia. split; [apply Z.div_pos; lia|apply Z.div_lt_upper_bound; lia]. }
  pose proof (Z.div_mod a 256). pose proof (Z.div_mod (a / 256) 256).
  pose proof (Z.div_mod (a / 256 / 256) 256). lia.
Qed.

(** The text of an address has no separator of prefixes or ranges. *)
Lemma show_ipv4_not_in a c : is_ascii_digit c = false → c ≠ dot → c ∉ show_ipv4 a.
Proof.
  intros Hc Hd. unfold show_ipv4. simpl.
  rewrite !not_elem_of_app, !not_elem_of_cons, !not_elem_of_app, !not_elem_of_cons.
  rewrite !not_elem_of_app, !not_elem_of_cons. repeat split; auto using dec_not_in.
Qed.

(** Any prefix parser and printer invert each other if those of addresses do. *)
Lemma cidr_text_roundtrip W parse_addr show_addr c :
  W ≤ 255 → wf_cidr W c →
  parse_addr (show_addr c.(addr)) = Some c.(addr) → ip_slash ∉ show_addr c.(addr) →
  cidr_from_str W parse_addr (cidr_to_string show_addr c) = Ok c.
Proof.
  intros HW [Hm Ha] Hp Hs. unfold cidr_from_str, cidr_to_string, split_once.
  rewrite position_app by done. rewrite take_app_length, drop_app_ge by lia.
  replace (S (length (show_addr (addr c))) - length (show_addr (addr c)))%nat with 1%nat by lia.
  rewrite Hp. rewrite skipn_cons, drop_0. rewrite parse_uint_dec by (unfold u8_max; lia).
  rewrite Z2N.id by lia. unfold cidr_new. rewrite (proj2 (Z.ltb_ge _ _)) by lia. by destruct c.
Qed.

(** Printing an IPv4 prefix or an IPv4 range and parsing the text gives it
    back, through the parsers of the specific and of the combined types. *)
Theorem ipv4_text_roundtrip parse_ipv6 c r :
  wf_cidr 32 c → 0 ≤ r.(start) ≤ r.(range_last) → r.(range_last) < 2 ^ 32 →
  cidr_any_from_str parse_ipv6 (cidr_to_string show_ipv4 c) = Ok (Ipv4 c) ∧
  ip_range_from_str parse_ipv6 (range_to_string show_ipv4 r) = Ok (RangeV4 r).
Proof.
  intros Hc Hs Hl. split.
  - unfold cidr_any_from_str, ipv4_cidr_from_str. pose proof Hc as [_ Ha].
    rewrite (cidr_text_roundtrip 32 parse_ipv4 show_ipv4 c); [done|lia|done| |].
    + by apply parse_show_ipv4.
    + by apply show_ipv4_not_in.
  - unfold ip_range_from_str, ipv4_range_from_str, range_from_str, range_to_string, split_once.
    rewrite position_app by by apply show_ipv4_not_in.
    rewrite take_app_length, drop_app_ge by lia.
    replace (S (length (show_ipv4 (start r))) - length (show_ipv4 (start r)))%nat with 1%nat by lia.
    rewrite skipn_cons, drop_0. rewrite !parse_show_ipv4 by lia. unfold range_new.
    rewrite (proj2 (Z.ltb_ge _ _)) by lia. by destruct r.
Qed.

(** ** Witnesses *)
Lemma contains_address_mapped_witness :
  cidr_contains_address (Ipv4 (mkCidr 3232235520 24)) (V6 (to_ipv6_mapped 3232235620)) =
  cidr_contains_address (Ipv4 (mkCidr 3232235520 24)) (V4 3232235620).
Proof.
  exact (proj1 (contains_address_mapped (mkCidr 3232235520 24) 3232235620
                  ltac:(split; simpl; lia) ltac:(lia))).
Defined.

Lemma ipv4_text_roundtrip_witness :
  cidr_any_from_str (λ _, None) (lit "192.168.1.0/24") = Ok (Ipv4 (mkCidr 3232235776 24)).
Proof.
  exact (proj1 (ipv4_text_roundtrip (λ _, None) (mkCidr 3232235776 24) (mkRange 1 2)
                  ltac:(split; simpl; lia) ltac:(simpl; lia) ltac:(simpl; lia))).
Defined.
