(* ===== verification/F64.v ===== *)
(** * F64: the binary64 numbers the round robin database computes with

    Rust's [f64] as the standard library's executable specification of IEEE 754
    numbers ([SpecFloat]) with 53 bits of precision, and the casts between
    [f64] and [u64]. The lemma the clients need is that truncation to [u64] is
    monotone on the numbers that have a binary64 representation. *)
From Stdlib Require Import SpecFloat.
From S2P Require Import Prelude.

#[local] Open Scope Z_scope.

Definition f64 : Set := spec_float.
Definition f64_prec : Z := 53.
Definition f64_emax : Z := 1024.
Definition f64_nan : f64 := S754_nan.
Definition f64_zero : f64 := S754_zero false.
Definition f64_is_nan (x : f64) : bool := match x with S754_nan => true | _ => false end.
Definition f64_add : f64 → f64 → f64 := SFadd f64_prec f64_emax.
Definition f64_sub : f64 → f64 → f64 := SFsub f64_prec f64_emax.
Definition f64_mul : f64 → f64 → f64 := SFmul f64_prec f64_emax.
Definition f64_div : f64 → f64 → f64 := SFdiv f64_prec f64_emax.
Definition f64_lt : f64 → f64 → bool := SFltb.
Definition f64_le : f64 → f64 → bool := SFleb.

(** Every bit pattern of a binary64 number is a valid one. *)
Definition f64_valid (x : f64) : bool := valid_binary f64_prec f64_emax x.

Definition u64_bound : Z := 2 ^ 64.

(** [x as u64]: truncation, saturating at the ends, 0 for NaN. *)
Definition f64_as_u64 (x : f64) : Z :=
  match x with
  | S754_zero _ | S754_nan => 0
  | S754_infinity s => if s then 0 else u64_bound - 1
  | S754_finite true _ _ => 0
  | S754_finite false m e =>
      Z.min (u64_bound - 1) (if 0 <=? e then Z.pos m * 2 ^ e else Z.pos m / 2 ^ (- e))
  end.

(** [n as f64]: round to nearest, ties to even. *)
Definition f64_of_u64 (n : Z) : f64 := binary_normalize f64_prec f64_emax n 0 false.

(** ** Truncation is monotone *)
Lemma digits2_pos_bounds p :
  2 ^ (Z.pos (digits2_pos p) - 1) ≤ Z.pos p < 2 ^ Z.pos (digits2_pos p).
Proof.
  induction p as [p IH|p IH|]; simpl digits2_pos; [| |simpl; lia];
    rewrite Pos2Z.inj_succ; unfold Z.succ;
    replace (Z.pos (digits2_pos p) + 1 - 1) with (Z.pos (digits2_pos p)) by lia;
    rewrite Z.pow_add_r by lia;
    replace (Z.pos (digits2_pos p)) with (Z.pos (digits2_pos p) - 1 + 1) in IH at 2 by lia;
    replace (Z.pos (digits2_pos p)) with (Z.pos (digits2_pos p) - 1 + 1) at 1 by lia;
    rewrite Z.pow_add_r in * by lia;
    replace (Z.pos (digits2_pos p)) with (Z.pos (digits2_pos p) - 1 + 1) at 2 by lia;
    rewrite Z.pow_add_r by lia; lia.
Qed.

(** A finite number times [2 ^ 1074] is an integer; this is how values compare. *)
Definition scaled (m : positive) (e : Z) : Z := Z.pos m * 2 ^ (e + 1074).

Lemma bounded_exponent m e :
  bounded f64_prec f64_emax m e = true →
  -1074 ≤ e ∧ Z.pos (digits2_pos m) ≤ 53 ∧ (-1074 < e → Z.pos (digits2_pos m) = 53).
Proof.
  unfold bounded, canonical_mantissa, fexp, emin, f64_prec, f64_emax.
  rewrite andb_true_iff. intros [H%Z.eqb_eq _]. lia.
Qed.

Lemma bounded_lt m1 e1 m2 e2 :
  bounded f64_prec f64_emax m1 e1 = true → bounded f64_prec f64_emax m2 e2 = true →
  e1 < e2 → scaled m1 e1 < scaled m2 e2.
Proof.
  intros (H1 & D1 & _)%bounded_exponent (H2 & _ & D2)%bounded_exponent He.
  specialize (D2 ltac:(lia)). unfold scaled.
  pose proof (digits2_pos_bounds m1) as [_ B1]. pose proof (digits2_pos_bounds m2) as [B2 _].
  rewrite D2 in B2. assert (2 ^ Z.pos (digits2_pos m1) ≤ 2 ^ 53) by (apply Z.pow_le_mono_r; lia).
  assert (2 ^ (e1 + 1074 + 1) ≤ 2 ^ (e2 + 1074)) as Hp by (apply Z.pow_le_mono_r; lia).
  rewrite Z.pow_add_r in Hp by lia.
  assert (0 < 2 ^ (e1 + 1074)) by (apply Z.pow_pos_nonneg; lia).
  set (P := 2 ^ (e1 + 1074)) in *. set (Q := 2 ^ (e2 + 1074)) in *.
  apply (Z.lt_le_trans _ (2 ^ 53 * P)); [apply Z.mul_lt_mono_pos_r; lia|].
  apply (Z.le_trans _ (2 ^ 52 * Q)); [lia|apply Z.mul_le_mono_nonneg_r; lia].
Qed.

Lemma as_u64_scaled m e :
  -1074 ≤ e → f64_as_u64 (S754_finite false m e) = Z.min (u64_bound - 1) (scaled m e / 2 ^ 1074).
Proof.
  intros He. unfold f64_as_u64, scaled. f_equal. destruct (Z.leb_spec 0 e).
  - rewrite Z.pow_add_r, Z.mul_assoc, Z.div_mul by lia. done.
  - assert (2 ^ 1074 = 2 ^ (e + 1074) * 2 ^ (- e)) as -> by (rewrite <- Z.pow_add_r by lia; f_equal; lia).
    rewrite Z.mul_comm, Z.div_mul_cancel_l; [done|apply Z.pow_nonzero; lia|apply Z.pow_nonzero; lia].
Qed.

Lemma as_u64_range x : 0 ≤ f64_as_u64 x < u64_bound.
Proof.
  assert (0 < u64_bound) by (unfold u64_bound; lia).
  destruct x as [s|s| |[] m e]; simpl; try lia; [destruct s; lia|].
  destruct (Z.leb_spec 0 e).
  - assert (0 < 2 ^ e) by (apply Z.pow_pos_nonneg; lia). nia.
  - pose proof (Z.div_pos (Z.pos m) (2 ^ (- e)) ltac:(lia) ltac:(apply Z.pow_pos_nonneg; lia)). lia.
Qed.

(** A number that is not negative and greater than another truncates to no less. *)
Lemma as_u64_mono x y :
  f64_valid x = true → f64_valid y = true → f64_lt x y = true → f64_as_u64 x ≤ f64_as_u64 y.
Proof.
  intros V1 V2. pose proof (as_u64_range y) as Ry. unfold f64_lt, SFltb.
  destruct x as [s1|s1| |s1 m1 e1]; [simpl (f64_as_u64 (S754_zero _)); lia| |done|].
  { destruct s1; [simpl (f64_as_u64 (S754_infinity _)); lia|]. by destruct y as [|[]| |[]]. }
  destruct s1; [simpl (f64_as_u64 (S754_finite true _ _)); lia|].
  destruct y as [|[]| |[] m2 e2]; try done.
  { intros _. pose proof (as_u64_range (S754_finite false m1 e1)).
    change (f64_as_u64 (S754_infinity false)) with (u64_bound - 1). lia. }
  pose proof (bounded_exponent _ _ V1) as [B1 _]. pose proof (bounded_exponent _ _ V2) as [B2 _].
  cbn [SFcompare]. intros Hc.
  rewrite !as_u64_scaled by done. apply Z.min_le_compat_l, Z.div_le_mono; [lia|].
  destruct (Z.compare_spec e1 e2) as [->|He|He]; [|apply Z.lt_le_incl; by apply bounded_lt|done].
  unfold scaled. apply Z.mul_le_mono_nonneg_r; [apply Z.pow_nonneg; lia|].
  change (Pos.compare_cont Eq m1 m2) with (Pos.compare m1 m2) in Hc.
  destruct (Pos.compare_spec m1 m2); [lia|lia|done].
Qed.
