(* ===== verification/Rrd.v ===== *)
(** * Rrd: the round robin database of [proxmox-rrd/src/rrd.rs]

    A data source turns measurements into values; every archive keeps, in a ring
    of slots, one consolidated value per interval of its resolution. Unsigned
    arithmetic is written with its wrap-around at 64 bits; [None] stands for the
    panic of a division by zero. The file format (CBOR, version 1 files) and
    [load]/[save] are not modelled. *)
From Stdlib Require Import SpecFloat.
From S2P Require Import Prelude F64.

#[local] Open Scope Z_scope.

Inductive DataSourceType := Gauge | Derive | Counter.
Inductive AggregationFn := Average | Maximum | Minimum | Last.

#[export] Instance DataSourceType_eq_dec : EqDecision DataSourceType.
Proof. solve_decision. Defined.
#[export] Instance AggregationFn_eq_dec : EqDecision AggregationFn.
Proof. solve_decision. Defined.

Record DataSource := mkSource { dst : DataSourceType; last_update : f64; last_value : f64 }.

Record Entry := mkEntry { entry_start : Z; entry_resolution : Z; entry_data : list (option f64) }.

Record Archive := mkArchive {
  resolution : Z;
  cf : AggregationFn;
  last_count : Z;
  data : list f64;
}.

Record Database := mkDatabase { source : DataSource; rra_list : list Archive }.

Inductive RrdError :=
| NegativeTime | TimeInPast | NewValueNan | NegativeCounter | CounterReset
| WrongResolution | NoSuitableArchive.

(** [Entry::get] *)
Definition entry_get (e : Entry) (idx : nat) : option f64 :=
  match e.(entry_data) !! idx with
  | Some v => v
  | None => None
  end.

(** ** Unsigned arithmetic *)
Definition u64_mul (a b : Z) : Z := (a * b) mod u64_bound.
Definition u64_add (a b : Z) : Z := (a + b) mod u64_bound.
Definition u64_sub (a b : Z) : Z := (a - b) mod u64_bound.
Definition u64_saturating_sub (a b : Z) : Z := Z.max 0 (a - b).
Definition u64_saturating_add (a b : Z) : Z := Z.min (u64_bound - 1) (a + b).

(** ** Data source *)
Definition source_new (d : DataSourceType) : DataSource := mkSource d f64_zero f64_nan.

Definition with_value (s : DataSource) (v : f64) : DataSource :=
  mkSource s.(dst) s.(last_update) v.

(** [DataSource::compute_new_value]: the source is also updated on one of the
    error paths. *)
Definition source_compute_new_value (s : DataSource) (time value : f64)
    : DataSource * result f64 RrdError :=
  if f64_lt time f64_zero then (s, Err NegativeTime)
  else if f64_le time s.(last_update) then (s, Err TimeInPast)
  else if f64_is_nan value then (s, Err NewValueNan)
  else
    let is_counter := bool_decide (s.(dst) = Counter) in
    if is_counter || bool_decide (s.(dst) = Derive) then
      let time_diff := f64_sub time s.(last_update) in
      let finish diff := (with_value s value, Ok (f64_div diff time_diff)) in
      if f64_is_nan s.(last_value) then finish f64_zero
      else if is_counter && f64_lt value f64_zero then (s, Err NegativeCounter)
      else if is_counter && f64_lt value s.(last_value) then (with_value s value, Err CounterReset)
      else finish (f64_sub value s.(last_value))
    else (with_value s value, Ok value).

(** ** Archives *)
Definition archive_new (cf : AggregationFn) (resolution : Z) (points : nat) : Archive :=
  mkArchive resolution cf 0 (replicate points f64_nan).

Definition num_entries (a : Archive) : Z := Z.of_nat (length a.(data)).

(** [Archive::slot_end_time], [slot_start_time] and [slot]. *)
Definition slot_end_time (a : Archive) (time : Z) : option Z :=
  if a.(resolution) =? 0 then None
  else Some (u64_mul a.(resolution) (u64_add (time / a.(resolution)) 1)).

Definition slot_start_time (a : Archive) (time : Z) : option Z :=
  if a.(resolution) =? 0 then None
  else Some (u64_mul a.(resolution) (time / a.(resolution))).

Definition slot (a : Archive) (time : Z) : option nat :=
  if (a.(resolution) =? 0) || (num_entries a =? 0) then None
  else Some (Z.to_nat ((time / a.(resolution)) mod num_entries a)).

(** The index behind [index] in a ring of [len] slots. *)
Definition next_index (len index : nat) : nat :=
  if (len <=? S index)%nat then 0%nat else S index.

(** The loop of [Archive::insert_data]. *)
Fixpoint insert_loop (items : list (option f64)) (index : nat) (d : list f64) : list f64 :=
  match items with
  | [] => d
  | item :: items' =>
      let d' := match item with Some v => <[index := v]> d | None => d end in
      insert_loop items' (next_index (length d) index) d'
  end.

Definition with_data (a : Archive) (d : list f64) : Archive :=
  mkArchive a.(resolution) a.(cf) a.(last_count) d.
Definition with_count (a : Archive) (c : Z) : Archive :=
  mkArchive a.(resolution) a.(cf) c a.(data).

(** [Archive::insert_data] *)
Definition insert_data (a : Archive) (start res : Z) (items : list (option f64))
    : option (result Archive RrdError) :=
  if res =? a.(resolution) then
    match slot a start with
    | Some index => Some (Ok (with_data a (insert_loop items index a.(data))))
    | None => None
    end
  else Some (Err WrongResolution).

(** The loop of [Archive::delete_old_slots]. *)
Fixpoint delete_loop (n : nat) (reso min_time t : Z) (index : nat) (d : list f64) : list f64 :=
  match n with
  | O => d
  | S n' =>
      let t := u64_add t reso in
      let index := next_index (length d) index in
      if t <? min_time then delete_loop n' reso min_time t index (<[index := f64_nan]> d) else d
  end.

(** [Archive::delete_old_slots] *)
Definition delete_old_slots (a : Archive) (time last_update : f64) : option Archive :=
  let epoch := f64_as_u64 time in
  let last_update := f64_as_u64 last_update in
  let reso := a.(resolution) in
  let min_time := u64_saturating_sub epoch (u64_mul (num_entries a) reso) in
  match slot_end_time a min_time with
  | None => None
  | Some min_time =>
      let t := u64_saturating_sub last_update (u64_mul (num_entries a) reso) in
      match slot a t with
      | None => None
      | Some index =>
          Some (with_data a (delete_loop (length a.(data)) reso min_time t index a.(data)))
      end
  end.

(** How a consolidation function joins a value to the value of [count] others. *)
Definition consolidate (cf : AggregationFn) (last_value : f64) (count : Z) (value : f64) : f64 :=
  match cf with
  | Maximum => if f64_lt value last_value then last_value else value
  | Minimum => if f64_lt last_value value then last_value else value
  | Last => value
  | Average =>
      let new_count := u64_saturating_add count 1 in
      f64_add (f64_div (f64_mul last_value (f64_of_u64 count)) (f64_of_u64 new_count))
              (f64_div value (f64_of_u64 new_count))
  end.

(** [Archive::compute_new_value] *)
Definition archive_compute_new_value (a : Archive) (time last_update value : f64)
    : option Archive :=
  let epoch := f64_as_u64 time in
  let last_update := f64_as_u64 last_update in
  let reso := a.(resolution) in
  match slot a epoch, slot a last_update with
  | Some index, Some last_index =>
      let count := if (reso <? u64_sub epoch last_update) || negb (Nat.eqb index last_index)
                   then 0 else a.(last_count) in
      match a.(data) !! index with
      | None => None
      | Some last_value =>
          let count := if f64_is_nan last_value then 0 else count in
          let new_count := u64_saturating_add count 1 in
          if count =? 0
          then Some (with_count (with_data a (<[index := value]> a.(data))) 1)
          else Some (with_count (with_data a
                       (<[index := consolidate a.(cf) last_value count value]> a.(data))) new_count)
      end
  | _, _ => None
  end.

(** The loop of [Archive::extract_data]. *)
Fixpoint extract_data_loop (n : nat) (a : Archive) (rrd_start rrd_end stop t : Z) (index : nat)
    (l : list (option f64)) : list (option f64) :=
  match n with
  | O => l
  | S n' =>
      if stop <? t then l
      else
        let item :=
          if (t <? rrd_start) || (rrd_end <=? t) then None
          else match a.(data) !! index with
               | Some value => if f64_is_nan value then None else Some value
               | None => None
               end in
        extract_data_loop n' a rrd_start rrd_end stop (u64_add t a.(resolution))
          (next_index (length a.(data)) index) (l ++ [item])
  end.

(** [Archive::extract_data] *)
Definition archive_extract_data (a : Archive) (start stop : Z) (last_update : f64)
    : option Entry :=
  let last_update := f64_as_u64 last_update in
  let reso := a.(resolution) in
  match slot_end_time a last_update, slot a start with
  | Some rrd_end, Some index =>
      let rrd_start := u64_saturating_sub rrd_end (u64_mul reso (num_entries a)) in
      Some (mkEntry start reso
              (extract_data_loop (length a.(data)) a rrd_start rrd_end stop start index []))
  | _, _ => None
  end.

(** ** Database *)
Definition database_new (d : DataSourceType) (rras : list Archive) : Database :=
  mkDatabase (source_new d) rras.

(** The body of the loop over the archives in [Database::update]. *)
Definition archive_update (time last_update value : f64) (rra : Archive) : option Archive :=
  match delete_old_slots rra time last_update with
  | Some rra => archive_compute_new_value rra time last_update value
  | None => None
  end.

(** [Database::update] *)
Definition database_update (db : Database) (time value : f64) : option Database :=
  match source_compute_new_value db.(source) time value with
  | (s, Err _) => Some (mkDatabase s db.(rra_list))
  | (s, Ok value) =>
      let last_update := s.(last_update) in
      let s := mkSource s.(dst) time s.(last_value) in
      match mapM (archive_update time last_update value) db.(rra_list) with
      | Some rras => Some (mkDatabase s rras)
      | None => None
      end
  end.

(** The choice of an archive in [Database::extract_data]. *)
Fixpoint select_rra (c : AggregationFn) (res : Z) (items : list Archive) (rra : option Archive)
    : option Archive :=
  match items with
  | [] => rra
  | item :: items' =>
      if negb (bool_decide (item.(cf) = c)) then select_rra c res items' rra
      else if res <? item.(resolution) then select_rra c res items' rra
      else match rra with
           | Some current =>
               if current.(resolution) <? item.(resolution)
               then select_rra c res items' (Some item) else select_rra c res items' rra
           | None => select_rra c res items' (Some item)
           end
  end.

(** [Database::extract_data]; [now] is the current time. *)
Definition database_extract_data (db : Database) (now : Z) (c : AggregationFn) (res : Z)
    (start stop : option Z) : option (result Entry RrdError) :=
  match select_rra c res db.(rra_list) None with
  | Some rra =>
      let stop := default now stop in
      let start := default (u64_saturating_sub stop (u64_mul 10 rra.(resolution))) start in
      match archive_extract_data rra start stop db.(source).(last_update) with
      | Some e => Some (Ok e)
      | None => None
      end
  | None => Some (Err NoSuitableArchive)
  end.

(** Updates one after the other. *)
Fixpoint database_updates (db : Database) (l : list (f64 * f64)) : option Database :=
  match l with
  | [] => Some db
  | (time, value) :: l' =>
      match database_update db time value with
      | Some db => database_updates db l'
      | None => None
      end
  end.

(** ** Runs of the source's own tests *)
Definition f (n : Z) : f64 := f64_of_u64 n.
Definition f_half (n : Z) : f64 := f64_div (f n) (f 2).
Definition test_run (factor from to : Z) (db : Database) : option Database :=
  database_updates db (map (λ i, (f (i * 30), f (i * factor))) (seqZ from (to - from))).
Definition test_data (c : AggregationFn) (start stop : Z) (db : option Database)
    : option (list (option f64)) :=
  match db with
  | Some db => match database_extract_data db 0 c 60 (Some start) (Some stop) with
               | Some (Ok e) => Some e.(entry_data)
               | _ => None
               end
  | None => None
  end.

Example basic_rra_maximum_gauge_test :
  test_data Maximum 0 300
    (test_run 1 2 10 (database_new Gauge [archive_new Maximum 60 5])) =
  Some [None; Some (f 3); Some (f 5); Some (f 7); Some (f 9)].
Proof. vm_compute. reflexivity. Qed.

Example basic_rra_average_derive_test :
  test_data Average 60 300
    (test_run 60 2 10 (database_new Derive [archive_new Average 60 5])) =
  Some [Some (f 1); Some (f 2); Some (f 2); Some (f 2); None].
Proof. vm_compute. reflexivity. Qed.

Example basic_rra_average_gauge_test :
  test_data Average 180 480
    (test_run 1 2 14 (database_new Gauge [archive_new Average 60 5])) =
  Some [Some (f_half 13); Some (f_half 17); Some (f_half 21); Some (f_half 25); None].
Proof. vm_compute. reflexivity. Qed.
