(* ===== verification/RrdTheory.v ===== *)
(** * RrdTheory: an archive is the consolidated history of its data source

    The abstract state of an archive is the list of all measurements; a slot of
    the ring that is inside the window of the archive holds the consolidation of
    the measurements of its interval. *)
From Stdlib Require Import SpecFloat.
From S2P Require Import Prelude F64 Rrd.

#[local] Open Scope Z_scope.

(** ** Specification *)

(** The history of a source is a list of times in seconds with the value derived
    for them; [slot_values] selects those of an interval. *)
Definition slot_values (reso : Z) (h : list (Z * f64)) (s : Z) : list f64 :=
  (filter (λ tv, tv.1 / reso = s) h).*2.

(** Number and consolidation of the values of one interval; a NaN starts over. *)
Definition agg_step (c : AggregationFn) (st : Z * f64) (v : f64) : Z * f64 :=
  if f64_is_nan st.2 then (1, v) else (u64_saturating_add st.1 1, consolidate c st.2 st.1 v).
Definition agg (c : AggregationFn) (vals : list f64) : Z * f64 :=
  fold_left (agg_step c) vals (0, f64_nan).

(** What a reader sees of slot [s] when the last update was in slot [l]. *)
Definition spec_item (a : Archive) (l : Z) (h : list (Z * f64)) (s : Z) : option f64 :=
  if l - num_entries a <? s then
    let v := (agg a.(cf) (slot_values a.(resolution) h s)).2 in
    if f64_is_nan v then None else Some v
  else None.

(** The measurements a source accepts, with the values it derives from them. *)
Fixpoint accepted (s : DataSource) (l : list (f64 * f64)) : list (Z * f64) :=
  match l with
  | [] => []
  | (time, value) :: l' =>
      match source_compute_new_value s time value with
      | (s, Ok v) => (f64_as_u64 time, v) :: accepted (mkSource s.(dst) time s.(last_value)) l'
      | (s, Err _) => accepted s l'
      end
  end.

(** ** Well-formed archives *)
Definition wf_archive (a : Archive) : Prop :=
  0 < a.(resolution) ∧ 0 < num_entries a ∧ num_entries a * a.(resolution) < u64_bound.

Definition ring (a : Archive) (s : Z) : nat := Z.to_nat (s mod num_entries a).

Lemma div_next t r : 0 < r → (t + r) / r = t / r + 1.
Proof. intros H. rewrite <- (Z.mul_1_l r) at 1. rewrite Z.div_add; lia. Qed.

Lemma slot_ring a t : wf_archive a → slot a t = Some (ring a (t / a.(resolution))).
Proof.
  intros (Hr & Hn & _). unfold slot, ring.
  rewrite (proj2 (Z.eqb_neq _ _)), (proj2 (Z.eqb_neq (num_entries a) 0)) by lia. done.
Qed.

Lemma ring_lt a s : wf_archive a → (ring a s < length a.(data))%nat.
Proof.
  intros (_ & Hn & _). unfold ring. pose proof (Z.mod_pos_bound s (num_entries a) Hn).
  unfold num_entries in *. lia.
Qed.

Lemma ring_eq a s s' : wf_archive a → ring a s = ring a s' ↔ s mod num_entries a = s' mod num_entries a.
Proof.
  intros (_ & Hn & _). unfold ring. pose proof (Z.mod_pos_bound s (num_entries a) Hn).
  pose proof (Z.mod_pos_bound s' (num_entries a) Hn). lia.
Qed.

(** Two slots of one window share an index only if they are the same. *)
Lemma ring_inj a s s' :
  wf_archive a → - num_entries a < s - s' < num_entries a → ring a s = ring a s' → s = s'.
Proof.
  intros Hwf Hd H. apply (ring_eq a _ _ Hwf) in H. destruct Hwf as (_ & Hn & _).
  pose proof (Z.div_mod s (num_entries a)). pose proof (Z.div_mod s' (num_entries a)).
  assert (s / num_entries a = s' / num_entries a) by nia. nia.
Qed.

Lemma ring_shift a s : wf_archive a → ring a (s + num_entries a) = ring a s.
Proof.
  intros Hwf. apply ring_eq; [done|]. destruct Hwf as (_ & Hn & _).
  rewrite <- (Z.mul_1_l (num_entries a)) at 1. apply Z.mod_add. lia.
Qed.

Lemma next_index_ring a s :
  wf_archive a → next_index (length a.(data)) (ring a s) = ring a (s + 1).
Proof.
  intros (_ & Hn & _). unfold next_index, ring, num_entries in *.
  set (n := Z.of_nat (length (data a))) in *.
  pose proof (Z.mod_pos_bound s n Hn). pose proof (Z.div_mod s n ltac:(lia)) as E.
  destruct (Nat.leb_spec (length (data a)) (S (Z.to_nat (s mod n)))).
  - assert (s mod n = n - 1) by lia. replace (s + 1) with (0 + (s / n + 1) * n) by lia.
    rewrite Z.mod_add by lia. rewrite Z.mod_0_l; lia.
  - replace (s + 1) with (s mod n + 1 + s / n * n) by lia. rewrite Z.mod_add by lia.
    rewrite (Z.mod_small (_ + 1)) by lia. lia.
Qed.

(** ** Consolidation *)
Lemma slot_values_snoc reso h t v s :
  slot_values reso (h ++ [(t, v)]) s =
  slot_values reso h s ++ (if decide (t / reso = s) then [v] else []).
Proof.
  unfold slot_values. rewrite filter_app, fmap_app. f_equal.
  rewrite filter_cons, filter_nil. simpl. by destruct (decide _).
Qed.

Lemma slot_values_none reso h s :
  (∀ t v, (t, v) ∈ h → t / reso ≠ s) → slot_values reso h s = [].
Proof.
  intros H. unfold slot_values. induction h as [|[t v] h IH]; [done|].
  rewrite filter_cons, decide_False by (simpl; apply (H t v); left).
  apply IH. intros t' v' Hin. apply (H t' v'). by right.
Qed.

Lemma agg_snoc c vals v : agg c (vals ++ [v]) = agg_step c (agg c vals) v.
Proof. unfold agg. by rewrite fold_left_app. Qed.

Lemma agg_count c vals : f64_is_nan (agg c vals).2 = false → 1 ≤ (agg c vals).1 < u64_bound.
Proof.
  induction vals as [|v vals IH] using rev_ind; [done|]. rewrite agg_snoc.
  unfold agg_step, u64_saturating_add. destruct (f64_is_nan (agg c vals).2) eqn:E; simpl.
  - intros _. unfold u64_bound. lia.
  - specialize (IH eq_refl). lia.
Qed.

(** ** Deleting old slots *)
Section DeleteLoop.
Context (a : Archive) (Hwf : wf_archive a) (m : Z).

(** The loop at slot [j], whose start is [t], clears the slots up to [m]. *)
Lemma delete_loop_step k t j d :
  t / a.(resolution) = j → 0 ≤ t → t + Z.of_nat (S k) * a.(resolution) < u64_bound →
  length d = length a.(data) →
  delete_loop (S k) a.(resolution) (a.(resolution) * (m + 1)) t (ring a j) d =
  if j + 1 <=? m
  then delete_loop k a.(resolution) (a.(resolution) * (m + 1)) (t + a.(resolution)) (ring a (j + 1))
         (<[ring a (j + 1) := f64_nan]> d)
  else d.
Proof.
  intros Hj Ht Hb Hd. pose proof Hwf as (Hr & Hn & _). cbn [delete_loop].
  rewrite Hd, next_index_ring by done. unfold u64_add. rewrite Z.mod_small by nia.
  assert ((t + resolution a) / resolution a = j + 1) as Hj' by (rewrite div_next; lia).
  replace (t + resolution a <? resolution a * (m + 1)) with (j + 1 <=? m); [done|].
  apply eq_true_iff_eq. rewrite Z.leb_le, Z.ltb_lt.
  pose proof (Z.div_mod (t + resolution a) (resolution a) ltac:(lia)).
  pose proof (Z.mod_pos_bound (t + resolution a) (resolution a) Hr). nia.
Qed.

Lemma delete_loop_length k reso m' t i d : length (delete_loop k reso m' t i d) = length d.
Proof.
  revert t i d. induction k as [|k IH]; intros t i d; [done|]. cbn [delete_loop].
  destruct (_ <? _); [|done]. by rewrite IH, length_insert.
Qed.

(** Cleared slots stay cleared. *)
Lemma delete_loop_nan k reso m' t i d p :
  d !! p = Some f64_nan → delete_loop k reso m' t i d !! p = Some f64_nan.
Proof.
  revert t i d. induction k as [|k IH]; intros t i d Hp; [done|]. cbn [delete_loop].
  destruct (_ <? _); [|done]. apply IH. apply list_lookup_insert_Some.
  destruct (decide (next_index (length d) i = p)); [left|right]; auto.
  split_and!; [done|done|by eapply lookup_lt_Some, Hp].
Qed.

Lemma delete_loop_cleared k t j d i :
  t / a.(resolution) = j → 0 ≤ t → t + Z.of_nat k * a.(resolution) < u64_bound →
  length d = length a.(data) → 1 ≤ i ≤ Z.of_nat k → j + i ≤ m →
  delete_loop k a.(resolution) (a.(resolution) * (m + 1)) t (ring a j) d !! ring a (j + i)
    = Some f64_nan.
Proof.
  revert t j d i. induction k as [|k IH]; intros t j d i Hj Ht Hb Hd Hi Hm; [lia|].
  pose proof Hwf as (Hr & _). rewrite delete_loop_step by done.
  rewrite (proj2 (Z.leb_le _ _)) by lia. destruct (decide (i = 1)) as [->|].
  - apply delete_loop_nan, list_lookup_insert_eq. rewrite Hd. by apply ring_lt.
  - replace (j + i) with (j + 1 + (i - 1)) by lia.
    apply IH; rewrite ?length_insert; try lia.
    rewrite div_next; lia.
Qed.

Lemma delete_loop_kept k t j d p :
  t / a.(resolution) = j → 0 ≤ t → t + Z.of_nat k * a.(resolution) < u64_bound →
  length d = length a.(data) →
  (∀ i, 1 ≤ i ≤ Z.of_nat k → j + i ≤ m → ring a (j + i) ≠ p) →
  delete_loop k a.(resolution) (a.(resolution) * (m + 1)) t (ring a j) d !! p = d !! p.
Proof.
  revert t j d. induction k as [|k IH]; intros t j d Hj Ht Hb Hd Hp; [done|].
  pose proof Hwf as (Hr & _). rewrite delete_loop_step by done. destruct (Z.leb_spec (j + 1) m); [|done].
  rewrite IH; rewrite ?length_insert; try lia.
  - apply list_lookup_insert_ne, Hp; lia.
  - rewrite div_next; lia.
  - intros i Hi Hm. replace (j + 1 + i) with (j + (i + 1)) by lia. apply Hp; lia.
Qed.
End DeleteLoop.

(** ** The archive represents the history *)
Definition slot_value (a : Archive) (h : list (Z * f64)) (s : Z) : f64 :=
  (agg a.(cf) (slot_values a.(resolution) h s)).2.

(** [window a l h]: the slots of the window that ends in slot [l] are right. *)
Definition window (a : Archive) (l : Z) (h : list (Z * f64)) : Prop :=
  ∀ s, l - num_entries a < s ≤ l → a.(data) !! ring a s = Some (slot_value a h s).

Definition represents (a : Archive) (lu : Z) (h : list (Z * f64)) : Prop :=
  wf_archive a ∧ window a (lu / a.(resolution)) h ∧
  (f64_is_nan (slot_value a h (lu / a.(resolution))) = false →
   a.(last_count) = (agg a.(cf) (slot_values a.(resolution) h (lu / a.(resolution)))).1) ∧
  (∀ t v, (t, v) ∈ h → a.(resolution) ≤ t ≤ lu).

Lemma represents_new c reso points :
  0 < reso → (0 < points)%nat → Z.of_nat points * reso < u64_bound →
  represents (archive_new c reso points) 0 [].
Proof.
  intros Hr Hp Hb.
  assert (num_entries (archive_new c reso points) = Z.of_nat points) as Hn
    by (unfold num_entries; simpl; by rewrite length_replicate).
  assert (wf_archive (archive_new c reso points)) as Hwf
    by (split_and!; rewrite ?Hn; simpl; lia).
  split_and!; [done| |done|by intros ? ? ?%elem_of_nil].
  intros s _. unfold slot_value, slot_values. rewrite filter_nil. simpl.
  apply lookup_replicate_2. pose proof (ring_lt _ s Hwf) as H. simpl in H.
  by rewrite length_replicate in H.
Qed.

(** Intervals before the first and after the last measurement are empty. *)
Lemma slot_value_outside a lu h s :
  represents a lu h → s ≤ 0 ∨ lu / a.(resolution) < s → slot_value a h s = f64_nan.
Proof.
  intros ((Hr & _) & _ & _ & Hh) Hs. unfold slot_value. rewrite slot_values_none; [done|].
  intros t v Hin <-. apply Hh in Hin as [H1 H2].
  pose proof (Z.div_le_mono t lu (resolution a) Hr H2).
  pose proof (Z.div_le_lower_bound t (resolution a) 1 Hr). lia.
Qed.

Lemma div_saturating_sub t n reso :
  0 < reso → 0 ≤ t → Z.max 0 (t - n * reso) / reso = Z.max 0 (t / reso - n).
Proof.
  intros Hr Ht. destruct (Z.le_gt_cases (n * reso) t).
  - rewrite Z.max_r by lia. replace (t - n * reso) with (t + (- n) * reso) by lia.
    rewrite Z.div_add by lia. pose proof (Z.div_le_lower_bound t reso n Hr). lia.
  - rewrite Z.max_l, Z.div_0_l by lia.
    pose proof (Z.div_lt_upper_bound t reso n Hr). lia.
Qed.

Lemma with_data_num a d : length d = length a.(data) → num_entries (with_data a d) = num_entries a.
Proof. unfold num_entries. simpl. by intros ->. Qed.

Lemma with_data_ring a d s : length d = length a.(data) → ring (with_data a d) s = ring a s.
Proof. intros H. unfold ring. by rewrite with_data_num. Qed.

Lemma u64_mul_entries a :
  wf_archive a → u64_mul (num_entries a) a.(resolution) = num_entries a * a.(resolution).
Proof. intros (Hr & Hn & Hb). unfold u64_mul. rewrite Z.mod_small; nia. Qed.

(** A slot behind [j] is cleared within one round. *)
Lemma ring_round a j s :
  wf_archive a → j < s → ∃ i, 1 ≤ i ≤ num_entries a ∧ j + i ≤ s ∧ ring a (j + i) = ring a s.
Proof.
  intros Hwf Hs. pose proof Hwf as (_ & Hn & _). set (n := num_entries a) in *.
  pose proof (Z.div_mod (s - j - 1) n ltac:(lia)) as E.
  pose proof (Z.mod_pos_bound (s - j - 1) n Hn).
  assert (0 ≤ (s - j - 1) / n) by (apply Z.div_pos; lia).
  exists ((s - j - 1) mod n + 1). split_and!; [lia|lia|nia|].
  apply ring_eq; [done|]. fold n.
  replace s with (j + ((s - j - 1) mod n + 1) + (s - j - 1) / n * n) at 2 by lia.
  by rewrite Z.mod_add by lia.
Qed.

(** [delete_old_slots] moves the window to the slot of the new time. *)
Lemma delete_old_slots_window a h time last :
  let lu := f64_as_u64 last in
  let epoch := f64_as_u64 time in
  represents a lu h → lu ≤ epoch →
  ∃ d, delete_old_slots a time last = Some (with_data a d) ∧ length d = length a.(data) ∧
    window (with_data a d) (epoch / a.(resolution)) h.
Proof.
  intros lu epoch Hrep Hle. pose proof Hrep as (Hwf & Hwin & _). pose proof Hwf as (Hr & Hn & Hb).
  pose proof (as_u64_range time) as He. pose proof (as_u64_range last) as Hl.
  fold epoch in He. fold lu in Hl.
  unfold delete_old_slots. fold epoch lu. cbv zeta. rewrite u64_mul_entries by done.
  unfold u64_saturating_sub.
  unfold slot_end_time. rewrite (proj2 (Z.eqb_neq _ _)) by lia.
  rewrite slot_ring, !div_saturating_sub by (done || lia).
  set (E := epoch / resolution a) in *. set (L := lu / resolution a) in *.
  set (n := num_entries a) in *. set (m := Z.max 0 (E - n)).
  assert (L ≤ E) as HLE by (apply Z.div_le_mono; lia).
  assert (0 ≤ L) by (apply Z.div_pos; lia).
  assert (resolution a * (m + 1) < u64_bound) as Hm.
  { pose proof (Z.mul_div_le epoch _ Hr) as H0. fold E in H0. unfold m. nia. }
  unfold u64_mul, u64_add. rewrite (Z.mod_small (m + 1)), Z.mod_small by (unfold m in *; nia).
  assert (Z.max 0 (lu - n * resolution a) + Z.of_nat (length (data a)) * resolution a < u64_bound)
    as Hov by (change (Z.of_nat (length (data a))) with n; lia).
  assert (Z.max 0 (lu - n * resolution a) / resolution a = Z.max 0 (L - n)) as Hj
    by (apply div_saturating_sub; lia).
  eexists. split; [done|]. split; [apply delete_loop_length|]. intros s Hs.
  rewrite with_data_num in Hs by apply delete_loop_length. fold n in Hs.
  rewrite with_data_ring by apply delete_loop_length. simpl. change (slot_value (with_data a _)) with (slot_value a).
  destruct (Z.le_gt_cases s L) as [HsL|HsL].
  - rewrite <- (Hwin s ltac:(lia)). apply delete_loop_kept; try done; try lia.
    intros i Hi Him Heq. change (Z.of_nat (length (data a))) with n in Hi.
    apply (ring_inj a _ _ Hwf) in Heq; fold n; unfold m in *; lia.
  - rewrite (slot_value_outside a lu h s) by (done || (right; done)).
    destruct (Z.le_gt_cases (s - n) (Z.max 0 (L - n))) as [Hj0|Hj0].
    + apply delete_loop_nan. rewrite <- (slot_value_outside a lu h (s - n)) by (done || lia).
      rewrite <- Hwin by lia. f_equal. rewrite <- (ring_shift a (s - n) Hwf). fold n. f_equal. lia.
    + destruct (ring_round a (Z.max 0 (L - n)) (s - n) Hwf Hj0) as (i & Hi & His & Hri).
      replace (ring a s) with (ring a (Z.max 0 (L - n) + i))
        by (rewrite Hri, <- (ring_shift a (s - n) Hwf); fold n; f_equal; lia).
      apply delete_loop_cleared; try done; unfold m; lia.
Qed.

(** ** Updates *)

Definition record_value (a : Archive) (s : Z) (st : Z * f64) : Archive :=
  with_count (with_data a (<[ring a s := st.2]> a.(data))) st.1.

(** [compute_new_value] adds one value to the interval of the new time. *)
Lemma compute_new_value_agg a time last value old :
  let lu := f64_as_u64 last in
  let epoch := f64_as_u64 time in
  let e := epoch / a.(resolution) in
  wf_archive a → lu ≤ epoch → a.(data) !! ring a e = Some old.2 →
  (f64_is_nan old.2 = false → a.(last_count) = old.1 ∧ 1 ≤ old.1 ∧ e = lu / a.(resolution)) →
  archive_compute_new_value a time last value =
  Some (record_value a e (agg_step a.(cf) old value)).
Proof.
  intros lu epoch e Hwf Hle Hd Hold. unfold archive_compute_new_value. fold epoch lu.
  rewrite !slot_ring by done. fold e. rewrite Hd. unfold agg_step, record_value.
  destruct (f64_is_nan old.2) eqn:Hnan; [done|]. destruct Hold as (Hc & H1 & HE); [done|].
  rewrite <- HE, Nat.eqb_refl, orb_false_r. pose proof Hwf as (Hr & _).
  pose proof (as_u64_range time) as He. pose proof (as_u64_range last) as Hl.
  fold epoch in He. fold lu in Hl. unfold u64_sub. rewrite Z.mod_small by lia.
  pose proof (Z.mul_div_le lu _ Hr) as B1. pose proof (Z.mul_succ_div_gt epoch _ Hr) as B2.
  rewrite <- HE in B1. fold e in B2.
  rewrite (proj2 (Z.ltb_ge (resolution a) (epoch - lu))) by lia.
  rewrite Hc, (proj2 (Z.eqb_neq _ _)) by lia. done.
Qed.

Lemma record_value_represents a h epoch value :
  let e := epoch / a.(resolution) in
  wf_archive a → window a e h → a.(resolution) ≤ epoch →
  (∀ t v, (t, v) ∈ h → a.(resolution) ≤ t ≤ epoch) →
  represents (record_value a e (agg_step a.(cf) (agg a.(cf) (slot_values a.(resolution) h e)) value))
    epoch (h ++ [(epoch, value)]).
Proof.
  intros e Hwf Hwin Hre Hh. set (st := agg_step _ _ _).
  assert (agg (cf a) (slot_values (resolution a) (h ++ [(epoch, value)]) e) = st) as Hst.
  { unfold st. rewrite slot_values_snoc, decide_True by done. apply agg_snoc. }
  assert (num_entries (record_value a e st) = num_entries a) as Hn
    by (apply with_data_num, length_insert).
  assert (∀ s, ring (record_value a e st) s = ring a s) as Hring by (intros; unfold ring; by rewrite Hn).
  split_and!.
  - unfold wf_archive. by rewrite Hn.
  - intros s Hs. rewrite Hn in Hs. change (epoch / resolution (record_value a e st)) with e in Hs.
    rewrite Hring. cbn [record_value with_count with_data data].
    change (slot_value (record_value a e st)) with (slot_value a). destruct (decide (s = e)) as [->|Hne].
    + rewrite list_lookup_insert_eq by by apply ring_lt. unfold slot_value. by rewrite Hst.
    + rewrite list_lookup_insert_ne by (intros Heq%ring_inj; [lia|done|lia]).
      rewrite Hwin by lia. unfold slot_value. rewrite slot_values_snoc, decide_False by done.
      by rewrite app_nil_r.
  - intros _. change (st.1 = (agg (cf a) (slot_values (resolution a) (h ++ [(epoch, value)]) e)).1).
    by rewrite Hst.
  - intros t v [Hin|Hin%list_elem_of_singleton]%elem_of_app; [by eapply Hh|].
    injection Hin as -> ->. simpl. lia.
Qed.

(** [delete_old_slots] then [compute_new_value] append to the history. *)
Lemma archive_update_represents a h time last value :
  let lu := f64_as_u64 last in
  let epoch := f64_as_u64 time in
  represents a lu h → lu ≤ epoch → a.(resolution) ≤ epoch →
  ∃ a', archive_update time last value a = Some a' ∧ represents a' epoch (h ++ [(epoch, value)]) ∧
    a'.(resolution) = a.(resolution) ∧ a'.(cf) = a.(cf) ∧ num_entries a' = num_entries a.
Proof.
  intros lu epoch Hrep Hle Hre. pose proof Hrep as (Hwf & _ & Hcnt & Hh).
  destruct (delete_old_slots_window a h time last Hrep Hle) as (d & Hdel & Hd & Hwin).
  fold epoch in Hwin. unfold archive_update. rewrite Hdel.
  set (b := with_data a d) in *. set (e := epoch / resolution a) in *.
  assert (wf_archive b) as Hwb by (unfold wf_archive, b; by rewrite with_data_num).
  pose proof Hwb as (_ & Hn & _).
  rewrite (compute_new_value_agg b time last value (agg (cf a) (slot_values (resolution a) h e))).
  - eexists. split; [done|]. split_and!; [|done|done|].
    + apply (record_value_represents b h epoch value Hwb Hwin Hre).
      intros t v Hin. apply Hh in Hin. simpl. lia.
    + unfold record_value, num_entries. simpl. by rewrite length_insert, Hd.
  - done.
  - done.
  - apply (Hwin e). lia.
  - change (resolution b) with (resolution a). fold epoch lu e. intros Hnan.
    assert (e = lu / resolution a) as HE.
    { destruct (decide (lu / resolution a < e)) as [Hlt|Hge].
      - pose proof (slot_value_outside a lu h e Hrep ltac:(by right)) as H0.
        unfold slot_value in H0. by rewrite H0 in Hnan.
      - pose proof (Z.div_le_mono lu epoch (resolution a) ltac:(apply Hwf) Hle). fold e in H. lia. }
    split_and!; [|by apply agg_count|done]. rewrite HE. apply Hcnt. by rewrite <- HE.
Qed.

(** ** Sources *)
Lemma source_accepts s time value s' v :
  source_compute_new_value s time value = (s', Ok v) →
  f64_is_nan time = false → f64_is_nan s.(last_update) = false →
  s'.(dst) = s.(dst) ∧ s'.(last_update) = s.(last_update) ∧
  f64_lt s.(last_update) time = true.
Proof.
  unfold source_compute_new_value. intros H Ht Hl.
  assert (f64_le time (last_update s) = false → f64_lt (last_update s) time = true) as Hflip.
  { unfold f64_le, f64_lt, SFleb, SFltb.
    destruct time as [[]|[]| |[] m1 e1], (last_update s) as [[]|[]| |[] m2 e2]; simpl; try done;
      rewrite (Z.compare_antisym e1 e2); destruct (Z.compare e1 e2); simpl; try done;
      change (Pos.compare_cont Eq) with Pos.compare; rewrite (Pos.compare_antisym m1 m2);
      by destruct (Pos.compare m1 m2). }
  destruct (f64_lt time f64_zero); [done|]. destruct (f64_le time (last_update s)); [done|].
  destruct (f64_is_nan value); [done|]. specialize (Hflip eq_refl).
  repeat match type of H with context [if ?c then _ else _] => destruct c end;
    try discriminate H; injection H as <- _; done.
Qed.

Lemma source_rejects s time value s' er :
  source_compute_new_value s time value = (s', Err er) →
  s'.(dst) = s.(dst) ∧ s'.(last_update) = s.(last_update).
Proof.
  unfold source_compute_new_value. intros H.
  repeat match type of H with context [if ?c then _ else _] => destruct c end;
    try discriminate H; injection H as <- _; done.
Qed.

(** ** Reading *)
Lemma extract_data_loop_app k a rs re stop t i l :
  extract_data_loop k a rs re stop t i l = l ++ extract_data_loop k a rs re stop t i [].
Proof.
  revert t i l. induction k as [|k IH]; intros t i l; simpl; [by rewrite app_nil_r|].
  destruct (_ <? _); [by rewrite app_nil_r|]. rewrite IH, (IH _ _ [_]). by rewrite <- app_assoc.
Qed.

(** The item of the slot of [t], for a ring that represents a history. *)
Lemma extract_item a lu h t :
  let l := lu / a.(resolution) in
  represents a lu h → 0 ≤ lu → 0 ≤ t →
  (if (t <? Z.max 0 (a.(resolution) * (l + 1) - a.(resolution) * num_entries a)) ||
      (a.(resolution) * (l + 1) <=? t) then None
   else match a.(data) !! ring a (t / a.(resolution)) with
        | Some value => if f64_is_nan value then None else Some value
        | None => None
        end) = spec_item a l h (t / a.(resolution)).
Proof.
  intros l Hrep Hlu Ht. pose proof Hrep as ((Hr & Hn & _) & Hwin & _). unfold spec_item.
  set (s := t / resolution a). pose proof (Z.mul_div_le t _ Hr) as B1.
  pose proof (Z.mul_succ_div_gt t _ Hr) as B2. fold s in B1, B2.
  destruct (Z.ltb_spec t (Z.max 0 (resolution a * (l + 1) - resolution a * num_entries a))); simpl.
  { rewrite (proj2 (Z.ltb_ge _ _)) by nia. done. }
  assert (0 ≤ s) by (apply Z.div_pos; lia).
  destruct (Z.leb_spec (resolution a * (l + 1)) t).
  - destruct (_ <? s); [|done]. change (agg _ _).2 with (slot_value a h s).
    rewrite (slot_value_outside a lu h s Hrep ltac:(right; fold l; nia)). done.
  - rewrite (proj2 (Z.ltb_lt _ _)) by nia. rewrite Hwin by (fold l; nia). done.
Qed.

Lemma extract_data_loop_lookup a lu h k stop t i :
  let l := lu / a.(resolution) in
  represents a lu h → 0 ≤ lu → 0 ≤ t → t + Z.of_nat k * a.(resolution) < u64_bound →
  extract_data_loop k a (Z.max 0 (a.(resolution) * (l + 1) - a.(resolution) * num_entries a))
    (a.(resolution) * (l + 1)) stop t (ring a (t / a.(resolution))) [] !! i =
  if (i <? k)%nat && (t + Z.of_nat i * a.(resolution) <=? stop)
  then Some (spec_item a l h ((t + Z.of_nat i * a.(resolution)) / a.(resolution))) else None.
Proof.
  intros l Hrep Hlu. pose proof Hrep as (Hwf & _). pose proof Hwf as (Hr & _).
  revert t i. induction k as [|k IH]; intros t i Ht Hb; [done|]. cbn [extract_data_loop].
  destruct (Z.ltb_spec stop t) as [Hs|Hs].
  { rewrite (proj2 (Z.leb_gt _ _)) by nia. by rewrite andb_false_r. }
  pose proof (extract_item a lu h t Hrep Hlu Ht) as Hi. cbv zeta in Hi. fold l in Hi.
  cbv zeta. rewrite Hi, extract_data_loop_app, next_index_ring by done.
  unfold u64_add. rewrite Z.mod_small by nia.
  assert (t / resolution a + 1 = (t + resolution a) / resolution a) as Hnext.
  { by rewrite div_next. }
  destruct i as [|i].
  - simpl. rewrite Z.add_0_r, (proj2 (Z.leb_le _ _)) by lia. done.
  - rewrite Hnext. change (([] ++ [?x]) ++ ?y) with (x :: y). simpl (_ !! S i).
    rewrite IH by nia. replace (t + Z.of_nat (S i) * resolution a)
      with (t + resolution a + Z.of_nat i * resolution a) by lia. done.
Qed.

(** [extract_data] of a ring that represents a history reads the history. *)
Lemma archive_extract_data_spec a last h start stop :
  let lu := f64_as_u64 last in
  represents a lu h → lu + a.(resolution) < u64_bound →
  0 ≤ start → start + num_entries a * a.(resolution) < u64_bound →
  ∃ e, archive_extract_data a start stop last = Some e ∧
    e.(entry_start) = start ∧ e.(entry_resolution) = a.(resolution) ∧
    ∀ i : nat, e.(entry_data) !! i =
      let t := start + Z.of_nat i * a.(resolution) in
      if (i <? length a.(data))%nat && (t <=? stop)
      then Some (spec_item a (lu / a.(resolution)) h (t / a.(resolution))) else None.
Proof.
  intros lu Hrep Hb Hs Hsb. pose proof Hrep as (Hwf & _). pose proof Hwf as (Hr & Hn & Hnb).
  pose proof (as_u64_range last) as Hl. fold lu in Hl.
  unfold archive_extract_data. fold lu. rewrite slot_ring by done. unfold slot_end_time.
  rewrite (proj2 (Z.eqb_neq _ _)) by lia. unfold u64_saturating_sub, u64_mul, u64_add.
  pose proof (Z.mul_div_le lu _ Hr). assert (0 ≤ lu / resolution a) by (apply Z.div_pos; lia).
  rewrite (Z.mod_small (lu / _ + 1)), (Z.mod_small (_ * (_ + 1))), (Z.mod_small (_ * num_entries a)) by nia.
  eexists. split; [done|]. split; [done|]. split; [done|]. intros i. cbn [entry_data].
  apply extract_data_loop_lookup; try done; lia.
Qed.

(** ** Databases *)
Definition same_shape (a0 a : Archive) : Prop :=
  a.(resolution) = a0.(resolution) ∧ a.(cf) = a0.(cf) ∧ num_entries a = num_entries a0.

(** Every archive represents the same history, up to the last update. *)
Definition db_represents (archives : list Archive) (db : Database) (h : list (Z * f64)) : Prop :=
  f64_valid db.(source).(last_update) = true ∧ f64_is_nan db.(source).(last_update) = false ∧
  Forall2 (λ a0 a, same_shape a0 a ∧ represents a (f64_as_u64 db.(source).(last_update)) h)
    archives db.(rra_list).

(** A time that is usable for the archives. *)
Definition good_time (archives : list Archive) (time : f64) : Prop :=
  f64_valid time = true ∧ f64_is_nan time = false ∧
  Forall (λ a, a.(resolution) ≤ f64_as_u64 time) archives.

Lemma archives_update archives l h time last value :
  let lu := f64_as_u64 last in
  Forall2 (λ a0 a, same_shape a0 a ∧ represents a lu h) archives l →
  lu ≤ f64_as_u64 time → Forall (λ a, a.(resolution) ≤ f64_as_u64 time) archives →
  ∃ l', mapM (archive_update time last value) l = Some l' ∧
    Forall2 (λ a0 a, same_shape a0 a ∧ represents a (f64_as_u64 time) (h ++ [(f64_as_u64 time, value)]))
      archives l'.
Proof.
  intros lu H Hle. induction H as [|a0 a archives l [Hsh Hrep] _ IH]; intros Hall.
  { exists []. by split; [|constructor]. }
  apply Forall_cons in Hall as [Hre Hall]. destruct (IH Hall) as (l' & Hl & HF). clear IH.
  destruct Hsh as (Hr & Hc & Hn).
  destruct (archive_update_represents a h time last value Hrep Hle ltac:(lia))
    as (a' & Ha & Hrep' & Hr' & Hc' & Hn').
  exists (a' :: l'). split; [simpl; rewrite Ha; simpl; by rewrite Hl|].
  constructor; [|done]. split; [|done]. unfold same_shape. by rewrite Hr', Hc', Hn'.
Qed.

Lemma database_update_represents archives db h time value :
  db_represents archives db h → good_time archives time →
  ∃ db', database_update db time value = Some db' ∧
    db_represents archives db' (h ++ match source_compute_new_value db.(source) time value with
                                     | (_, Ok v) => [(f64_as_u64 time, v)]
                                     | (_, Err _) => []
                                     end) ∧
    db'.(source) = match source_compute_new_value db.(source) time value with
                   | (s, Ok _) => mkSource s.(dst) time s.(last_value)
                   | (s, Err _) => s
                   end.
Proof.
  intros (Hv & Hnan & HF) (Htv & Htn & Hall). unfold database_update.
  destruct (source_compute_new_value (source db) time value) as [s [v|er]] eqn:Hs.
  - apply source_accepts in Hs as (_ & Hlu & Hlt); [|done|done]. rewrite Hlu.
    destruct (archives_update archives (rra_list db) h time (last_update (source db)) v HF)
      as (l' & -> & HF'); [by apply as_u64_mono|done|].
    eexists. split; [done|]. by split; [|done].
  - apply source_rejects in Hs as [_ Hlu]. eexists. split; [done|]. split; [|done].
    rewrite app_nil_r. split; simpl; rewrite Hlu; done.
Qed.

Lemma database_updates_represents archives ups db h :
  db_represents archives db h → Forall (λ tv, good_time archives tv.1) ups →
  ∃ db', database_updates db ups = Some db' ∧
    db_represents archives db' (h ++ accepted db.(source) ups).
Proof.
  revert db h. induction ups as [|[time value] ups IH]; intros db h Hdb Hups.
  { exists db. simpl. by rewrite app_nil_r. }
  apply Forall_cons in Hups as [Ht Hups].
  destruct (database_update_represents archives db h time value Hdb Ht) as (db1 & H1 & Hdb1 & Hsrc).
  destruct (IH db1 _ Hdb1 Hups) as (db' & H' & Hdb'). exists db'. simpl. rewrite H1.
  split; [done|]. rewrite <- app_assoc, Hsrc in Hdb'.
  by destruct (source_compute_new_value (source db) time value) as [s [v|er]].
Qed.

(** The archives a database is created with. *)
Definition fresh_archive (a : Archive) : Prop :=
  ∃ c reso points, a = archive_new c reso points ∧
    0 < reso ∧ (0 < points)%nat ∧ Z.of_nat points * reso < u64_bound.

Lemma database_new_represents d archives :
  Forall fresh_archive archives → db_represents archives (database_new d archives) [].
Proof.
  intros H. split; [done|]. split; [done|]. simpl. change (f64_as_u64 f64_zero) with 0.
  induction H as [|a l (c & reso & n & -> & Hr & Hn & Hb) _ IH]; constructor; [|done].
  split; [done|by apply represents_new].
Qed.

(** [C12] A database that was created empty, with archives of a positive resolution and
    number of points whose product is below 2^64, and updated any number of times, in
    any order of times and with any gaps, at times that are numbers and not smaller than
    the resolution of any archive: no update fails, and each archive shows exactly the
    accepted measurements. The entry for a time inside the window of the archive is the
    consolidation (average, maximum, minimum or last) of the values measured in the
    interval of that time, in their order; it is missing if there was none or the
    interval is older than the window. The last update and the end of the query are
    below 2^64. *)
Theorem extract_data_is_consolidated_history d archives ups :
  Forall fresh_archive archives → Forall (λ tv, good_time archives tv.1) ups →
  ∃ db, database_updates (database_new d archives) ups = Some db ∧
    let h := accepted (source_new d) ups in
    let lu := f64_as_u64 db.(source).(last_update) in
    Forall2 (λ a0 a, ∀ start stop,
      lu + a0.(resolution) < u64_bound → 0 ≤ start →
      start + num_entries a0 * a0.(resolution) < u64_bound →
      ∃ e, archive_extract_data a start stop db.(source).(last_update) = Some e ∧
        e.(entry_start) = start ∧ e.(entry_resolution) = a0.(resolution) ∧
        ∀ i : nat, e.(entry_data) !! i =
          let t := start + Z.of_nat i * a0.(resolution) in
          if (Z.of_nat i <? num_entries a0) && (t <=? stop)
          then Some (spec_item a0 (lu / a0.(resolution)) h (t / a0.(resolution))) else None)
      archives db.(rra_list).
Proof.
  intros Hf Ht.
  destruct (database_updates_represents archives ups _ [] (database_new_represents d archives Hf) Ht)
    as (db & Hdb & Hv & Hnan & HF).
  exists db. split; [done|]. intros h lu. eapply Forall2_impl; [exact HF|].
  intros a0 a [(Hr & Hc & Hn) Hrep] start stop Hlu Hs Hb. rewrite <- Hr, <- Hn in *.
  destruct (archive_extract_data_spec a _ _ start stop Hrep Hlu Hs Hb) as (e & He & H1 & H2 & H3).
  exists e. split_and!; [done|done|done|]. intros i. rewrite H3. cbv zeta.
  replace (i <? length (data a))%nat with (Z.of_nat i <? num_entries a) by (unfold num_entries; lia).
  unfold spec_item. by rewrite Hr, Hc, Hn.
Qed.

(** Values in the interval that starts at the epoch outlive their window: here the
    value of second 30 is read back as that of second 300. *)
Lemma rrd_slot_zero_stale :
  test_data Last 300 300
    (database_updates (database_new Gauge [archive_new Last 60 5]) [(f 30, f 7); (f 360, f 8)]) =
  Some [Some (f 7)].
Proof. vm_compute. reflexivity. Qed.

Lemma extract_data_is_consolidated_history_witness :
  ∃ db, database_updates (database_new Gauge [archive_new Average 60 5])
          [(f 60, f 2); (f 90, f 3); (f 600, f 9)] = Some db.
Proof.
  destruct (extract_data_is_consolidated_history Gauge [archive_new Average 60 5]
              [(f 60, f 2); (f 90, f 3); (f 600, f 9)]) as (db & H & _).
  - repeat constructor. exists Average, 60, 5%nat. repeat split; lia.
  - repeat constructor; vm_compute; congruence.
  - exists db. exact H.
Defined.

(** ** The choice of an archive *)
Definition suitable (c : AggregationFn) (res : Z) (a : Archive) : Prop :=
  a.(cf) = c ∧ a.(resolution) ≤ res.

Lemma select_rra_spec c res items rra :
  (∀ r, rra = Some r → suitable c res r) →
  match select_rra c res items rra with
  | Some r => (r ∈ items ∨ rra = Some r) ∧ suitable c res r ∧
              ∀ x, x ∈ items ∨ rra = Some x → suitable c res x → x.(resolution) ≤ r.(resolution)
  | None => rra = None ∧ ∀ x, x ∈ items → ¬ suitable c res x
  end.
Proof.
  revert rra. induction items as [|item items IH]; intros rra Hrra; simpl.
  { destruct rra as [r|]; [|split; [done|by intros ? ?%elem_of_nil]].
    split_and!; [by right|by apply Hrra|]. by intros x [?%elem_of_nil|[= ->]] _. }
  assert (¬ suitable c res item → match select_rra c res items rra with
    | Some r => (r ∈ item :: items ∨ rra = Some r) ∧ suitable c res r ∧
        ∀ x, x ∈ item :: items ∨ rra = Some x → suitable c res x → x.(resolution) ≤ r.(resolution)
    | None => rra = None ∧ ∀ x, x ∈ item :: items → ¬ suitable c res x
    end) as Hskip.
  { intros Hn. specialize (IH rra Hrra). destruct (select_rra c res items rra) as [r|].
    - destruct IH as (Hin & Hsu & Hmax). split_and!; [set_solver|done|].
      intros x [[->|Hx]%elem_of_cons|Hx] Hs; [done|apply Hmax; auto..].
    - destruct IH as [-> Hno]. split; [done|]. by intros x [->|Hx]%elem_of_cons; [|apply Hno]. }
  destruct (bool_decide_reflect (cf item = c)) as [Hc|Hc]; simpl; [|apply Hskip; by intros []].
  destruct (Z.ltb_spec res (resolution item)); [apply Hskip; intros []; lia|].
  assert (suitable c res item) as Hsu by by split.
  destruct rra as [cur|].
  - destruct (Z.ltb_spec (resolution cur) (resolution item)).
    + specialize (IH (Some item) ltac:(by intros ? [= <-])).
      destruct (select_rra c res items (Some item)) as [r|]; [|by destruct IH].
      destruct IH as (Hin & Hs & Hmax). pose proof (Hmax item (or_intror eq_refl) Hsu).
      split_and!; [left; destruct Hin as [?|[= ->]]; [by right|by left]|done|].
      intros x [[->|Hx]%elem_of_cons|[= <-]] Hx'; [lia|apply Hmax; auto|lia].
    + specialize (IH (Some cur) Hrra).
      destruct (select_rra c res items (Some cur)) as [r|]; [|by destruct IH].
      destruct IH as (Hin & Hs & Hmax). pose proof (Hmax cur (or_intror eq_refl) (Hrra _ eq_refl)).
      split_and!; [set_solver|done|].
      intros x [[->|Hx]%elem_of_cons|[= <-]] Hx'; [lia|apply Hmax; auto|lia].
  - specialize (IH (Some item) ltac:(by intros ? [= <-])).
    destruct (select_rra c res items (Some item)) as [r|]; [|by destruct IH].
    destruct IH as (Hin & Hs & Hmax). pose proof (Hmax item (or_intror eq_refl) Hsu).
    split_and!; [left; destruct Hin as [?|[= ->]]; [by right|by left]|done|].
    intros x [[->|Hx]%elem_of_cons|[=]] Hx'; [lia|apply Hmax; auto].
Qed.

(** A query reads the coarsest archive with the requested consolidation
    function whose resolution does not exceed the requested one, over the
    requested or the default interval, and is an error exactly if there is no
    such archive. *)
Theorem database_extract_data_selects db now c res start stop :
  let stop' := default now stop in
  (∃ r, r ∈ db.(rra_list) ∧ suitable c res r ∧
     (∀ x, x ∈ db.(rra_list) → suitable c res x → x.(resolution) ≤ r.(resolution)) ∧
     database_extract_data db now c res start stop =
     Ok <$> archive_extract_data r
              (default (u64_saturating_sub stop' (u64_mul 10 r.(resolution))) start) stop'
              db.(source).(last_update)) ∨
  ((∀ x, x ∈ db.(rra_list) → ¬ suitable c res x) ∧
   database_extract_data db now c res start stop = Some (Err NoSuitableArchive)).
Proof.
  intros stop'. unfold database_extract_data.
  pose proof (select_rra_spec c res (rra_list db) None ltac:(done)) as H.
  destruct (select_rra c res (rra_list db) None) as [r|].
  - destruct H as ([Hin|[=]] & Hs & Hmax). left. exists r. split_and!; [done|done|auto|].
    by destruct (archive_extract_data _ _ _ _).
  - right. by destruct H.
Qed.
