(* ===== verification/ByteBuffer.v ===== *)
(** * ByteBuffer: the byte queue of [proxmox-io/src/byte_buffer.rs]

    A fixed block of memory whose first [data_size] bytes are the contents. The
    operations are those of the source on the block; [buf_contents] is the abstract
    queue, and each operation is shown to be the queue operation it stands for. *)
From S2P Require Import Prelude.

(** Bytes are [u8] values. *)
Definition byte : Set := Z.

Record ByteBuffer := mkBuffer {
  buf : list byte;
  data_size : nat;
  capacity : nat;
}.

(** [with_capacity]; the fresh memory is undefined, so its content [junk] is a
    parameter. *)
Definition with_capacity (junk : nat → byte) (capacity : nat) : ByteBuffer :=
  mkBuffer (junk <$> seq 0 capacity) 0 capacity.

Definition free_size (b : ByteBuffer) : nat := b.(capacity) - b.(data_size).
Definition is_full (b : ByteBuffer) : bool := b.(capacity) <=? b.(data_size).
Definition clear (b : ByteBuffer) : ByteBuffer := mkBuffer b.(buf) 0 b.(capacity).

(** [add_size]: [None] is the panic. *)
Definition add_size (b : ByteBuffer) (size : nat) : option ByteBuffer :=
  if b.(capacity) <? b.(data_size) + size then None
  else Some (mkBuffer b.(buf) (b.(data_size) + size) b.(capacity)).

(** [buf.copy_within(size..capacity, 0)]: the tail of the block keeps its bytes. *)
Definition copy_within_front (l : list byte) (size cap : nat) : list byte :=
  drop size (take cap l) ++ drop (cap - size) l.

(** [remove_data] *)
Definition remove_data (b : ByteBuffer) (max_amount : nat) : list byte * ByteBuffer :=
  let size := max_amount `min` b.(data_size) in
  let tmp := take size b.(buf) in
  (tmp, mkBuffer (copy_within_front b.(buf) size b.(capacity)) (b.(data_size) - size) b.(capacity)).

(** [consume] *)
Definition consume (b : ByteBuffer) (max_amount : nat) : nat * ByteBuffer :=
  let size := max_amount `min` b.(data_size) in
  if size <? max_amount then (size, clear b)
  else (size, mkBuffer (copy_within_front b.(buf) size b.(capacity)) (b.(data_size) - size)
                b.(capacity)).

(** [read_from] and [read_from_async], given the bytes the reader stores at the
    front of the free slice. *)
Definition read_from (b : ByteBuffer) (input : list byte) : option (nat * ByteBuffer) :=
  let filled := mkBuffer (take b.(data_size) b.(buf) ++ input ++
                          drop (b.(data_size) + length input) b.(buf))
                  b.(data_size) b.(capacity) in
  match add_size filled (length input) with
  | Some b' => Some (length input, b')
  | None => None
  end.

(** [Deref]: the contents. *)
Definition buf_contents (b : ByteBuffer) : list byte := take b.(data_size) b.(buf).
Definition is_empty (b : ByteBuffer) : bool := length (buf_contents b) =? 0.

(** ** The queue it implements *)
Definition wf_buffer (b : ByteBuffer) : Prop :=
  length b.(buf) = b.(capacity) ∧ b.(data_size) ≤ b.(capacity).

Lemma length_contents b : wf_buffer b → length (buf_contents b) = b.(data_size).
Proof. intros [H1 H2]. unfold buf_contents. rewrite length_take. lia. Qed.

Lemma with_capacity_ok junk cap :
  wf_buffer (with_capacity junk cap) ∧ buf_contents (with_capacity junk cap) = [].
Proof.
  split; [split; simpl; [by rewrite length_fmap, length_seq|lia]|done].
Qed.

Lemma copy_within_length l size cap :
  length l = cap → size ≤ cap → length (copy_within_front l size cap) = cap.
Proof. intros H1 H2. unfold copy_within_front. rewrite length_app, !length_drop, length_take. lia. Qed.

Lemma copy_within_take l size cap n :
  length l = cap → size + n ≤ cap → take n (copy_within_front l size cap) = drop size (take (size + n) l).
Proof.
  intros H1 H2. unfold copy_within_front. rewrite take_app_le.
  - rewrite take_drop_commute, take_take. f_equal. f_equal. lia.
  - rewrite length_drop, length_take. lia.
Qed.

(** Moving [size] bytes out of the front drops them from the queue. *)
Lemma shift_contents b size :
  wf_buffer b → size ≤ b.(data_size) →
  let b' := mkBuffer (copy_within_front b.(buf) size b.(capacity)) (b.(data_size) - size) b.(capacity) in
  wf_buffer b' ∧ buf_contents b' = drop size (buf_contents b).
Proof.
  intros [H1 H2] Hs. split.
  - split; simpl; [by apply copy_within_length; lia|lia].
  - unfold buf_contents. simpl. rewrite copy_within_take by lia. do 2 f_equal. lia.
Qed.

Lemma remove_data_ok b n :
  wf_buffer b →
  (remove_data b n).1 = take n (buf_contents b) ∧ wf_buffer (remove_data b n).2 ∧
  buf_contents (remove_data b n).2 = drop n (buf_contents b) ∧
  (remove_data b n).2.(capacity) = b.(capacity).
Proof.
  intros Hwf. pose proof (length_contents b Hwf) as Hlen. unfold remove_data. simpl.
  destruct (shift_contents b (n `min` data_size b) Hwf ltac:(lia)) as [Hwf' Hc].
  split_and!; [|done| |done].
  - unfold buf_contents. by rewrite take_take.
  - rewrite Hc. destruct (Nat.le_gt_cases n (data_size b)).
    + by rewrite Nat.min_l by lia.
    + rewrite Nat.min_r by lia. rewrite !drop_ge by lia. done.
Qed.

Lemma consume_ok b n :
  wf_buffer b →
  (consume b n).1 = n `min` length (buf_contents b) ∧ wf_buffer (consume b n).2 ∧
  buf_contents (consume b n).2 = drop n (buf_contents b) ∧
  (consume b n).2.(capacity) = b.(capacity).
Proof.
  intros Hwf. pose proof (length_contents b Hwf) as Hlen. unfold consume. rewrite Hlen.
  destruct (Nat.ltb_spec (n `min` data_size b) n); simpl.
  - split_and!; [done|destruct Hwf; split; simpl; lia| |done].
    unfold buf_contents at 1. simpl. rewrite take_0, drop_ge by lia. done.
  - destruct (shift_contents b (n `min` data_size b) Hwf ltac:(lia)) as [Hwf' Hc].
    split_and!; [done|done| |done]. rewrite Hc. by rewrite Nat.min_l by lia.
Qed.

(** Reading never panics for a reader that stays inside the slice it was given. *)
Lemma read_from_ok b input :
  wf_buffer b → length input ≤ free_size b →
  ∃ b', read_from b input = Some (length input, b') ∧ wf_buffer b' ∧
    buf_contents b' = buf_contents b ++ input ∧ b'.(capacity) = b.(capacity).
Proof.
  intros [H1 H2] Hf. unfold free_size in Hf. unfold read_from, add_size. simpl.
  destruct (Nat.ltb_spec (capacity b) (data_size b + length input)); [lia|].
  eexists. split; [done|]. split_and!; [split; simpl|unfold buf_contents; simpl|done].
  - rewrite !length_app, length_take, length_drop. lia.
  - lia.
  - rewrite app_assoc, take_app_le by (rewrite length_app, length_take; lia).
    apply take_ge. rewrite length_app, length_take. lia.
Qed.

(** The buffer is the queue of its contents: removing and consuming take
    bytes from the front, also when more bytes are asked for than there are, a
    read appends bytes at the back, and none of them fails or leaves the block. *)
Theorem byte_buffer_refines_queue b n input :
  wf_buffer b → length input ≤ free_size b →
  (remove_data b n).1 = take n (buf_contents b) ∧
  buf_contents (remove_data b n).2 = drop n (buf_contents b) ∧
  (consume b n).1 = n `min` length (buf_contents b) ∧
  buf_contents (consume b n).2 = drop n (buf_contents b) ∧
  (∃ b', read_from b input = Some (length input, b') ∧ wf_buffer b' ∧
         buf_contents b' = buf_contents b ++ input) ∧
  wf_buffer (remove_data b n).2 ∧ wf_buffer (consume b n).2.
Proof.
  intros Hwf Hf. destruct (remove_data_ok b n Hwf) as (? & ? & ? & _).
  destruct (consume_ok b n Hwf) as (? & ? & ? & _).
  destruct (read_from_ok b input Hwf Hf) as (b' & ? & ? & ? & _). split_and!; eauto.
Qed.

Lemma byte_buffer_refines_queue_witness :
  buf_contents (remove_data (mkBuffer [1; 2; 3; 4]%Z 3 4) 2).2 = [3]%Z.
Proof.
  exact (proj1 (proj2 (byte_buffer_refines_queue (mkBuffer [1; 2; 3; 4]%Z 3 4) 2 [9]%Z
                         ltac:(split; simpl; lia) ltac:(unfold free_size; simpl; lia)))).
Defined.
