(* ===== verification/WebSocket.v ===== *)
(** * WebSocket: frames and the frame reader of [proxmox-http/src/websocket/mod.rs]

    Frames are lists of bytes. The asynchronous reader is a state machine: one
    [poll_iter] per iteration of its loop, [poll_read] the loop itself. The
    stream behind it is a list of bytes that arrives in the pieces a plan says,
    with pending polls and errors in between. The TLS/HTTP upgrade, the writer's
    [poll_write] and the copy loops are not modelled. *)
From S2P Require Import Prelude ByteBuffer.

#[local] Open Scope Z_scope.

Inductive WebSocketErrorKind := Normal | ProtocolError | InvalidData | Other | Unexpected.

Definition kind_code (k : WebSocketErrorKind) : Z :=
  match k with
  | Normal => 1000 | ProtocolError => 1002 | InvalidData => 1003 | Other => 1008 | Unexpected => 1011
  end.

(** Big-endian bytes of an integer of [k] bytes, and back. *)
Fixpoint to_be_bytes (k : nat) (n : Z) : list byte :=
  match k with
  | O => []
  | S k' => (n / 256 ^ Z.of_nat k') mod 256 :: to_be_bytes k' n
  end.
Definition from_be_bytes (l : list byte) : Z := fold_left (λ acc b, acc * 256 + b) l 0.

(** [WebSocketErrorKind::to_be_bytes] *)
Definition kind_to_be_bytes (k : WebSocketErrorKind) : list byte := to_be_bytes 2 (kind_code k).

(** The message is the UTF-8 text of the string. *)
Record WebSocketError := mkWsError { kind : WebSocketErrorKind; message : list byte }.
Definition ascii_bytes (s : string) : list byte := Z.of_N <$> lit s.

(** [WebSocketError::generate_frame_payload] *)
Definition generate_frame_payload (e : WebSocketError) : list byte :=
  let msglen := Nat.min (length e.(message)) 125 in
  kind_to_be_bytes e.(kind) ++ take msglen e.(message).

Inductive OpCode := Continuation | Text | Binary | Close | Ping | Pong.

#[export] Instance OpCode_eq_dec : EqDecision OpCode.
Proof. solve_decision. Defined.

Definition opcode_u8 (o : OpCode) : Z :=
  match o with
  | Continuation => 0 | Text => 1 | Binary => 2 | Close => 8 | Ping => 9 | Pong => 10
  end.

(** [OpCode::is_control] *)
Definition is_control (o : OpCode) : bool := 0 <? Z.land (opcode_u8 o) 8.

(** ** Masks *)
Definition Mask : Set := byte * byte * byte * byte.

Definition mask_bytes_of (m : Mask) : list byte := let '(a, b, c, d) := m in [a; b; c; d].
Definition mask_nth (m : Mask) (i : nat) : byte := nth i (mask_bytes_of m) 0.
Definition mask_is_zero (m : Mask) : bool :=
  let '(a, b, c, d) := m in (a =? 0) && (b =? 0) && (c =? 0) && (d =? 0).

(** [u32::from_le_bytes], [u32::rotate_right(8)] and the bytes of a word in
    memory order. *)
Definition u32_from_le_bytes (m : Mask) : Z :=
  let '(a, b, c, d) := m in a + 256 * (b + 256 * (c + 256 * d)).
Definition rotate_right_8 (x : Z) : Z :=
  Z.lor (Z.shiftr x 8) (Z.shiftl (Z.land x 255) 24).
Definition u32_to_le_bytes (x : Z) : list byte :=
  [x mod 256; x / 256 mod 256; x / 65536 mod 256; x / 16777216 mod 256].

(** The loops over the unaligned prefix and suffix, and over the words. *)
Fixpoint xor_bytes (l : list byte) (newmask : Z) : list byte * Z :=
  match l with
  | [] => ([], newmask)
  | p :: l' =>
      let p' := Z.lxor p (newmask mod 256) in
      let '(r, newmask') := xor_bytes l' (rotate_right_8 newmask) in
      (p' :: r, newmask')
  end.
Fixpoint xor_words (l : list byte) (newmask : Z) : list byte :=
  match l with
  | a :: b :: c :: d :: l' =>
      u32_to_le_bytes (Z.lxor (u32_from_le_bytes (a, b, c, d)) newmask) ++ xor_words l' newmask
  | _ => []
  end.

(** [mask_bytes]; [split] is what [align_to_mut] answers for the data: the bytes
    before the aligned words and the number of words. *)
Definition mask_bytes (mask : option Mask) (split : nat * nat) (data : list byte) : list byte :=
  match mask with
  | None => data
  | Some mask =>
      if mask_is_zero mask then data
      else if (length data <? 32)%nat
      then imap (λ i b, Z.lxor b (mask_nth mask (Nat.land i 3))) data
      else
        let newmask := u32_from_le_bytes mask in
        let '(pre, words) := split in
        let '(prefix, newmask) := xor_bytes (take pre data) newmask in
        let middle := xor_words (take (4 * words) (drop pre data)) newmask in
        let '(suffix, _) := xor_bytes (drop (pre + 4 * words) data) newmask in
        prefix ++ middle ++ suffix
  end.

(** ** Frames *)

(** [create_frame] *)
Definition create_frame (mask : option Mask) (split : nat * nat) (data : list byte)
    (frametype : OpCode) : result (list byte) WebSocketError :=
  let first_byte := Z.lor 128 (opcode_u8 frametype) in
  let len := Z.of_nat (length data) in
  if (0 <? Z.land (opcode_u8 frametype) 8) && (125 <? len) then
    Err (mkWsError Unexpected (ascii_bytes "Control frames cannot have data longer than 125 bytes"))
  else
    let mask_bit := match mask with Some _ => 128 | None => 0 end in
    let len_bytes :=
      if len <? 126 then [Z.lor mask_bit len]
      else if len <? 65535 then Z.lor mask_bit 126 :: to_be_bytes 2 len
      else Z.lor mask_bit 127 :: to_be_bytes 8 len in
    let mask_part := match mask with Some m => mask_bytes_of m | None => [] end in
    Ok (first_byte :: len_bytes ++ mask_part ++ mask_bytes mask split data).

Record FrameHeader := mkHeader {
  fin : bool;
  mask : option Mask;
  frametype : OpCode;
  header_len : nat;
  payload_len : Z;
}.

Definition is_control_frame (h : FrameHeader) : bool := is_control h.(frametype).

Definition opcode_of (n : Z) : option OpCode :=
  match n with
  | 0 => Some Continuation | 1 => Some Text | 2 => Some Binary
  | 8 => Some Close | 9 => Some Ping | 10 => Some Pong
  | _ => None
  end.

(** [FrameHeader::try_from_bytes]: [Ok None] asks for more bytes. *)
Definition try_from_bytes (data : list byte) : result (option FrameHeader) WebSocketError :=
  match data with
  | b0 :: b1 :: rest =>
      if 0 <? Z.land b0 112 then Err (mkWsError ProtocolError (ascii_bytes "Extensions not supported"))
      else
        let fin := negb (Z.land b0 128 =? 0) in
        match opcode_of (Z.land b0 15) with
        | None => Err (mkWsError ProtocolError
                         (ascii_bytes "Unknown OpCode " ++ (Z.of_N <$> dec (Z.to_N (Z.land b0 15)))))
        | Some frametype =>
            if negb fin && is_control frametype then
              Err (mkWsError ProtocolError (ascii_bytes "Control frames cannot be fragmented"))
            else
              let mask_bit := negb (Z.land b1 128 =? 0) in
              let payload_len := Z.land b1 127 in
              (* length of the length field *)
              let ext := if payload_len =? 126 then 2%nat
                         else if payload_len =? 127 then 8%nat else 0%nat in
              if (length rest <? ext)%nat then Ok None
              else
                let payload_len := if (ext =? 0)%nat then payload_len
                                   else from_be_bytes (take ext rest) in
                if (125 <? payload_len) && is_control frametype then
                  Err (mkWsError ProtocolError
                         (ascii_bytes "Control frames cannot carry more than 125 bytes of data"))
                else if mask_bit then
                  match drop ext rest with
                  | a :: b :: c :: d :: _ =>
                      Ok (Some (mkHeader fin (Some (a, b, c, d)) frametype (2 + 4 + ext) payload_len))
                  | _ => Ok None
                  end
                else Ok (Some (mkHeader fin None frametype (2 + ext) payload_len))
        end
  | _ => Ok None
  end.

(** ** The reader *)
Inductive ReaderState :=
| NoData
| Receiving (b : ByteBuffer)
| ReceivingFailed
| HaveData.

Definition Message : Type := result (OpCode * list byte) WebSocketError.

(** [WebSocketReader]; [sent] is what went into the channel, whose other end may
    be closed. *)
Record WebSocketReader := mkReader {
  sender_open : bool;
  sent : list Message;
  read_buffer : option ByteBuffer;
  header : option FrameHeader;
  state : ReaderState;
}.

Definition reader_new (junk : nat → byte) (capacity : nat) : WebSocketReader :=
  mkReader true [] (Some (with_capacity junk capacity)) None NoData.

(** The stream: the bytes still to come and how the next reads behave. *)
Inductive ReadEvent := EvPending | EvError | EvBytes (n : nat).
Record Stream := mkStream { rest : list byte; plan : list ReadEvent }.

Inductive ReadAnswer := APending | AError | ABytes (l : list byte).

(** [AsyncRead::poll_read] of the stream into a slice of [free] bytes: at least one
    byte unless the stream or the slice is at its end. *)
Definition stream_read (free : nat) (s : Stream) : ReadAnswer * Stream :=
  match s.(plan) with
  | EvPending :: p => (APending, mkStream s.(rest) p)
  | EvError :: p => (AError, mkStream s.(rest) p)
  | EvBytes n :: p =>
      let k := Nat.min free (Nat.max 1 n) in
      (ABytes (take k s.(rest)), mkStream (drop k s.(rest)) p)
  | [] => (ABytes (take free s.(rest)), mkStream (drop free s.(rest)) [])
  end.

Inductive Poll := Pending | ReadyOk | ReadyErr | Panicked.

Definition set_sent (w : WebSocketReader) (m : Message) : WebSocketReader :=
  if w.(sender_open)
  then mkReader true (w.(sent) ++ [m]) w.(read_buffer) w.(header) w.(state) else w.
Definition set_state (w : WebSocketReader) (b : option ByteBuffer) (h : option FrameHeader)
    (s : ReaderState) : WebSocketReader :=
  mkReader w.(sender_open) w.(sent) b h s.

Section Reader.
Context (align : list byte → nat * nat).

(** The state after a frame or a piece of it was taken from the buffer. *)
Definition state_after (b : ByteBuffer) : ReaderState := if is_empty b then NoData else HaveData.

(** The [HaveData] arm once there is a header. *)
Definition have_header (remaining : nat) (w : WebSocketReader) (b : ByteBuffer) (h : FrameHeader)
    : WebSocketReader * option (Poll * list byte) :=
  if is_control_frame h then
    if h.(payload_len) <=? Z.of_nat (length (buf_contents b)) then
      let '(data, b) := remove_data b (Z.to_nat h.(payload_len)) in
      let data := mask_bytes h.(mask) (align data) data in
      let w := set_sent w (Ok (h.(frametype), data)) in
      (set_state w (Some b) None (state_after b), None)
    else (set_state w (Some b) (Some h) NoData, None)
  else
    let len := Z.to_nat (Z.min (Z.of_nat remaining)
                           (Z.min h.(payload_len) (Z.of_nat (length (buf_contents b))))) in
    let '(data, b) := remove_data b len in
    let data := mask_bytes h.(mask) (align data) data in
    let left := h.(payload_len) - Z.of_nat len in
    let h' := mkHeader h.(fin) h.(mask) h.(frametype) h.(header_len) left in
    let w := set_state w (Some b) (if 0 <? left then Some h' else None) (state_after b) in
    (w, if (0 <? len)%nat then Some (ReadyOk, data) else None).

(** One iteration of the loop of [poll_read]: [None] continues, otherwise the
    result with the bytes put into the caller's buffer. *)
Definition poll_iter (remaining : nat) (s : Stream) (w : WebSocketReader)
    : Stream * WebSocketReader * option (Poll * list byte) :=
  match w.(state) with
  | NoData =>
      match w.(read_buffer) with
      | None => (s, w, Some (ReadyErr, []))
      | Some buffer => (s, set_state w None w.(header) (Receiving buffer), None)
      end
  | Receiving buffer =>
      match stream_read (free_size buffer) s with
      | (APending, s) => (s, w, Some (Pending, []))
      | (AError, s) => (s, set_state w None w.(header) ReceivingFailed, Some (ReadyErr, []))
      | (ABytes l, s) =>
          match read_from buffer l with
          | None => (s, w, Some (Panicked, []))
          | Some (len, buffer) =>
              (s, set_state w (Some buffer) w.(header) HaveData,
               if (len =? 0)%nat then Some (ReadyOk, []) else None)
          end
      end
  | ReceivingFailed => (s, w, Some (Panicked, []))
  | HaveData =>
      match w.(read_buffer) with
      | None => (s, w, Some (ReadyErr, []))
      | Some b =>
          match w.(header) with
          | Some h => (s, (have_header remaining (set_state w None None HaveData) b h).1,
                       (have_header remaining (set_state w None None HaveData) b h).2)
          | None =>
              match try_from_bytes (buf_contents b) with
              | Ok (Some h) =>
                  let b := (consume b h.(header_len)).2 in
                  let r := have_header remaining (set_state w None None HaveData) b h in
                  (s, r.1, r.2)
              | Ok None => (s, set_state w (Some b) None NoData, None)
              | Err err =>
                  (s, set_sent (set_state w None None HaveData) (Err err), Some (ReadyErr, []))
              end
          end
      end
  end.

(** [AsyncRead::poll_read]; [None] if the loop did not end within the fuel. *)
Fixpoint poll_read (fuel : nat) (remaining : nat) (s : Stream) (w : WebSocketReader)
    : option (Stream * WebSocketReader * Poll * list byte) :=
  match fuel with
  | O => None
  | S fuel' =>
      match poll_iter remaining s w with
      | (s, w, Some (p, out)) => Some (s, w, p, out)
      | (s, w, None) => poll_read fuel' remaining s w
      end
  end.
End Reader.

(** ** The examples of the documentation *)
Example create_frame_masked :
  create_frame (Some (0, 1, 2, 3)) (0%nat, 0%nat) [0; 1; 2; 3; 4] Text =
  Ok [129; 133; 0; 1; 2; 3; 0; 0; 0; 0; 4].
Proof. reflexivity. Qed.

Example try_from_bytes_ping :
  try_from_bytes [137] = Ok None ∧
  try_from_bytes [137; 4] = Ok (Some (mkHeader true None Ping 2 4)).
Proof. split; reflexivity. Qed.
