(* ===== verification/WebSocketFrames.v ===== *)
(** * WebSocketFrames: masking and the frame format

    The word-wise masking routine is the byte-wise one of the RFC, and the header
    parser inverts the frame writer. *)
From S2P Require Import Prelude ByteBuffer WebSocket.

#[local] Open Scope Z_scope.

Definition is_byte (b : byte) : Prop := 0 ≤ b < 256.
Definition byte_mask (m : Mask) : Prop := Forall is_byte (mask_bytes_of m).

(** The mask, one position further. *)
Definition rot (m : Mask) : Mask := let '(a, b, c, d) := m in (b, c, d, a).

(** Masking, byte by byte. *)
Fixpoint mask_ref (m : Mask) (l : list byte) : list byte :=
  match l with
  | [] => []
  | b :: l' => Z.lxor b (mask_nth m 0) :: mask_ref (rot m) l'
  end.

Lemma rot_byte_mask m : byte_mask m → byte_mask (rot m).
Proof.
  destruct m as [[[a b] c] d]. unfold byte_mask. simpl. rewrite !Forall_cons. naive_solver.
Qed.

Lemma mask_nth_rot m i : mask_nth (rot m) (i mod 4) = mask_nth m (S i mod 4).
Proof.
  assert (S i mod 4 = if (i mod 4 =? 3)%nat then 0 else S (i mod 4))%nat as ->.
  { pose proof (Nat.div_mod i 4 ltac:(lia)). pose proof (Nat.mod_upper_bound i 4 ltac:(lia)).
    destruct (Nat.eqb_spec (i mod 4) 3).
    - replace (S i) with (0 + (i / 4 + 1) * 4)%nat by lia. rewrite Nat.Div0.mod_add. done.
    - replace (S i) with (S (i mod 4) + (i / 4) * 4)%nat at 1 by lia.
      rewrite Nat.Div0.mod_add, Nat.mod_small; lia. }
  pose proof (Nat.mod_upper_bound i 4 ltac:(lia)).
  destruct m as [[[a b] c] d]. destruct (i mod 4)%nat as [|[|[|[|k]]]]; [done..|lia].
Qed.

Lemma mask_ref_lookup m l i :
  mask_ref m l !! i = (λ b, Z.lxor b (mask_nth m (i mod 4))) <$> l !! i.
Proof.
  revert m i. induction l as [|b l IH]; intros m [|i]; [done..|].
  simpl. rewrite IH. by rewrite mask_nth_rot.
Qed.

Lemma mask_ref_length m l : length (mask_ref m l) = length l.
Proof. revert m. induction l as [|b l IH]; intros m; simpl; [done|by rewrite IH]. Qed.

Lemma mask_ref_app m l1 l2 :
  mask_ref m (l1 ++ l2) = mask_ref m l1 ++ mask_ref (Nat.iter (length l1) rot m) l2.
Proof.
  revert m. induction l1 as [|b l1 IH]; intros m; [done|]. simpl. rewrite IH. do 3 f_equal.
  by rewrite <- Nat.iter_succ_r.
Qed.

(** Masking twice gives the data back. *)
Lemma mask_ref_invol m l : mask_ref m (mask_ref m l) = l.
Proof.
  revert m. induction l as [|b l IH]; intros m; [done|]. simpl. rewrite IH.
  by rewrite Z.lxor_assoc, Z.lxor_nilpotent, Z.lxor_0_r.
Qed.

(** ** Words *)

Lemma testbit_small k x n : 0 ≤ x < 2 ^ k → 0 ≤ k ≤ n → Z.testbit x n = false.
Proof.
  intros Hx Hk. apply Z.testbit_false; [lia|]. rewrite Z.div_small; [done|].
  assert (2 ^ k ≤ 2 ^ n) by (apply Z.pow_le_mono_r; lia). lia.
Qed.

(** The lowest byte of a xor is the xor of the lowest bytes, and so are the rest. *)
Lemma lxor_byte_split x y x' y' :
  is_byte x → is_byte x' →
  Z.lxor (x + 256 * y) (x' + 256 * y') = Z.lxor x x' + 256 * Z.lxor y y' ∧ is_byte (Z.lxor x x').
Proof.
  intros Hx Hx'. change 256 with (2 ^ 8) in *.
  assert (is_byte (Z.lxor x x')) as Hb.
  { unfold is_byte in *. split; [apply Z.lxor_nonneg; lia|].
    destruct (Z.eq_dec (Z.lxor x x') 0) as [->|Hne]; [lia|].
    assert (0 ≤ Z.lxor x x') by (apply Z.lxor_nonneg; lia).
    apply (Z.log2_lt_pow2 _ 8); [lia|].
    pose proof (Z.log2_lxor x x' ltac:(lia) ltac:(lia)).
    assert (∀ z, 0 ≤ z < 256 → Z.log2 z < 8) as Hlog.
    { intros z Hz. destruct (Z.eq_dec z 0) as [->|]; [simpl; lia|].
      apply Z.log2_lt_pow2; lia. }
    pose proof (Hlog x Hx). pose proof (Hlog x' Hx'). lia. }
  split; [|done]. unfold is_byte in *.
  rewrite (Z.div_mod (Z.lxor (x + 2 ^ 8 * y) (x' + 2 ^ 8 * y')) (2 ^ 8)) by lia.
  rewrite Z.add_comm. f_equal.
  - apply Z.bits_inj'. intros n Hn.
    destruct (Z.lt_ge_cases n 8).
    + rewrite Z.mod_pow2_bits_low, !Z.lxor_spec by lia.
      rewrite <- !(Z.mod_pow2_bits_low (_ + _) 8 n) by lia.
      rewrite !(Z.mul_comm (2 ^ 8)), !Z.mod_add, !Z.mod_small by lia. done.
    + rewrite Z.mod_pow2_bits_high by lia.
      by rewrite (testbit_small 8) by lia.
  - f_equal. rewrite <- !Z.shiftr_div_pow2, Z.shiftr_lxor, !Z.shiftr_div_pow2 by lia.
    rewrite !(Z.mul_comm (2 ^ 8)), !Z.div_add, !Z.div_small by lia. done.
Qed.

Lemma mod_div_byte x y : is_byte x → (x + 256 * y) mod 256 = x ∧ (x + 256 * y) / 256 = y.
Proof.
  intros Hx. unfold is_byte in Hx. rewrite Z.mul_comm. split.
  - rewrite Z.mod_add, Z.mod_small; lia.
  - rewrite Z.div_add, Z.div_small; lia.
Qed.

Lemma u32_low m : byte_mask m → u32_from_le_bytes m mod 256 = mask_nth m 0.
Proof.
  destruct m as [[[a b] c] d]. unfold byte_mask. simpl. intros [Ha _]%Forall_cons.
  by apply mod_div_byte.
Qed.

Lemma rotate_right_8_rot m :
  byte_mask m → rotate_right_8 (u32_from_le_bytes m) = u32_from_le_bytes (rot m).
Proof.
  destruct m as [[[a b] c] d]. unfold byte_mask. simpl.
  rewrite !Forall_cons. intros (Ha & Hb & Hc & Hd & _).
  unfold rotate_right_8. rewrite Z.shiftr_div_pow2, Z.shiftl_mul_pow2 by lia.
  change 255 with (Z.ones 8). rewrite Z.land_ones by lia. change (2 ^ 8) with 256.
  destruct (mod_div_byte a (b + 256 * (c + 256 * d)) Ha) as [-> ->]. unfold is_byte in *.
  set (x := b + 256 * (c + 256 * d)).
  assert (Z.land x (a * 2 ^ 24) = 0) as Hdisj.
  { apply Z.bits_inj'. intros n Hn. rewrite Z.land_spec, Z.bits_0.
    destruct (Z.lt_ge_cases n 24).
    - rewrite Z.mul_pow2_bits_low by lia. apply andb_false_r.
    - by rewrite (testbit_small 24 x) by lia. }
  pose proof (Z.add_lor_land x (a * 2 ^ 24)) as E. rewrite Hdisj in E. unfold x in *. lia.
Qed.

Lemma xor_bytes_ref l m :
  byte_mask m →
  xor_bytes l (u32_from_le_bytes m) =
  (mask_ref m l, u32_from_le_bytes (Nat.iter (length l) rot m)).
Proof.
  revert m. induction l as [|p l IH]; intros m Hm; [done|]. cbn [xor_bytes].
  rewrite rotate_right_8_rot, IH, u32_low by eauto using rot_byte_mask. simpl.
  by rewrite <- Nat.iter_succ_r.
Qed.

Lemma iter_rot_byte_mask n m : byte_mask m → byte_mask (Nat.iter n rot m).
Proof. intros H. induction n; simpl; auto using rot_byte_mask. Qed.

Lemma iter_rot_4 n m : Nat.iter (4 * n) rot m = m.
Proof.
  induction n as [|n IH]; [done|]. replace (4 * S n)%nat with (4 + 4 * n)%nat by lia.
  rewrite Nat.iter_add, IH. by destruct m as [[[a b] c] d].
Qed.

Lemma xor_words_ref n l m :
  byte_mask m → Forall is_byte l → length l = (4 * n)%nat →
  xor_words l (u32_from_le_bytes m) = mask_ref m l.
Proof.
  intros Hm. revert l. induction n as [|n IH]; intros l Hl Hlen; [by destruct l|].
  destruct l as [|a [|b [|c [|d l]]]]; simpl in Hlen; try lia.
  rewrite !Forall_cons in Hl. destruct Hl as (Ha & Hb & Hc & Hd & Hl). cbn [xor_words].
  rewrite IH by (done || lia).
  destruct m as [[[m1 m2] m3] m4] eqn:Em. unfold byte_mask in Hm. simpl in Hm.
  rewrite !Forall_cons in Hm. destruct Hm as (H1 & H2 & H3 & H4 & _).
  unfold u32_from_le_bytes.
  destruct (lxor_byte_split a (b + 256 * (c + 256 * d)) m1 (m2 + 256 * (m3 + 256 * m4)) Ha H1) as [-> B1].
  destruct (lxor_byte_split b (c + 256 * d) m2 (m3 + 256 * m4) Hb H2) as [-> B2].
  destruct (lxor_byte_split c d m3 m4 Hc H3) as [-> B3].
  destruct (lxor_byte_split d 0 m4 0 Hd H4) as [_ B4].
  unfold u32_to_le_bytes. change 65536 with (256 * 256). change 16777216 with (256 * 256 * 256).
  rewrite <- !Z.div_div by lia.
  rewrite !(proj2 (mod_div_byte _ _ B1)), (proj1 (mod_div_byte _ _ B1)).
  rewrite !(proj2 (mod_div_byte _ _ B2)), (proj1 (mod_div_byte _ _ B2)).
  rewrite !(proj2 (mod_div_byte _ _ B3)), (proj1 (mod_div_byte _ _ B3)).
  unfold is_byte in B4. rewrite (Z.mod_small (Z.lxor d m4)) by lia. done.
Qed.

(** ** The routine *)
Definition unmask (m : option Mask) (l : list byte) : list byte :=
  match m with Some m => mask_ref m l | None => l end.

Definition split_ok (split : nat * nat) (l : list byte) : Prop :=
  (split.1 + 4 * split.2 ≤ length l)%nat.

Lemma mask_ref_zero m l : mask_is_zero m = true → mask_ref m l = l.
Proof.
  intros Hz. assert (m = (0, 0, 0, 0)) as ->.
  { destruct m as [[[a b] c] d]. simpl in Hz. rewrite !andb_true_iff, !Z.eqb_eq in Hz.
    by destruct Hz as [[[-> ->] ->] ->]. }
  induction l as [|b l IH]; [done|]. cbn [mask_ref].
  change (rot (0, 0, 0, 0)) with ((0, 0, 0, 0) : Mask). rewrite IH. f_equal. apply Z.lxor_0_r.
Qed.

Lemma mask_bytes_unmask m split l :
  (∀ m', m = Some m' → byte_mask m') → Forall is_byte l → split_ok split l →
  mask_bytes m split l = unmask m l.
Proof.
  intros Hm Hl Hs. unfold mask_bytes, unmask. destruct m as [m|]; [|done].
  specialize (Hm m eq_refl). destruct (mask_is_zero m) eqn:Hz; [by rewrite mask_ref_zero|].
  destruct (length l <? 32)%nat.
  - apply list_eq. intros i. rewrite mask_ref_lookup, list_lookup_imap.
    change 3%nat with (Nat.ones 2). by rewrite Nat.land_ones.
  - destruct split as [pre words]. unfold split_ok in Hs. simpl in Hs.
    rewrite xor_bytes_ref by done. rewrite length_take, Nat.min_l by lia.
    rewrite (xor_words_ref words).
    2: by apply iter_rot_byte_mask. 2: by apply Forall_take, Forall_drop.
    2: { rewrite length_take, length_drop. lia. }
    rewrite xor_bytes_ref by by apply iter_rot_byte_mask.
    rewrite <- (take_drop pre l) at 4. rewrite mask_ref_app, length_take, Nat.min_l by lia.
    f_equal. rewrite <- (take_drop (4 * words) (drop pre l)) at 2.
    rewrite mask_ref_app, length_take, length_drop, Nat.min_l by lia.
    rewrite iter_rot_4, drop_drop. done.
Qed.

Lemma unmask_bytes m l :
  (∀ m', m = Some m' → byte_mask m') → Forall is_byte l → Forall is_byte (unmask m l).
Proof.
  intros Hm Hl. destruct m as [m|]; [|done]. specialize (Hm m eq_refl). simpl.
  revert m Hm. induction Hl as [|b l Hb Hl IH]; intros m Hm; simpl; constructor.
  - assert (is_byte (mask_nth m 0)) as Hn.
    { destruct m as [[[a b'] c] d]. by apply Forall_cons in Hm as [? _]. }
    by destruct (lxor_byte_split b 0 _ 0 Hb Hn).
  - by apply IH, rot_byte_mask.
Qed.

(** The masking routine gives byte [i] of the data xor byte [i mod 4] of the
    mask, wherever the data is split into single bytes and aligned words, and
    applying it twice, with any two splits, restores the data. *)
Theorem mask_bytes_correct m split split' l :
  byte_mask m → Forall is_byte l → split_ok split l → split_ok split' l →
  (∀ i, mask_bytes (Some m) split l !! i = (λ b, Z.lxor b (mask_nth m (i mod 4))) <$> l !! i) ∧
  mask_bytes (Some m) split' (mask_bytes (Some m) split l) = l.
Proof.
  intros Hm Hl Hs Hs'. assert (∀ m', Some m = Some m' → byte_mask m') as Hm' by by intros ? [= <-].
  rewrite (mask_bytes_unmask (Some m) split l) by done. split; [apply mask_ref_lookup|].
  rewrite mask_bytes_unmask; [apply mask_ref_invol|done|by apply unmask_bytes|].
  unfold split_ok, unmask. by rewrite mask_ref_length.
Qed.

(** ** The header parser *)

(** More bytes do not change an answer. *)
Lemma try_from_bytes_mono l t r :
  try_from_bytes l = r → r ≠ Ok None → try_from_bytes (l ++ t) = r.
Proof.
  intros <- Hr. destruct l as [|b0 [|b1 rest]]; [done..|]. cbn [try_from_bytes app] in *.
  destruct (0 <? Z.land b0 112); [done|]. destruct (opcode_of _) as [op|]; [|done].
  destruct (_ && is_control op); [done|].
  set (ext := if Z.land b1 127 =? 126 then 2%nat else _) in *.
  destruct (Nat.ltb_spec (length rest) ext); [done|].
  rewrite length_app. destruct (Nat.ltb_spec (length rest + length t) ext); [lia|].
  rewrite take_app_le, drop_app_le by lia.
  destruct (_ && is_control op); [done|]. destruct (negb _); [|done].
  by destruct (drop ext rest) as [|a [|b [|c [|d r]]]].
Qed.

Lemma try_from_bytes_header_len l h :
  try_from_bytes l = Ok (Some h) → (2 ≤ h.(header_len) ≤ length l)%nat.
Proof.
  destruct l as [|b0 [|b1 rest]]; [done..|]. cbn [try_from_bytes].
  destruct (0 <? Z.land b0 112); [done|]. destruct (opcode_of _) as [op|]; [|done].
  destruct (_ && is_control op); [done|].
  set (ext := if Z.land b1 127 =? 126 then 2%nat else _) in *.
  destruct (Nat.ltb_spec (length rest) ext); [done|].
  destruct (_ && is_control op); [done|].
  destruct (negb _); [|intros [= <-]; simpl; lia].
  destruct (drop ext rest) as [|a [|b [|c [|d r]]]] eqn:E; try done. intros [= <-]. simpl.
  apply (f_equal length) in E. rewrite length_drop in E. simpl in E. lia.
Qed.

(** ** Numbers *)
Lemma to_be_bytes_length k n : length (to_be_bytes k n) = k.
Proof. induction k as [|k IH]; simpl; [done|by rewrite IH]. Qed.

Lemma from_to_be_bytes k n acc :
  fold_left (λ acc b, acc * 256 + b) (to_be_bytes k n) acc =
  acc * 256 ^ Z.of_nat k + n mod 256 ^ Z.of_nat k.
Proof.
  revert acc. induction k as [|k IH]; intros acc.
  - simpl. rewrite Z.mod_1_r. lia.
  - cbn [to_be_bytes fold_left]. rewrite IH. rewrite Nat2Z.inj_succ, Z.pow_succ_r by lia.
    rewrite (Z.mul_comm 256 (256 ^ Z.of_nat k)), Z.rem_mul_r by lia. lia.
Qed.

Lemma be_bytes_roundtrip k n :
  0 ≤ n < 256 ^ Z.of_nat k → from_be_bytes (to_be_bytes k n) = n.
Proof.
  intros Hn. unfold from_be_bytes. rewrite from_to_be_bytes, Z.mod_small by done. lia.
Qed.

(** The length byte with and without the mask bit. *)
Lemma len_byte (masked : bool) n :
  0 ≤ n < 128 →
  let b := Z.lor (if masked then 128 else 0) n in
  Z.land b 127 = n ∧ negb (Z.land b 128 =? 0) = masked ∧ is_byte b.
Proof.
  intros Hn.
  assert (forallb (λ k, let b := Z.lor (if masked then 128 else 0) (Z.of_nat k) in
            (Z.land b 127 =? Z.of_nat k) && Bool.eqb (negb (Z.land b 128 =? 0)) masked &&
            ((0 <=? b) && (b <? 256)))
            (seq 0 128) = true) as H by (destruct masked; vm_compute; reflexivity).
  rewrite forallb_forall in H. specialize (H (Z.to_nat n)).
  rewrite !andb_true_iff, Z.eqb_eq, Bool.eqb_true_iff, Z.leb_le, Z.ltb_lt, Z2Nat.id in H by lia.
  destruct H as [[H1 H2] H3]; [apply in_seq; lia|]. by split_and!.
Qed.

Lemma first_byte_ok op :
  Z.land (Z.lor 128 (opcode_u8 op)) 112 = 0 ∧ Z.land (Z.lor 128 (opcode_u8 op)) 128 = 128 ∧
  opcode_of (Z.land (Z.lor 128 (opcode_u8 op)) 15) = Some op.
Proof. by destruct op. Qed.

(** The parser on the bytes of a header, whose length field has [ext] bytes. *)
Lemma try_from_bytes_header op (m : option Mask) n code ext tail :
  0 ≤ n → (is_control op = true → n ≤ 125) → 0 ≤ code < 128 →
  (ext = if code =? 126 then 2%nat else if code =? 127 then 8%nat else 0%nat) →
  (if (ext =? 0)%nat then code = n else n < 256 ^ Z.of_nat ext) →
  let mask_bit := match m with Some _ => 128 | None => 0 end in
  let mask_part := match m with Some m => mask_bytes_of m | None => [] end in
  try_from_bytes (Z.lor 128 (opcode_u8 op) :: Z.lor mask_bit code ::
                  (if (ext =? 0)%nat then [] else to_be_bytes ext n) ++ mask_part ++ tail) =
  Ok (Some (mkHeader true m op (2 + length mask_part + ext) n)).
Proof.
  intros Hn Hc Hcode Hext Hfit mask_bit mask_part. cbn [try_from_bytes].
  destruct (first_byte_ok op) as (-> & -> & ->). simpl (0 <? 0). cbv iota.
  simpl (negb (negb (128 =? 0)) && _). cbv iota.
  destruct (len_byte (bool_decide (is_Some m)) code Hcode) as (H1 & H2 & _).
  replace (if bool_decide (is_Some m) then 128 else 0) with mask_bit in * by by destruct m.
  rewrite H1, H2, <- Hext.
  set (lf := if (ext =? 0)%nat then [] else to_be_bytes ext n).
  assert (length lf = ext) as Hlf.
  { unfold lf. destruct (Nat.eqb_spec ext 0) as [->|]; [done|apply to_be_bytes_length]. }
  rewrite length_app. destruct (Nat.ltb_spec (length lf + length (mask_part ++ tail)) ext); [lia|].
  rewrite <- Hlf, take_app_length, drop_app_length, Hlf.
  assert ((if (ext =? 0)%nat then code else from_be_bytes lf) = n) as ->.
  { unfold lf. destruct (ext =? 0)%nat; [done|]. by apply be_bytes_roundtrip. }
  replace ((125 <? n) && is_control op) with false
    by (destruct (is_control op); [specialize (Hc eq_refl)|]; lia).
  unfold mask_part. destruct m as [[[[a b] c] d]|]; reflexivity.
Qed.

(** A frame is a header the parser understands, followed by the masked data. *)
Lemma create_frame_shape m split l op :
  (∀ m', m = Some m' → byte_mask m') → Forall is_byte l → split_ok split l →
  Z.of_nat (length l) < 2 ^ 64 → (is_control op = true → (length l ≤ 125)%nat) →
  ∃ hd, create_frame m split l op = Ok (hd ++ unmask m l) ∧
    ∀ tail, try_from_bytes (hd ++ tail) =
      Ok (Some (mkHeader true m op (length hd) (Z.of_nat (length l)))).
Proof.
  intros Hm Hl Hs Hlen Hc. unfold create_frame. set (n := Z.of_nat (length l)) in *.
  change (0 <? Z.land (opcode_u8 op) 8) with (is_control op).
  replace (is_control op && (125 <? n)) with false
    by (destruct (is_control op); [specialize (Hc eq_refl); lia|done]).
  rewrite mask_bytes_unmask by done. set (mask_part := match m with Some m' => mask_bytes_of m' | None => [] end).
  assert (∀ code ext, 0 ≤ code < 128 →
    (ext = if code =? 126 then 2%nat else if code =? 127 then 8%nat else 0%nat) →
    (if (ext =? 0)%nat then code = n else n < 256 ^ Z.of_nat ext) →
    let hd := Z.lor 128 (opcode_u8 op) :: Z.lor (match m with Some _ => 128 | None => 0 end) code ::
              (if (ext =? 0)%nat then [] else to_be_bytes ext n) ++ mask_part in
    ∀ tail, try_from_bytes (hd ++ tail) = Ok (Some (mkHeader true m op (length hd) n))) as Hhd.
  { intros code ext H1 H2 H3 hd tail. unfold hd. cbn [app]. rewrite <- app_assoc.
    rewrite (try_from_bytes_header op m n code ext) by (done || lia). fold mask_part.
    do 3 f_equal. simpl. rewrite length_app.
    destruct (Nat.eqb_spec ext 0); rewrite ?to_be_bytes_length; simpl; lia. }
  destruct (Z.ltb_spec n 126); [|destruct (Z.ltb_spec n 65535)].
  - eexists. split; [|apply (Hhd n 0%nat)]; [by cbn [app Nat.eqb]|lia| |done].
    rewrite (proj2 (Z.eqb_neq n 126)), (proj2 (Z.eqb_neq n 127)); lia.
  - eexists. split; [|apply (Hhd 126 2%nat)]; [|lia|done|simpl; lia].
    cbn [app Nat.eqb]. by rewrite <- app_assoc.
  - eexists. split; [|apply (Hhd 127 8%nat)]; [|lia|done|simpl; lia].
    cbn [app Nat.eqb]. by rewrite <- app_assoc.
Qed.

Lemma to_be_bytes_bytes k n : Forall is_byte (to_be_bytes k n).
Proof.
  induction k as [|k IH]; simpl; constructor; [|done]. apply Z.mod_pos_bound. lia.
Qed.

(** Frames consist of bytes. *)
Lemma create_frame_bytes m split l op frame :
  (∀ m', m = Some m' → byte_mask m') → Forall is_byte l → split_ok split l →
  create_frame m split l op = Ok frame → Forall is_byte frame.
Proof.
  intros Hm Hl Hs. unfold create_frame. destruct (_ && _); [done|]. intros [= <-].
  rewrite mask_bytes_unmask by done.
  assert (∀ code, 0 ≤ code < 128 → is_byte (Z.lor (match m with Some _ => 128 | None => 0 end) code))
    as Hb.
  { intros code Hc. destruct (len_byte (bool_decide (is_Some m)) code Hc) as (_ & _ & H).
    by destruct m. }
  apply Forall_cons. split; [by destruct op|].
  rewrite !Forall_app. split_and!; [| |by apply unmask_bytes].
  - destruct (Z.ltb_spec (Z.of_nat (length l)) 126); [repeat constructor; apply Hb; lia|].
    pose proof (to_be_bytes_bytes 2 (Z.of_nat (length l))).
    pose proof (to_be_bytes_bytes 8 (Z.of_nat (length l))).
    destruct (_ <? 65535); (apply Forall_cons; split; [apply Hb; lia|assumption]).
  - destruct m as [m|]; [by apply Hm|constructor].
Qed.

(** Whatever [create_frame] writes, [try_from_bytes] reads: with any bytes
    behind the frame it gives the opcode, the mask and the length of the payload,
    and the payload behind the header unmasks to the data; a shorter piece of
    the header is recognised as incomplete. Control frames of more than 125
    bytes are refused. *)
Theorem create_frame_try_from_bytes m split l op tail :
  (∀ m', m = Some m' → byte_mask m') → Forall is_byte l → split_ok split l →
  Z.of_nat (length l) < 2 ^ 64 →
  if is_control op && (125 <? length l)%nat
  then is_ok (create_frame m split l op) = false
  else ∃ frame h, create_frame m split l op = Ok frame ∧
    try_from_bytes (frame ++ tail) = Ok (Some h) ∧
    h.(fin) = true ∧ h.(mask) = m ∧ h.(frametype) = op ∧
    h.(payload_len) = Z.of_nat (length l) ∧
    unmask m (drop h.(header_len) frame) = l ∧
    (∀ n, (n < h.(header_len))%nat → try_from_bytes (take n frame) = Ok None).
Proof.
  intros Hm Hl Hs Hlen. destruct (is_control op && (125 <? length l)%nat) eqn:Hc.
  - apply andb_true_iff in Hc as [Hc Hlong]. unfold create_frame.
    change (0 <? Z.land (opcode_u8 op) 8) with (is_control op). rewrite Hc.
    by replace (125 <? Z.of_nat (length l)) with true by lia.
  - destruct (create_frame_shape m split l op Hm Hl Hs Hlen) as (hd & Hf & Hhd);
      [by intros E; rewrite E in Hc; simpl in Hc; lia|].
    exists (hd ++ unmask m l), (mkHeader true m op (length hd) (Z.of_nat (length l))).
    split; [exact Hf|]. rewrite <- app_assoc, Hhd. simpl. split_and!; try done.
    + rewrite drop_app_length. destruct m; [apply mask_ref_invol|done].
    + intros n Hn. rewrite take_app_le by lia.
      destruct (try_from_bytes (take n hd)) as [[h|]|e] eqn:E; [|done|].
      * pose proof (try_from_bytes_header_len _ _ E) as [_ Hle].
        apply (try_from_bytes_mono _ (drop n hd)) in E; [|done].
        rewrite take_drop, <- (app_nil_r hd), Hhd in E. injection E as <-.
        rewrite length_take in Hle. simpl in Hle. lia.
      * apply (try_from_bytes_mono _ (drop n hd)) in E; [|done].
        by rewrite take_drop, <- (app_nil_r hd), Hhd in E.
Qed.

(** ** Limits of the format *)

(** A payload of 65535 bytes fits a 16-bit length field but gets the 64-bit one. *)
Lemma create_frame_65535_not_minimal split l :
  Z.of_nat (length l) = 65535 →
  create_frame None split l Binary = Ok ([130; 127; 0; 0; 0; 0; 0; 0; 255; 255] ++ l).
Proof. intros H. unfold create_frame. by rewrite H. Qed.

(** The payload of a long error message does not fit the close frame it is for. *)
Lemma error_payload_too_long :
  is_ok (create_frame None (0%nat, 0%nat)
           (generate_frame_payload (mkWsError ProtocolError (replicate 124 97))) Close) = false.
Proof. vm_compute. reflexivity. Qed.

(** ** Witnesses *)
Lemma mask_bytes_correct_witness :
  mask_bytes (Some (1, 2, 3, 4)) (0%nat, 10%nat)
    (mask_bytes (Some (1, 2, 3, 4)) (3%nat, 9%nat) (replicate 40 7)) = replicate 40 7.
Proof.
  refine (proj2 (mask_bytes_correct (1, 2, 3, 4) (3%nat, 9%nat) (0%nat, 10%nat) (replicate 40 7) _ _ _ _)).
  - unfold byte_mask, is_byte. simpl. repeat constructor; lia.
  - apply Forall_replicate. unfold is_byte. lia.
  - unfold split_ok. simpl. lia.
  - unfold split_ok. simpl. lia.
Defined.

Lemma create_frame_try_from_bytes_witness :
  ∃ frame h, create_frame (Some (9, 8, 7, 6)) (0%nat, 0%nat) [1; 2; 3; 4; 5] Ping = Ok frame ∧
    try_from_bytes (frame ++ [77]) = Ok (Some h) ∧ h.(payload_len) = 5.
Proof.
  destruct (create_frame_try_from_bytes (Some (9, 8, 7, 6)) (0%nat, 0%nat) [1; 2; 3; 4; 5] Ping [77])
    as (frame & h & H1 & H2 & _ & _ & _ & H3 & _).
  - intros m' [= <-]. unfold byte_mask, is_byte. simpl. repeat constructor; lia.
  - unfold is_byte. repeat constructor; lia.
  - unfold split_ok. simpl. lia.
  - simpl. lia.
  - exists frame, h. done.
Defined.
