(* ===== verification/WebSocketStream.v ===== *)
(** * WebSocketStream: the reader delivers the payload of the stream

    [decodes] says what a stream of frames means: the bytes of its data frames
    and the messages of its control frames. However the stream is cut into
    pieces, and whatever buffers the caller offers, the reader's state machine
    delivers just that. *)
From S2P Require Import Prelude ByteBuffer WebSocket WebSocketFrames.

#[local] Open Scope Z_scope.

(** ** Specification *)

(** Data frames whose payload is sent as it is. *)
Definition plain (m : option Mask) : bool :=
  match m with None => true | Some m => mask_is_zero m end.

Inductive decodes : option FrameHeader → list byte → list byte → list (OpCode * list byte) → Prop :=
| dec_end : decodes None [] [] []
| dec_header input h d c :
    try_from_bytes input = Ok (Some h) → decodes (Some h) (drop h.(header_len) input) d c →
    decodes None input d c
| dec_control input h d c n :
    is_control_frame h = true → h.(payload_len) = Z.of_nat n → (n ≤ length input)%nat →
    (∀ m, h.(mask) = Some m → byte_mask m) →
    decodes None (drop n input) d c →
    decodes (Some h) input d ((h.(frametype), unmask h.(mask) (take n input)) :: c)
| dec_data input h d c n :
    is_control_frame h = false → plain h.(mask) = true →
    h.(payload_len) = Z.of_nat n → (n ≤ length input)%nat →
    decodes None (drop n input) d c →
    decodes (Some h) input (take n input ++ d) c.

(** ** Headers *)
Lemma try_from_bytes_none_short l : try_from_bytes l = Ok None → (length l < 14)%nat.
Proof.
  destruct l as [|b0 [|b1 rest]]; [simpl; lia..|]. cbn [try_from_bytes].
  destruct (0 <? Z.land b0 112); [done|]. destruct (opcode_of _) as [op|]; [|done].
  destruct (_ && is_control op); [done|].
  set (ext := if Z.land b1 127 =? 126 then 2%nat else _).
  assert (ext ≤ 8)%nat by (unfold ext; repeat destruct (_ =? _); lia).
  destruct (Nat.ltb_spec (length rest) ext); [intros _; simpl; lia|].
  destruct (_ && is_control op); [done|]. destruct (negb _); [|done].
  destruct (drop ext rest) as [|a [|b [|c [|d r]]]] eqn:E; try done; intros _;
    apply (f_equal length) in E; rewrite length_drop in E; simpl in E |- *; lia.
Qed.

Lemma try_from_bytes_payload l h :
  Forall is_byte l → try_from_bytes l = Ok (Some h) →
  0 ≤ h.(payload_len) ∧ (is_control_frame h = true → h.(payload_len) ≤ 125) ∧
  (∀ m, h.(mask) = Some m → byte_mask m).
Proof.
  intros Hl. destruct l as [|b0 [|b1 rest]]; [done..|]. cbn [try_from_bytes].
  rewrite !Forall_cons in Hl. destruct Hl as (_ & Hb & Hr).
  destruct (0 <? Z.land b0 112); [done|]. destruct (opcode_of _) as [op|]; [|done].
  destruct (_ && is_control op); [done|].
  set (ext := if Z.land b1 127 =? 126 then 2%nat else _).
  destruct (length rest <? ext)%nat; [done|].
  set (n := if (ext =? 0)%nat then Z.land b1 127 else _).
  assert (0 ≤ n) as Hn.
  { unfold n. destruct (ext =? 0)%nat; [apply Z.land_nonneg; lia|].
    assert (∀ l acc, Forall is_byte l → 0 ≤ acc → 0 ≤ fold_left (λ acc b, acc * 256 + b) l acc) as Hf.
    { induction l as [|x l IH]; intros acc Hl Hacc; simpl; [done|].
      apply Forall_cons in Hl as [Hx Hl]. unfold is_byte in Hx. apply IH; [done|lia]. }
    apply Hf; [by apply Forall_take|lia]. }
  destruct ((125 <? n) && is_control op) eqn:Hc; [done|].
  assert (is_control op = true → n ≤ 125) by (intros E; rewrite E, andb_true_r in Hc; lia).
  destruct (negb _); [|intros [= <-]; simpl; split_and!; [done|done|done]].
  apply (Forall_drop _ ext) in Hr.
  destruct (drop ext rest) as [|a [|b [|c [|d r]]]]; try done. intros [= <-]. simpl.
  split_and!; [done|done|]. intros m [= <-]. unfold byte_mask. simpl.
  rewrite !Forall_cons in Hr. rewrite !Forall_cons. naive_solver.
Qed.

(** ** Invariant *)

(** What the buffer holds does not suffice for another step. *)
Definition stuck (hdr : option FrameHeader) (l : list byte) : Prop :=
  match hdr with
  | None => try_from_bytes l = Ok None
  | Some h => if is_control_frame h then Z.of_nat (length l) < h.(payload_len) else l = []
  end.

(** The buffer the reader works with, wherever it is. *)
Definition holds (w : WebSocketReader) (b : ByteBuffer) : Prop :=
  match w.(state) with
  | Receiving b' => b' = b ∧ w.(read_buffer) = None
  | ReceivingFailed => False
  | NoData | HaveData => w.(read_buffer) = Some b
  end.

Definition header_ok (hdr : option FrameHeader) : Prop :=
  ∀ h, hdr = Some h → 0 < h.(payload_len) ∧ (is_control_frame h = true → h.(payload_len) ≤ 125).

Record reads (s : Stream) (w : WebSocketReader) (b : ByteBuffer) (d : list byte)
    (c : list (OpCode * list byte)) : Prop := mkReads {
  reads_holds : holds w b;
  reads_wf : wf_buffer b;
  reads_cap : (125 ≤ b.(capacity))%nat;
  reads_bytes : Forall is_byte (buf_contents b ++ s.(rest));
  reads_decodes : decodes w.(header) (buf_contents b ++ s.(rest)) d c;
  reads_open : w.(sender_open) = true;
  reads_stuck : w.(state) ≠ HaveData → stuck w.(header) (buf_contents b);
  reads_header : header_ok w.(header);
}.

Definition state_weight (st : ReaderState) : nat :=
  match st with NoData => 1 | HaveData => 2 | _ => 0 end.

Lemma state_weight_le st : (state_weight st ≤ 2)%nat.
Proof. destruct st; simpl; lia. Qed.

(** A measure of the work left; every iteration that continues decreases it. *)
Definition work (s : Stream) (w : WebSocketReader) (b : ByteBuffer) : nat :=
  (8 * length s.(rest) + 4 * length (buf_contents b) + state_weight w.(state))%nat.

Lemma stuck_free hdr b :
  header_ok hdr → stuck hdr (buf_contents b) → wf_buffer b → (125 ≤ b.(capacity))%nat →
  (0 < free_size b)%nat.
Proof.
  intros Hh Hs Hwf Hc. unfold free_size. rewrite <- (length_contents b Hwf).
  unfold stuck in Hs. destruct hdr as [h|].
  - destruct (Hh h eq_refl). destruct (is_control_frame h); [specialize (H0 eq_refl); lia|].
    rewrite Hs. simpl. lia.
  - apply try_from_bytes_none_short in Hs. lia.
Qed.

(** A stuck reader at the end of the stream has delivered everything. *)
Lemma stuck_end hdr l d c :
  header_ok hdr → stuck hdr l → decodes hdr l d c → d = [] ∧ c = [].
Proof.
  intros Hh Hs Hd. destruct Hd as [|input h d c H1 _|input h d c n H1 H2 H3 _ _|input h d c n H1 _ H2 H3 _];
    simpl in Hs.
  - done.
  - by rewrite Hs in H1.
  - rewrite H1 in Hs. lia.
  - rewrite H1 in Hs. subst input. destruct (Hh h eq_refl). simpl in H3. lia.
Qed.

(** ** Steps *)
Section Steps.
Context (align : list byte → nat * nat) (align_ok : ∀ l, split_ok (align l) l).

Lemma mask_bytes_plain m split l : plain m = true → mask_bytes m split l = l.
Proof. destruct m as [m|]; simpl; [by intros ->|done]. Qed.

Lemma state_after_stuck b hdr :
  (∀ h, hdr = Some h → is_control_frame h = false) →
  state_after b ≠ HaveData → stuck hdr (buf_contents b).
Proof.
  intros Hh. unfold state_after, is_empty. destruct (Nat.eqb_spec (length (buf_contents b)) 0) as [E|];
    [|done]. intros _. apply nil_length_inv in E. rewrite E.
  destruct hdr as [h|]; [|done]. simpl. by rewrite (Hh h eq_refl).
Qed.

(** The outcome of a step: bytes [x] and messages [cs] leave the stream. *)
Definition step_ok (s : Stream) (w w' : WebSocketReader) (d : list byte)
    (c : list (OpCode * list byte)) (b' : ByteBuffer) (x : list byte)
    (cs : list (OpCode * list byte)) : Prop :=
  ∃ d' c', reads s w' b' d' c' ∧ d = x ++ d' ∧ c = cs ++ c' ∧ w'.(sent) = w.(sent) ++ (Ok <$> cs).

Definition header_pre (s : Stream) (w : WebSocketReader) (b : ByteBuffer) (h : FrameHeader)
    (d : list byte) (c : list (OpCode * list byte)) : Prop :=
  wf_buffer b ∧ (125 ≤ b.(capacity))%nat ∧ Forall is_byte (buf_contents b ++ s.(rest)) ∧
  decodes (Some h) (buf_contents b ++ s.(rest)) d c ∧ w.(sender_open) = true ∧
  (is_control_frame h = true → h.(payload_len) ≤ 125).

Lemma control_header_step remaining s w b h d c :
  header_pre s w b h d c → is_control_frame h = true →
  let r := have_header align remaining w b h in
  r.2 = None ∧
  ∃ b' cs, step_ok s w r.1 d c b' [] cs ∧ (length (buf_contents b') ≤ length (buf_contents b))%nat ∧
    (0 < h.(payload_len) →
     r.1.(state) = NoData ∨ (length (buf_contents b') < length (buf_contents b))%nat).
Proof.
  intros (Hwf & Hcap & Hb & Hd & Hop & H125) Hc r. unfold r, have_header. rewrite Hc.
  inversion Hd as [| |input h' d0 c0 n _ Hn Hlen Hmask Hdec|? ? ? ? ? Hf]; subst; [|congruence].
  rewrite Hn. destruct (Z.leb_spec (Z.of_nat n) (Z.of_nat (length (buf_contents b)))) as [Hle|Hgt].
  - rewrite Nat2Z.id. destruct (remove_data b n) as [x b'] eqn:E.
    destruct (remove_data_ok b n Hwf) as (Hx & Hwf' & Hc' & Hcap'). rewrite E in *. simpl in *. subst x.
    split; [done|]. exists b', [(h.(frametype), unmask h.(mask) (take n (buf_contents b)))].
    rewrite drop_app_le, <- Hc' in Hdec by lia. rewrite take_app_le in * by lia.
    split_and!; [|rewrite Hc', length_drop; lia|intros ?; right; rewrite Hc', length_drop; lia].
    exists d, c0. unfold set_sent. rewrite Hop. split_and!; [|done|done|].
    + constructor; simpl; try done.
      * unfold holds. simpl. by unfold state_after; destruct (is_empty b').
      * by rewrite Hcap'.
      * rewrite Hc'. apply Forall_app in Hb as [Hb1 Hb2]. apply Forall_app.
        split; [by apply Forall_drop|done].
      * by apply (state_after_stuck b' None).
    + simpl. rewrite mask_bytes_unmask; [done|done| |apply align_ok].
      apply Forall_app in Hb as [Hb1 _]. by apply Forall_take.
  - split; [done|]. exists b, []. split_and!; [|lia|by left].
    eexists d, _. split_and!; [|done|done|simpl; by rewrite app_nil_r].
    constructor; simpl; try done.
    + intros _. unfold stuck. rewrite Hc. lia.
    + intros h' [= <-]. split; [lia|done].
Qed.

Lemma data_header_step remaining s w b h d c :
  header_pre s w b h d c → is_control_frame h = false → (0 < remaining)%nat →
  let r := have_header align remaining w b h in
  ∃ b' x, step_ok s w r.1 d c b' x [] ∧ (length (buf_contents b') ≤ length (buf_contents b))%nat ∧
    match r.2 with
    | None => x = [] ∧ (0 < h.(payload_len) → r.1.(state) = NoData)
    | Some (p, out) => p = ReadyOk ∧ out = x ∧ x ≠ []
    end.
Proof.
  intros (Hwf & Hcap & Hb & Hd & Hop & _) Hc Hrem r. unfold r, have_header. rewrite Hc.
  inversion Hd as [| |? ? ? ? ? Hf|input h' d0 c0 n _ Hpl Hn Hlen Hdec]; subst; [congruence|].
  rewrite Hn. set (len := Z.to_nat _).
  assert (len = Nat.min remaining (Nat.min n (length (buf_contents b)))) as Elen by (unfold len; lia).
  clearbody len. destruct (remove_data b len) as [x b'] eqn:E.
  destruct (remove_data_ok b len Hwf) as (Hx & Hwf' & Hc' & Hcap'). rewrite E in *. simpl in *. subst x.
  rewrite mask_bytes_plain by done.
  exists b', (take len (buf_contents b)). split_and!; [|rewrite Hc', length_drop; lia|].
  - exists (take (n - len) (drop len (buf_contents b ++ rest s)) ++ d0), c.
    split_and!; [|rewrite app_assoc; f_equal|done|simpl; by rewrite app_nil_r].
    + assert (Forall is_byte (buf_contents b' ++ rest s)) as Hb'.
      { rewrite Hc'. apply Forall_app in Hb as [Hb1 Hb2]. apply Forall_app.
        split; [by apply Forall_drop|done]. }
      assert (drop len (buf_contents b ++ rest s) = buf_contents b' ++ rest s) as Edrop
        by (rewrite drop_app_le by lia; by rewrite Hc').
      constructor; simpl; try done.
      * unfold holds. simpl. by unfold state_after; destruct (is_empty b').
      * by rewrite Hcap'.
      * rewrite Edrop. destruct (Z.ltb_spec 0 (Z.of_nat n - Z.of_nat len)).
        -- apply (dec_data _ _ _ _ (n - len)); simpl; [done|done|lia| |].
           ++ rewrite <- Edrop, length_drop. lia.
           ++ rewrite <- Edrop, drop_drop. by replace (len + (n - len))%nat with n by lia.
        -- replace (n - len)%nat with 0%nat by lia. simpl. rewrite <- Edrop.
           by replace len with n by lia.
      * apply state_after_stuck. by destruct (0 <? _); [intros ? [= <-]|].
      * intros h'. destruct (Z.ltb_spec 0 (Z.of_nat n - Z.of_nat len)); [|done]. intros [= <-].
        split; simpl; [lia|]. unfold is_control_frame in *. simpl. congruence.
    + rewrite <- (take_app_le (buf_contents b) (rest s) len) by lia.
      replace n with (len + (n - len))%nat at 1 by lia. by rewrite take_take_drop.
  - destruct (Nat.ltb_spec 0 len); simpl.
    + split_and!; [done|done|]. intros Hnil%(f_equal length). rewrite length_take in Hnil. simpl in Hnil. lia.
    + assert (len = 0%nat) as -> by lia. split; [done|]. intros Hpos. rewrite drop_0 in Hc'.
      assert (buf_contents b' = []) as E0
        by (rewrite Hc'; apply nil_length_inv; lia).
      unfold state_after, is_empty. by rewrite E0.
Qed.

Definition pendings (s : Stream) : nat :=
  length (List.filter (λ e, match e with EvPending => true | _ => false end) s.(plan)).

(** Reading from a stream without errors takes a piece from its front. *)
Lemma stream_read_ok free s :
  (0 < free)%nat → EvError ∉ s.(plan) →
  let '(a, s') := stream_read free s in
  (EvError ∉ s'.(plan)) ∧
  match a with
  | APending => s'.(rest) = s.(rest) ∧ (pendings s' < pendings s)%nat
  | AError => False
  | ABytes l => s.(rest) = l ++ s'.(rest) ∧ (length l ≤ free)%nat ∧ (l = [] → s.(rest) = []) ∧
                (pendings s' ≤ pendings s)%nat
  end.
Proof.
  intros Hf. unfold stream_read, pendings.
  assert (∀ k (l : list byte), (0 < k)%nat → take k l = [] → l = []) as Htake
    by (intros [|k] [|x l]; [lia|lia|done|done]).
  destruct (plan s) as [|[| |n] p]; simpl; intros Hp.
  - split_and!; [done|by rewrite take_drop|rewrite length_take; lia|by apply Htake|lia].
  - apply not_elem_of_cons in Hp as [_ Hp]. split_and!; [done|done|lia].
  - apply not_elem_of_cons in Hp as [? _]. done.
  - apply not_elem_of_cons in Hp as [_ Hp].
    split_and!; [done|by rewrite take_drop|rewrite length_take; lia|apply Htake; lia|lia].
Qed.

(** The outcome of one iteration. *)
Definition iter_ok (s : Stream) (w : WebSocketReader) (b : ByteBuffer) (d : list byte)
    (c : list (OpCode * list byte)) (res : Stream * WebSocketReader * option (Poll * list byte))
    : Prop :=
  let '(s', w', r) := res in
  ∃ b' x cs, step_ok s' w w' d c b' x cs ∧ (EvError ∉ s'.(plan)) ∧
  match r with
  | None => x = [] ∧ (work s' w' b' < work s w b)%nat ∧ (pendings s' ≤ pendings s)%nat
  | Some (Pending, out) => x = [] ∧ (pendings s' < pendings s)%nat
  | Some (ReadyOk, out) => out = x ∧ (pendings s' ≤ pendings s)%nat ∧ (x = [] → d = [] ∧ c = [])
  | Some _ => False
  end.

Lemma receiving_step remaining s w b d c :
  reads s w b d c → EvError ∉ s.(plan) → w.(state) = Receiving b →
  iter_ok s w b d c (poll_iter align remaining s w).
Proof.
  intros [Hh Hwf Hcap Hb Hd Hop Hst Hhd] Hp Hs. unfold poll_iter. rewrite Hs in *.
  unfold holds in Hh. rewrite Hs in Hh. destruct Hh as [_ Hbuf].
  specialize (Hst ltac:(done)). pose proof (stuck_free _ b Hhd Hst Hwf Hcap) as Hfree.
  pose proof (stream_read_ok (free_size b) s Hfree Hp) as Hread.
  destruct (stream_read (free_size b) s) as [[| |l] s']; destruct Hread as [Hp' Hread]; [|done|].
  - destruct Hread as [Hrest Hpend]. exists b, [], []. split_and!; [|done|done|done].
    exists d, c. split_and!; [|done|done|by rewrite app_nil_r].
    constructor; rewrite ?Hs, ?Hrest; try done. unfold holds. by rewrite Hs.
  - destruct Hread as (Hrest & Hl & Hend & Hpend).
    destruct (read_from_ok b l Hwf Hl) as (b' & -> & Hwf' & Hc' & Hcap').
    assert (buf_contents b' ++ rest s' = buf_contents b ++ rest s) as Eall
      by (by rewrite Hc', Hrest, <- app_assoc).
    exists b', [], []. split_and!; [|done|].
    + exists d, c. split_and!; [|done|done|simpl; by rewrite app_nil_r].
      constructor; simpl; rewrite ?Eall; try done. by rewrite Hcap'.
    + destruct (Nat.eqb_spec (length l) 0) as [E%nil_length_inv|Hne].
      * split_and!; [done|done|]. intros _. specialize (Hend E). rewrite Hend, app_nil_r in Hd.
        by eapply stuck_end.
      * split_and!; [done| |done]. unfold work. rewrite Hs, Hc', Hrest, !length_app. simpl. lia.
Qed.

(** The work on a frame whose header is known, as an iteration. *)
Lemma header_step_iter remaining s w b d c b0 h :
  let w0 := set_state w None None HaveData in
  EvError ∉ s.(plan) → (0 < remaining)%nat → w.(state) = HaveData →
  header_pre s w0 b0 h d c →
  0 < h.(payload_len) ∨ (length (buf_contents b0) < length (buf_contents b))%nat →
  (length (buf_contents b0) ≤ length (buf_contents b))%nat →
  iter_ok s w b d c (s, (have_header align remaining w0 b0 h).1, (have_header align remaining w0 b0 h).2).
Proof.
  intros w0 Hp Hrem Hs Hpre Hpos Hle. unfold iter_ok, work. rewrite Hs.
  pose proof (state_weight_le (have_header align remaining w0 b0 h).1.(state)).
  destruct (is_control_frame h) eqn:Hc.
  - destruct (control_header_step remaining s w0 b0 h d c Hpre Hc) as (-> & b' & cs & Hok & Hl & Hst).
    exists b', [], cs. split_and!; [done|done|done| |done].
    destruct Hpos as [Hpos|Hlt]; [destruct (Hst Hpos) as [->|]|]; cbn [state_weight]; lia.
  - destruct (data_header_step remaining s w0 b0 h d c Hpre Hc Hrem) as (b' & x & Hok & Hl & Hr).
    exists b', x, []. split_and!; [done|done|].
    destruct (have_header align remaining w0 b0 h).2 as [[p out]|].
    + destruct Hr as (-> & -> & Hx). split_and!; [done|done|by intros ->].
    + destruct Hr as (-> & Hst). split_and!; [done| |done].
      destruct Hpos as [Hpos|Hlt]; [rewrite (Hst Hpos)|]; cbn [state_weight]; lia.
Qed.

Lemma have_data_step remaining s w b d c :
  reads s w b d c → EvError ∉ s.(plan) → (0 < remaining)%nat → w.(state) = HaveData →
  iter_ok s w b d c (poll_iter align remaining s w).
Proof.
  intros [Hh Hwf Hcap Hb Hd Hop _ Hhd] Hp Hrem Hs. unfold poll_iter. rewrite Hs.
  unfold holds in Hh. rewrite Hs in Hh. rewrite Hh. set (w0 := set_state w None None HaveData).
  destruct (header w) as [h|] eqn:Ehdr.
  - destruct (Hhd h eq_refl) as [H1 H2]. apply header_step_iter; try done; by left.
  - inversion Hd as [Hin|input h d0 c0 Hparse Hdec| |]; subst.
    + assert (buf_contents b = []) as E by by destruct (buf_contents b). rewrite E. simpl.
      exists b, [], []. split_and!; [|done|done| |done].
      * exists [], []. split_and!; [|done|done|simpl; by rewrite app_nil_r].
        rewrite E in *. constructor; simpl; try done; rewrite ?E; done.
      * unfold work. rewrite Hs. simpl. lia.
    + destruct (try_from_bytes (buf_contents b)) as [[h'|]|e] eqn:E.
      * pose proof (try_from_bytes_header_len _ _ E) as Hlen.
        pose proof (try_from_bytes_mono _ (rest s) _ E ltac:(done)) as E'.
        rewrite Hparse in E'. injection E' as <-.
        destruct (consume_ok b (header_len h) Hwf) as (_ & Hwf' & Hc' & Hcap').
        destruct (try_from_bytes_payload _ _ Hb Hparse) as (_ & H125 & _).
        apply header_step_iter; try done;
          [|right; rewrite Hc', length_drop; lia|rewrite Hc', length_drop; lia].
        rewrite drop_app_le in Hdec by lia. rewrite <- Hc' in Hdec.
        split_and!; try done; [by rewrite Hcap'|]. rewrite Hc'.
        apply Forall_app in Hb as [Hb1 Hb2]. apply Forall_app. split; [by apply Forall_drop|done].
      * exists b, [], []. split_and!; [|done|done| |done].
        -- exists d, c. split_and!; [|done|done|simpl; by rewrite app_nil_r]. by constructor.
        -- unfold work. rewrite Hs. simpl. lia.
      * pose proof (try_from_bytes_mono _ (rest s) _ E ltac:(done)). congruence.
Qed.

Lemma poll_iter_step remaining s w b d c :
  reads s w b d c → EvError ∉ s.(plan) → (0 < remaining)%nat →
  iter_ok s w b d c (poll_iter align remaining s w).
Proof.
  intros Hr Hp Hrem. pose proof Hr as [Hh _ _ _ _ _ _ _]. unfold holds in Hh.
  destruct (state w) as [|b0| |] eqn:Hs; [|destruct Hh as [-> _]; by apply receiving_step|done|
                                           by apply have_data_step].
  unfold poll_iter. rewrite Hs, Hh. destruct Hr as [_ Hwf Hcap Hb Hd Hop Hst Hhd].
  exists b, [], []. split_and!; [|done|done| |done].
  - exists d, c. split_and!; [|done|done|simpl; by rewrite app_nil_r].
    constructor; simpl; try done. intros _. apply Hst. by rewrite Hs.
  - unfold work. rewrite Hs. simpl. lia.
Qed.

Lemma poll_read_step fuel remaining s w b d c :
  reads s w b d c → EvError ∉ s.(plan) → (0 < remaining)%nat → (work s w b < fuel)%nat →
  ∃ s' w' p out b' x cs, poll_read align fuel remaining s w = Some (s', w', p, out) ∧
    step_ok s' w w' d c b' x cs ∧ (EvError ∉ s'.(plan)) ∧
    ((p = Pending ∧ x = [] ∧ (pendings s' < pendings s)%nat) ∨
     (p = ReadyOk ∧ out = x ∧ (pendings s' ≤ pendings s)%nat ∧ (x = [] → d = [] ∧ c = cs))).
Proof.
  revert s w b d c. induction fuel as [|fuel IH]; intros s w b d c Hr Hp Hrem Hf; [lia|].
  pose proof (poll_iter_step remaining s w b d c Hr Hp Hrem) as Hi. cbn [poll_read].
  destruct (poll_iter align remaining s w) as [[s1 w1] [[p out]|]];
    destruct Hi as (b1 & x & cs & Hok & Hp1 & Hres).
  - exists s1, w1, p, out, b1, x, cs. split_and!; [done|done|done|].
    destruct p; try done; [by left|right]. destruct Hres as (-> & Hpend & Hend).
    split_and!; [done..|]. intros Hx. destruct (Hend Hx) as [-> Ec]. split; [done|].
    destruct Hok as (d1 & c1 & _ & _ & Hc & _). rewrite Ec in *. by destruct cs.
  - destruct Hres as (-> & Hwork & Hpend). destruct Hok as (d1 & c1 & Hr1 & Hd & Hc & Hsent).
    simpl in Hd. subst d1.
    destruct (IH s1 w1 b1 d c1 Hr1 Hp1 Hrem ltac:(lia))
      as (s' & w' & p & out & b' & x & cs' & -> & (d' & c' & Hr' & Hd' & Hc' & Hsent') & Hp' & Hout).
    exists s', w', p, out, b', x, (cs ++ cs'). split_and!; [done| |done|].
    + exists d', c'. split_and!; [done|done|by rewrite Hc, Hc', app_assoc|].
      by rewrite Hsent', Hsent, fmap_app, app_assoc.
    + destruct Hout as [(-> & -> & H)|(-> & -> & H & Hend)]; [left|right]; split_and!; try done; try lia.
      intros E. destruct (Hend E) as [-> Ec]. split; [done|]. by rewrite Hc, Ec.
Qed.

(** ** Reading to the end *)
Definition reader_buffer (w : WebSocketReader) : list byte :=
  match w.(state), w.(read_buffer) with
  | Receiving b, _ => buf_contents b
  | _, Some b => buf_contents b
  | _, None => []
  end.

(** Iterations that are enough for one call. *)
Definition poll_fuel (s : Stream) (w : WebSocketReader) : nat :=
  (8 * length s.(rest) + 4 * length (reader_buffer w) + 3)%nat.

(** Calls with the given buffer sizes, until one of them signals the end. *)
Fixpoint read_all (sizes : list nat) (s : Stream) (w : WebSocketReader) (got : list byte)
    : option (list byte * WebSocketReader) :=
  match sizes with
  | [] => None
  | n :: sizes' =>
      match poll_read align (poll_fuel s w) n s w with
      | Some (s, w, ReadyOk, []) => Some (got, w)
      | Some (s, w, ReadyOk, out) => read_all sizes' s w (got ++ out)
      | Some (s, w, Pending, _) => read_all sizes' s w got
      | _ => None
      end
  end.

Lemma poll_fuel_work s w b d c : reads s w b d c → (work s w b < poll_fuel s w)%nat.
Proof.
  intros [Hh _ _ _ _ _ _ _]. unfold work, poll_fuel, reader_buffer, holds in *.
  pose proof (state_weight_le (state w)).
  destruct (state w); simpl in *; [|destruct Hh as [-> _]|done|]; rewrite ?Hh; lia.
Qed.

Lemma read_all_delivers sizes s w b d c got :
  reads s w b d c → EvError ∉ s.(plan) → Forall (λ n, 0 < n)%nat sizes →
  (length d + pendings s < length sizes)%nat →
  ∃ w', read_all sizes s w got = Some (got ++ d, w') ∧ w'.(sent) = w.(sent) ++ (Ok <$> c).
Proof.
  revert s w b d c got. induction sizes as [|n sizes IH]; intros s w b d c got Hr Hp Hn Hlen;
    [simpl in Hlen; lia|].
  apply Forall_cons in Hn as [Hn Hns].
  destruct (poll_read_step (poll_fuel s w) n s w b d c Hr Hp Hn (poll_fuel_work s w b d c Hr))
    as (s' & w' & p & out & b' & x & cs & H & (d' & c' & Hr' & Hd & Hc & Hsent) & Hp' & Hout).
  cbn [read_all]. rewrite H. destruct Hout as [(-> & -> & Hpend)|(-> & -> & Hpend & Hend)].
  - simpl in Hd. subst d'. simpl in Hlen.
    destruct (IH s' w' b' d c' got Hr' Hp' Hns ltac:(lia)) as (w'' & -> & Hs'').
    exists w''. split; [done|]. by rewrite Hs'', Hsent, Hc, fmap_app, app_assoc.
  - destruct x as [|x0 x].
    + destruct (Hend eq_refl) as [-> ->]. exists w'. split; [by rewrite app_nil_r|done].
    + rewrite Hd in Hlen. simpl in Hlen. rewrite length_app in Hlen.
      destruct (IH s' w' b' d' c' (got ++ x0 :: x) Hr' Hp' Hns ltac:(lia)) as (w'' & -> & Hs'').
      exists w''. split; [by rewrite Hd, <- app_assoc|].
      by rewrite Hs'', Hsent, Hc, fmap_app, app_assoc.
Qed.
End Steps.

(** ** Streams of frames *)
Record Frame := mkFrame {
  f_mask : option Mask;
  f_split : nat * nat;
  f_op : OpCode;
  f_data : list byte;
}.

Fixpoint encode_frames (l : list Frame) : result (list byte) WebSocketError :=
  match l with
  | [] => Ok []
  | f :: l' =>
      let? a := create_frame f.(f_mask) f.(f_split) f.(f_data) f.(f_op) in
      let? b := encode_frames l' in
      Ok (a ++ b)
  end.

(** What the frames carry: bytes of data and control messages. *)
Definition data_of (l : list Frame) : list byte :=
  l ≫= λ f, if is_control f.(f_op) then [] else f.(f_data).
Definition control_of (l : list Frame) : list (OpCode * list byte) :=
  l ≫= λ f, if is_control f.(f_op) then [(f.(f_op), f.(f_data))] else [].

Definition valid_frame (f : Frame) : Prop :=
  (∀ m, f.(f_mask) = Some m → byte_mask m) ∧ Forall is_byte f.(f_data) ∧
  split_ok f.(f_split) f.(f_data) ∧ Z.of_nat (length f.(f_data)) < 2 ^ 64 ∧
  if is_control f.(f_op) then (length f.(f_data) ≤ 125)%nat else plain f.(f_mask) = true.

(** The frames of a list decode to what they carry. *)
Lemma encode_frames_decodes l :
  Forall valid_frame l →
  ∃ bytes, encode_frames l = Ok bytes ∧ Forall is_byte bytes ∧
    decodes None bytes (data_of l) (control_of l).
Proof.
  induction l as [|f l IH]; intros Hl; [exists []; by repeat constructor|].
  apply Forall_cons in Hl as [(Hm & Hb & Hs & Hlen & Hk) Hl].
  destruct (IH Hl) as (bytes & Henc & Hbytes & Hdec).
  destruct (create_frame_shape (f_mask f) (f_split f) (f_data f) (f_op f) Hm Hb Hs Hlen)
    as (hd & Hf & Hhd); [by intros E; rewrite E in Hk|].
  exists ((hd ++ unmask (f_mask f) (f_data f)) ++ bytes).
  split; [simpl; by rewrite Hf, Henc|]. split.
  { apply Forall_app. split; [|done]. exact (create_frame_bytes _ _ _ _ _ Hm Hb Hs Hf). }
  assert (length (unmask (f_mask f) (f_data f)) = length (f_data f)) as Hul
    by (destruct (f_mask f); simpl; [apply mask_ref_length|done]).
  rewrite <- app_assoc. eapply dec_header; [apply Hhd|]. cbn [header_len]. rewrite drop_app_length.
  change (data_of (f :: l)) with ((if is_control (f_op f) then [] else f_data f) ++ data_of l).
  change (control_of (f :: l)) with
    ((if is_control (f_op f) then [(f_op f, f_data f)] else []) ++ control_of l).
  destruct (is_control (f_op f)) eqn:Hc; simpl.
  - pose proof (dec_control (unmask (f_mask f) (f_data f) ++ bytes)
      (mkHeader true (f_mask f) (f_op f) (length hd) (Z.of_nat (length (f_data f))))
      (data_of l) (control_of l) (length (f_data f))) as H. simpl in H.
    rewrite <- Hul, take_app_length, drop_app_length, length_app in H. rewrite Hul in H.
    replace (unmask (f_mask f) (unmask (f_mask f) (f_data f))) with (f_data f) in H
      by (destruct (f_mask f); simpl; [by rewrite mask_ref_invol|done]).
    apply H; try done. lia.
  - assert (unmask (f_mask f) (f_data f) = f_data f) as ->
      by (destruct (f_mask f); simpl in *; [by apply mask_ref_zero|done]).
    pose proof (dec_data (f_data f ++ bytes)
      (mkHeader true (f_mask f) (f_op f) (length hd) (Z.of_nat (length (f_data f))))
      (data_of l) (control_of l) (length (f_data f))) as H. simpl in H.
    rewrite take_app_length, drop_app_length, length_app in H. apply H; try done. lia.
Qed.

Lemma reader_new_reads junk cap bytes p d c :
  (125 ≤ cap)%nat → Forall is_byte bytes → decodes None bytes d c →
  reads (mkStream bytes p) (reader_new junk cap) (with_capacity junk cap) d c.
Proof.
  intros Hcap Hb Hd. destruct (with_capacity_ok junk cap) as [Hwf Hc].
  by constructor; simpl; rewrite ?Hc; try done.
Qed.

(** [C11] Frames of a sender - control frames of at most 125 bytes, data frames without
    a mask or with a zero mask - come over a connection that cuts them into pieces at
    any place, with pending polls in between and without errors, and are read with a
    buffer of at least 125 bytes into non-empty buffers of the caller, of any sizes and
    in as many calls as there are bytes and events at most, and one more. The reader
    returns, byte for byte, the payload of the data frames, relays every control frame,
    unmasked and in order, and reports the end of the stream only when everything is
    delivered; every one of these calls ends within the fuel. *)
Theorem reader_delivers_stream align junk cap frames plan sizes :
  (∀ l, split_ok (align l) l) → (125 ≤ cap)%nat → Forall valid_frame frames →
  EvError ∉ plan → Forall (λ n, 0 < n)%nat sizes →
  (length (data_of frames) + length plan < length sizes)%nat →
  ∃ bytes w, encode_frames frames = Ok bytes ∧
    read_all align sizes (mkStream bytes plan) (reader_new junk cap) [] = Some (data_of frames, w) ∧
    w.(sent) = Ok <$> control_of frames.
Proof.
  intros Ha Hcap Hfr Hp Hn Hlen.
  destruct (encode_frames_decodes frames Hfr) as (bytes & Henc & Hb & Hdec).
  assert (pendings (mkStream bytes plan) ≤ length plan)%nat as Hpend by apply List.filter_length_le.
  destruct (read_all_delivers align Ha sizes (mkStream bytes plan) (reader_new junk cap)
              (with_capacity junk cap) _ _ [] (reader_new_reads junk cap bytes plan _ _ Hcap Hb Hdec)
              Hp Hn ltac:(lia)) as (w & H & Hs).
  by exists bytes, w.
Qed.

(** A data frame that is in the buffer as a whole, masked or not, is returned
    as its data in one call if the caller's buffer is large enough; what follows
    it in the buffer stays there for the next frame. *)
Theorem reader_returns_whole_frame align f frame tail b s w remaining :
  (∀ l, split_ok (align l) l) →
  (∀ m, f.(f_mask) = Some m → byte_mask m) → Forall is_byte f.(f_data) →
  split_ok f.(f_split) f.(f_data) → Z.of_nat (length f.(f_data)) < 2 ^ 64 →
  is_control f.(f_op) = false → (0 < length f.(f_data) ≤ remaining)%nat →
  create_frame f.(f_mask) f.(f_split) f.(f_data) f.(f_op) = Ok frame →
  wf_buffer b → buf_contents b = frame ++ tail →
  w.(state) = HaveData → w.(read_buffer) = Some b → w.(header) = None →
  ∃ w' b', poll_iter align remaining s w = (s, w', Some (ReadyOk, f.(f_data))) ∧
    w'.(read_buffer) = Some b' ∧ buf_contents b' = tail ∧ w'.(header) = None ∧ w'.(sent) = w.(sent).
Proof.
  intros Ha Hm Hb Hs Hlen Hop Hrem Hf Hwf Hc Hst Hbuf Hhd.
  destruct (create_frame_shape (f_mask f) (f_split f) (f_data f) (f_op f) Hm Hb Hs Hlen)
    as (hd & Hf' & Hparse); [by rewrite Hop|]. rewrite Hf in Hf'. injection Hf' as ->.
  rewrite <- app_assoc in Hc. unfold poll_iter. rewrite Hst, Hbuf, Hhd, Hc, Hparse. cbn [header_len].
  destruct (consume_ok b (length hd) Hwf) as (_ & Hwf' & Hc' & _).
  rewrite Hc, drop_app_length in Hc'. set (b1 := (consume b (length hd)).2) in *.
  assert (length (unmask (f_mask f) (f_data f)) = length (f_data f)) as Hul
    by (destruct (f_mask f); simpl; [apply mask_ref_length|done]).
  unfold have_header, is_control_frame. cbn [frametype payload_len mask fin]. rewrite Hop.
  replace (Z.to_nat _) with (length (f_data f)) by (rewrite Hc', length_app; lia).
  destruct (remove_data_ok b1 (length (f_data f)) Hwf') as (Hx & _ & Hc2 & _).
  destruct (remove_data b1 (length (f_data f))) as [x b2]. cbn [fst snd] in *.
  rewrite Hc', <- Hul, take_app_length in Hx. rewrite Hc', <- Hul, drop_app_length in Hc2. subst x.
  rewrite mask_bytes_unmask by (done || apply Ha || by apply unmask_bytes).
  rewrite (proj2 (Nat.ltb_lt _ _)), (proj2 (Z.ltb_ge _ _)) by lia.
  assert (unmask (f_mask f) (unmask (f_mask f) (f_data f)) = f_data f) as ->
    by (destruct (f_mask f); [apply mask_ref_invol|done]).
  eexists _, b2. split_and!; done.
Qed.

(** With a mask, the second piece of a frame that arrives in two pieces is
    unmasked from the start of the mask again. *)
Lemma reader_masked_split_wrong :
  ∃ bytes w, encode_frames [mkFrame (Some (1, 2, 3, 4)) (0%nat, 0%nat) Binary [10; 20; 30; 40; 50]] = Ok bytes ∧
    read_all (λ _, (0%nat, 0%nat)) [100; 100; 100]%nat (mkStream bytes [EvBytes 9; EvBytes 2])
      (reader_new (λ _, 0) 200) [] = Some ([10; 20; 30; 45; 49], w).
Proof. eexists _, _. split; vm_compute; reflexivity. Qed.

(** A call with an empty buffer never returns while payload is waiting. *)
Lemma reader_empty_buffer_spins :
  ∃ bytes s w, encode_frames [mkFrame None (0%nat, 0%nat) Binary [1; 2]] = Ok bytes ∧
    poll_read (λ _, (0%nat, 0%nat)) 10 1 (mkStream bytes []) (reader_new (λ _, 0) 200) =
      Some (s, w, ReadyOk, [1]) ∧
    poll_iter (λ _, (0%nat, 0%nat)) 0 s w = (s, w, None).
Proof. eexists _, _, _. split; [vm_compute; reflexivity|]. split; vm_compute; reflexivity. Qed.

Definition wit_masked : Frame := mkFrame (Some (1, 2, 3, 4)) (0%nat, 0%nat) Text [10; 20; 30; 40; 50].
Definition wit_buffer : ByteBuffer :=
  mkBuffer [129; 133; 1; 2; 3; 4; 11; 22; 29; 44; 51; 7; 0] 12 13.
Definition wit_reader : WebSocketReader := mkReader true [] (Some wit_buffer) None HaveData.

Lemma reader_returns_whole_frame_witness :
  ∃ w', poll_iter (λ _, (0%nat, 0%nat)) 100 (mkStream [] []) wit_reader =
    (mkStream [] [], w', Some (ReadyOk, [10; 20; 30; 40; 50])).
Proof.
  destruct (reader_returns_whole_frame (λ _, (0%nat, 0%nat)) wit_masked
              [129; 133; 1; 2; 3; 4; 11; 22; 29; 44; 51] [7] wit_buffer (mkStream [] []) wit_reader 100)
    as (w' & b' & H & _); try done; try (split; simpl; lia).
  - intros l. unfold split_ok. simpl. lia.
  - intros m [= <-]. unfold byte_mask, is_byte. simpl. repeat constructor; lia.
  - unfold is_byte. repeat constructor; lia.
  - unfold split_ok. simpl. lia.
  - by exists w'.
Defined.

Definition wit_frames : list Frame :=
  [mkFrame None (0%nat, 0%nat) Binary [1; 2; 3]; mkFrame (Some (1, 2, 3, 4)) (0%nat, 0%nat) Ping [9; 9];
   mkFrame None (0%nat, 0%nat) Continuation [4]].

Lemma reader_delivers_stream_witness :
  ∃ bytes w, encode_frames wit_frames = Ok bytes ∧
    read_all (λ _, (0%nat, 0%nat)) (replicate 8 2%nat) (mkStream bytes [EvBytes 1; EvPending; EvBytes 7])
      (reader_new (λ _, 0) 200) [] = Some ([1; 2; 3; 4], w) ∧ w.(sent) = [Ok (Ping, [9; 9])].
Proof.
  apply (reader_delivers_stream (λ _, (0%nat, 0%nat)) (λ _, 0) 200 wit_frames
           [EvBytes 1; EvPending; EvBytes 7] (replicate 8 2%nat)).
  - intros l. unfold split_ok. simpl. lia.
  - lia.
  - unfold wit_frames. repeat constructor; simpl; try lia; try done; try (intros ? [= <-]);
      unfold byte_mask, is_byte; simpl; repeat constructor; lia.
  - rewrite !not_elem_of_cons. split_and!; [done..|apply not_elem_of_nil].
  - apply Forall_replicate. lia.
  - vm_compute. lia.
Defined.
