(* ===== verification/RateLimiter.v ===== *)
(** * RateLimiter: the token bucket of [proxmox-rate-limiter/src/rate_limiter.rs]

    Instants and durations are counted in nanoseconds; 64-bit and 128-bit
    saturating arithmetic is written out. The shared-memory variant only wraps
    these operations in a lock and is not modelled. *)
From S2P Require Import Prelude.

#[local] Open Scope Z_scope.

Definition u64_max : Z := 2 ^ 64 - 1.
Definition u128_max : Z := 2 ^ 128 - 1.
Definition NANOS : Z := 1000000000.

(** The last [Instant] there is: 64-bit seconds. *)
Definition instant_max : Z := (2 ^ 63 - 1) * NANOS + (NANOS - 1).

Definition u64_sat_add (a b : Z) : Z := Z.min u64_max (a + b).
Definition u64_sat_mul (a b : Z) : Z := Z.min u64_max (a * b).
Definition u128_sat_mul (a b : Z) : Z := Z.min u128_max (a * b).
Definition div_ceil (a b : Z) : Z := (a + b - 1) / b.

Record TbfState := mkTbf { traffic : Z; last_update : Z; consumed_tokens : Z }.

(** [TbfState::refill_bucket] *)
Definition refill_bucket (s : TbfState) (rate current_time : Z) : TbfState :=
  if current_time <? s.(last_update) then s
  else
    let time_diff := current_time - s.(last_update) in
    let allowed_traffic := u128_sat_mul time_diff rate / NANOS in
    if allowed_traffic =? 0 then s
    else if s.(consumed_tokens) <=? allowed_traffic
    then mkTbf s.(traffic) current_time 0
    else
      let used_time := Z.min (div_ceil (u128_sat_mul allowed_traffic NANOS) rate) time_diff in
      let used_time := if used_time <=? u64_max then used_time else u64_max in
      let last_update :=
        if s.(last_update) + used_time <=? instant_max then s.(last_update) + used_time
        else current_time in
      mkTbf s.(traffic) last_update (s.(consumed_tokens) - allowed_traffic).

Definition NO_DELAY : Z := 0.

(** [TbfState::register_traffic] *)
Definition tbf_register_traffic (s : TbfState) (rate bucket_size current_time data_len : Z)
    : TbfState * Z :=
  let s := refill_bucket s rate current_time in
  let s := mkTbf (u64_sat_add s.(traffic) data_len) s.(last_update)
             (u64_sat_add s.(consumed_tokens) data_len) in
  (s, if s.(consumed_tokens) <=? bucket_size then NO_DELAY
      else if rate =? 0 then NO_DELAY
      else u64_sat_mul (s.(consumed_tokens) - bucket_size) NANOS / rate).

Record RateLimiter := mkLimiter { rate : Z; bucket_size : Z; tbf : TbfState }.

(** [RateLimiter::with_start_time] *)
Definition with_start_time (rate bucket_size start_time : Z) : RateLimiter :=
  mkLimiter rate bucket_size (mkTbf 0 start_time bucket_size).

(** [RateLimit::update_rate] *)
Definition update_rate (l : RateLimiter) (rate bucket_size : Z) : RateLimiter :=
  let consumed := l.(tbf).(consumed_tokens) in
  let consumed := if (bucket_size <? l.(RateLimiter.bucket_size)) && (bucket_size <? consumed)
                  then bucket_size else consumed in
  mkLimiter rate bucket_size (mkTbf l.(tbf).(traffic) l.(tbf).(last_update) consumed).

(** [RateLimit::register_traffic] *)
Definition register_traffic (l : RateLimiter) (current_time data_len : Z) : RateLimiter * Z :=
  let '(s, d) := tbf_register_traffic l.(tbf) l.(rate) l.(bucket_size) current_time data_len in
  (mkLimiter l.(rate) l.(bucket_size) s, d).

(** [RateLimiterVec], with its errors for an index out of range. *)
Record RateLimiterVec := mkVec { vec_rate : Z; vec_bucket_size : Z; vec_state : list TbfState }.

Definition vec_with_start_time (group_size : nat) (rate bucket_size start_time : Z) : RateLimiterVec :=
  mkVec rate bucket_size (replicate group_size (mkTbf 0 start_time bucket_size)).

Definition vec_traffic (v : RateLimiterVec) (index : nat) : result Z unit :=
  match v.(vec_state) !! index with
  | Some s => Ok s.(traffic)
  | None => Err tt
  end.

Definition vec_register_traffic (v : RateLimiterVec) (index : nat) (current_time data_len : Z)
    : RateLimiterVec * result Z unit :=
  match v.(vec_state) !! index with
  | Some s =>
      let '(s, d) := tbf_register_traffic s v.(vec_rate) v.(vec_bucket_size) current_time data_len in
      (mkVec v.(vec_rate) v.(vec_bucket_size) (<[index := s]> v.(vec_state)), Ok d)
  | None => (v, Err tt)
  end.

(** A sequence of registrations: final limiter and last delay. *)
Fixpoint register_all (l : RateLimiter) (d : Z) (events : list (Z * Z)) : RateLimiter * Z :=
  match events with
  | [] => (l, d)
  | (t, n) :: events' => let '(l, d) := register_traffic l t n in register_all l d events'
  end.

(** ** The source's tests *)
Definition SECOND : Z := NANOS.
Definition MILLI : Z := 1000000.

Example empty_bucket_delays_until_tokens_are_available :
  (register_traffic (with_start_time 1000 0 5) 5 500).2 = SECOND / 2.
Proof. reflexivity. Qed.

Example refills_at_rates_below_one_token_per_update :
  (register_all (with_start_time 100 0 0) 0
     ((0, 100) :: map (λ i, (i * MILLI, 0)) (seqZ 1 1000) ++ [(1000 * MILLI, 0)])).2 = NO_DELAY.
Proof. vm_compute. reflexivity. Qed.

Example refill_keeps_the_sub_token_remainder :
  (register_all (with_start_time 100 0 0) 0
     ((0, 10) :: map (λ i, (i * MILLI, 0)) (seqZ 1 10) ++ [(10 * MILLI, 0)])).2 = SECOND * 9 / 100.
Proof. vm_compute. reflexivity. Qed.

(** ** Refilling *)
Definition wf_tbf (s : TbfState) : Prop :=
  0 ≤ s.(consumed_tokens) ≤ u64_max ∧ 0 ≤ s.(last_update) < 2 ^ 64.

(** Tokens that a refill hands out. *)
Definition granted_tokens (s s' : TbfState) : Z := s.(consumed_tokens) - s'.(consumed_tokens).

Lemma div_ceil_bounds a b : 0 < b → a ≤ b * div_ceil a b < a + b.
Proof.
  intros Hb. unfold div_ceil. pose proof (Z.mul_div_le (a + b - 1) b Hb).
  pose proof (Z.mul_succ_div_gt (a + b - 1) b Hb). lia.
Qed.

(** A refill never grants more than the rate allows for the time it accounts for,
    loses less than a nanosecond of it, and leaves less than one token's worth of
    time for the next refill, unless the bucket is full. *)
Lemma refill_bucket_spec s r t :
  0 < r ≤ u64_max → wf_tbf s → 0 ≤ t < 2 ^ 64 →
  let s' := refill_bucket s r t in
  wf_tbf s' ∧ s'.(traffic) = s.(traffic) ∧ 0 ≤ granted_tokens s s' ∧
  s.(last_update) ≤ s'.(last_update) ≤ Z.max t s.(last_update) ∧
  granted_tokens s s' * NANOS ≤ r * (s'.(last_update) - s.(last_update)) ∧
  (0 < s'.(consumed_tokens) →
   r * (s'.(last_update) - s.(last_update)) < granted_tokens s s' * NANOS + r ∧
   r * (t - s'.(last_update)) < NANOS).
Proof.
  intros Hr [Hc Hl] Ht s'. unfold s', refill_bucket, granted_tokens, wf_tbf, NANOS, u64_max in *.
  destruct (Z.ltb_spec t (last_update s)).
  { split_and!; simpl; try lia; nia. }
  set (diff := t - last_update s). assert (0 ≤ diff < 2 ^ 64) by (unfold diff; lia).
  assert (u128_sat_mul diff r = diff * r) as -> by (unfold u128_sat_mul, u128_max; nia).
  set (al := diff * r / 1000000000).
  assert (al * 1000000000 ≤ diff * r < al * 1000000000 + 1000000000) as Hal.
  { unfold al. pose proof (Z.mul_div_le (diff * r) 1000000000 ltac:(lia)).
    pose proof (Z.mul_succ_div_gt (diff * r) 1000000000 ltac:(lia)). lia. }
  assert (0 ≤ al) by (apply Z.div_pos; nia). clearbody al.
  destruct (Z.eqb_spec al 0) as [->|].
  { unfold diff in *. split_and!; simpl; try lia; nia. }
  destruct (Z.leb_spec (consumed_tokens s) al); simpl.
  { split_and!; try lia; unfold diff in *; nia. }
  assert (u128_sat_mul al 1000000000 = al * 1000000000) as ->
    by (unfold u128_sat_mul, u128_max; lia).
  pose proof (div_ceil_bounds (al * 1000000000) r ltac:(lia)) as Hd.
  set (used := Z.min (div_ceil (al * 1000000000) r) diff).
  assert (0 ≤ used ≤ diff) as Hu by (unfold used; nia).
  assert (al * 1000000000 ≤ r * used < al * 1000000000 + r) as Hu' by (unfold used; nia).
  assert (r * (diff - used) < 1000000000) as Hleft by nia.
  clearbody used. rewrite (proj2 (Z.leb_le used _)) by lia.
  rewrite (proj2 (Z.leb_le (last_update s + used) _)) by (unfold instant_max, NANOS, diff in *; lia).
  unfold diff in *. split_and!; try lia.
Qed.

(** ** Sequences of registrations *)
Definition total (events : list (Z * Z)) : Z := foldr (λ e acc, e.2 + acc) 0 events.

Lemma total_nonneg events : Forall (λ e, 0 ≤ e.2) events → 0 ≤ total events.
Proof. induction 1; simpl; lia. Qed.

(** The delay the caller is asked for. *)
Definition delay_of (r b consumed : Z) : Z :=
  if consumed <=? b then NO_DELAY
  else if r =? 0 then NO_DELAY else u64_sat_mul (consumed - b) NANOS / r.

(** One registration, without saturation. *)
Lemma register_traffic_spec l t n :
  0 < l.(rate) ≤ u64_max → wf_tbf l.(tbf) → 0 ≤ t < 2 ^ 64 → 0 ≤ n →
  l.(tbf).(consumed_tokens) + n ≤ u64_max → 0 ≤ l.(tbf).(traffic) → l.(tbf).(traffic) + n ≤ u64_max →
  let '(l', d) := register_traffic l t n in
  wf_tbf l'.(tbf) ∧ l'.(rate) = l.(rate) ∧ l'.(bucket_size) = l.(bucket_size) ∧
  l'.(tbf).(traffic) = l.(tbf).(traffic) + n ∧
  d = delay_of l.(rate) l.(bucket_size) l'.(tbf).(consumed_tokens) ∧
  l'.(tbf).(consumed_tokens) ≤ l.(tbf).(consumed_tokens) + n ∧
  l.(tbf).(last_update) ≤ l'.(tbf).(last_update) ≤ Z.max t l.(tbf).(last_update) ∧
  (l.(tbf).(consumed_tokens) + n - l'.(tbf).(consumed_tokens)) * NANOS
    ≤ l.(rate) * (l'.(tbf).(last_update) - l.(tbf).(last_update)).
Proof.
  intros Hr Hwf Ht Hn Hsat Htr Htsat.
  destruct (refill_bucket_spec (tbf l) (rate l) t Hr Hwf Ht) as (Hwf' & Htr' & Hg & Hlu & Hrate & _).
  unfold register_traffic, tbf_register_traffic, granted_tokens in *.
  set (s := refill_bucket (tbf l) (rate l) t) in *. destruct Hwf' as [Hc' Hl'].
  simpl. unfold u64_sat_add, wf_tbf. simpl. rewrite Htr', !Z.min_r by lia.
  split_and!; try done; lia.
Qed.

Lemma register_all_bound l events T d0 :
  0 < l.(rate) ≤ u64_max → wf_tbf l.(tbf) → l.(tbf).(last_update) ≤ T < 2 ^ 64 →
  Forall (λ e, 0 ≤ e.1 ≤ T ∧ 0 ≤ e.2) events →
  l.(tbf).(consumed_tokens) + total events ≤ u64_max →
  0 ≤ l.(tbf).(traffic) → l.(tbf).(traffic) + total events ≤ u64_max →
  let '(l', d) := register_all l d0 events in
  l'.(tbf).(traffic) = l.(tbf).(traffic) + total events ∧
  l.(tbf).(last_update) ≤ l'.(tbf).(last_update) ≤ T ∧
  (events ≠ [] → d = delay_of l.(rate) l.(bucket_size) l'.(tbf).(consumed_tokens)) ∧
  (total events + l.(tbf).(consumed_tokens) - l'.(tbf).(consumed_tokens)) * NANOS
    ≤ l.(rate) * (l'.(tbf).(last_update) - l.(tbf).(last_update)).
Proof.
  revert l d0. induction events as [|[t n] events IH]; intros l d0 Hr Hwf HT He Hsat Htr Htsat.
  { simpl. split_and!; try done; lia. }
  apply Forall_cons in He as [[Ht Hn] He]. simpl in Ht, Hn.
  assert (0 ≤ total events) as Htot
    by (apply total_nonneg; eapply Forall_impl; [exact He|]; simpl; by intros ? [_ ?]).
  cbn [register_all]. cbn [total foldr snd] in *. fold (total events) in *. pose proof (register_traffic_spec l t n Hr Hwf ltac:(lia) Hn ltac:(lia) Htr ltac:(lia)) as H.
  destruct (register_traffic l t n) as [l1 d1].
  destruct H as (Hwf1 & Hr1 & Hb1 & Ht1 & Hd1 & Hc1 & Hl1 & Hg1).
  specialize (IH l1 d1 ltac:(by rewrite Hr1) Hwf1 ltac:(lia) He ltac:(lia) ltac:(lia) ltac:(lia)).
  destruct (register_all l1 d1 events) as [l2 d2] eqn:E. rewrite Hr1, Hb1 in IH.
  destruct IH as (IH1 & IH2 & IH3 & IH4). split; [lia|]. split; [lia|]. split; [|unfold NANOS in *; lia].
  intros _. destruct events; [|by apply IH3]. simpl in E. by injection E as <- <-.
Qed.

(** [C17] A caller that waits for the delays it is given stays within the rate: with a
    positive rate, and amounts and times that do not overflow 64 bits, all the data
    registered with a limiter since its start is at most what the rate allows for the
    time that passed and the last delay, plus one nanosecond, however often and at
    whatever times, in or out of order, it was registered; the limiter counts all of it. *)
Theorem delay_respects_rate r b t0 T events l d :
  0 < r ≤ u64_max → 0 ≤ b → 0 ≤ t0 ≤ T → T < 2 ^ 64 →
  Forall (λ e, 0 ≤ e.1 ≤ T ∧ 0 ≤ e.2) events → events ≠ [] → b + total events ≤ u64_max →
  register_all (with_start_time r b t0) 0 events = (l, d) →
  (l.(tbf).(consumed_tokens) - b) * NANOS ≤ u64_max →
  total events * NANOS < r * (T - t0 + d + 1) ∧ l.(tbf).(traffic) = total events.
Proof.
  intros Hr Hb Ht0 HT He Hne Hsat Hrun Hdebt.
  assert (0 ≤ total events) as Htot
    by (apply total_nonneg; eapply Forall_impl; [exact He|]; simpl; by intros ? [_ ?]).
  pose proof (register_all_bound (with_start_time r b t0) events T 0 Hr) as H. simpl in H.
  rewrite Hrun in H. destruct H as (Htr & Hlu & Hd & Hbound); try lia; try done.
  { unfold wf_tbf. simpl. lia. }
  split; [|lia]. rewrite (Hd Hne). unfold delay_of, u64_sat_mul, NO_DELAY.
  destruct (Z.leb_spec (consumed_tokens (tbf l)) b); [unfold NANOS in *; nia|].
  rewrite (proj2 (Z.eqb_neq r 0)), Z.min_r by lia.
  pose proof (Z.mul_succ_div_gt ((consumed_tokens (tbf l) - b) * NANOS) r ltac:(lia)).
  unfold NANOS in *. nia.
Qed.

(** Frequent refills do not starve the bucket: as long as tokens are
    outstanding, the tokens granted by any number of refills are, up to one
    token and one nanosecond's worth of the rate per refill, what the rate gives
    for the whole time. *)
Theorem refills_lose_little r s times t :
  0 < r ≤ u64_max → wf_tbf s → Forall (λ u, 0 ≤ u < 2 ^ 64) (times ++ [t]) →
  let s' := foldl (λ s u, refill_bucket s r u) s (times ++ [t]) in
  0 < s'.(consumed_tokens) →
  r * (t - s.(last_update)) <
  (s.(consumed_tokens) - s'.(consumed_tokens)) * NANOS + NANOS + r * (Z.of_nat (length times) + 1).
Proof.
  intros Hr. revert s. induction times as [|u times IH]; intros s Hwf Ht s' Hpos.
  - simpl in *. apply Forall_cons in Ht as [Ht _].
    destruct (refill_bucket_spec s r t Hr Hwf Ht) as (_ & _ & _ & _ & _ & H).
    destruct (H Hpos) as [H1 H2]. unfold granted_tokens in *. unfold s'. lia.
  - simpl in Ht. apply Forall_cons in Ht as [Hu Ht].
    destruct (refill_bucket_spec s r u Hr Hwf Hu) as (Hwf1 & _ & _ & _ & _ & H).
    assert (∀ l s, wf_tbf s → Forall (λ u, 0 ≤ u < 2 ^ 64) l →
      consumed_tokens (foldl (λ s u, refill_bucket s r u) s l) ≤ consumed_tokens s) as Hmono.
    { clear -Hr. induction l as [|v l IHl]; intros s Hwf Hl; simpl; [lia|].
      apply Forall_cons in Hl as [Hv Hl].
      destruct (refill_bucket_spec s r v Hr Hwf Hv) as (Hwf1 & _ & Hg & _). unfold granted_tokens in Hg.
      specialize (IHl _ Hwf1 Hl). lia. }
    specialize (Hmono (times ++ [t]) _ Hwf1 Ht). specialize (IH _ Hwf1 Ht). simpl in *.
    fold s' in IH, Hmono. specialize (IH Hpos). destruct (H ltac:(unfold s' in *; lia)) as [H1 _].
    unfold granted_tokens in *. lia.
Qed.

(** ** Witnesses *)
Lemma delay_respects_rate_witness :
  total [(0, 500); (SECOND, 700)] * NANOS < 1000 * (SECOND - 0 + 700000000 + 1).
Proof.
  refine (proj1 (delay_respects_rate 1000 0 0 SECOND [(0, 500); (SECOND, 700)] _ _ _ _ _ _ _ _ _ _ _)).
  - unfold u64_max. lia.
  - lia.
  - unfold SECOND, NANOS. lia.
  - unfold SECOND, NANOS. lia.
  - unfold SECOND, NANOS. repeat constructor; simpl; lia.
  - done.
  - vm_compute. congruence.
  - vm_compute. reflexivity.
  - vm_compute. congruence.
Defined.

Lemma refills_lose_little_witness :
  3 * (1700000000 - 0) < (100 - 95) * NANOS + NANOS + 3 * (Z.of_nat 2 + 1).
Proof.
  refine (refills_lose_little 3 (mkTbf 0 0 100) [100; 900000000] 1700000000 _ _ _ _).
  - unfold u64_max. lia.
  - unfold wf_tbf, u64_max. simpl. lia.
  - repeat constructor; lia.
  - vm_compute. reflexivity.
Defined.
