(* ===== verification/Tfa.v ===== *)
(** * Tfa: second factors, their verification and lock-out

    Models [proxmox-tfa/src/api/mod.rs] and [recovery.rs]: the second factors of a
    user, the challenge file of the user with its failure counters, and
    [TfaConfig::verify] with the verification of each kind of factor. The
    cryptography (HOTP values, HMAC, u2f and webauthn signatures, JSON parsing of
    responses) is a parameter. Registration and challenge creation are not
    modelled. *)
From S2P Require Import Prelude.

#[local] Open Scope Z_scope.

Inductive TfaError :=
| NoSuchChallenge | VerificationFailed | ReusedTotp | StorageError | NotConfigured
| InvalidResponse | CryptoError | NoSuchUser.

Record TfaInfo := mkInfo { id : rstr; enable : bool; description : rstr; created : Z }.
Record TfaEntry (A : Type) := mkEntry { info : TfaInfo; entry : A }.
Arguments mkEntry {A} _ _.
Arguments info {A} _.
Arguments entry {A} _.

Record Recovery := mkRecovery { secret : rstr; entries : list (option rstr); recovery_created : Z }.

(** [OpenUserChallengeData]: the limits an implementation chooses; the source's
    defaults are [default_limits]. *)
Class Limits := mkLimits {
  totp_failure_limit : Z;
  tfa_failure_limit : Z;
  tfa_failure_lock_time : Z;
  enable_lockout : bool;
}.
Definition default_limits : Limits := mkLimits 8 100 3600 true.

Definition CHALLENGE_TIMEOUT_SECS : Z := 2 * 60.

(** What surrounds a call: the clock, whether the challenge file can be opened and
    saved, and whether an instance of webauthn can be made for the origin of the
    call from what is configured. *)
Record Env := mkEnv { now : Z; can_open : bool; can_save : bool; webauthn_builds : bool }.

(** [TotpValue]: a HOTP value, an [u32], with the number of decimal digits. *)
Record TotpValue := mkTotpValue { raw : N; digits : N }.

(** [TotpValue::value]; [10u32.pow] wraps around, and [None] is the panic of the
    remainder by zero. *)
Definition totp_value (v : TotpValue) : option N :=
  let p := (10 ^ v.(digits) mod 2 ^ 32)%N in
  if (p =? 0)%N then None else Some (v.(raw) mod p)%N.

(** [PartialEq<&str> for TotpValue]: the number of bytes, then the number itself. *)
Definition totp_value_eq (v : TotpValue) (other : rstr) : option bool :=
  if negb (utf8_len other =? v.(digits))%N then Some false
  else match parse_uint u32_max other with
       | Some value => (λ x, (x =? value)%N) <$> totp_value v
       | None => Some false
       end.

(** The cryptography and the parsers behind the verification. *)
Class Crypto := mkCrypto {
  Totp : Type;
  U2fRegistration : Type;
  WebauthnCredential : Type;
  WebauthnState : Type;
  Value : Type;
  U2fAuthResponse : Type;
  PublicKeyCredential : Type;
  period : Totp → Z;
  counter : Totp → Z → result TotpValue TfaError;
  hmac : rstr → rstr → result rstr TfaError;
  key_handle : U2fRegistration → rstr;
  response_key_handle : U2fAuthResponse → rstr;
  parse_u2f_response : Value → result U2fAuthResponse TfaError;
  auth_verify_obj : U2fRegistration → rstr → U2fAuthResponse → result bool TfaError;
  parse_webauthn_response : Value → result (rstr * PublicKeyCredential) TfaError;
  finish_securitykey_authentication : PublicKeyCredential → WebauthnState → result unit TfaError;
}.

Section Tfa.
Context {limits : Limits} {crypto : Crypto}.

Record TotpEntry := mkTotp { totp_key : Totp; last_count : Z }.

Record TfaUserData := mkUser {
  totp : list (TfaEntry TotpEntry);
  u2f : list (TfaEntry U2fRegistration);
  webauthn : list (TfaEntry WebauthnCredential);
  recovery : option Recovery;
  yubico : list (TfaEntry rstr);
  totp_locked : bool;
  tfa_locked_until : option Z;
}.

(** An [AuthChallenge] is compared by its challenge and its application id. *)
Definition AuthChallenge : Type := rstr * rstr.
Record U2fChallengeEntry := mkU2fChallenge { u2f_challenge : AuthChallenge; u2f_created : Z }.
Record WebauthnAuthChallenge := mkWaChallenge {
  wa_state : WebauthnState; wa_challenge : rstr; wa_created : Z }.

(** The challenge file of a user. *)
Record TfaUserChallenges := mkChallenges {
  u2f_auths : list U2fChallengeEntry;
  webauthn_auths : list WebauthnAuthChallenge;
  totp_failures : Z;
  tfa_failures : Z;
}.
Definition no_challenges : TfaUserChallenges := mkChallenges [] [] 0 0.

(** The file: [None] if there is none yet. *)
Definition Store : Type := option TfaUserChallenges.

Definition open (env : Env) (st : Store) : result TfaUserChallenges TfaError :=
  if env.(can_open) then Ok (default no_challenges st) else Err StorageError.
Definition open_no_create (env : Env) (st : Store) : result (option TfaUserChallenges) TfaError :=
  if env.(can_open) then Ok st else Err StorageError.
Definition save (env : Env) (st : Store) (data : TfaUserChallenges) : Store * result unit TfaError :=
  if env.(can_save) then (Some data, Ok tt) else (st, Err StorageError).

Definition with_totp_failures (d : TfaUserChallenges) (n : Z) : TfaUserChallenges :=
  mkChallenges d.(u2f_auths) d.(webauthn_auths) n d.(tfa_failures).
Definition with_tfa_failures (d : TfaUserChallenges) (n : Z) : TfaUserChallenges :=
  mkChallenges d.(u2f_auths) d.(webauthn_auths) d.(totp_failures) n.
Definition with_u2f_auths (d : TfaUserChallenges) (l : list U2fChallengeEntry) : TfaUserChallenges :=
  mkChallenges l d.(webauthn_auths) d.(totp_failures) d.(tfa_failures).
Definition with_webauthn_auths (d : TfaUserChallenges) (l : list WebauthnAuthChallenge) : TfaUserChallenges :=
  mkChallenges d.(u2f_auths) l d.(totp_failures) d.(tfa_failures).

(** Open the file, change it, save it. *)
Definition update_challenges (env : Env) (st : Store) (f : TfaUserChallenges → TfaUserChallenges)
    : Store * result unit TfaError :=
  match open env st with
  | Ok d => save env st (f d)
  | Err e => (st, Err e)
  end.

(** A [u32] counter. *)
Definition u32_incr (n : Z) : Z := (n + 1) mod 2 ^ 32.

Definition with_totp (u : TfaUserData) (l : list (TfaEntry TotpEntry)) : TfaUserData :=
  mkUser l u.(u2f) u.(webauthn) u.(recovery) u.(yubico) u.(totp_locked) u.(tfa_locked_until).
Definition with_recovery (u : TfaUserData) (r : option Recovery) : TfaUserData :=
  mkUser u.(totp) u.(u2f) u.(webauthn) r u.(yubico) u.(totp_locked) u.(tfa_locked_until).
Definition with_locks (u : TfaUserData) (tl : bool) (until : option Z) : TfaUserData :=
  mkUser u.(totp) u.(u2f) u.(webauthn) u.(recovery) u.(yubico) tl until.

(** [TfaUserData::tfa_is_locked] *)
Definition tfa_is_locked (env : Env) (u : TfaUserData) : bool :=
  match u.(tfa_locked_until) with
  | Some locked_until => env.(now) <? locked_until
  | None => false
  end.

(** ** TOTP *)

(** [Totp::verify] over the steps -1, 0 and 1: the counter that matches. A counter is
    signed as an [u64]; [None] is a panic. *)
Fixpoint totp_steps (t : Totp) (digits : rstr) (count : Z) (steps : list Z)
    : option (result (option Z) TfaError) :=
  match steps with
  | [] => Some (Ok None)
  | step :: steps' =>
      match counter t ((count + step) mod 2 ^ 64) with
      | Err e => Some (Err e)
      | Ok v =>
          match totp_value_eq v digits with
          | None => None
          | Some true => Some (Ok (Some (count + step)))
          | Some false => totp_steps t digits count steps'
          end
      end
  end.
(** [time_to_counter] divides by the period, which may be zero. *)
Definition totp_verify (env : Env) (t : Totp) (digits : rstr) : option (result (option Z) TfaError) :=
  if env.(now) <? 0 then Some (Err CryptoError)
  else if period t =? 0 then None
  else totp_steps t digits (env.(now) / period t) [-1; 0; 1].

(** The loop of [verify_totp] over the enabled entries: the entries afterwards, the
    file and what it came to. *)
Inductive TotpLoop := NoMatch | Answered (r : result bool TfaError) | LoopPanic.

Fixpoint totp_loop (env : Env) (value : rstr) (l : list (TfaEntry TotpEntry)) (st : Store)
    : list (TfaEntry TotpEntry) * Store * TotpLoop :=
  match l with
  | [] => ([], st, NoMatch)
  | e :: l' =>
      let continue :=
        let '(l'', st', r) := totp_loop env value l' st in (e :: l'', st', r) in
      if e.(info).(enable) then
        match totp_verify env e.(entry).(totp_key) value with
        | None => (l, st, LoopPanic)
        | Some (Err er) => (l, st, Answered (Err er))
        | Some (Ok None) => continue
        | Some (Ok (Some current)) =>
            if enable_lockout && (current <=? e.(entry).(last_count)) then
              match update_challenges env st (λ d, with_totp_failures d (u32_incr d.(totp_failures))) with
              | (st, Ok _) => (l, st, Answered (Err ReusedTotp))
              | (st, Err er) => (l, st, Answered (Err er))
              end
            else
              let l := if enable_lockout
                       then mkEntry e.(info) (mkTotp e.(entry).(totp_key) current) :: l' else l in
              match update_challenges env st (λ d, with_totp_failures d 0) with
              | (st, Ok _) => (l, st, Answered (Ok enable_lockout))
              | (st, Err er) => (l, st, Answered (Err er))
              end
        end
      else continue
  end.

(** [TfaUserData::verify_totp]; [None] is a panic. *)
Definition verify_totp (env : Env) (u : TfaUserData) (value : rstr) (st : Store)
    : TfaUserData * Store * option (result bool TfaError) :=
  match totp_loop env value u.(totp) st with
  | (l, st, Answered r) => (with_totp u l, st, Some r)
  | (l, st, LoopPanic) => (with_totp u l, st, None)
  | (l, st, NoMatch) =>
      match update_challenges env st (λ d, with_totp_failures d (u32_incr d.(totp_failures))) with
      | (st, Ok _) => (with_totp u l, st, Some (Err VerificationFailed))
      | (st, Err er) => (with_totp u l, st, Some (Err er))
      end
  end.

(** ** Recovery keys *)

(** The loop of [Recovery::verify]: the first entry with the hash is used up. *)
Fixpoint use_entry (hash : rstr) (l : list (option rstr)) : option (list (option rstr)) :=
  match l with
  | [] => None
  | e :: l' =>
      if bool_decide (e = Some hash) then Some (None :: l')
      else match use_entry hash l' with
           | Some l'' => Some (e :: l'')
           | None => None
           end
  end.

(** [Recovery::verify] *)
Definition recovery_verify (r : Recovery) (key : rstr) : Recovery * result bool TfaError :=
  match hmac r.(secret) key with
  | Err e => (r, Err e)
  | Ok hash =>
      match use_entry hash r.(entries) with
      | Some l => (mkRecovery r.(secret) l r.(recovery_created), Ok true)
      | None => (r, Ok false)
      end
  end.

(** [Recovery::count_available] *)
Definition count_available (r : Recovery) : nat := length (omap (λ e, e) r.(entries)).

(** [TfaUserData::verify_recovery] *)
Definition verify_recovery (env : Env) (u : TfaUserData) (value : rstr) (st : Store)
    : TfaUserData * Store * result unit TfaError :=
  match u.(recovery) with
  | None => (u, st, Err VerificationFailed)
  | Some r =>
      match recovery_verify r value with
      | (r, Err e) => (with_recovery u (Some r), st, Err e)
      | (r, Ok false) => (with_recovery u (Some r), st, Err VerificationFailed)
      | (r, Ok true) =>
          let u := with_locks (with_recovery u (Some r)) false None in
          match open env st with
          | Err e => (u, st, Err e)
          | Ok d =>
              if d.(totp_failures) =? 0 then (u, st, Ok tt)
              else let '(st, res) := save env st (with_totp_failures d 0) in (u, st, res)
          end
      end
  end.

(** ** Keys with challenges *)
Definition enabled_u2f_entries (u : TfaUserData) : list U2fRegistration :=
  entry <$> List.filter (λ e, e.(info).(enable)) u.(u2f).

(** Find a challenge and take it out of the list. *)
Fixpoint take_challenge {A} (p : A → bool) (l : list A) : option (A * list A) :=
  match l with
  | [] => None
  | a :: l' => if p a then Some (a, l')
               else match take_challenge p l' with
                    | Some (x, l'') => Some (x, a :: l'')
                    | None => None
                    end
  end.

(** [TfaUserData::verify_u2f] *)
Definition verify_u2f (env : Env) (u : TfaUserData) (configured : bool) (challenge : AuthChallenge)
    (response : Value) (st : Store) : Store * result unit TfaError :=
  if negb configured then (st, Err NotConfigured)
  else
    let expire_before := env.(now) - CHALLENGE_TIMEOUT_SECS in
    match parse_u2f_response response with
    | Err e => (st, Err e)
    | Ok response =>
        match List.find (λ e, bool_decide (key_handle e = response_key_handle response))
                (enabled_u2f_entries u) with
        | None => (st, Err VerificationFailed)
        | Some reg =>
            match auth_verify_obj reg challenge.1 response with
            | Err e => (st, Err e)
            | Ok false => (st, Err VerificationFailed)
            | Ok true =>
                match open_no_create env st with
                | Err e => (st, Err e)
                | Ok None => (st, Err NoSuchChallenge)
                | Ok (Some data) =>
                    match take_challenge (λ r, bool_decide (r.(u2f_challenge) = challenge))
                            data.(u2f_auths) with
                    | None => (st, Err NoSuchChallenge)
                    | Some (c, auths) =>
                        if c.(u2f_created) <? expire_before then (st, Err NoSuchChallenge)
                        else save env st (with_u2f_auths data auths)
                    end
                end
            end
        end
    end.

(** [TfaUserData::verify_webauthn]; [check_webauthn] takes a configuration from which an
    instance can be made. *)
Definition verify_webauthn (env : Env) (configured : bool) (response : Value) (st : Store)
    : Store * result unit TfaError :=
  if negb (configured && env.(webauthn_builds)) then (st, Err NotConfigured)
  else
    let expire_before := env.(now) - CHALLENGE_TIMEOUT_SECS in
    match parse_webauthn_response response with
    | Err e => (st, Err e)
    | Ok (challenge, response) =>
        match open_no_create env st with
        | Err e => (st, Err e)
        | Ok None => (st, Err NoSuchChallenge)
        | Ok (Some data) =>
            match take_challenge (λ r, bool_decide (r.(wa_challenge) = challenge))
                    data.(webauthn_auths) with
            | None => (st, Err NoSuchChallenge)
            | Some (c, auths) =>
                if c.(wa_created) <? expire_before then (st, Err NoSuchChallenge)
                else
                  match save env st (with_webauthn_auths data auths) with
                  | (st, Err e) => (st, Err e)
                  | (st, Ok _) => (st, finish_securitykey_authentication response c.(wa_state))
                  end
            end
        end
    end.

(** ** Verification *)
Inductive TfaResponse :=
| ResTotp (value : rstr)
| ResU2f (value : Value)
| ResWebauthn (value : Value)
| ResRecovery (value : rstr).

Inductive TfaResult :=
| Success (needs_saving : bool)
| Failure (needs_saving totp_limit_reached tfa_limit_reached : bool)
| Locked
| Panicked.

Record TfaConfig := mkConfig {
  u2f_configured : bool;
  webauthn_configured : bool;
  users : gmap rstr TfaUserData;
}.

Definition is_totp (r : TfaResponse) : bool := match r with ResTotp _ => true | _ => false end.

(** The match of [TfaConfig::verify] over the response. *)
Definition verify_factor (env : Env) (cfg : TfaConfig) (u : TfaUserData)
    (challenge : option AuthChallenge) (r : TfaResponse) (st : Store)
    : TfaUserData * Store * option (result bool TfaError) :=
  match r with
  | ResTotp value => verify_totp env u value st
  | ResU2f value =>
      match challenge with
      | Some challenge =>
          let '(st, r) := verify_u2f env u cfg.(u2f_configured) challenge value st in
          (u, st, Some (let? _ := r in Ok false))
      | None => (u, st, Some (Err VerificationFailed))
      end
  | ResWebauthn value =>
      let '(st, r) := verify_webauthn env cfg.(webauthn_configured) value st in
      (u, st, Some (let? _ := r in Ok false))
  | ResRecovery value =>
      let '(u, st, r) := verify_recovery env u value st in (u, st, Some (let? _ := r in Ok true))
  end.

(** After a success the failure counters are reset. *)
Definition after_success (env : Env) (was_totp : bool) (st : Store) : Store :=
  match open env st with
  | Err _ => st
  | Ok d =>
      let reset_totp := was_totp && negb (d.(totp_failures) =? 0) in
      let d := if reset_totp then with_totp_failures d 0 else d in
      let reset_tfa := negb (d.(tfa_failures) =? 0) in
      let d := if reset_tfa then with_tfa_failures d 0 else d in
      if reset_totp || reset_tfa then (save env st d).1 else st
  end.

(** After a failure they are checked against the limits. *)
Definition after_failure (env : Env) (was_totp : bool) (u : TfaUserData) (st : Store)
    : TfaUserData * Store * TfaResult :=
  match open env st with
  | Err _ => (u, st, Failure false false false)
  | Ok d =>
      let d := with_tfa_failures d (u32_incr d.(tfa_failures)) in
      let tfa_limit_reached := tfa_failure_limit <=? d.(tfa_failures) in
      let totp_limit_reached := was_totp && (totp_failure_limit <=? d.(totp_failures)) in
      let st := (save env st d).1 in
      if negb tfa_limit_reached && negb totp_limit_reached then (u, st, Failure false false false)
      else
        let tl := if totp_limit_reached then enable_lockout else u.(totp_locked) in
        let until := if tfa_limit_reached && enable_lockout
                     then Some (env.(now) + tfa_failure_lock_time) else u.(tfa_locked_until) in
        (with_locks u tl until, st, Failure true totp_limit_reached tfa_limit_reached)
  end.

(** [TfaConfig::verify] for a user that has second factors. *)
Definition verify_user (env : Env) (cfg : TfaConfig) (u : TfaUserData)
    (challenge : option AuthChallenge) (r : TfaResponse) (st : Store)
    : TfaUserData * Store * TfaResult :=
  if tfa_is_locked env u then (u, st, Locked)
  else if is_totp r && u.(totp_locked) then (u, st, Locked)
  else match verify_factor env cfg u challenge r st with
       | (u, st, None) => (u, st, Panicked)
       | (u, st, Some (Ok needs_saving)) => (u, after_success env (is_totp r) st, Success needs_saving)
       | (u, st, Some (Err _)) => after_failure env (is_totp r) u st
       end.

(** [TfaConfig::verify] *)
Definition verify (env : Env) (cfg : TfaConfig) (userid : rstr) (challenge : option AuthChallenge)
    (r : TfaResponse) (st : Store) : TfaConfig * Store * TfaResult :=
  match cfg.(users) !! userid with
  | None => (cfg, st, Failure false false false)
  | Some u =>
      let '(u, st, res) := verify_user env cfg u challenge r st in
      (mkConfig cfg.(u2f_configured) cfg.(webauthn_configured) (<[userid := u]> cfg.(users)), st, res)
  end.

(** [TfaConfig::unlock_and_reset_tfa] *)
Definition unlock_and_reset_tfa (env : Env) (cfg : TfaConfig) (userid : rstr) (st : Store)
    : TfaConfig * Store * result bool TfaError :=
  let finish st :=
    match cfg.(users) !! userid with
    | Some u =>
        (mkConfig cfg.(u2f_configured) cfg.(webauthn_configured)
           (<[userid := with_locks u false None]> cfg.(users)),
         st, Ok (u.(totp_locked) || tfa_is_locked env u))
    | None => (cfg, st, Err NoSuchUser)
    end in
  match open_no_create env st with
  | Err e => (cfg, st, Err e)
  | Ok None => finish st
  | Ok (Some d) =>
      if negb (d.(totp_failures) =? 0) || negb (d.(tfa_failures) =? 0) then
        match save env st (with_tfa_failures (with_totp_failures d 0) 0) with
        | (st, Err e) => (cfg, st, Err e)
        | (st, Ok _) => finish st
        end
      else finish st
  end.

(** [TfaConfig::unlock_and_reset_totp] *)
Definition unlock_and_reset_totp (env : Env) (cfg : TfaConfig) (userid : rstr) (st : Store)
    : TfaConfig * Store * result unit TfaError :=
  let finish st :=
    match cfg.(users) !! userid with
    | Some u =>
        (mkConfig cfg.(u2f_configured) cfg.(webauthn_configured)
           (<[userid := with_locks u false u.(tfa_locked_until)]> cfg.(users)), st, Ok tt)
    | None => (cfg, st, Err NoSuchChallenge)
    end in
  match open_no_create env st with
  | Err e => (cfg, st, Err e)
  | Ok None => finish st
  | Ok (Some d) =>
      if negb (d.(totp_failures) =? 0) then
        match save env st (with_totp_failures d 0) with
        | (st, Err e) => (cfg, st, Err e)
        | (st, Ok _) => finish st
        end
      else finish st
  end.

(** A sequence of verifications for one user; the results with their requests. *)
Definition Request : Type := Env * option AuthChallenge * TfaResponse.

Fixpoint verify_run (cfg : TfaConfig) (userid : rstr) (l : list Request) (st : Store)
    : TfaConfig * Store * list (TfaResponse * TfaResult) :=
  match l with
  | [] => (cfg, st, [])
  | (env, challenge, r) :: l' =>
      let '(cfg, st, res) := verify env cfg userid challenge r st in
      let '(cfg, st, out) := verify_run cfg userid l' st in
      (cfg, st, (r, res) :: out)
  end.
End Tfa.
