(* ===== verification/TfaTheory.v ===== *)
(** * TfaTheory: what the lock-out and the one-time factors guarantee *)
From S2P Require Import Prelude Tfa.

#[local] Open Scope Z_scope.

Section Theory.
Context {limits : Limits} {crypto : Crypto}.

(** A call whose challenge file can be opened and saved, after the epoch. *)
Definition working (env : Env) : Prop :=
  env.(can_open) = true ∧ env.(can_save) = true ∧ 0 ≤ env.(now).

(** The TOTP failures in the file. *)
Definition failures (st : Store) : Z := (default no_challenges st).(totp_failures).

Lemma update_challenges_working env st f :
  working env → update_challenges env st f = (Some (f (default no_challenges st)), Ok tt).
Proof. intros (Ho & Hs & _). unfold update_challenges, open, save. by rewrite Ho, Hs. Qed.

(** ** TOTP entries *)

(** The text [v] is the code of the counter [c]. *)
Definition code_of (t : Totp) (c : Z) (v : rstr) : Prop :=
  ∃ w, counter t (c mod 2 ^ 64) = Ok w ∧ totp_value_eq w v = Some true.

(** A new value for entry [i], accepted for the code [v]: its counter is new, near
    the current time, and belongs to the code. *)
Definition accepts (env : Env) (l l' : list (TfaEntry TotpEntry)) (v : rstr) (i : nat) (c : Z) : Prop :=
  ∃ e, l !! i = Some e ∧ e.(info).(enable) = true ∧ e.(entry).(last_count) < c ∧
    code_of e.(entry).(totp_key) c v ∧
    Z.abs (c - env.(now) / period e.(entry).(totp_key)) ≤ 1 ∧
    l' = <[i := mkEntry e.(info) (mkTotp e.(entry).(totp_key) c)]> l.

(** Keys stay and counters never go back. *)
Definition counts_grow (l l' : list (TfaEntry TotpEntry)) : Prop :=
  Forall2 (λ e e', e'.(entry).(totp_key) = e.(entry).(totp_key) ∧
                   e.(entry).(last_count) ≤ e'.(entry).(last_count)) l l'.

#[export] Instance counts_grow_preorder : PreOrder counts_grow.
Proof.
  split.
  - intros l. unfold counts_grow. induction l; constructor; auto. split; [done|lia].
  - intros l1 l2 l3 H12. revert l3. induction H12 as [|e1 e2 l1 l2 [Hk Hl] H IH]; intros l3 H23;
      inversion H23 as [|? e3 ? l4 [Hk' Hl'] H']; subst; constructor; [|by apply IH].
    split; [congruence|lia].
Qed.

Lemma totp_verify_some env t v c :
  totp_verify env t v = Some (Ok (Some c)) → code_of t c v ∧ Z.abs (c - env.(now) / period t) ≤ 1.
Proof.
  unfold totp_verify. destruct (now env <? 0); [done|]. destruct (period t =? 0); [done|].
  generalize (now env / period t). intros k.
  assert (∀ steps, Forall (λ s, Z.abs s ≤ 1) steps → totp_steps t v k steps = Some (Ok (Some c)) →
            code_of t c v ∧ Z.abs (c - k) ≤ 1) as H; [|apply H; repeat constructor; lia].
  induction steps as [|s steps IH]; intros Hs; [done|]. apply Forall_cons in Hs as [Hs Hss]. cbn [totp_steps].
  destruct (counter t ((k + s) mod 2 ^ 64)) as [w|] eqn:E; [|done].
  destruct (totp_value_eq w v) as [[]|] eqn:Ew; [|by apply IH|done]. intros [= <-]. split; [by exists w|lia].
Qed.

Lemma totp_loop_ok env v l st l' st' b :
  enable_lockout = true → totp_loop env v l st = (l', st', Answered (Ok b)) →
  ∃ i c, accepts env l l' v i c.
Proof.
  intros Hl. revert l' st'. induction l as [|e l IH]; intros l' st'; [done|]. cbn [totp_loop].
  assert ((let '(l'', st'', r) := totp_loop env v l st in (e :: l'', st'', r)) =
          (l', st', Answered (Ok b)) → ∃ i c, accepts env (e :: l) l' v i c) as Hnext.
  { destruct (totp_loop env v l st) as [[l2 st2] r]. intros [= <- <- ->].
    destruct (IH _ _ eq_refl) as (i & c & e' & H1 & H2 & H3 & H4 & H5 & ->).
    by exists (S i), c, e'. }
  destruct (enable (info e)) eqn:Hen; [|exact Hnext].
  destruct (totp_verify env _ v) as [[[c|]|]|] eqn:Hv; [|exact Hnext|done|done].
  rewrite Hl. simpl. destruct (Z.leb_spec c (last_count (entry e))).
  - by destruct (update_challenges env st _) as [? [[]|]].
  - destruct (update_challenges env st _) as [? [[]|]]; [|done]. intros [= <- _ _].
    apply totp_verify_some in Hv as [Hc Hw]. exists 0%nat, c, e. split_and!; try done; lia.
Qed.

Lemma totp_loop_grow env v l st : counts_grow l (totp_loop env v l st).1.1.
Proof.
  induction l as [|e l IH]; cbn [totp_loop]; [reflexivity|].
  assert (counts_grow (e :: l) ((let '(l'', st'', r) := totp_loop env v l st in (e :: l'', st'', r)).1.1))
    as Hnext.
  { destruct (totp_loop env v l st) as [[l2 st2] r]. simpl in *. constructor; [split; [done|lia]|done]. }
  destruct (enable (info e)); [|exact Hnext].
  destruct (totp_verify env _ v) as [[[c|]|]|]; [|exact Hnext|reflexivity|reflexivity].
  destruct (enable_lockout && (c <=? _)) eqn:Hre.
  - destruct (update_challenges env st _) as [? []]; reflexivity.
  - destruct enable_lockout; simpl in *; destruct (update_challenges env st _) as [? []];
      try reflexivity; (constructor; [split; simpl; [done|lia]|reflexivity]).
Qed.

Lemma after_failure_user env b u st :
  let '(u', st', res) := after_failure env b u st in
  u'.(totp) = u.(totp) ∧ u'.(recovery) = u.(recovery) ∧ (∀ n, res ≠ Success n) ∧ res ≠ Locked ∧ res ≠ Panicked.
Proof.
  unfold after_failure. destruct (open env st); [|by split_and!]. by destruct (_ && _); split_and!.
Qed.

Lemma verify_recovery_user env u v st :
  let '(u', _, _) := verify_recovery env u v st in u'.(totp) = u.(totp).
Proof.
  unfold verify_recovery. destruct (recovery u); [|done].
  destruct (recovery_verify _ v) as [r' [[]|]]; [|done|done]. destruct (open env st); [|done].
  destruct (_ =? 0); [done|]. by destruct (save env st _).
Qed.

(** Every verification keeps the keys and the order of the counters. *)
Lemma verify_user_grow env cfg u ch r st :
  counts_grow u.(totp) (verify_user env cfg u ch r st).1.1.(totp).
Proof.
  unfold verify_user. destruct (tfa_is_locked env u); [reflexivity|].
  destruct (is_totp r && _); [reflexivity|].
  assert (counts_grow (totp u) (verify_factor env cfg u ch r st).1.1.(totp)) as Hf.
  { destruct r as [v|v|v|v]; simpl.
    - unfold verify_totp. pose proof (totp_loop_grow env v (totp u) st) as Hg.
      destruct (totp_loop env v (totp u) st) as [[l st'] [|[]|]]; simpl in *; try done.
      by destruct (update_challenges env st' _) as [? []].
    - destruct ch; [|reflexivity]. by destruct (verify_u2f _ _ _ _ _ _).
    - by destruct (verify_webauthn _ _ _ _).
    - pose proof (verify_recovery_user env u v st) as H.
      destruct (verify_recovery env u v st) as [[u' ?] ?]. simpl. by rewrite H. }
  destruct (verify_factor env cfg u ch r st) as [[u' st'] [[n|e]|]]; simpl in *; [done| |done].
  pose proof (after_failure_user env (is_totp r) u' st') as H.
  destruct (after_failure env (is_totp r) u' st') as [[u'' ?] ?]. simpl. by destruct H as [-> _].
Qed.

Lemma verify_user_totp_success env cfg u ch v st n :
  enable_lockout = true → (verify_user env cfg u ch (ResTotp v) st).2 = Success n →
  ∃ i c, accepts env u.(totp) (verify_user env cfg u ch (ResTotp v) st).1.1.(totp) v i c.
Proof.
  intros Hl. unfold verify_user. destruct (tfa_is_locked env u); [done|].
  destruct (is_totp (ResTotp v) && _); [done|]. simpl. unfold verify_totp.
  destruct (totp_loop env v (totp u) st) as [[l st'] [|[b|er]|]] eqn:E.
  - destruct (update_challenges env st' _) as [st2 [[]|]];
      pose proof (after_failure_user env true (with_totp u l) st2) as H;
      destruct (after_failure env true (with_totp u l) st2) as [[? ?] res]; simpl;
      destruct H as (_ & _ & H & _); intros ->; by destruct (H n).
  - intros _. simpl. by eapply totp_loop_ok.
  - pose proof (after_failure_user env true (with_totp u l) st') as H.
    destruct (after_failure env true (with_totp u l) st') as [[? ?] res]. simpl.
    destruct H as (_ & _ & H & _). intros ->. by destruct (H n).
  - done.
Qed.

(** ** Configurations and runs *)
Definition totp_of (cfg : TfaConfig) (userid : rstr) : list (TfaEntry TotpEntry) :=
  match cfg.(users) !! userid with Some u => u.(totp) | None => [] end.

Lemma verify_some env cfg userid u ch r st :
  cfg.(users) !! userid = Some u →
  let out := verify_user env cfg u ch r st in
  ∃ cfg', verify env cfg userid ch r st = (cfg', out.1.2, out.2) ∧ cfg'.(users) !! userid = Some out.1.1.
Proof.
  intros Hu. unfold verify. rewrite Hu. destruct (verify_user env cfg u ch r st) as [[u' st'] res].
  eexists. split; [done|]. simpl. apply lookup_insert_eq.
Qed.

(** A successful verification, seen at the user. *)
Lemma verify_success env cfg userid ch r st cfg' st' n :
  verify env cfg userid ch r st = (cfg', st', Success n) →
  ∃ u, cfg.(users) !! userid = Some u ∧ (verify_user env cfg u ch r st).2 = Success n ∧
    cfg'.(users) !! userid = Some (verify_user env cfg u ch r st).1.1.
Proof.
  intros H. destruct (users cfg !! userid) as [u|] eqn:Hu; [|by unfold verify in H; rewrite Hu in H].
  destruct (verify_some env cfg userid u ch r st Hu) as (c & E & Hc).
  rewrite H in E. injection E as -> _ E. by exists u.
Qed.

Lemma verify_grow env cfg userid ch r st :
  counts_grow (totp_of cfg userid) (totp_of (verify env cfg userid ch r st).1.1 userid).
Proof.
  destruct (users cfg !! userid) as [u|] eqn:Hu.
  - destruct (verify_some env cfg userid u ch r st Hu) as (cfg' & -> & Hu').
    unfold totp_of. simpl. rewrite Hu, Hu'. apply verify_user_grow.
  - unfold verify. rewrite Hu. simpl. reflexivity.
Qed.

Lemma verify_run_grow cfg userid l st :
  counts_grow (totp_of cfg userid) (totp_of (verify_run cfg userid l st).1.1 userid).
Proof.
  revert cfg st. induction l as [|[[env ch] r] l IH]; intros cfg st; simpl; [reflexivity|].
  pose proof (verify_grow env cfg userid ch r st) as H.
  destruct (verify env cfg userid ch r st) as [[cfg1 st1] res]. simpl in H.
  specialize (IH cfg1 st1). destruct (verify_run cfg1 userid l st1) as [[cfg2 st2] out].
  simpl in *. by etransitivity.
Qed.

Lemma verify_totp_success env cfg userid ch v st cfg' st' n :
  enable_lockout = true → verify env cfg userid ch (ResTotp v) st = (cfg', st', Success n) →
  ∃ i c, accepts env (totp_of cfg userid) (totp_of cfg' userid) v i c.
Proof.
  intros Hl (u & Hu & Hs & Hu')%verify_success. unfold totp_of. rewrite Hu, Hu'.
  by eapply verify_user_totp_success.
Qed.

(** [C7] A TOTP code is good for one login, with the lockout enabled: each successful
    verification uses an enabled key and a counter of it, next to the current time,
    whose code is the given text in the sense of the code (the length in bytes and the
    decimal number agree). If two verifications of a user succeed with the same key,
    whatever further verifications of this user are made in between, the counter of the
    later one is greater. This does not depend on the challenge file being writable. *)
Theorem totp_counter_accepted_once userid env1 env2 cfg ch1 ch2 v1 v2 st cfg1 st1 n1 l cfg2 st2 out
    cfg3 st3 n2 :
  enable_lockout = true →
  verify env1 cfg userid ch1 (ResTotp v1) st = (cfg1, st1, Success n1) →
  verify_run cfg1 userid l st1 = (cfg2, st2, out) →
  verify env2 cfg2 userid ch2 (ResTotp v2) st2 = (cfg3, st3, Success n2) →
  ∃ i c1 j c2, accepts env1 (totp_of cfg userid) (totp_of cfg1 userid) v1 i c1 ∧
    accepts env2 (totp_of cfg2 userid) (totp_of cfg3 userid) v2 j c2 ∧ (i = j → c1 < c2).
Proof.
  intros Hl H1 Hrun H2. apply verify_totp_success in H1 as (i & c1 & A1); [|done].
  apply verify_totp_success in H2 as (j & c2 & A2); [|done].
  exists i, c1, j, c2. split_and!; [done|done|]. intros <-.
  destruct A1 as (e1 & L1 & _ & _ & _ & _ & E1). destruct A2 as (e2 & L2 & _ & Hlt & _ & _ & _).
  pose proof (verify_run_grow cfg1 userid l st1) as Hg. rewrite Hrun, E1 in Hg. simpl in Hg.
  unfold counts_grow in Hg.
  destruct (Forall2_lookup_r _ _ _ i e2 Hg L2) as (e & Le & _ & Hle).
  rewrite list_lookup_insert_eq in Le by by eapply lookup_lt_Some.
  injection Le as <-. simpl in Hle. lia.
Qed.

(** ** Recovery keys *)
Definition recovery_of (cfg : TfaConfig) (userid : rstr) : option Recovery :=
  match cfg.(users) !! userid with Some u => u.(recovery) | None => None end.

(** Keys only disappear. *)
Definition keys_used (r r' : option Recovery) : Prop :=
  match r, r' with
  | Some r, Some r' =>
      r'.(secret) = r.(secret) ∧ Forall2 (λ e e', e' = e ∨ e' = None) r.(entries) r'.(entries)
  | None, None => True
  | _, _ => False
  end.

#[export] Instance keys_used_preorder : PreOrder keys_used.
Proof.
  split.
  - intros [r|]; simpl; [|done]. split; [done|]. induction (entries r); constructor; auto.
  - intros [r1|] [r2|] [r3|]; simpl; try done. intros [-> H12] [-> H23]. split; [done|].
    revert H23. generalize (entries r3) as l3. induction H12 as [|e1 e2 l1 l2 He H IH];
      intros l3 H23; inversion H23 as [|? e3 ? l4 He' H']; subst; constructor; [|by apply IH].
    destruct He' as [->| ->]; auto.
Qed.

(** No two entries are the hash of the same key. *)
Definition distinct_keys (r : Recovery) : Prop :=
  ∀ h i j, r.(entries) !! i = Some (Some h) → r.(entries) !! j = Some (Some h) → i = j.

Lemma use_entry_some h l l' :
  use_entry h l = Some l' → ∃ i, l !! i = Some (Some h) ∧ l' = <[i := None]> l.
Proof.
  revert l'. induction l as [|e l IH]; intros l'; simpl; [done|].
  case_bool_decide as He; [intros [= <-]; subst e; by exists 0%nat|].
  destruct (use_entry h l) as [l2|]; [|done]. intros [= <-].
  destruct (IH _ eq_refl) as (i & Hi & ->). by exists (S i).
Qed.

Lemma use_entry_none h l : Some h ∉ l → use_entry h l = None.
Proof.
  induction l as [|e l IH]; simpl; [done|]. rewrite not_elem_of_cons. intros [He Hl].
  rewrite bool_decide_false by congruence. by rewrite IH.
Qed.

Lemma use_entry_keys h l l' : use_entry h l = Some l' → Forall2 (λ e e', e' = e ∨ e' = None) l l'.
Proof.
  revert l'. induction l as [|e l IH]; intros l'; simpl; [done|].
  case_bool_decide as He.
  - intros [= <-]. constructor; [by right|]. clear. induction l; constructor; auto.
  - destruct (use_entry h l) as [l2|]; [|done]. intros [= <-]. constructor; auto.
Qed.

Lemma recovery_verify_keys r key : keys_used (Some r) (Some (recovery_verify r key).1).
Proof.
  unfold recovery_verify. destruct (hmac _ _) as [h|]; [|reflexivity].
  destruct (use_entry h (entries r)) as [l|] eqn:E; [|reflexivity].
  split; [done|]. by eapply use_entry_keys.
Qed.

Lemma verify_recovery_keys env u v st :
  keys_used u.(recovery) (verify_recovery env u v st).1.1.(recovery).
Proof.
  unfold verify_recovery. destruct (recovery u) as [r|] eqn:Hr; [|simpl; by rewrite Hr].
  pose proof (recovery_verify_keys r v) as H.
  destruct (recovery_verify r v) as [r' [[]|]]; [|done|done]. destruct (open env st); [|done].
  destruct (_ =? 0); [done|]. by destruct (save env st _).
Qed.

Lemma verify_user_keys env cfg u ch r st :
  keys_used u.(recovery) (verify_user env cfg u ch r st).1.1.(recovery).
Proof.
  unfold verify_user. destruct (tfa_is_locked env u); [reflexivity|].
  destruct (is_totp r && _); [reflexivity|].
  assert (keys_used (recovery u) (verify_factor env cfg u ch r st).1.1.(recovery)) as Hf.
  { destruct r as [v|v|v|v]; simpl.
    - unfold verify_totp. destruct (totp_loop env v (totp u) st) as [[l st'] [|[]|]]; try reflexivity.
      destruct (update_challenges env st' _) as [? []]; reflexivity.
    - destruct ch; [|reflexivity]. destruct (verify_u2f _ _ _ _ _ _). reflexivity.
    - destruct (verify_webauthn _ _ _ _). reflexivity.
    - pose proof (verify_recovery_keys env u v st) as H.
      by destruct (verify_recovery env u v st) as [[u' ?] ?]. }
  destruct (verify_factor env cfg u ch r st) as [[u' st'] [[n|e]|]]; simpl in *; [done| |done].
  pose proof (after_failure_user env (is_totp r) u' st') as H.
  destruct (after_failure env (is_totp r) u' st') as [[u'' ?] ?]. simpl.
  by destruct H as (_ & -> & _).
Qed.

Lemma verify_run_keys cfg userid l st :
  keys_used (recovery_of cfg userid) (recovery_of (verify_run cfg userid l st).1.1 userid).
Proof.
  revert cfg st. induction l as [|[[env ch] r] l IH]; intros cfg st; simpl; [reflexivity|].
  assert (keys_used (recovery_of cfg userid)
            (recovery_of (verify env cfg userid ch r st).1.1 userid)) as H.
  { destruct (users cfg !! userid) as [u|] eqn:Hu.
    - destruct (verify_some env cfg userid u ch r st Hu) as (cfg' & -> & Hu').
      unfold recovery_of. simpl. rewrite Hu, Hu'. apply verify_user_keys.
    - unfold verify. rewrite Hu. simpl. reflexivity. }
  destruct (verify env cfg userid ch r st) as [[cfg1 st1] res]. simpl in H.
  specialize (IH cfg1 st1). destruct (verify_run cfg1 userid l st1) as [[cfg2 st2] out].
  simpl in *. by etransitivity.
Qed.

Lemma after_failure_not_success env b u st n : (after_failure env b u st).2 ≠ Success n.
Proof.
  pose proof (after_failure_user env b u st) as H.
  destruct (after_failure env b u st) as [[? ?] ?]. by destruct H as (_ & _ & H & _).
Qed.

(** A success with a recovery key uses up one entry with its hash. *)
Lemma verify_user_recovery_success env cfg u ch v st n :
  (verify_user env cfg u ch (ResRecovery v) st).2 = Success n →
  ∃ r h i, u.(recovery) = Some r ∧ hmac r.(secret) v = Ok h ∧ r.(entries) !! i = Some (Some h) ∧
    (verify_user env cfg u ch (ResRecovery v) st).1.1.(recovery) =
      Some (mkRecovery r.(secret) (<[i := None]> r.(entries)) r.(recovery_created)).
Proof.
  unfold verify_user. destruct (tfa_is_locked env u); [done|]. simpl. unfold verify_recovery.
  destruct (recovery u) as [r|]; [|intros []%after_failure_not_success].
  unfold recovery_verify.
  destruct (hmac (secret r) v) as [h|] eqn:Eh; [|intros []%after_failure_not_success].
  destruct (use_entry h (entries r)) as [l'|] eqn:E; [|intros []%after_failure_not_success].
  apply use_entry_some in E as (i & Hi & ->).
  destruct (open env st) as [d|]; [|intros []%after_failure_not_success].
  destruct (totp_failures d =? 0); [intros _; by exists r, h, i|].
  destruct (save env st _) as [st2 [[]|]]; [intros _; by exists r, h, i|].
  intros []%after_failure_not_success.
Qed.

(** A recovery key is good for one login: once it was accepted, it is never
    accepted again, whatever other verifications happen in between, if the keys
    of the set are distinct. *)
Theorem recovery_key_once userid env1 env2 cfg ch1 ch2 v st cfg1 st1 n l cfg2 st2 out r :
  recovery_of cfg userid = Some r → distinct_keys r →
  verify env1 cfg userid ch1 (ResRecovery v) st = (cfg1, st1, Success n) →
  verify_run cfg1 userid l st1 = (cfg2, st2, out) →
  ∀ m, (verify env2 cfg2 userid ch2 (ResRecovery v) st2).2 ≠ Success m.
Proof.
  intros Hr Hd H1 Hrun m Hm.
  apply verify_success in H1 as (u & Hu & Hs & Hu1).
  apply verify_user_recovery_success in Hs as (r0 & h & i & Hr0 & Hh & Hi & Hr1).
  unfold recovery_of in Hr. rewrite Hu, Hr0 in Hr. injection Hr as ->.
  destruct (verify env2 cfg2 userid ch2 (ResRecovery v) st2) as [[cfg3 st3] res] eqn:H2.
  simpl in Hm. subst res. apply verify_success in H2 as (u2 & Hu2 & Hs2 & _).
  apply verify_user_recovery_success in Hs2 as (r2 & h2 & j & Hr2 & Hh2 & Hj & _).
  pose proof (verify_run_keys cfg1 userid l st1) as Hk. rewrite Hrun in Hk. simpl in Hk.
  unfold recovery_of in Hk. rewrite Hu1, Hr1, Hu2, Hr2 in Hk. destruct Hk as [Hsec Hk].
  simpl in Hsec, Hk. rewrite Hsec, Hh in Hh2. injection Hh2 as <-.
  destruct (Forall2_lookup_r _ _ _ j (Some h) Hk Hj) as (e & He & [<-|[=]]).
  destruct (decide (i = j)) as [<-|Hne].
  - rewrite list_lookup_insert_eq in He by by eapply lookup_lt_Some. done.
  - rewrite list_lookup_insert_ne in He by done. by destruct Hne; eapply Hd.
Qed.

(** ** The lock on all factors *)
Lemma after_failure_tfa env b u st ns tl :
  enable_lockout = true → (after_failure env b u st).2 = Failure ns tl true →
  (after_failure env b u st).1.1.(tfa_locked_until) = Some (env.(now) + tfa_failure_lock_time).
Proof.
  intros Hl. unfold after_failure. destruct (open env st) as [d|]; [|done]. simpl.
  destruct (_ <=? u32_incr (tfa_failures d)); simpl; [by rewrite Hl|].
  by destruct (negb (b && _)).
Qed.

Lemma verify_user_tfa env cfg u ch r st ns tl :
  enable_lockout = true → (verify_user env cfg u ch r st).2 = Failure ns tl true →
  (verify_user env cfg u ch r st).1.1.(tfa_locked_until) = Some (env.(now) + tfa_failure_lock_time).
Proof.
  intros Hl. unfold verify_user. destruct (tfa_is_locked env u); [done|].
  destruct (is_totp r && _); [done|].
  destruct (verify_factor env cfg u ch r st) as [[u' st'] [[n|e]|]]; [done| |done].
  by apply after_failure_tfa.
Qed.

(** [C38] With the lockout enabled, as it is by default, the failure that reaches the
    limit of second factors locks the user: until the lock time is over, every
    verification with any factor is answered with [Locked] and changes neither the
    configuration nor the challenge file. *)
Theorem tfa_lock_holds userid env cfg ch r st cfg1 st1 ns tl l :
  enable_lockout = true →
  verify env cfg userid ch r st = (cfg1, st1, Failure ns tl true) →
  Forall (λ q : Request, q.1.1.(now) < env.(now) + tfa_failure_lock_time) l →
  verify_run cfg1 userid l st1 = (cfg1, st1, (λ q : Request, (q.2, Locked)) <$> l).
Proof.
  intros Hl H Hq.
  assert (∃ u, cfg1.(users) !! userid = Some u ∧
               u.(tfa_locked_until) = Some (now env + tfa_failure_lock_time)) as (u & Hu & Hlock).
  { destruct (users cfg !! userid) as [u|] eqn:Hu; [|by unfold verify in H; rewrite Hu in H].
    destruct (verify_some env cfg userid u ch r st Hu) as (c & E & Hc).
    rewrite H in E. injection E as -> _ E. eexists. split; [done|]. by eapply verify_user_tfa. }
  induction Hq as [|[[env' ch'] r'] l Hnow _ IH]; [done|]. cbn [verify_run]. simpl in Hnow.
  assert (verify env' cfg1 userid ch' r' st1 = (cfg1, st1, Locked)) as ->.
  { unfold verify. rewrite Hu. unfold verify_user, tfa_is_locked. rewrite Hlock.
    rewrite (proj2 (Z.ltb_lt _ _)) by done. rewrite insert_id by done. by destruct cfg1. }
  by rewrite IH.
Qed.

(** ** The lock on TOTP *)

(** Outcomes that reset the count of TOTP failures. *)
Definition resets (r : TfaResponse) (res : TfaResult) : bool :=
  match r, res with
  | ResTotp _, Success _ | ResRecovery _, Success _ => true
  | _, _ => false
  end.

(** A TOTP code that was checked and rejected. *)
Definition rejected_totp (x : TfaResponse * TfaResult) : bool :=
  match x with (ResTotp _, Failure _ _ _) => true | _ => false end.
Definition guesses (out : list (TfaResponse * TfaResult)) : nat :=
  length (List.filter rejected_totp out).

(** A key with a period and at most nine digits, whose values can be computed. *)
Definition usable (t : Totp) : Prop :=
  period t ≠ 0 ∧ ∀ c, ∃ w, counter t c = Ok w ∧ (w.(digits) ≤ 9)%N.

(** Rejections that are left until TOTP is locked. *)
Definition budget (u : TfaUserData) (st : Store) : Z :=
  if u.(totp_locked) then 0 else totp_failure_limit - failures st.
Definition in_budget (u : TfaUserData) (st : Store) : Prop :=
  u.(totp_locked) = true ∨ 0 ≤ failures st < totp_failure_limit.

Section Budget.
Context (Hlock : enable_lockout = true) (Hlimit : 0 < totp_failure_limit < 2 ^ 32).
Context (Husable : ∀ t, usable t).

Lemma usable_value w v : (w.(digits) ≤ 9)%N → ∃ b, totp_value_eq w v = Some b.
Proof.
  intros Hd. unfold totp_value_eq. destruct (negb _); [eauto|]. destruct (parse_uint u32_max v); [|eauto].
  unfold totp_value. assert (0 < 10 ^ w.(digits) < 2 ^ 32)%N as Hp.
  { split; [by apply N.neq_0_lt_0, N.pow_nonzero|]. eapply N.le_lt_trans; [by apply (N.pow_le_mono_r 10 _ 9)|done]. }
  rewrite N.mod_small by lia. rewrite (proj2 (N.eqb_neq _ _)) by lia. eauto.
Qed.

Lemma totp_verify_total env t v : 0 ≤ env.(now) → ∃ r, totp_verify env t v = Some (Ok r).
Proof.
  intros Hn. destruct (Husable t) as [Hp Hc]. unfold totp_verify. rewrite (proj2 (Z.ltb_ge _ _)) by done.
  rewrite (proj2 (Z.eqb_neq _ _)) by done.
  generalize (now env / period t). intros k. generalize [-1; 0; 1]. intros steps.
  induction steps as [|s steps IH]; [eauto|]. cbn [totp_steps].
  destruct (Hc ((k + s) mod 2 ^ 64)) as (w & -> & Hd). destruct (usable_value w v Hd) as ([] & ->); eauto.
Qed.

Lemma totp_loop_failures env v l st :
  working env →
  let '(_, st', r) := totp_loop env v l st in
  match r with
  | Answered (Ok _) => failures st' = 0
  | Answered (Err _) => failures st' = u32_incr (failures st)
  | NoMatch => st' = st
  | LoopPanic => False
  end.
Proof.
  intros Hw. induction l as [|e l IH]; [done|]. cbn [totp_loop].
  destruct (totp_loop env v l st) as [[l2 st2] r2].
  destruct (enable (info e)); [|done].
  destruct (totp_verify_total env (totp_key (entry e)) v (proj2 (proj2 Hw))) as ([c|] & ->); [|done].
  rewrite !update_challenges_working by done. by destruct (enable_lockout && _).
Qed.

(** What the check of a factor does to the count and the lock. *)
Lemma verify_factor_failures env cfg u ch r st :
  working env →
  let '(u', st', res) := verify_factor env cfg u ch r st in
  match res with
  | None => False
  | Some (Ok _) => if is_totp r then failures st' = 0 ∧ u'.(totp_locked) = u.(totp_locked)
            else match r with
                 | ResRecovery _ => failures st' = 0 ∧ u'.(totp_locked) = false
                 | _ => failures st' = failures st ∧ u'.(totp_locked) = u.(totp_locked)
                 end
  | Some (Err _) => u'.(totp_locked) = u.(totp_locked) ∧
             failures st' = if is_totp r then u32_incr (failures st) else failures st
  end.
Proof.
  intros Hw. pose proof Hw as (Ho & Hs & _). destruct r as [v|v|v|v]; simpl.
  - unfold verify_totp. pose proof (totp_loop_failures env v (totp u) st Hw) as H.
    destruct (totp_loop env v (totp u) st) as [[l st'] [|[]|]]; [|done..]. subst st'.
    rewrite update_challenges_working by done. done.
  - destruct ch as [ch|]; [|done]. unfold verify_u2f, open_no_create, save. rewrite Ho, Hs.
    destruct (negb _); [done|]. destruct (parse_u2f_response v); [|done].
    destruct (List.find _ _); [|done]. destruct (auth_verify_obj _ _ _) as [[]|]; [|done|done].
    destruct st as [d|]; [|done]. destruct (take_challenge _ _) as [[c auths]|]; [|done].
    by destruct (_ <? _).
  - unfold verify_webauthn, open_no_create, save. rewrite Ho, Hs.
    destruct (negb _); [done|]. destruct (parse_webauthn_response v) as [[c resp]|]; [|done].
    destruct st as [d|]; [|done]. destruct (take_challenge _ _) as [[a auths]|]; [|done].
    destruct (_ <? _); [done|]. by destruct (finish_securitykey_authentication _ _).
  - unfold verify_recovery. destruct (recovery u) as [r|]; [|done].
    destruct (recovery_verify r v) as [r' [[]|]]; [|done|done]. unfold open, save. rewrite Ho, Hs.
    unfold failures. destruct (Z.eqb_spec (totp_failures (default no_challenges st)) 0); simpl; done.
Qed.

Lemma after_success_failures env b st :
  working env → failures (after_success env b st) = if b then 0 else failures st.
Proof.
  intros (Ho & Hs & _). unfold after_success, open, save. rewrite Ho, Hs. simpl. unfold failures.
  destruct (Z.eqb_spec (totp_failures (default no_challenges st)) 0) as [E|E];
    destruct b, (tfa_failures _ =? 0) eqn:?; simpl in *; rewrite ?Heqb; simpl; try done.
Qed.

Lemma after_failure_failures env b u st :
  working env →
  let '(u', st', res) := after_failure env b u st in
  failures st' = failures st ∧ resets (ResTotp []) res = false ∧
  u'.(totp_locked) = if b && (totp_failure_limit <=? failures st) then true else u.(totp_locked).
Proof.
  intros (Ho & Hs & _). unfold after_failure, open, save. rewrite Ho, Hs. simpl.
  change (totp_failures (default no_challenges st)) with (failures st).
  destruct (_ <=? u32_incr _), (b && _); simpl; rewrite ?Hlock; done.
Qed.

Lemma verify_user_budget env cfg u ch r st :
  working env → in_budget u st →
  let out := verify_user env cfg u ch r st in
  in_budget out.1.1 out.1.2 ∧
  (resets r out.2 = false → budget out.1.1 out.1.2 ≤ budget u st - Z.b2z (rejected_totp (r, out.2))).
Proof.
  intros Hw Hin out. unfold out, verify_user. clear out.
  destruct (tfa_is_locked env u); [by destruct r; simpl; split; try done; intros; lia|].
  destruct (is_totp r && totp_locked u) eqn:Htl; [by destruct r; simpl; split; try done; intros; lia|].
  pose proof (verify_factor_failures env cfg u ch r st Hw) as Hf.
  destruct (verify_factor env cfg u ch r st) as [[u' st'] [[n|e]|]]; [| |done].
  - cbn [fst snd]. unfold in_budget, budget. rewrite after_success_failures by done.
    destruct r as [v|v|v|v]; simpl in Hf |- *; destruct Hf as [Hf1 Hf2]; rewrite ?Hf1, ?Hf2.
    + split; [right; lia|done].
    + split; [exact Hin|lia].
    + split; [exact Hin|lia].
    + split; [right; lia|done].
  - pose proof (after_failure_failures env (is_totp r) u' st' Hw) as Ha.
    pose proof (after_failure_user env (is_totp r) u' st') as Hu.
    destruct (after_failure env (is_totp r) u' st') as [[u2 st2] res]. cbn [fst snd].
    destruct Hf as [Hf1 Hf2]. destruct Ha as (Ha1 & Ha2 & Ha3). destruct Hu as (_ & _ & _ & Hnl & Hnp).
    unfold in_budget, budget in *. rewrite Ha1, Ha3, Hf1, Hf2.
    destruct r as [v|v|v|v]; simpl in *; try (split; [exact Hin|lia]).
    rewrite Htl in *. destruct Hin as [Hin|Hin]; [done|].
    assert (u32_incr (failures st) = failures st + 1) as ->
      by (unfold u32_incr; rewrite Z.mod_small; lia).
    destruct res as [| | |]; simpl in *; try done.
    destruct (Z.leb_spec totp_failure_limit (failures st + 1)); (split; [|lia]); [by left|right; lia].
Qed.

Lemma verify_run_budget cfg userid u st l :
  Forall (λ q : Request, working q.1.1) l → cfg.(users) !! userid = Some u → in_budget u st →
  Forall (λ x, resets x.1 x.2 = false) (verify_run cfg userid l st).2 →
  Z.of_nat (guesses (verify_run cfg userid l st).2) ≤ budget u st.
Proof.
  intros Hl. revert cfg u st. induction Hl as [|[[env ch] r] l Hw _ IH]; intros cfg u st Hu Hin Hres.
  { unfold guesses, budget. simpl. destruct Hin as [->|]; [done|]. destruct (totp_locked u); lia. }
  cbn [verify_run] in *. simpl in Hw.
  destruct (verify_some env cfg userid u ch r st Hu) as (cfg' & E & Hu'). rewrite E in *.
  destruct (verify_user_budget env cfg u ch r st Hw Hin) as [Hin' Hb].
  destruct (verify_user env cfg u ch r st) as [[u' st'] res]. cbn [fst snd] in *.
  specialize (IH cfg' u' st' Hu' Hin').
  destruct (verify_run cfg' userid l st') as [[cfg2 st2] out]. cbn [fst snd] in *.
  apply Forall_cons in Hres as [Hr Hres]. specialize (IH Hres). specialize (Hb Hr).
  unfold guesses in *. cbn [List.filter]. destruct (rejected_totp (r, res)); simpl in *; lia.
Qed.
End Budget.

(** [C6] Guessing TOTP codes is limited: with the lockout enabled, a failure limit
    within u32, keys with a period and at most nine digits whose values can be computed,
    and a user below the limit, take any sequence of verifications of this user with any
    factors at any times after the epoch, at which the challenge file can be opened and
    saved. As long as no TOTP code and no recovery key is accepted, the number of codes
    that are checked at all is at most what is left of the limit; all further codes are
    answered with [Locked]. *)
Theorem totp_guess_bound userid cfg u st l cfg' st' out :
  enable_lockout = true → 0 < totp_failure_limit < 2 ^ 32 →
  (∀ t, usable t) → Forall (λ q : Request, working q.1.1) l →
  cfg.(users) !! userid = Some u → 0 ≤ failures st < totp_failure_limit →
  verify_run cfg userid l st = (cfg', st', out) →
  Forall (λ x, resets x.1 x.2 = false) out →
  Z.of_nat (guesses out) ≤ totp_failure_limit - failures st.
Proof.
  intros Hlock Hlimit Hc Hl Hu Hf Hrun Hres.
  pose proof (verify_run_budget Hlock Hlimit Hc cfg userid u st l Hl Hu (or_intror Hf)) as H.
  rewrite Hrun in H. specialize (H Hres). simpl in H. unfold budget in H.
  destruct (totp_locked u); lia.
Qed.
End Theory.

(** ** Witnesses *)

(** A concrete cryptography: the code of a counter is the counter, in two digits. *)
Definition toy : Crypto := {|
  Totp := unit; U2fRegistration := unit; WebauthnCredential := unit; WebauthnState := unit;
  Value := unit; U2fAuthResponse := unit; PublicKeyCredential := unit;
  period := λ _, 30;
  counter := λ _ c, Ok (mkTotpValue (Z.to_N c) 2);
  hmac := λ s k, Ok (s ++ k);
  key_handle := λ _, []; response_key_handle := λ _, [];
  parse_u2f_response := λ _, Err InvalidResponse;
  auth_verify_obj := λ _ _ _, Ok false;
  parse_webauthn_response := λ _, Err InvalidResponse;
  finish_securitykey_authentication := λ _ _, Ok tt;
|}.
#[local] Existing Instance toy.
#[local] Existing Instance default_limits.

Definition wit_user : TfaUserData :=
  mkUser [mkEntry (mkInfo (lit "a") true [] 0) (mkTotp tt (-1))] [] []
    (Some (mkRecovery (lit "s") [Some (lit "sk1"); Some (lit "sk2")] 0)) [] false None.
Definition wit_cfg : TfaConfig := mkConfig false false {[ lit "u" := wit_user ]}.
Definition wit_env (t : Z) : Env := mkEnv t true true false.
Definition wit_run (l : list (Z * TfaResponse)) : list Request :=
  (λ x, (wit_env x.1, None, x.2)) <$> l.

(** A login, a replay of its code, another login. *)
Definition wit_first := verify (wit_env 300) wit_cfg (lit "u") None (ResTotp (lit "10")) None.
Definition wit_replay :=
  verify_run wit_first.1.1 (lit "u") (wit_run [(310, ResTotp (lit "10"))]) wit_first.1.2.
Definition wit_second :=
  verify (wit_env 360) wit_replay.1.1 (lit "u") None (ResTotp (lit "12")) wit_replay.1.2.

Lemma totp_counter_accepted_once_witness :
  ∃ (i : nat) (c1 : Z) (j : nat) (c2 : Z), code_of tt c1 (lit "10") ∧ code_of tt c2 (lit "12") ∧ (i = j → c1 < c2).
Proof.
  destruct (totp_counter_accepted_once (lit "u") (wit_env 300) (wit_env 360) wit_cfg None None
    (lit "10") (lit "12") None wit_first.1.1 wit_first.1.2 true (wit_run [(310, ResTotp (lit "10"))])
    wit_replay.1.1 wit_replay.1.2 wit_replay.2 wit_second.1.1 wit_second.1.2 true)
    as (i & c1 & j & c2 & (e1 & _ & _ & _ & H1 & _) & (e2 & _ & _ & _ & H2 & _) & H);
    [vm_compute; reflexivity..|].
  exists i, c1, j, c2. by destruct (totp_key (entry e1)), (totp_key (entry e2)).
Defined.

Lemma recovery_key_once_witness :
  ∃ cfg1 st1 n, verify (wit_env 300) wit_cfg (lit "u") None (ResRecovery (lit "k1")) None =
    (cfg1, st1, Success n) ∧
  (verify (wit_env 400) cfg1 (lit "u") None (ResRecovery (lit "k1")) st1).2 ≠ Success true.
Proof.
  eexists _, _, true. split; [vm_compute; reflexivity|].
  refine (recovery_key_once (lit "u") (wit_env 300) (wit_env 400) wit_cfg None None (lit "k1") None
            _ _ true [] _ _ [] (mkRecovery (lit "s") [Some (lit "sk1"); Some (lit "sk2")] 0) _ _ _ _ true).
  - vm_compute. reflexivity.
  - intros h [|[|i]] [|[|j]]; intros H1 H2; vm_compute in H1, H2; congruence.
  - vm_compute. reflexivity.
  - reflexivity.
Defined.

Lemma tfa_lock_holds_witness :
  ∃ cfg1 st1, verify (wit_env 300) wit_cfg (lit "u") None (ResTotp (lit "99"))
      (Some (mkChallenges [] [] 0 99)) = (cfg1, st1, Failure true false true) ∧
    verify_run cfg1 (lit "u") (wit_run [(3899, ResRecovery (lit "k1"))]) st1 =
      (cfg1, st1, [(ResRecovery (lit "k1"), Locked)]).
Proof.
  eexists _, _. split; [vm_compute; reflexivity|].
  refine (tfa_lock_holds (lit "u") (wit_env 300) wit_cfg None (ResTotp (lit "99"))
            (Some (mkChallenges [] [] 0 99)) _ _ true false _ _ _ _).
  - reflexivity.
  - vm_compute. reflexivity.
  - repeat constructor.
Defined.

Definition wit_guesses :=
  verify_run wit_cfg (lit "u") (wit_run (replicate 12 (300, ResTotp (lit "99")))) None.

Lemma totp_guess_bound_witness : Z.of_nat (guesses wit_guesses.2) ≤ 8.
Proof.
  refine (totp_guess_bound (lit "u") wit_cfg wit_user None
            (wit_run (replicate 12 (300, ResTotp (lit "99")))) wit_guesses.1.1 wit_guesses.1.2
            wit_guesses.2 _ _ _ _ _ _ _ _).
  - reflexivity.
  - split; reflexivity.
  - split; [done|]. intros c. eexists. split; [reflexivity|]. done.
  - repeat constructor; vm_compute; congruence.
  - vm_compute. reflexivity.
  - vm_compute. split; congruence.
  - vm_compute. reflexivity.
  - vm_compute. repeat constructor.
Defined.
