(* ===== verification/Gregorian.v ===== *)
(** * Gregorian: the proleptic Gregorian calendar in UTC

    What POSIX documents of [struct tm] and of the correspondence between broken
    down UTC time and seconds since the Epoch, as executable functions: the
    number of days in front of a year and a month, the date of a day number, and
    the order of dates. [TmEditor] states the behaviour of [gmtime_r] and
    [timegm] by them. Months count from 0 as in [tm_mon], days from 1. *)
From S2P Require Import Prelude.

#[local] Open Scope Z_scope.

Definition is_leap (y : Z) : bool :=
  (y mod 4 =? 0) && negb (y mod 100 =? 0) || (y mod 400 =? 0).

Definition year_len (y : Z) : Z := if is_leap y then 366 else 365.

(** Days from 1970-01-01 to the first of January of the year. *)
Definition year_start (y : Z) : Z :=
  365 * (y - 1) + (y - 1) / 4 - (y - 1) / 100 + (y - 1) / 400 - 719162.

(** Days of the year in front of the month; 12 is the end of the year. *)
Definition month_start (y m : Z) : Z :=
  let l := if is_leap y then 1 else 0 in
  if m <=? 0 then 0 else if m =? 1 then 31 else if m =? 2 then 59 + l
  else if m =? 3 then 90 + l else if m =? 4 then 120 + l else if m =? 5 then 151 + l
  else if m =? 6 then 181 + l else if m =? 7 then 212 + l else if m =? 8 then 243 + l
  else if m =? 9 then 273 + l else if m =? 10 then 304 + l else if m =? 11 then 334 + l
  else 365 + l.

Definition month_len (y m : Z) : Z := month_start y (m + 1) - month_start y m.

(** The day number of a date. *)
Definition day_of_date (y m d : Z) : Z := year_start y + month_start y m + (d - 1).

(** The year of a day number: an estimate by the mean length, corrected. *)
Definition year_of (n : Z) : Z :=
  let y := (n + 719162) * 400 / 146097 + 1 in
  if year_start (y + 1) <=? n then y + 1 else if n <? year_start y then y - 1 else y.

(** The month of a day of the year: the last one that starts on or before it. *)
Fixpoint month_search (y yday : Z) (months : nat) : Z :=
  match months with
  | O => 0
  | S k => if month_start y (Z.of_nat k) <=? yday then Z.of_nat k else month_search y yday k
  end.

Definition month_of (n : Z) : Z :=
  month_search (year_of n) (n - year_start (year_of n)) 12.

Definition mday_of (n : Z) : Z :=
  n - year_start (year_of n) - month_start (year_of n) (month_of n) + 1.

(** 1970-01-01 was a Thursday; Sunday is 0. *)
Definition wday_of (n : Z) : Z := (n + 4) mod 7.

(** ** Years *)
Lemma year_start_succ y : year_start (y + 1) = year_start y + year_len y.
Proof.
  unfold year_start, year_len, is_leap. replace (y + 1 - 1) with y by lia.
  destruct (Z.eqb_spec (y mod 4) 0), (Z.eqb_spec (y mod 100) 0), (Z.eqb_spec (y mod 400) 0);
    simpl; Z.to_euclidean_division_equations; lia.
Qed.

Lemma year_len_bounds y : 365 ≤ year_len y ≤ 366.
Proof. unfold year_len. destruct (is_leap y); lia. Qed.

Lemma year_start_mono a b : a ≤ b → year_start a + 365 * (b - a) ≤ year_start b.
Proof.
  intros Hab. replace b with (a + (b - a)) by lia.
  remember (b - a) as n eqn:En. assert (0 ≤ n) as Hn by lia. clear b Hab En.
  pattern n. apply natlike_ind; [..|done].
  - rewrite Z.add_0_r. lia.
  - intros k Hk IH. replace (a + Z.succ k) with (a + k + 1) by lia.
    rewrite year_start_succ. pose proof (year_len_bounds (a + k)). lia.
Qed.

Lemma year_of_spec n : year_start (year_of n) ≤ n < year_start (year_of n + 1).
Proof.
  unfold year_of. set (y := (n + 719162) * 400 / 146097 + 1).
  assert (year_start (y - 1) ≤ n < year_start (y + 2)) as Hy.
  { unfold year_start. subst y. Z.to_euclidean_division_equations. lia. }
  destruct (Z.leb_spec (year_start (y + 1)) n) as [H1|H1].
  - replace (y + 1 + 1) with (y + 2) by lia. lia.
  - destruct (Z.ltb_spec n (year_start y)); [|lia]. replace (y - 1 + 1) with y by lia. lia.
Qed.

(** The year of a day is determined by the days in front of the years. *)
Lemma year_of_le n y : y ≤ year_of n ↔ year_start y ≤ n.
Proof.
  pose proof (year_of_spec n) as [H1 H2]. split; intros H.
  - pose proof (year_start_mono y (year_of n) H). lia.
  - destruct (Z.le_gt_cases y (year_of n)); [done|].
    pose proof (year_start_mono (year_of n + 1) y). lia.
Qed.

Lemma year_of_unique n y : year_start y ≤ n < year_start (y + 1) → year_of n = y.
Proof.
  intros [H1 H2]. apply year_of_le in H1.
  assert (¬ y + 1 ≤ year_of n) by (rewrite year_of_le; lia). lia.
Qed.

(** ** Months *)
Ltac months m := assert (m = 0 ∨ m = 1 ∨ m = 2 ∨ m = 3 ∨ m = 4 ∨ m = 5 ∨ m = 6 ∨ m = 7 ∨
  m = 8 ∨ m = 9 ∨ m = 10 ∨ m = 11) as Hmonths by lia;
  repeat destruct Hmonths as [Hmonths|Hmonths]; subst m.

Lemma month_start_0 y : month_start y 0 = 0.
Proof. done. Qed.

Lemma month_start_12 y : month_start y 12 = year_len y.
Proof. unfold month_start, year_len. simpl. destruct (is_leap y); done. Qed.

Lemma month_len_bounds y m : 0 ≤ m ≤ 11 → 28 ≤ month_len y m ≤ 31.
Proof.
  intros Hm. unfold month_len, month_start. destruct (is_leap y); months m; simpl; lia.
Qed.

(** Only February is shorter than 30 days. *)
Lemma month_len_30 y m : 0 ≤ m ≤ 11 → m ≠ 1 → 30 ≤ month_len y m.
Proof.
  intros Hm Hne. unfold month_len, month_start. destruct (is_leap y); months m; simpl; lia.
Qed.

Lemma month_start_mono y a b : 0 ≤ a → a ≤ b → b ≤ 12 → month_start y a + 28 * (b - a) ≤ month_start y b.
Proof.
  intros Ha Hab. replace b with (a + (b - a)) by lia.
  remember (b - a) as n eqn:En. assert (0 ≤ n) as Hn by lia. clear b Hab En.
  pattern n. apply natlike_ind; [..|done].
  - rewrite Z.add_0_r. lia.
  - intros k Hk IH Hle. replace (a + Z.succ k) with (a + k + 1) in * by lia.
    pose proof (month_len_bounds y (a + k)). unfold month_len in *. lia.
Qed.

Lemma month_search_spec y yday k :
  0 ≤ yday → (0 < k)%nat →
  0 ≤ month_search y yday k < Z.of_nat k ∧ month_start y (month_search y yday k) ≤ yday ∧
  (yday < month_start y (Z.of_nat k) → yday < month_start y (month_search y yday k + 1)).
Proof.
  intros Hy. induction k as [|k IH]; [lia|]. intros _. cbn [month_search].
  destruct (Z.leb_spec (month_start y (Z.of_nat k)) yday) as [H|H].
  - repeat split; [lia|lia|done|]. by replace (Z.of_nat k + 1) with (Z.of_nat (S k)) by lia.
  - destruct k as [|k]; [rewrite month_start_0 in H; lia|].
    destruct IH as (? & ? & ?); [lia|]. repeat split; [lia|lia|done|auto].
Qed.

Lemma yday_bounds n : 0 ≤ n - year_start (year_of n) < year_len (year_of n).
Proof. pose proof (year_of_spec n). rewrite year_start_succ in *. lia. Qed.

Lemma month_of_spec n :
  0 ≤ month_of n ≤ 11 ∧
  year_start (year_of n) + month_start (year_of n) (month_of n) ≤ n <
  year_start (year_of n) + month_start (year_of n) (month_of n + 1).
Proof.
  pose proof (yday_bounds n) as Hd. unfold month_of.
  destruct (month_search_spec (year_of n) (n - year_start (year_of n)) 12) as (? & ? & H); [lia..|].
  change (Z.of_nat 12) with 12 in *. rewrite month_start_12 in H. specialize (H ltac:(lia)). lia.
Qed.

(** ** Dates *)
Lemma mday_of_bounds n : 1 ≤ mday_of n ≤ month_len (year_of n) (month_of n).
Proof. pose proof (month_of_spec n). unfold mday_of, month_len. lia. Qed.

Lemma day_of_date_of n : day_of_date (year_of n) (month_of n) (mday_of n) = n.
Proof. unfold day_of_date, mday_of. lia. Qed.

(** A valid date is found again from its day number. *)
Lemma date_of_day y m d :
  0 ≤ m ≤ 11 → 1 ≤ d ≤ month_len y m →
  year_of (day_of_date y m d) = y ∧ month_of (day_of_date y m d) = m ∧
  mday_of (day_of_date y m d) = d.
Proof.
  intros Hm Hd. set (n := day_of_date y m d). unfold month_len in Hd.
  pose proof (month_start_mono y 0 m) as H0. pose proof (month_start_mono y (m + 1) 12) as H1.
  rewrite month_start_0 in H0. rewrite month_start_12 in H1.
  assert (year_of n = y) as Hy.
  { apply year_of_unique. rewrite year_start_succ. unfold n, day_of_date. lia. }
  pose proof (month_of_spec n) as (Hm' & Hn). rewrite Hy in Hn.
  assert (month_of n = m) as Hmn.
  { destruct (Z.lt_trichotomy (month_of n) m) as [H|[H|H]]; [|done|].
    - pose proof (month_start_mono y (month_of n + 1) m). unfold n, day_of_date in *. lia.
    - pose proof (month_start_mono y (m + 1) (month_of n)). unfold n, day_of_date in *. lia. }
  split_and!; [done..|]. unfold mday_of. rewrite Hy, Hmn. unfold n, day_of_date. lia.
Qed.

(** Within a year the months are ordered as the days. *)
Lemma month_of_le n m :
  0 ≤ m ≤ 12 → m ≤ month_of n ↔ year_start (year_of n) + month_start (year_of n) m ≤ n.
Proof.
  intros Hm. pose proof (month_of_spec n) as (Hb & H1 & H2). split; intros H.
  - pose proof (month_start_mono (year_of n) m (month_of n)). lia.
  - destruct (Z.le_gt_cases m (month_of n)) as [|Hgt]; [done|].
    pose proof (month_start_mono (year_of n) (month_of n + 1) m). lia.
Qed.

Lemma wday_of_bounds n : 0 ≤ wday_of n ≤ 6.
Proof. unfold wday_of. pose proof (Z.mod_pos_bound (n + 4) 7). lia. Qed.
