(* ===== verification/TmEditor.v ===== *)
(** * TmEditor: broken down time

    Models [proxmox-time/src/tm_editor.rs] and the bindings of
    [proxmox-time/src/posix.rs] it uses. The four functions of the C library are
    a parameter, the class [Libc]; [LibcUtc] states what POSIX documents of
    [gmtime_r] and [timegm], in terms of the calendar of [Gregorian], and
    [libc_utc] is an instance. An editor on UTC time that is normalised is
    [at_epoch e]; the lemmas give the epoch every operation goes to. *)
From S2P Require Import Prelude Gregorian.

#[local] Open Scope Z_scope.

(** ** Data *)

(** [struct tm] without the pointer to the name of the time zone. *)
Record tm := mkTm {
  tm_sec : Z; tm_min : Z; tm_hour : Z; tm_mday : Z; tm_mon : Z; tm_year : Z;
  tm_wday : Z; tm_yday : Z; tm_isdst : Z; tm_gmtoff : Z
}.

Inductive TimeError :=
| LibcFailed      (** the binding of a libc function failed *)
| OutOfRange      (** [try_into] between integer types *)
| TimePanic.      (** [unwrap] of [None] *)

Record TmEditor := mkTmEditor { te_utc : bool; te_t : tm }.

(** [i32] arithmetic of [libc::c_int] fields wraps. *)
Definition wrap_i32 (z : Z) : Z := (z + 2 ^ 31) mod 2 ^ 32 - 2 ^ 31.

(** [u32::try_from] of an [i32], [i32::try_from] of a [u32]. *)
Definition u32_try_from (z : Z) : result Z TimeError :=
  if (0 <=? z) && (z <? 2 ^ 32) then Ok z else Err OutOfRange.
Definition i32_try_from (z : Z) : result Z TimeError :=
  if (- 2 ^ 31 <=? z) && (z <? 2 ^ 31) then Ok z else Err OutOfRange.

(** The functions of the C library: [timegm] and [mktime] return the epoch and
    the normalised argument, which they write back. *)
Class Libc := {
  libc_gmtime_r : Z → option tm;
  libc_localtime_r : Z → option tm;
  libc_timegm : tm → Z * tm;
  libc_mktime : tm → Z * tm
}.

Section Bindings.
Context `{Libc}.

Definition with_isdst (v : Z) (t : tm) : tm :=
  mkTm t.(tm_sec) t.(tm_min) t.(tm_hour) t.(tm_mday) t.(tm_mon) t.(tm_year)
       t.(tm_wday) t.(tm_yday) v t.(tm_gmtoff).

Definition timelocal (t : tm) : result (Z * tm) TimeError :=
  let '(epoch, t') := libc_mktime (with_isdst (-1) t) in
  if epoch =? -1 then Err LibcFailed else Ok (epoch, t').

Definition timegm (t : tm) : result (Z * tm) TimeError :=
  let '(epoch, t') := libc_timegm (with_isdst 0 t) in
  if epoch =? -1 then Err LibcFailed else Ok (epoch, t').

Definition localtime (epoch : Z) : result tm TimeError := ok_or (libc_localtime_r epoch) LibcFailed.
Definition gmtime (epoch : Z) : result tm TimeError := ok_or (libc_gmtime_r epoch) LibcFailed.

(** ** [impl TmEditor] *)
Definition tm_editor_new (utc : bool) : TmEditor := mkTmEditor utc (mkTm 0 0 0 1 0 70 4 0 (-1) (-1)).

Definition with_epoch (epoch : Z) (utc : bool) : result TmEditor TimeError :=
  let? t := if utc then gmtime epoch else localtime epoch in Ok (mkTmEditor utc t).

Definition into_epoch (e : TmEditor) : result Z TimeError :=
  let? et := if e.(te_utc) then timegm e.(te_t) else timelocal e.(te_t) in Ok et.1.

Definition normalize_time (e : TmEditor) : result TmEditor TimeError :=
  let? et := if e.(te_utc) then timegm e.(te_t) else timelocal e.(te_t) in
  Ok (mkTmEditor e.(te_utc) et.2).

(** The assignments to the fields of the time. *)
Definition set_fields (sec min hour mday mon year : Z) (e : TmEditor) : TmEditor :=
  mkTmEditor e.(te_utc) (mkTm sec min hour mday mon year
    e.(te_t).(tm_wday) e.(te_t).(tm_yday) e.(te_t).(tm_isdst) e.(te_t).(tm_gmtoff)).

Definition add_years (e : TmEditor) (years : Z) : result TmEditor TimeError :=
  if years =? 0 then Ok e
  else normalize_time (set_fields 0 0 0 1 0 (wrap_i32 (e.(te_t).(tm_year) + years)) e).

Definition add_months (e : TmEditor) (months : Z) : result TmEditor TimeError :=
  if months =? 0 then Ok e
  else normalize_time (set_fields 0 0 0 1 (wrap_i32 (e.(te_t).(tm_mon) + months)) e.(te_t).(tm_year) e).

Definition add_days (e : TmEditor) (days : Z) : result TmEditor TimeError :=
  if days =? 0 then Ok e
  else normalize_time (set_fields 0 0 0 (wrap_i32 (e.(te_t).(tm_mday) + days))
                         e.(te_t).(tm_mon) e.(te_t).(tm_year) e).

Definition te_year (e : TmEditor) : Z := wrap_i32 (e.(te_t).(tm_year) + 1900).
Definition te_month (e : TmEditor) : Z := wrap_i32 (e.(te_t).(tm_mon) + 1).
Definition te_day (e : TmEditor) : Z := e.(te_t).(tm_mday).
Definition te_hour (e : TmEditor) : Z := e.(te_t).(tm_hour).
Definition te_min (e : TmEditor) : Z := e.(te_t).(tm_min).
Definition te_sec (e : TmEditor) : Z := e.(te_t).(tm_sec).
Definition te_day_num (e : TmEditor) : Z := Z.rem (wrap_i32 (e.(te_t).(tm_wday) + 6)) 7.

Definition set_time (e : TmEditor) (hour min sec : Z) : result TmEditor TimeError :=
  normalize_time (set_fields sec min hour e.(te_t).(tm_mday) e.(te_t).(tm_mon) e.(te_t).(tm_year) e).

Definition set_min_sec (e : TmEditor) (min sec : Z) : result TmEditor TimeError :=
  normalize_time (set_fields sec min e.(te_t).(tm_hour) e.(te_t).(tm_mday)
                    e.(te_t).(tm_mon) e.(te_t).(tm_year) e).

Definition set_sec (e : TmEditor) (v : Z) : result TmEditor TimeError :=
  normalize_time (set_fields v e.(te_t).(tm_min) e.(te_t).(tm_hour) e.(te_t).(tm_mday)
                    e.(te_t).(tm_mon) e.(te_t).(tm_year) e).

Definition set_min (e : TmEditor) (v : Z) : result TmEditor TimeError :=
  normalize_time (set_fields e.(te_t).(tm_sec) v e.(te_t).(tm_hour) e.(te_t).(tm_mday)
                    e.(te_t).(tm_mon) e.(te_t).(tm_year) e).

Definition set_hour (e : TmEditor) (v : Z) : result TmEditor TimeError :=
  normalize_time (set_fields e.(te_t).(tm_sec) e.(te_t).(tm_min) v e.(te_t).(tm_mday)
                    e.(te_t).(tm_mon) e.(te_t).(tm_year) e).

Definition set_mday (e : TmEditor) (v : Z) : result TmEditor TimeError :=
  normalize_time (set_fields e.(te_t).(tm_sec) e.(te_t).(tm_min) e.(te_t).(tm_hour) v
                    e.(te_t).(tm_mon) e.(te_t).(tm_year) e).

Definition set_mon (e : TmEditor) (v : Z) : result TmEditor TimeError :=
  normalize_time (set_fields e.(te_t).(tm_sec) e.(te_t).(tm_min) e.(te_t).(tm_hour)
                    e.(te_t).(tm_mday) (wrap_i32 (v - 1)) e.(te_t).(tm_year) e).

Definition set_year (e : TmEditor) (v : Z) : result TmEditor TimeError :=
  normalize_time (set_fields e.(te_t).(tm_sec) e.(te_t).(tm_min) e.(te_t).(tm_hour)
                    e.(te_t).(tm_mday) e.(te_t).(tm_mon) (wrap_i32 (v - 1900)) e).
End Bindings.

(** ** What POSIX documents for UTC *)

(** The fields of an epoch. *)
Definition day_number (e : Z) : Z := e / 86400.
Definition day_seconds (e : Z) : Z := e mod 86400.
Definition sec_of (e : Z) : Z := day_seconds e mod 60.
Definition min_of (e : Z) : Z := day_seconds e / 60 mod 60.
Definition hour_of (e : Z) : Z := day_seconds e / 3600.

Definition tm_of_epoch (e : Z) : tm :=
  let n := day_number e in
  mkTm (sec_of e) (min_of e) (hour_of e) (mday_of n) (month_of n) (year_of n - 1900)
       (wday_of n) (n - year_start (year_of n)) 0 0.

(** The epoch of a broken down time whose fields may be out of range. *)
Definition epoch_of (y mon d h mi s : Z) : Z :=
  day_of_date (y + mon / 12) (mon mod 12) d * 86400 + h * 3600 + mi * 60 + s.

Definition tm_epoch (t : tm) : Z :=
  epoch_of (t.(tm_year) + 1900) t.(tm_mon) t.(tm_mday) t.(tm_hour) t.(tm_min) t.(tm_sec).

(** Epochs far from the limits of the type of [tm_year]: half a billion years. *)
Definition sane (e : Z) : Prop := - 2 ^ 54 ≤ e ≤ 2 ^ 54.

Class LibcUtc (L : Libc) : Prop := {
  gmtime_r_utc e : sane e → libc_gmtime_r e = Some (tm_of_epoch e);
  timegm_utc t : sane (tm_epoch t) → libc_timegm t = (tm_epoch t, tm_of_epoch (tm_epoch t))
}.

(** A C library whose local time is UTC. *)
Definition libc_utc : Libc := {|
  libc_gmtime_r e := Some (tm_of_epoch e);
  libc_localtime_r e := Some (tm_of_epoch e);
  libc_timegm t := (tm_epoch t, tm_of_epoch (tm_epoch t));
  libc_mktime t := (tm_epoch t, tm_of_epoch (tm_epoch t))
|}.

#[export] Instance libc_utc_ok : LibcUtc libc_utc.
Proof. by split. Qed.

(** ** Fields of an epoch *)
Lemma wrap_i32_small z : - 2 ^ 31 ≤ z < 2 ^ 31 → wrap_i32 z = z.
Proof. intros Hz. unfold wrap_i32. rewrite Z.mod_small; lia. Qed.

Lemma day_seconds_bounds e : 0 ≤ day_seconds e < 86400.
Proof. unfold day_seconds. pose proof (Z.mod_pos_bound e 86400). lia. Qed.

Lemma epoch_split e : e = day_number e * 86400 + hour_of e * 3600 + min_of e * 60 + sec_of e.
Proof.
  unfold day_number, hour_of, min_of, sec_of, day_seconds.
  Z.to_euclidean_division_equations. lia.
Qed.

Lemma time_bounds e : 0 ≤ hour_of e ≤ 23 ∧ 0 ≤ min_of e ≤ 59 ∧ 0 ≤ sec_of e ≤ 59.
Proof.
  pose proof (day_seconds_bounds e). unfold hour_of, min_of, sec_of.
  Z.to_euclidean_division_equations. lia.
Qed.

(** A day number and a time of the day determine the fields. *)
Lemma fields_of_epoch n h mi s :
  0 ≤ h ≤ 23 → 0 ≤ mi ≤ 59 → 0 ≤ s ≤ 59 →
  let e := n * 86400 + h * 3600 + mi * 60 + s in
  day_number e = n ∧ hour_of e = h ∧ min_of e = mi ∧ sec_of e = s.
Proof.
  intros Hh Hm Hs e.
  assert (day_number e = n) as Hn.
  { unfold day_number, e. Z.to_euclidean_division_equations. lia. }
  pose proof (epoch_split e) as He. pose proof (time_bounds e). rewrite Hn in He. subst e. lia.
Qed.

Lemma epoch_of_normal e :
  epoch_of (year_of (day_number e)) (month_of (day_number e)) (mday_of (day_number e))
    (hour_of e) (min_of e) (sec_of e) = e.
Proof.
  pose proof (month_of_spec (day_number e)) as [Hm _].
  unfold epoch_of. rewrite Z.div_small, Z.mod_small, Z.add_0_r by lia.
  rewrite day_of_date_of. symmetry. apply epoch_split.
Qed.

Lemma sane_day e : sane e → - 2 ^ 38 ≤ day_number e ≤ 2 ^ 38.
Proof. unfold sane, day_number. Z.to_euclidean_division_equations. lia. Qed.

Lemma sane_year e : sane e → - 10 ^ 9 ≤ year_of (day_number e) ≤ 10 ^ 9.
Proof.
  intros Hs%sane_day. split.
  - apply year_of_le. etrans; [|apply Hs]. unfold year_start. vm_compute. done.
  - assert (¬ 10 ^ 9 + 1 ≤ year_of (day_number e)); [|lia]. rewrite year_of_le.
    assert (2 ^ 38 < year_start (10 ^ 9 + 1)) by (vm_compute; done). lia.
Qed.

(** ** The editor on UTC *)
#[local] Opaque year_of month_of mday_of year_start month_start.

Section Utc.
Context {L : Libc} {LU : LibcUtc L}.

Definition at_epoch (e : Z) : TmEditor := mkTmEditor true (tm_of_epoch e).

(** Going to an epoch fails for the one that libc reports errors by. *)
Definition goto (e : Z) : result TmEditor TimeError :=
  if e =? -1 then Err LibcFailed else Ok (at_epoch e).

Lemma with_epoch_utc e : sane e → with_epoch e true = Ok (at_epoch e).
Proof. intros He. unfold with_epoch, gmtime. by rewrite gmtime_r_utc. Qed.

Lemma timegm_epoch t : sane (tm_epoch t) →
  timegm t = if tm_epoch t =? -1 then Err LibcFailed else Ok (tm_epoch t, tm_of_epoch (tm_epoch t)).
Proof. intros He. unfold timegm. by rewrite timegm_utc. Qed.

Lemma normalize_utc t : sane (tm_epoch t) → normalize_time (mkTmEditor true t) = goto (tm_epoch t).
Proof.
  intros He. unfold normalize_time, goto. simpl. rewrite timegm_epoch by done. by case_match.
Qed.

Lemma tm_epoch_of_epoch e : tm_epoch (tm_of_epoch e) = e.
Proof.
  unfold tm_epoch, tm_of_epoch. simpl. rewrite Z.sub_add. apply epoch_of_normal.
Qed.

Lemma into_epoch_utc e : sane e → into_epoch (at_epoch e) = if e =? -1 then Err LibcFailed else Ok e.
Proof.
  intros He. unfold into_epoch. simpl. rewrite timegm_epoch; rewrite tm_epoch_of_epoch; [|done].
  by case_match.
Qed.

(** The fields the editor shows. *)
Lemma te_year_utc e : sane e → te_year (at_epoch e) = year_of (day_number e).
Proof.
  intros He%sane_year. unfold te_year. simpl. rewrite Z.sub_add. apply wrap_i32_small. lia.
Qed.

Lemma te_month_utc e : te_month (at_epoch e) = month_of (day_number e) + 1.
Proof.
  pose proof (month_of_spec (day_number e)) as [? _].
  unfold te_month. simpl. apply wrap_i32_small. lia.
Qed.

(** Monday is 0. *)
Lemma te_day_num_utc e : te_day_num (at_epoch e) = (day_number e + 3) mod 7.
Proof.
  pose proof (wday_of_bounds (day_number e)). unfold te_day_num. simpl.
  rewrite wrap_i32_small by lia. rewrite Z.rem_mod_nonneg by lia. unfold wday_of in *.
  Z.to_euclidean_division_equations. lia.
Qed.

(** Where the operations go. *)
Section Ops.
Context (e : Z) (Hsane : sane e).
Local Abbreviation n := (day_number e).

Lemma set_fields_at s mi h d mon y :
  set_fields s mi h d mon y (at_epoch e) =
  mkTmEditor true (mkTm s mi h d mon y (wday_of n) (n - year_start (year_of n)) 0 0).
Proof. done. Qed.

Lemma normalize_at s mi h d mon y e' :
  e' = epoch_of (y + 1900) mon d h mi s → sane e' →
  normalize_time (set_fields s mi h d mon y (at_epoch e)) = goto e'.
Proof. intros -> Hs. rewrite set_fields_at. by apply normalize_utc. Qed.

Lemma add_years_utc k :
  0 < k ≤ 2 ^ 28 → sane (year_start (year_of n + k) * 86400) →
  add_years (at_epoch e) k = goto (year_start (year_of n + k) * 86400).
Proof.
  intros Hk Hs. pose proof (sane_year e Hsane). unfold add_years.
  rewrite (proj2 (Z.eqb_neq _ _)) by lia. apply normalize_at; [|done]. cbn [te_t at_epoch tm_of_epoch tm_year].
  rewrite wrap_i32_small by lia. unfold epoch_of, day_of_date.
  replace (year_of n - 1900 + k + 1900 + 0 / 12) with (year_of n + k) by (rewrite Z.div_0_l; lia).
  rewrite month_start_0. lia.
Qed.

(** The first day of the month [k] months later. *)
Definition months_later (k : Z) : Z :=
  day_of_date (year_of n + (month_of n + k) / 12) ((month_of n + k) mod 12) 1.

Lemma add_months_utc k :
  0 < k ≤ 2 ^ 28 → sane (months_later k * 86400) →
  add_months (at_epoch e) k = goto (months_later k * 86400).
Proof.
  intros Hk Hs. pose proof (month_of_spec n) as [Hm _]. unfold add_months.
  rewrite (proj2 (Z.eqb_neq _ _)) by lia. apply normalize_at; [|done]. cbn [te_t at_epoch tm_of_epoch tm_year tm_mon].
  rewrite wrap_i32_small by lia. unfold epoch_of, months_later. rewrite Z.sub_add. lia.
Qed.

Lemma add_days_utc k :
  0 < k ≤ 2 ^ 28 → sane ((n + k) * 86400) → add_days (at_epoch e) k = goto ((n + k) * 86400).
Proof.
  intros Hk Hs. pose proof (month_of_spec n) as [Hm _]. pose proof (mday_of_bounds n).
  pose proof (month_len_bounds (year_of n) (month_of n)). unfold add_days.
  rewrite (proj2 (Z.eqb_neq _ _)) by lia. apply normalize_at; [|done].
  cbn [te_t at_epoch tm_of_epoch tm_year tm_mon tm_mday].
  rewrite wrap_i32_small by lia. unfold epoch_of. rewrite Z.sub_add, Z.div_small, Z.mod_small by lia.
  pose proof (day_of_date_of n) as Hd. unfold day_of_date in *. rewrite !Z.add_0_r.
  clear -Hd. lia.
Qed.

Lemma epoch_of_day h mi s :
  epoch_of (year_of n - 1900 + 1900) (month_of n) (mday_of n) h mi s = n * 86400 + h * 3600 + mi * 60 + s.
Proof.
  pose proof (month_of_spec n) as [Hm _].
  unfold epoch_of. rewrite Z.sub_add, Z.div_small, Z.mod_small, Z.add_0_r by lia.
  by rewrite day_of_date_of.
Qed.

Lemma set_time_utc h mi s :
  sane (n * 86400 + h * 3600 + mi * 60 + s) →
  set_time (at_epoch e) h mi s = goto (n * 86400 + h * 3600 + mi * 60 + s).
Proof. intros Hs. apply normalize_at; [symmetry; apply epoch_of_day|done]. Qed.

Lemma set_min_sec_utc mi s :
  sane (n * 86400 + hour_of e * 3600 + mi * 60 + s) →
  set_min_sec (at_epoch e) mi s = goto (n * 86400 + hour_of e * 3600 + mi * 60 + s).
Proof. intros Hs. apply normalize_at; [symmetry; apply epoch_of_day|done]. Qed.

Lemma set_sec_utc s :
  sane (n * 86400 + hour_of e * 3600 + min_of e * 60 + s) →
  set_sec (at_epoch e) s = goto (n * 86400 + hour_of e * 3600 + min_of e * 60 + s).
Proof. intros Hs. apply normalize_at; [symmetry; apply epoch_of_day|done]. Qed.
End Ops.
End Utc.
