(* ===== verification/CalendarEvent.v ===== *)
(** * CalendarEvent: recurring events and daily windows

    Models [proxmox-time/src/date_time_value.rs], the set of weekdays of
    [week_days.rs], the event and the search for its next occurrence of
    [calendar_event.rs], and the window of [daily_duration.rs]. The search is one
    function per condition of its loop; [next_event_iter] is the body and
    [next_event_loop] the loop with its limit of iterations. *)
From S2P Require Import Prelude Gregorian TmEditor.

#[local] Open Scope Z_scope.

(** ** [DateTimeValue] *)
Inductive DateTimeValue :=
| Single (v : Z)
| Range (start fin : Z)
| Repeated (start repetition : Z) (opt_end : option Z).

(** [u32] arithmetic wraps. *)
Definition wrap_u32 (z : Z) : Z := z mod 2 ^ 32.

Definition dtv_contains (d : DateTimeValue) (value : Z) : bool :=
  match d with
  | Single v => v =? value
  | Range start fin => (start <=? value) && (value <=? fin)
  | Repeated start repetition opt_end =>
      if start <=? value then
        if 0 <? repetition then
          let offset := value - start in
          let res := offset mod repetition =? 0 in
          match opt_end with
          | Some fin => res && (value <=? fin)
          | None => res
          end
        else start =? value
      else false
  end.

Definition list_contains (list : list DateTimeValue) (value : Z) : bool :=
  existsb (λ spec, dtv_contains spec value) list.

(** The closure [set_next]: keep the smaller of the values offered. *)
Definition set_next (next : option Z) (v : Z) : option Z :=
  match next with
  | Some n => if v <? n then Some v else next
  | None => Some v
  end.

(** One iteration of the loop of [find_next]. *)
Definition next_of (value : Z) (next : option Z) (spec : DateTimeValue) : option Z :=
  match spec with
  | Single v => if value <? v then set_next next v else next
  | Range start fin =>
      if value <? start then set_next next start
      else let n := wrap_u32 (value + 1) in
           if (start <=? n) && (n <=? fin) then set_next next n else next
  | Repeated start repetition opt_end =>
      if value <? start then set_next next start
      else if 0 <? repetition then
        let n := wrap_u32 (start + wrap_u32 (wrap_u32 (value - start + repetition) / repetition * repetition)) in
        match opt_end with
        | Some fin => if n <=? fin then set_next next n else next
        | None => set_next next n
        end
      else next
  end.

Definition find_next (list : list DateTimeValue) (value : Z) : option Z :=
  foldl (next_of value) None list.

(** ** [WeekDays]: a bit per day, Monday is bit 0 *)
Definition weekdays_all : Z := 127.
Definition weekdays_from_bits (bits : Z) : option Z :=
  if Z.land bits (Z.lnot weekdays_all) =? 0 then Some bits else None.
Definition weekdays_is_all (days : Z) : bool := Z.land days weekdays_all =? weekdays_all.
Definition weekdays_contains (days day : Z) : bool := Z.land days day =? day.

(** ** [CalendarEvent] *)
Record CalendarEvent := mkEvent {
  ev_utc : bool;
  ev_days : Z;
  ev_second : list DateTimeValue;
  ev_minute : list DateTimeValue;
  ev_hour : list DateTimeValue;
  ev_day : list DateTimeValue;
  ev_month : list DateTimeValue;
  ev_year : list DateTimeValue
}.

(** How an iteration ends: [continue] with a new time, or [return]. *)
Inductive iteration :=
| Continue (t : TmEditor)
| Return (r : option Z).

(** A condition of the body: [None] goes on to the next condition. *)
Definition cond := result (option iteration) TimeError.

Definition continue_with (r : result TmEditor TimeError) : cond :=
  let? t := r in Ok (Some (Continue t)).

Definition and_then (c : cond) (next : unit → cond) : cond :=
  let? r := c in
  match r with
  | Some it => Ok (Some it)
  | None => next tt
  end.

Section NextEvent.
Context `{Libc}.
Context (ev : CalendarEvent).

Definition all_days : bool := (ev.(ev_days) =? 0) || weekdays_is_all ev.(ev_days).

Definition check_year (t : TmEditor) : cond :=
  match ev.(ev_year) with
  | [] => Ok None
  | list =>
      let? year := u32_try_from (te_year t) in
      if list_contains list year then Ok None
      else match find_next list year with
           | Some n => let? d := i32_try_from (wrap_u32 (n - year)) in continue_with (add_years t d)
           | None => Ok (Some (Return None))
           end
  end.

Definition check_month (t : TmEditor) : cond :=
  match ev.(ev_month) with
  | [] => Ok None
  | list =>
      let? month := u32_try_from (te_month t) in
      if list_contains list month then Ok None
      else match find_next list month with
           | Some n => let? d := i32_try_from (wrap_u32 (n - month)) in continue_with (add_months t d)
           | None => continue_with (add_years t 1)
           end
  end.

Definition check_day (t : TmEditor) : cond :=
  match ev.(ev_day) with
  | [] => Ok None
  | list =>
      let? day := u32_try_from (te_day t) in
      if list_contains list day then Ok None
      else match find_next list day with
           | Some n => let? d := i32_try_from (wrap_u32 (n - day)) in continue_with (add_days t d)
           | None => continue_with (add_months t 1)
           end
  end.

(** [WeekDays::from_bits(1 << d).unwrap()] and the test of the day. *)
Definition has_weekday (d : Z) : result bool TimeError :=
  match weekdays_from_bits (Z.shiftl 1 d) with
  | Some day => Ok (weekdays_contains ev.(ev_days) day)
  | None => Err TimePanic
  end.

(** [(d..7).find(...)]; [k] is the number of days left. *)
Fixpoint find_weekday (d : Z) (k : nat) : result (option Z) TimeError :=
  match k with
  | O => Ok None
  | S k' => let? b := has_weekday d in if b then Ok (Some d) else find_weekday (d + 1) k'
  end.

Definition check_weekday (t : TmEditor) : cond :=
  if all_days then Ok None
  else
    let? day_num := u32_try_from (te_day_num t) in
    let? b := has_weekday day_num in
    if b then Ok None
    else
      let? next := find_weekday (day_num + 1) (Z.to_nat (7 - (day_num + 1))) in
      match next with
      | Some n => let? d := i32_try_from (wrap_u32 (n - day_num)) in continue_with (add_days t d)
      | None => let? d := i32_try_from (wrap_u32 (7 - day_num)) in continue_with (add_days t d)
      end.

Definition check_hour (t : TmEditor) : cond :=
  match ev.(ev_hour) with
  | [] => Ok None
  | list =>
      let? hour := u32_try_from (te_hour t) in
      if list_contains list hour then Ok None
      else match find_next list hour with
           | Some n => let? h := i32_try_from n in continue_with (set_time t h 0 0)
           | None => continue_with (add_days t 1)
           end
  end.

Definition check_minute (t : TmEditor) : cond :=
  match ev.(ev_minute) with
  | [] => Ok None
  | list =>
      let? minute := u32_try_from (te_min t) in
      if list_contains list minute then Ok None
      else match find_next list minute with
           | Some n => let? m := i32_try_from n in continue_with (set_min_sec t m 0)
           | None => continue_with (set_time t (wrap_i32 (te_hour t + 1)) 0 0)
           end
  end.

Definition check_second (t : TmEditor) : cond :=
  match ev.(ev_second) with
  | [] => Ok None
  | list =>
      let? second := u32_try_from (te_sec t) in
      if list_contains list second then Ok None
      else match find_next list second with
           | Some n => let? s := i32_try_from n in continue_with (set_sec t s)
           | None => continue_with (set_min_sec t (wrap_i32 (te_min t + 1)) 0)
           end
  end.

(** The body of the loop. *)
Definition next_event_conds (t : TmEditor) : cond :=
  and_then (check_year t) (λ _,
  and_then (check_month t) (λ _,
  and_then (check_day t) (λ _,
  and_then (check_weekday t) (λ _,
  and_then (check_hour t) (λ _,
  and_then (check_minute t) (λ _, check_second t)))))).

Definition next_event_iter (t : TmEditor) : result iteration TimeError :=
  let? r := next_event_conds t in
  match r with
  | Some it => Ok it
  | None => let? next := into_epoch t in Ok (Return (Some next))
  end.

(** The loop gives up when its counter exceeds the limit. *)
Fixpoint next_event_loop (fuel : nat) (t : TmEditor) : result (option Z) TimeError :=
  match fuel with
  | O => Ok None
  | S fuel' =>
      let? it := next_event_iter t in
      match it with
      | Continue t' => next_event_loop fuel' t'
      | Return r => Ok r
      end
  end.

(** The counter runs from 0, and the loop stops when it is above 1000. *)
Definition loop_limit : nat := 1001.

(** [i64] addition wraps. *)
Definition wrap_i64 (z : Z) : Z := (z + 2 ^ 63) mod 2 ^ 64 - 2 ^ 63.

Definition compute_next_event (last : Z) : result (option Z) TimeError :=
  let? t := with_epoch (wrap_i64 (last + 1)) ev.(ev_utc) in
  next_event_loop loop_limit t.
End NextEvent.

(** ** [DailyDuration] *)
Record HmTime := mkHm { hm_hour : Z; hm_minute : Z }.

(** The derived order: the hour first. *)
Definition hm_lt (a b : HmTime) : bool :=
  (a.(hm_hour) <? b.(hm_hour)) || (a.(hm_hour) =? b.(hm_hour)) && (a.(hm_minute) <? b.(hm_minute)).

Record DailyDuration := mkDuration { dd_days : Z; dd_start : HmTime; dd_end : HmTime }.

Definition time_match_with_tm_editor (d : DailyDuration) (t : TmEditor) : bool :=
  let all_days := (d.(dd_days) =? 0) || weekdays_is_all d.(dd_days) in
  let day_ok :=
    if all_days then true
    else match u32_try_from (te_day_num t) with
         | Ok day_num =>
             match weekdays_from_bits (Z.shiftl 1 day_num) with
             | Some day => weekdays_contains d.(dd_days) day
             | None => false
             end
         | Err _ => false
         end in
  if day_ok then
    match u32_try_from (te_hour t), u32_try_from (te_min t) with
    | Ok hour, Ok minute =>
        let ctime := mkHm hour minute in
        negb (hm_lt ctime d.(dd_start)) && hm_lt ctime d.(dd_end)
    | _, _ => false
    end
  else false.

Definition time_match `{Libc} (d : DailyDuration) (epoch : Z) (utc : bool) : result bool TimeError :=
  let? t := with_epoch epoch utc in Ok (time_match_with_tm_editor d t).
