(* ===== verification/CalendarTheory.v ===== *)
(** * CalendarTheory: the next occurrence of a calendar event

    What [compute_next_event] of [CalendarEvent] guarantees for events in UTC.
    [matches] is the meaning of an event; [no_skip] describes the events on which
    the search does not jump over occurrences, [live] those that always have one. *)
From S2P Require Import Prelude Gregorian TmEditor CalendarEvent.

#[local] Open Scope Z_scope.

(** ** Meaning of an event *)
Definition field_ok (list : list DateTimeValue) (v : Z) : bool :=
  match list with
  | [] => true
  | _ => list_contains list v
  end.

(** The day of the week of a day number, Monday is 0. *)
Definition weekday_of (n : Z) : Z := (n + 3) mod 7.

Definition weekday_ok (ev : CalendarEvent) (n : Z) : bool :=
  all_days ev || Z.testbit ev.(ev_days) (weekday_of n).

Definition date_matches (ev : CalendarEvent) (n : Z) : bool :=
  field_ok ev.(ev_year) (year_of n) && field_ok ev.(ev_month) (month_of n + 1) &&
  field_ok ev.(ev_day) (mday_of n) && weekday_ok ev n.

Definition matches (ev : CalendarEvent) (e : Z) : bool :=
  date_matches ev (day_number e) && field_ok ev.(ev_hour) (hour_of e) &&
  field_ok ev.(ev_minute) (min_of e) && field_ok ev.(ev_second) (sec_of e).

(** Values as the parser produces them. *)
Definition wf_dtv (d : DateTimeValue) : Prop :=
  match d with
  | Single v => 0 ≤ v < 2 ^ 16
  | Range start fin => 0 ≤ start ≤ fin ∧ fin < 2 ^ 16
  | Repeated start repetition opt_end =>
      0 ≤ start < 2 ^ 16 ∧ 0 ≤ repetition < 2 ^ 16 ∧
      match opt_end with
      | Some fin => start ≤ fin
      | None => True
      end
  end.

Record wf_event (ev : CalendarEvent) : Prop := {
  wf_second : Forall wf_dtv ev.(ev_second);
  wf_minute : Forall wf_dtv ev.(ev_minute);
  wf_hour : Forall wf_dtv ev.(ev_hour);
  wf_day : Forall wf_dtv ev.(ev_day);
  wf_month : Forall wf_dtv ev.(ev_month);
  wf_year : Forall wf_dtv ev.(ev_year)
}.

(** From a value of the field the search never goes beyond [hi]. *)
Definition next_within (lo cnt hi : Z) (list : list DateTimeValue) : bool :=
  forallb (λ v, match find_next list v with Some n => n <=? hi | None => true end) (seqZ lo cnt).

(** No jump goes beyond the start of the next unit of time, so that no occurrence
    is jumped over. A jump to a day the month does not have ends up on the first
    days of the next month. *)
Definition no_skip (ev : CalendarEvent) : bool :=
  next_within 1 12 13 ev.(ev_month) &&
  (next_within 1 31 29 ev.(ev_day) ||
   next_within 1 31 31 ev.(ev_day) && negb (list_contains ev.(ev_day) 1) &&
     negb (list_contains ev.(ev_day) 2)) &&
  next_within 0 24 24 ev.(ev_hour) && next_within 0 60 60 ev.(ev_minute) &&
  next_within 0 60 60 ev.(ev_second).

(** ** [find_next] finds the least greater value *)
Definition is_next (P : Z → bool) (v : Z) (r : option Z) : Prop :=
  match r with
  | Some n => v < n ≤ v + 2 ^ 16 ∧ P n = true ∧ (∀ k, v < k < n → P k = false)
  | None => ∀ k, v < k → P k = false
  end.

(** The least greater value of one entry. *)
Definition first_after (v : Z) (d : DateTimeValue) : option Z := next_of v None d.

Lemma next_of_first_after v next d :
  next_of v next d = match first_after v d with Some n => set_next next n | None => next end.
Proof. unfold first_after, next_of. cases; done. Qed.

Lemma repeated_next start rep v :
  start ≤ v → 0 < rep →
  let n := start + (v - start + rep) / rep * rep in
  v < n ≤ v + rep ∧ (n - start) mod rep = 0 ∧ ∀ k, v < k < n → (k - start) mod rep ≠ 0.
Proof.
  intros Hs Hr n. set (q := (v - start) / rep).
  assert (n = start + (q + 1) * rep) as Hn.
  { unfold n. replace (v - start + rep) with (v - start + 1 * rep) by lia. by rewrite Z.div_add by lia. }
  pose proof (Z.mul_div_le (v - start) rep) as H1.
  pose proof (Z.mul_succ_div_gt (v - start) rep) as H2. fold q in H1, H2.
  split_and!; [nia|nia| |].
  - rewrite Hn. replace (start + (q + 1) * rep - start) with ((q + 1) * rep) by lia. apply Z.mod_mul. lia.
  - intros k Hk Hm. apply Z.div_exact in Hm; [|lia]. set (j := (k - start) / rep) in *.
    assert (q < j) by nia. assert (j < q + 1) by nia. lia.
Qed.

Lemma first_after_spec d v :
  wf_dtv d → 0 ≤ v < 2 ^ 31 → is_next (dtv_contains d) v (first_after v d).
Proof.
  intros Hwf Hv. unfold first_after. destruct d as [x|start fin|start rep oe]; simpl in *.
  - destruct (Z.ltb_spec v x); simpl; [|intros k Hk; lia].
    split_and!; [lia..|]. intros k Hk. lia.
  - destruct (Z.ltb_spec v start); simpl.
    + split_and!; [lia..|]. intros k Hk. lia.
    + unfold wrap_u32. rewrite Z.mod_small by lia.
      destruct ((start <=? v + 1) && (v + 1 <=? fin)) eqn:E; simpl; [split_and!; [lia..|]|];
        intros k Hk; lia.
  - destruct (Z.ltb_spec v start).
    + simpl. split_and!; [lia..| |].
      * rewrite Z.leb_refl. destruct (Z.ltb_spec 0 rep); [|lia].
        rewrite Z.sub_diag, Z.mod_0_l by lia. case_match; simpl; lia.
      * intros k Hk. by rewrite (proj2 (Z.leb_gt _ _)) by lia.
    + destruct (Z.ltb_spec 0 rep) as [Hr|Hr].
      2: { simpl. intros k Hk. rewrite (proj2 (Z.ltb_ge _ _) Hr).
           destruct (start <=? k); lia. }
      destruct (repeated_next start rep v) as (Hn & Hm & Hk); [lia..|].
      assert (wrap_u32 (start + wrap_u32 (wrap_u32 (v - start + rep) / rep * rep)) =
              start + (v - start + rep) / rep * rep) as ->.
      { unfold wrap_u32. rewrite (Z.mod_small (v - start + rep)) by lia.
        rewrite (Z.mod_small (_ / rep * rep)) by lia. rewrite Z.mod_small; lia. }
      set (n := start + (v - start + rep) / rep * rep) in *.
      assert (∀ k, v < k < n → ((k - start) mod rep =? 0) = false) as Hk' by (intros; apply Z.eqb_neq; auto).
      assert ((start <=? n) = true) as Hsn by lia.
      destruct oe as [fin|]; simpl; [destruct (Z.leb_spec n fin)|]; simpl;
        rewrite (proj2 (Z.ltb_lt _ _) Hr).
      * rewrite Hsn, Hm. split_and!; [lia..|]. intros k ?. rewrite Hk' by done. by case_match.
      * intros k ?. case_match; [|done]. destruct (Z.lt_ge_cases k n); [by rewrite Hk'|].
        rewrite (proj2 (Z.leb_gt k fin)) by lia. by rewrite andb_false_r.
      * rewrite Hsn, Hm. split_and!; [lia..|]. intros k ?. rewrite Hk' by done. by case_match.
Qed.

Lemma is_next_ext P Q v r : (∀ k, P k = Q k) → is_next P v r → is_next Q v r.
Proof. intros H. unfold is_next. destruct r; by setoid_rewrite H. Qed.

Lemma is_next_merge P Q v a b :
  is_next P v a → is_next Q v b →
  is_next (λ k, P k || Q k) v (match b with Some n => set_next a n | None => a end).
Proof.
  unfold set_next, is_next. intros Ha Hb.
  destruct a as [x|], b as [y|]; simpl; [destruct (Z.ltb_spec y x)|..];
    try destruct Ha as (? & Ha & Ha'); try destruct Hb as (? & Hb & Hb').
  1-4: split_and!; [lia|lia|apply orb_true_iff; by auto|].
  all: intros k Hk; apply orb_false_iff; split; first [apply Ha'; lia|apply Hb'; lia|apply Ha; lia|apply Hb; lia].
Qed.

Lemma find_next_spec list v :
  Forall wf_dtv list → 0 ≤ v < 2 ^ 31 → is_next (list_contains list) v (find_next list v).
Proof.
  intros Hwf Hv. unfold find_next.
  assert (∀ P acc, is_next P v acc →
            is_next (λ k, P k || list_contains list k) v (foldl (next_of v) acc list)) as H.
  { induction Hwf as [|d list Hd _ IH]; simpl; intros P acc Hacc.
    - eapply is_next_ext; [|done]. intros k. by rewrite orb_false_r.
    - rewrite next_of_first_after. eapply is_next_ext; [|apply IH, is_next_merge; [done|]].
      + intros k. unfold list_contains. simpl. symmetry. apply orb_assoc.
      + by apply first_after_spec. }
  apply (H (λ _, false) None). by intros k _.
Qed.

Lemma next_within_spec lo cnt hi list v n :
  next_within lo cnt hi list = true → lo ≤ v < lo + cnt → find_next list v = Some n → n ≤ hi.
Proof.
  unfold next_within. rewrite forallb_forall. intros H Hv Hn.
  specialize (H v). rewrite Hn in H. apply Z.leb_le, H. apply list_elem_of_In, elem_of_seqZ. lia.
Qed.

Lemma field_ok_cons d l v : field_ok (d :: l) v = list_contains (d :: l) v.
Proof. done. Qed.

(** ** Weekdays *)
Lemma land_bit a d : 0 ≤ d → (Z.land a (Z.shiftl 1 d) =? Z.shiftl 1 d) = Z.testbit a d.
Proof.
  intros Hd. rewrite Z.shiftl_1_l. apply eq_true_iff_eq. rewrite Z.eqb_eq. split.
  - intros H. assert (Z.testbit (Z.land a (2 ^ d)) d = true) as Hb.
    { rewrite H. by apply Z.pow2_bits_true. }
    rewrite Z.land_spec in Hb. by apply andb_true_iff in Hb as [? _].
  - intros H. apply Z.bits_inj'. intros k Hk. rewrite Z.land_spec, Z.pow2_bits_eqb by lia.
    destruct (Z.eqb_spec d k); [subst; by rewrite H|]. by rewrite andb_false_r.
Qed.

Lemma weekdays_from_bit d : 0 ≤ d ≤ 6 → weekdays_from_bits (Z.shiftl 1 d) = Some (Z.shiftl 1 d).
Proof.
  intros Hd. assert (d = 0 ∨ d = 1 ∨ d = 2 ∨ d = 3 ∨ d = 4 ∨ d = 5 ∨ d = 6) as H by lia.
  by repeat destruct H as [->|H]; [..|subst].
Qed.

Lemma has_weekday_spec ev d : 0 ≤ d ≤ 6 → has_weekday ev d = Ok (Z.testbit ev.(ev_days) d).
Proof.
  intros Hd. unfold has_weekday, weekdays_contains. rewrite weekdays_from_bit, land_bit by lia. done.
Qed.

Lemma find_weekday_spec ev k d :
  0 ≤ d → d + Z.of_nat k = 7 →
  ∃ r, find_weekday ev d k = Ok r ∧
  match r with
  | Some n => d ≤ n ≤ 6 ∧ Z.testbit ev.(ev_days) n = true ∧ ∀ j, d ≤ j < n → Z.testbit ev.(ev_days) j = false
  | None => ∀ j, d ≤ j ≤ 6 → Z.testbit ev.(ev_days) j = false
  end.
Proof.
  revert d. induction k as [|k IH]; intros d Hd Hk; simpl.
  { eexists. split; [done|]. intros j Hj. lia. }
  rewrite has_weekday_spec by lia. simpl. destruct (Z.testbit ev.(ev_days) d) eqn:E.
  - eexists. split; [done|]. split_and!; [lia..|done|]. intros j Hj. lia.
  - destruct (IH (d + 1)) as ([n|] & Hr & Hn); [lia..| |]; rewrite Hr; eexists; (split; [done|]).
    + destruct Hn as (? & ? & Hj). split_and!; [lia..|done|]. intros j ?.
      destruct (Z.eq_dec j d) as [->|]; [done|]. apply Hj. lia.
    + intros j ?. destruct (Z.eq_dec j d) as [->|]; [done|]. apply Hn. lia.
Qed.

Lemma weekday_of_bounds n : 0 ≤ weekday_of n ≤ 6.
Proof. unfold weekday_of. pose proof (Z.mod_pos_bound (n + 3) 7). lia. Qed.

Lemma weekday_of_add n k : 0 ≤ k → weekday_of n + k < 7 → weekday_of (n + k) = weekday_of n + k.
Proof. unfold weekday_of. intros. Z.to_euclidean_division_equations. lia. Qed.

(** ** One iteration *)

(** Going from one epoch to a later one, without leaving out an occurrence. *)
Definition skips (ev : CalendarEvent) (e e' : Z) : Prop :=
  e < e' ≤ e + 2 ^ 41 ∧ (no_skip ev = true → ∀ x, e ≤ x < e' → matches ev x = false).

(** What a condition of the body may answer; [P] is what it tests. *)
Definition cond_ok (ev : CalendarEvent) (e : Z) (P : bool) (c : cond) : Prop :=
  match c with
  | Err _ => True
  | Ok None => P = true
  | Ok (Some (Continue t)) => P = false ∧ ∃ e', t = at_epoch e' ∧ skips ev e e'
  | Ok (Some (Return None)) => P = false ∧ ∀ x, e ≤ x → matches ev x = false
  | Ok (Some (Return (Some _))) => False
  end.

Lemma and_then_ok ev e P Q c k :
  cond_ok ev e P c → cond_ok ev e Q (k tt) → cond_ok ev e (P && Q) (and_then c k).
Proof.
  destruct c as [[[t|[r|]]|]|]; simpl; try done; try (by intros [-> H]).
  intros ->. by simpl.
Qed.

Lemma continue_goto_ok ev e P e' :
  P = false → skips ev e e' → cond_ok ev e P (continue_with (goto e')).
Proof. intros HP Hs. unfold goto. case_match; simpl; [done|]. eauto. Qed.

(** Epochs with a field that does not match do not match. *)
Lemma matches_year ev x : field_ok ev.(ev_year) (year_of (day_number x)) = false → matches ev x = false.
Proof. intros H. unfold matches, date_matches. by rewrite H. Qed.
Lemma matches_month ev x : field_ok ev.(ev_month) (month_of (day_number x) + 1) = false → matches ev x = false.
Proof. intros H. unfold matches, date_matches. by rewrite H, andb_false_r. Qed.
Lemma matches_day ev x : field_ok ev.(ev_day) (mday_of (day_number x)) = false → matches ev x = false.
Proof. intros H. unfold matches, date_matches. by rewrite H, andb_false_r. Qed.
Lemma matches_weekday ev x : weekday_ok ev (day_number x) = false → matches ev x = false.
Proof. intros H. unfold matches, date_matches. by rewrite H, andb_false_r. Qed.
Lemma matches_hour ev x : field_ok ev.(ev_hour) (hour_of x) = false → matches ev x = false.
Proof. intros H. unfold matches. by rewrite H, andb_false_r. Qed.
Lemma matches_minute ev x : field_ok ev.(ev_minute) (min_of x) = false → matches ev x = false.
Proof. intros H. unfold matches. by rewrite H, andb_false_r. Qed.
Lemma matches_second ev x : field_ok ev.(ev_second) (sec_of x) = false → matches ev x = false.
Proof. intros H. unfold matches. by rewrite H, andb_false_r. Qed.

(** The values a jump passes over are not in the list: the first one was
    tested, the others are in front of the next one. *)
Lemma passed_over list v n x :
  is_next (list_contains list) v (Some n) → list_contains list v = false →
  v ≤ x < n → list_contains list x = false.
Proof.
  intros (_ & _ & H) Hv Hx. destruct (Z.eq_dec x v) as [->|]; [done|]. apply H. lia.
Qed.
Lemma exhausted list v x :
  is_next (list_contains list) v None → list_contains list v = false → v ≤ x → list_contains list x = false.
Proof. intros H Hv Hx. destruct (Z.eq_dec x v) as [->|]; [done|]. apply H. lia. Qed.

(** ** Epochs between two times *)
#[local] Opaque year_of month_of year_start month_start.

Lemma day_number_le x n : n ≤ day_number x ↔ n * 86400 ≤ x.
Proof. unfold day_number. Z.to_euclidean_division_equations. lia. Qed.
Lemma day_number_lt x n : day_number x < n ↔ x < n * 86400.
Proof. rewrite <- !Z.nle_gt. by rewrite day_number_le. Qed.

Lemma day_number_start e : day_number e * 86400 ≤ e.
Proof. by apply day_number_le. Qed.

Lemma year_start_growth a b : a ≤ b → year_start b ≤ year_start a + 366 * (b - a).
Proof.
  intros Hab. replace b with (a + (b - a)) by lia.
  remember (b - a) as n eqn:En. assert (0 ≤ n) as Hn by lia. clear b Hab En.
  pattern n. apply natlike_ind; [..|done].
  - rewrite Z.add_0_r. lia.
  - intros k Hk IH. replace (a + Z.succ k) with (a + k + 1) by lia.
    rewrite year_start_succ. pose proof (year_len_bounds (a + k)). lia.
Qed.

(** The start of a later year. *)
Lemma later_year e k :
  0 < k ≤ 2 ^ 16 →
  e < year_start (year_of (day_number e) + k) * 86400 ≤ e + 2 ^ 41.
Proof.
  intros Hk. set (n := day_number e). pose proof (year_of_spec n) as [H1 H2].
  pose proof (year_start_mono (year_of n + 1) (year_of n + k)).
  pose proof (year_start_growth (year_of n) (year_of n + k)).
  assert (n < year_start (year_of n + k)) as H3 by lia. apply day_number_lt in H3.
  pose proof (day_number_start e). fold n in H4. lia.
Qed.

Lemma month_start_bounds y m : 0 ≤ m ≤ 12 → 0 ≤ month_start y m ≤ year_len y.
Proof.
  intros Hm. pose proof (month_start_mono y 0 m) as H1. pose proof (month_start_mono y m 12) as H2.
  rewrite month_start_0 in H1. rewrite month_start_12 in H2. lia.
Qed.

(** The start of a later month. *)
Lemma later_month e k :
  0 < k ≤ 2 ^ 16 → e < months_later e k * 86400 ≤ e + 2 ^ 41.
Proof.
  intros Hk. unfold months_later, day_of_date. set (n := day_number e).
  pose proof (year_of_spec n) as [Hy1 Hy2]. pose proof (month_of_spec n) as (Hm & Hm1 & Hm2).
  set (y := year_of n) in *. set (m := month_of n) in *.
  set (q := (m + k) / 12). set (r := (m + k) mod 12).
  assert (m + k = 12 * q + r ∧ 0 ≤ r < 12) as [Hq Hr].
  { subst q r. Z.to_euclidean_division_equations. lia. }
  pose proof (month_start_bounds (y + q) r). pose proof (year_len_bounds (y + q)).
  pose proof (year_start_growth y (y + q)). pose proof (day_number_start e) as Hd. fold n in Hd.
  assert (n < year_start (y + q) + month_start (y + q) r) as Hlt.
  { destruct (Z.eq_dec q 0) as [->|].
    - rewrite Z.add_0_r. pose proof (month_start_mono y (m + 1) r). lia.
    - pose proof (year_start_mono (y + 1) (y + q)). lia. }
  assert (n < year_start (y + q) + month_start (y + q) r + (1 - 1)) as Hlt' by lia.
  apply day_number_lt in Hlt'. lia.
Qed.

Lemma months_later_in_year e k :
  0 < k → month_of (day_number e) + k ≤ 12 →
  months_later e k =
  year_start (year_of (day_number e)) + month_start (year_of (day_number e)) (month_of (day_number e) + k).
Proof.
  intros Hk Hm. pose proof (month_of_spec (day_number e)) as (? & _).
  unfold months_later, day_of_date. destruct (Z.eq_dec (month_of (day_number e) + k) 12) as [->|].
  - change (12 / 12) with 1. change (12 mod 12) with 0.
    rewrite year_start_succ, month_start_0, month_start_12. lia.
  - rewrite Z.div_small, Z.mod_small by lia. rewrite !Z.add_0_r. lia.
Qed.

(** The first of the next month follows the last day of this one. *)
Lemma months_later_1 e :
  months_later e 1 = day_number e - mday_of (day_number e) + 1 +
    month_len (year_of (day_number e)) (month_of (day_number e)).
Proof.
  set (n := day_number e). pose proof (month_of_spec n) as (Hm & _). fold n in Hm.
  unfold months_later, day_of_date, mday_of, month_len. fold n.
  destruct (Z.eq_dec (month_of n) 11) as [E|].
  - rewrite E. change ((11 + 1) / 12) with 1. change ((11 + 1) mod 12) with 0. change (11 + 1) with 12.
    rewrite year_start_succ, month_start_0, month_start_12. lia.
  - rewrite Z.div_small, Z.mod_small by lia. rewrite !Z.add_0_r. lia.
Qed.

(** Days between a day and the first of the next month are in the same month. *)
Lemma same_month n x :
  n ≤ x < n - mday_of n + 1 + month_len (year_of n) (month_of n) →
  year_of x = year_of n ∧ month_of x = month_of n ∧ mday_of x = mday_of n + (x - n).
Proof.
  intros Hx. pose proof (month_of_spec n) as (Hm & _). pose proof (mday_of_bounds n).
  pose proof (date_of_day (year_of n) (month_of n) (mday_of n + (x - n)) Hm) as Hd.
  assert (day_of_date (year_of n) (month_of n) (mday_of n + (x - n)) = x) as E.
  { pose proof (day_of_date_of n) as Hn. unfold day_of_date in *. lia. }
  rewrite E in Hd. apply Hd. lia.
Qed.

(** The first days of the next month. *)
Lemma next_month_days e j : 0 ≤ j < 28 → mday_of (months_later e 1 + j) = j + 1.
Proof.
  intros Hj. pose proof (month_of_spec (day_number e)) as (Hm & _).
  unfold months_later. set (y := year_of (day_number e) + _). set (m := _ mod 12).
  assert (0 ≤ m ≤ 11) as Hm' by (subst m; pose proof (Z.mod_pos_bound (month_of (day_number e) + 1) 12); lia).
  replace (day_of_date y m 1 + j) with (day_of_date y m (j + 1)) by (unfold day_of_date; lia).
  pose proof (month_len_bounds y m Hm'). apply date_of_day; lia.
Qed.

(** ** The conditions of the body *)
Lemma u32_try_from_ok v : 0 ≤ v < 2 ^ 32 → u32_try_from v = Ok v.
Proof. intros Hv. unfold u32_try_from. by rewrite (proj2 (andb_true_iff _ _)) by lia. Qed.
Lemma i32_try_from_ok v : - 2 ^ 31 ≤ v < 2 ^ 31 → i32_try_from v = Ok v.
Proof. intros Hv. unfold i32_try_from. by rewrite (proj2 (andb_true_iff _ _)) by lia. Qed.
Lemma jump_ok n v : 0 ≤ v < n → n ≤ v + 2 ^ 16 → i32_try_from (wrap_u32 (n - v)) = Ok (n - v).
Proof. intros. unfold wrap_u32. rewrite Z.mod_small by lia. apply i32_try_from_ok. lia. Qed.

Section Conditions.
Context {L : Libc} {LU : LibcUtc L}.
Context (ev : CalendarEvent) (Hwf : wf_event ev).
Context (e : Z) (He : - 2 ^ 54 ≤ e ≤ 2 ^ 54 - 2 ^ 41).
#[local] Abbreviation n := (day_number e).

Local Lemma sane_e : sane e.
Proof. unfold sane. lia. Qed.
Local Lemma sane_later e' : e < e' ≤ e + 2 ^ 41 → sane e'.
Proof. unfold sane. lia. Qed.
#[local] Hint Resolve sane_e sane_later : core.

(** Resolves the test of a field and the search for its next value. *)
Local Ltac field_cases lst Hl v :=
  destruct lst as [|d0 l0] eqn:Hl; [done|]; rewrite <- Hl in *;
  rewrite ?u32_try_from_ok by lia; cbn [rbind];
  assert (field_ok lst v = list_contains lst v) as Hfield by (rewrite Hl; done);
  rewrite Hfield; destruct (list_contains lst v) eqn:Hin; [done|].

Lemma check_year_ok : cond_ok ev e (field_ok ev.(ev_year) (year_of n)) (check_year ev (at_epoch e)).
Proof.
  unfold check_year. rewrite te_year_utc by auto. pose proof (wf_year _ Hwf) as Hw.
  pose proof (sane_year e sane_e) as Hy.
  destruct (Z.lt_ge_cases (year_of n) 0) as [Hneg|Hpos].
  { destruct (ev_year ev); [done|]. unfold u32_try_from. by rewrite (proj2 (andb_false_iff _ _)) by lia. }
  pose proof (find_next_spec _ (year_of n) Hw) as Hnext.
  assert (∀ x, e ≤ x → year_of n ≤ year_of (day_number x)) as Hlater.
  { intros x Hx. apply year_of_le. pose proof (year_of_spec n).
    assert (n ≤ day_number x) by (apply Z.div_le_mono; lia). lia. }
  field_cases (ev_year ev) Hl (year_of n). specialize (Hnext ltac:(lia)).
  destruct (find_next (ev_year ev) (year_of n)) as [k|] eqn:Hk.
  - pose proof Hnext as (Hb & _ & _). rewrite jump_ok by lia. cbn [rbind].
    pose proof (later_year e (k - year_of n) ltac:(lia)) as Hl8.
    rewrite add_years_utc by (auto; lia). apply continue_goto_ok; [done|]. split; [done|].
    intros _ x Hx. apply matches_year. unfold field_ok. rewrite Hl, <- Hl.
    apply (passed_over _ _ _ _ Hnext Hin). split; [apply Hlater; lia|].
    assert (¬ k ≤ year_of (day_number x)); [|lia]. rewrite year_of_le.
    replace (year_of n + (k - year_of n)) with k in Hx by lia. apply Z.nle_gt, day_number_lt. lia.
  - simpl. split; [done|]. intros x Hx. apply matches_year. unfold field_ok. rewrite Hl, <- Hl.
    apply (exhausted _ _ _ Hnext Hin). auto.
Qed.

(** A condition on a field [f]: jump to its next value, or over the rest of the
    enclosing unit of time. *)
Lemma field_cond_ok list f (jump : Z → Z) (over : Z) (c_some : Z → Z → cond) (c_none : cond) :
  Forall wf_dtv list → 0 ≤ f e < 2 ^ 31 →
  (∀ x, field_ok list (f x) = false → matches ev x = false) →
  (∀ k, find_next list (f e) = Some k → f e < k ≤ f e + 2 ^ 16 →
     e < jump k ≤ e + 2 ^ 41 ∧ c_some (f e) k = continue_with (goto (jump k)) ∧
     (no_skip ev = true → ∀ x, e ≤ x < jump k → f e ≤ f x < k)) →
  e < over ≤ e + 2 ^ 41 → c_none = continue_with (goto over) →
  (∀ x, e ≤ x < over → f e ≤ f x) →
  cond_ok ev e (field_ok list (f e))
    (match list with
     | [] => Ok None
     | d :: l =>
         let? v := u32_try_from (f e) in
         if list_contains (d :: l) v then Ok None
         else match find_next (d :: l) v with Some k => c_some v k | None => c_none end
     end).
Proof.
  intros Hw Hv Hmatch Hsome Hover Hnone Hrest.
  pose proof (find_next_spec list (f e) Hw ltac:(lia)) as Hnext.
  field_cases list Hl (f e).
  assert (∀ x, list_contains list (f x) = false → matches ev x = false) as Hno.
  { intros x Hx. apply Hmatch. unfold field_ok. by rewrite Hl, <- Hl. }
  destruct (find_next list (f e)) as [k|] eqn:Hk.
  - pose proof Hnext as (Hb & _ & _). destruct (Hsome k eq_refl Hb) as (Hj & -> & Hpass).
    apply continue_goto_ok; [done|]. split; [done|]. intros Hskip x Hx.
    apply Hno, (passed_over _ _ _ _ Hnext Hin). auto.
  - rewrite Hnone. apply continue_goto_ok; [done|]. split; [done|]. intros _ x Hx.
    apply Hno, (exhausted _ _ _ Hnext Hin). auto.
Qed.

Lemma check_month_ok : cond_ok ev e (field_ok ev.(ev_month) (month_of n + 1)) (check_month ev (at_epoch e)).
Proof.
  unfold check_month. rewrite te_month_utc. pose proof (month_of_spec n) as (Hm & Hm1 & Hm2).
  pose proof (year_of_spec n) as Hyn. pose proof (later_year e 1 ltac:(lia)) as Hover.
  (* a later day of the same year is in the same or a later month *)
  assert (∀ x, e ≤ x → day_number x < year_start (year_of n + 1) →
            year_of (day_number x) = year_of n ∧ month_of n ≤ month_of (day_number x)) as Hlater.
  { intros x Hx1 Hx2. assert (n ≤ day_number x) as Hd by (apply Z.div_le_mono; lia).
    assert (year_of (day_number x) = year_of n) as Hy by (apply year_of_unique; lia).
    split; [done|]. apply month_of_le; [lia|]. rewrite Hy. lia. }
  apply (field_cond_ok _ (λ x, month_of (day_number x) + 1)
           (λ k, months_later e (k - (month_of n + 1)) * 86400) (year_start (year_of n + 1) * 86400)
           (λ v k, let? d := i32_try_from (wrap_u32 (k - v)) in continue_with (add_months (at_epoch e) d)));
    [apply Hwf|lia|apply matches_month| |done|by rewrite add_years_utc by (auto; lia)|].
  - intros k Hk Hb. pose proof (later_month e (k - (month_of n + 1)) ltac:(lia)) as Hj.
    split; [done|]. rewrite jump_ok by lia. cbn [rbind].
    split; [by rewrite add_months_utc by (auto; lia)|]. intros Hskip x Hx.
    unfold no_skip in Hskip. rewrite !andb_true_iff in Hskip. destruct Hskip as ((((Hskip & _) & _) & _) & _).
    pose proof (next_within_spec _ _ _ _ (month_of n + 1) _ Hskip ltac:(lia) Hk) as Hk12.
    rewrite months_later_in_year in Hx by lia.
    replace (month_of n + (k - (month_of n + 1))) with (k - 1) in Hx by lia.
    pose proof (month_start_bounds (year_of n) (k - 1) ltac:(lia)). rewrite year_start_succ in Hlater.
    assert (day_number x < year_start (year_of n) + month_start (year_of n) (k - 1)) as Hd2
      by (apply day_number_lt; lia).
    destruct (Hlater x) as [Hy Hle]; [lia..|].
    pose proof (month_of_le (day_number x) (k - 1) ltac:(lia)) as Hlt. rewrite Hy in Hlt. lia.
  - intros x Hx. destruct (Hlater x) as [_ Hle]; [lia|apply day_number_lt; lia|]. lia.
Qed.

(** A jump of days within the month, or onto the first days of the next one. *)
Lemma day_jump_ok k :
  list_contains ev.(ev_day) (mday_of n) = false → is_next (list_contains ev.(ev_day)) (mday_of n) (Some k) →
  find_next ev.(ev_day) (mday_of n) = Some k → no_skip ev = true →
  ∀ x, n ≤ x < n + (k - mday_of n) → list_contains ev.(ev_day) (mday_of x) = false.
Proof.
  intros Hin Hnext Hk Hskip x Hx.
  pose proof (month_of_spec n) as (Hm & _). pose proof (mday_of_bounds n) as Hd.
  pose proof (month_len_bounds (year_of n) (month_of n) Hm) as Hlen.
  pose proof (months_later_1 e) as Hfirst. unfold no_skip in Hskip.
  rewrite !andb_true_iff, orb_true_iff, !andb_true_iff, !negb_true_iff in Hskip.
  destruct Hskip as ((((_ & Hday) & _) & _) & _).
  destruct (Z.lt_ge_cases x (months_later e 1)) as [Hlt|Hge].
  - destruct (same_month n x) as (_ & _ & ->); [lia|]. apply (passed_over _ _ _ _ Hnext Hin). lia.
  - replace x with (months_later e 1 + (x - months_later e 1)) by lia.
    destruct Hday as [Hw|[[Hw H1] H2]]; pose proof (next_within_spec _ _ _ _ (mday_of n) _ Hw ltac:(lia) Hk); [lia|].
    rewrite next_month_days by lia.
    assert (x - months_later e 1 = 0 ∨ x - months_later e 1 = 1) as [-> | ->] by lia; done.
Qed.

Lemma check_day_ok : cond_ok ev e (field_ok ev.(ev_day) (mday_of n)) (check_day ev (at_epoch e)).
Proof.
  unfold check_day. change (te_day (at_epoch e)) with (mday_of n).
  pose proof (month_of_spec n) as (Hm & _). pose proof (mday_of_bounds n) as Hd.
  pose proof (month_len_bounds (year_of n) (month_of n) Hm) as Hlen.
  pose proof (find_next_spec _ (mday_of n) (wf_day _ Hwf) ltac:(lia)) as Hnext.
  field_cases (ev_day ev) Hl (mday_of n). pose proof (day_number_start e) as Hstart.
  pose proof (proj1 (day_number_lt e (n + 1)) ltac:(lia)) as Hend.
  destruct (find_next (ev_day ev) (mday_of n)) as [k|] eqn:Hk.
  - pose proof Hnext as (Hb & _ & _). rewrite jump_ok by lia. cbn [rbind].
    assert (e < (n + (k - mday_of n)) * 86400 ≤ e + 2 ^ 41) as Hl8 by lia.
    rewrite add_days_utc by (auto; lia). apply continue_goto_ok; [done|]. split; [done|].
    intros Hskip x Hx. apply matches_day. unfold field_ok. rewrite Hl, <- Hl.
    apply (day_jump_ok k Hin Hnext Hk Hskip).
    split; [apply Z.div_le_mono; lia|apply day_number_lt; lia].
  - pose proof (later_month e 1 ltac:(lia)) as Hl8.
    rewrite add_months_utc by (auto; lia). apply continue_goto_ok; [done|]. split; [done|].
    intros _ x Hx. apply matches_day. unfold field_ok. rewrite Hl, <- Hl.
    apply (exhausted _ _ _ Hnext Hin). pose proof (months_later_1 e).
    assert (n ≤ day_number x) as Hd1 by (apply Z.div_le_mono; lia).
    assert (day_number x < months_later e 1) as Hd2 by (apply day_number_lt; lia).
    destruct (same_month n (day_number x)) as (_ & _ & ->); lia.
Qed.

Lemma check_weekday_ok : cond_ok ev e (weekday_ok ev n) (check_weekday ev (at_epoch e)).
Proof.
  unfold check_weekday, weekday_ok. destruct (all_days ev) eqn:Hall; [done|].
  rewrite te_day_num_utc. fold (weekday_of n). pose proof (weekday_of_bounds n) as Hw.
  rewrite u32_try_from_ok by lia. cbn [rbind]. rewrite has_weekday_spec by lia. cbn [rbind orb].
  destruct (Z.testbit (ev_days ev) (weekday_of n)) eqn:Hbit; [done|].
  destruct (find_weekday_spec ev (Z.to_nat (7 - (weekday_of n + 1))) (weekday_of n + 1))
    as (r & -> & Hr); [lia..|]. cbn [rbind].
  pose proof (day_number_start e) as Hstart. pose proof (proj1 (day_number_lt e (n + 1)) ltac:(lia)) as Hend.
  assert (∀ k, weekday_of n < k ≤ 7 → (∀ j, weekday_of n < j < k → Z.testbit (ev_days ev) j = false) →
    cond_ok ev e false (let? d := i32_try_from (wrap_u32 (k - weekday_of n)) in continue_with (add_days (at_epoch e) d)))
    as Hjump.
  { intros k Hk Hno. rewrite jump_ok by lia. cbn [rbind].
    assert (e < (n + (k - weekday_of n)) * 86400 ≤ e + 2 ^ 41) as Hl8 by lia.
    rewrite add_days_utc by (auto; lia). apply continue_goto_ok; [done|]. split; [done|].
    intros _ x Hx. apply matches_weekday. unfold weekday_ok. rewrite Hall. cbn [orb].
    assert (n ≤ day_number x) as Hd1 by (apply Z.div_le_mono; lia).
    assert (day_number x < n + (k - weekday_of n)) as Hd2 by (apply day_number_lt; lia).
    replace (day_number x) with (n + (day_number x - n)) by lia. rewrite weekday_of_add by lia.
    destruct (Z.eq_dec (day_number x) n) as [->|]; [by rewrite Z.sub_diag, Z.add_0_r|]. apply Hno. lia. }
  destruct r as [k|]; apply Hjump; try lia; intros j Hj; apply Hr; lia.
Qed.

Lemma check_hour_ok : cond_ok ev e (field_ok ev.(ev_hour) (hour_of e)) (check_hour ev (at_epoch e)).
Proof.
  pose proof (time_bounds e) as (Hh & Hmi & Hs). pose proof (epoch_split e) as Hsplit.
  assert (e < (n + 1) * 86400 ≤ e + 2 ^ 41) as Hover by lia.
  apply (field_cond_ok _ hour_of (λ k, n * 86400 + k * 3600 + 0 * 60 + 0) ((n + 1) * 86400)
           (λ _ k, let? h := i32_try_from k in continue_with (set_time (at_epoch e) h 0 0)));
    [apply Hwf|lia|apply matches_hour| |done|by rewrite add_days_utc by (auto; lia)|].
  - intros k Hk Hb. assert (e < n * 86400 + k * 3600 + 0 * 60 + 0 ≤ e + 2 ^ 41) as Hj by lia.
    split; [done|]. rewrite i32_try_from_ok by lia. split; [cbn [rbind]; by rewrite set_time_utc by auto|].
    intros Hskip x Hx. unfold no_skip in Hskip. rewrite !andb_true_iff in Hskip.
    destruct Hskip as (((_ & Hskip) & _) & _).
    pose proof (next_within_spec _ _ _ _ (hour_of e) _ Hskip ltac:(lia) Hk).
    pose proof (time_bounds x). pose proof (epoch_split x). lia.
  - intros x Hx. pose proof (time_bounds x). pose proof (epoch_split x). lia.
Qed.

Lemma check_minute_ok : cond_ok ev e (field_ok ev.(ev_minute) (min_of e)) (check_minute ev (at_epoch e)).
Proof.
  pose proof (time_bounds e) as (Hh & Hmi & Hs). pose proof (epoch_split e) as Hsplit.
  assert (e < n * 86400 + (hour_of e + 1) * 3600 + 0 * 60 + 0 ≤ e + 2 ^ 41) as Hover by lia.
  apply (field_cond_ok _ min_of (λ k, n * 86400 + hour_of e * 3600 + k * 60 + 0)
           (n * 86400 + (hour_of e + 1) * 3600 + 0 * 60 + 0)
           (λ _ k, let? m := i32_try_from k in continue_with (set_min_sec (at_epoch e) m 0)));
    [apply Hwf|lia|apply matches_minute| |apply Hover| |].
  - intros k Hk Hb. assert (e < n * 86400 + hour_of e * 3600 + k * 60 + 0 ≤ e + 2 ^ 41) as Hj by lia.
    split; [done|]. rewrite i32_try_from_ok by lia. split; [cbn [rbind]; by rewrite set_min_sec_utc by auto|].
    intros Hskip x Hx. unfold no_skip in Hskip. rewrite !andb_true_iff in Hskip.
    destruct Hskip as ((_ & Hskip) & _).
    pose proof (next_within_spec _ _ _ _ (min_of e) _ Hskip ltac:(lia) Hk).
    pose proof (time_bounds x). pose proof (epoch_split x). lia.
  - change (te_hour (at_epoch e)) with (hour_of e). rewrite wrap_i32_small by lia.
    by rewrite set_time_utc by auto.
  - intros x Hx. pose proof (time_bounds x). pose proof (epoch_split x). lia.
Qed.

Lemma check_second_ok : cond_ok ev e (field_ok ev.(ev_second) (sec_of e)) (check_second ev (at_epoch e)).
Proof.
  pose proof (time_bounds e) as (Hh & Hmi & Hs). pose proof (epoch_split e) as Hsplit.
  assert (e < n * 86400 + hour_of e * 3600 + (min_of e + 1) * 60 + 0 ≤ e + 2 ^ 41) as Hover by lia.
  apply (field_cond_ok _ sec_of (λ k, n * 86400 + hour_of e * 3600 + min_of e * 60 + k)
           (n * 86400 + hour_of e * 3600 + (min_of e + 1) * 60 + 0)
           (λ _ k, let? s := i32_try_from k in continue_with (set_sec (at_epoch e) s)));
    [apply Hwf|lia|apply matches_second| |apply Hover| |].
  - intros k Hk Hb. assert (e < n * 86400 + hour_of e * 3600 + min_of e * 60 + k ≤ e + 2 ^ 41) as Hj by lia.
    split; [done|]. rewrite i32_try_from_ok by lia. split; [cbn [rbind]; by rewrite set_sec_utc by auto|].
    intros Hskip x Hx. unfold no_skip in Hskip. rewrite !andb_true_iff in Hskip. destruct Hskip as (_ & Hskip).
    pose proof (next_within_spec _ _ _ _ (sec_of e) _ Hskip ltac:(lia) Hk).
    pose proof (time_bounds x). pose proof (epoch_split x). lia.
  - change (te_min (at_epoch e)) with (min_of e). rewrite wrap_i32_small by lia.
    by rewrite set_min_sec_utc by auto.
  - intros x Hx. pose proof (time_bounds x). pose proof (epoch_split x). lia.
Qed.

Lemma next_event_conds_ok : cond_ok ev e (matches ev e) (next_event_conds ev (at_epoch e)).
Proof.
  unfold matches, date_matches. rewrite <- !andb_assoc.
  apply and_then_ok; [apply check_year_ok|]. apply and_then_ok; [apply check_month_ok|].
  apply and_then_ok; [apply check_day_ok|]. apply and_then_ok; [apply check_weekday_ok|].
  apply and_then_ok; [apply check_hour_ok|]. apply and_then_ok; [apply check_minute_ok|].
  apply check_second_ok.
Qed.

Lemma next_event_iter_ok :
  match next_event_iter ev (at_epoch e) with
  | Ok (Continue t) => ∃ e', t = at_epoch e' ∧ skips ev e e'
  | Ok (Return (Some next)) => next = e ∧ matches ev e = true
  | Ok (Return None) => ∀ x, e ≤ x → matches ev x = false
  | Err _ => True
  end.
Proof.
  unfold next_event_iter. pose proof next_event_conds_ok as H.
  destruct (next_event_conds ev (at_epoch e)) as [[[t|[r|]]|]|]; simpl in *;
    [apply H|done|apply H| |done].
  rewrite into_epoch_utc by auto. destruct (e =? -1); cbn [rbind]; auto.
Qed.
End Conditions.

(** ** The loop *)
Lemma next_event_loop_ok {L : Libc} {LU : LibcUtc L} ev fuel e :
  wf_event ev → - 2 ^ 54 ≤ e → e + (Z.of_nat fuel + 1) * 2 ^ 41 ≤ 2 ^ 54 →
  match next_event_loop ev fuel (at_epoch e) with
  | Ok (Some next) => e ≤ next ∧ matches ev next = true ∧
      (no_skip ev = true → ∀ x, e ≤ x < next → matches ev x = false)
  | _ => True
  end.
Proof.
  intros Hwf. revert e. induction fuel as [|fuel IH]; intros e Hlo Hhi; [done|].
  cbn [next_event_loop]. pose proof (next_event_iter_ok ev Hwf e ltac:(lia)) as Hit.
  destruct (next_event_iter ev (at_epoch e)) as [[t|[next|]]|]; cbn [rbind]; try done.
  - destruct Hit as (e' & -> & Hlt & Hskip). specialize (IH e' ltac:(lia) ltac:(lia)).
    destruct (next_event_loop ev fuel (at_epoch e')) as [[next|]|]; try done.
    destruct IH as (Hle & Hmatch & Hno). split_and!; [lia|done|]. intros Hs x Hx.
    destruct (Z.lt_ge_cases x e'); [apply Hskip|apply Hno]; done || lia.
  - destruct Hit as [-> Hm]. split_and!; [lia|done|]. intros _ x Hx. lia.
Qed.

(** ** The result of the search *)

(** [C39] The next event is after [last], it matches the event, and no epoch in
    between matches, provided that the jumps of the event stay in their fields. *)
Theorem compute_next_event_correct {L : Libc} {LU : LibcUtc L} ev last next :
  wf_event ev → ev.(ev_utc) = true → - 2 ^ 53 ≤ last ≤ 2 ^ 53 →
  compute_next_event ev last = Ok (Some next) →
  last < next ∧ matches ev next = true ∧
  (no_skip ev = true → ∀ x, last < x < next → matches ev x = false).
Proof.
  intros Hwf Hutc Hlast. unfold compute_next_event. rewrite Hutc.
  assert (wrap_i64 (last + 1) = last + 1) as -> by (unfold wrap_i64; rewrite Z.mod_small; lia).
  rewrite with_epoch_utc by (unfold sane; lia). cbn [rbind]. intros Hloop.
  pose proof (next_event_loop_ok ev loop_limit (last + 1) Hwf ltac:(lia)) as H.
  rewrite Hloop in H. destruct H as (Hle & Hm & Hno).
  { replace (Z.of_nat loop_limit) with 1001 by done. lia. }
  split_and!; [lia|done|]. intros Hs x Hx. apply Hno; [done|lia].
Qed.

(** On the first and the 30th of the month, at midnight. *)
Definition event_1_30 : CalendarEvent :=
  mkEvent true 0 [Single 0] [Single 0] [Single 0] [Single 1; Single 30] [] [].

(** Every eight hours on weekdays, not on the 30th and 31st. *)
Definition event_workdays : CalendarEvent :=
  mkEvent true 31 [Single 0] [Single 0] [Repeated 0 8 None] [Single 1; Range 2 29] [] [].

(** After Friday 2020-07-31 this is Monday, 2020-08-03. *)
Lemma compute_next_event_correct_witness :
  matches event_workdays 1596412800 = true ∧
  ∀ x, 1596153600 < x < 1596412800 → matches event_workdays x = false.
Proof.
  destruct (compute_next_event_correct (L := libc_utc) event_workdays 1596153600 1596412800)
    as (H1 & H2 & H3).
  - split; repeat constructor; simpl; lia.
  - reflexivity.
  - lia.
  - vm_compute. reflexivity.
  - split; [exact H2|]. apply H3. vm_compute. reflexivity.
Defined.

(** An occurrence on the first of March is left out: the search jumps to the
    30th of February, which is the second of March. *)
Lemma next_event_skips_first_of_month :
  compute_next_event (H := libc_utc) event_1_30 (epoch_of 2023 1 15 0 0 0) = Ok (Some (epoch_of 2023 2 30 0 0 0)) ∧
  matches event_1_30 (epoch_of 2023 2 1 0 0 0) = true ∧
  epoch_of 2023 1 15 0 0 0 < epoch_of 2023 2 1 0 0 0 < epoch_of 2023 2 30 0 0 0 ∧ no_skip event_1_30 = false.
Proof. split_and!; vm_compute; reflexivity. Qed.

(** Every seven minutes from the full hour: after minute 57 the full hour is left
    out. The jump is to minute 63. *)
Lemma next_event_skips_full_hour :
  compute_next_event (H := libc_utc) (mkEvent true 0 [Single 0] [Repeated 0 7 None] [] [] [] []) (57 * 60) =
    Ok (Some (67 * 60)) ∧
  matches (mkEvent true 0 [Single 0] [Repeated 0 7 None] [] [] [] []) (60 * 60) = true.
Proof. split; vm_compute; reflexivity. Qed.

(** An event in the last second before the Epoch is an error: libc returns its
    epoch, which is the value it reports errors by. *)
Lemma next_event_fails_before_epoch :
  compute_next_event (H := libc_utc) (mkEvent true 0 [] [] [] [] [] []) (-2) = Err LibcFailed.
Proof. vm_compute. reflexivity. Qed.
