(* ===== verification/CalendarLive.v ===== *)
(** * CalendarLive: calendar events that always occur again

    An event without a year whose fields have a value in range has a next
    occurrence, and the search of [CalendarEvent] finds it long before it gives
    up: within eleven iterations of the thousand it allows itself. The lemmas
    follow the levels of the search from the second up to the date. *)
From S2P Require Import Prelude Gregorian TmEditor CalendarEvent CalendarTheory.

#[local] Open Scope Z_scope.
#[local] Opaque year_of month_of year_start month_start.

(** The field is free or has a value in the range. *)
Definition satisfiable (lo cnt : Z) (list : list DateTimeValue) : bool :=
  match list with
  | [] => true
  | _ => existsb (list_contains list) (seqZ lo cnt)
  end.

(** Events by month and day, or by weekday, without a year. Days after the 28th do
    not occur in every month. *)
Definition live_date (ev : CalendarEvent) : bool :=
  match ev.(ev_year) with
  | [] =>
      all_days ev && satisfiable 1 12 ev.(ev_month) && satisfiable 1 28 ev.(ev_day) &&
        next_within 1 31 28 ev.(ev_day) ||
      match ev.(ev_month), ev.(ev_day) with
      | [], [] => existsb (Z.testbit ev.(ev_days)) (seqZ 0 7)
      | _, _ => false
      end
  | _ => false
  end.

Definition live (ev : CalendarEvent) : bool :=
  no_skip ev && satisfiable 0 60 ev.(ev_second) && satisfiable 0 60 ev.(ev_minute) &&
  satisfiable 0 24 ev.(ev_hour) && live_date ev.

(** ** The status of a field *)

(** A value either matches, or the next match is in the field, or the search goes
    to the start of the next unit, which it does not from the lowest value. *)
Inductive status (list : list DateTimeValue) (lo hi v : Z) : Prop :=
| st_ok (Hok : field_ok list v = true)
| st_next k (Hbad : field_ok list v = false) (Hfind : find_next list v = Some k)
    (Hk : v < k < hi) (Hok : field_ok list k = true)
| st_over (Hbad : field_ok list v = false)
    (Hfind : find_next list v = None ∨ find_next list v = Some hi) (Hlo : v ≠ lo).

Lemma field_status list lo cnt v :
  Forall wf_dtv list → 0 ≤ lo → lo + cnt ≤ 2 ^ 30 →
  satisfiable lo cnt list = true → next_within lo cnt (lo + cnt) list = true → lo ≤ v < lo + cnt →
  status list lo (lo + cnt) v.
Proof.
  intros Hwf Hlo Hhi Hsat Hwithin Hv.
  destruct (field_ok list v) eqn:Hf; [by apply st_ok|].
  destruct list as [|d l]; [done|]. set (ds := d :: l) in *.
  change (existsb (list_contains ds) (seqZ lo cnt) = true) in Hsat.
  apply existsb_exists in Hsat as (w & Hw & Hc). apply list_elem_of_In, elem_of_seqZ in Hw.
  pose proof (find_next_spec ds v Hwf ltac:(lia)) as Hnext.
  change (list_contains ds v = false) in Hf. assert (v ≠ lo ∨ v < w) as Hne.
  { destruct (Z.eq_dec v lo) as [->|]; [|by left]. right.
    destruct (Z.eq_dec w lo) as [->|]; [congruence|lia]. }
  destruct (find_next ds v) as [k|] eqn:Hk.
  - destruct Hnext as (Hb & Hin & Hno). pose proof (next_within_spec _ _ _ _ v _ Hwithin Hv Hk).
    destruct (Z.eq_dec k (lo + cnt)) as [->|].
    + apply st_over; [done|by right|]. destruct Hne as [|Hne]; [done|]. intros ->.
      rewrite Hno in Hc by lia. done.
    + apply (st_next _ _ _ _ k); [done..|lia|done].
  - apply st_over; [done|by left|]. destruct Hne as [|Hne]; [done|]. rewrite Hnext in Hc by done. done.
Qed.

(** The shape of a condition on a field. *)
Lemma cond_shape list v (c_some : Z → Z → cond) (c_none : cond) :
  0 ≤ v < 2 ^ 32 →
  match list with
  | [] => Ok None
  | d :: l =>
      let? v' := u32_try_from v in
      if list_contains (d :: l) v' then Ok None
      else match find_next (d :: l) v' with Some k => c_some v' k | None => c_none end
  end = if field_ok list v then Ok None
        else match find_next list v with Some k => c_some v k | None => c_none end.
Proof. intros Hv. destruct list; [done|]. by rewrite u32_try_from_ok. Qed.

Section Live.
Context {L : Libc} {LU : LibcUtc L}.
Context (ev : CalendarEvent) (Hwf : wf_event ev) (Hlive : live ev = true).

(** [k] iterations are enough to find an event from [e]. *)
Definition solves (k : nat) (e : Z) : Prop :=
  0 ≤ e → e + Z.of_nat k * 2 ^ 41 ≤ 2 ^ 53 →
  ∀ fuel, (k ≤ fuel)%nat → ∃ next, next_event_loop ev fuel (at_epoch e) = Ok (Some next).

Lemma solves_more k k' e : (k ≤ k')%nat → solves k e → solves k' e.
Proof. intros Hk Hs He Hb fuel Hf. apply Hs; lia. Qed.

(** A step to a later epoch. *)
Lemma solves_step k e e' :
  (0 ≤ e → e ≤ 2 ^ 53 - 2 ^ 41 → e < e' ≤ e + 2 ^ 41 ∧
     next_event_conds ev (at_epoch e) = continue_with (goto e')) →
  solves k e' → solves (S k) e.
Proof.
  intros Hstep Hs He Hb fuel Hf. destruct fuel as [|fuel]; [lia|].
  destruct Hstep as [Hlt Hc]; [lia..|]. cbn [next_event_loop]. unfold next_event_iter.
  rewrite Hc. unfold goto. rewrite (proj2 (Z.eqb_neq _ _)) by lia. cbn. apply Hs; lia.
Qed.

Lemma solves_done e : next_event_conds ev (at_epoch e) = Ok None → solves 1 e.
Proof.
  intros Hc He Hb fuel Hf. destruct fuel as [|fuel]; [lia|]. cbn [next_event_loop].
  unfold next_event_iter. rewrite Hc. cbn [rbind]. rewrite into_epoch_utc by (unfold sane; lia).
  rewrite (proj2 (Z.eqb_neq _ _)) by lia. by eexists.
Qed.

(** ** What each condition does *)
Local Lemma live_parts :
  no_skip ev = true ∧ satisfiable 0 60 ev.(ev_second) = true ∧ satisfiable 0 60 ev.(ev_minute) = true ∧
  satisfiable 0 24 ev.(ev_hour) = true ∧ live_date ev = true.
Proof. unfold live in Hlive. by rewrite !andb_true_iff in Hlive; destruct_and! Hlive. Qed.

Local Lemma within_parts :
  next_within 1 12 13 ev.(ev_month) = true ∧ next_within 0 24 24 ev.(ev_hour) = true ∧
  next_within 0 60 60 ev.(ev_minute) = true ∧ next_within 0 60 60 ev.(ev_second) = true.
Proof.
  destruct live_parts as (H & _). unfold no_skip in H. rewrite !andb_true_iff in H. by destruct_and! H.
Qed.

(** The outcome of a condition on a field with value [v]: pass, jump to the next
    value, or go over to the next unit of time. *)
Inductive outcome (list : list DateTimeValue) (lo hi v : Z) (jump : Z → Z) (over : Z) (c : cond) : Prop :=
| oc_pass (Hok : field_ok list v = true) (Hc : c = Ok None)
| oc_jump k (Hk : v < k < hi) (Hok : field_ok list k = true) (Hc : c = continue_with (goto (jump k)))
| oc_over (Hlo : v ≠ lo) (Hc : c = continue_with (goto over)).

Lemma field_outcome list lo cnt v jump over (c_some : Z → Z → cond) (c_none : cond) :
  Forall wf_dtv list → 0 ≤ lo → lo + cnt ≤ 2 ^ 30 →
  satisfiable lo cnt list = true → next_within lo cnt (lo + cnt) list = true → lo ≤ v < lo + cnt →
  (∀ k, v < k ≤ lo + cnt → c_some v k = continue_with (goto (jump k))) →
  c_none = continue_with (goto over) → jump (lo + cnt) = over →
  outcome list lo (lo + cnt) v jump over
    (match list with
     | [] => Ok None
     | d :: l =>
         let? v' := u32_try_from v in
         if list_contains (d :: l) v' then Ok None
         else match find_next (d :: l) v' with Some k => c_some v' k | None => c_none end
     end).
Proof.
  intros Hw Hlo Hhi Hsat Hwithin Hv Hjump Hover Heq. rewrite cond_shape by lia.
  destruct (field_status list lo cnt v) as [Hok|k Hbad Hf Hk Hok|Hbad Hf Hne]; [done..| | |].
  - apply oc_pass; [done|by rewrite Hok].
  - apply (oc_jump _ _ _ _ _ _ _ k); [done..|]. rewrite Hbad, Hf. apply Hjump. lia.
  - apply oc_over; [done|]. rewrite Hbad. destruct Hf as [-> | ->]; [done|].
    rewrite Hjump by lia. by rewrite Heq.
Qed.

Section At.
Context (e : Z) (He : 0 ≤ e ≤ 2 ^ 53 - 2 ^ 41).
#[local] Abbreviation n := (day_number e).

Local Lemma sane_at : sane e.
Proof. unfold sane. lia. Qed.
Local Lemma sane_after e' : e < e' ≤ e + 2 ^ 41 → sane e'.
Proof. unfold sane. lia. Qed.
#[local] Hint Resolve sane_at sane_after : core.

(** Where the editor goes, without the zeros of the source. *)
Local Lemma set_time_goto h : hour_of e < h ≤ 24 →
  continue_with (set_time (at_epoch e) h 0 0) = continue_with (goto (n * 86400 + h * 3600)).
Proof.
  intros Hh. pose proof (time_bounds e). pose proof (epoch_split e).
  rewrite set_time_utc by (auto; unfold sane; lia). do 2 f_equal. lia.
Qed.
Local Lemma set_min_goto m : min_of e < m ≤ 60 →
  continue_with (set_min_sec (at_epoch e) m 0) = continue_with (goto (n * 86400 + hour_of e * 3600 + m * 60)).
Proof.
  intros Hm. pose proof (time_bounds e). pose proof (epoch_split e).
  rewrite set_min_sec_utc by (auto; unfold sane; lia). do 2 f_equal. lia.
Qed.

Lemma hour_outcome :
  outcome ev.(ev_hour) 0 24 (hour_of e) (λ k, n * 86400 + k * 3600) ((n + 1) * 86400) (check_hour ev (at_epoch e)).
Proof.
  pose proof (time_bounds e) as (Hh & _). pose proof (epoch_split e) as Hsplit. pose proof (time_bounds e).
  destruct live_parts as (_ & _ & _ & Hsat & _). destruct within_parts as (_ & Hw & _).
  apply (field_outcome _ 0 24 _ _ _ (λ _ k, let? h := i32_try_from k in continue_with (set_time (at_epoch e) h 0 0)));
    [apply Hwf|lia|lia|done|done|lia| | |lia].
  - intros k Hk. rewrite i32_try_from_ok by lia. apply set_time_goto. lia.
  - by rewrite add_days_utc by (auto; unfold sane; lia).
Qed.

Lemma minute_outcome :
  outcome ev.(ev_minute) 0 60 (min_of e) (λ k, n * 86400 + hour_of e * 3600 + k * 60)
    (n * 86400 + (hour_of e + 1) * 3600) (check_minute ev (at_epoch e)).
Proof.
  pose proof (time_bounds e) as (Hh & Hmi & _).
  destruct live_parts as (_ & _ & Hsat & _). destruct within_parts as (_ & _ & Hw & _).
  apply (field_outcome _ 0 60 _ _ _ (λ _ k, let? m := i32_try_from k in continue_with (set_min_sec (at_epoch e) m 0)));
    [apply Hwf|lia|lia|done|done|lia| | |lia].
  - intros k Hk. rewrite i32_try_from_ok by lia. apply set_min_goto. lia.
  - change (te_hour (at_epoch e)) with (hour_of e). rewrite wrap_i32_small by lia. apply set_time_goto. lia.
Qed.

Lemma second_outcome :
  outcome ev.(ev_second) 0 60 (sec_of e) (λ k, n * 86400 + hour_of e * 3600 + min_of e * 60 + k)
    (n * 86400 + hour_of e * 3600 + (min_of e + 1) * 60) (check_second ev (at_epoch e)).
Proof.
  pose proof (time_bounds e) as (Hh & Hmi & Hs). pose proof (epoch_split e) as Hsplit.
  destruct live_parts as (_ & Hsat & _). destruct within_parts as (_ & _ & _ & Hw).
  apply (field_outcome _ 0 60 _ _ _ (λ _ k, let? s := i32_try_from k in continue_with (set_sec (at_epoch e) s)));
    [apply Hwf|lia|lia|done|done|lia| | |lia].
  - intros k Hk. rewrite i32_try_from_ok by lia. cbn [rbind].
    by rewrite set_sec_utc by (auto; unfold sane; lia).
  - change (te_min (at_epoch e)) with (min_of e). rewrite wrap_i32_small by lia. apply set_min_goto. lia.
Qed.

Lemma month_outcome :
  satisfiable 1 12 ev.(ev_month) = true →
  outcome ev.(ev_month) 1 13 (month_of n + 1) (λ k, months_later e (k - (month_of n + 1)) * 86400)
    (year_start (year_of n + 1) * 86400) (check_month ev (at_epoch e)).
Proof.
  intros Hsat. pose proof (month_of_spec n) as (Hm & _). destruct within_parts as (Hw & _).
  pose proof (later_year e 1 ltac:(lia)) as Hover. unfold check_month. rewrite te_month_utc.
  apply (field_outcome _ 1 12 _ _ _
    (λ v k, let? d := i32_try_from (wrap_u32 (k - v)) in continue_with (add_months (at_epoch e) d)));
    [apply Hwf|lia|lia|done|done|lia| |by rewrite add_years_utc by (auto; lia)|].
  - intros k Hk. rewrite jump_ok by lia. cbn [rbind].
    by rewrite add_months_utc by (auto using later_month with lia || lia).
  - rewrite months_later_in_year by lia. rewrite year_start_succ.
    replace (month_of n + (1 + 12 - (month_of n + 1))) with 12 by lia. by rewrite month_start_12.
Qed.

(** The next day of the list is in the same month. *)
Lemma day_outcome :
  satisfiable 1 28 ev.(ev_day) = true → next_within 1 31 28 ev.(ev_day) = true →
  outcome ev.(ev_day) 1 29 (mday_of n) (λ k, (n + (k - mday_of n)) * 86400)
    (months_later e 1 * 86400) (check_day ev (at_epoch e)).
Proof.
  intros Hsat Hw. pose proof (month_of_spec n) as (Hm & _). pose proof (mday_of_bounds n) as Hd.
  pose proof (month_len_bounds (year_of n) (month_of n) Hm) as Hlen.
  pose proof (later_month e 1 ltac:(lia)) as Hover. pose proof (epoch_split e). pose proof (time_bounds e).
  unfold check_day. change (te_day (at_epoch e)) with (mday_of n).
  rewrite (cond_shape _ _ (λ v k, let? d := i32_try_from (wrap_u32 (k - v)) in continue_with (add_days (at_epoch e) d))) by lia.
  destruct (field_status ev.(ev_day) 1 31 (mday_of n)) as [Hok|k Hbad Hf Hk Hok|Hbad Hf Hne]; try (apply Hwf || lia).
  - destruct (ev_day ev) as [|d l]; [done|]. apply existsb_exists in Hsat as (w & Hin & Hc).
    apply existsb_exists. exists w. split; [|done]. apply list_elem_of_In, elem_of_seqZ in Hin.
    apply list_elem_of_In, elem_of_seqZ. lia.
  - unfold next_within in *. rewrite forallb_forall in Hw |- *. intros v Hv. specialize (Hw v Hv). case_match; lia.
  - apply oc_pass; [done|by rewrite Hok].
  - pose proof (next_within_spec _ _ _ _ (mday_of n) _ Hw ltac:(lia) Hf).
    apply (oc_jump _ _ _ _ _ _ _ k); [lia|done|]. rewrite Hbad, Hf, jump_ok by lia. cbn [rbind].
    by rewrite add_days_utc by (auto; unfold sane; lia).
  - destruct Hf as [Hf|Hf]; [|pose proof (next_within_spec _ _ _ _ (mday_of n) _ Hw ltac:(lia) Hf); lia].
    apply oc_over; [done|]. rewrite Hbad, Hf. by rewrite add_months_utc by (auto; lia).
Qed.
End At.

(** ** Passing conditions *)
Lemma and_then_continue r k : and_then (continue_with r) k = continue_with r.
Proof. by destruct r. Qed.

Definition after_date (t : TmEditor) : cond :=
  and_then (check_hour ev t) (λ _, and_then (check_minute ev t) (λ _, check_second ev t)).

Lemma no_year : ev.(ev_year) = [].
Proof. destruct live_parts as (_ & _ & _ & _ & H). unfold live_date in H. by destruct (ev_year ev). Qed.

Lemma weekday_pass e : weekday_ok ev (day_number e) = true → check_weekday ev (at_epoch e) = Ok None.
Proof.
  unfold weekday_ok, check_weekday. intros H. destruct (all_days ev); [done|].
  pose proof (weekday_of_bounds (day_number e)). rewrite te_day_num_utc. fold (weekday_of (day_number e)).
  rewrite u32_try_from_ok by lia. cbn [rbind]. rewrite has_weekday_spec by lia. cbn [rbind orb] in *. by rewrite H.
Qed.

Lemma month_pass e : field_ok ev.(ev_month) (month_of (day_number e) + 1) = true → check_month ev (at_epoch e) = Ok None.
Proof.
  intros H. pose proof (month_of_spec (day_number e)) as (? & _). unfold check_month. rewrite te_month_utc.
  rewrite (cond_shape _ _ (λ v k, let? d := i32_try_from (wrap_u32 (k - v)) in continue_with (add_months (at_epoch e) d))) by lia.
  by rewrite H.
Qed.

Lemma day_pass e : field_ok ev.(ev_day) (mday_of (day_number e)) = true → check_day ev (at_epoch e) = Ok None.
Proof.
  intros H. pose proof (month_of_spec (day_number e)) as (Hm & _). pose proof (mday_of_bounds (day_number e)).
  pose proof (month_len_bounds (year_of (day_number e)) _ Hm).
  unfold check_day. change (te_day (at_epoch e)) with (mday_of (day_number e)).
  rewrite (cond_shape _ _ (λ v k, let? d := i32_try_from (wrap_u32 (k - v)) in continue_with (add_days (at_epoch e) d))) by lia.
  by rewrite H.
Qed.

Lemma conds_month e :
  next_event_conds ev (at_epoch e) =
  and_then (check_month ev (at_epoch e)) (λ _, and_then (check_day ev (at_epoch e)) (λ _,
    and_then (check_weekday ev (at_epoch e)) (λ _, after_date (at_epoch e)))).
Proof. unfold next_event_conds, check_year. by rewrite no_year. Qed.

Lemma conds_date e :
  date_matches ev (day_number e) = true → next_event_conds ev (at_epoch e) = after_date (at_epoch e).
Proof.
  unfold date_matches. rewrite !andb_true_iff. intros (((_ & H1) & H2) & H3).
  by rewrite conds_month, month_pass, day_pass, weekday_pass.
Qed.

Lemma solves_intro k e : (0 ≤ e ≤ 2 ^ 53 - 2 ^ 41 → solves (S k) e) → solves (S k) e.
Proof. intros H He Hb. apply H; lia. Qed.

(** ** From the start of a unit of time *)
Definition ep (n h mi s : Z) : Z := n * 86400 + h * 3600 + mi * 60 + s.

Lemma ep_fields n h mi s :
  0 ≤ h ≤ 23 → 0 ≤ mi ≤ 59 → 0 ≤ s ≤ 59 →
  day_number (ep n h mi s) = n ∧ hour_of (ep n h mi s) = h ∧ min_of (ep n h mi s) = mi ∧ sec_of (ep n h mi s) = s.
Proof. apply fields_of_epoch. Qed.

Lemma hour_pass e : field_ok ev.(ev_hour) (hour_of e) = true → check_hour ev (at_epoch e) = Ok None.
Proof.
  intros H. pose proof (time_bounds e). unfold check_hour. change (te_hour (at_epoch e)) with (hour_of e).
  rewrite (cond_shape _ _ (λ _ k, let? h := i32_try_from k in continue_with (set_time (at_epoch e) h 0 0))) by lia.
  by rewrite H.
Qed.

Lemma minute_pass e : field_ok ev.(ev_minute) (min_of e) = true → check_minute ev (at_epoch e) = Ok None.
Proof.
  intros H. pose proof (time_bounds e). unfold check_minute. change (te_min (at_epoch e)) with (min_of e).
  rewrite (cond_shape _ _ (λ _ k, let? m := i32_try_from k in continue_with (set_min_sec (at_epoch e) m 0))) by lia.
  by rewrite H.
Qed.

Lemma after_date_pass e :
  field_ok ev.(ev_hour) (hour_of e) = true → field_ok ev.(ev_minute) (min_of e) = true →
  after_date (at_epoch e) = check_second ev (at_epoch e).
Proof. intros Hh Hm. unfold after_date. by rewrite hour_pass, minute_pass. Qed.

(** The time of the day has the fields of [ep]; the outcome of a condition that
    does not pass is a step. *)
Lemma solve_all n h mi s :
  date_matches ev n = true → 0 ≤ h ≤ 23 → 0 ≤ mi ≤ 59 → 0 ≤ s ≤ 59 → field_ok ev.(ev_hour) h = true →
  field_ok ev.(ev_minute) mi = true → field_ok ev.(ev_second) s = true → solves 1 (ep n h mi s).
Proof.
  intros Hd Hh Hmi Hs Fh Fm Fs. destruct (ep_fields n h mi s) as (E1 & E2 & E3 & E4); [done..|].
  apply solves_done. rewrite conds_date, after_date_pass by congruence. unfold check_second.
  change (te_sec (at_epoch (ep n h mi s))) with (sec_of (ep n h mi s)). rewrite E4.
  rewrite (cond_shape _ _ (λ _ k, let? s' := i32_try_from k in continue_with (set_sec (at_epoch (ep n h mi s)) s'))) by lia.
  by rewrite Fs.
Qed.

Lemma solve_sec k n h mi s :
  date_matches ev n = true → 0 ≤ h ≤ 23 → 0 ≤ mi ≤ 59 → 0 ≤ s ≤ 59 → field_ok ev.(ev_hour) h = true →
  field_ok ev.(ev_minute) mi = true → (1 ≤ k)%nat →
  (s ≠ 0 → solves k (n * 86400 + h * 3600 + (mi + 1) * 60)) → solves (S k) (ep n h mi s).
Proof.
  intros Hd Hh Hmi Hs Fh Fm Hk Hover. destruct (ep_fields n h mi s) as (E1 & E2 & E3 & E4); [done..|].
  apply solves_intro. intros He.
  destruct (second_outcome _ He) as [Hok Hc|j Hj Hok Hc|Hne Hc]; rewrite E4 in *.
  - apply (solves_more 1); [lia|]. by apply solve_all.
  - apply (solves_more 2); [lia|]. apply (solves_step 1 _ (ep n h mi j)); [|apply solve_all; done || lia].
    intros _ _. rewrite conds_date, after_date_pass, Hc, E1, E2, E3 by congruence. unfold ep. split; [lia|done].
  - apply (solves_step k _ (n * 86400 + h * 3600 + (mi + 1) * 60)); [|auto]. intros _ _.
    rewrite conds_date, after_date_pass, Hc, E1, E2, E3 by congruence. unfold ep. split; [lia|done].
Qed.

Lemma solve_min k n h mi :
  date_matches ev n = true → 0 ≤ h ≤ 23 → 0 ≤ mi ≤ 59 → field_ok ev.(ev_hour) h = true → (2 ≤ k)%nat →
  (mi ≠ 0 → solves k (n * 86400 + (h + 1) * 3600)) → solves (S k) (ep n h mi 0).
Proof.
  intros Hd Hh Hmi Fh Hk Hover. destruct (ep_fields n h mi 0) as (E1 & E2 & E3 & E4); [done || lia..|].
  apply solves_intro. intros He.
  assert (next_event_conds ev (at_epoch (ep n h mi 0)) =
          and_then (check_minute ev (at_epoch (ep n h mi 0))) (λ _, check_second ev (at_epoch (ep n h mi 0)))) as Hconds.
  { rewrite conds_date by congruence. unfold after_date. by rewrite hour_pass by congruence. }
  destruct (minute_outcome _ He) as [Hok Hc|j Hj Hok Hc|Hne Hc]; rewrite E3 in *.
  - apply (solves_more 2); [lia|]. apply solve_sec; done || lia.
  - apply (solves_more 3); [lia|]. apply (solves_step 2 _ (ep n h j 0)).
    + intros _ _. rewrite Hconds, Hc, and_then_continue, E1, E2. unfold ep. split; [lia|]. do 2 f_equal. lia.
    + apply solve_sec; done || lia.
  - apply (solves_step k _ (n * 86400 + (h + 1) * 3600)); [|auto]. intros _ _.
    rewrite Hconds, Hc, and_then_continue, E1, E2. unfold ep. split; [lia|done].
Qed.

Lemma solve_hour k n h :
  date_matches ev n = true → 0 ≤ h ≤ 23 → (3 ≤ k)%nat →
  (h ≠ 0 → solves k ((n + 1) * 86400)) → solves (S k) (ep n h 0 0).
Proof.
  intros Hd Hh Hk Hover. destruct (ep_fields n h 0 0) as (E1 & E2 & E3 & E4); [done || lia..|].
  apply solves_intro. intros He.
  assert (next_event_conds ev (at_epoch (ep n h 0 0)) = after_date (at_epoch (ep n h 0 0))) as Hconds
    by (apply conds_date; congruence).
  destruct (hour_outcome _ He) as [Hok Hc|j Hj Hok Hc|Hne Hc]; rewrite E2 in *.
  - apply (solves_more 3); [lia|]. apply solve_min; done || lia.
  - apply (solves_more 4); [lia|]. apply (solves_step 3 _ (ep n j 0 0)).
    + intros _ _. rewrite Hconds. unfold after_date. rewrite Hc, and_then_continue, E1. unfold ep.
      split; [lia|]. do 2 f_equal. lia.
    + apply solve_min; done || lia.
  - apply (solves_step k _ ((n + 1) * 86400)); [|auto]. intros _ _.
    rewrite Hconds. unfold after_date. rewrite Hc, and_then_continue, E1. unfold ep. split; [lia|done].
Qed.

(** Midnight of a day that matches. *)
Lemma solve_midnight n : date_matches ev n = true → solves 4 (n * 86400).
Proof.
  intros Hd. replace (n * 86400) with (ep n 0 0 0) by (unfold ep; lia). apply solve_hour; done || lia.
Qed.

(** ** Dates *)
Lemma midnight_day n : day_number (n * 86400) = n.
Proof. unfold day_number. by rewrite Z.div_mul by lia. Qed.

Lemma new_year y : month_of (year_start y) = 0 ∧ mday_of (year_start y) = 1.
Proof.
  pose proof (month_len_bounds y 0 ltac:(lia)).
  destruct (date_of_day y 0 1) as (_ & H1 & H2); [lia..|].
  assert (day_of_date y 0 1 = year_start y) as E by (unfold day_of_date; rewrite month_start_0; lia).
  by rewrite E in *.
Qed.

(** The first of a later month of the same year. *)
Lemma first_of_month e k :
  0 < k → month_of (day_number e) + k ≤ 11 →
  month_of (months_later e k) = month_of (day_number e) + k ∧ mday_of (months_later e k) = 1.
Proof.
  intros Hk Hm. pose proof (month_of_spec (day_number e)) as (Hm' & _).
  rewrite months_later_in_year by lia. set (y := year_of (day_number e)). set (m := month_of (day_number e) + k).
  pose proof (month_len_bounds y m ltac:(lia)). destruct (date_of_day y m 1) as (_ & H1 & H2); [lia..|].
  assert (day_of_date y m 1 = year_start y + month_start y m) as E by (unfold day_of_date; lia).
  by rewrite E in *.
Qed.

Section ByMonth.
Context (Hall : all_days ev = true) (Hmonth : satisfiable 1 12 ev.(ev_month) = true)
  (Hday : satisfiable 1 28 ev.(ev_day) = true) (Hwithin : next_within 1 31 28 ev.(ev_day) = true).

Lemma by_month_matches n :
  field_ok ev.(ev_month) (month_of n + 1) = true → field_ok ev.(ev_day) (mday_of n) = true → date_matches ev n = true.
Proof. intros H1 H2. unfold date_matches, weekday_ok. by rewrite no_year, H1, H2, Hall. Qed.

Lemma solve_day k e :
  field_ok ev.(ev_month) (month_of (day_number e) + 1) = true →
  date_matches ev (day_number e) = false ∨ e = day_number e * 86400 → (4 ≤ k)%nat →
  (mday_of (day_number e) ≠ 1 → solves k (months_later e 1 * 86400)) → solves (S k) e.
Proof.
  intros Fm Hor Hk Hover. apply solves_intro. intros He. set (n := day_number e) in *.
  pose proof (month_of_spec n) as (Hm & _). pose proof (mday_of_bounds n) as Hd.
  pose proof (month_len_bounds (year_of n) (month_of n) Hm) as Hlen.
  pose proof (epoch_split e) as Hsplit. pose proof (time_bounds e) as Htime. fold n in Hsplit.
  destruct (day_outcome e He Hday Hwithin) as [Hok Hc|j Hj Hok Hc|Hne Hc]; fold n in Hc, Hok || fold n in Hc, Hne.
  - pose proof (by_month_matches n Fm Hok) as Hdate. destruct Hor as [Hbad|E]; [congruence|].
    apply (solves_more 4); [lia|]. rewrite E. by apply solve_midnight.
  - apply (solves_more 5); [lia|]. fold n in Hj. apply (solves_step 4 _ ((n + (j - mday_of n)) * 86400)).
    + intros _ _. rewrite conds_month, month_pass by done. cbn [and_then rbind]. rewrite Hc, and_then_continue.
      split; [lia|done].
    + apply solve_midnight. destruct (same_month n (n + (j - mday_of n))) as (_ & E1 & E2); [lia|].
      apply by_month_matches; [by rewrite E1|]. rewrite E2. by replace (mday_of n + _) with j by lia.
  - apply (solves_step k _ (months_later e 1 * 86400)); [|auto]. intros _ _.
    rewrite conds_month, month_pass by done. cbn [and_then rbind]. rewrite Hc, and_then_continue.
    split; [apply later_month; lia|done].
Qed.

(** The first of a month that matches. *)
Lemma solve_first n :
  field_ok ev.(ev_month) (month_of n + 1) = true → mday_of n = 1 → solves 5 (n * 86400).
Proof. intros Fm Hd. apply solve_day; rewrite ?midnight_day; auto with lia. Qed.

Lemma solve_month k e :
  date_matches ev (day_number e) = false ∨ e = day_number e * 86400 ∧ mday_of (day_number e) = 1 → (5 ≤ k)%nat →
  (mday_of (day_number e) ≠ 1 → solves k (months_later e 1 * 86400)) →
  (month_of (day_number e) ≠ 0 → solves k (year_start (year_of (day_number e) + 1) * 86400)) → solves (S k) e.
Proof.
  intros Hor Hk Hnext Hover. apply solves_intro. intros He. set (n := day_number e) in *.
  pose proof (month_of_spec n) as (Hm & _).
  destruct (month_outcome e He Hmonth) as [Hok Hc|j Hj Hok Hc|Hne Hc].
  - apply solve_day; [done| |lia|done]. destruct Hor as [|[? _]]; auto.
  - apply (solves_more 6); [lia|]. fold n in Hj, Hc. apply (solves_step 5 _ (months_later e (j - (month_of n + 1)) * 86400)).
    + intros _ _. rewrite conds_month, Hc, and_then_continue. split; [apply later_month; lia|done].
    + destruct (first_of_month e (j - (month_of n + 1))) as [E1 E2]; [fold n; lia..|]. fold n in E1.
      apply solve_first; [|done]. rewrite E1. by replace (month_of n + (j - (month_of n + 1)) + 1) with j by lia.
  - fold n in Hne, Hc. apply (solves_step k _ (year_start (year_of n + 1) * 86400)); [|apply Hover; lia].
    intros _ _. rewrite conds_month, Hc, and_then_continue. split; [apply later_year; lia|done].
Qed.

Lemma solve_by_month e : date_matches ev (day_number e) = false → solves 8 e.
Proof.
  intros Hbad.
  assert (∀ y, solves 6 (year_start y * 86400)) as Hyear.
  { intros y. destruct (new_year y) as [E1 E2]. apply solve_month; rewrite ?midnight_day, ?E1, ?E2; auto with lia. }
  assert (∀ n, mday_of n = 1 → solves 7 (n * 86400)) as Hfirst.
  { intros n Hn. apply solve_month; rewrite ?midnight_day, ?Hn; auto with lia. }
  apply solve_month; [by left|lia| |].
  - intros _. apply Hfirst. pose proof (next_month_days e 0) as H. rewrite Z.add_0_r in H. apply H. lia.
  - intros _. apply (solves_more 6); [lia|]. apply Hyear.
Qed.
End ByMonth.

Section ByWeekday.
Context (Hmonth : ev.(ev_month) = []) (Hday : ev.(ev_day) = [])
  (Hsome : existsb (Z.testbit ev.(ev_days)) (seqZ 0 7) = true).

Lemma by_weekday_matches n : date_matches ev n = weekday_ok ev n.
Proof. unfold date_matches. by rewrite no_year, Hmonth, Hday. Qed.

(** The search goes to the next day of the week, or to Monday. *)
Lemma weekday_step e :
  0 ≤ e ≤ 2 ^ 53 - 2 ^ 41 → weekday_ok ev (day_number e) = false →
  ∃ k, e < (day_number e + k) * 86400 ≤ e + 2 ^ 41 ∧
    next_event_conds ev (at_epoch e) = continue_with (goto ((day_number e + k) * 86400)) ∧
    (weekday_ok ev (day_number e + k) = true ∨
     weekday_of (day_number e) ≠ 0 ∧ weekday_of (day_number e + k) = 0).
Proof.
  intros He Hbad. set (n := day_number e) in *. pose proof (weekday_of_bounds n) as Hw.
  pose proof (epoch_split e) as Hsplit. pose proof (time_bounds e) as Htime. fold n in Hsplit.
  unfold weekday_ok in Hbad. apply orb_false_iff in Hbad as [Hall Hbit].
  rewrite conds_month. unfold check_month, check_day. rewrite Hmonth, Hday. cbn [and_then rbind].
  unfold check_weekday. rewrite Hall, te_day_num_utc. fold n. fold (weekday_of n).
  rewrite u32_try_from_ok by lia. cbn [rbind]. rewrite has_weekday_spec, Hbit by lia. cbn [rbind].
  destruct (find_weekday_spec ev (Z.to_nat (7 - (weekday_of n + 1))) (weekday_of n + 1)) as (r & -> & Hr); [lia..|].
  cbn [rbind]. destruct r as [j|].
  - destruct Hr as (Hj & Hset & _). exists (j - weekday_of n). rewrite jump_ok by lia. cbn [rbind].
    rewrite add_days_utc by (unfold sane; fold n; lia). rewrite and_then_continue. split_and!; [lia|lia|done|].
    left. unfold weekday_ok. rewrite weekday_of_add by lia. rewrite Hall.
    by replace (weekday_of n + (j - weekday_of n)) with j by lia.
  - exists (7 - weekday_of n). rewrite jump_ok by lia. cbn [rbind].
    rewrite add_days_utc by (unfold sane; fold n; lia). rewrite and_then_continue. split_and!; [lia|lia|done|].
    right. split.
    + intros E. apply existsb_exists in Hsome as (d & Hd & Hset). apply list_elem_of_In, elem_of_seqZ in Hd.
      destruct (Z.eq_dec d 0) as [->|]; [rewrite E in Hbit; congruence|]. rewrite Hr in Hset by lia. done.
    + unfold weekday_of in *. Z.to_euclidean_division_equations. lia.
Qed.

Lemma solve_weekday k e :
  date_matches ev (day_number e) = false → (4 ≤ k)%nat →
  (∀ n, weekday_of (day_number e) ≠ 0 → weekday_of n = 0 → solves k (n * 86400)) → solves (S k) e.
Proof.
  intros Hbad Hk Hmonday. rewrite by_weekday_matches in Hbad. apply solves_intro. intros He.
  destruct (weekday_step e He Hbad) as (j & Hj & Hc & Hor).
  apply (solves_step k _ ((day_number e + j) * 86400)); [done|].
  destruct Hor as [Hok|[Hne Hmon]]; [|auto].
  apply (solves_more 4); [lia|]. apply solve_midnight. by rewrite by_weekday_matches.
Qed.

Lemma solve_by_weekday e : date_matches ev (day_number e) = false → solves 8 e.
Proof.
  intros Hbad. apply (solves_more 6); [lia|]. apply solve_weekday; [done|lia|]. intros n _ Hn.
  destruct (date_matches ev n) eqn:Hd; [apply (solves_more 4); [lia|]; by apply solve_midnight|].
  apply solve_weekday; rewrite ?midnight_day; auto with lia.
Qed.
End ByWeekday.

Lemma solve_date e : date_matches ev (day_number e) = false → solves 8 e.
Proof.
  destruct live_parts as (_ & _ & _ & _ & Hd). unfold live_date in Hd. rewrite no_year in Hd.
  apply orb_true_iff in Hd as [Hd|Hd].
  - rewrite !andb_true_iff in Hd. destruct_and! Hd. by apply solve_by_month.
  - destruct (ev_month ev) eqn:Hm, (ev_day ev) eqn:Hday; try done. by apply solve_by_weekday.
Qed.

(** ** From any time *)
Lemma solve_day_start n : solves 8 (n * 86400).
Proof.
  destruct (date_matches ev n) eqn:Hd; [apply (solves_more 4); [lia|]; by apply solve_midnight|].
  apply solve_date. by rewrite midnight_day.
Qed.

Lemma solve_next_hour n h :
  date_matches ev n = true → 0 ≤ h ≤ 23 → solves 9 (n * 86400 + (h + 1) * 3600).
Proof.
  intros Hd Hh. destruct (Z.eq_dec h 23) as [->|].
  - apply (solves_more 8); [lia|].
    replace (n * 86400 + (23 + 1) * 3600) with ((n + 1) * 86400) by lia. apply solve_day_start.
  - replace (n * 86400 + (h + 1) * 3600) with (ep n (h + 1) 0 0) by (unfold ep; lia).
    apply solve_hour; [done|lia|lia|]. intros _. apply solve_day_start.
Qed.

Lemma solve_any e : solves 11 e.
Proof.
  destruct (date_matches ev (day_number e)) eqn:Hd; [|apply (solves_more 8); [lia|]; by apply solve_date].
  pose proof (time_bounds e) as (Hh & Hmi & Hs).
  assert (e = ep (day_number e) (hour_of e) (min_of e) (sec_of e)) as Hep by apply epoch_split.
  apply solves_intro. intros He. set (n := day_number e) in *.
  destruct (hour_outcome e He) as [Fh _|j Hj Fh Hc|_ Hc].
  2: { apply (solves_more 4); [lia|]. apply (solves_step 3 _ (ep n j 0 0)).
       - intros _ _. rewrite conds_date by done. unfold after_date. rewrite Hc, and_then_continue. fold n.
         unfold ep in *. split; [lia|]. do 2 f_equal. lia.
       - apply solve_min; done || lia. }
  2: { apply (solves_more 9); [lia|]. apply (solves_step 8 _ ((n + 1) * 86400)); [|apply solve_day_start].
       intros _ _. rewrite conds_date by done. unfold after_date. rewrite Hc, and_then_continue.
       unfold ep in *. split; [lia|done]. }
  destruct (minute_outcome e He) as [Fm _|j Hj Fm Hc|_ Hc].
  2: { apply (solves_more 3); [lia|]. apply (solves_step 2 _ (ep n (hour_of e) j 0)).
       - intros _ _. rewrite conds_date by done. unfold after_date.
         rewrite hour_pass by done. cbn [and_then rbind]. rewrite Hc, and_then_continue. fold n.
         unfold ep in *. split; [lia|]. do 2 f_equal. lia.
       - apply solve_sec; done || lia. }
  2: { apply (solves_more 10); [lia|]. apply (solves_step 9 _ (n * 86400 + (hour_of e + 1) * 3600));
         [|by apply solve_next_hour].
       intros _ _. rewrite conds_date by done. unfold after_date.
       rewrite hour_pass by done. cbn [and_then rbind]. rewrite Hc, and_then_continue.
       unfold ep in *. split; [lia|done]. }
  rewrite Hep. apply solve_sec; try done; try lia. intros _.
  destruct (Z.eq_dec (min_of e) 59) as [->|].
  - apply (solves_more 9); [lia|].
    replace (n * 86400 + hour_of e * 3600 + (59 + 1) * 60) with (n * 86400 + (hour_of e + 1) * 3600) by lia.
    by apply solve_next_hour.
  - replace (n * 86400 + hour_of e * 3600 + (min_of e + 1) * 60) with (ep n (hour_of e) (min_of e + 1) 0)
      by (unfold ep; lia).
    apply solve_min; try done; try lia. intros _. by apply solve_next_hour.
Qed.
End Live.

(** [C40] An event in UTC that is [live] has a next occurrence after every second from
    -1 to 2^52: the search finds it and does not run into its limit of iterations. An
    event is live if it has no list of years; if each of its lists of seconds, minutes,
    hours and months is empty or has a value in the range of its field, and the search
    from a value of the field never goes beyond the start of the next unit; and if it
    either allows all weekdays and its list of days is empty or has a value from 1 to 28
    and the search in it never goes beyond the 28th, or names some weekday and no months
    and days. *)
Theorem live_event_occurs {L : Libc} {LU : LibcUtc L} ev last :
  wf_event ev → ev.(ev_utc) = true → live ev = true → -1 ≤ last ≤ 2 ^ 52 →
  ∃ next, compute_next_event ev last = Ok (Some next).
Proof.
  intros Hwf Hutc Hlive Hlast. unfold compute_next_event. rewrite Hutc.
  assert (wrap_i64 (last + 1) = last + 1) as -> by (unfold wrap_i64; rewrite Z.mod_small; lia).
  rewrite with_epoch_utc by (unfold sane; lia). cbn [rbind].
  apply (solve_any ev Hwf Hlive (last + 1)); unfold loop_limit; lia.
Qed.

(** Working days at half past eight. *)
Definition event_office : CalendarEvent :=
  mkEvent true 31 [Single 0] [Single 30] [Single 8] [] [] [].

Lemma live_event_occurs_witness :
  ∃ next, compute_next_event (H := libc_utc) event_office 1596153600 = Ok (Some next).
Proof.
  apply (live_event_occurs (L := libc_utc) event_office 1596153600).
  - split; repeat constructor; simpl; lia.
  - reflexivity.
  - vm_compute. reflexivity.
  - lia.
Defined.

(** The shorthands of the parser are live events. *)
Lemma monthly_live : live (mkEvent true 0 [Single 0] [Single 0] [Single 0] [Single 1] [] []) = true.
Proof. vm_compute. reflexivity. Qed.
Lemma quarterly_live :
  live (mkEvent true 0 [Single 0] [Single 0] [Single 0] [Single 1] [Single 1; Single 4; Single 7; Single 10] []) = true.
Proof. vm_compute. reflexivity. Qed.
