(* ===== verification/Nom.v ===== *)
(** * Nom: the parser combinators the time formats are read with

    [nom] is a library; its combinators are a parameter of the parsers, the class
    [Nom]. [NomLaws] states their documented behaviour on complete input, and
    [nom_complete] is an instance, by which the parsers can be run. *)
From S2P Require Import Prelude.

(** [nom::Err]. The errors of the parsers are recoverable ones. *)
Inductive nom_err := NomError | NomFailure | NomIncomplete.

(** [IResult<&str, A>]: the rest of the input and the value. *)
Definition parser (A : Type) : Type := rstr → result (rstr * A) nom_err.

Class Nom := {
  tag : rstr → parser rstr;
  digit1 : parser rstr;
  alpha1 : parser rstr;
  space0 : parser rstr;
  nom_u64 : parser N;
  opt {A} : parser A → parser (option A);
  preceded {A B} : parser A → parser B → parser B;
  terminated {A B} : parser A → parser B → parser A;
  pair {A B} : parser A → parser B → parser (A * B);
  tuple3 {A B C} : parser A → parser B → parser C → parser (A * B * C);
  recognize {A} : parser A → parser rstr;
  map_res {A B} : parser A → (A → option B) → parser B;
  all_consuming {A} : parser A → parser A;
  context {A} : rstr → parser A → parser A;
  separated_list1 {A B} : parser A → parser B → parser (list B)
}.

(** The part of the input a parser consumed. *)
Definition consumed (i r : rstr) : rstr := take (length i - length r) i.

(** One or more characters of a kind. *)
Definition run1 (p : rchar → bool) : parser rstr := λ i,
  match take_while p i with
  | [] => Err NomError
  | w => Ok (drop_while p i, w)
  end.

(** A number of the type [u64] in front of a character that is no digit. *)
Definition number64 : parser N := λ i,
  let? rw := run1 is_ascii_digit i in
  if (digits_val rw.2 <=? u64_max)%N then Ok (rw.1, digits_val rw.2) else Err NomError.

Class NomLaws (N : Nom) : Prop := {
  tag_eq t i : tag t i = if decide (take (length t) i = t) then Ok (drop (length t) i, t) else Err NomError;
  digit1_eq i : digit1 i = run1 is_ascii_digit i;
  alpha1_eq i : alpha1 i = run1 is_ascii_alphabetic i;
  space0_eq i : space0 i = Ok (drop_while (λ c, (c =? 32) || (c =? 9))%N i, take_while (λ c, (c =? 32) || (c =? 9))%N i);
  nom_u64_eq i : nom_u64 i = number64 i;
  opt_eq {A} (p : parser A) i :
    opt p i = match p i with
              | Ok (r, a) => Ok (r, Some a)
              | Err NomError => Ok (i, None)
              | Err e => Err e
              end;
  preceded_eq {A B} (p : parser A) (q : parser B) i : preceded p q i = let? ra := p i in q ra.1;
  terminated_eq {A B} (p : parser A) (q : parser B) i :
    terminated p q i = let? ra := p i in let? rb := q ra.1 in Ok (rb.1, ra.2);
  pair_eq {A B} (p : parser A) (q : parser B) i :
    pair p q i = let? ra := p i in let? rb := q ra.1 in Ok (rb.1, (ra.2, rb.2));
  tuple3_eq {A B C} (p : parser A) (q : parser B) (s : parser C) i :
    tuple3 p q s i =
      let? ra := p i in let? rb := q ra.1 in let? rc := s rb.1 in Ok (rc.1, (ra.2, rb.2, rc.2));
  recognize_eq {A} (p : parser A) i : recognize p i = let? ra := p i in Ok (ra.1, consumed i ra.1);
  map_res_eq {A B} (p : parser A) (f : A → option B) i :
    map_res p f i = let? ra := p i in match f ra.2 with Some b => Ok (ra.1, b) | None => Err NomError end;
  all_consuming_eq {A} (p : parser A) i :
    all_consuming p i = let? ra := p i in if decide (ra.1 = []) then Ok ra else Err NomError;
  context_eq {A} c (p : parser A) i : context c p i = p i;
  (** the elements of a list were parsed, there is one at least *)
  separated_list1_elements {A B} (s : parser A) (p : parser B) i r l :
    separated_list1 s p i = Ok (r, l) → l ≠ [] ∧ Forall (λ b, ∃ j rest, p j = Ok (rest, b)) l
}.

(** [parse_complete_line] of [proxmox-time/src/parse_helpers.rs]. *)
Inductive LineError := UnableToParse.

Definition parse_complete_line `{Nom} {O} (p : parser O) (i : rstr) : result O LineError :=
  match all_consuming p i with
  | Ok (_, data) => Ok data
  | Err _ => Err UnableToParse
  end.

(** ** An instance *)

(** The elements after the first one: a separator without an element behind it is
    left in the input. *)
Fixpoint list_rest {A B} (fuel : nat) (s : parser A) (p : parser B) (i : rstr) (acc : list B) :
  result (rstr * list B) nom_err :=
  match fuel with
  | O => Ok (i, acc)
  | S fuel' =>
      match s i with
      | Err NomError => Ok (i, acc)
      | Err e => Err e
      | Ok (i1, _) =>
          if decide (length i1 = length i) then Err NomError
          else match p i1 with
               | Err NomError => Ok (i, acc)
               | Err e => Err e
               | Ok (i2, b) => list_rest fuel' s p i2 (acc ++ [b])
               end
      end
  end.

Definition nom_complete : Nom := {|
  tag t i := if decide (take (length t) i = t) then Ok (drop (length t) i, t) else Err NomError;
  digit1 := run1 is_ascii_digit;
  alpha1 := run1 is_ascii_alphabetic;
  space0 i := Ok (drop_while (λ c, (c =? 32) || (c =? 9))%N i, take_while (λ c, (c =? 32) || (c =? 9))%N i);
  nom_u64 := number64;
  opt _ p i := match p i with
               | Ok (r, a) => Ok (r, Some a)
               | Err NomError => Ok (i, None)
               | Err e => Err e
               end;
  preceded _ _ p q i := let? ra := p i in q ra.1;
  terminated _ _ p q i := let? ra := p i in let? rb := q ra.1 in Ok (rb.1, ra.2);
  pair _ _ p q i := let? ra := p i in let? rb := q ra.1 in Ok (rb.1, (ra.2, rb.2));
  tuple3 _ _ _ p q s i :=
    let? ra := p i in let? rb := q ra.1 in let? rc := s rb.1 in Ok (rc.1, (ra.2, rb.2, rc.2));
  recognize _ p i := let? ra := p i in Ok (ra.1, consumed i ra.1);
  map_res _ _ p f i := let? ra := p i in match f ra.2 with Some b => Ok (ra.1, b) | None => Err NomError end;
  all_consuming _ p i := let? ra := p i in if decide (ra.1 = []) then Ok ra else Err NomError;
  context _ _ p i := p i;
  separated_list1 _ _ s p i := let? ra := p i in list_rest (S (length ra.1)) s p ra.1 [ra.2]
|}.

Lemma list_rest_elements {A B} fuel (s : parser A) (p : parser B) i acc r l :
  acc ≠ [] → Forall (λ b, ∃ j rest, p j = Ok (rest, b)) acc → list_rest fuel s p i acc = Ok (r, l) →
  l ≠ [] ∧ Forall (λ b, ∃ j rest, p j = Ok (rest, b)) l.
Proof.
  revert i acc. induction fuel as [|fuel IH]; simpl; intros i acc Hne Hall H; [by simplify_eq|].
  destruct (s i) as [[i1 a]|[]]; simplify_eq; try done. case_decide; [done|].
  destruct (p i1) as [[i2 b]|[]] eqn:Hp; simplify_eq; try done.
  eapply IH; [|..|done].
  - by destruct acc.
  - apply Forall_app. split; [done|]. repeat constructor. eauto.
Qed.

#[export] Instance nom_complete_laws : NomLaws nom_complete.
Proof.
  split; try done. intros A B s p i r l. cbn [separated_list1 nom_complete].
  destruct (p i) as [[i1 b]|] eqn:Hp; [|done]. cbn [rbind fst snd].
  apply (list_rest_elements (S (length i1))); [done|]. repeat constructor. eauto.
Qed.

(** ** Consequences for the clients *)

(** A run of characters ends where the next one is of another kind. *)
Definition stops (p : rchar → bool) (r : rstr) : Prop :=
  match r with
  | [] => True
  | c :: _ => p c = false
  end.

Lemma take_while_run p w r : Forall (λ c, p c = true) w → stops p r → take_while p (w ++ r) = w.
Proof.
  intros Hw Hr. induction Hw as [|c w Hc _ IH]; simpl.
  - destruct r as [|c r]; [done|]. simpl in *. by rewrite Hr.
  - by rewrite Hc, IH.
Qed.

Lemma drop_while_run p w r : Forall (λ c, p c = true) w → stops p r → drop_while p (w ++ r) = r.
Proof.
  intros Hw Hr. induction Hw as [|c w Hc _ IH]; simpl.
  - destruct r as [|c r]; [done|]. simpl in *. by rewrite Hr.
  - by rewrite Hc.
Qed.

Lemma drop_while_stops p r : stops p r → drop_while p r = r.
Proof. apply (drop_while_run p []). constructor. Qed.

(** A printed number is read back. *)
Lemma number64_dec n r :
  (n ≤ u64_max)%N → stops is_ascii_digit r → number64 (dec n ++ r) = Ok (r, n).
Proof.
  intros Hn Hr. destruct (dec_spec n) as (Hv & Hd & Hne). unfold number64, run1.
  rewrite take_while_run, drop_while_run by done. destruct (dec n) eqn:E; [done|]. cbn [rbind fst snd].
  rewrite Hv. by rewrite (proj2 (N.leb_le _ _)).
Qed.

Lemma drop_while_length p (s : rstr) : length (drop_while p s) ≤ length s.
Proof. induction s as [|c s IH]; simpl; [done|]. case_match; simpl; lia. Qed.

(** A number takes at least one character. *)
Lemma number64_length i r n : number64 i = Ok (r, n) → length r < length i.
Proof.
  unfold number64, run1. destruct i as [|c i]; [done|]. simpl. destruct (is_ascii_digit c); [|done].
  simpl. intros H. case_match; simplify_eq. pose proof (drop_while_length is_ascii_digit i). lia.
Qed.
Section Laws.
Context {N : Nom} {NL : NomLaws N}.

Lemma opt_some {A} (p : parser A) i r a : opt p i = Ok (r, Some a) → p i = Ok (r, a).
Proof. rewrite opt_eq. destruct (p i) as [[? ?]|[]]; intros; by simplify_eq. Qed.

Lemma opt_none {A} (p : parser A) i r : opt p i = Ok (r, None) → r = i.
Proof. rewrite opt_eq. destruct (p i) as [[? ?]|[]]; intros; by simplify_eq. Qed.

Lemma parse_complete_line_ok {O} (p : parser O) i o :
  parse_complete_line p i = Ok o → p i = Ok ([], o).
Proof.
  unfold parse_complete_line. rewrite all_consuming_eq. intros H.
  destruct (p i) as [[r a]|]; [|done]. simpl in H. case_decide; by simplify_eq.
Qed.
End Laws.
