(* ===== verification/TimeParse.v ===== *)
(** * TimeParse: the text of calendar events and daily windows

    Models the parsers of [proxmox-time]: [parse_helpers.rs], [week_days.rs],
    [calendar_event.rs] and [daily_duration.rs], over the combinators of [Nom].
    Error messages are not modelled, only where the parsers fail. *)
From S2P Require Import Prelude Nom TmEditor CalendarEvent CalendarTheory.

#[local] Open Scope Z_scope.

Section Parsers.
Context {N : Nom}.

(** ** [parse_helpers.rs] *)
Definition parse_time_comp (max : Z) : parser Z := λ i,
  let? iv := map_res (recognize digit1) (parse_uint u32_max) i in
  let '(i, v) := iv in
  if max <=? Z.of_N v then Err NomError else Ok (i, Z.of_N v).

(** [tuple] of two parsers is [pair]. *)
Definition parse_hm_time : parser HmTime := λ i,
  let? r := pair (parse_time_comp 24) (opt (preceded (tag (lit ":")) (parse_time_comp 60))) i in
  let '(i, (hour, opt_minute)) := r in
  match opt_minute with
  | Some minute => Ok (i, mkHm hour minute)
  | None => Ok (i, mkHm hour 0)
  end.

(** ** [week_days.rs] *)
Definition to_ascii_lowercase (s : rstr) : rstr :=
  (λ c, if (65 <=? c)%N && (c <=? 90)%N then (c + 32)%N else c) <$> s.

Definition weekday_names : list (rstr * Z) :=
  [(lit "monday", 1); (lit "mon", 1); (lit "tuesday", 2); (lit "tue", 2); (lit "wednesday", 4); (lit "wed", 4);
   (lit "thursday", 8); (lit "thu", 8); (lit "friday", 16); (lit "fri", 16); (lit "saturday", 32); (lit "sat", 32);
   (lit "sunday", 64); (lit "sun", 64)].

Definition parse_weekday : parser Z := λ i,
  let? it := alpha1 i in
  match bt_get (to_ascii_lowercase it.2) weekday_names with
  | Some day => Ok (it.1, day)
  | None => Err NomError
  end.

(** The closure [generate_range]: the loop shifts a bit at most six times. *)
Fixpoint generate_range (fuel : nat) (res pos fin : Z) : Z :=
  match fuel with
  | O => res
  | S fuel' =>
      let res := Z.lor res pos in
      if fin <=? pos then res else generate_range fuel' res (Z.shiftl pos 1) fin
  end.

Definition weekdays_range (start fin : Z) : Z :=
  if fin <? start then Z.lor (generate_range 8 0 start 64) (generate_range 8 0 1 fin)
  else generate_range 8 0 start fin.

Definition parse_weekdays_range : parser Z := λ i,
  let? st := parse_weekday i in
  let '(i, startday) := st in
  let? r := opt (pair (tag (lit "..")) parse_weekday) i in
  match r with
  | (i, Some (_, endday)) => Ok (i, weekdays_range startday endday)
  | (_, None) => Ok (i, startday)
  end.

(** The list of ranges in front of an event or a window: [days.insert] of each. *)
Definition parse_weekday_list : parser Z := λ i,
  let? r := context (lit "weekday range list") (separated_list1 (tag (lit ",")) parse_weekdays_range) i in
  let? rest := space0 r.1 in
  Ok (rest.1, foldl Z.lor 0 r.2).

Definition starts_alphabetic (i : rstr) : bool :=
  match i with
  | c :: _ => is_ascii_alphabetic c
  | [] => false
  end.

(** ** [calendar_event.rs] *)
Definition parse_date_time_comp (max : Z) : parser DateTimeValue := λ i,
  let? iv := parse_time_comp max i in
  let '(i, value) := iv in
  let? ie := opt (preceded (tag (lit "..")) (parse_time_comp max)) i in
  match ie with
  | (i, Some fin) =>
      if fin <? value then Err NomError
      else match strip_prefix_char (chr "/") i with
           | Some time =>
               let? tr := parse_time_comp max time in
               Ok (tr.1, Repeated value tr.2 (Some fin))
           | None => Ok (i, Range value fin)
           end
  | (_, None) =>
      match strip_prefix_char (chr "/") i with
      | Some time =>
          let? tr := parse_time_comp max time in
          Ok (tr.1, Repeated value tr.2 None)
      | None => Ok (i, Single value)
      end
  end.

Definition parse_date_time_comp_list (start max : Z) : parser (list DateTimeValue) := λ i,
  match strip_prefix_char (chr "*") i with
  | Some rest =>
      match strip_prefix_char (chr "/") rest with
      | Some time =>
          let? nr := parse_time_comp max time in
          if 0 <? nr.2 then Ok (nr.1, [Repeated start nr.2 None]) else Ok (rest, [])
      | None => Ok (rest, [])
      end
  | None => separated_list1 (tag (lit ",")) (parse_date_time_comp max) i
  end.

Record TimeSpec := mkTimeSpec { ts_hour : list DateTimeValue; ts_minute : list DateTimeValue; ts_second : list DateTimeValue }.
Record DateSpec := mkDateSpec { ds_year : list DateTimeValue; ds_month : list DateTimeValue; ds_day : list DateTimeValue }.

Definition parse_time_spec : parser TimeSpec := λ i,
  let? r := tuple3 (opt (terminated (parse_date_time_comp_list 0 24) (tag (lit ":"))))
              (parse_date_time_comp_list 0 60)
              (opt (preceded (tag (lit ":")) (parse_date_time_comp_list 0 60))) i in
  let '(i, (opt_hour, minute, opt_second)) := r in
  Ok (i, mkTimeSpec (default [] opt_hour) minute (default [Single 0] opt_second)).

Definition parse_date_spec : parser DateSpec := λ i,
  match tuple3 (parse_date_time_comp_list 0 2200)
          (preceded (tag (lit "-")) (parse_date_time_comp_list 1 13))
          (preceded (tag (lit "-")) (parse_date_time_comp_list 1 32)) i with
  | Ok (i, (year, month, day)) => Ok (i, mkDateSpec year month day)
  | Err _ =>
      match pair (parse_date_time_comp_list 1 13)
              (preceded (tag (lit "-")) (parse_date_time_comp_list 1 32)) i with
      | Ok (i, (month, day)) => Ok (i, mkDateSpec [] month day)
      | Err _ => Err NomError
      end
  end.

(** [str::strip_suffix] and [trim_end_matches] of a character. *)
Definition strip_suffix (suf s : rstr) : option rstr :=
  if decide (drop (length s - length suf) s = suf) then Some (take (length s - length suf) s) else None.
Definition trim_end_char (c : rchar) (s : rstr) : rstr := reverse (drop_while (λ x, (x =? c)%N) (reverse s)).

Definition zero : list DateTimeValue := [Single 0].

(** The shorthands. *)
Definition shorthand (utc : bool) (i : rstr) : option CalendarEvent :=
  let ev days second minute hour day month := Some (mkEvent utc days second minute hour day month []) in
  if decide (i = lit "minutely") then ev 0 zero [] [] [] []
  else if decide (i = lit "hourly") then ev 0 zero zero [] [] []
  else if decide (i = lit "daily") then ev 0 zero zero zero [] []
  else if decide (i = lit "weekly") then ev 1 zero zero zero [] []
  else if decide (i = lit "monthly") then ev 0 zero zero zero [Single 1] []
  else if decide (i = lit "yearly" ∨ i = lit "annually") then ev 0 zero zero zero [Single 1] [Single 1]
  else if decide (i = lit "quarterly")
       then ev 0 zero zero zero [Single 1] [Single 1; Single 4; Single 7; Single 10]
  else if decide (i = lit "semiannually" ∨ i = lit "semi-annually")
       then ev 0 zero zero zero [Single 1] [Single 1; Single 7]
  else None.

(** What follows the weekdays: an optional date, an optional time. *)
Definition parse_date_and_time (utc has_dayspec : bool) (days : Z) : parser CalendarEvent := λ i,
  let? nd := opt parse_date_spec i in
  let? idh :=
    match nd with
    | (n, Some date) => let? s := space0 n in Ok (s.1, date, true)
    | (_, None) => Ok (i, mkDateSpec [] [] [], false)
    end in
  let '(i, date, has_datespec) := idh in
  let? nt := opt parse_time_spec i in
  let '(i, time, has_timespec) :=
    match nt with
    | (n, Some time) => (n, time, true)
    | (_, None) => (i, mkTimeSpec zero zero zero, false)
    end in
  if has_dayspec || has_timespec || has_datespec then
    Ok (i, mkEvent utc days time.(ts_second) time.(ts_minute) time.(ts_hour)
                   date.(ds_day) date.(ds_month) date.(ds_year))
  else Err NomError.

Definition parse_calendar_event_incomplete : parser CalendarEvent := λ i,
  let '(utc, i) :=
    match strip_suffix (lit "UTC") i with
    | Some n => (true, trim_end_char (chr " ") n)
    | None => (false, i)
    end in
  if starts_alphabetic i then
    match shorthand utc i with
    | Some ev => Ok ([], ev)
    | None => let? r := parse_weekday_list i in parse_date_and_time utc true r.2 r.1
    end
  else parse_date_and_time utc false 0 i.

Definition calendar_event_from_str (i : rstr) : result CalendarEvent LineError :=
  parse_complete_line parse_calendar_event_incomplete i.

Definition verify_calendar_event (i : rstr) : result unit LineError :=
  let? _ := calendar_event_from_str i in Ok tt.

(** ** [daily_duration.rs] *)
Definition parse_daily_duration_incomplete : parser DailyDuration := λ i,
  let? id := if starts_alphabetic i then parse_weekday_list i else Ok (i, 0) in
  let '(i, days) := id in
  let? st := parse_hm_time i in
  let '(i, start) := st in
  let? s := space0 i in
  let? t := tag (lit "-") s.1 in
  let? s := space0 t.1 in
  let? ie := parse_hm_time s.1 in
  let '(i, fin) := ie in
  if hm_lt fin start then Err NomError else Ok (i, mkDuration days start fin).

Definition parse_daily_duration (i : rstr) : result DailyDuration LineError :=
  parse_complete_line parse_daily_duration_incomplete i.
End Parsers.

(** ** Bounds of what is parsed *)

(** All values are below the limit of the field, ranges are not empty. *)
Definition dtv_below (max : Z) (d : DateTimeValue) : Prop :=
  match d with
  | Single v => 0 ≤ v < max
  | Range start fin => 0 ≤ start ≤ fin ∧ fin < max
  | Repeated start repetition opt_end =>
      0 ≤ start < max ∧ 0 ≤ repetition < max ∧
      match opt_end with
      | Some fin => start ≤ fin < max
      | None => True
      end
  end.

Lemma dtv_below_wf max d : max ≤ 2 ^ 16 → dtv_below max d → wf_dtv d.
Proof. destruct d as [|? ?|? ? []]; simpl; lia. Qed.

(** Takes a successful parse apart, step by step. *)
Ltac parsed := repeat match goal with
  | H : rbind ?m _ = Ok _ |- _ => let E := fresh "E" in destruct m as [[? ?]|] eqn:E; [|done]; cbn [rbind fst snd] in H
  | H : Ok _ = Ok _ |- _ => simplify_eq/=
  | H : Err _ = Ok _ |- _ => done
  end.

Section Bounds.
Context {N : Nom} {NL : NomLaws N}.

Lemma parse_time_comp_below max i r v : parse_time_comp max i = Ok (r, v) → 0 ≤ v < max.
Proof.
  unfold parse_time_comp. intros H. parsed. destruct (Z.leb_spec max (Z.of_N n)); simplify_eq. lia.
Qed.

Lemma parse_range_end_below {A} (p : parser A) max i r v :
  opt (preceded p (parse_time_comp max)) i = Ok (r, Some v) → 0 ≤ v < max.
Proof.
  intros H%opt_some. rewrite preceded_eq in H. parsed. by eapply parse_time_comp_below.
Qed.

Lemma parse_date_time_comp_below max i r d : parse_date_time_comp max i = Ok (r, d) → dtv_below max d.
Proof.
  unfold parse_date_time_comp. intros H. parsed. apply parse_time_comp_below in E.
  destruct o as [fin|].
  - apply parse_range_end_below in E0. destruct (Z.ltb_spec fin z); [done|].
    destruct (strip_prefix_char (chr "/") l0); parsed; simpl; [|lia].
    apply parse_time_comp_below in E1. lia.
  - destruct (strip_prefix_char (chr "/") l); parsed; simpl; [|lia].
    apply parse_time_comp_below in E1. lia.
Qed.

Lemma parse_date_time_comp_list_below start max i r l :
  0 ≤ start < max → parse_date_time_comp_list start max i = Ok (r, l) → Forall (dtv_below max) l.
Proof.
  intros Hs. unfold parse_date_time_comp_list. intros H.
  destruct (strip_prefix_char (chr "*") i) as [rest|].
  - destruct (strip_prefix_char (chr "/") rest); [|by simplify_eq]. parsed.
    apply parse_time_comp_below in E. destruct (Z.ltb_spec 0 z); simplify_eq; repeat constructor; simpl; lia.
  - apply separated_list1_elements in H as [_ H]. eapply Forall_impl; [done|].
    intros d (j & rest & Hd). by eapply parse_date_time_comp_below.
Qed.

Lemma parse_time_spec_below i r t :
  parse_time_spec i = Ok (r, t) →
  Forall (dtv_below 24) t.(ts_hour) ∧ Forall (dtv_below 60) t.(ts_minute) ∧ Forall (dtv_below 60) t.(ts_second).
Proof.
  unfold parse_time_spec. intros H.
  destruct (tuple3 _ _ _ i) as [[? [[oh mi] os]]|] eqn:E; [|done]. simplify_eq/=.
  rewrite tuple3_eq in E. parsed. split_and!.
  - destruct oh as [h|]; [|constructor]. apply opt_some in E0. rewrite terminated_eq in E0. parsed.
    (eapply parse_date_time_comp_list_below; [|eassumption]; lia).
  - (eapply parse_date_time_comp_list_below; [|eassumption]; lia).
  - destruct os as [s|]; [|repeat constructor; simpl; lia]. apply opt_some in E2. rewrite preceded_eq in E2. parsed.
    (eapply parse_date_time_comp_list_below; [|eassumption]; lia).
Qed.

Lemma parse_date_spec_below i r t :
  parse_date_spec i = Ok (r, t) →
  Forall (dtv_below 2200) t.(ds_year) ∧ Forall (dtv_below 13) t.(ds_month) ∧ Forall (dtv_below 32) t.(ds_day).
Proof.
  unfold parse_date_spec. intros H.
  destruct (tuple3 _ _ _ i) as [[? [[y m] d]]|] eqn:E.
  - rewrite tuple3_eq in E. parsed. rewrite preceded_eq in E1, E2. parsed.
    split_and!; (eapply parse_date_time_comp_list_below; [|eassumption]; lia).
  - clear E. destruct (pair _ _ i) as [[? [m d]]|] eqn:E; [|done].
    rewrite pair_eq in E. parsed. rewrite preceded_eq in E1. parsed.
    split_and!; [constructor|(eapply parse_date_time_comp_list_below; [|eassumption]; lia)..].
Qed.

Lemma shorthand_below utc i ev :
  shorthand utc i = Some ev →
  wf_event ev ∧ 0 ≤ ev.(ev_days) < 128 ∧ Forall (dtv_below 24) ev.(ev_hour) ∧ Forall (dtv_below 60) ev.(ev_minute) ∧
  Forall (dtv_below 60) ev.(ev_second) ∧ Forall (dtv_below 32) ev.(ev_day) ∧ Forall (dtv_below 13) ev.(ev_month) ∧
  Forall (dtv_below 2200) ev.(ev_year).
Proof.
  unfold shorthand, zero. intros H. repeat case_decide; simplify_eq; simpl;
    split_and!; repeat constructor; simpl; lia.
Qed.

(** The sets of weekdays have no other bits. *)
Lemma weekday_names_bound t d : bt_get t weekday_names = Some d → ∃ k, 0 ≤ k ≤ 6 ∧ d = 2 ^ k.
Proof.
  unfold weekday_names. simpl. intros H. repeat case_decide; simplify_eq.
  all: first [by exists 0|by exists 1|by exists 2|by exists 3|by exists 4|by exists 5|by exists 6].
Qed.

Lemma parse_weekday_bit i r d : parse_weekday i = Ok (r, d) → ∃ k, 0 ≤ k ≤ 6 ∧ d = 2 ^ k.
Proof.
  unfold parse_weekday. intros H. parsed. destruct (bt_get _ _) eqn:E'; simplify_eq.
  by eapply weekday_names_bound.
Qed.
End Bounds.

(** ** Ranges of weekdays *)

(** A decidable property of a range of numbers, by evaluation. *)
Lemma forallb_seqZ (f : Z → bool) lo cnt k :
  forallb f (seqZ lo cnt) = true → lo ≤ k < lo + cnt → f k = true.
Proof. rewrite forallb_forall. intros H Hk. apply H, list_elem_of_In, elem_of_seqZ. lia. Qed.

Lemma weekdays_range_bound a b :
  0 ≤ a ≤ 6 → 0 ≤ b ≤ 6 → 0 ≤ weekdays_range (2 ^ a) (2 ^ b) < 128.
Proof.
  intros Ha Hb.
  assert (forallb (λ a, forallb (λ b, (0 <=? weekdays_range (2 ^ a) (2 ^ b)) &&
    (weekdays_range (2 ^ a) (2 ^ b) <? 128)) (seqZ 0 7)) (seqZ 0 7) = true) as H by (vm_compute; reflexivity).
  apply (forallb_seqZ _ _ _ a) in H; [|lia]. apply (forallb_seqZ _ _ _ b) in H; lia.
Qed.

(** The range from one weekday to another has the days in between, around the
    end of the week if the second one comes first. *)
Theorem weekdays_range_days a b d :
  0 ≤ a ≤ 6 → 0 ≤ b ≤ 6 → 0 ≤ d →
  Z.testbit (weekdays_range (2 ^ a) (2 ^ b)) d =
  if a <=? b then (a <=? d) && (d <=? b) else ((a <=? d) || (d <=? b)) && (d <=? 6).
Proof.
  intros Ha Hb Hd. destruct (Z.le_gt_cases d 6) as [Hd'|Hd'].
  - assert (forallb (λ a, forallb (λ b, forallb (λ d,
      Bool.eqb (Z.testbit (weekdays_range (2 ^ a) (2 ^ b)) d)
        (if a <=? b then (a <=? d) && (d <=? b) else ((a <=? d) || (d <=? b)) && (d <=? 6)))
      (seqZ 0 7)) (seqZ 0 7)) (seqZ 0 7) = true) as H by (vm_compute; reflexivity).
    apply (forallb_seqZ _ _ _ a) in H; [|lia]. apply (forallb_seqZ _ _ _ b) in H; [|lia].
    apply (forallb_seqZ _ _ _ d) in H; [|lia]. by apply Bool.eqb_prop in H.
  - pose proof (weekdays_range_bound a b Ha Hb). rewrite Z.testbit_eqb by lia. rewrite Z.div_small.
    + by case_match; lia.
    + assert (2 ^ 7 ≤ 2 ^ d) by (apply Z.pow_le_mono_r; lia). lia.
Qed.

Lemma weekdays_range_days_witness :
  Z.testbit (weekdays_range (2 ^ 5) (2 ^ 1)) 6 = true ∧ Z.testbit (weekdays_range (2 ^ 5) (2 ^ 1)) 3 = false.
Proof. split; rewrite weekdays_range_days by lia; reflexivity. Defined.

Lemma lor_bound k a b : 0 ≤ k → 0 ≤ a < 2 ^ k → 0 ≤ b < 2 ^ k → 0 ≤ Z.lor a b < 2 ^ k.
Proof.
  intros Hk Ha Hb. assert (0 ≤ Z.lor a b) as Hpos by (apply Z.lor_nonneg; lia). split; [done|].
  destruct (Z.eq_dec (Z.lor a b) 0) as [->|]; [lia|]. apply Z.log2_lt_pow2; [lia|].
  rewrite Z.log2_lor by lia.
  assert (0 < k) by (destruct (Z.eq_dec k 0) as [->|]; [|lia]; exfalso; assert (a = 0 ∧ b = 0) as [-> ->] by lia; done).
  assert (∀ x, 0 ≤ x < 2 ^ k → Z.log2 x < k) as Hlog; [|pose proof (Hlog a Ha); pose proof (Hlog b Hb); lia].
  intros x Hx. destruct (Z.eq_dec x 0) as [->|]; [simpl; lia|]. apply Z.log2_lt_pow2; lia.
Qed.

Section Events.
Context {N : Nom} {NL : NomLaws N}.

Lemma parse_weekdays_range_bound i r d : parse_weekdays_range i = Ok (r, d) → 0 ≤ d < 128.
Proof.
  unfold parse_weekdays_range. intros H.
  destruct (parse_weekday i) as [[i1 s]|] eqn:E; [|done]. cbn [rbind] in H.
  apply parse_weekday_bit in E as (a & Ha & ->).
  destruct (opt _ i1) as [[i2 [[x e]|]]|] eqn:E; [| |done]; simplify_eq/=.
  - apply opt_some in E. rewrite pair_eq in E. parsed. apply parse_weekday_bit in E1 as (b & Hb & ->).
    by apply weekdays_range_bound.
  - assert (2 ^ a ≤ 2 ^ 6) by (apply Z.pow_le_mono_r; lia). lia.
Qed.

Lemma parse_weekday_list_bound i r d : parse_weekday_list i = Ok (r, d) → 0 ≤ d < 128.
Proof.
  unfold parse_weekday_list. rewrite context_eq. intros H.
  destruct (separated_list1 _ _ i) as [[i1 l]|] eqn:E; [|done]. cbn [rbind fst snd] in H.
  rewrite space0_eq in H. simplify_eq/=. apply separated_list1_elements in E as [_ Hl].
  assert (∀ acc, 0 ≤ acc < 2 ^ 7 → 0 ≤ foldl Z.lor acc l < 2 ^ 7) as H; [|apply (H 0); lia].
  induction Hl as [|x l (j & rest & Hx) _ IH]; simpl; intros acc Hacc; [done|].
  apply IH, lor_bound; [lia|done|]. by apply parse_weekdays_range_bound in Hx.
Qed.

(** The bounds of an event that is read from a text. *)
Definition event_below (ev : CalendarEvent) : Prop :=
  0 ≤ ev.(ev_days) < 128 ∧ Forall (dtv_below 24) ev.(ev_hour) ∧ Forall (dtv_below 60) ev.(ev_minute) ∧
  Forall (dtv_below 60) ev.(ev_second) ∧ Forall (dtv_below 32) ev.(ev_day) ∧ Forall (dtv_below 13) ev.(ev_month) ∧
  Forall (dtv_below 2200) ev.(ev_year).

Lemma event_below_wf ev : event_below ev → wf_event ev.
Proof.
  intros (_ & ? & ? & ? & ? & ? & ?).
  split; (eapply Forall_impl; [done|]; intros d; apply dtv_below_wf; lia).
Qed.

Lemma parse_date_and_time_below utc b days i r ev :
  0 ≤ days < 128 → parse_date_and_time utc b days i = Ok (r, ev) → event_below ev.
Proof.
  intros Hdays. unfold parse_date_and_time. intros H.
  destruct (opt parse_date_spec i) as [[i1 od]|] eqn:E1; [|done]. cbn [rbind] in H.
  assert (∃ i2 date hd, (match od with
      | Some date => let? s := space0 i1 in Ok (s.1, date, true)
      | None => Ok (i, mkDateSpec [] [] [], false) end) = Ok (i2, date, hd) ∧
    Forall (dtv_below 2200) date.(ds_year) ∧ Forall (dtv_below 13) date.(ds_month) ∧ Forall (dtv_below 32) date.(ds_day))
    as (i2 & date & hd & E & Hy & Hm & Hd).
  { destruct od as [date|]; [|do 3 eexists; split; [done|]; by repeat constructor].
    rewrite space0_eq. do 3 eexists. split; [done|]. apply opt_some in E1. by eapply parse_date_spec_below. }
  rewrite E in H. cbn [rbind] in H.
  destruct (opt parse_time_spec i2) as [[i3 ot]|] eqn:E2; [|done]. cbn [rbind] in H.
  destruct ot as [time|]; (destruct (_ || _ || _); [|done]); simplify_eq/=.
  - apply opt_some, parse_time_spec_below in E2 as (? & ? & ?). unfold event_below. by simpl.
  - unfold event_below, zero. simpl. split_and!; try done; repeat constructor; simpl; lia.
Qed.

(** What the parser of calendar events accepts has all its values in the
    limits of their fields, so that the arithmetic of the search does not
    overflow. *)
Theorem calendar_event_from_str_below i ev :
  calendar_event_from_str i = Ok ev → event_below ev ∧ wf_event ev.
Proof.
  intros H%parse_complete_line_ok.
  assert (event_below ev) as Hb; [|split; [done|by apply event_below_wf]].
  unfold parse_calendar_event_incomplete in H.
  destruct (match strip_suffix _ i with Some n => _ | None => _ end) as [utc i'].
  destruct (starts_alphabetic i'); [|by eapply parse_date_and_time_below; [|done]].
  destruct (shorthand utc i') as [ev'|] eqn:E.
  - simplify_eq. apply shorthand_below in E. by destruct E as [_ E].
  - destruct (parse_weekday_list i') as [[i1 days]|] eqn:E1; [|done]. cbn [rbind fst snd] in H.
    apply parse_weekday_list_bound in E1. by eapply parse_date_and_time_below.
Qed.
End Events.

Lemma calendar_event_from_str_below_witness :
  event_below (mkEvent true 31 [Single 0] [Repeated 0 15 None] [Range 8 17] [] [] []).
Proof.
  apply (calendar_event_from_str_below (N := nom_complete) (lit "mon..fri 8..17:0/15 UTC")).
  vm_compute. reflexivity.
Defined.

(** ** Daily windows *)
Definition hm_minutes (t : HmTime) : Z := t.(hm_hour) * 60 + t.(hm_minute).
Definition hm_valid (t : HmTime) : Prop := 0 ≤ t.(hm_hour) < 24 ∧ 0 ≤ t.(hm_minute) < 60.

Lemma hm_lt_minutes a b : hm_valid a → hm_valid b → hm_lt a b = (hm_minutes a <? hm_minutes b).
Proof. unfold hm_valid, hm_lt, hm_minutes. intros Ha Hb. lia. Qed.

(** A set of all the weekdays has each of them. *)
Lemma weekdays_is_all_bit days k :
  0 ≤ days < 128 → weekdays_is_all days = true → 0 ≤ k ≤ 6 → Z.testbit days k = true.
Proof.
  intros Hd Hall Hk.
  assert (forallb (λ d, implb (weekdays_is_all d) (forallb (Z.testbit d) (seqZ 0 7))) (seqZ 0 128) = true) as H
    by (vm_compute; reflexivity).
  apply (forallb_seqZ _ _ _ days) in H; [|lia]. cbn beta in H. rewrite Hall in H. cbn [implb] in H.
  apply (forallb_seqZ _ 0 7 k H). lia.
Qed.

Section Daily.
Context {N : Nom} {NL : NomLaws N}.

Lemma parse_hm_time_valid i r t : parse_hm_time i = Ok (r, t) → hm_valid t.
Proof.
  unfold parse_hm_time. rewrite pair_eq. intros H.
  destruct (parse_time_comp 24 i) as [[i1 h]|] eqn:E; [|done]. cbn [rbind fst snd] in H.
  apply parse_time_comp_below in E.
  destruct (opt _ i1) as [[i2 [m|]]|] eqn:E2; [| |done]; simplify_eq/=; unfold hm_valid; simpl.
  - apply parse_range_end_below in E2. lia.
  - lia.
Qed.

Lemma parse_daily_duration_ok i d :
  parse_daily_duration i = Ok d →
  0 ≤ d.(dd_days) < 128 ∧ hm_valid d.(dd_start) ∧ hm_valid d.(dd_end) ∧
  hm_minutes d.(dd_start) ≤ hm_minutes d.(dd_end).
Proof.
  intros H%parse_complete_line_ok. unfold parse_daily_duration_incomplete in H.
  destruct (if starts_alphabetic i then _ else _) as [[i1 days]|] eqn:E; [|done]. cbn [rbind] in H.
  assert (0 ≤ days < 128) as Hdays.
  { destruct (starts_alphabetic i); [by eapply parse_weekday_list_bound|]. simplify_eq. lia. }
  destruct (parse_hm_time i1) as [[i2 st]|] eqn:E1; [|done]. cbn [rbind] in H. apply parse_hm_time_valid in E1.
  rewrite !space0_eq in H. cbn [rbind fst] in H. destruct (tag _ _) as [[i3 x]|]; [|done]. cbn [rbind fst] in H.
  rewrite space0_eq in H. cbn [rbind fst] in H.
  destruct (parse_hm_time _) as [[i4 fin]|] eqn:E2 in H; [|done]. cbn [rbind] in H. apply parse_hm_time_valid in E2.
  rewrite hm_lt_minutes in H by done. destruct (Z.ltb_spec (hm_minutes fin) (hm_minutes st)); [done|].
  by simplify_eq/=.
Qed.

(** A window that was read from a text matches an epoch exactly if the
    weekday is one of its days, or it has none, and the minute of the day is not
    before the start and before the end, which is not before the start. *)
Theorem daily_duration_window {L : Libc} {LU : LibcUtc L} i d e :
  parse_daily_duration i = Ok d → sane e →
  time_match d e true =
    Ok (((d.(dd_days) =? 0) || Z.testbit d.(dd_days) (weekday_of (day_number e))) &&
        ((hm_minutes d.(dd_start) <=? hour_of e * 60 + min_of e) &&
         (hour_of e * 60 + min_of e <? hm_minutes d.(dd_end)))) ∧
  hm_minutes d.(dd_start) ≤ hm_minutes d.(dd_end) < 1440.
Proof.
  intros (Hdays & Hst & Hen & Hle)%parse_daily_duration_ok He. split; [|unfold hm_minutes, hm_valid in *; lia].
  unfold time_match. rewrite with_epoch_utc by done. cbn [rbind]. f_equal. unfold time_match_with_tm_editor.
  pose proof (weekday_of_bounds (day_number e)) as Hw. pose proof (time_bounds e) as (Hh & Hm & _).
  change (te_hour (at_epoch e)) with (hour_of e). change (te_min (at_epoch e)) with (min_of e).
  rewrite te_day_num_utc. fold (weekday_of (day_number e)). rewrite !u32_try_from_ok by lia.
  rewrite weekdays_from_bit by lia.
  unfold weekdays_contains. rewrite land_bit by lia.
  assert (hm_valid (mkHm (hour_of e) (min_of e))) as Hv by (unfold hm_valid; simpl; lia).
  rewrite !hm_lt_minutes by done. unfold hm_minutes at 1 3. simpl.
  replace (negb (_ <? hm_minutes (dd_start d))) with (hm_minutes (dd_start d) <=? hour_of e * 60 + min_of e) by lia.
  destruct (dd_days d =? 0); [done|]. cbn [orb]. destruct (weekdays_is_all (dd_days d)) eqn:Hall; [|done].
  by rewrite weekdays_is_all_bit.
Qed.
End Daily.

Lemma daily_duration_window_witness :
  time_match (H := libc_utc) (mkDuration 24 (mkHm 8 5) (mkHm 12 0)) 29100 true = Ok true.
Proof.
  destruct (daily_duration_window (N := nom_complete) (L := libc_utc) (lit "thu..fri 8:05-12")
              (mkDuration 24 (mkHm 8 5) (mkHm 12 0)) 29100) as [H _].
  - vm_compute. reflexivity.
  - unfold sane. lia.
  - rewrite H. vm_compute. reflexivity.
Defined.
