(* ===== verification/TimeSpan.v ===== *)
(** * TimeSpan: durations and their text

    Models [proxmox-time/src/time_span.rs]: the units, a span and its parts, the
    conversions between them at the width of the fields, the displays by whole
    units, and the parser. The displays with decimals use floating point
    formatting and are not modelled. *)
From S2P Require Import Prelude Nom.

#[local] Open Scope Z_scope.

(** ** Units *)
Definition SECS_PER_MINUTE : Z := 60.
Definition SECS_PER_HOUR : Z := 60 * SECS_PER_MINUTE.
Definition SECS_PER_DAY : Z := 24 * SECS_PER_HOUR.
Definition SECS_PER_WEEK : Z := 7 * SECS_PER_DAY.
Definition SECS_PER_MONTH : Z := SECS_PER_DAY * 3044 / 100.
Definition SECS_PER_YEAR : Z := SECS_PER_DAY * 36525 / 100.

Inductive TimeUnit :=
| Nanoseconds | Microseconds | Milliseconds | Seconds | Minutes
| Hours | Days | Weeks | Months | Years.

#[export] Instance time_unit_eq_dec : EqDecision TimeUnit.
Proof. solve_decision. Defined.

Definition micro : rchar := 181%N.

Definition classify (s : rstr) : option TimeUnit :=
  if decide (s ∈ [lit "seconds"; lit "second"; lit "sec"; lit "s"]) then Some Seconds
  else if decide (s ∈ [lit "msec"; lit "ms"]) then Some Milliseconds
  else if decide (s ∈ [lit "usec"; lit "us"; micro :: lit "s"]) then Some Microseconds
  else if decide (s ∈ [lit "nsec"; lit "ns"]) then Some Nanoseconds
  else if decide (s ∈ [lit "minutes"; lit "minute"; lit "min"; lit "m"]) then Some Minutes
  else if decide (s ∈ [lit "hours"; lit "hour"; lit "hr"; lit "h"]) then Some Hours
  else if decide (s ∈ [lit "days"; lit "day"; lit "d"]) then Some Days
  else if decide (s ∈ [lit "weeks"; lit "week"; lit "w"]) then Some Weeks
  else if decide (s ∈ [lit "months"; lit "month"; lit "M"]) then Some Months
  else if decide (s ∈ [lit "years"; lit "year"; lit "y"]) then Some Years
  else None.

Definition suffix (u : TimeUnit) : rstr :=
  match u with
  | Years => lit "y" | Months => lit "M" | Weeks => lit "w" | Days => lit "d" | Hours => lit "h"
  | Minutes => lit "m" | Seconds => lit "s" | Milliseconds => lit "ms" | Microseconds => micro :: lit "s"
  | Nanoseconds => lit "ns"
  end.

Definition ordinal (u : TimeUnit) : Z :=
  match u with
  | Years => 0 | Months => 1 | Weeks => 2 | Days => 3 | Hours => 4 | Minutes => 5 | Seconds => 6
  | Milliseconds => 7 | Microseconds => 8 | Nanoseconds => 9
  end.

Definition NS_PER_SEC : Z := 1000000000.

Definition unit_nanos (u : TimeUnit) : Z :=
  match u with
  | Years => SECS_PER_YEAR * NS_PER_SEC
  | Months => SECS_PER_MONTH * NS_PER_SEC
  | Weeks => SECS_PER_WEEK * NS_PER_SEC
  | Days => SECS_PER_DAY * NS_PER_SEC
  | Hours => SECS_PER_HOUR * NS_PER_SEC
  | Minutes => SECS_PER_MINUTE * NS_PER_SEC
  | Seconds => NS_PER_SEC
  | Milliseconds => 1000000
  | Microseconds => 1000
  | Nanoseconds => 1
  end.

(** [TimeUnit::ALL]: from the coarsest to the finest. *)
Definition all_units : list TimeUnit :=
  [Years; Months; Weeks; Days; Hours; Minutes; Seconds; Milliseconds; Microseconds; Nanoseconds].

(** ** Spans and parts; the fields are [u64] *)
Record TimeSpanParts := mkParts {
  years : Z; months : Z; weeks : Z; days : Z; hours : Z; minutes : Z; seconds : Z;
  msec : Z; usec : Z; nsec : Z
}.
Definition default_parts : TimeSpanParts := mkParts 0 0 0 0 0 0 0 0 0 0.

Definition unit_pairs (p : TimeSpanParts) : list (Z * TimeUnit) :=
  [(p.(years), Years); (p.(months), Months); (p.(weeks), Weeks); (p.(days), Days); (p.(hours), Hours);
   (p.(minutes), Minutes); (p.(seconds), Seconds); (p.(msec), Milliseconds); (p.(usec), Microseconds);
   (p.(nsec), Nanoseconds)].

Record TimeSpan := mkSpan { secs : Z; nanos : Z }.

Definition decompose (total_secs sub_nanos : Z) : TimeSpanParts :=
  let rem := total_secs in
  let years := rem / SECS_PER_YEAR in
  let rem := rem mod SECS_PER_YEAR in
  let months := rem / SECS_PER_MONTH in
  let rem := rem mod SECS_PER_MONTH in
  let weeks := rem / SECS_PER_WEEK in
  let rem := rem mod SECS_PER_WEEK in
  let days := rem / SECS_PER_DAY in
  let rem := rem mod SECS_PER_DAY in
  let hours := rem / SECS_PER_HOUR in
  let rem := rem mod SECS_PER_HOUR in
  let minutes := rem / SECS_PER_MINUTE in
  let seconds := rem mod SECS_PER_MINUTE in
  let ns := sub_nanos in
  let msec := ns / 1000000 in
  let ns := ns mod 1000000 in
  let usec := ns / 1000 in
  let nsec := ns mod 1000 in
  mkParts years months weeks days hours minutes seconds msec usec nsec.

Definition parts (ts : TimeSpan) : TimeSpanParts := decompose ts.(secs) ts.(nanos).

(** [u64::checked_mul], [u64::checked_add]. *)
Definition checked_u64 (z : Z) : option Z := if z <? 2 ^ 64 then Some z else None.

(** [try_fold(0u64, |acc, v| acc.checked_add(v?))] *)
Fixpoint checked_sum (acc : Z) (l : list (option Z)) : option Z :=
  match l with
  | [] => Some acc
  | v :: l' => v ≫= λ v, checked_u64 (acc + v) ≫= λ acc, checked_sum acc l'
  end.

Inductive SpanError := SpanTooLarge | SpanSyntax.

(** [impl TryFrom<TimeSpanParts> for TimeSpan] *)
Definition span_try_from (p : TimeSpanParts) : result TimeSpan SpanError :=
  let '(carry_ms, rem_ms) := (p.(msec) / 1000, p.(msec) mod 1000) in
  let '(carry_us, rem_us) := (p.(usec) / 1000000, p.(usec) mod 1000000) in
  let '(carry_ns, rem_ns) := (p.(nsec) / 1000000000, p.(nsec) mod 1000000000) in
  let combined_sub := (rem_ms * 1000000 + rem_us * 1000 + rem_ns) mod 2 ^ 32 in
  let extra_carry := combined_sub / 1000000000 in
  let nanos := combined_sub mod 1000000000 in
  match checked_sum 0
    [checked_u64 (p.(years) * SECS_PER_YEAR); checked_u64 (p.(months) * SECS_PER_MONTH);
     checked_u64 (p.(weeks) * SECS_PER_WEEK); checked_u64 (p.(days) * SECS_PER_DAY);
     checked_u64 (p.(hours) * SECS_PER_HOUR); checked_u64 (p.(minutes) * SECS_PER_MINUTE);
     Some p.(seconds); Some carry_ms; Some carry_us; Some carry_ns; Some extra_carry] with
  | Some secs => Ok (mkSpan secs nanos)
  | None => Err SpanTooLarge
  end.

(** ** Displays *)
Definition unit_text (val : Z) (u : TimeUnit) : rstr := dec (Z.to_N val) ++ suffix u.

(** [DisplayTopUnits]: the loop over the units. *)
Fixpoint top_loop (remaining : nat) (started : bool) (pairs : list (Z * TimeUnit)) : rstr * bool :=
  match pairs with
  | [] => ([], started)
  | (val, u) :: pairs' =>
      match remaining with
      | O => ([], started)
      | S remaining' =>
          if started then
            let '(out, st) := top_loop remaining' true pairs' in (lit " " ++ unit_text val u ++ out, st)
          else if 0 <? val then
            let '(out, st) := top_loop remaining' true pairs' in (unit_text val u ++ out, st)
          else top_loop remaining false pairs'
      end
  end.

Definition display_top (ts : TimeSpan) (count : nat) : rstr :=
  let '(out, started) := top_loop count false (unit_pairs (parts ts)) in
  if started then out else out ++ lit "0s".

(** The loop of [fmt_unit_window] over the units. *)
Fixpoint window_loop (top bottom rem : Z) (first : bool) (units : list TimeUnit) : rstr * bool :=
  match units with
  | [] => ([], first)
  | u :: units' =>
      if ordinal u <? top then window_loop top bottom rem first units'
      else if bottom <? ordinal u then ([], first)
      else
        let val := rem / unit_nanos u in
        let rem := rem mod unit_nanos u in
        if 0 <? val then
          let '(out, f) := window_loop top bottom rem false units' in
          ((if first then [] else lit " ") ++ unit_text val u ++ out, f)
        else window_loop top bottom rem first units'
  end.

Definition fmt_unit_window (ts : TimeSpan) (top bottom : Z) (zero_unit : TimeUnit) : rstr :=
  let rem := ts.(secs) * 1000000000 + ts.(nanos) in
  let '(out, first) := window_loop top bottom rem true all_units in
  if first then out ++ lit "0" ++ suffix zero_unit else out.

Definition display_up_to (ts : TimeSpan) (largest : TimeUnit) : rstr :=
  fmt_unit_window ts (ordinal largest) (ordinal Nanoseconds) largest.

Definition display_range (ts : TimeSpan) (largest smallest : TimeUnit) : rstr :=
  let '(largest, smallest) :=
    if ordinal largest <=? ordinal smallest then (largest, smallest) else (smallest, largest) in
  fmt_unit_window ts (ordinal largest) (ordinal smallest) smallest.

(** [DisplayTimeSpan] *)
Fixpoint down_loop (limit : Z) (first : bool) (pairs : list (Z * TimeUnit)) : rstr * bool :=
  match pairs with
  | [] => ([], first)
  | (val, u) :: pairs' =>
      if limit <? ordinal u then ([], first)
      else if 0 <? val then
        let '(out, f) := down_loop limit false pairs' in
        ((if first then [] else lit " ") ++ unit_text val u ++ out, f)
      else down_loop limit first pairs'
  end.

Definition display_down_to (ts : TimeSpan) (smallest : TimeUnit) : rstr :=
  let '(out, first) := down_loop (ordinal smallest) true (unit_pairs (parts ts)) in
  if first then out ++ lit "0" ++ suffix smallest else out.

(** ** Parsing *)
Definition unit_char (c : rchar) : bool := is_ascii_alphabetic c || (c =? micro)%N.

Definition parse_time_unit : parser TimeUnit := λ i,
  match take_while unit_char i with
  | [] => Err NomError
  | text =>
      match classify text with
      | Some u => Ok (drop_while unit_char i, u)
      | None => Err NomError
      end
  end.

(** [u64] addition wraps. *)
Definition add_u64 (a b : Z) : Z := (a + b) mod 2 ^ 64.

Definition add_unit (p : TimeSpanParts) (u : TimeUnit) (num : Z) : TimeSpanParts :=
  let '(mkParts y mo w d h mi s ms us ns) := p in
  match u with
  | Seconds => mkParts y mo w d h mi (add_u64 s num) ms us ns
  | Milliseconds => mkParts y mo w d h mi s (add_u64 ms num) us ns
  | Microseconds => mkParts y mo w d h mi s ms (add_u64 us num) ns
  | Nanoseconds => mkParts y mo w d h mi s ms us (add_u64 ns num)
  | Minutes => mkParts y mo w d h (add_u64 mi num) s ms us ns
  | Hours => mkParts y mo w d (add_u64 h num) mi s ms us ns
  | Days => mkParts y mo w (add_u64 d num) h mi s ms us ns
  | Weeks => mkParts y mo (add_u64 w num) d h mi s ms us ns
  | Months => mkParts y (add_u64 mo num) w d h mi s ms us ns
  | Years => mkParts (add_u64 y num) mo w d h mi s ms us ns
  end.

Section Parse.
Context {N : Nom}.

(** The loop of [parse_time_span_incomplete]; [None] is out of fuel. *)
Fixpoint span_loop (fuel : nat) (i : rstr) (p : TimeSpanParts) (parsed_any : bool) :
  option (result (rstr * (TimeSpanParts * bool)) nom_err) :=
  match fuel with
  | O => None
  | S fuel' =>
      let i := trim_start i in
      match i with
      | [] => Some (Ok (i, (p, parsed_any)))
      | _ =>
          match nom_u64 i with
          | Err e => Some (Err e)
          | Ok (n, num) =>
              let i := trim_start n in
              match parse_time_unit i with
              | Ok (n, u) => span_loop fuel' n (add_unit p u (Z.of_N num)) true
              | Err _ => span_loop fuel' i (add_unit p Seconds (Z.of_N num)) true
              end
          end
      end
  end.

(** Every iteration consumes a character. *)
Definition parse_time_span_incomplete : parser TimeSpanParts := λ i,
  match span_loop (S (length i)) i default_parts false with
  | Some (Ok (i, (p, true))) => Ok (i, p)
  | Some (Ok (_, (_, false))) => Err NomError
  | Some (Err e) => Err e
  | None => Err NomFailure
  end.

(** [impl FromStr for TimeSpan] *)
Definition span_from_str (i : rstr) : result TimeSpan SpanError :=
  match parse_complete_line parse_time_span_incomplete i with
  | Ok p => span_try_from p
  | Err _ => Err SpanSyntax
  end.

Definition verify_time_span (i : rstr) : result unit SpanError :=
  let? _ := span_from_str i in Ok tt.
End Parse.
