(* ===== verification/TimeSpanTheory.v ===== *)
(** * TimeSpanTheory: conversions and text of time spans

    A span is its number of nanoseconds. The conversion from parts computes it or
    reports that it does not fit, the parts of a span are in their natural ranges,
    and the displays by whole units are read back. *)
From S2P Require Import Prelude Nom TimeSpan.

#[local] Open Scope Z_scope.

(** ** Nanoseconds *)
Definition span_ns (ts : TimeSpan) : Z := ts.(secs) * NS_PER_SEC + ts.(nanos).
Definition span_of_ns (n : Z) : TimeSpan := mkSpan (n / NS_PER_SEC) (n mod NS_PER_SEC).
Definition wf_span (ts : TimeSpan) : Prop := 0 ≤ ts.(secs) < 2 ^ 64 ∧ 0 ≤ ts.(nanos) < NS_PER_SEC.

Definition get_unit (p : TimeSpanParts) (u : TimeUnit) : Z :=
  match u with
  | Years => p.(years) | Months => p.(months) | Weeks => p.(weeks) | Days => p.(days) | Hours => p.(hours)
  | Minutes => p.(minutes) | Seconds => p.(seconds) | Milliseconds => p.(msec) | Microseconds => p.(usec)
  | Nanoseconds => p.(nsec)
  end.

Definition sum_pairs (l : list (Z * TimeUnit)) : Z := foldr (λ vu s, vu.1 * unit_nanos vu.2 + s) 0 l.
Definition parts_ns (p : TimeSpanParts) : Z := sum_pairs (unit_pairs p).
Definition wf_parts (p : TimeSpanParts) : Prop := ∀ u, 0 ≤ get_unit p u < 2 ^ 64.

Lemma span_of_ns_ns ts : wf_span ts → span_of_ns (span_ns ts) = ts.
Proof.
  intros [Hs Hn]. destruct ts as [s n]. unfold span_of_ns, span_ns, NS_PER_SEC in *. simpl in *.
  f_equal; Z.to_euclidean_division_equations; lia.
Qed.

Lemma span_ns_of_ns n : span_ns (span_of_ns n) = n.
Proof. unfold span_ns, span_of_ns. simpl. pose proof (Z.div_mod n NS_PER_SEC). unfold NS_PER_SEC in *. lia. Qed.

Ltac unit_consts := unfold unit_nanos, SECS_PER_YEAR, SECS_PER_MONTH, SECS_PER_WEEK, SECS_PER_DAY,
  SECS_PER_HOUR, SECS_PER_MINUTE, NS_PER_SEC in *.

(** ** From parts *)
Lemma checked_u64_small z : z < 2 ^ 64 → checked_u64 z = Some z.
Proof. intros H. unfold checked_u64. by rewrite (proj2 (Z.ltb_lt _ _)). Qed.

Lemma checked_u64_large z : 2 ^ 64 ≤ z → checked_u64 z = None.
Proof. intros H. unfold checked_u64. by rewrite (proj2 (Z.ltb_ge _ _)). Qed.

Lemma checked_sum_spec acc (l : list Z) :
  0 ≤ acc < 2 ^ 64 → Forall (λ v, 0 ≤ v) l →
  checked_sum acc (checked_u64 <$> l) =
  if acc + foldr Z.add 0 l <? 2 ^ 64 then Some (acc + foldr Z.add 0 l) else None.
Proof.
  intros Hacc Hl. revert acc Hacc. induction Hl as [|v l Hv Hl IH]; intros acc Hacc.
  { cbn [fmap list_fmap checked_sum foldr]. rewrite Z.add_0_r. destruct (Z.ltb_spec acc (2 ^ 64)); [done|lia]. }
  assert (0 ≤ foldr Z.add 0 l) as Hpos by (clear -Hl; induction Hl; simpl; lia).
  cbn [fmap list_fmap checked_sum foldr]. destruct (Z.lt_ge_cases (acc + v) (2 ^ 64)).
  2: { rewrite (proj2 (Z.ltb_ge _ _)) by lia. destruct (Z.lt_ge_cases v (2 ^ 64));
         [rewrite checked_u64_small by lia; simpl; by rewrite checked_u64_large|by rewrite checked_u64_large]. }
  rewrite checked_u64_small by lia. simpl. rewrite checked_u64_small by lia. simpl.
  rewrite IH by lia. by replace (acc + (v + foldr Z.add 0 l)) with (acc + v + foldr Z.add 0 l) by lia.
Qed.

Lemma span_try_from_ns p :
  wf_parts p →
  span_try_from p =
  if parts_ns p <? 2 ^ 64 * NS_PER_SEC then Ok (span_of_ns (parts_ns p)) else Err SpanTooLarge.
Proof.
  intros Hwf. pose proof (Hwf Years) as Hy. pose proof (Hwf Months) as Hmo. pose proof (Hwf Weeks) as Hw.
  pose proof (Hwf Days) as Hd. pose proof (Hwf Hours) as Hh. pose proof (Hwf Minutes) as Hmi.
  pose proof (Hwf Seconds) as Hs. pose proof (Hwf Milliseconds) as Hms. pose proof (Hwf Microseconds) as Hus.
  pose proof (Hwf Nanoseconds) as Hns. destruct p as [y mo w d h mi s ms us ns]. simpl in *.
  unfold span_try_from. cbn [years months weeks days hours minutes seconds msec usec nsec].
  set (sub := ms mod 1000 * 1000000 + us mod 1000000 * 1000 + ns mod 1000000000).
  assert (0 ≤ sub < 2 ^ 32) as Hsub by (subst sub; Z.to_euclidean_division_equations; lia).
  rewrite (Z.mod_small sub) by lia.
  set (l := [y * SECS_PER_YEAR; mo * SECS_PER_MONTH; w * SECS_PER_WEEK; d * SECS_PER_DAY; h * SECS_PER_HOUR;
             mi * SECS_PER_MINUTE; s; ms / 1000; us / 1000000; ns / 1000000000; sub / 1000000000]).
  match goal with |- context [checked_sum 0 ?x] => replace x with (checked_u64 <$> l) end.
  2: { unfold l. cbn [fmap list_fmap].
       rewrite (checked_u64_small s), (checked_u64_small (ms / 1000)), (checked_u64_small (us / 1000000)),
         (checked_u64_small (ns / 1000000000)), (checked_u64_small (sub / 1000000000)); [done|..];
         Z.to_euclidean_division_equations; lia. }
  rewrite checked_sum_spec; [|lia|].
  2: { unfold l. unit_consts. repeat constructor; try lia; Z.to_euclidean_division_equations; lia. }
  assert (foldr Z.add 0 l = parts_ns (mkParts y mo w d h mi s ms us ns) / NS_PER_SEC ∧
          sub mod 1000000000 = parts_ns (mkParts y mo w d h mi s ms us ns) mod NS_PER_SEC) as [E1 E2].
  { unfold l, parts_ns, sum_pairs, unit_pairs. simpl foldr. subst sub. unit_consts.
    change (24 * (60 * 60) * 36525 / 100) with 31557600. change (24 * (60 * 60) * 3044 / 100) with 2630016.
    simpl. clear. Z.to_euclidean_division_equations. lia. }
  rewrite Z.add_0_l, E1, E2. set (t := parts_ns _).
  unfold span_of_ns. destruct (Z.ltb_spec (t / NS_PER_SEC) (2 ^ 64)), (Z.ltb_spec t (2 ^ 64 * NS_PER_SEC)); try done;
    exfalso; unfold NS_PER_SEC in *; Z.to_euclidean_division_equations; lia.
Qed.

(** ** Division by one unit after the other *)
Fixpoint chain (rem : Z) (units : list TimeUnit) : list (Z * TimeUnit) * Z :=
  match units with
  | [] => ([], rem)
  | u :: us =>
      let '(l, r) := chain (rem mod unit_nanos u) us in ((rem / unit_nanos u, u) :: l, r)
  end.

Lemma unit_nanos_pos u : 0 < unit_nanos u ≤ 2 ^ 60.
Proof. destruct u; vm_compute; split; congruence. Qed.

Lemma chain_sum rem units : sum_pairs (chain rem units).1 + (chain rem units).2 = rem.
Proof.
  revert rem. induction units as [|u us IH]; intros rem; simpl; [lia|].
  specialize (IH (rem mod unit_nanos u)). destruct (chain _ us) as [l r]. simpl in *.
  pose proof (unit_nanos_pos u). pose proof (Z.div_mod rem (unit_nanos u)). lia.
Qed.

Lemma chain_units rem units : (chain rem units).1.*2 = units.
Proof.
  revert rem. induction units as [|u us IH]; intros rem; simpl; [done|].
  specialize (IH (rem mod unit_nanos u)). destruct (chain _ us) as [l r]. simpl in *. by f_equal.
Qed.

Lemma chain_vals rem units : 0 ≤ rem → Forall (λ vu, 0 ≤ vu.1 ≤ rem) (chain rem units).1.
Proof.
  revert rem. induction units as [|u us IH]; intros rem Hrem; simpl; [constructor|].
  pose proof (unit_nanos_pos u). pose proof (Z.mod_pos_bound rem (unit_nanos u) ltac:(lia)).
  specialize (IH (rem mod unit_nanos u) ltac:(lia)).
  pose proof (Z.mod_le rem (unit_nanos u) ltac:(lia) ltac:(lia)).
  destruct (chain _ us) as [l r]. simpl in *. constructor; simpl.
  - split; [apply Z.div_pos; lia|]. apply Z.div_le_upper_bound; [lia|nia].
  - eapply Forall_impl; [done|]. intros [v u']. simpl. lia.
Qed.

Lemma chain_rest rem units b :
  last units = Some b → 0 ≤ rem → 0 ≤ (chain rem units).2 < unit_nanos b.
Proof.
  revert rem. induction units as [|u us IH]; intros rem Hlast Hrem; [done|]. simpl.
  pose proof (unit_nanos_pos u). pose proof (Z.mod_pos_bound rem (unit_nanos u) ltac:(lia)).
  destruct us as [|u' us'].
  - simpl in *. simplify_eq. lia.
  - specialize (IH (rem mod unit_nanos u) Hlast ltac:(lia)). by destruct (chain _ _) as [l r].
Qed.

(** The parts are the quotients. *)
Lemma div_sec s n k : 0 ≤ n < NS_PER_SEC → 0 < k → (s * NS_PER_SEC + n) / (k * NS_PER_SEC) = s / k.
Proof.
  intros Hn Hk. rewrite Z.mul_comm, (Z.mul_comm k), <- Z.div_div by (unfold NS_PER_SEC in *; lia).
  f_equal. rewrite (Z.mul_comm NS_PER_SEC). unfold NS_PER_SEC in *. Z.to_euclidean_division_equations. lia.
Qed.

Lemma mod_sec s n k :
  0 ≤ n < NS_PER_SEC → 0 < k → (s * NS_PER_SEC + n) mod (k * NS_PER_SEC) = s mod k * NS_PER_SEC + n.
Proof.
  intros Hn Hk. rewrite Z.mod_eq by (unfold NS_PER_SEC; lia). rewrite div_sec by done.
  rewrite (Z.mod_eq s k) by lia. lia.
Qed.

Lemma parts_chain ts : wf_span ts → unit_pairs (parts ts) = (chain (span_ns ts) all_units).1.
Proof.
  intros [Hs Hn]. destruct ts as [s n]. unfold span_ns, parts, decompose, unit_pairs, all_units in *. simpl in *.
  unfold SECS_PER_YEAR, SECS_PER_MONTH.
  change (SECS_PER_DAY * 36525 / 100) with 31557600. change (SECS_PER_DAY * 3044 / 100) with 2630016.
  rewrite !mod_sec by done. rewrite !div_sec by done. replace NS_PER_SEC with (1 * NS_PER_SEC) by lia.
  rewrite !mod_sec by done. rewrite !div_sec by done. rewrite Z.div_1_r, Z.mod_1_r, Z.mul_0_l, Z.add_0_l, Z.div_1_r.
  done.
Qed.

(** ** What the displays write *)
Fixpoint emit (first : bool) (pairs : list (Z * TimeUnit)) : rstr * bool :=
  match pairs with
  | [] => ([], first)
  | (val, u) :: pairs' =>
      if 0 <? val then
        let '(out, f) := emit false pairs' in ((if first then [] else lit " ") ++ unit_text val u ++ out, f)
      else emit first pairs'
  end.

(** The units of a window. *)
Definition window (top bottom : TimeUnit) : list TimeUnit :=
  take (Z.to_nat (ordinal bottom + 1 - ordinal top)) (drop (Z.to_nat (ordinal top)) all_units).

Definition beyond (bottom : Z) (units : list TimeUnit) : Prop :=
  match units with
  | [] => True
  | u :: _ => bottom < ordinal u
  end.

Lemma window_loop_skip top bottom rem first pre units :
  Forall (λ u, ordinal u < top) pre →
  window_loop top bottom rem first (pre ++ units) = window_loop top bottom rem first units.
Proof.
  induction 1 as [|u pre Hu _ IH]; [done|]. cbn [app window_loop]. by rewrite (proj2 (Z.ltb_lt _ _) Hu).
Qed.

Lemma window_loop_units top bottom rem first units post :
  Forall (λ u, top ≤ ordinal u ≤ bottom) units → beyond bottom post → Forall (λ u, top ≤ ordinal u) post →
  window_loop top bottom rem first (units ++ post) = emit first (chain rem units).1.
Proof.
  intros Hu Hp Hp'. revert rem first. induction Hu as [|u units Hu _ IH]; intros rem first.
  - destruct post as [|u post]; [done|]. inversion Hp'; subst. simpl in *.
    rewrite (proj2 (Z.ltb_ge _ _)) by done. by rewrite (proj2 (Z.ltb_lt _ _)).
  - cbn [app window_loop chain]. rewrite !(proj2 (Z.ltb_ge _ _)) by lia. rewrite !IH.
    destruct (chain _ units) as [l r]. cbn [fst emit]. done.
Qed.

Lemma window_loop_emit top bottom rem :
  window_loop (ordinal top) (ordinal bottom) rem true all_units = emit true (chain rem (window top bottom)).1.
Proof.
  unfold window. set (t := Z.to_nat (ordinal top)). set (k := Z.to_nat (ordinal bottom + 1 - ordinal top)).
  rewrite <- (take_drop t all_units) at 1. rewrite <- (take_drop k (drop t all_units)) at 1.
  rewrite window_loop_skip by (destruct top; repeat constructor).
  apply window_loop_units; destruct top, bottom; simpl; repeat constructor; simpl; lia.
Qed.

Lemma down_loop_units limit first (l post : list (Z * TimeUnit)) :
  Forall (λ vu, ordinal vu.2 ≤ limit) l → beyond limit post.*2 → down_loop limit first (l ++ post) = emit first l.
Proof.
  intros Hl Hp. revert first. induction Hl as [|[v u] l Hu _ IH]; intros first.
  - destruct post as [|[v u] post]; [done|]. simpl in *. by rewrite (proj2 (Z.ltb_lt _ _)).
  - cbn [app down_loop emit]. simpl in Hu. rewrite (proj2 (Z.ltb_ge _ _)) by done. by rewrite !IH.
Qed.

(** The tokens of a text: the units with a value. *)
Definition tokens (pairs : list (Z * TimeUnit)) : list (Z * TimeUnit) := filter (λ vu, 0 < vu.1) pairs.

Definition rest_text (l : list (Z * TimeUnit)) : rstr := concat ((λ vu, lit " " ++ unit_text vu.1 vu.2) <$> l).
Definition text (l : list (Z * TimeUnit)) : rstr :=
  match l with
  | [] => []
  | (v, u) :: l' => unit_text v u ++ rest_text l'
  end.

Lemma emit_text first pairs :
  emit first pairs = ((if first then text (tokens pairs) else rest_text (tokens pairs)),
                      first && bool_decide (tokens pairs = [])).
Proof.
  revert first. induction pairs as [|[v u] pairs IH]; intros first; [by destruct first|].
  cbn [emit]. unfold tokens. rewrite filter_cons. fold (tokens pairs). simpl.
  destruct (Z.ltb_spec 0 v).
  - rewrite decide_True by done. rewrite (IH false).
    rewrite (bool_decide_eq_false_2 ((v, u) :: tokens pairs = [])) by done.
    destruct first; simpl; [done|]. done.
  - rewrite decide_False by lia. apply IH.
Qed.

Lemma sum_tokens pairs : Forall (λ vu, 0 ≤ vu.1) pairs → sum_pairs (tokens pairs) = sum_pairs pairs.
Proof.
  induction 1 as [|[v u] pairs Hv _ IH]; [done|]. unfold tokens. rewrite filter_cons. fold (tokens pairs). simpl in *.
  case_decide; simpl; rewrite IH; [done|]. replace v with 0 by lia. lia.
Qed.

(** The text of a window, with the zero of its unit if there is nothing else. *)
Definition window_tokens (pairs : list (Z * TimeUnit)) (zero_unit : TimeUnit) : list (Z * TimeUnit) :=
  match tokens pairs with
  | [] => [(0, zero_unit)]
  | l => l
  end.

Lemma fmt_unit_window_text ts top bottom zero_unit :
  fmt_unit_window ts (ordinal top) (ordinal bottom) zero_unit =
  text (window_tokens (chain (span_ns ts) (window top bottom)).1 zero_unit).
Proof.
  unfold fmt_unit_window. change (secs ts * 1000000000 + nanos ts) with (span_ns ts).
  rewrite window_loop_emit, emit_text. simpl. unfold window_tokens.
  destruct (tokens _) as [|[v u] l]; [|done]. simpl. unfold rest_text. by rewrite app_nil_r.
Qed.

(** ** Reading it back *)
Lemma suffix_spec u :
  Forall (λ c, unit_char c = true) (suffix u) ∧ classify (suffix u) = Some u ∧
  ∃ c s, suffix u = c :: s ∧ is_ascii_digit c = false ∧ is_whitespace c = false.
Proof.
  destruct u; (split; [repeat constructor|]); (split; [vm_compute; reflexivity|]);
    do 2 eexists; (split; [reflexivity|done]).
Qed.

Lemma parse_time_unit_suffix u r : stops unit_char r → parse_time_unit (suffix u ++ r) = Ok (r, u).
Proof.
  intros Hr. destruct (suffix_spec u) as (Hs & Hc & c & s & E & _). unfold parse_time_unit.
  rewrite take_while_run, drop_while_run by done. rewrite E in *. by rewrite Hc.
Qed.

Lemma rest_text_stops l : stops unit_char (rest_text l).
Proof. by destruct l. Qed.

Lemma trim_start_dec n r : trim_start (dec n ++ r) = dec n ++ r.
Proof.
  destruct (dec_spec n) as (_ & Hd & Hne). destruct (dec n) as [|c s]; [done|]. inversion Hd as [|? ? Hc]; subst.
  apply drop_while_stops. simpl. unfold is_ascii_digit, is_whitespace in *. lia.
Qed.

Definition add_all (p : TimeSpanParts) (l : list (Z * TimeUnit)) : TimeSpanParts :=
  foldl (λ p vu, add_unit p vu.2 vu.1) p l.

Section Parse.
Context {N : Nom} {NL : NomLaws N}.

(** One iteration of the loop, with or without a space in front. *)
Lemma span_loop_token fuel sp v u l p any :
  sp = [] ∨ sp = lit " " → 0 ≤ v < 2 ^ 64 →
  span_loop (S fuel) (sp ++ unit_text v u ++ rest_text l) p any = span_loop fuel (rest_text l) (add_unit p u v) true.
Proof.
  intros Hsp Hv. cbn [span_loop]. unfold unit_text. rewrite <- !app_assoc.
  assert (trim_start (sp ++ dec (Z.to_N v) ++ suffix u ++ rest_text l) = dec (Z.to_N v) ++ suffix u ++ rest_text l) as ->.
  { destruct Hsp as [-> | ->]; [apply trim_start_dec|]. simpl. apply trim_start_dec. }
  destruct (suffix_spec u) as (_ & _ & c & s & E & Hd & Hw).
  rewrite nom_u64_eq, number64_dec; [|unfold u64_max; lia|rewrite E; done].
  assert (trim_start (suffix u ++ rest_text l) = suffix u ++ rest_text l) as ->.
  { apply drop_while_stops. by rewrite E. }
  rewrite parse_time_unit_suffix by apply rest_text_stops. rewrite Z2N.id by lia.
  destruct (dec_spec (Z.to_N v)) as (_ & _ & Hne). by destruct (dec (Z.to_N v)).
Qed.

Lemma span_loop_tokens fuel l p any :
  (length l < fuel)%nat → Forall (λ vu, 0 ≤ vu.1 < 2 ^ 64) l →
  span_loop fuel (rest_text l) p any = Some (Ok ([], (add_all p l, any || bool_decide (l ≠ [])))).
Proof.
  intros Hf Hl. revert fuel p any Hf. induction Hl as [|[v u] l Hv _ IH]; intros fuel p any Hf;
    (destruct fuel as [|fuel]; [simpl in Hf; lia|]).
  - simpl. by rewrite orb_false_r.
  - change (rest_text ((v, u) :: l)) with ((lit " " ++ unit_text v u) ++ rest_text l). rewrite <- app_assoc.
    rewrite span_loop_token by auto. rewrite IH by (simpl in Hf; lia).
    rewrite (bool_decide_eq_true_2 ((v, u) :: l ≠ [])) by done. by rewrite orb_true_r.
Qed.

Lemma text_length l : (length l ≤ length (rest_text l))%nat.
Proof.
  induction l as [|[v u] l IH]; [done|].
  change (rest_text ((v, u) :: l)) with ((lit " " ++ unit_text v u) ++ rest_text l).
  rewrite !length_app. change (length (lit " ")) with 1%nat. cbn [length]. lia.
Qed.

Lemma parse_text l :
  l ≠ [] → Forall (λ vu, 0 ≤ vu.1 < 2 ^ 64) l →
  parse_complete_line parse_time_span_incomplete (text l) = Ok (add_all default_parts l).
Proof.
  intros Hne Hl. destruct l as [|[v u] l]; [done|]. inversion Hl as [|? ? Hv Hl']; subst. simpl in Hv.
  unfold parse_complete_line. rewrite all_consuming_eq. unfold parse_time_span_incomplete. cbn [text].
  pose proof (span_loop_token (length (unit_text v u ++ rest_text l)) [] v u l default_parts false ltac:(auto) Hv) as Ht.
  rewrite app_nil_l in Ht. rewrite Ht. rewrite span_loop_tokens; [done| |done].
  pose proof (text_length l). rewrite !length_app. destruct (dec_spec (Z.to_N v)) as (_ & _ & Hd).
  unfold unit_text. rewrite length_app. destruct (dec (Z.to_N v)); [done|]. simpl. lia.
Qed.
End Parse.

(** ** The sum of what is read *)
Lemma get_add_unit p u v u' :
  get_unit (add_unit p u v) u' = if decide (u = u') then add_u64 (get_unit p u) v else get_unit p u'.
Proof. destruct p, u, u'; reflexivity. Qed.

Lemma parts_ns_add p u v :
  0 ≤ v → 0 ≤ get_unit p u → get_unit p u + v < 2 ^ 64 → parts_ns (add_unit p u v) = parts_ns p + v * unit_nanos u.
Proof.
  intros Hv Hp Hs. assert (add_u64 (get_unit p u) v = get_unit p u + v) as E
    by (unfold add_u64; rewrite Z.mod_small; lia).
  unfold parts_ns, sum_pairs. destruct p as [y mo w d h mi s ms us ns], u;
    cbn [get_unit years months weeks days hours minutes seconds msec usec nsec] in E;
    cbn [add_unit unit_pairs foldr fst snd years months weeks days hours minutes seconds msec usec nsec];
    rewrite E; lia.
Qed.

(** Different units do not overflow each other. *)
Lemma add_all_ns p l :
  wf_parts p → NoDup l.*2 → Forall (λ vu, 0 ≤ vu.1 < 2 ^ 64) l → (∀ u, u ∈ l.*2 → get_unit p u = 0) →
  parts_ns (add_all p l) = parts_ns p + sum_pairs l ∧ wf_parts (add_all p l).
Proof.
  intros Hp Hnd Hl Hz. revert p Hp Hnd Hz. induction Hl as [|[v u] l Hv _ IH]; intros p Hp Hnd Hz; simpl in *.
  { split; [lia|done]. }
  apply NoDup_cons in Hnd as [Hni Hnd]. assert (get_unit p u = 0) as Hu by (apply Hz; by left).
  assert (add_u64 (get_unit p u) v = v) as Eadd by (unfold add_u64; rewrite Hu, Z.mod_small; lia).
  destruct (IH (add_unit p u v)) as [H1 H2].
  - intros u'. rewrite get_add_unit. case_decide; [lia|apply Hp].
  - done.
  - intros u' Hin. rewrite get_add_unit. case_decide; [by subst|]. apply Hz. by right.
  - split; [|done]. rewrite H1, parts_ns_add by lia. lia.
Qed.

Lemma default_parts_wf : wf_parts default_parts.
Proof. intros u. destruct u; simpl; lia. Qed.

(** A text of different units is read as the sum of its values. *)
Lemma span_from_str_text {N : Nom} {NL : NomLaws N} l :
  l ≠ [] → NoDup l.*2 → Forall (λ vu, 0 ≤ vu.1 < 2 ^ 64) l → sum_pairs l < 2 ^ 64 * NS_PER_SEC →
  span_from_str (text l) = Ok (span_of_ns (sum_pairs l)).
Proof.
  intros Hne Hnd Hl Hs. unfold span_from_str. rewrite parse_text by done.
  destruct (add_all_ns default_parts l) as [H1 H2]; [apply default_parts_wf|done|done|by intros []|].
  rewrite span_try_from_ns by done. rewrite H1. change (parts_ns default_parts) with 0. rewrite Z.add_0_l.
  by rewrite (proj2 (Z.ltb_lt _ _)).
Qed.

(** ** The text of a window *)
Lemma window_last top bottom : ordinal top ≤ ordinal bottom → last (window top bottom) = Some bottom.
Proof. destruct top, bottom; simpl; intros H; (reflexivity || lia). Qed.

Lemma window_head top bottom : ordinal top ≤ ordinal bottom → ∃ us, window top bottom = top :: us.
Proof. destruct top, bottom; simpl; intros H; try lia; eexists; reflexivity. Qed.

Lemma window_nodup top bottom : NoDup (window top bottom).
Proof.
  apply (bool_decide_unpack _). destruct top, bottom; vm_compute; exact I.
Qed.

(** Only the first value of a window can be too large for the parser. *)
Lemma window_vals rem top bottom :
  ordinal top ≤ ordinal bottom → 0 ≤ rem → rem / unit_nanos top < 2 ^ 64 →
  Forall (λ vu, 0 ≤ vu.1 < 2 ^ 64) (chain rem (window top bottom)).1.
Proof.
  intros Hord Hrem Hval. destruct (window_head top bottom Hord) as [us ->]. simpl.
  pose proof (unit_nanos_pos top) as Hp. pose proof (Z.mod_pos_bound rem (unit_nanos top) ltac:(lia)) as Hm.
  pose proof (chain_vals (rem mod unit_nanos top) us ltac:(lia)) as Hv. destruct (chain _ us) as [l r]. simpl in *.
  constructor; simpl; [split; [apply Z.div_pos; lia|done]|].
  eapply Forall_impl; [done|]. intros [v u]. simpl. lia.
Qed.

Lemma Forall_filter_weaken {A} (P Q : A → Prop) `{!∀ x, Decision (Q x)} l : Forall P l → Forall P (filter Q l).
Proof. rewrite !Forall_forall. intros HP x [_ Hx]%list_elem_of_filter. auto. Qed.

Lemma NoDup_fmap_filter {A B} (f : A → B) (Q : A → Prop) `{!∀ x, Decision (Q x)} l :
  NoDup (f <$> l) → NoDup (f <$> filter Q l).
Proof.
  induction l as [|x l IH]; simpl; [done|]. rewrite filter_cons, NoDup_cons. intros [Hx Hl].
  case_decide; simpl; [|auto]. apply NoDup_cons. split; [|auto].
  intros Hin. apply Hx. apply list_elem_of_fmap in Hin as (y & -> & Hy%list_elem_of_filter).
  apply list_elem_of_fmap. exists y. tauto.
Qed.

Lemma fmt_unit_window_read {N : Nom} {NL : NomLaws N} ts top bottom zero_unit :
  wf_span ts → ordinal top ≤ ordinal bottom → span_ns ts / unit_nanos top < 2 ^ 64 →
  ∃ r, 0 ≤ r < unit_nanos bottom ∧ r ≤ span_ns ts ∧
    span_from_str (fmt_unit_window ts (ordinal top) (ordinal bottom) zero_unit) = Ok (span_of_ns (span_ns ts - r)).
Proof.
  intros [Hs Hn] Hord Hval. assert (0 ≤ span_ns ts < 2 ^ 64 * NS_PER_SEC) as Hpos
    by (unfold span_ns, NS_PER_SEC in *; lia).
  set (pairs := (chain (span_ns ts) (window top bottom)).1). set (r := (chain (span_ns ts) (window top bottom)).2).
  pose proof (window_vals (span_ns ts) top bottom Hord ltac:(lia) Hval) as Hv. fold pairs in Hv.
  assert (0 ≤ r < unit_nanos bottom) as Hr by (apply chain_rest; [by apply window_last|lia]).
  assert (sum_pairs pairs + r = span_ns ts) as Hsum by apply chain_sum.
  assert (Forall (λ vu, 0 ≤ vu.1) pairs) as Hnn by (eapply Forall_impl; [done|]; intros [v u]; simpl; lia).
  assert (0 ≤ sum_pairs pairs) as Hsp.
  { clear -Hnn. induction Hnn as [|[v u] l Hv _ IH]; [done|]. simpl in *. pose proof (unit_nanos_pos u). nia. }
  exists r. split; [done|]. split; [lia|].
  replace (span_ns ts - r) with (sum_pairs (window_tokens pairs zero_unit)).
  2: { unfold window_tokens. rewrite <- (sum_tokens pairs Hnn) in Hsum. destruct (tokens pairs); simpl in *; lia. }
  rewrite fmt_unit_window_text. fold pairs. apply span_from_str_text.
  - unfold window_tokens. by destruct (tokens pairs).
  - unfold window_tokens. destruct (tokens pairs) as [|p l] eqn:E; [apply NoDup_singleton|]. rewrite <- E.
    apply NoDup_fmap_filter. unfold pairs. rewrite chain_units. apply window_nodup.
  - unfold window_tokens. destruct (tokens pairs) as [|p l] eqn:E; [repeat constructor; simpl; lia|]. rewrite <- E.
    by apply Forall_filter_weaken.
  - unfold window_tokens. rewrite <- (sum_tokens pairs Hnn) in Hsum. destruct (tokens pairs); simpl in *; [|lia].
    unfold NS_PER_SEC. lia.
Qed.

(** ** Results *)

(** A span displayed by whole units between two bounds is read back as
    the span itself, cut off below the finer unit; up to the nanosecond nothing is
    lost. The coarsest value must fit the parser's [u64]. *)
Theorem display_range_read {N : Nom} {NL : NomLaws N} ts largest smallest :
  let coarse := if ordinal largest <=? ordinal smallest then largest else smallest in
  let fine := if ordinal largest <=? ordinal smallest then smallest else largest in
  wf_span ts → span_ns ts / unit_nanos coarse < 2 ^ 64 →
  (∃ ts', span_from_str (display_range ts largest smallest) = Ok ts' ∧
     span_ns ts' ≤ span_ns ts < span_ns ts' + unit_nanos fine) ∧
  span_from_str (display_up_to ts coarse) = Ok ts.
Proof.
  intros coarse fine Hwf Hval. split.
  - assert (ordinal coarse ≤ ordinal fine) as Hord by (subst coarse fine; case_match; lia).
    destruct (fmt_unit_window_read ts coarse fine fine Hwf Hord Hval) as (r & Hr & Hle & Hread).
    exists (span_of_ns (span_ns ts - r)). rewrite span_ns_of_ns. split; [|lia].
    rewrite <- Hread. unfold display_range, coarse, fine. by destruct (ordinal largest <=? ordinal smallest).
  - assert (ordinal coarse ≤ ordinal Nanoseconds) as Hord by (destruct coarse; simpl; lia).
    destruct (fmt_unit_window_read ts coarse Nanoseconds coarse Hwf Hord Hval) as (r & Hr & Hle & Hread).
    unfold display_up_to. rewrite Hread. simpl in Hr. replace r with 0 by lia.
    by rewrite Z.sub_0_r, span_of_ns_ns.
Qed.

Lemma display_range_read_witness :
  span_from_str (N := nom_complete) (display_up_to (mkSpan 95445 7) Hours) = Ok (mkSpan 95445 7).
Proof.
  apply (display_range_read (N := nom_complete) (mkSpan 95445 7) Minutes Hours).
  - split; unfold NS_PER_SEC; simpl; lia.
  - vm_compute. reflexivity.
Defined.

Lemma wf_parts_parts ts : wf_span ts → wf_parts (parts ts).
Proof.
  intros [Hs Hn]. destruct ts as [s n]. unfold parts, decompose, NS_PER_SEC in *.
  intros u. destruct u; cbn [get_unit years months weeks days hours minutes seconds msec usec nsec secs nanos] in *;
    unit_consts; change (24 * (60 * 60) * 36525 / 100) with 31557600; change (24 * (60 * 60) * 3044 / 100) with 2630016;
    simpl; Z.to_euclidean_division_equations; lia.
Qed.

(** The parts of a span are in their natural ranges and sum up to it again:
    the conversion to parts and back is the identity. The conversion from
    arbitrary parts gives the span of their sum, and an error exactly if that has
    too many seconds for an [u64]. *)
Theorem parts_try_from :
  (∀ ts, wf_span ts →
     span_try_from (parts ts) = Ok ts ∧
     (parts ts).(months) < 12 ∧ (parts ts).(weeks) < 5 ∧ (parts ts).(days) < 7 ∧ (parts ts).(hours) < 24 ∧
     (parts ts).(minutes) < 60 ∧ (parts ts).(seconds) < 60 ∧ (parts ts).(msec) < 1000 ∧
     (parts ts).(usec) < 1000 ∧ (parts ts).(nsec) < 1000) ∧
  (∀ p, wf_parts p →
     span_try_from p =
     if parts_ns p <? 2 ^ 64 * NS_PER_SEC then Ok (span_of_ns (parts_ns p)) else Err SpanTooLarge).
Proof.
  split; [|apply span_try_from_ns]. intros ts Hwf. split.
  - rewrite span_try_from_ns by by apply wf_parts_parts.
    assert (parts_ns (parts ts) = span_ns ts) as ->.
    { unfold parts_ns. rewrite parts_chain by done. pose proof (chain_sum (span_ns ts) all_units) as H.
      pose proof (chain_rest (span_ns ts) all_units Nanoseconds eq_refl) as Hr. destruct Hwf as [Hs Hn].
      assert (0 ≤ span_ns ts) by (unfold span_ns, NS_PER_SEC in *; lia).
      change (unit_nanos Nanoseconds) with 1 in Hr. generalize dependent (chain (span_ns ts) all_units). intros. lia. }
    rewrite span_of_ns_ns by done. destruct Hwf as [Hs Hn].
    rewrite (proj2 (Z.ltb_lt _ _)); [reflexivity|]. unfold span_ns, NS_PER_SEC in *. lia.
  - destruct Hwf as [Hs Hn]. destruct ts as [s n]. unfold parts, decompose, NS_PER_SEC in *.
    cbn [months weeks days hours minutes seconds msec usec nsec secs nanos] in *.
    unit_consts. change (24 * (60 * 60) * 36525 / 100) with 31557600. change (24 * (60 * 60) * 3044 / 100) with 2630016.
    simpl. Z.to_euclidean_division_equations. lia.
Qed.

Lemma parts_try_from_witness :
  span_try_from (parts (mkSpan 2716419 500200003)) = Ok (mkSpan 2716419 500200003) ∧
  (parts (mkSpan 2716419 500200003)).(months) < 12.
Proof.
  destruct parts_try_from as [H _].
  destruct (H (mkSpan 2716419 500200003)) as (H1 & H2 & _); [split; unfold NS_PER_SEC; simpl; lia|]. split; assumption.
Defined.

(** The two implementations of the display by units down to a smallest one
    agree: the one over the parts and the one over a window that starts with the
    years. *)
Theorem display_down_to_is_range ts smallest :
  wf_span ts → display_down_to ts smallest = display_range ts Years smallest.
Proof.
  intros Hwf. unfold display_down_to, display_range, fmt_unit_window.
  assert ((ordinal Years <=? ordinal smallest) = true) as -> by (by destruct smallest).
  change (secs ts * 1000000000 + nanos ts) with (span_ns ts). rewrite window_loop_emit, parts_chain by done.
  assert (∀ k, take k (chain (span_ns ts) all_units).1 = (chain (span_ns ts) (take k all_units)).1) as Htake.
  { generalize (span_ns ts) all_units. intros rem units k. revert rem units.
    induction k as [|k IH]; intros rem [|u us]; try done. cbn [take chain].
    specialize (IH (rem mod unit_nanos u) us). destruct (chain _ us), (chain _ (take k us)). simpl in *. by f_equal. }
  set (k := Z.to_nat (ordinal smallest + 1 - ordinal Years)).
  rewrite <- (take_drop k (chain (span_ns ts) all_units).1). rewrite Htake.
  rewrite down_loop_units; [done| |].
  - assert (Forall (λ u, ordinal u ≤ ordinal smallest) (take k all_units)) as H.
    { subst k. destruct smallest; simpl; repeat constructor; simpl; lia. }
    rewrite <- (chain_units (span_ns ts) (take k all_units)) in H. by rewrite Forall_fmap in H.
  - rewrite fmap_drop, chain_units. subst k. by destruct smallest.
Qed.

Lemma display_down_to_is_range_witness :
  display_down_to (mkSpan 5445 0) Minutes = display_range (mkSpan 5445 0) Years Minutes.
Proof. apply display_down_to_is_range. split; unfold NS_PER_SEC; simpl; lia. Defined.

Lemma parse_time_unit_length i r u : parse_time_unit i = Ok (r, u) → (length r ≤ length i)%nat.
Proof.
  unfold parse_time_unit. intros H. case_match; [done|]. case_match; [|done]. simplify_eq. apply drop_while_length.
Qed.

(** The parser's loop ends on every input: each iteration consumes a
    character, and more iterations than characters make no difference. *)
Theorem span_loop_terminates {N : Nom} {NL : NomLaws N} i p any extra :
  ∃ res, span_loop (S (length i) + extra) i p any = Some res ∧ span_loop (S (length i)) i p any = Some res.
Proof.
  assert (∀ n i p any, (length i ≤ n)%nat →
    ∃ res, span_loop (S n + extra) i p any = Some res ∧ span_loop (S n) i p any = Some res) as H; [|by apply H].
  clear i p any. induction n as [|n IH]; intros i p any Hn; cbn [Nat.add span_loop].
  - destruct i; [|simpl in Hn; lia]. by eexists.
  - pose proof (drop_while_length is_whitespace i) as H0. fold (trim_start i) in H0.
    destruct (trim_start i) as [|c t] eqn:Et; [by eexists|].
    rewrite nom_u64_eq. destruct (number64 (c :: t)) as [[r num]|] eqn:En; [|by eexists].
    apply number64_length in En. pose proof (drop_while_length is_whitespace r) as H1. fold (trim_start r) in H1.
    destruct (parse_time_unit (trim_start r)) as [[r' u]|] eqn:Eu.
    + apply parse_time_unit_length in Eu. apply IH. simpl in *. lia.
    + apply IH. simpl in *. lia.
Qed.

Lemma span_loop_terminates_witness :
  ∃ res, span_loop (N := nom_complete) (S (length (lit "3d 4h 5")) + 100) (lit "3d 4h 5") default_parts false = Some res.
Proof.
  destruct (span_loop_terminates (N := nom_complete) (lit "3d 4h 5") default_parts false 100) as (res & H & _).
  exists res. exact H.
Defined.

(** The sum of equal units wraps instead of being refused. *)
Lemma span_from_str_wraps :
  span_from_str (N := nom_complete) (lit "18446744073709551615s 2s") = Ok (mkSpan 1 0).
Proof. vm_compute. reflexivity. Qed.
