(* ===== verification/Rfc3339.v ===== *)
(** * Rfc3339: time stamps as text

    Models the conversions of [proxmox-time/src/posix.rs] between epochs and RFC
    3339 text, over the editor of [TmEditor]. [strftime] is a function of the C
    library and with it a parameter; [StrftimeLaws] states what it writes for the
    two formats the code uses. *)
From S2P Require Import Prelude Gregorian TmEditor.

#[local] Open Scope Z_scope.

Class Strftime := libc_strftime : rstr → tm → option rstr.

Section Conversions.
Context `{Libc} `{Strftime}.

(** [strftime] fails if libc does or if the result is empty. *)
Definition strftime (format : rstr) (t : tm) : result rstr TimeError :=
  match libc_strftime format t with
  | Some [] | None => Err LibcFailed
  | Some s => Ok s
  end.

(** [{:02}] of a number below 100. *)
Definition two_digits (v : Z) : rstr := [Z.to_N (48 + v / 10); Z.to_N (48 + v mod 10)].

Definition epoch_to_rfc3339_utc (epoch : Z) : result rstr TimeError :=
  let? t := gmtime epoch in
  let year := wrap_i32 (t.(tm_year) + 1900) in
  if (year <? 0) || (9999 <? year) then Err OutOfRange
  else strftime (lit "%010FT%TZ") t.

Definition epoch_to_rfc3339 (epoch : Z) : result rstr TimeError :=
  let? t := localtime epoch in
  let year := wrap_i32 (t.(tm_year) + 1900) in
  if (year <? 0) || (9999 <? year) then Err OutOfRange
  else
    let offset := t.(tm_gmtoff) in
    let '(prefix, offset) := if offset <? 0 then (chr "-", - offset) else (chr "+", offset) in
    let mins := offset / 60 in
    let hours := mins / 60 in
    let mins := mins mod 60 in
    let? s := strftime (lit "%10FT%T") t in
    Ok (s ++ [prefix] ++ two_digits hours ++ lit ":" ++ two_digits mins).

(** ** Parsing: the input is a slice of bytes *)
Definition byte_at (input : list N) (pos : nat) : N := nth pos input 0%N.

Definition expect (input : list N) (pos : nat) (c : N) : result unit TimeError :=
  if (byte_at input pos =? c)%N then Ok tt else Err OutOfRange.

Definition digit (input : list N) (pos : nat) : result Z TimeError :=
  let d := Z.of_N (byte_at input pos) in
  if (d <? 48) || (57 <? d) then Err OutOfRange else Ok (d - 48).

Definition check_max (i max : Z) : result Z TimeError := if max <? i then Err OutOfRange else Ok i.

(** [digit(pos)? * 10 + digit(pos + 1)?] *)
Definition digits2 (input : list N) (pos : nat) : result Z TimeError :=
  let? a := digit input pos in
  let? b := digit input (S pos) in
  Ok (a * 10 + b).

(** The checks of the length and of the time zone. *)
Definition check_zone (input : list N) : result N TimeError :=
  if (length input <? 20)%nat || (25 <? length input)%nat then Err OutOfRange
  else
    let tz := byte_at input 19 in
    if (tz =? chr "Z")%N then (if decide (length input = 20)%nat then Ok tz else Err OutOfRange)
    else if (tz =? chr "+")%N || (tz =? chr "-")%N then
      (if decide (length input = 25)%nat then Ok tz else Err OutOfRange)
    else Err OutOfRange.

(** The date and the time, in UTC. *)
Definition parse_date_time (input : list N) : result Z TimeError :=
  let t := tm_editor_new true in
  let? y0 := digit input 0 in let? y1 := digit input 1 in
  let? y2 := digit input 2 in let? y3 := digit input 3 in
  let? t := set_year t (y0 * 1000 + y1 * 100 + y2 * 10 + y3) in
  let? _ := expect input 4 (chr "-") in
  let? v := digits2 input 5 in let? v := check_max v 12 in
  let? t := set_mon t v in
  let? _ := expect input 7 (chr "-") in
  let? v := digits2 input 8 in let? v := check_max v 31 in
  let? t := set_mday t v in
  let? _ := expect input 10 (chr "T") in
  let? v := digits2 input 11 in let? v := check_max v 23 in
  let? t := set_hour t v in
  let? _ := expect input 13 (chr ":") in
  let? v := digits2 input 14 in let? v := check_max v 59 in
  let? t := set_min t v in
  let? _ := expect input 16 (chr ":") in
  let? v := digits2 input 17 in let? v := check_max v 60 in
  let? t := set_sec t v in
  into_epoch t.

Definition parse_rfc3339 (input : list N) : result Z TimeError :=
  let? tz := check_zone input in
  let? epoch := parse_date_time input in
  if (tz =? chr "Z")%N then Ok epoch
  else
    let? v := digits2 input 20 in let? hours := check_max v 23 in
    let? _ := expect input 22 (chr ":") in
    let? v := digits2 input 23 in let? mins := check_max v 59 in
    let offset := hours * 3600 + mins * 60 in
    Ok (if (tz =? chr "+")%N then epoch - offset else epoch + offset).
End Conversions.

(** ** What [strftime] writes *)
Definition four_digits (v : Z) : rstr :=
  [Z.to_N (48 + v / 1000); Z.to_N (48 + v / 100 mod 10); Z.to_N (48 + v / 10 mod 10); Z.to_N (48 + v mod 10)].

Definition date_time_text (t : tm) : rstr :=
  four_digits (t.(tm_year) + 1900) ++ lit "-" ++ two_digits (t.(tm_mon) + 1) ++ lit "-" ++ two_digits t.(tm_mday) ++
  lit "T" ++ two_digits t.(tm_hour) ++ lit ":" ++ two_digits t.(tm_min) ++ lit ":" ++ two_digits t.(tm_sec).

(** ISO date and time, of width ten for the date; a year of four digits needs no
    padding. *)
Class StrftimeLaws (S : Strftime) : Prop := {
  strftime_utc t : 0 ≤ t.(tm_year) + 1900 ≤ 9999 →
    libc_strftime (lit "%010FT%TZ") t = Some (date_time_text t ++ lit "Z");
  strftime_local t : 1000 ≤ t.(tm_year) + 1900 ≤ 9999 →
    libc_strftime (lit "%10FT%T") t = Some (date_time_text t)
}.

Definition strftime_iso : Strftime := λ format t,
  if decide (format = lit "%010FT%TZ") then Some (date_time_text t ++ lit "Z") else Some (date_time_text t).

#[export] Instance strftime_iso_laws : StrftimeLaws strftime_iso.
Proof. split; intros t _; unfold libc_strftime, strftime_iso; [by rewrite decide_True|by rewrite decide_False]. Qed.

(** ** Reading a time stamp *)

(** A date and a time as the calendar has them, in the years of four digits. *)
Definition valid_date_time (y m d h mi s : Z) : Prop :=
  0 ≤ y ≤ 9999 ∧ 0 ≤ m ≤ 11 ∧ 1 ≤ d ≤ month_len y m ∧ 0 ≤ h ≤ 23 ∧ 0 ≤ mi ≤ 59 ∧ 0 ≤ s ≤ 59.

#[local] Opaque year_of month_of year_start month_start.

Lemma epoch_of_valid y m d h mi s :
  valid_date_time y m d h mi s →
  epoch_of y m d h mi s = day_of_date y m d * 86400 + h * 3600 + mi * 60 + s.
Proof.
  intros (_ & Hm & _). unfold epoch_of. by rewrite Z.div_small, Z.mod_small, Z.add_0_r by lia.
Qed.

Lemma tm_of_valid y m d h mi s :
  valid_date_time y m d h mi s →
  let t := tm_of_epoch (epoch_of y m d h mi s) in
  t.(tm_sec) = s ∧ t.(tm_min) = mi ∧ t.(tm_hour) = h ∧ t.(tm_mday) = d ∧ t.(tm_mon) = m ∧ t.(tm_year) = y - 1900.
Proof.
  intros Hv. rewrite epoch_of_valid by done. destruct Hv as (Hy & Hm & Hd & Hh & Hmi & Hs).
  destruct (fields_of_epoch (day_of_date y m d) h mi s Hh Hmi Hs) as (E1 & E2 & E3 & E4).
  destruct (date_of_day y m d Hm Hd) as (F1 & F2 & F3).
  unfold tm_of_epoch. cbn. rewrite E1, E2, E3, E4, F1, F2, F3. done.
Qed.

Lemma sane_valid y m d h mi s : valid_date_time y m d h mi s → sane (epoch_of y m d h mi s).
Proof.
  intros Hv. rewrite epoch_of_valid by done. destruct Hv as (Hy & Hm & Hd & Hh & Hmi & Hs).
  pose proof (month_len_bounds y m Hm). unfold sane, day_of_date.
  pose proof (year_start_mono 0 y ltac:(lia)) as H1. pose proof (year_start_mono y 10000 ltac:(lia)) as H2.
  assert (year_start 0 = -719528) as E0 by (vm_compute; reflexivity).
  assert (year_start 10000 = 2932897) as E1 by (vm_compute; reflexivity).
  pose proof (month_start_mono y 0 m) as H3. pose proof (month_start_mono y m 12) as H4.
  rewrite month_start_0 in H3. rewrite month_start_12 in H4. pose proof (year_len_bounds y). lia.
Qed.

Section Reading.
Context {L : Libc} {LU : LibcUtc L}.

(** Setting the fields one after the other; only the last epoch can be the one that
    libc reports errors by, the others are full minutes. *)
Lemma goto_minute y m d h mi :
  valid_date_time y m d h mi 0 → goto (epoch_of y m d h mi 0) = Ok (at_epoch (epoch_of y m d h mi 0)).
Proof.
  intros Hv. unfold goto. rewrite epoch_of_valid by done. by rewrite (proj2 (Z.eqb_neq _ _)) by lia.
Qed.

Lemma set_year_new y : valid_date_time y 0 1 0 0 0 →
  set_year (tm_editor_new true) y = Ok (at_epoch (epoch_of y 0 1 0 0 0)).
Proof.
  intros Hv. rewrite <- goto_minute by done. unfold set_year, tm_editor_new, set_fields. cbn.
  destruct Hv as (Hy & ?). rewrite wrap_i32_small by lia.
  rewrite normalize_utc; unfold tm_epoch; cbn; rewrite Z.sub_add; [done|]. by apply sane_valid.
Qed.

(** The other fields keep their values. *)
Ltac set_field H := destruct (tm_of_valid _ _ _ _ _ _ H) as (E1 & E2 & E3 & E4 & E5 & E6);
  unfold set_mon, set_mday, set_hour, set_min, set_sec; cbn [te_t at_epoch]; rewrite ?E1, ?E2, ?E3, ?E4, ?E5, ?E6.

Lemma set_mon_at y m : valid_date_time y 0 1 0 0 0 → valid_date_time y m 1 0 0 0 →
  set_mon (at_epoch (epoch_of y 0 1 0 0 0)) (m + 1) = Ok (at_epoch (epoch_of y m 1 0 0 0)).
Proof.
  intros H1 H2. rewrite <- goto_minute by done. set_field H1. destruct H2 as (? & ? & ?) eqn:E.
  rewrite wrap_i32_small by lia. apply normalize_at; [|by apply sane_valid].
  by rewrite Z.sub_add, Z.add_simpl_r.
Qed.

Lemma set_mday_at y m d : valid_date_time y m 1 0 0 0 → valid_date_time y m d 0 0 0 →
  set_mday (at_epoch (epoch_of y m 1 0 0 0)) d = Ok (at_epoch (epoch_of y m d 0 0 0)).
Proof.
  intros H1 H2. rewrite <- goto_minute by done. set_field H1.
  apply normalize_at; [by rewrite Z.sub_add|by apply sane_valid].
Qed.

Lemma set_hour_at y m d h : valid_date_time y m d 0 0 0 → valid_date_time y m d h 0 0 →
  set_hour (at_epoch (epoch_of y m d 0 0 0)) h = Ok (at_epoch (epoch_of y m d h 0 0)).
Proof.
  intros H1 H2. rewrite <- goto_minute by done. set_field H1.
  apply normalize_at; [by rewrite Z.sub_add|by apply sane_valid].
Qed.

Lemma set_min_at y m d h mi : valid_date_time y m d h 0 0 → valid_date_time y m d h mi 0 →
  set_min (at_epoch (epoch_of y m d h 0 0)) mi = Ok (at_epoch (epoch_of y m d h mi 0)).
Proof.
  intros H1 H2. rewrite <- goto_minute by done. set_field H1.
  apply normalize_at; [by rewrite Z.sub_add|by apply sane_valid].
Qed.

Lemma set_sec_at y m d h mi s : valid_date_time y m d h mi 0 → valid_date_time y m d h mi s →
  set_sec (at_epoch (epoch_of y m d h mi 0)) s = goto (epoch_of y m d h mi s).
Proof.
  intros H1 H2. set_field H1. apply normalize_at; [by rewrite Z.sub_add|by apply sane_valid].
Qed.

(** ** Digits *)
Lemma digit_ok input pos v : byte_at input pos = Z.to_N (48 + v) → 0 ≤ v ≤ 9 → digit input pos = Ok v.
Proof.
  intros Hb Hv. unfold digit. rewrite Hb, Z2N.id by lia.
  rewrite (proj2 (Z.ltb_ge _ _)), (proj2 (Z.ltb_ge _ _)) by lia. simpl. f_equal. lia.
Qed.

Lemma digits2_ok input pos v :
  byte_at input pos = Z.to_N (48 + v / 10) → byte_at input (S pos) = Z.to_N (48 + v mod 10) → 0 ≤ v ≤ 99 →
  digits2 input pos = Ok v.
Proof.
  intros H1 H2 Hv. unfold digits2.
  rewrite (digit_ok _ _ (v / 10)) by (done || (Z.to_euclidean_division_equations; lia)). cbn [rbind].
  rewrite (digit_ok _ _ (v mod 10)) by (done || (Z.to_euclidean_division_equations; lia)). cbn [rbind].
  f_equal. Z.to_euclidean_division_equations. lia.
Qed.

Lemma check_max_ok v max : v ≤ max → check_max v max = Ok v.
Proof. intros H. unfold check_max. by rewrite (proj2 (Z.ltb_ge _ _)) by lia. Qed.

(** The text of a valid date and time, with anything behind it. *)
Lemma parse_date_time_text t y m d h mi s rest :
  valid_date_time y m d h mi s →
  t.(tm_sec) = s → t.(tm_min) = mi → t.(tm_hour) = h → t.(tm_mday) = d → t.(tm_mon) = m → t.(tm_year) = y - 1900 →
  parse_date_time (date_time_text t ++ rest) =
  if epoch_of y m d h mi s =? -1 then Err LibcFailed else Ok (epoch_of y m d h mi s).
Proof.
  intros Hv Es Emi Eh Ed Em Ey. pose proof Hv as (Hy & Hm & Hd & Hh & Hmi & Hs).
  pose proof (month_len_bounds y m Hm) as Hlen. set (input := date_time_text t ++ rest).
  assert (valid_date_time y 0 1 0 0 0 ∧ valid_date_time y m 1 0 0 0 ∧ valid_date_time y m d 0 0 0 ∧
          valid_date_time y m d h 0 0 ∧ valid_date_time y m d h mi 0) as (V1 & V2 & V3 & V4 & V5).
  { pose proof (month_len_bounds y 0 ltac:(lia)). unfold valid_date_time. split_and!; lia. }
  unfold parse_date_time, expect.
  rewrite (digit_ok input 0 (y / 1000)), (digit_ok input 1 (y / 100 mod 10)), (digit_ok input 2 (y / 10 mod 10)),
    (digit_ok input 3 (y mod 10)); try (unfold input, date_time_text; rewrite Ey, Z.sub_add; done);
    try (Z.to_euclidean_division_equations; lia).
  cbn [rbind]. replace (y / 1000 * 1000 + y / 100 mod 10 * 100 + y / 10 mod 10 * 10 + y mod 10) with y
    by (Z.to_euclidean_division_equations; lia).
  rewrite set_year_new by done. cbn [rbind].
  rewrite (digits2_ok input 5 (m + 1)), (digits2_ok input 8 d), (digits2_ok input 11 h), (digits2_ok input 14 mi),
    (digits2_ok input 17 s) by (lia || (unfold input, date_time_text; rewrite ?Em, ?Ed, ?Eh, ?Emi, ?Es; done)).
  cbn [rbind]. rewrite !check_max_ok by lia. cbn [rbind].
  assert ((byte_at input 4 =? chr "-")%N = true ∧ (byte_at input 7 =? chr "-")%N = true ∧
          (byte_at input 10 =? chr "T")%N = true ∧ (byte_at input 13 =? chr ":")%N = true ∧
          (byte_at input 16 =? chr ":")%N = true) as (-> & -> & -> & -> & ->) by done.
  cbn [rbind].
  rewrite set_mon_at by done. cbn [rbind]. rewrite set_mday_at by done. cbn [rbind].
  rewrite set_hour_at by done. cbn [rbind]. rewrite set_min_at by done. cbn [rbind].
  rewrite set_sec_at by done. unfold goto. destruct (epoch_of y m d h mi s =? -1) eqn:E; [done|]. cbn [rbind].
  rewrite into_epoch_utc by by apply sane_valid. by rewrite E.
Qed.
End Reading.

(** ** Round trips *)

(** The fields of an epoch are a valid date and time. *)
Lemma valid_of_epoch e :
  0 ≤ year_of (day_number e) ≤ 9999 →
  valid_date_time (year_of (day_number e)) (month_of (day_number e)) (mday_of (day_number e))
    (hour_of e) (min_of e) (sec_of e).
Proof.
  intros Hy. pose proof (month_of_spec (day_number e)) as [Hm _]. pose proof (mday_of_bounds (day_number e)).
  pose proof (time_bounds e). unfold valid_date_time. tauto.
Qed.

Lemma parse_date_time_epoch {L : Libc} {LU : LibcUtc L} e t rest :
  0 ≤ year_of (day_number e) ≤ 9999 →
  t.(tm_sec) = sec_of e → t.(tm_min) = min_of e → t.(tm_hour) = hour_of e →
  t.(tm_mday) = mday_of (day_number e) → t.(tm_mon) = month_of (day_number e) → t.(tm_year) = year_of (day_number e) - 1900 →
  parse_date_time (date_time_text t ++ rest) = if e =? -1 then Err LibcFailed else Ok e.
Proof.
  intros Hy Es Emi Eh Ed Em Ey. rewrite (parse_date_time_text t _ _ _ _ _ _ rest (valid_of_epoch e Hy)) by done.
  by rewrite epoch_of_normal.
Qed.

(** The zone of a local time, and how it is read. *)
Definition zone_text (off : Z) : rstr :=
  [if off <? 0 then chr "-" else chr "+"] ++ two_digits (Z.abs off / 60 / 60) ++ lit ":" ++ two_digits (Z.abs off / 60 mod 60).

Lemma parse_rfc3339_zone {L : Libc} e t off :
  - 86400 < off < 86400 → off mod 60 = 0 → parse_date_time (date_time_text t ++ zone_text off) = Ok e →
  parse_rfc3339 (date_time_text t ++ zone_text off) = Ok (e - off).
Proof.
  intros Hoff Hmin Hp. unfold parse_rfc3339. rewrite Hp.
  set (input := date_time_text t ++ zone_text off).
  assert (0 ≤ Z.abs off / 60 / 60 ≤ 23 ∧ 0 ≤ Z.abs off / 60 mod 60 ≤ 59) as [Hh Hm]
    by (Z.to_euclidean_division_equations; lia).
  assert (Z.abs off = Z.abs off / 60 / 60 * 3600 + Z.abs off / 60 mod 60 * 60) as Habs
    by (Z.to_euclidean_division_equations; lia).
  assert (check_zone input = Ok (if off <? 0 then chr "-" else chr "+")) as ->.
  { unfold check_zone. change (length input) with 25%nat.
    change (byte_at input 19) with (if off <? 0 then chr "-" else chr "+"). by destruct (off <? 0). }
  assert (digits2 input 20 = Ok (Z.abs off / 60 / 60)) as Hd1 by (apply digits2_ok; done || lia).
  assert (digits2 input 23 = Ok (Z.abs off / 60 mod 60)) as Hd2 by (apply digits2_ok; done || lia).
  assert (expect input 22 (chr ":") = Ok tt) as Hc by done.
  cbn [rbind]. rewrite Hd1. cbn [rbind]. rewrite check_max_ok by lia. cbn [rbind]. rewrite Hc. cbn [rbind].
  rewrite Hd2. cbn [rbind]. rewrite check_max_ok by lia. cbn [rbind].
  destruct (Z.ltb_spec off 0).
  - change (@Ok Z TimeError (e + (Z.abs off / 60 / 60 * 3600 + Z.abs off / 60 mod 60 * 60)) = Ok (e - off)). f_equal. lia.
  - change (@Ok Z TimeError (e - (Z.abs off / 60 / 60 * 3600 + Z.abs off / 60 mod 60 * 60)) = Ok (e - off)). f_equal. lia.
Qed.

(** The text of an epoch in UTC, and what is read from it. *)
Lemma rfc3339_utc_text {L : Libc} {LU : LibcUtc L} {S : Strftime} {SL : StrftimeLaws S} e :
  sane e → 0 ≤ year_of (day_number e) ≤ 9999 → e ≠ -1 →
  epoch_to_rfc3339_utc e = Ok (date_time_text (tm_of_epoch e) ++ lit "Z") ∧
  parse_rfc3339 (date_time_text (tm_of_epoch e) ++ lit "Z") = Ok e.
Proof.
  intros He Hy Hne. unfold epoch_to_rfc3339_utc, gmtime. rewrite gmtime_r_utc by done. cbn [ok_or rbind].
  change (tm_year (tm_of_epoch e) + 1900) with (year_of (day_number e) - 1900 + 1900).
  rewrite Z.sub_add, wrap_i32_small by lia. rewrite !(proj2 (Z.ltb_ge _ _)) by lia. cbn [orb].
  unfold strftime. rewrite strftime_utc by (simpl; lia). split; [reflexivity|].
  unfold parse_rfc3339. change (check_zone _) with (@Ok N TimeError (chr "Z")). cbn [rbind].
  rewrite (parse_date_time_epoch e) by done. by rewrite (proj2 (Z.eqb_neq _ _)) by done.
Qed.

(** A time stamp is read back as the epoch it was written for, in UTC and
    in local time with an offset of full minutes; the second before the Epoch
    excepted. *)
Theorem rfc3339_roundtrip {L : Libc} {LU : LibcUtc L} {S : Strftime} {SL : StrftimeLaws S} :
  (∀ e, sane e → 0 ≤ year_of (day_number e) ≤ 9999 → e ≠ -1 →
     ∃ s, epoch_to_rfc3339_utc e = Ok s ∧ parse_rfc3339 s = Ok e) ∧
  (∀ e off isdst, sane (e + off) → 1000 ≤ year_of (day_number (e + off)) ≤ 9999 → e + off ≠ -1 →
     - 86400 < off < 86400 → off mod 60 = 0 →
     (let t := tm_of_epoch (e + off) in
      libc_localtime_r e = Some (mkTm t.(tm_sec) t.(tm_min) t.(tm_hour) t.(tm_mday) t.(tm_mon) t.(tm_year)
                                   t.(tm_wday) t.(tm_yday) isdst off)) →
     ∃ s, epoch_to_rfc3339 e = Ok s ∧ parse_rfc3339 s = Ok e).
Proof.
  split.
  - intros e He Hy Hne. eexists. by apply rfc3339_utc_text.
  - intros e off isdst He Hy Hne Hoff Hmin Hlocal. unfold epoch_to_rfc3339, localtime. rewrite Hlocal. cbn [ok_or rbind tm_year tm_gmtoff].
    set (t := mkTm _ _ _ _ _ _ _ _ _ _).
    change (tm_year (tm_of_epoch (e + off)) + 1900) with (year_of (day_number (e + off)) - 1900 + 1900).
    rewrite Z.sub_add, wrap_i32_small by lia. rewrite !(proj2 (Z.ltb_ge _ 0)), (proj2 (Z.ltb_ge 9999 _)) by lia. cbn [orb].
    assert ((if off <? 0 then (chr "-", - off) else (chr "+", off)) =
            ((if off <? 0 then chr "-" else chr "+"), Z.abs off)) as ->.
    { destruct (Z.ltb_spec off 0); f_equal; lia. }
    unfold strftime. rewrite strftime_local by (simpl; lia). eexists. split; [reflexivity|].
    change (parse_rfc3339 (date_time_text t ++ zone_text off) = Ok e).
    rewrite (parse_rfc3339_zone (e + off)); [f_equal; lia|done|done|].
    rewrite (parse_date_time_epoch (e + off)) by (done || lia). by rewrite (proj2 (Z.eqb_neq _ _)) by done.
Qed.

(** Central European time is one hour ahead. *)
Definition libc_cet : Libc := {|
  libc_gmtime_r e := Some (tm_of_epoch e);
  libc_localtime_r e :=
    let t := tm_of_epoch (e + 3600) in
    Some (mkTm t.(tm_sec) t.(tm_min) t.(tm_hour) t.(tm_mday) t.(tm_mon) t.(tm_year) t.(tm_wday) t.(tm_yday) 0 3600);
  libc_timegm t := (tm_epoch t, tm_of_epoch (tm_epoch t));
  libc_mktime t := (tm_epoch t - 3600, tm_of_epoch (tm_epoch t))
|}.

#[export] Instance libc_cet_utc : LibcUtc libc_cet.
Proof. by split. Qed.

Lemma rfc3339_roundtrip_witness :
  (∃ s, epoch_to_rfc3339_utc (H := libc_cet) (H0 := strftime_iso) 1136073599 = Ok s ∧ parse_rfc3339 (H := libc_cet) s = Ok 1136073599) ∧
  (∃ s, epoch_to_rfc3339 (H := libc_cet) (H0 := strftime_iso) 1136073599 = Ok s ∧ parse_rfc3339 (H := libc_cet) s = Ok 1136073599).
Proof.
  destruct (rfc3339_roundtrip (L := libc_cet) (S := strftime_iso)) as [H1 H2]. split.
  - apply H1; [unfold sane; lia|split; vm_compute; discriminate|lia].
  - apply (H2 1136073599 3600 0); [unfold sane; lia|split; vm_compute; discriminate|lia|lia|reflexivity|reflexivity].
Defined.

(** The second before the Epoch is written but not read. *)
Lemma rfc3339_before_epoch :
  epoch_to_rfc3339_utc (H := libc_cet) (H0 := strftime_iso) (-1) = Ok (lit "1969-12-31T23:59:59Z") ∧
  parse_rfc3339 (H := libc_cet) (lit "1969-12-31T23:59:59Z") = Err LibcFailed.
Proof. split; vm_compute; reflexivity. Qed.

(** Days that the month does not have are read as days of the next month. *)
Lemma rfc3339_february_31 :
  parse_rfc3339 (H := libc_cet) (lit "2023-02-31T00:00:00Z") = parse_rfc3339 (H := libc_cet) (lit "2023-03-03T00:00:00Z").
Proof. vm_compute. reflexivity. Qed.
