(* ===== verification/MatchExpr.v ===== *)
(** * MatchExpr: expressions over custom matchers

    Models [proxmox-match-expression/src/lib.rs]: expressions, their evaluation
    with a trace of the result of every node, and the children of a node. The
    matcher at the leaves is the class [MatchExpression], as the trait is. *)
From S2P Require Import Prelude.

Class MatchExpression (M Data E : Type) := match_evaluate : M → Data → result bool E.

Inductive Expression (M : Type) :=
| AllOf (l : list (Expression M))
| AnyOf (l : list (Expression M))
| OneOf (l : list (Expression M))
| Not (e : Expression M)
| Constant (b : bool)
| Match (m : M).
Arguments AllOf {M} l. Arguments AnyOf {M} l. Arguments OneOf {M} l.
Arguments Not {M} e. Arguments Constant {M} b. Arguments Match {M} m.

Inductive EvaluatedExpression (M : Type) :=
| EAllOf (l : list (EvaluatedExpressionWithResult M))
| EAnyOf (l : list (EvaluatedExpressionWithResult M))
| EOneOf (l : list (EvaluatedExpressionWithResult M))
| ENot (e : EvaluatedExpressionWithResult M)
| EConstant (b : bool)
| EMatch (m : M)
with EvaluatedExpressionWithResult (M : Type) :=
| WithResult (expression : EvaluatedExpression M) (matches : bool).
Arguments EAllOf {M} l. Arguments EAnyOf {M} l. Arguments EOneOf {M} l.
Arguments ENot {M} e. Arguments EConstant {M} b. Arguments EMatch {M} m.
Arguments WithResult {M} expression matches.

Definition is_match {M} (w : EvaluatedExpressionWithResult M) : bool :=
  let 'WithResult _ matches := w in matches.
Definition into_expression {M} (w : EvaluatedExpressionWithResult M) : EvaluatedExpression M :=
  let 'WithResult expression _ := w in expression.

(** [EvaluatedExpressionWithResult::children] and [Expression::children] *)
Definition evaluated_children {M} (w : EvaluatedExpressionWithResult M) : list (EvaluatedExpressionWithResult M) :=
  match into_expression w with
  | EAllOf l | EAnyOf l | EOneOf l => l
  | ENot e => [e]
  | EConstant _ | EMatch _ => []
  end.

Definition children {M} (e : Expression M) : list (Expression M) :=
  match e with
  | AllOf l | AnyOf l | OneOf l => l
  | Not e => [e]
  | Constant _ | Match _ => []
  end.

Section Evaluate.
Context {M Data E : Type} `{MatchExpression M Data E}.

(** The loops over the sub-expressions; [eval] is the recursive call. *)
Section Loops.
Context (eval : Expression M → result (EvaluatedExpressionWithResult M) E).

Fixpoint subexpressions_loop (op : bool → bool → bool) (matches : bool)
  (evaluated : list (EvaluatedExpressionWithResult M)) (l : list (Expression M)) :
  result (bool * list (EvaluatedExpressionWithResult M)) E :=
  match l with
  | [] => Ok (matches, evaluated)
  | e :: l' =>
      let? w := eval e in
      subexpressions_loop op (op matches (is_match w)) (evaluated ++ [w]) l'
  end.

Definition evaluate_subexpressions (l : list (Expression M)) (initial : bool) (op : bool → bool → bool) :
  result (bool * list (EvaluatedExpressionWithResult M)) E :=
  subexpressions_loop op initial [] l.

Fixpoint one_of_loop (matched_count : nat) (evaluated : list (EvaluatedExpressionWithResult M))
  (l : list (Expression M)) : result (nat * list (EvaluatedExpressionWithResult M)) E :=
  match l with
  | [] => Ok (matched_count, evaluated)
  | e :: l' =>
      let? w := eval e in
      one_of_loop (if is_match w then S matched_count else matched_count) (evaluated ++ [w]) l'
  end.
End Loops.

Fixpoint evaluate (data : Data) (e : Expression M) : result (EvaluatedExpressionWithResult M) E :=
  match e with
  | AllOf l =>
      let? r := evaluate_subexpressions (evaluate data) l true andb in
      Ok (WithResult (EAllOf r.2) r.1)
  | AnyOf l =>
      let? r := evaluate_subexpressions (evaluate data) l false orb in
      Ok (WithResult (EAnyOf r.2) r.1)
  | OneOf l =>
      let? r := one_of_loop (evaluate data) 0 [] l in
      Ok (WithResult (EOneOf r.2) (r.1 =? 1)%nat)
  | Not e =>
      let? w := evaluate data e in
      Ok (WithResult (ENot w) (negb (is_match w)))
  | Constant value => Ok (WithResult (EConstant value) value)
  | Match inner =>
      let? matches := match_evaluate inner data in
      Ok (WithResult (EMatch inner) matches)
  end.

(** ** Meaning *)

(** The value of an expression under values of its leaves, without a trace. *)
Fixpoint value_of (leaf : M → bool) (e : Expression M) : bool :=
  match e with
  | AllOf l => forallb (value_of leaf) l
  | AnyOf l => existsb (value_of leaf) l
  | OneOf l => (length (filter (λ b : bool, b = true) (map (value_of leaf) l)) =? 1)%nat
  | Not e => negb (value_of leaf e)
  | Constant b => b
  | Match m => leaf m
  end.

(** The expression with the value of every node. *)
Fixpoint annotate (leaf : M → bool) (e : Expression M) : EvaluatedExpressionWithResult M :=
  WithResult
    (match e with
     | AllOf l => EAllOf (map (annotate leaf) l)
     | AnyOf l => EAnyOf (map (annotate leaf) l)
     | OneOf l => EOneOf (map (annotate leaf) l)
     | Not e => ENot (annotate leaf e)
     | Constant b => EConstant b
     | Match m => EMatch m
     end) (value_of leaf e).

(** The leaves from left to right, and the error of the first one that has one. *)
Fixpoint leaves (e : Expression M) : list M :=
  match e with
  | AllOf l | AnyOf l | OneOf l => concat (map leaves l)
  | Not e => leaves e
  | Constant _ => []
  | Match m => [m]
  end.

Definition leaf_error (data : Data) (m : M) : option E :=
  match match_evaluate m data with
  | Ok _ => None
  | Err e => Some e
  end.
Fixpoint first_error (data : Data) (ms : list M) : option E :=
  match ms with
  | [] => None
  | m :: ms' =>
      match leaf_error data m with
      | Some e => Some e
      | None => first_error data ms'
      end
  end.
Definition leaf_value (data : Data) (m : M) : bool :=
  match match_evaluate m data with
  | Ok b => b
  | Err _ => false
  end.

(** The reference: the first error, or the annotated expression. *)
Definition reference (data : Data) (e : Expression M) : result (EvaluatedExpressionWithResult M) E :=
  match first_error data (leaves e) with
  | Some err => Err err
  | None => Ok (annotate (leaf_value data) e)
  end.

(** ** Induction over expressions *)
Lemma expression_ind' (P : Expression M → Prop) :
  (∀ l, Forall P l → P (AllOf l)) → (∀ l, Forall P l → P (AnyOf l)) → (∀ l, Forall P l → P (OneOf l)) →
  (∀ e, P e → P (Not e)) → (∀ b, P (Constant b)) → (∀ m, P (Match m)) → ∀ e, P e.
Proof.
  intros H1 H2 H3 H4 H5 H6. fix IH 1. intros [l|l|l|e|b|m]; [apply H1|apply H2|apply H3|apply H4, IH|apply H5|apply H6];
    (induction l as [|e l IHl]; constructor; [apply IH|apply IHl]).
Qed.

Lemma first_error_app data a b :
  first_error data (a ++ b) = match first_error data a with Some e => Some e | None => first_error data b end.
Proof. induction a as [|m a IH]; simpl; [done|]. by destruct (leaf_error data m). Qed.

Lemma is_match_annotate leaf e : is_match (annotate leaf e) = value_of leaf e.
Proof. by destruct e. Qed.

Lemma subexpressions_loop_reference data op l matches acc :
  Forall (λ e, evaluate data e = reference data e) l →
  subexpressions_loop (evaluate data) op matches acc l =
  match first_error data (concat (map leaves l)) with
  | Some err => Err err
  | None => Ok (foldl op matches (map (value_of (leaf_value data)) l), acc ++ map (annotate (leaf_value data)) l)
  end.
Proof.
  intros Hl. revert matches acc. induction Hl as [|e l He _ IH]; intros matches acc; simpl; [by rewrite app_nil_r|].
  rewrite He, first_error_app. unfold reference. destruct (first_error data (leaves e)); [done|]. cbn [rbind].
  rewrite IH, is_match_annotate, <- app_assoc. done.
Qed.

Lemma one_of_loop_reference data l n acc :
  Forall (λ e, evaluate data e = reference data e) l →
  one_of_loop (evaluate data) n acc l =
  match first_error data (concat (map leaves l)) with
  | Some err => Err err
  | None => Ok (n + length (filter (λ b : bool, b = true) (map (value_of (leaf_value data)) l)),
                acc ++ map (annotate (leaf_value data)) l)
  end.
Proof.
  intros Hl. revert n acc. induction Hl as [|e l He _ IH]; intros n acc; simpl; [by rewrite app_nil_r, Nat.add_0_r|].
  rewrite He, first_error_app. unfold reference. destruct (first_error data (leaves e)); [done|]. cbn [rbind].
  rewrite IH, is_match_annotate, <- app_assoc. destruct (first_error data _); [done|]. simpl. rewrite filter_cons.
  destruct (value_of (leaf_value data) e); simpl; [|done]. by rewrite Nat.add_succ_r.
Qed.

Lemma foldl_andb l b : foldl andb b l = b && forallb id l.
Proof. revert b. induction l as [|x l IH]; intros b; simpl; [by rewrite andb_true_r|]. by rewrite IH, andb_assoc. Qed.
Lemma foldl_orb l b : foldl orb b l = b || existsb id l.
Proof. revert b. induction l as [|x l IH]; intros b; simpl; [by rewrite orb_false_r|]. by rewrite IH, orb_assoc. Qed.
Lemma forallb_map {A} (f : A → bool) l : forallb id (map f l) = forallb f l.
Proof. induction l; simpl; by f_equal. Qed.
Lemma existsb_map {A} (f : A → bool) l : existsb id (map f l) = existsb f l.
Proof. induction l; simpl; by f_equal. Qed.

Lemma evaluate_reference data e : evaluate data e = reference data e.
Proof.
  induction e as [l Hl|l Hl|l Hl|e IH|b|m] using expression_ind'; simpl.
  - unfold evaluate_subexpressions. rewrite subexpressions_loop_reference by done. unfold reference. simpl.
    destruct (first_error data _); [done|]. simpl. by rewrite foldl_andb, forallb_map.
  - unfold evaluate_subexpressions. rewrite subexpressions_loop_reference by done. unfold reference. simpl.
    destruct (first_error data _); [done|]. simpl. by rewrite foldl_orb, existsb_map.
  - rewrite one_of_loop_reference by done. unfold reference. simpl. by destruct (first_error data _).
  - rewrite IH. unfold reference. simpl. destruct (first_error data _); [done|]. simpl. by rewrite is_match_annotate.
  - done.
  - unfold reference, leaf_error, leaf_value. simpl. unfold leaf_error. by destruct (match_evaluate m data).
Qed.

Lemma evaluated_children_annotate leaf e :
  evaluated_children (annotate leaf e) = map (annotate leaf) (children e).
Proof. by destruct e. Qed.

Lemma leaves_children e : concat (map leaves (children e)) = match e with Match _ => [] | _ => leaves e end.
Proof. destruct e; simpl; try done. apply app_nil_r. Qed.

Lemma first_error_concat data (l : list (Expression M)) e :
  e ∈ l → first_error data (concat (map leaves l)) = None → first_error data (leaves e) = None.
Proof.
  induction l as [|x l IH]; [intros []%not_elem_of_nil|]. cbn [map concat]. rewrite first_error_app.
  rewrite elem_of_cons. destruct (first_error data (leaves x)) eqn:Hx; [done|]. intros [->|Hin] Hn; auto.
Qed.

Lemma evaluate_ok data e w :
  evaluate data e = Ok w ↔ first_error data (leaves e) = None ∧ w = annotate (leaf_value data) e.
Proof. rewrite evaluate_reference. unfold reference. destruct (first_error _ _); naive_solver. Qed.

(** The evaluation is the reference: if a leaf fails, the error of the first
    one from the left, whether or not the result depends on it; otherwise the
    expression in which every node carries its value, all, any, exactly one and
    negation of the values below it, and the children of the result are the
    results of the children. *)
Theorem evaluate_is_reference data e :
  evaluate data e = reference data e ∧
  ∀ w, evaluate data e = Ok w →
    is_match w = value_of (leaf_value data) e ∧
    Forall2 (λ c w', evaluate data c = Ok w') (children e) (evaluated_children w).
Proof.
  split; [apply evaluate_reference|]. intros w [He ->]%evaluate_ok. split; [apply is_match_annotate|].
  rewrite evaluated_children_annotate. apply Forall2_fmap_r, Forall_Forall2_diag, Forall_forall.
  intros c Hc. apply evaluate_ok. split; [|done]. eapply first_error_concat; [exact Hc|].
  rewrite leaves_children. by destruct e.
Qed.
End Evaluate.
