(* ===== verification/SystemdEscape.v ===== *)
(** * SystemdEscape: names of systemd units

    Models [proxmox-systemd/src/escape.rs]: escaping of strings and paths for unit
    names, and unescaping. Text and data are lists of bytes. *)
From S2P Require Import Prelude.

#[local] Open Scope N_scope.

(** ** Escaping *)

(** [{c:02x}] *)
Definition hex_digit (v : N) : N := if v <? 10 then 48 + v else 87 + v.
Definition hex2 (c : N) : list N := [hex_digit (c / 16); hex_digit (c mod 16)].

(** Characters that stand for themselves, but for a leading dot. *)
Definition plain (c : N) : bool :=
  (c =? 95) || (c =? 46) || (48 <=? c) && (c <=? 57) || (65 <=? c) && (c <=? 90) || (97 <=? c) && (c <=? 122).

(** One iteration of the loop: [first] is [i == 0]. *)
Definition escape_byte (first : bool) (c : N) : list N :=
  if c =? 47 then [45]
  else if first && (c =? 46) || negb (plain c) then [92; 120] ++ hex2 c
  else [c].

Fixpoint escape_loop (first : bool) (unit_ : list N) : list N :=
  match unit_ with
  | [] => []
  | c :: rest => escape_byte first c ++ escape_loop false rest
  end.

Definition escape_unit_bytes (unit_ : list N) (is_path : bool) : list N :=
  if is_path then
    match drop_while (λ c, c =? 47) unit_ with
    | [] => [45]
    | rest => escape_loop true rest
    end
  else escape_loop true unit_.

(** ** Unescaping *)
Inductive UnescapeError := ShortInput | UnknownEscape | InvalidHexDigit.

Definition parse_hex_digit (d : N) : result N UnescapeError :=
  if (48 <=? d) && (d <=? 57) then Ok (d - 48)
  else if (65 <=? d) && (d <=? 70) then Ok (d - 65 + 10)
  else if (97 <=? d) && (d <=? 102) then Ok (d - 97 + 10)
  else Err InvalidHexDigit.

(** The loop; [data] is what was read so far. *)
Fixpoint unescape_loop (fuel : nat) (i data : list N) : result (list N) UnescapeError :=
  match fuel with
  | O => Ok data
  | S fuel' =>
      match i with
      | [] => Ok data
      | next :: rest =>
          if next =? 92 then
            match rest with
            | x :: d1 :: d0 :: rest' =>
                if negb (x =? 120) then Err UnknownEscape
                else
                  let? h1 := parse_hex_digit d1 in
                  let? h0 := parse_hex_digit d0 in
                  unescape_loop fuel' rest' (data ++ [N.lor (N.shiftl h1 4 mod 256) h0])
            | _ => Err ShortInput
            end
          else if next =? 45 then unescape_loop fuel' rest (data ++ [47])
          else unescape_loop fuel' rest (data ++ [next])
      end
  end.

(** Every iteration consumes a byte. *)
Definition unescape_unit_do (text : list N) : result (list N) UnescapeError :=
  unescape_loop (length text) text [].

Definition unescape_unit_path (text : list N) : result (list N) UnescapeError := unescape_unit_do text.

(** ** The round trip *)
Definition is_byte (c : N) : Prop := c < 256.

Lemma parse_hex_digit_hex v : v < 16 → parse_hex_digit (hex_digit v) = Ok v.
Proof.
  intros Hv. unfold hex_digit. destruct (N.ltb_spec v 10); unfold parse_hex_digit.
  - rewrite (proj2 (andb_true_iff _ _)) by lia. f_equal. lia.
  - rewrite (proj2 (andb_false_iff _ _)), (proj2 (andb_false_iff _ _)), (proj2 (andb_true_iff _ _)) by lia.
    f_equal. lia.
Qed.

Lemma hex_join c : is_byte c → N.lor (N.shiftl (c / 16) 4 mod 256) (c mod 16) = c.
Proof.
  intros Hc.
  assert (forallb (λ n, let c := N.of_nat n in N.lor (N.shiftl (c / 16) 4 mod 256) (c mod 16) =? c) (seq 0 256) = true)
    as H by (vm_compute; reflexivity).
  rewrite forallb_forall in H. specialize (H (N.to_nat c)). rewrite N2Nat.id in H.
  apply N.eqb_eq, H, in_seq. unfold is_byte in Hc. lia.
Qed.

(** The loop reads back what an iteration of the escaping wrote. *)
Lemma unescape_escape_byte fuel first c rest data :
  is_byte c → unescape_loop (S fuel) (escape_byte first c ++ rest) data = unescape_loop fuel rest (data ++ [c]).
Proof.
  intros Hc. unfold escape_byte. destruct (N.eqb_spec c 47) as [->|H47]; [done|].
  destruct (first && (c =? 46) || negb (plain c)) eqn:Hesc.
  - assert (c / 16 < 16) by (apply N.Div0.div_lt_upper_bound; unfold is_byte in *; lia).
    pose proof (N.mod_lt c 16 ltac:(lia)). cbn [app hex2 unescape_loop]. change (92 =? 92) with true.
    change (negb (120 =? 120)) with false. cbn iota. rewrite !parse_hex_digit_hex by done. cbn [rbind].
    by rewrite hex_join.
  - apply orb_false_iff in Hesc as [_ Hplain]. apply negb_false_iff in Hplain. unfold plain in Hplain.
    cbn [app unescape_loop]. rewrite (proj2 (N.eqb_neq c 92)), (proj2 (N.eqb_neq c 45)) by lia. done.
Qed.

Lemma unescape_escape_loop fuel first u data :
  Forall is_byte u → (length u ≤ fuel)%nat → unescape_loop fuel (escape_loop first u) data = Ok (data ++ u).
Proof.
  intros Hu. revert fuel first data. induction Hu as [|c u Hc _ IH]; intros fuel first data Hf.
  - rewrite app_nil_r. by destruct fuel.
  - destruct fuel as [|fuel]; [simpl in Hf; lia|]. cbn [escape_loop]. rewrite unescape_escape_byte by done.
    rewrite IH by (simpl in Hf; lia). by rewrite <- app_assoc.
Qed.

Lemma escape_loop_length first u : (length u ≤ length (escape_loop first u))%nat.
Proof.
  revert first. induction u as [|c u IH]; intros first; [done|]. simpl. rewrite length_app. specialize (IH false).
  assert (1 ≤ length (escape_byte first c))%nat; [|lia]. unfold escape_byte. repeat case_match; simpl; lia.
Qed.

(** Characters that are allowed in the name of a unit. *)
Definition unit_name_char (c : N) : bool := plain c || (c =? 45) || (c =? 92).

Lemma escape_byte_chars first c :
  is_byte c → Forall (λ x, unit_name_char x = true) (escape_byte first c) ∧
  (first = true → head (escape_byte first c) ≠ Some 46).
Proof.
  intros Hc. unfold escape_byte. destruct (N.eqb_spec c 47) as [->|H47].
  { split; [by repeat constructor|done]. }
  destruct (first && (c =? 46) || negb (plain c)) eqn:Hesc.
  - assert (∀ v, v < 16 → unit_name_char (hex_digit v) = true) as Hhex.
    { intros v Hv. unfold hex_digit, unit_name_char, plain. destruct (N.ltb_spec v 10); lia. }
    assert (c / 16 < 16) by (apply N.Div0.div_lt_upper_bound; unfold is_byte in *; lia).
    split; [|done]. repeat constructor; apply Hhex; [done|]. apply N.mod_lt. lia.
  - apply orb_false_iff in Hesc as [Hdot Hplain]. apply negb_false_iff in Hplain. split.
    + constructor; [|constructor]. unfold unit_name_char. by rewrite Hplain.
    + intros ->. simpl in *. intros [= ->]. done.
Qed.

Lemma escape_loop_chars first r : Forall is_byte r → Forall (λ x, unit_name_char x = true) (escape_loop first r).
Proof.
  intros Hr. revert first. induction Hr as [|c r Hc _ IH]; intros first; simpl; [constructor|].
  apply Forall_app. split; [by apply escape_byte_chars|apply IH].
Qed.

(** Unescaping gives back every byte string that was escaped, and for a path
    the path without its leading slashes, or the root. An escaped name has only
    characters that are allowed in unit names and does not start with a dot. *)
Theorem unescape_escape u is_path :
  Forall is_byte u →
  unescape_unit_do (escape_unit_bytes u is_path) =
    Ok (if is_path then match drop_while (λ c, c =? 47) u with [] => [47] | r => r end else u) ∧
  Forall (λ x, unit_name_char x = true) (escape_unit_bytes u is_path) ∧
  head (escape_unit_bytes u is_path) ≠ Some 46.
Proof.
  intros Hu.
  assert (∀ r, Forall is_byte r → unescape_unit_do (escape_loop true r) = Ok r ∧
    Forall (λ x, unit_name_char x = true) (escape_loop true r) ∧ head (escape_loop true r) ≠ Some 46) as H.
  { intros r Hr. split; [|split].
    - unfold unescape_unit_do. rewrite unescape_escape_loop; [done|done|apply escape_loop_length].
    - by apply escape_loop_chars.
    - destruct Hr as [|c r Hc _]; [done|]. simpl. destruct (escape_byte_chars true c Hc) as [_ H].
      specialize (H eq_refl). destruct (escape_byte true c) eqn:E; [|done].
      unfold escape_byte in E. repeat case_match; done. }
  unfold escape_unit_bytes. destruct is_path; [|by apply H].
  assert (Forall is_byte (drop_while (λ c, c =? 47) u)) as Hd.
  { clear H. induction Hu; simpl; [constructor|]. case_match; [done|by constructor]. }
  destruct (drop_while (λ c, c =? 47) u) as [|c r]; [|by apply H].
  split; [done|]. split; [by repeat constructor|done].
Qed.

Lemma unescape_escape_witness :
  unescape_unit_do (escape_unit_bytes [47; 47; 46; 97; 45; 200] true) = Ok [46; 97; 45; 200].
Proof.
  destruct (unescape_escape [47; 47; 46; 97; 45; 200] true) as [H _]; [|exact H].
  unfold is_byte. repeat constructor; lia.
Defined.
