(* ===== verification/Json.v ===== *)
(** * Json: the values the configuration code passes around

    [serde_json]'s [Value] as data: numbers keep the three representations that
    [Number] distinguishes, an object is the ordered map [BTreeMap] that the
    library uses without the feature [preserve_order]. The text of a floating
    point number is a parameter ([F64Text]) with the law that a number is read
    back from what was printed. *)
From Stdlib Require Import SpecFloat.
From S2P Require Import Prelude F64.

(** ** [i64::from_str] and [Display for i64] *)
Definition i64_max : N := 9223372036854775807%N.

Definition parse_i64 (s : rstr) : option Z :=
  match strip_prefix_char 45%N s with
  | Some digits =>
      match digits with
      | [] => None
      | _ => if forallb is_ascii_digit digits && (digits_val digits <=? i64_max + 1)%N
             then Some (- Z.of_N (digits_val digits))%Z else None
      end
  | None => Z.of_N <$> parse_uint i64_max s
  end.

Definition show_i64 (z : Z) : rstr :=
  if (z <? 0)%Z then 45%N :: dec (Z.to_N (- z)) else dec (Z.to_N z).

Lemma parse_i64_show z : (- 2 ^ 63 ≤ z < 2 ^ 63)%Z → parse_i64 (show_i64 z) = Some z.
Proof.
  intros Hz. unfold show_i64. destruct (Z.ltb_spec z 0) as [Hneg|Hpos].
  - unfold parse_i64, strip_prefix_char. rewrite decide_True by done.
    destruct (dec_spec (Z.to_N (- z))) as (Hv & Hall & Hne).
    destruct (dec (Z.to_N (- z))) as [|c s] eqn:E; [done|]. apply forallb_Forall in Hall.
    rewrite Hall, Hv. rewrite (proj2 (N.leb_le _ _)) by (unfold i64_max; lia). cbn [andb]. f_equal. lia.
  - unfold parse_i64. assert (strip_prefix_char 45%N (dec (Z.to_N z)) = None) as ->.
    { destruct (dec (Z.to_N z)) as [|c s] eqn:E; [done|]. simpl. apply decide_False. intros ->.
      assert (45%N ∈ dec (Z.to_N z)) as H%dec_digit by (rewrite E; by left). done. }
    rewrite parse_uint_dec by (unfold i64_max; lia). simpl. f_equal. lia.
Qed.

(** ** Floating point numbers as text *)
(** Parsing, the text of a JSON number, and [Display]. *)
Class F64Text := {
  f64_from_str : rstr → option f64;
  f64_to_string : f64 → rstr;
  f64_display : f64 → rstr
}.

(** JSON has neither infinities nor NaN. *)
Definition f64_is_finite (x : f64) : bool :=
  match x with S754_zero _ | S754_finite _ _ _ => true | _ => false end.

(** The characters of printed numbers: digits, signs, the point and the exponent. *)
Definition number_char (c : rchar) : bool :=
  is_ascii_digit c || (c =? 43)%N || (c =? 45)%N || (c =? 46)%N || (c =? 101)%N.

Class F64TextLaws (F : F64Text) : Prop := {
  f64_from_to_string x :
    f64_valid x = true → f64_is_finite x = true → f64_from_str (f64_to_string x) = Some x;
  f64_to_string_chars x :
    f64_is_finite x = true → Forall (λ c, number_char c = true) (f64_to_string x);
  f64_to_string_nonempty x : f64_is_finite x = true → f64_to_string x ≠ [];
  f64_from_display x :
    f64_valid x = true → f64_is_finite x = true → f64_from_str (f64_display x) = Some x;
  f64_display_chars x : f64_is_finite x = true → Forall (λ c, number_char c = true) (f64_display x);
  f64_display_nonempty x : f64_is_finite x = true → f64_display x ≠ []
}.

(** ** Values *)
Inductive Number :=
| PosInt (n : Z)
| NegInt (i : Z)
| Float (x : f64).

Unset Elimination Schemes.
Inductive Value :=
| VNull
| VBool (b : bool)
| VNumber (n : Number)
| VString (s : rstr)
| VArray (list : list Value)
| VObject (map : list (rstr * Value)).
Set Elimination Schemes.

Definition number_from_i64 (i : Z) : Number := if (i <? 0)%Z then NegInt i else PosInt i.
(** [Number::from_f64]: [None] for infinities and NaN. *)
Definition number_from_f64 (x : f64) : option Number := if f64_is_finite x then Some (Float x) else None.

Definition number_to_string `{F64Text} (n : Number) : rstr :=
  match n with
  | PosInt n => dec (Z.to_N n)
  | NegInt i => show_i64 i
  | Float x => f64_to_string x
  end.

Definition as_i64 (v : Value) : option Z :=
  match v with
  | VNumber (PosInt n) => if (n <? 2 ^ 63)%Z then Some n else None
  | VNumber (NegInt i) => Some i
  | _ => None
  end.

Definition as_f64 (v : Value) : option f64 :=
  match v with
  | VNumber (PosInt n) => Some (f64_of_u64 n)
  | VNumber (NegInt i) => Some (f64_of_u64 i)
  | VNumber (Float x) => Some x
  | _ => None
  end.

Definition as_str (v : Value) : option rstr := match v with VString s => Some s | _ => None end.
Definition is_null (v : Value) : bool := match v with VNull => true | _ => false end.

(** [value[key]] reads [Null] for what is not there. *)
Definition value_at (v : Value) (key : rstr) : Value :=
  match v with
  | VObject m => default VNull (bt_get key m)
  | _ => VNull
  end.

(** Induction that reaches the items of arrays and the fields of objects. *)
Lemma Value_ind (P : Value → Prop) :
  P VNull → (∀ b, P (VBool b)) → (∀ n, P (VNumber n)) → (∀ s, P (VString s)) →
  (∀ l, Forall P l → P (VArray l)) → (∀ m, Forall (λ kv, P kv.2) m → P (VObject m)) →
  ∀ v, P v.
Proof.
  intros H0 H1 H2 H3 Ha Ho. fix rec 1.
  intros [|b|n|s|l|m]; [exact H0|apply H1|apply H2|apply H3|apply Ha|apply Ho].
  - induction l as [|v l IH]; constructor; [apply rec|exact IH].
  - induction m as [|[k v] m IH]; constructor; [apply rec|exact IH].
Qed.

(** ** Ordered maps with the same entries are equal *)
Lemma bt_sorted_ext {V} (m1 m2 : list (rstr * V)) :
  bt_sorted m1 → bt_sorted m2 → (∀ k, bt_get k m1 = bt_get k m2) → m1 = m2.
Proof.
  revert m2. induction m1 as [|[k1 v1] m1 IH]; intros [|[k2 v2] m2]; simpl; intros H1 H2 Hext.
  - done.
  - specialize (Hext k2). by rewrite decide_True in Hext.
  - specialize (Hext k1). by rewrite decide_True in Hext.
  - destruct H1 as [L1 S1], H2 as [L2 S2].
    assert (k1 = k2) as ->.
    { apply str_compare_eq. destruct (str_compare k1 k2) eqn:E; [done| |].
      - pose proof (Hext k1) as H. rewrite decide_True in H by done.
        rewrite decide_False in H by (intros ->; by rewrite str_compare_refl in E).
        by rewrite (bt_lb_get k1 m2) in H by by eapply bt_lb_lt.
      - pose proof (Hext k2) as H. rewrite (decide_True (P := k2 = k2)) in H by done.
        rewrite decide_False in H by (intros ->; by rewrite str_compare_refl in E).
        rewrite (bt_lb_get k2 m1) in H; [done|]. eapply bt_lb_lt; [|exact L1].
        by rewrite str_compare_antisym, E. }
    pose proof (Hext k2) as H. rewrite !decide_True in H by done. simplify_eq. f_equal.
    apply IH; [done|done|]. intros k. specialize (Hext k). case_decide as Hk; [|done].
    subst. by rewrite (bt_lb_get _ _ L1), (bt_lb_get _ _ L2).
Qed.

Lemma bt_get_elem {V} k (v : V) m : bt_sorted m → (k, v) ∈ m → bt_get k m = Some v.
Proof.
  induction m as [|[k' v'] m IH]; simpl; [intros _ []%not_elem_of_nil|]. intros [Hlb Hs] Hin.
  apply elem_of_cons in Hin as [[= -> ->]|Hin]; [by rewrite decide_True|].
  rewrite IH by done. rewrite decide_False; [done|]. intros ->.
  by rewrite (bt_lb_get _ _ Hlb) in IH; [specialize (IH Hs Hin)|..].
Qed.

Lemma bt_get_None {V} k (m : list (rstr * V)) : bt_get k m = None ↔ k ∉ m.*1.
Proof.
  induction m as [|[k' v'] m IH]; simpl.
  - split; [intros _ []%not_elem_of_nil|done].
  - rewrite not_elem_of_cons. case_decide; [|rewrite IH]; naive_solver.
Qed.

Lemma bt_insert_insert {V} k (v v' : V) m : bt_insert k v (bt_insert k v' m) = bt_insert k v m.
Proof.
  induction m as [|[k0 v0] m IH]; simpl; [by rewrite str_compare_refl|].
  destruct (str_compare k k0) eqn:E; simpl; [by rewrite str_compare_refl..|]. by rewrite E, IH.
Qed.

Lemma bt_lb_elem k m k' (v : Value) : bt_lb k m → (k', v) ∈ m → k ≠ k'.
Proof.
  intros Hlb Hin ->. apply bt_lb_get in Hlb. apply bt_get_None in Hlb. apply Hlb.
  by apply (list_elem_of_fmap_2 fst _ (k', v)).
Qed.

(** Insertion of one map into another. *)
Definition insert_all (cm m : list (rstr * Value)) : list (rstr * Value) :=
  foldl (λ cm kv, bt_insert kv.1 kv.2 cm) cm m.

Lemma insert_all_sorted cm m : bt_sorted cm → bt_sorted (insert_all cm m).
Proof. revert cm. induction m as [|[k v] m IH]; intros cm H; [done|]. apply IH. by apply bt_sorted_insert. Qed.

Lemma insert_all_get cm m k :
  bt_sorted m → bt_get k (insert_all cm m) = match bt_get k m with Some v => Some v | None => bt_get k cm end.
Proof.
  revert cm. induction m as [|[k' v] m IH]; intros cm Hs; [done|]. destruct Hs as [Hlb Hs].
  unfold insert_all. cbn [foldl fst snd bt_get]. fold (insert_all (bt_insert k' v cm) m). rewrite IH by done.
  case_decide as Hk.
  - subst. rewrite (bt_lb_get _ _ Hlb). apply bt_get_insert_eq.
  - destruct (bt_get k m); [done|]. apply bt_get_insert_ne. congruence.
Qed.

(** ** A text format with the laws

    Mantissa and binary exponent in decimal; any format that satisfies the laws
    would do. *)
Definition f64_show (x : f64) : rstr :=
  match x with
  | S754_zero s => (if s then lit "-" else []) ++ lit "0.0"
  | S754_finite s m e => (if s then lit "-" else []) ++ dec (N.pos m) ++ lit "e" ++ show_i64 e
  | _ => []
  end.

Definition f64_read (t : rstr) : option f64 :=
  let '(s, t) := match strip_prefix_char 45%N t with Some t' => (true, t') | None => (false, t) end in
  if decide (t = lit "0.0") then Some (S754_zero s)
  else match split_on 101%N t with
       | [mt; et] =>
           match parse_uint u64_max mt, parse_i64 et with
           | Some (N.pos m), Some e => Some (S754_finite s m e)
           | _, _ => None
           end
       | _ => None
       end.

Definition f64_text : F64Text := {| f64_from_str := f64_read; f64_to_string := f64_show; f64_display := f64_show |}.

Lemma show_i64_not_in z c : is_ascii_digit c = false → c ≠ 45%N → c ∉ show_i64 z.
Proof.
  intros Hd Hc. unfold show_i64. case_match; [rewrite not_elem_of_cons; split; [done|]|]; by apply dec_not_in.
Qed.

Lemma dec_number_chars n : Forall (λ c, number_char c = true) (dec n).
Proof. apply Forall_forall. intros c Hc%dec_digit. unfold number_char. by rewrite Hc. Qed.

Lemma show_i64_chars z : Forall (λ c, number_char c = true) (show_i64 z).
Proof. unfold show_i64. case_match; [constructor; [done|]|]; apply dec_number_chars. Qed.

Lemma f64_read_show x : f64_valid x = true → f64_is_finite x = true → f64_read (f64_show x) = Some x.
Proof.
  destruct x as [[]| | |s m e]; try done. intros Hv _.
  assert (e ≤ 971)%Z as He'.
  { unfold f64_valid, valid_binary, bounded in Hv. apply andb_true_iff in Hv as [_ H%Z.leb_le].
    unfold f64_emax, f64_prec in H. lia. }
  apply bounded_exponent in Hv as (He & Hm & _). pose proof (digits2_pos_bounds m) as [_ Hb].
  assert (Z.pos m < 2 ^ 53)%Z as Hm' by (pose proof (Z.pow_le_mono_r 2 _ 53 ltac:(lia) Hm); lia).
  set (t := dec (N.pos m) ++ lit "e" ++ show_i64 e).
  assert (∀ b, (if decide (t = lit "0.0") then Some (S754_zero b)
     else match split_on 101%N t with
          | [mt; et] => match parse_uint u64_max mt, parse_i64 et with
                        | Some (N.pos m), Some e => Some (S754_finite b m e) | _, _ => None end
          | _ => None end) = Some (S754_finite b m e)) as H.
  { intros b. rewrite decide_False.
    - unfold t. change (lit "e" ++ show_i64 e) with (101%N :: show_i64 e).
      rewrite split_on_app, split_on_no_sep; [|by apply show_i64_not_in|by apply dec_not_in].
      rewrite parse_uint_dec by (unfold u64_max; lia). by rewrite parse_i64_show by lia.
    - intros E. assert (101%N ∈ lit "0.0") as Hin; [|revert Hin; vm_compute; intros Hin; repeat (inversion Hin as [|? ? ? Hin']; subst; clear Hin; rename Hin' into Hin)].
      rewrite <- E. unfold t. apply elem_of_app. right. by left. }
  unfold f64_show. fold t. destruct s.
  - unfold f64_read. change (lit "-" ++ t) with (45%N :: t). unfold strip_prefix_char.
    rewrite decide_True by done. apply (H true).
  - change ([] ++ t) with t. unfold f64_read. assert (strip_prefix_char 45%N t = None) as ->; [|apply (H false)].
    unfold t. destruct (dec_spec (N.pos m)) as (_ & Hall & Hne). destruct (dec (N.pos m)) as [|c r]; [done|].
    inversion Hall as [|? ? Hc]; subst. simpl. apply decide_False. by intros ->.
Qed.

Lemma f64_show_chars x : f64_is_finite x = true → Forall (λ c, number_char c = true) (f64_show x).
Proof.
  destruct x as [[]| | |s m e]; try done; intros _; unfold f64_show; try (repeat constructor; done).
  apply Forall_app. split; [by destruct s; repeat constructor|].
  apply Forall_app. split; [apply dec_number_chars|]. constructor; [done|apply show_i64_chars].
Qed.

Lemma f64_show_nonempty x : f64_is_finite x = true → f64_show x ≠ [].
Proof.
  destruct x as [[]| | |s m e]; try done; intros _; unfold f64_show.
  destruct (dec_spec (N.pos m)) as (_ & _ & Hne). by destruct s, (dec (N.pos m)).
Qed.

#[export] Instance f64_text_laws : F64TextLaws f64_text.
Proof.
  split; [apply f64_read_show|apply f64_show_chars|apply f64_show_nonempty|apply f64_read_show|apply f64_show_chars|apply f64_show_nonempty].
Qed.
