(* ===== verification/ObjectSchema.v ===== *)
(** * ObjectSchema: object schemas and the checks of proxmox-schema

    Models the schema type of [proxmox-schema/src/schema.rs] with the operations
    of the trait [ObjectSchemaType] for its three kinds of object schemas:
    lookups, aliases, iteration over the properties, verification of JSON values
    and the parser of key/value strings. A property map is sorted and without
    duplicates, which the constructors assert, so that the binary searches are
    lookups by key. Where the source calls [expect] on a schema that is not an
    object inside a combination, which the constructors exclude too, the model
    has the neutral result. The schema behind a property string is the check it
    performs; descriptions, the defaults of schemas other than booleans and the key
    aliases of the schema generator have no part in the checks. *)
From S2P Require Import Prelude Schema F64 Json.

(** ** Errors *)
Inductive JsonError :=
| ExpectedNull | ExpectedBoolean | ExpectedInteger | ExpectedNumber | ExpectedString
| ExpectedArray | ExpectedObject
| Constraint (e : SchemaError)
| ArrayTooShort (min_length : N) | ArrayTooLong (max_length : N)
| NumberBelowMinimum | NumberAboveMaximum
| BothSet (canonical other : rstr)
| OtherAlias (alias canonical : rstr)
| AdditionalProperty
| MissingProperty
| InvalidVariant (variant : rstr)
| MissingType (type_property : rstr)
| TypeNotString (type_property : rstr)
| NotABoolean | NotAnInteger | NotANumber
| NotFinitePanic
| NullSchema
| ComplexValue
| DuplicateParameter
| TypeMismatch
| OutOfFuel.

(** [anyhow::Error]: a message, or a [ParameterError] with its paths. *)
Inductive SError :=
| Msg (e : JsonError)
| Param (error_list : list (rstr * SError)).

(** [ParameterError::add_errors] and [extend_unreported]. *)
Definition join_path (a b : rstr) : rstr :=
  match a, b with
  | [], _ => b
  | _, [] => a
  | _, _ => a ++ [47%N] ++ b
  end.

Definition add_errors (errors : list (rstr * SError)) (prefix : rstr) (err : SError) : list (rstr * SError) :=
  match err with
  | Param l => errors ++ map (λ ke, (join_path prefix ke.1, ke.2)) l
  | Msg _ => errors ++ [(prefix, err)]
  end.

Definition extend_unreported (errors other : list (rstr * SError)) : list (rstr * SError) :=
  foldl (λ errs pe, if decide (pe.1 ∈ errs.*1) then errs else errs ++ [pe]) errors other.

(** ** Schemas *)
Record NumberSchema := { num_minimum : option f64; num_maximum : option f64 }.

Unset Elimination Schemes.
Inductive Schema :=
| SNull
| SBoolean (bool_default : option bool)
| SInteger (s : IntegerSchema)
| SNumber (s : NumberSchema)
| SString (s : StringSchema)
| SObject (additional : bool) (properties : list (rstr * bool * Schema))
    (default_key : option rstr) (property_aliases : list (rstr * rstr))
| SArray (items : Schema) (min_len max_len : option N)
| SAllOf (list : list Schema)
| SOneOf (type_property : rstr) (type_optional : bool) (type_schema : Schema)
    (variants : list (rstr * Schema)).
Set Elimination Schemes.

Abbreviation entry := (rstr * bool * Schema)%type.

(** [WithTypeField]: the value of a type property, if it is a string. *)
Definition type_field : Type := rstr → option rstr.
Definition NoTypeData : type_field := λ _, None.
Definition map_type (m : list (rstr * Value)) : type_field := λ name, bt_get name m ≫= as_str.

(** ** Lookups *)
Section Search.
Context {A B : Type} (f : A → option B).

(** [Iterator::find_map]. *)
Fixpoint first_some (l : list A) : option B :=
  match l with
  | [] => None
  | x :: l' => match f x with Some y => Some y | None => first_some l' end
  end.
End Search.

(** [lookup_variant], and what the caller does with the variant. *)
Definition with_variant {B} (f : Schema → B) (name : rstr) : list (rstr * Schema) → option B :=
  fix search variants :=
    match variants with
    | [] => None
    | (n, s) :: variants' => if decide (n = name) then Some (f s) else search variants'
    end.

Fixpoint property_entry (key : rstr) (properties : list entry) : option (bool * Schema) :=
  match properties with
  | [] => None
  | (name, optional, s) :: properties' =>
      if decide (name = key) then Some (optional, s) else property_entry key properties'
  end.

Fixpoint lookup_alias (s : Schema) (key : rstr) : option rstr :=
  match s with
  | SObject _ _ _ aliases => bt_get key aliases
  | SAllOf l => first_some (λ e, lookup_alias e key) l
  | SOneOf _ _ _ variants => first_some (λ v, lookup_alias v.2 key) variants
  | _ => None
  end.

(** [ObjectSchema::lookup]. *)
Definition object_lookup (properties : list entry) (aliases : list (rstr * rstr)) (key : rstr) :
    option (bool * Schema) :=
  property_entry (default key (bt_get key aliases)) properties.

Fixpoint lookup_schema (s : Schema) (key : rstr) (get_type : type_field) : option (bool * Schema) :=
  match s with
  | SObject _ properties _ aliases => object_lookup properties aliases key
  | SAllOf l => first_some (λ e, lookup_schema e key get_type) l
  | SOneOf type_property optional type_schema variants =>
      if decide (key = type_property) then Some (optional, type_schema)
      else match get_type type_property with
           | None => None
           | Some variant => default None (with_variant (λ e, lookup_schema e key get_type) variant variants)
           end
  | _ => None
  end.

(** *** All entries of a key with their conditions *)

(** [ObjectSchema::lookup_with_canonical_name] *)
Definition lookup_with_canonical_name (properties : list entry) (aliases : list (rstr * rstr)) (key : rstr) :
    option entry :=
  let name := default key (bt_get key aliases) in
  match property_entry name properties with
  | Some (optional, s) => Some (name, optional, s)
  | None => None
  end.

(** What the iterator [LookupAll] yields. *)
Fixpoint lookup_all (s : Schema) (key : rstr) (conditions : list (rstr * rstr)) :
    list (entry * list (rstr * rstr)) :=
  match s with
  | SObject _ properties _ aliases =>
      match lookup_with_canonical_name properties aliases key with
      | Some e => [(e, conditions)]
      | None => []
      end
  | SAllOf l => flat_map (λ e, lookup_all e key conditions) l
  | SOneOf type_property optional type_schema variants =>
      if decide (key = type_property) then [((type_property, optional, type_schema), conditions)]
      else flat_map (λ v, lookup_all v.2 key (conditions ++ [(type_property, v.1)])) variants
  | _ => []
  end.

(** [all_properties().with_types_from(get_type)] as the list it yields. *)
Fixpoint all_properties (s : Schema) (get_type : type_field) : list entry :=
  match s with
  | SObject _ properties _ _ => properties
  | SAllOf l => flat_map (λ e, all_properties e get_type) l
  | SOneOf type_property optional type_schema variants =>
      (type_property, optional, type_schema) ::
      match get_type type_property with
      | None => []
      | Some variant => default [] (with_variant (λ e, all_properties e get_type) variant variants)
      end
  | _ => []
  end.

Fixpoint verify_type_fields (s : Schema) (data : type_field) : list (rstr * SError) :=
  match s with
  | SAllOf l => flat_map (λ e, verify_type_fields e data) l
  | SOneOf type_property _ _ variants =>
      match data type_property with
      | None => []
      | Some variant =>
          match with_variant (λ e, verify_type_fields e data) variant variants with
          | Some result => result
          | None => [(type_property, Msg (InvalidVariant variant))]
          end
      end
  | _ => []
  end.

Fixpoint additional_properties (s : Schema) : bool :=
  match s with
  | SObject additional _ _ _ => additional
  | SAllOf l => existsb additional_properties l
  | SOneOf _ _ _ variants => existsb (λ v, additional_properties v.2) variants
  | _ => false
  end.

Fixpoint default_key (s : Schema) : option rstr :=
  match s with
  | SObject _ _ key _ => key
  | SAllOf l => first_some default_key l
  | _ => None
  end.

(** The type properties of all choices in a schema. *)
Fixpoint type_properties (s : Schema) : list rstr :=
  match s with
  | SAllOf l => flat_map type_properties l
  | SOneOf tp _ _ vs => tp :: flat_map (λ v, type_properties v.2) vs
  | _ => []
  end.

(** ** Aliases are renamed *)
Definition contains_key {V} (m : list (rstr * V)) (key : rstr) : bool :=
  match bt_get key m with Some _ => true | None => false end.

Fixpoint alias_conflicts (m : list (rstr * Value)) (seen : list rstr) (present : list (rstr * rstr)) :
    list (rstr * SError) :=
  match present with
  | [] => []
  | (alias_key, canonical) :: present' =>
      if contains_key m canonical
      then (alias_key, Msg (BothSet canonical alias_key)) :: alias_conflicts m seen present'
      else if decide (canonical ∈ seen)
      then (alias_key, Msg (OtherAlias alias_key canonical)) :: alias_conflicts m seen present'
      else alias_conflicts m (canonical :: seen) present'
  end.

Definition rename_key (m : list (rstr * Value)) (ac : rstr * rstr) : list (rstr * Value) :=
  match bt_get ac.1 m with
  | Some v => bt_insert ac.2 v (bt_remove ac.1 m)
  | None => m
  end.

Definition rename_aliases_to_canonicals (m : list (rstr * Value)) (present : list (rstr * rstr)) :
    result (list (rstr * Value)) SError :=
  match alias_conflicts m [] present with
  | [] => Ok (foldl rename_key m present)
  | errors => Err (Param errors)
  end.

(** [for schema in list { schema.canonicalize_aliases(value)? }]. *)
Definition each_schema {A} (f : A → Value → result Value SError) : list A → Value → result Value SError :=
  fix each l value :=
    match l with
    | [] => Ok value
    | s :: l' => let? value := f s value in each l' value
    end.

Fixpoint canonicalize_aliases (s : Schema) (value : Value) : result Value SError :=
  match s with
  | SObject _ _ _ aliases =>
      match value with
      | VObject m =>
          match filter (λ ac, contains_key m ac.1 = true) aliases with
          | [] => Ok value
          | present => let? m := rename_aliases_to_canonicals m present in Ok (VObject m)
          end
      | _ => Ok value
      end
  | SAllOf l => each_schema canonicalize_aliases l value
  | SOneOf _ _ _ variants => each_schema (λ v, canonicalize_aliases v.2) variants value
  | _ => Ok value
  end.

(** ** Verification of values *)
Definition check_number (s : NumberSchema) (value : f64) : result unit JsonError :=
  let? _ := match s.(num_minimum) with
            | Some minimum => if f64_lt value minimum then Err NumberBelowMinimum else Ok tt
            | None => Ok tt
            end in
  match s.(num_maximum) with
  | Some maximum => if f64_lt maximum value then Err NumberAboveMaximum else Ok tt
  | None => Ok tt
  end.

Definition array_check_length (min_len max_len : option N) (length : N) : result unit JsonError :=
  let? _ := match min_len with
            | Some m => if (length <? m)%N then Err (ArrayTooShort m) else Ok tt
            | None => Ok tt
            end in
  match max_len with
  | Some m => if (m <? length)%N then Err (ArrayTooLong m) else Ok tt
  | None => Ok tt
  end.

Definition map_err {A E F} (f : E → F) (r : result A E) : result A F :=
  match r with Ok a => Ok a | Err e => Err (f e) end.

Section VerifyObject.
Context (verify : Schema → Value → result unit SError) (s : Schema) (m : list (rstr * Value)).

(** The check of one key that is not in conflict with another one. *)
Definition verify_value (errors : list (rstr * SError)) (key : rstr) (value : Value) : list (rstr * SError) :=
  match lookup_schema s key (map_type m) with
  | Some (_, prop_schema) =>
      match verify prop_schema value with
      | Ok _ => errors
      | Err err => add_errors errors key err
      end
  | None => if additional_properties s then errors else errors ++ [(key, Msg AdditionalProperty)]
  end.

Definition verify_key (st : list rstr * list (rstr * SError)) (kv : rstr * Value) :
    list rstr * list (rstr * SError) :=
  let '(seen, errors) := st in
  let '(key, value) := kv in
  match lookup_alias s key with
  | Some canonical =>
      if contains_key m canonical then (seen, errors ++ [(key, Msg (BothSet canonical key))])
      else if decide (canonical ∈ seen) then (seen, errors ++ [(key, Msg (OtherAlias key canonical))])
      else (canonical :: seen, verify_value errors key value)
  | None => (seen, verify_value errors key value)
  end.

Definition missing (e : entry) : bool :=
  let '(name, optional, _) := e in
  negb optional && is_null (value_at (VObject m) name) &&
  negb (existsb (λ kv, bool_decide (lookup_alias s kv.1 = Some name)) m).

(** The default implementation of [ObjectSchemaType::verify_json]. *)
Definition object_errors : list (rstr * SError) :=
  let errors := (foldl verify_key ([], []) m).2 in
  let errors := errors ++ map (λ e : entry, (e.1.1, Msg MissingProperty))
                            (List.filter missing (all_properties s (map_type m))) in
  extend_unreported errors (verify_type_fields s (map_type m)).
End VerifyObject.

(** The loop over the items of an array. *)
Fixpoint verify_items (verify : Value → result unit SError) (i : N) (l : list Value) : result unit SError :=
  match l with
  | [] => Ok tt
  | item :: l' =>
      match verify item with
      | Ok _ => verify_items verify (i + 1) l'
      | Err err => Err (Param [(lit "[" ++ dec i ++ lit "]", err)])
      end
  end.

(** [Schema::verify_json]; the fuel bounds the depth of the schema. *)
Fixpoint verify_fuel (fuel : nat) (s : Schema) (data : Value) : result unit SError :=
  match fuel with
  | O => Err (Msg OutOfFuel)
  | S fuel =>
      match s with
      | SNull => if is_null data then Ok tt else Err (Msg ExpectedNull)
      | SBoolean _ => match data with VBool _ => Ok tt | _ => Err (Msg ExpectedBoolean) end
      | SInteger i =>
          match as_i64 data with
          | Some value => map_err (λ e, Msg (Constraint e)) (check_integer i value)
          | None => Err (Msg ExpectedInteger)
          end
      | SNumber n =>
          match as_f64 data with
          | Some value => map_err Msg (check_number n value)
          | None => Err (Msg ExpectedNumber)
          end
      | SString t =>
          match as_str data with
          | Some value => map_err (λ e, Msg (Constraint e)) (check_constraints t value)
          | None => Err (Msg ExpectedString)
          end
      | SArray items min_len max_len =>
          match data with
          | VArray l =>
              let? _ := map_err Msg (array_check_length min_len max_len (N.of_nat (length l))) in
              verify_items (verify_fuel fuel items) 0 l
          | _ => Err (Msg ExpectedArray)
          end
      | SObject _ _ _ _ | SAllOf _ =>
          match data with
          | VObject m =>
              match object_errors (verify_fuel fuel) s m with
              | [] => Ok tt
              | errors => Err (Param errors)
              end
          | _ => Err (Msg ExpectedObject)
          end
      | SOneOf type_property _ _ variants =>
          match data with
          | VObject m =>
              match bt_get type_property m with
              | None => Err (Msg (MissingType type_property))
              | Some (VString variant) =>
                  default (Err (Msg (InvalidVariant variant)))
                    (with_variant (λ e, verify_fuel fuel e data) variant variants)
              | Some _ => Err (Msg (TypeNotString type_property))
              end
          | _ => Err (Msg ExpectedObject)
          end
      end
  end.

Fixpoint depth (s : Schema) : nat :=
  S match s with
    | SObject _ properties _ _ => foldr (λ e n, max (depth e.2) n) 0 properties
    | SArray items _ _ => depth items
    | SAllOf l => foldr (λ e n, max (depth e) n) 0 l
    | SOneOf _ _ type_schema variants => max (depth type_schema) (foldr (λ v n, max (depth v.2) n) 0 variants)
    | _ => 0
    end.

Definition verify_json (s : Schema) (data : Value) : result unit SError := verify_fuel (depth s) s data.

(** ** Values from text *)
Definition to_lower (s : rstr) : rstr :=
  map (λ c, if ((65 <=? c) && (c <=? 90))%N then (c + 32)%N else c) s.

(** No character outside of ASCII has one of the letters of these words as its
    lower case, so that the ASCII part of [to_lowercase] decides. *)
Definition parse_boolean (value_str : rstr) : result bool JsonError :=
  let v := to_lower value_str in
  if decide (v ∈ [lit "1"; lit "on"; lit "yes"; lit "true"]) then Ok true
  else if decide (v ∈ [lit "0"; lit "off"; lit "no"; lit "false"]) then Ok false
  else Err NotABoolean.

Section Text.
Context `{F64Text}.

(** [NotFinitePanic] is not an error of the source but the panic of the [unwrap] for a
    number that JSON does not have: an outcome with it stands for a panic. *)
Definition parse_simple_value (s : Schema) (value_str : rstr) : result Value SError :=
  match s with
  | SNull => Err (Msg NullSchema)
  | SBoolean _ => let? b := map_err Msg (parse_boolean value_str) in Ok (VBool b)
  | SInteger i =>
      let? res := ok_or (parse_i64 value_str) (Msg NotAnInteger) in
      let? _ := map_err (λ e, Msg (Constraint e)) (check_integer i res) in
      Ok (VNumber (number_from_i64 res))
  | SNumber n =>
      let? res := ok_or (f64_from_str value_str) (Msg NotANumber) in
      let? _ := map_err Msg (check_number n res) in
      let? num := ok_or (number_from_f64 res) (Msg NotFinitePanic) in
      Ok (VNumber num)
  | SString t =>
      let? _ := map_err (λ e, Msg (Constraint e)) (check_constraints t value_str) in
      Ok (VString value_str)
  | _ => Err (Msg ComplexValue)
  end.

(** ** Parameters from key/value strings *)
Record ParamState := mkParams {
  params : list (rstr * Value);
  errors : list (rstr * SError);
  first_raw : list (rstr * rstr)
}.

Definition set_param (st : ParamState) (key : rstr) (v : Value) : ParamState :=
  mkParams (bt_insert key v st.(params)) st.(errors) st.(first_raw).
Definition push_error (st : ParamState) (path : rstr) (e : SError) : ParamState :=
  mkParams st.(params) (st.(errors) ++ [(path, e)]) st.(first_raw).
Definition param_at (st : ParamState) (key : rstr) : Value := value_at (VObject st.(params)) key.

Section Parameters.
Context (s : Schema) (data_map : type_field).

Definition parse_parameter (st : ParamState) (raw_key key value : rstr) : ParamState :=
  match lookup_schema s key data_map with
  | Some (_, SArray items _ _) =>
      let st := if is_null (param_at st key) then set_param st key (VArray []) else st in
      match param_at st key with
      | VArray array =>
          match parse_simple_value items value with
          | Ok res => set_param st key (VArray (array ++ [res]))
          | Err err => push_error st raw_key err
          end
      | _ => push_error st raw_key (Msg TypeMismatch)
      end
  | Some (_, prop_schema) =>
      match parse_simple_value prop_schema value with
      | Ok res => if is_null (param_at st key) then set_param st key res
                  else push_error st raw_key (Msg DuplicateParameter)
      | Err err => push_error st raw_key err
      end
  | None =>
      if additional_properties s then
        match param_at st key with
        | VNull => set_param st key (VString value)
        | VString old => set_param st key (VArray [VString old; VString value])
        | VArray array => set_param st key (VArray (array ++ [VString value]))
        | _ => push_error st key (Msg TypeMismatch)
        end
      else push_error st key (Msg AdditionalProperty)
  end.

Definition parameter_step (st : ParamState) (kv : rstr * rstr) : ParamState :=
  let '(raw_key, value) := kv in
  let '(key, alias_from) := match lookup_alias s raw_key with
                            | Some canonical => (canonical, Some raw_key)
                            | None => (raw_key, None)
                            end in
  match bt_get key st.(first_raw) with
  | Some prev_raw =>
      if decide (prev_raw = raw_key) then parse_parameter st raw_key key value
      else push_error st raw_key (Msg (BothSet key (default prev_raw alias_from)))
  | None =>
      parse_parameter (mkParams st.(params) st.(errors) (bt_insert key raw_key st.(first_raw))) raw_key key value
  end.
End Parameters.

(** [collect] into a map: the last value of a key stays. *)
Definition collect (data : list (rstr * rstr)) : list (rstr * rstr) :=
  foldl (λ m kv, bt_insert kv.1 kv.2 m) [] data.

Definition parse_parameter_strings (s : Schema) (data : list (rstr * rstr)) (test_required : bool) :
    result Value (list (rstr * SError)) :=
  let data_map : type_field := λ name, bt_get name (collect data) in
  let st := foldl (parameter_step s data_map) (mkParams [] [] []) data in
  let errs :=
    match st.(errors) with
    | [] => if test_required
            then map (λ e : entry, (e.1.1, Msg MissingProperty))
                   (List.filter (λ e : entry, negb e.1.2 && is_null (param_at st e.1.1)) (all_properties s data_map))
            else []
    | errs => errs
    end in
  match extend_unreported errs (verify_type_fields s data_map) with
  | [] => Ok (VObject st.(params))
  | errs => Err errs
  end.
End Text.

(** ** The iterator over the properties *)

(** [AllProperties]: a stack of iterators, the innermost one first. *)
Inductive PropertiesIter :=
| IterObject (iter : list entry)
| IterAllOf (iter : list Schema)
| IterOneOfType (type_property : rstr) (optional : bool) (type_schema : Schema) (list : list (rstr * Schema))
| IterOneOfVariants (iter : list (rstr * Schema)).

Section Iterator.
Context (get_type : type_field).

Definition push_iter (s : Schema) (stack : list PropertiesIter) : list PropertiesIter :=
  match s with
  | SObject _ properties _ _ => IterObject properties :: stack
  | SAllOf l => IterAllOf l :: stack
  | SOneOf tp o ts vs => IterOneOfType tp o ts vs :: stack
  | _ => stack
  end.

(** [enter_condition] with a type fetcher: the active variant, if there is one. *)
Definition enter_condition (type_property : rstr) (list : list (rstr * Schema)) : List.list (rstr * Schema) :=
  match get_type type_property with
  | None => []
  | Some variant =>
      match with_variant id variant list with
      | Some s => [(variant, s)]
      | None => []
      end
  end.

(** One iteration of the loop of [Iterator::next], with the item it returns. *)
Definition next_step (stack : list PropertiesIter) : option (option entry * list PropertiesIter) :=
  match stack with
  | [] => None
  | IterObject [] :: stack => Some (None, stack)
  | IterObject (item :: iter) :: stack => Some (Some item, IterObject iter :: stack)
  | IterAllOf [] :: stack => Some (None, stack)
  | IterAllOf (s :: iter) :: stack => Some (None, push_iter s (IterAllOf iter :: stack))
  | IterOneOfType tp o ts vs :: stack =>
      Some (Some (tp, o, ts), IterOneOfVariants (enter_condition tp vs) :: stack)
  | IterOneOfVariants [] :: stack => Some (None, stack)
  | IterOneOfVariants ((_, s) :: iter) :: stack => Some (None, push_iter s (IterOneOfVariants iter :: stack))
  end.

(** What a [for] loop over the iterator sees. *)
Fixpoint iterate (fuel : nat) (stack : list PropertiesIter) : option (list entry) :=
  match fuel with
  | O => None
  | S fuel =>
      match next_step stack with
      | None => Some []
      | Some (item, stack) => (λ r, match item with Some e => e :: r | None => r end) <$> iterate fuel stack
      end
  end.
End Iterator.
