(* ===== verification/ObjectSchemaTheory.v ===== *)
(** * ObjectSchemaTheory: what the schema checks accept

    The fuel of [verify_json] is irrelevant, verification decides the relation
    [conforms], the parser of key/value strings produces values that conform,
    and the iterator over the properties, a stack of frames, yields the list of
    [all_properties]. *)
From S2P Require Import Prelude Schema F64 Json ObjectSchema.

(** Induction that reaches the schemas inside of a schema. *)
Lemma Schema_ind (P : Schema → Prop) :
  P SNull → (∀ d, P (SBoolean d)) → (∀ i, P (SInteger i)) → (∀ n, P (SNumber n)) → (∀ t, P (SString t)) →
  (∀ a ps d al, Forall (λ e : entry, P e.2) ps → P (SObject a ps d al)) →
  (∀ items mn mx, P items → P (SArray items mn mx)) →
  (∀ l, Forall P l → P (SAllOf l)) →
  (∀ tp o ts vs, P ts → Forall (λ v, P v.2) vs → P (SOneOf tp o ts vs)) →
  ∀ s, P s.
Proof.
  intros H0 H1 H2 H3 H4 Ho Ha Hall Hone. fix rec 1.
  intros [|d|i|n|t|a ps d al|items mn mx|l|tp o ts vs];
    [exact H0|apply H1|apply H2|apply H3|apply H4|apply Ho|apply Ha, rec|apply Hall|apply Hone; [apply rec|]].
  - induction ps as [|[e p] ps IH]; constructor; [apply rec|exact IH].
  - induction l as [|e l IH]; constructor; [apply rec|exact IH].
  - induction vs as [|[n v] vs IH]; constructor; [apply rec|exact IH].
Qed.

(** ** Lookups go down *)
Lemma first_some_Some {A B} (f : A → option B) l y :
  first_some f l = Some y → ∃ x, x ∈ l ∧ f x = Some y.
Proof.
  induction l as [|x l IH]; simpl; [done|]. destruct (f x) eqn:E.
  - intros [= ->]. exists x. split; [by left|done].
  - intros (z & Hz & Hf)%IH. exists z. split; [by right|done].
Qed.

Lemma first_some_None {A B} (f : A → option B) l : first_some f l = None ↔ ∀ x, x ∈ l → f x = None.
Proof.
  induction l as [|x l IH]; simpl; [split; [intros _ x []%not_elem_of_nil|done]|].
  setoid_rewrite elem_of_cons. destruct (f x) eqn:E; [naive_solver|]. rewrite IH. naive_solver.
Qed.

Lemma first_some_ext {A B} (f g : A → option B) l :
  (∀ x, x ∈ l → f x = g x) → first_some f l = first_some g l.
Proof.
  induction l as [|x l IH]; intros H; simpl; [done|].
  rewrite (H x) by by left. rewrite IH; [done|]. intros y Hy. apply H. by right.
Qed.

Lemma with_variant_Some {B} (f : Schema → B) name vs r :
  with_variant f name vs = Some r ↔ ∃ s, with_variant id name vs = Some s ∧ r = f s.
Proof.
  induction vs as [|[n s] vs IH]; simpl; [naive_solver|]. case_decide; naive_solver.
Qed.

Lemma with_variant_map {B} (f : Schema → B) name vs : with_variant f name vs = f <$> with_variant id name vs.
Proof. induction vs as [|[n s] vs IH]; simpl; [done|]. by case_decide. Qed.

Lemma with_variant_elem name vs s : with_variant id name vs = Some s → (name, s) ∈ vs.
Proof.
  induction vs as [|[n s'] vs IH]; simpl; [done|]. case_decide; intros; simplify_eq/=; [by left|right; auto].
Qed.

Lemma property_entry_elem key ps o p : property_entry key ps = Some (o, p) → (key, o, p) ∈ ps.
Proof.
  induction ps as [|[[n o'] p'] ps IH]; simpl; [done|]. case_decide; intros; simplify_eq; [by left|right; auto].
Qed.

Lemma depth_max_elem {A} (f : A → nat) x l : x ∈ l → f x ≤ foldr (λ e n, max (f e) n) 0 l.
Proof.
  induction l as [|y l IH]; simpl; [intros []%not_elem_of_nil|].
  rewrite elem_of_cons. intros [->|H]; [lia|]. specialize (IH H). lia.
Qed.

Lemma lookup_schema_depth s key g o p : lookup_schema s key g = Some (o, p) → depth p < depth s.
Proof.
  revert p o. induction s as [| | | | |a ps d al _|items mn mx _|l Hl|tp to ts vs _ Hvs] using Schema_ind;
    intros p o H; simpl in H; try done.
  - apply property_entry_elem in H. cbn [depth].
    pose proof (depth_max_elem (λ e : entry, depth e.2) _ _ H). simpl in *. lia.
  - apply first_some_Some in H as (e & He & H). rewrite Forall_forall in Hl. specialize (Hl e He _ _ H).
    cbn [depth]. pose proof (depth_max_elem depth e l He). lia.
  - cbn [depth]. case_decide; [simplify_eq; lia|]. destruct (g tp) as [variant|]; [|done].
    rewrite with_variant_map in H. destruct (with_variant id variant vs) as [s'|] eqn:E; [|done]. simpl in H.
    apply with_variant_elem in E. rewrite Forall_forall in Hvs. specialize (Hvs _ E _ _ H).
    pose proof (depth_max_elem (λ v, depth v.2) _ vs E). simpl in *. lia.
Qed.

Lemma variant_depth name vs s : with_variant id name vs = Some s → depth s ≤ foldr (λ v n, max (depth v.2) n) 0 vs.
Proof. intros H%with_variant_elem. apply (depth_max_elem (λ v, depth v.2) (name, s) vs H). Qed.

(** ** The fuel *)
Lemma verify_value_ext v1 v2 s m errs k x :
  (∀ o p, lookup_schema s k (map_type m) = Some (o, p) → v1 p x = v2 p x) →
  verify_value v1 s m errs k x = verify_value v2 s m errs k x.
Proof. intros H. unfold verify_value. destruct (lookup_schema s k _) as [[o p]|]; [|done]. by rewrite (H o p). Qed.

Lemma object_errors_ext v1 v2 s m :
  (∀ p x, depth p < depth s → v1 p x = v2 p x) → object_errors v1 s m = object_errors v2 s m.
Proof.
  intros H. unfold object_errors. do 3 f_equal.
  assert (∀ l st, foldl (verify_key v1 s m) st l = foldl (verify_key v2 s m) st l) as ->; [|done].
  induction l as [|[k x] l IH]; intros [seen errs]; [done|]. cbn [foldl]. rewrite IH. f_equal.
  unfold verify_key. rewrite (verify_value_ext v1 v2); [done|]. intros o p Hl. apply H. by eapply lookup_schema_depth.
Qed.

Lemma verify_items_ext v1 v2 i l : (∀ x, v1 x = v2 x) → verify_items v1 i l = verify_items v2 i l.
Proof. intros H. revert i. induction l as [|x l IH]; intros i; simpl; [done|]. by rewrite H, IH. Qed.

Lemma verify_fuel_enough n1 n2 s x :
  depth s ≤ n1 → depth s ≤ n2 → verify_fuel n1 s x = verify_fuel n2 s x.
Proof.
  revert n2 s x. induction n1 as [|n1 IH]; intros n2 s x H1 H2; [destruct s; simpl in H1; lia|].
  destruct n2 as [|n2]; [destruct s; simpl in H2; lia|].
  assert (∀ p y, depth p < depth s → verify_fuel n1 p y = verify_fuel n2 p y) as Hrec.
  { intros p y Hp. apply IH; lia. }
  destruct s as [| |i|n|t|a ps d al|items mn mx|l|tp o ts vs]; try done; cbn [verify_fuel].
  - destruct x; try done. by rewrite (object_errors_ext _ (verify_fuel n2)) by exact Hrec.
  - destruct x as [| | | |l|]; try done. rewrite (verify_items_ext _ (verify_fuel n2 items)); [done|].
    intros y. apply Hrec. cbn [depth]. lia.
  - destruct x; try done. by rewrite (object_errors_ext _ (verify_fuel n2)) by exact Hrec.
  - destruct x as [| | | | |m]; try done. destruct (bt_get tp m) as [[| | |variant| |]|]; try done.
    rewrite (with_variant_map (λ e, verify_fuel n1 e _)), (with_variant_map (λ e, verify_fuel n2 e _)).
    destruct (with_variant id variant vs) as [s'|] eqn:E; [|done]. simpl.
    apply variant_depth in E. apply Hrec. cbn [depth]. lia.
Qed.

Lemma verify_fuel_json n s x : depth s ≤ n → verify_fuel n s x = verify_json s x.
Proof. intros H. by apply verify_fuel_enough. Qed.

Lemma verify_object_eq s m :
  match s with SObject _ _ _ _ | SAllOf _ => True | _ => False end →
  verify_json s (VObject m) =
  match object_errors verify_json s m with [] => Ok tt | errs => Err (Param errs) end.
Proof.
  intros Hs. unfold verify_json at 1.
  assert (∃ n, depth s = S n ∧ ∀ p x, depth p < depth s → verify_fuel n p x = verify_json p x) as (n & Hn & H).
  { destruct (depth s) as [|n] eqn:E; [by destruct s|]. exists n. split; [done|].
    intros p x Hp. apply verify_fuel_json. lia. }
  rewrite Hn. destruct s; try done; cbn [verify_fuel]; by rewrite (object_errors_ext _ verify_json) by exact H.
Qed.

Lemma verify_one_of_eq tp o ts vs m :
  verify_json (SOneOf tp o ts vs) (VObject m) =
  match bt_get tp m with
  | None => Err (Msg (MissingType tp))
  | Some (VString variant) =>
      default (Err (Msg (InvalidVariant variant))) (with_variant (λ e, verify_json e (VObject m)) variant vs)
  | Some _ => Err (Msg (TypeNotString tp))
  end.
Proof.
  unfold verify_json at 1. cbn [depth verify_fuel]. destruct (bt_get tp m) as [[| | |variant| |]|]; try done.
  rewrite (with_variant_map (λ e, verify_fuel _ e _)), (with_variant_map (λ e, verify_json e _)).
  destruct (with_variant id variant vs) as [s'|] eqn:E; [|done]. simpl.
  apply variant_depth in E. apply verify_fuel_json. lia.
Qed.

Lemma verify_array_eq items mn mx l :
  verify_json (SArray items mn mx) (VArray l) =
  (let? _ := map_err Msg (array_check_length mn mx (N.of_nat (length l))) in
   verify_items (verify_json items) 0 l).
Proof. done. Qed.

(** ** What it means to conform *)
Definition in_range {A} (le : A → A → Prop) (mn mx : option A) (x : A) : Prop :=
  (∀ m, mn = Some m → le m x) ∧ (∀ m, mx = Some m → le x m).

(** No alias stands next to its canonical name or another alias of it. *)
Definition aliases_ok (s : Schema) (m : list (rstr * Value)) : Prop :=
  (∀ k c, k ∈ m.*1 → lookup_alias s k = Some c → bt_get c m = None) ∧
  NoDup (omap (lookup_alias s) m.*1).

(** Every required property is there, by its name or by an alias. *)
Definition required_ok (s : Schema) (m : list (rstr * Value)) : Prop :=
  ∀ name p, (name, false, p) ∈ all_properties s (map_type m) →
    value_at (VObject m) name ≠ VNull ∨ ∃ k, k ∈ m.*1 ∧ lookup_alias s k = Some name.

Definition combined (s : Schema) : Prop := match s with SObject _ _ _ _ | SAllOf _ => True | _ => False end.

Inductive conforms : Schema → Value → Prop :=
| conforms_null : conforms SNull VNull
| conforms_boolean d b : conforms (SBoolean d) (VBool b)
| conforms_integer i v z :
    as_i64 v = Some z → in_range Z.le i.(minimum) i.(maximum) z → conforms (SInteger i) v
| conforms_number n v x :
    as_f64 v = Some x → in_range (λ a b, f64_lt b a = false) n.(num_minimum) n.(num_maximum) x →
    conforms (SNumber n) v
| conforms_string t v : check_constraints t v = Ok tt → conforms (SString t) (VString v)
| conforms_array items mn mx l :
    in_range N.le mn mx (N.of_nat (length l)) → (∀ v, v ∈ l → conforms items v) →
    conforms (SArray items mn mx) (VArray l)
| conforms_object s m :
    combined s →
    (∀ k v o p, (k, v) ∈ m → lookup_schema s k (map_type m) = Some (o, p) → conforms p v) →
    (∀ k, k ∈ m.*1 → lookup_schema s k (map_type m) = None → additional_properties s = true) →
    aliases_ok s m → required_ok s m → verify_type_fields s (map_type m) = [] →
    conforms s (VObject m)
| conforms_one_of tp o ts vs m variant s :
    bt_get tp m = Some (VString variant) → with_variant id variant vs = Some s →
    conforms s (VObject m) → conforms (SOneOf tp o ts vs) (VObject m).

(** ** Errors are never empty *)
Lemma add_errors_nil errs k e :
  e ≠ Param [] → add_errors errs k e ≠ [].
Proof. intros He. destruct e as [e|[|[p e] l]]; simpl; [by destruct errs|done|by destruct errs]. Qed.

Lemma map_err_ok {A E F} (f : E → F) (r : result A E) a : map_err f r = Ok a ↔ r = Ok a.
Proof. destruct r; simpl; naive_solver. Qed.

Lemma verify_items_err v i l e : verify_items v i l = Err e → e ≠ Param [].
Proof. revert i. induction l as [|x l IH]; intros i; simpl; [done|]. case_match; [apply IH|by intros [= <-]]. Qed.

Lemma rbind_err {A B E} (r : result A E) (k : A → result B E) e :
  rbind r k = Err e → r = Err e ∨ ∃ a, r = Ok a ∧ k a = Err e.
Proof. destruct r; simpl; naive_solver. Qed.

Lemma verify_fuel_err n s x e : verify_fuel n s x = Err e → e ≠ Param [].
Proof.
  revert s x. induction n as [|n IH]; intros s x; [by intros [= <-]|].
  destruct s as [| |i|k|t|a ps d al|items mn mx|l|tp o ts vs]; cbn [verify_fuel].
  - case_match; by intros [= <-].
  - case_match; by intros [= <-].
  - case_match; [|by intros [= <-]]. unfold map_err. case_match; by intros [= <-].
  - case_match; [|by intros [= <-]]. unfold map_err. case_match; by intros [= <-].
  - case_match; [|by intros [= <-]]. unfold map_err. case_match; by intros [= <-].
  - destruct x; try by intros [= <-]. case_match; by intros [= <-].
  - destruct x; try by intros [= <-]. intros [H|(? & _ & H)]%rbind_err; [|by eapply verify_items_err].
    unfold map_err in H. case_match; by simplify_eq.
  - destruct x; try by intros [= <-]. case_match; by intros [= <-].
  - destruct x as [| | | | |m]; try by intros [= <-].
    destruct (bt_get tp m) as [[| | |variant| |]|]; try by intros [= <-].
    rewrite with_variant_map. destruct (with_variant id variant vs) as [s'|]; [apply IH|by intros [= <-]].
Qed.

(** ** When the lists of errors are empty *)
Definition value_ok (s : Schema) (m : list (rstr * Value)) (k : rstr) (x : Value) : Prop :=
  match lookup_schema s k (map_type m) with
  | Some (_, p) => verify_json p x = Ok tt
  | None => additional_properties s = true
  end.

Lemma verify_value_nil s m errs k x :
  verify_value verify_json s m errs k x = [] ↔ errs = [] ∧ value_ok s m k x.
Proof.
  unfold verify_value, value_ok. destruct (lookup_schema s k _) as [[o p]|].
  - destruct (verify_json p x) as [[]|e] eqn:E; [tauto|]. apply verify_fuel_err in E.
    split; [intros H; by apply add_errors_nil in H|by intros [_ ?]].
  - destruct (additional_properties s); [tauto|]. split; [by destruct errs|by intros [_ ?]].
Qed.

Lemma verify_keys_nil s m l seen errs :
  (foldl (verify_key verify_json s m) (seen, errs) l).2 = [] ↔
  errs = [] ∧ (∀ k x, (k, x) ∈ l → value_ok s m k x) ∧
  (∀ k c, k ∈ l.*1 → lookup_alias s k = Some c → bt_get c m = None) ∧
  NoDup (omap (lookup_alias s) l.*1) ∧ (∀ c, c ∈ omap (lookup_alias s) l.*1 → c ∉ seen).
Proof.
  revert seen errs. induction l as [|[k x] l IH]; intros seen errs.
  { simpl. split; [|by intros [? _]]. intros ->. split_and!; try done.
    - intros ? ? []%not_elem_of_nil.
    - intros ? ? []%not_elem_of_nil.
    - constructor.
    - intros ? []%not_elem_of_nil. }
  cbn [foldl fmap list_fmap fst]. unfold verify_key at 2.
  assert (∀ P : rstr → Value → Prop, (∀ k' x', (k', x') ∈ (k, x) :: l → P k' x') ↔ P k x ∧ ∀ k' x', (k', x') ∈ l → P k' x') as Hc.
  { intros P. setoid_rewrite elem_of_cons. naive_solver. }
  rewrite (Hc (value_ok s m)). clear Hc. setoid_rewrite elem_of_cons.
  destruct (lookup_alias s k) as [c|] eqn:Ea; cbn [omap list_omap]; rewrite Ea.
  - unfold contains_key. destruct (bt_get c m) as [y|] eqn:Ec.
    { rewrite IH. split; [intros [H _]; by destruct errs|].
      intros (_ & _ & H & _). specialize (H k c (or_introl eq_refl) Ea). by simplify_eq. }
    case_decide as Hseen.
    { rewrite IH. split; [intros [H _]; by destruct errs|].
      intros (_ & _ & _ & _ & H). by specialize (H c ltac:(by left)). }
    rewrite IH, verify_value_nil, NoDup_cons. setoid_rewrite elem_of_cons. naive_solver.
  - rewrite IH, verify_value_nil. naive_solver.
Qed.

Lemma extend_unreported_nil errs other : extend_unreported errs other = [] ↔ errs = [] ∧ other = [].
Proof.
  unfold extend_unreported. split; [|by intros [-> ->]]. revert errs.
  induction other as [|[p e] other IH]; intros errs; [done|]. cbn [foldl].
  intros H%IH. destruct H as [H _]. case_decide as Hin; [|by destruct errs].
  subst errs. simpl in Hin. by apply not_elem_of_nil in Hin.
Qed.

Lemma filter_nil {A} (p : A → bool) l : List.filter p l = [] ↔ ∀ x, x ∈ l → p x = false.
Proof.
  induction l as [|x l IH]; simpl; [split; [intros _ x []%not_elem_of_nil|done]|].
  setoid_rewrite elem_of_cons. destruct (p x) eqn:E.
  - split; [done|]. intros H. specialize (H x (or_introl eq_refl)). congruence.
  - rewrite IH. split; [intros H y [->|Hy]; auto|intros H y Hy; auto].
Qed.

Lemma missing_nil s m :
  List.filter (missing s m) (all_properties s (map_type m)) = [] ↔ required_ok s m.
Proof.
  rewrite filter_nil. unfold required_ok, missing. split.
  - intros H name p Hin. specialize (H _ Hin). cbn [negb andb] in H.
    destruct (is_null _) eqn:En; [|left; intros E; by rewrite E in En]. right. cbn [andb] in H.
    apply negb_false_iff, existsb_exists in H as ([k x] & Hk%list_elem_of_In & Ha%bool_decide_eq_true).
    exists k. split; [|done]. by apply (list_elem_of_fmap_2 fst _ (k, x)).
  - intros H [[name []] p] Hin; [done|]. cbn [negb andb]. destruct (H _ _ Hin) as [Hn|(k & Hk & Ha)].
    + by destruct (value_at (VObject m) name).
    + apply andb_false_iff. right. apply negb_false_iff, existsb_exists.
      apply list_elem_of_fmap in Hk as ([k' x] & -> & Hk). exists (k', x). split; [by apply list_elem_of_In|].
      by apply bool_decide_eq_true.
Qed.

Lemma object_errors_nil s m :
  object_errors verify_json s m = [] ↔
  (∀ k x, (k, x) ∈ m → value_ok s m k x) ∧ aliases_ok s m ∧ required_ok s m ∧
  verify_type_fields s (map_type m) = [].
Proof.
  unfold object_errors. rewrite extend_unreported_nil, app_nil, verify_keys_nil.
  assert (∀ l : list entry, map (λ e : entry, (e.1.1, Msg MissingProperty)) l = [] ↔ l = []) as ->
    by (intros []; done).
  rewrite missing_nil. unfold aliases_ok. split; [tauto|].
  intros (H1 & (H2 & H3) & H4 & H5). split_and!; try done. intros c _ []%not_elem_of_nil.
Qed.

(** ** Scalars and arrays *)
Lemma check_integer_ok i z : check_integer i z = Ok tt ↔ in_range Z.le i.(minimum) i.(maximum) z.
Proof.
  unfold check_integer, in_range. destruct (minimum i) as [mi|], (maximum i) as [ma|]; simpl;
    repeat case_match; simpl; (split; [intros; try done; split; intros ? [= <-]; lia|intros [H1 H2]; try done]);
    exfalso; try specialize (H1 _ eq_refl); try specialize (H2 _ eq_refl); lia.
Qed.

Lemma check_number_ok n x :
  check_number n x = Ok tt ↔ in_range (λ a b, f64_lt b a = false) n.(num_minimum) n.(num_maximum) x.
Proof.
  unfold check_number, in_range. destruct (num_minimum n) as [mi|], (num_maximum n) as [ma|]; simpl;
    repeat case_match; simpl; (split; [intros; try done; split; intros ? [= <-]; done|intros [H1 H2]; try done]);
    exfalso; try specialize (H1 _ eq_refl); try specialize (H2 _ eq_refl); congruence.
Qed.

Lemma array_check_length_ok mn mx k : array_check_length mn mx k = Ok tt ↔ in_range N.le mn mx k.
Proof.
  unfold array_check_length, in_range. destruct mn as [mi|], mx as [ma|]; simpl;
    repeat case_match; simpl; (split; [intros; try done; split; intros ? [= <-]; lia|intros [H1 H2]; try done]);
    exfalso; try specialize (H1 _ eq_refl); try specialize (H2 _ eq_refl); lia.
Qed.

Lemma verify_items_ok v i l : verify_items v i l = Ok tt ↔ ∀ x, x ∈ l → v x = Ok tt.
Proof.
  revert i. induction l as [|x l IH]; intros i; simpl; [split; [intros _ x []%not_elem_of_nil|done]|].
  setoid_rewrite elem_of_cons. destruct (v x) as [[]|] eqn:E.
  - rewrite IH. split; [intros H y [->|Hy]; auto|intros H y Hy; auto].
  - split; [done|]. intros H. specialize (H x (or_introl eq_refl)). congruence.
Qed.

Lemma verify_array_ok items mn mx l :
  verify_json (SArray items mn mx) (VArray l) = Ok tt ↔
  in_range N.le mn mx (N.of_nat (length l)) ∧ ∀ x, x ∈ l → verify_json items x = Ok tt.
Proof.
  rewrite verify_array_eq, <- array_check_length_ok, <- (verify_items_ok _ 0%N).
  destruct (array_check_length _ _ _) as [[]|]; simpl; naive_solver.
Qed.

Lemma verify_object_ok s m :
  combined s → verify_json s (VObject m) = Ok tt ↔ object_errors verify_json s m = [].
Proof. intros Hs. rewrite verify_object_eq by done. by destruct (object_errors _ _ _). Qed.

Lemma object_conforms s m :
  combined s → verify_json s (VObject m) = Ok tt →
  (∀ p x, depth p < depth s → verify_json p x = Ok tt → conforms p x) → conforms s (VObject m).
Proof.
  intros Hs H Hrec. apply verify_object_ok, object_errors_nil in H as (Hv & Ha & Hr & Ht); [|done].
  apply conforms_object; try done.
  - intros k x o p Hin Hl. apply Hrec; [by eapply lookup_schema_depth|].
    specialize (Hv k x Hin). unfold value_ok in Hv. by rewrite Hl in Hv.
  - intros k Hin Hl. apply list_elem_of_fmap in Hin as ([k' x] & -> & Hin).
    specialize (Hv k' x Hin). unfold value_ok in Hv. simpl in Hl. by rewrite Hl in Hv.
Qed.

Lemma conforms_object_verify s m :
  combined s →
  (∀ k v o p, (k, v) ∈ m → lookup_schema s k (map_type m) = Some (o, p) → verify_json p v = Ok tt) →
  (∀ k, k ∈ m.*1 → lookup_schema s k (map_type m) = None → additional_properties s = true) →
  aliases_ok s m → required_ok s m → verify_type_fields s (map_type m) = [] →
  verify_json s (VObject m) = Ok tt.
Proof.
  intros Hs Hv Hadd Ha Hr Ht. apply verify_object_ok, object_errors_nil; [done|]. split_and!; try done.
  intros k x Hin. unfold value_ok. destruct (lookup_schema s k _) as [[o p]|] eqn:E; [by eapply Hv|].
  apply (Hadd k); [|done]. by apply (list_elem_of_fmap_2 fst _ (k, x)).
Qed.

Lemma verify_json_decides s v : verify_json s v = Ok tt ↔ conforms s v.
Proof.
  split.
  - remember (depth s) as n eqn:Hn. assert (depth s ≤ n) as Hle by lia. clear Hn. revert s v Hle.
    induction n as [|n IH]; intros s v Hle; [destruct s; simpl in Hle; lia|].
    destruct s as [| |i|k|t|a ps d al|items mn mx|l|tp o ts vs].
    + destruct v; try done. constructor.
    + destruct v; try done. constructor.
    + unfold verify_json. cbn [depth verify_fuel]. destruct (as_i64 v) eqn:E; [|done].
      rewrite map_err_ok, check_integer_ok. by econstructor.
    + unfold verify_json. cbn [depth verify_fuel]. destruct (as_f64 v) eqn:E; [|done].
      rewrite map_err_ok, check_number_ok. by econstructor.
    + destruct v; try done. unfold verify_json. cbn [depth verify_fuel as_str].
      rewrite map_err_ok. by constructor.
    + destruct v; try done. intros H. apply object_conforms; [done|done|]. intros p x Hp. apply IH. lia.
    + destruct v; try done. rewrite verify_array_ok. intros [Hr Hx]. constructor; [done|].
      intros x Hin. apply IH; [cbn [depth] in Hle; lia|auto].
    + destruct v; try done. intros H. apply object_conforms; [done|done|]. intros p x Hp. apply IH. lia.
    + destruct v as [| | | | |m]; try done. rewrite verify_one_of_eq.
      destruct (bt_get tp m) as [[| | |variant| |]|] eqn:Eg; try done.
      rewrite with_variant_map. destruct (with_variant id variant vs) as [s'|] eqn:E; [|done]. simpl.
      intros H. eapply conforms_one_of; [done..|]. apply IH; [|done].
      apply variant_depth in E. cbn [depth] in Hle. lia.
  - induction 1 as [|b|i v z Hz Hr|k v x Hx Hr|t v Hc|items mn mx l Hr _ IH|s m Hs _ IH Hadd Ha Hreq Ht
                   |tp o ts vs m variant s Hg Hv _ IH]; try done.
    + unfold verify_json. cbn [depth verify_fuel]. rewrite Hz. by apply map_err_ok, check_integer_ok.
    + unfold verify_json. cbn [depth verify_fuel]. rewrite Hx. by apply map_err_ok, check_number_ok.
    + unfold verify_json. cbn [depth verify_fuel as_str]. by apply map_err_ok.
    + by apply verify_array_ok.
    + by apply conforms_object_verify.
    + rewrite verify_one_of_eq, Hg, with_variant_map, Hv. exact IH.
Qed.

(** [C18] Verification decides conformance: a value is accepted exactly if it has
    the type and the ranges its schema asks for, recursively; an object also
    must have the required properties of the active variants, no unknown property
    unless the schema allows it, no alias in conflict with another name, and
    existing variants in its type properties. *)
Theorem verify_json_conforms s v : verify_json s v = Ok tt ↔ conforms s v.
Proof. apply verify_json_decides. Qed.

(** ** Strict variants of a choice cannot be verified

    The type property of a [oneOf] is not a property of its variants, but the
    whole object with the type property is verified with the variant. *)
Lemma one_of_strict_rejects tp o ts vs v :
  (∀ n s, (n, s) ∈ vs → combined s ∧ additional_properties s = false ∧ ∀ g, lookup_schema s tp g = None) →
  verify_json (SOneOf tp o ts vs) v ≠ Ok tt.
Proof.
  intros Hvs H%verify_json_decides. inversion H; subst; [done|].
  match goal with E : with_variant id _ vs = Some _ |- _ => pose proof (with_variant_elem _ _ _ E) as Hin end.
  destruct (Hvs _ _ Hin) as (Hs & Hadd & Hl).
  match goal with C : conforms _ (VObject m) |- _ => inversion C; subst; try done end.
  match goal with K : ∀ k, _ → _ → additional_properties _ = true |- _ => rewrite (K tp) in Hadd; [done| |apply Hl] end.
  match goal with E : bt_get tp m = Some _ |- _ => apply bt_get_In in E; by apply (list_elem_of_fmap_2 fst _ _ E) end.
Qed.

(** ** Schemas without choices *)
Fixpoint no_one_of (s : Schema) : bool :=
  match s with
  | SAllOf l => forallb no_one_of l
  | SOneOf _ _ _ _ => false
  | _ => true
  end.

Fixpoint alias_list (s : Schema) : list (rstr * rstr) :=
  match s with
  | SObject _ _ _ aliases => aliases
  | SAllOf l => flat_map alias_list l
  | SOneOf _ _ _ variants => flat_map (λ v, alias_list v.2) variants
  | _ => []
  end.

Definition canonical_aliases (s : Schema) : bool :=
  forallb (λ ac, bool_decide (lookup_alias s ac.2 = None)) (alias_list s).

Definition unbounded_arrays (s : Schema) : bool :=
  forallb (λ e : entry, match e.2 with SArray _ (Some _) _ | SArray _ _ (Some _) => false | _ => true end)
    (all_properties s NoTypeData).

Lemma elem_of_flat_map {A B} (f : A → list B) l y : y ∈ flat_map f l ↔ ∃ x, x ∈ l ∧ y ∈ f x.
Proof. rewrite list_elem_of_In, in_flat_map. by setoid_rewrite list_elem_of_In. Qed.

Lemma forallb_elem {A} (p : A → bool) l : forallb p l = true ↔ ∀ x, x ∈ l → p x = true.
Proof. rewrite forallb_forall. by setoid_rewrite list_elem_of_In. Qed.

Lemma lookup_alias_key s k c : lookup_alias s k = Some c → (k, c) ∈ alias_list s.
Proof.
  induction s as [| | | | |a ps d al _|items mn mx _|l Hl|tp o ts vs _ Hvs] using Schema_ind; simpl; try done.
  - apply bt_get_In.
  - intros (e & He & H)%first_some_Some. apply elem_of_flat_map. exists e. rewrite Forall_forall in Hl. auto.
  - intros (e & He & H)%first_some_Some. apply elem_of_flat_map. exists e. rewrite Forall_forall in Hvs. auto.
Qed.

(** No key of an object is an alias. *)
Definition no_alias (s : Schema) (m : list (rstr * Value)) : Prop :=
  ∀ a c, (a, c) ∈ alias_list s → bt_get a m = None.

Lemma no_alias_lookup s m k : no_alias s m → k ∈ m.*1 → lookup_alias s k = None.
Proof.
  intros Hn Hk. destruct (lookup_alias s k) as [c|] eqn:E; [|done]. apply lookup_alias_key in E.
  apply Hn in E. apply bt_get_None in E. done.
Qed.

Lemma canonical_lookup s k c : canonical_aliases s = true → lookup_alias s k = Some c → lookup_alias s c = None.
Proof.
  intros Hc Ha%lookup_alias_key. unfold canonical_aliases in Hc. rewrite forallb_elem in Hc.
  specialize (Hc _ Ha). by apply bool_decide_eq_true in Hc.
Qed.

Section NoOneOf.
Context (s : Schema) (g1 g2 : type_field).

Lemma no_one_of_lookup k : no_one_of s = true → lookup_schema s k g1 = lookup_schema s k g2.
Proof.
  induction s as [| | | | |a ps d al _|items mn mx _|l Hl|tp o ts vs _ Hvs] using Schema_ind; simpl; try done.
  rewrite forallb_elem. intros H. apply first_some_ext. intros e He. rewrite Forall_forall in Hl. auto.
Qed.

Lemma no_one_of_properties : no_one_of s = true → all_properties s g1 = all_properties s g2.
Proof.
  induction s as [| | | | |a ps d al _|items mn mx _|l Hl|tp o ts vs _ Hvs] using Schema_ind; simpl; try done.
  rewrite forallb_elem. intros H. induction Hl as [|e l He _ IH]; simpl; [done|].
  rewrite He, IH; [done| |apply H; by left]. intros x Hx. apply H. by right.
Qed.

Lemma no_one_of_types : no_one_of s = true → verify_type_fields s g1 = [].
Proof.
  induction s as [| | | | |a ps d al _|items mn mx _|l Hl|tp o ts vs _ Hvs] using Schema_ind; simpl; try done.
  rewrite forallb_elem. intros H. induction Hl as [|e l He _ IH]; simpl; [done|].
  rewrite He, IH; [done| |apply H; by left]. intros x Hx. apply H. by right.
Qed.

Lemma lookup_schema_elem k o p :
  lookup_schema s k g1 = Some (o, p) → ∃ name, (name, o, p) ∈ all_properties s g1.
Proof.
  revert o p. induction s as [| | | | |a ps d al _|items mn mx _|l Hl|tp to ts vs _ Hvs] using Schema_ind;
    intros o p; simpl; try done.
  - intros H%property_entry_elem. by eexists.
  - intros (e & He & H)%first_some_Some. rewrite Forall_forall in Hl. destruct (Hl e He _ _ H) as [n Hn].
    exists n. apply elem_of_flat_map. by exists e.
  - case_decide as Hk; [intros [= <- <-]; eexists; by left|]. destruct (g1 tp) as [variant|]; [|done].
    rewrite with_variant_map, (with_variant_map (λ e, all_properties e g1)).
    destruct (with_variant id variant vs) as [s'|] eqn:E; [|done]. simpl. intros Hl.
    rewrite Forall_forall in Hvs. destruct (Hvs _ (with_variant_elem _ _ _ E) _ _ Hl) as [n Hn].
    exists n. by right.
Qed.
End NoOneOf.

(** ** Values from text conform *)
Lemma parse_i64_range t z : parse_i64 t = Some z → (- 2 ^ 63 ≤ z < 2 ^ 63)%Z.
Proof.
  assert (∀ d n, parse_uint i64_max d = Some n → (n ≤ i64_max)%N) as Hu.
  { intros d n. unfold parse_uint. set (digits := match d with 43%N :: d' => d' | _ => d end).
    destruct digits; [done|]. destruct (_ && _) eqn:E; [|done]. apply andb_true_iff in E as [_ E%N.leb_le].
    by intros [= <-]. }
  unfold parse_i64. destruct (strip_prefix_char 45%N t) as [[|c digits]|]; [done| |].
  - destruct (_ && _) eqn:E; [|done]. apply andb_true_iff in E as [_ E%N.leb_le]. intros [= <-].
    unfold i64_max in E. lia.
  - intros (n & Hn%Hu & ->)%fmap_Some. unfold i64_max in Hn. lia.
Qed.

Lemma as_i64_number z : (- 2 ^ 63 ≤ z < 2 ^ 63)%Z → as_i64 (VNumber (number_from_i64 z)) = Some z.
Proof.
  intros Hz. unfold number_from_i64. destruct (Z.ltb_spec z 0); simpl; [done|].
  by rewrite (proj2 (Z.ltb_lt _ _)) by lia.
Qed.

Section Parsing.
Context {F : F64Text}.

Lemma parse_simple_verify s t v : parse_simple_value s t = Ok v → verify_json s v = Ok tt.
Proof.
  destruct s as [| |i|n|c|a ps d al|items mn mx|l|tp o ts vs]; simpl; try done.
  - destruct (parse_boolean t); simpl; [by intros [= <-]|done].
  - destruct (parse_i64 t) as [z|] eqn:E; [|done]. simpl.
    destruct (check_integer i z) as [[]|] eqn:Ec; [|done]. simpl. intros [= <-].
    unfold verify_json. cbn [depth verify_fuel]. rewrite as_i64_number by by eapply parse_i64_range.
    by rewrite Ec.
  - destruct (f64_from_str t) as [x|]; [|done]. simpl. destruct (check_number n x) as [[]|] eqn:Ec; [|done].
    simpl. unfold number_from_f64. destruct (f64_is_finite x); [|done]. simpl. intros [= <-].
    unfold verify_json. cbn [depth verify_fuel as_f64]. by rewrite Ec.
  - destruct (check_constraints c t) as [[]|] eqn:Ec; [|done]. simpl. intros [= <-].
    unfold verify_json. cbn [depth verify_fuel as_str]. by rewrite Ec.
Qed.

Lemma parse_simple_not_null s t v : parse_simple_value s t = Ok v → is_null v = false.
Proof.
  destruct s; simpl; try done; intros H;
    repeat (match type of H with context [rbind ?r _] => destruct r; [|done] end; simpl in H); by simplify_eq.
Qed.

Lemma elem_of_bt_insert {V} k (v : V) m k' v' :
  (k', v') ∈ bt_insert k v m → (k' = k ∧ v' = v) ∨ (k', v') ∈ m.
Proof.
  induction m as [|[k0 v0] m IH]; simpl.
  - rewrite list_elem_of_singleton. intros [= -> ->]. by left.
  - destruct (str_compare k k0); rewrite !elem_of_cons; naive_solver.
Qed.

(** What the parser has stored for a key. *)
Definition stored_ok (s : Schema) (k : rstr) (v : Value) : Prop :=
  lookup_alias s k = None ∧
  match lookup_schema s k NoTypeData with
  | Some (_, SArray items _ _) => ∃ l, v = VArray l ∧ ∀ x, x ∈ l → verify_json items x = Ok tt
  | Some (_, p) => verify_json p v = Ok tt
  | None => additional_properties s = true
  end.

Definition params_ok (s : Schema) (st : ParamState) : Prop :=
  bt_sorted st.(params) ∧ ∀ k v, (k, v) ∈ st.(params) → stored_ok s k v.

Lemma set_param_ok s st k v : params_ok s st → stored_ok s k v → params_ok s (set_param st k v).
Proof.
  intros [Hs Hp] Hv. split; [by apply bt_sorted_insert|].
  intros k' v' [[-> ->]|H]%elem_of_bt_insert; [done|by apply Hp].
Qed.

Lemma param_at_elem s st k v : params_ok s st → param_at st k = v → is_null v = false → (k, v) ∈ st.(params).
Proof.
  intros _ Hv Hn. unfold param_at, value_at in Hv. destruct (bt_get k (params st)) eqn:E; simpl in Hv; subst; [|done].
  by apply bt_get_In.
Qed.

Lemma push_error_nil st p e : errors (push_error st p e) ≠ [].
Proof. simpl. by destruct (errors st). Qed.

Lemma stored_array s st key o items mn mx l :
  params_ok s st → lookup_schema s key NoTypeData = Some (o, SArray items mn mx) → param_at st key = VArray l →
  ∀ x, x ∈ l → verify_json items x = Ok tt.
Proof.
  intros Hst El Ea. assert ((key, VArray l) ∈ params st) as Hin by by eapply param_at_elem.
  destruct (proj2 Hst _ _ Hin) as [_ Hl]. rewrite El in Hl. by destruct Hl as (l' & [= <-] & Hl).
Qed.

Lemma parse_array_ok s st raw_key key value o items mn mx :
  lookup_schema s key NoTypeData = Some (o, SArray items mn mx) → lookup_alias s key = None → params_ok s st →
  let st' := if is_null (param_at st key) then set_param st key (VArray []) else st in
  let res := match param_at st' key with
             | VArray array => match parse_simple_value items value with
                               | Ok res => set_param st' key (VArray (array ++ [res]))
                               | Err err => push_error st' raw_key err
                               end
             | _ => push_error st' raw_key (Msg TypeMismatch)
             end in
  errors res = [] → params_ok s res.
Proof.
  intros El Hal Hst st'.
  assert (∀ l, (∀ x, x ∈ l → verify_json items x = Ok tt) → stored_ok s key (VArray l)) as Harr.
  { intros l Hl. split; [done|]. rewrite El. by exists l. }
  assert (params_ok s st') as Hst'.
  { unfold st'. case_match; [|done]. apply set_param_ok; [done|]. apply Harr. intros x []%not_elem_of_nil. }
  destruct (param_at st' key) as [| | | |array|] eqn:Ea; try by intros res []%push_error_nil.
  destruct (parse_simple_value items value) as [r|e] eqn:Ep; [|by intros res []%push_error_nil].
  intros res _. apply set_param_ok; [done|]. apply Harr.
  intros x [Hx| ->%list_elem_of_singleton]%elem_of_app; [|by eapply parse_simple_verify].
  by eapply (stored_array s st').
Qed.

Lemma parse_scalar_ok s st raw_key key value o p :
  lookup_schema s key NoTypeData = Some (o, p) → (∀ items mn mx, p ≠ SArray items mn mx) →
  lookup_alias s key = None → params_ok s st →
  let res := match parse_simple_value p value with
             | Ok res => if is_null (param_at st key) then set_param st key res
                         else push_error st raw_key (Msg DuplicateParameter)
             | Err err => push_error st raw_key err
             end in
  errors res = [] → params_ok s res.
Proof.
  intros El Hp Hal Hst. destruct (parse_simple_value p value) as [r|e] eqn:Ep; [|by intros res []%push_error_nil].
  case_match; [|by intros res []%push_error_nil]. intros res _. apply set_param_ok; [done|].
  split; [done|]. rewrite El. apply parse_simple_verify in Ep. destruct p; try done. by destruct (Hp p min_len max_len).
Qed.

Lemma parse_parameter_ok s g st raw_key key value :
  no_one_of s = true → lookup_alias s key = None → params_ok s st →
  errors (parse_parameter s g st raw_key key value) = [] → params_ok s (parse_parameter s g st raw_key key value).
Proof.
  intros Hno Hal Hst. unfold parse_parameter. rewrite (no_one_of_lookup s g NoTypeData) by done.
  destruct (lookup_schema s key NoTypeData) as [[o p]|] eqn:El.
  - destruct p as [| |i|n|t|a ps d al|items mn mx|l|tp to ts vs];
      try (by eapply parse_scalar_ok); by eapply parse_array_ok.
  - destruct (additional_properties s) eqn:Ha; [|by intros []%push_error_nil].
    assert (∀ v, stored_ok s key v) as Hadd by (intros v; split; [done|by rewrite El]).
    destruct (param_at st key); try (by intros []%push_error_nil); intros _; by apply set_param_ok.
Qed.

(** Errors stay. *)
Lemma parse_parameter_errors s g st raw_key key value :
  errors (parse_parameter s g st raw_key key value) = [] → errors st = [].
Proof.
  unfold parse_parameter. repeat case_match; simpl; try done; intros Herr; by destruct (errors st).
Qed.

Lemma parameter_step_errors s g st kv : errors (parameter_step s g st kv) = [] → errors st = [].
Proof.
  destruct kv as [raw_key value]. unfold parameter_step. destruct (match lookup_alias s raw_key with Some c => (c, Some raw_key) | None => (raw_key, None) end) as [key from].
  destruct (bt_get key (first_raw st)) as [prev|]; [case_decide|].
  - apply parse_parameter_errors.
  - by intros []%push_error_nil.
  - intros H. by apply parse_parameter_errors in H.
Qed.

Lemma parameter_step_ok s g st kv :
  no_one_of s = true → canonical_aliases s = true → params_ok s st →
  errors (parameter_step s g st kv) = [] → params_ok s (parameter_step s g st kv).
Proof.
  intros Hno Hc Hst. destruct kv as [raw_key value]. unfold parameter_step.
  destruct (match lookup_alias s raw_key with Some c => (c, Some raw_key) | None => (raw_key, None) end) as [key from] eqn:E.
  assert (lookup_alias s key = None) as Hal.
  { destruct (lookup_alias s raw_key) as [c|] eqn:Ea; simplify_eq; [by eapply canonical_lookup|done]. }
  destruct (bt_get key (first_raw st)) as [prev|]; [case_decide|].
  - by apply parse_parameter_ok.
  - by intros []%push_error_nil.
  - by apply parse_parameter_ok.
Qed.

Lemma parameter_fold_ok s g data st :
  no_one_of s = true → canonical_aliases s = true → params_ok s st →
  errors (foldl (parameter_step s g) st data) = [] → params_ok s (foldl (parameter_step s g) st data).
Proof.
  intros Hno Hc. revert st. induction data as [|kv data IH]; intros st Hst; simpl; [done|].
  intros H. apply IH; [|done]. apply parameter_step_ok; [done..|]. clear -H. revert H.
  generalize (parameter_step s g st kv) as st'. intros st'. revert st'.
  induction data as [|kv' data IH]; intros st'; simpl; [done|]. intros H%IH. by eapply parameter_step_errors.
Qed.

Lemma parse_parameter_strings_accepted s data v :
  combined s → no_one_of s = true → canonical_aliases s = true → unbounded_arrays s = true →
  parse_parameter_strings s data true = Ok v →
  conforms s v ∧ ∃ m, v = VObject m ∧ bt_sorted m ∧ ∀ k, k ∈ m.*1 → lookup_alias s k = None.
Proof.
  intros Hs Hno Hc Hub. unfold parse_parameter_strings.
  set (g := λ name, bt_get name (collect data)). set (st := foldl _ _ data).
  destruct (extend_unreported _ _) as [|? ?] eqn:Ee; [|done]. intros [= <-].
  apply extend_unreported_nil in Ee as [Ee _].
  destruct (errors st) as [|e es] eqn:Es; [|done].
  assert (params_ok s st) as [Hsorted Hp].
  { apply parameter_fold_ok; [done|done| |done]. split; [done|]. intros k v []%not_elem_of_nil. }
  assert (∀ k, k ∈ (params st).*1 → lookup_alias s k = None) as Hal.
  { intros k ([k' x] & -> & Hin)%list_elem_of_fmap. by destruct (Hp _ _ Hin). }
  split; [|by exists (params st)].
  apply conforms_object; [done|..].
  - intros k x o p Hin Hl. apply verify_json_decides. rewrite (no_one_of_lookup s _ NoTypeData) in Hl by done.
    destruct (Hp _ _ Hin) as [_ Hv]. rewrite Hl in Hv. destruct p; try done.
    destruct Hv as (l & -> & Hv). apply verify_array_ok. split; [|done].
    apply lookup_schema_elem in Hl as [name Hl]. unfold unbounded_arrays in Hub. rewrite forallb_elem in Hub.
    specialize (Hub _ Hl). simpl in Hub. split; intros m ->; [done|by destruct min_len].
  - intros k ([k' x] & -> & Hin)%list_elem_of_fmap Hl. rewrite (no_one_of_lookup s _ NoTypeData) in Hl by done.
    destruct (Hp _ _ Hin) as [_ Hv]. simpl in Hl. by rewrite Hl in Hv.
  - split; [intros k c Hk Hc'; by rewrite Hal in Hc'|].
    assert (omap (lookup_alias s) (params st).*1 = []) as ->; [|constructor].
    clear -Hal. induction ((params st).*1) as [|k l IH]; [done|]. cbn [omap list_omap].
    rewrite Hal by by left. apply IH. intros k' Hk'. apply Hal. by right.
  - intros name p Hin. left. rewrite (no_one_of_properties s _ g) in Hin by done.
    assert (List.filter (λ e : entry, negb e.1.2 && is_null (param_at st e.1.1)) (all_properties s g) = []) as Hf.
    { by destruct (List.filter _ _). }
    rewrite filter_nil in Hf. specialize (Hf _ Hin). cbn [fst snd negb andb] in Hf.
    intros E. unfold param_at in Hf. by rewrite E in Hf.
  - by apply no_one_of_types.
Qed.

(** [C28] What the parser of key/value strings accepts, with the required
    parameters tested, conforms to the schema, for every object schema without
    choices whose arrays have no bounds on their length, and its keys are
    canonical names. *)
Theorem parse_parameter_strings_conforms s data v :
  combined s → no_one_of s = true → canonical_aliases s = true → unbounded_arrays s = true →
  parse_parameter_strings s data true = Ok v →
  conforms s v ∧ ∃ m, v = VObject m ∧ bt_sorted m ∧ ∀ k, k ∈ m.*1 → lookup_alias s k = None.
Proof. apply parse_parameter_strings_accepted. Qed.
End Parsing.

(** ** Texts of scalar values *)
Section Scalars.
Context {F : F64Text} (show : f64 → rstr).
Context (show_read : ∀ x, f64_valid x = true → f64_is_finite x = true → f64_from_str (show x) = Some x).

(** A value of the form that the parser produces for the schema. *)
Definition scalar_form (s : Schema) (v : Value) : Prop :=
  match s with
  | SBoolean _ => ∃ b, v = VBool b
  | SInteger _ => ∃ z, (- 2 ^ 63 ≤ z < 2 ^ 63)%Z ∧ v = VNumber (number_from_i64 z)
  | SNumber _ => ∃ x, f64_valid x = true ∧ f64_is_finite x = true ∧ v = VNumber (Float x)
  | SString _ => ∃ t, v = VString t
  | _ => False
  end.

Definition scalar_text (v : Value) : rstr :=
  match v with
  | VBool b => if b then lit "true" else lit "false"
  | VNumber (PosInt n) => dec (Z.to_N n)
  | VNumber (NegInt i) => show_i64 i
  | VNumber (Float x) => show x
  | VString t => t
  | _ => []
  end.

Lemma scalar_text_i64 z : scalar_text (VNumber (number_from_i64 z)) = show_i64 z.
Proof. unfold number_from_i64. destruct (z <? 0)%Z eqn:E; simpl; [done|]. unfold show_i64. by rewrite E. Qed.

Lemma scalar_form_text s v :
  verify_json s v = Ok tt → scalar_form s v → parse_simple_value s (scalar_text v) = Ok v.
Proof.
  unfold verify_json. destruct s as [| |i|n|c|a ps d al|items mn mx|l|tp o ts vs]; try done; simpl depth; cbn [verify_fuel].
  - intros _ [b ->]. by destruct b.
  - intros Hv (z & Hz & ->). rewrite as_i64_number in Hv by done. apply map_err_ok in Hv.
    rewrite scalar_text_i64. cbn [parse_simple_value]. rewrite parse_i64_show by done. cbn [ok_or rbind]. by rewrite Hv.
  - intros Hv (x & Hx & Hf & ->). cbn [as_f64] in Hv. apply map_err_ok in Hv.
    cbn [parse_simple_value scalar_text]. rewrite show_read by done. cbn [ok_or rbind]. rewrite Hv. cbn [map_err rbind].
    unfold number_from_f64. by rewrite Hf.
  - intros Hv (t & ->). cbn [as_str] in Hv. apply map_err_ok in Hv. cbn [parse_simple_value scalar_text]. by rewrite Hv.
Qed.
End Scalars.

(** ** Examples *)
Definition plain_string : Schema := SString {| min_length := None; max_length := None; format := None; format_is_optional := false |}.
Definition job_schema : Schema :=
  SObject false
    [(lit "count", true, SInteger {| minimum := Some 0%Z; maximum := Some 10%Z |});
     (lit "name", false, plain_string);
     (lit "tags", true, SArray plain_string None None)]
    None [(lit "title", lit "name")].

Lemma parse_parameter_strings_conforms_witness :
  conforms job_schema
    (VObject [(lit "count", VNumber (PosInt 3)); (lit "name", VString (lit "a"));
              (lit "tags", VArray [VString (lit "x"); VString (lit "y")])]).
Proof.
  apply (parse_parameter_strings_conforms (F := f64_text) job_schema
    [(lit "title", lit "a"); (lit "tags", lit "x"); (lit "count", lit "3"); (lit "tags", lit "y")]);
    [exact I|vm_compute; reflexivity..].
Defined.

(** The lengths of arrays are verified, but not tested when parameters are parsed. *)
Lemma parse_parameters_array_length :
  let s := SObject false [(lit "tags", false, SArray plain_string (Some 2%N) None)] None [] in
  let v := VObject [(lit "tags", VArray [VString (lit "x")])] in
  parse_parameter_strings (H := f64_text) s [(lit "tags", lit "x")] true = Ok v ∧
  verify_json s v = Err (Param [(lit "tags", Msg (ArrayTooShort 2))]).
Proof. split; vm_compute; reflexivity. Qed.

(** A choice between two objects accepts neither. *)
Lemma one_of_rejects_its_variants :
  let a := SObject false [(lit "payload", false, plain_string)] None [] in
  let s := SOneOf (lit "kind") false plain_string [(lit "a", a)] in
  let v := VObject [(lit "kind", VString (lit "a")); (lit "payload", VString (lit "x"))] in
  verify_json s v = Err (Param [(lit "kind", Msg AdditionalProperty)]) ∧
  verify_json (SAllOf [s]) v = Ok tt ∧
  parse_parameter_strings (H := f64_text) s [(lit "kind", lit "a"); (lit "payload", lit "x")] true = Ok v.
Proof. split_and!; vm_compute; reflexivity. Qed.

(** ** The iterator over the properties *)

Section Iterator.
Context (get_type : type_field).

Definition frame_list (f : PropertiesIter) : list entry :=
  match f with
  | IterObject l => l
  | IterAllOf l => flat_map (λ e, all_properties e get_type) l
  | IterOneOfType tp o ts vs => all_properties (SOneOf tp o ts vs) get_type
  | IterOneOfVariants l => flat_map (λ v, all_properties v.2 get_type) l
  end.

(** The iterations that a schema, and a frame, are good for. *)
Fixpoint steps (s : Schema) : nat :=
  match s with
  | SObject _ properties _ _ => 2 + length properties
  | SAllOf l => 2 + foldr (λ e n, S (steps e + n)) 0 l
  | SOneOf _ _ _ vs => 3 + foldr (λ v n, S (steps v.2 + n)) 0 vs
  | _ => 0
  end.

Definition frame_steps (f : PropertiesIter) : nat :=
  match f with
  | IterObject l => 1 + length l
  | IterAllOf l => 1 + foldr (λ e n, S (steps e + n)) 0 l
  | IterOneOfType _ _ _ vs => 2 + foldr (λ v n, S (steps v.2 + n)) 0 vs
  | IterOneOfVariants l => 1 + foldr (λ v n, S (steps v.2 + n)) 0 l
  end.

Definition stack_steps (stack : list PropertiesIter) : nat := foldr (λ f n, frame_steps f + n) 0 stack.

Lemma push_iter_list s stack : flat_map frame_list (push_iter s stack) = all_properties s get_type ++ flat_map frame_list stack.
Proof. by destruct s. Qed.

Lemma push_iter_steps s stack : stack_steps (push_iter s stack) ≤ steps s + stack_steps stack.
Proof. destruct s; simpl; lia. Qed.

Lemma enter_condition_steps tp vs :
  foldr (λ v n, S (steps v.2 + n)) 0 (enter_condition get_type tp vs) ≤ foldr (λ v n, S (steps v.2 + n)) 0 vs.
Proof.
  unfold enter_condition. destruct (get_type tp) as [variant|]; [|simpl; lia].
  induction vs as [|[n s] vs IH]; simpl; [lia|]. case_decide; simpl; [lia|].
  destruct (with_variant id variant vs); simpl in *; lia.
Qed.

Lemma next_step_ok stack item stack' :
  next_step get_type stack = Some (item, stack') →
  flat_map frame_list stack = match item with Some e => [e] | None => [] end ++ flat_map frame_list stack' ∧
  stack_steps stack' < stack_steps stack.
Proof.
  destruct stack as [|[[|e l]|[|s l]|tp o ts vs|[|[n s] l]] stack]; simpl; try done;
    intros [= <- <-]; try (split; [done|simpl; lia]).
  - rewrite push_iter_list. split; [simpl; by rewrite app_assoc|].
    pose proof (push_iter_steps s (IterAllOf l :: stack)). simpl in *. lia.
  - split.
    + simpl. f_equal. f_equal. unfold enter_condition. destruct (get_type tp) as [variant|]; [|done].
      rewrite with_variant_map. destruct (with_variant id variant vs); simpl; [by rewrite app_nil_r|done].
    + pose proof (enter_condition_steps tp vs). simpl. lia.
  - rewrite push_iter_list. split; [simpl; by rewrite app_assoc|].
    pose proof (push_iter_steps s (IterOneOfVariants l :: stack)). simpl in *. lia.
Qed.

Lemma iterate_stack fuel stack : stack_steps stack < fuel → iterate get_type fuel stack = Some (flat_map frame_list stack).
Proof.
  revert stack. induction fuel as [|fuel IH]; intros stack Hf; [lia|]. simpl.
  destruct (next_step get_type stack) as [[item stack']|] eqn:E.
  - apply next_step_ok in E as [-> Hs]. rewrite IH by lia. simpl. by destruct item.
  - by destruct stack as [|[[]|[]|tp o ts vs|[|[]]] stack].
Qed.
End Iterator.

(** The iterator over the properties of an object schema ends, and yields
    the properties of the schema, of all combined schemas and of the active
    variants, each type property in front of its variant. *)
Theorem all_properties_iterator s g extra :
  iterate g (S (steps s) + extra) (push_iter s []) = Some (all_properties s g).
Proof.
  rewrite iterate_stack; [by rewrite push_iter_list, app_nil_r|].
  pose proof (push_iter_steps s []). simpl in *. lia.
Qed.
