(* ===== verification/SectionConfig.v ===== *)
(** * SectionConfig: section configuration files

    Models [proxmox-section-config/src/lib.rs]: the configuration data, the
    writer, and the parser, a state machine over the lines of the file that
    collects the properties of a section and checks them with the schema of its
    type when the section ends. The syntax, default or systemd, is a record of
    four functions as in the source. A hash map is a finite map; where the code
    iterates over one, the order is an argument. File names and the wording of
    messages are left out; the line number of an error is kept. *)
From stdpp Require Import gmap.
From S2P Require Import Prelude Schema F64 Json ObjectSchema.

(** [char::is_alphabetic] is a table of the Unicode standard; only this is used
    of it. *)
Class Alphabetic := is_alphabetic : rchar → bool.

(** [char::is_control]: the Unicode category Cc. *)
Definition is_control (c : rchar) : bool := ((c <=? 31) || ((127 <=? c) && (c <=? 159)))%N.

Inductive ConfigError :=
| ExpectedHeader
| ExpectedProperties
| UnknownSectionType (type : rstr)
| SectionIdentifier (e : SError)
| UnknownProperty (key : rstr)
| PropertyError (key : rstr) (e : SError)
| DuplicateProperty (key : rstr)
| MissingSectionProperty (key : rstr)
| SectionError (e : SError)
| ControlCharacter
| UnsupportedValue
| UnexpectedValue
| NotAnArrayPanic
| UnexpectedSectionType
| NotAnObject.

Record SectionConfigPlugin := mkPlugin {
  type_name : rstr;
  properties : Schema;
  id_property : option rstr;
  plugin_type_key : option rstr
}.

Record Syntax := mkSyntax {
  parse_section_header : rstr → option (rstr * rstr);
  parse_section_content : rstr → option (rstr * rstr);
  format_section_header : rstr → rstr → Value → result rstr ConfigError;
  format_section_content : rstr → rstr → rstr → Value → result rstr ConfigError
}.

Record SectionConfig := mkConfig {
  plugins : gmap rstr SectionConfigPlugin;
  id_schema : Schema;
  syntax : Syntax;
  allow_unknown_sections : bool;
  type_key : option rstr
}.

Record SectionConfigData := mkData {
  sections : gmap rstr (rstr * Value);
  order : list rstr
}.

Definition register_plugin (c : SectionConfig) (p : SectionConfigPlugin) : SectionConfig :=
  mkConfig (<[p.(type_name) := p]> c.(plugins)) c.(id_schema) c.(syntax) c.(allow_unknown_sections) c.(type_key).

Definition get_id_schema (p : SectionConfigPlugin) : option Schema :=
  match p.(id_property) with
  | Some id_prop => snd <$> lookup_schema p.(properties) id_prop NoTypeData
  | None => None
  end.

(** ** The data *)
Definition data_new : SectionConfigData := mkData ∅ [].
Definition set_data (d : SectionConfigData) (section_id type_name : rstr) (config : Value) : SectionConfigData :=
  mkData (<[section_id := (type_name, config)]> d.(sections)) d.(order).
Definition record_order (d : SectionConfigData) (section_id : rstr) : SectionConfigData :=
  mkData d.(sections) (d.(order) ++ [section_id]).

Inductive LookupError := UnexpectedType (type : rstr) | NoSuchSection.

Definition lookup_json (d : SectionConfigData) (type_name id : rstr) : result Value LookupError :=
  match d.(sections) !! id with
  | Some (section_type, config) =>
      if decide (type_name = section_type) then Ok config else Err (UnexpectedType section_type)
  | None => Err NoSuchSection
  end.

(** [config[key] = value] of an object. *)
Definition value_set (v : Value) (key : rstr) (x : Value) : Value :=
  match v with
  | VObject m => VObject (bt_insert key x m)
  | _ => v
  end.

(** [json!({type_key: section_type})] or [json!({})]. *)
Definition section_data (type_key : option rstr) (section_type : rstr) : Value :=
  match type_key with
  | Some k => VObject [(k, VString section_type)]
  | None => VObject []
  end.

(** [Option::or]. *)
Definition opt_or {A} (a b : option A) : option A := match a with Some _ => a | None => b end.

Section Config.
Context `{F64Text} `{Alphabetic}.

(** ** The default syntax *)
Definition default_format_section_header (type_name section_id : rstr) (_ : Value) : result rstr ConfigError :=
  Ok (type_name ++ lit ": " ++ section_id ++ [10%N]).

(** The text of a value that is not an array; [None] is a value to leave out. *)
Definition value_text (v : Value) : result (option rstr) ConfigError :=
  match v with
  | VNull => Ok None
  | VBool b => Ok (Some (if b then lit "true" else lit "false"))
  | VString s => Ok (Some s)
  | VNumber n => Ok (Some (number_to_string n))
  | VArray _ | VObject _ => Err UnsupportedValue
  end.

Section Content.
Context (format_line : rstr → rstr).

(** [default_format_section_content] and [systemd_format_section_content], which
    differ in the line for a text. *)
Definition format_scalar (v : Value) : result rstr ConfigError :=
  let? t := value_text v in
  match t with
  | None => Ok []
  | Some text => if existsb is_control text then Err ControlCharacter else Ok (format_line text)
  end.

Fixpoint format_content (v : Value) : result rstr ConfigError :=
  match v with
  | VArray array =>
      (fix items l := match l with
                      | [] => Ok []
                      | item :: l' => let? line := format_content item in
                                      let? rest := items l' in Ok (line ++ rest)
                      end) array
  | _ => format_scalar v
  end.
End Content.

Definition default_format_section_content (_ _ key : rstr) (v : Value) : result rstr ConfigError :=
  format_content (λ text, 9%N :: key ++ [32%N] ++ text ++ [10%N]) v.

(** [splitn(2, p)]: the part before the first separator and the rest, if there is one. *)
Fixpoint split_once (p : rchar → bool) (s : rstr) : rstr * option rstr :=
  match s with
  | [] => ([], None)
  | c :: s' => if p c then ([], Some s') else let '(a, r) := split_once p s' in (c :: a, r)
  end.

Definition default_parse_section_content (line : rstr) : option (rstr * rstr) :=
  match line with
  | [] => None
  | first_char :: _ =>
      if negb (is_whitespace first_char) then None
      else
        let '(k, rest) := split_once is_whitespace (trim_start line) in
        match trim k with
        | [] => None
        | key => match rest with
                 | Some v => Some (key, trim v)
                 | None => None
                 end
        end
  end.

Definition default_parse_section_header (line : rstr) : option (rstr * rstr) :=
  match line with
  | [] => None
  | first_char :: _ =>
      if negb (is_alphabetic first_char) then None
      else
        let '(t, rest) := split_once (λ c, (c =? 58)%N) line in
        match trim t with
        | [] => None
        | section_type => match rest with
                          | Some v => Some (section_type, trim v)
                          | None => None
                          end
        end
  end.

Definition default_syntax : Syntax :=
  mkSyntax default_parse_section_header default_parse_section_content
    default_format_section_header default_format_section_content.

(** ** The systemd syntax *)
Definition systemd_format_section_header (type_name section_id : rstr) (_ : Value) : result rstr ConfigError :=
  if decide (type_name = section_id) then Ok (lit "[" ++ section_id ++ lit "]" ++ [10%N])
  else Err UnexpectedSectionType.

Definition systemd_format_section_content (_ _ key : rstr) (v : Value) : result rstr ConfigError :=
  format_content (λ text, key ++ [61%N] ++ text ++ [10%N]) v.

Definition systemd_parse_section_content (line : rstr) : option (rstr * rstr) :=
  match trim_end line with
  | [] => None
  | (c :: _) as line =>
      if is_whitespace c then None
      else match split_once (λ c, (c =? 61)%N) line with
           | (key, Some value) => Some (trim_end key, trim_start value)
           | (_, None) => None
           end
  end.

Definition systemd_parse_section_header (line : rstr) : option (rstr * rstr) :=
  match trim_end line with
  | [] => None
  | (c :: rest) as line =>
      if negb (c =? 91)%N then None
      else match last line with
           | Some 93%N =>
               match trim (removelast rest) with
               | [] => None
               | section => Some (section, section)
               end
           | _ => None
           end
  end.

Definition systemd_syntax : Syntax :=
  mkSyntax systemd_parse_section_header systemd_parse_section_content
    systemd_format_section_header systemd_format_section_content.

(** ** The writer *)

(** The sections in the recorded order, then the others in the order in which the
    hash map yields them. *)
Definition write_order (d : SectionConfigData) (keys : list rstr) : list rstr :=
  let recorded := List.filter (λ id, bool_decide (is_Some (d.(sections) !! id))) d.(order) in
  recorded ++ List.filter (λ id, negb (bool_decide (id ∈ recorded))) keys.

Fixpoint write_properties (format : rstr → Value → result rstr ConfigError) (skip : rstr → bool)
    (m : list (rstr * Value)) : result rstr ConfigError :=
  match m with
  | [] => Ok []
  | (key, value) :: m' =>
      if skip key then write_properties format skip m'
      else let? line := format key value in
           let? rest := write_properties format skip m' in Ok (line ++ rest)
  end.

(** [plugin.type_key], or else that of the configuration. *)
Definition section_type_key (c : SectionConfig) (p : SectionConfigPlugin) : option rstr :=
  opt_or p.(plugin_type_key) c.(type_key).

(** Id and type are part of the section header. *)
Definition skip_key (c : SectionConfig) (p : SectionConfigPlugin) (key : rstr) : bool :=
  bool_decide (p.(id_property) = Some key) || bool_decide (p.(plugin_type_key) = Some key) ||
  (match p.(plugin_type_key) with None => true | Some _ => false end && bool_decide (c.(type_key) = Some key)).

Definition as_object (v : Value) : option (list (rstr * Value)) :=
  match v with VObject m => Some m | _ => None end.

(** The text of one section. *)
Definition write_section (c : SectionConfig) (section_id type_name : rstr) (section_config : Value) :
    result rstr ConfigError :=
  match c.(plugins) !! type_name with
  | Some plugin =>
      let? _ := map_err SectionIdentifier
                  (parse_simple_value (default c.(id_schema) (get_id_schema plugin)) section_id) in
      if existsb is_control section_id then Err ControlCharacter
      else
        let? _ := map_err SectionError (verify_json plugin.(properties) section_config) in
        let? header := c.(syntax).(format_section_header) type_name section_id section_config in
        let? m := ok_or (as_object section_config) NotAnObject in
        let? content := write_properties (c.(syntax).(format_section_content) type_name section_id)
                          (skip_key c plugin) m in
        Ok (header ++ content)
  | None =>
      if c.(allow_unknown_sections) then
        if existsb is_control section_id then Err ControlCharacter
        else
          let? header := c.(syntax).(format_section_header) type_name section_id section_config in
          let? m := ok_or (as_object section_config) NotAnObject in
          let? content := write_properties (c.(syntax).(format_section_content) type_name section_id) (λ _, false) m in
          Ok (header ++ content)
      else Err (UnknownSectionType type_name)
  end.

Fixpoint write_sections (c : SectionConfig) (d : SectionConfigData) (raw : rstr) (list : list rstr) :
    result rstr ConfigError :=
  match list with
  | [] => Ok raw
  | section_id :: list' =>
      match d.(sections) !! section_id with
      | Some (type_name, section_config) =>
          let? text := write_section c section_id type_name section_config in
          write_sections c d (raw ++ match raw with [] => [] | _ => [10%N] end ++ text) list'
      | None => Err NotAnObject
      end
  end.

Definition write_do (c : SectionConfig) (d : SectionConfigData) (keys : list rstr) : result rstr ConfigError :=
  write_sections c d [] (write_order d keys).

(** ** The parser *)
Record InsideSection := mkInside {
  plugin : SectionConfigPlugin;
  section_id : rstr;
  header_data : Value;
  section_properties : list (nat * rstr * rstr)
}.

Inductive ParseState :=
| BeforeHeader
| Inside (inside : InsideSection)
| InsideUnknown (section_type section_id : rstr) (config : Value).

Definition ADDITIONAL_PROPERTY_SCHEMA : Schema :=
  SString {| min_length := None; max_length := None; format := None; format_is_optional := false |}.

(** [NotAnArrayPanic] is the panic of the [unwrap] for a value that is no array. *)
Definition parse_section_property (config : Value) (s : Schema) (key value : rstr) (type_data : type_field) :
    result Value ConfigError :=
  let? found := match lookup_schema s key type_data with
                | Some (_, SArray items _ _) => Ok (true, items)
                | Some (_, prop_schema) => Ok (false, prop_schema)
                | None => if additional_properties s then Ok (false, ADDITIONAL_PROPERTY_SCHEMA)
                          else Err (UnknownProperty key)
                end in
  let '(is_array, prop_schema) := found in
  let? value := map_err (PropertyError key) (parse_simple_value prop_schema value) in
  if is_array then
    match value_at config key with
    | VNull => Ok (value_set config key (VArray [value]))
    | VArray l => Ok (value_set config key (VArray (l ++ [value])))
    | _ => Err NotAnArrayPanic
    end
  else if is_null (value_at config key) then Ok (value_set config key value)
  else Err (DuplicateProperty key).

Fixpoint test_required (config : Value) (id_property : option rstr) (l : list entry) : result unit ConfigError :=
  match l with
  | [] => Ok tt
  | (name, optional, _) :: l' =>
      if bool_decide (id_property = Some name) then test_required config id_property l'
      else if negb optional && is_null (value_at config name) then Err (MissingSectionProperty name)
      else test_required config id_property l'
  end.

(** [WithTypeField for Value]. *)
Definition value_type (v : Value) : type_field := match v with VObject m => map_type m | _ => NoTypeData end.

Definition test_required_properties (config : Value) (s : Schema) (id_property : option rstr) :
    result unit ConfigError :=
  test_required config id_property (all_properties s (value_type config)).

(** The type of a variant is in the header or in the first line of its name. *)
Definition inside_type (i : InsideSection) : type_field := λ key,
  match as_str (value_at i.(header_data) key) with
  | Some t => Some t
  | None => snd <$> List.find (λ p, bool_decide (p.1.2 = key)) i.(section_properties)
  end.

(** An error is reported with the line of its property. *)
Fixpoint parse_properties (s : Schema) (type_data : type_field) (config : Value)
    (l : list (nat * rstr * rstr)) : result Value (option nat * ConfigError) :=
  match l with
  | [] => Ok config
  | (line, key, value) :: l' =>
      match parse_section_property config s key value type_data with
      | Ok config => parse_properties s type_data config l'
      | Err e => Err (Some line, e)
      end
  end.

Definition finish_section (d : SectionConfigData) (i : InsideSection) :
    result SectionConfigData (option nat * ConfigError) :=
  let p := i.(plugin) in
  let? config := parse_properties p.(properties) (inside_type i) i.(header_data) i.(section_properties) in
  let? config := map_err (λ e, (None, SectionError e)) (canonicalize_aliases p.(properties) config) in
  let? _ := map_err (pair None) (test_required_properties config p.(properties) p.(id_property)) in
  let? _ := match verify_type_fields p.(properties) (value_type config) with
            | [] => Ok tt
            | errs => Err (None, SectionError (Param errs))
            end in
  let config := match p.(id_property) with
                | Some id_property => value_set config id_property (VString i.(section_id))
                | None => config
                end in
  Ok (record_order (set_data d i.(section_id) p.(type_name) config) i.(section_id)).

(** A property of a section whose type is not known. *)
Definition unknown_property (config : Value) (key value : rstr) : result Value ConfigError :=
  match value_at config key with
  | VNull => Ok (value_set config key (VString value))
  | VString current => Ok (value_set config key (VArray [VString current; VString value]))
  | VArray array => Ok (value_set config key (VArray (array ++ [VString value])))
  | _ => Err UnexpectedValue
  end.

Definition parse_header (c : SectionConfig) (line : rstr) : result ParseState ConfigError :=
  match c.(syntax).(parse_section_header) line with
  | Some (section_type, section_id) =>
      match c.(plugins) !! section_type with
      | Some plugin =>
          let? _ := map_err SectionIdentifier
                      (parse_simple_value (default c.(id_schema) (get_id_schema plugin)) section_id) in
          Ok (Inside (mkInside plugin section_id (section_data (section_type_key c plugin) section_type) []))
      | None =>
          if c.(allow_unknown_sections)
          then Ok (InsideUnknown section_type section_id (section_data c.(type_key) section_type))
          else Err (UnknownSectionType section_type)
      end
  | None => Err ExpectedHeader
  end.

(** One line; an error has the number of its line. *)
Definition parse_line (c : SectionConfig) (line_no : nat) (st : ParseState * SectionConfigData) (line : rstr) :
    result (ParseState * SectionConfigData) (nat * ConfigError) :=
  let '(state, d) := st in
  let blank := match trim line with [] => true | _ => false end in
  match state with
  | BeforeHeader =>
      if blank then Ok (BeforeHeader, d)
      else let? state := map_err (pair line_no) (parse_header c line) in Ok (state, d)
  | Inside i =>
      if blank then
        let? d := map_err (λ e, (default line_no e.1, e.2)) (finish_section d i) in Ok (BeforeHeader, d)
      else match c.(syntax).(parse_section_content) line with
           | Some (key, value) =>
               Ok (Inside (mkInside i.(plugin) i.(section_id) i.(header_data)
                             (i.(section_properties) ++ [(line_no, key, value)])), d)
           | None => Err (line_no, ExpectedProperties)
           end
  | InsideUnknown section_type section_id config =>
      if blank then Ok (BeforeHeader, record_order (set_data d section_id section_type config) section_id)
      else match c.(syntax).(parse_section_content) line with
           | Some (key, value) =>
               let? config := map_err (pair line_no) (unknown_property config key value) in
               Ok (InsideUnknown section_type section_id config, d)
           | None => Err (line_no, ExpectedProperties)
           end
  end.

Fixpoint parse_lines (c : SectionConfig) (line_no : nat) (st : ParseState * SectionConfigData) (l : list rstr) :
    result (nat * (ParseState * SectionConfigData)) (nat * ConfigError) :=
  match l with
  | [] => Ok (line_no, st)
  | line :: l' => let? st := parse_line c (S line_no) st line in parse_lines c (S line_no) st l'
  end.

(** The end of the file ends the last section. *)
Definition parse_end (line_no : nat) (st : ParseState * SectionConfigData) :
    result SectionConfigData (nat * ConfigError) :=
  match st with
  | (BeforeHeader, d) => Ok d
  | (Inside i, d) => map_err (λ e, (default line_no e.1, e.2)) (finish_section d i)
  | (InsideUnknown section_type section_id config, d) =>
      Ok (record_order (set_data d section_id section_type config) section_id)
  end.

Definition parse (c : SectionConfig) (raw : rstr) : result SectionConfigData (nat * ConfigError) :=
  let? r := parse_lines c 0 (BeforeHeader, data_new) (lines raw) in
  parse_end r.1 r.2.
End Config.
