(* ===== verification/SectionConfigTheory.v ===== *)
(** * SectionConfigTheory: what is written is read back

    The main result is that a configuration file in the default syntax, written
    from data whose texts survive the syntax, is parsed to the same sections in
    the order in which they were written. The lemmas go from lines and trimming
    over the properties of a section to whole files. *)
From stdpp Require Import gmap.
From S2P Require Import Prelude Schema F64 Json ObjectSchema ObjectSchemaTheory SectionConfig.

Class AlphabeticLaws (A : Alphabetic) : Prop :=
  alphabetic_not_whitespace c : is_alphabetic c = true → is_whitespace c = false.

(** ** Lines *)
Definition unlines (ls : list rstr) : rstr := concat (map (λ l, l ++ [10%N]) ls).

Definition good_line (l : rstr) : Prop := (10%N ∉ l) ∧ last l ≠ Some 13%N.

Lemma strip_cr_good l : last l ≠ Some 13%N → strip_cr l = l.
Proof.
  intros H. unfold strip_cr. destruct l as [|c l _] using rev_ind; [done|].
  rewrite reverse_snoc. rewrite last_snoc in H.
  destruct c as [|p]; [done|]. repeat (destruct p as [p|p|]; try done).
Qed.

Lemma lines_cons l rest : good_line l → lines (l ++ 10%N :: rest) = l :: lines rest.
Proof.
  intros [Hn Hr]. unfold lines. rewrite split_on_app by done.
  pose proof (split_on_nonempty 10%N rest) as Hne. destruct (split_on 10%N rest) as [|w ws]; [done|].
  cbn [lines_of]. by rewrite strip_cr_good.
Qed.

Lemma lines_unlines ls : Forall good_line ls → lines (unlines ls) = ls.
Proof.
  induction 1 as [|l ls Hl _ IH]; [done|]. unfold unlines. simpl. rewrite <- app_assoc. simpl.
  rewrite lines_cons by done. f_equal. exact IH.
Qed.

Lemma unlines_app a b : unlines (a ++ b) = unlines a ++ unlines b.
Proof. unfold unlines. by rewrite map_app, concat_app. Qed.

(** ** Trimming *)
Definition no_ws (s : rstr) : Prop := Forall (λ c, is_whitespace c = false) s.

Lemma drop_while_false {A} (p : A → bool) s : match s with [] => True | c :: _ => p c = false end → drop_while p s = s.
Proof. destruct s as [|c s]; simpl; [done|]. by intros ->. Qed.

Lemma trim_no_ws s : no_ws s → trim s = s.
Proof.
  intros H. unfold trim, trim_end, trim_start. rewrite (drop_while_false _ s).
  - rewrite drop_while_false; [apply reverse_involutive|].
    apply Forall_reverse in H. by destruct H.
  - by destruct H.
Qed.

Lemma trim_start_ws c s : is_whitespace c = true → trim_start (c :: s) = trim_start s.
Proof. intros H. unfold trim_start. simpl. by rewrite H. Qed.

Lemma drop_while_app_false {A} (p : A → bool) s c t : p c = false → drop_while p (s ++ c :: t) ≠ [].
Proof. intros Hc. induction s as [|x s IH]; simpl; [by rewrite Hc|]. by destruct (p x). Qed.

(** A line with a character that is not white space is not blank. *)
Lemma trim_not_blank c s : c ∈ s → is_whitespace c = false → trim s ≠ [].
Proof.
  intros Hin Hc. unfold trim, trim_end. intros E%(f_equal reverse). rewrite reverse_involutive in E.
  change (reverse []) with (@nil rchar) in E. revert E.
  assert (c ∈ trim_start s) as (a & b & ->)%list_elem_of_split.
  { clear -Hin Hc. unfold trim_start. induction s as [|x s IH]; [done|]. simpl. destruct (is_whitespace x) eqn:Ex; [|done].
    apply elem_of_cons in Hin as [->|Hin]; [congruence|auto]. }
  rewrite reverse_app, reverse_cons, <- app_assoc. simpl. by apply drop_while_app_false.
Qed.

Lemma split_once_app (p : rchar → bool) a c r :
  Forall (λ x, p x = false) a → p c = true → split_once p (a ++ c :: r) = (a, Some r).
Proof. intros Ha Hc. induction Ha as [|x a Hx _ IH]; simpl; [by rewrite Hc|]. by rewrite Hx, IH. Qed.

(** ** Lines of the default syntax *)
Definition content_line (kt : rstr * rstr) : rstr := 9%N :: kt.1 ++ [32%N] ++ kt.2.
Definition header_line (type id : rstr) : rstr := type ++ [58%N; 32%N] ++ id.

Definition good_key (k : rstr) : Prop := k ≠ [] ∧ no_ws k.
Definition no_control (s : rstr) : Prop := existsb is_control s = false.

Lemma no_control_elem s c : no_control s → c ∈ s → is_control c = false.
Proof.
  unfold no_control. intros H Hin. destruct (is_control c) eqn:E; [|done].
  rewrite <- H. symmetry. apply existsb_exists. exists c. split; [by apply list_elem_of_In|done].
Qed.

Lemma no_ws_not_nl s : no_ws s → 10%N ∉ s.
Proof. intros H Hin. unfold no_ws in H. rewrite Forall_forall in H. by specialize (H _ Hin). Qed.

Lemma no_control_not_nl s : no_control s → 10%N ∉ s.
Proof. intros H Hin. by apply (no_control_elem _ _ H) in Hin. Qed.

Lemma last_app_no_control s t : t ≠ [] → no_control t → last (s ++ t) ≠ Some 13%N.
Proof.
  intros Hne Ht. rewrite last_app. destruct (last t) as [c|] eqn:E; [|by apply last_None in E].
  intros [= ->]. apply last_Some_elem_of in E. by apply (no_control_elem _ _ Ht) in E.
Qed.

Lemma content_line_good k t : good_key k → no_control t → good_line (content_line (k, t)).
Proof.
  intros [Hne Hk] Ht. unfold content_line. simpl. split.
  - rewrite not_elem_of_cons, not_elem_of_app, not_elem_of_cons. split_and!; [done|by apply no_ws_not_nl|done|by apply no_control_not_nl].
  - change (9%N :: k ++ 32%N :: t) with ((9%N :: k) ++ [32%N] ++ t). rewrite app_assoc.
    destruct t as [|c t]; [rewrite app_nil_r, last_snoc; done|]. by apply last_app_no_control.
Qed.

Lemma parse_content_line k t : good_key k → default_parse_section_content (content_line (k, t)) = Some (k, trim t).
Proof.
  intros [Hne Hk]. unfold content_line, default_parse_section_content. cbn [fst snd].
  rewrite trim_start_ws by done. destruct Hk as [|c k Hc Hk]; [done|]. cbn [negb is_whitespace].
  replace (trim_start ((c :: k) ++ [32%N] ++ t)) with ((c :: k) ++ 32%N :: t).
  2: { unfold trim_start. by rewrite drop_while_false. }
  rewrite split_once_app by (try done; by constructor). by rewrite trim_no_ws by by constructor.
Qed.

Lemma content_line_not_blank k t : good_key k → trim (content_line (k, t)) ≠ [].
Proof.
  intros [Hne Hk]. destruct Hk as [|c k Hc Hk]; [done|]. apply (trim_not_blank c); [|done].
  unfold content_line. simpl. right. by left.
Qed.

Section Header.
Context {A : Alphabetic} {AL : AlphabeticLaws A}.

Definition good_type (t : rstr) : Prop :=
  (∃ c r, t = c :: r ∧ is_alphabetic c = true) ∧ (58%N ∉ t) ∧ (10%N ∉ t) ∧ trim t = t.

Lemma header_line_good t id : good_type t → no_control id → good_line (header_line t id).
Proof.
  intros (_ & _ & Hn & _) Hid. unfold header_line. split.
  - rewrite !not_elem_of_app, !not_elem_of_cons. split_and!; try done; [|by apply no_control_not_nl].
    apply not_elem_of_nil.
  - rewrite app_assoc. destruct id as [|c id]; [rewrite app_nil_r|by apply last_app_no_control].
    by rewrite (last_app t [58%N; 32%N]).
Qed.

Lemma parse_header_line t id : good_type t → default_parse_section_header (header_line t id) = Some (t, trim id).
Proof.
  intros ((c & r & Ht & Hc) & Hcolon & _ & Htrim). unfold header_line, default_parse_section_header.
  change (t ++ [58%N; 32%N] ++ id) with (t ++ 58%N :: 32%N :: id).
  rewrite split_once_app; [|apply Forall_forall; intros x Hx; apply N.eqb_neq; by intros ->|done].
  rewrite Htrim, Ht. cbn [app]. rewrite Hc. cbn [negb]. unfold trim at 1. by rewrite trim_start_ws.
Qed.

Lemma header_line_not_blank t id : good_type t → trim (header_line t id) ≠ [].
Proof.
  intros ((c & r & -> & Hc) & _). apply (trim_not_blank c); [by left|by apply alphabetic_not_whitespace].
Qed.
End Header.

(** ** The texts of the values *)
Section Fields.
Context {F : F64Text} {FL : F64TextLaws F} {A : Alphabetic}.

Definition scalar_texts (v : Value) : list rstr :=
  match value_text v with Ok (Some t) => [t] | _ => [] end.

Definition texts (v : Value) : list rstr :=
  match v with VArray l => flat_map scalar_texts l | _ => scalar_texts v end.

(** The lines of the properties that are not part of the header. *)
Definition fields (skip : rstr → bool) (m : list (rstr * Value)) : list (rstr * rstr) :=
  flat_map (λ kv, if skip kv.1 then [] else map (pair kv.1) (texts kv.2)) m.

(** Values that the format has a place for. *)
Definition flat (v : Value) : Prop :=
  match v with
  | VArray l => ∀ x, x ∈ l → match x with VArray _ | VObject _ => False | _ => True end
  | VObject _ => False
  | _ => True
  end.

Lemma format_scalar_texts line v r :
  match v with VArray _ | VObject _ => False | _ => True end →
  format_scalar line v = Ok r → r = concat (map line (scalar_texts v)) ∧ Forall no_control (scalar_texts v).
Proof.
  unfold format_scalar, scalar_texts. intros Hv. destruct v; try done; simpl; try (by intros [= <-]);
    destruct (existsb is_control _) eqn:E; try done; intros [= <-]; rewrite app_nil_r;
    (split; [done|by repeat constructor]).
Qed.

Lemma format_content_texts line v r :
  flat v → format_content line v = Ok r → r = concat (map line (texts v)) ∧ Forall no_control (texts v).
Proof.
  pose proof (format_scalar_texts line v r) as Hs. destruct v as [|b|n|s|l|m]; try exact Hs. clear Hs.
  cbn [format_content texts flat].
  revert r. induction l as [|x l IH]; intros r Hl; [by intros [= <-]|].
  assert (format_content line x = format_scalar line x) as -> by (specialize (Hl x ltac:(by left)); by destruct x).
  destruct (format_scalar line x) as [a|] eqn:Ea; [|done]. cbn [rbind].
  apply format_scalar_texts in Ea as [-> Ha]; [|apply Hl; by left].
  specialize (λ r, IH r (λ y Hy, Hl y (list_elem_of_further _ _ _ Hy))).
  match goal with |- rbind ?f _ = _ → _ => destruct f as [b|]; [|done] end. cbn [rbind]. intros [= <-].
  destruct (IH b eq_refl) as [-> Hb].
  cbn [flat_map]. rewrite map_app, concat_app. split; [done|by apply Forall_app].
Qed.

Lemma write_properties_fields ty id skip m r :
  (∀ k v, (k, v) ∈ m → skip k = false → flat v) →
  write_properties (default_format_section_content ty id) skip m = Ok r →
  r = unlines (map content_line (fields skip m)) ∧ Forall (λ kt, no_control kt.2) (fields skip m).
Proof.
  revert r. induction m as [|[k v] m IH]; intros r Hm; [by intros [= <-]|]. cbn [write_properties].
  unfold fields. cbn [flat_map fst snd]. fold (fields skip m).
  destruct (skip k) eqn:Ek; [apply IH; intros ? ? ?; apply Hm; by right|].
  destruct (default_format_section_content ty id k v) as [a|] eqn:Ea; [|done]. cbn [rbind].
  apply format_content_texts in Ea as [-> Ha]; [|apply (Hm k); [by left|done]].
  destruct (write_properties _ skip m) as [b|]; [|done]. cbn [rbind]. intros [= <-].
  destruct (IH b) as [-> Hb]; [intros ? ? ?; apply Hm; by right|done|]. split.
  - rewrite map_app, unlines_app. f_equal. unfold unlines. rewrite !map_map. f_equal. apply map_ext. intros t.
    unfold content_line. simpl. by rewrite <- !app_assoc.
  - apply Forall_app. split; [|done]. apply Forall_fmap. eapply Forall_impl; [exact Ha|done].
Qed.

Lemma fields_key skip m kt : kt ∈ fields skip m → ∃ v, (kt.1, v) ∈ m ∧ skip kt.1 = false.
Proof.
  unfold fields. rewrite elem_of_flat_map. intros ([k v] & Hin & Hkt). simpl in Hkt.
  destruct (skip k) eqn:E; [by apply not_elem_of_nil in Hkt|].
  apply list_elem_of_fmap in Hkt as (t & -> & _). by exists v.
Qed.

(** ** Values and their texts *)
Definition readable (s : Schema) (v : Value) : Prop :=
  scalar_form s v ∧ ∀ t, v = VString t → trim t = t.

Lemma number_char_no_ws s : Forall (λ c, number_char c = true) s → no_ws s.
Proof.
  intros H. eapply Forall_impl; [exact H|]. intros c Hc.
  unfold number_char, is_ascii_digit in Hc. unfold is_whitespace. lia.
Qed.

Lemma readable_text s v :
  verify_json s v = Ok tt → readable s v →
  ∃ t, scalar_texts v = [t] ∧ trim t = t ∧ parse_simple_value s t = Ok v.
Proof.
  intros Hv [Hf Ht]. exists (scalar_text f64_to_string v).
  split_and!; [| |apply scalar_form_text; [apply f64_from_to_string|done..]].
  - destruct s; try done; simpl in Hf.
    + by destruct Hf as [[] ->].
    + destruct Hf as (z & _ & ->). unfold scalar_texts. simpl. by destruct (number_from_i64 z).
    + by destruct Hf as (x & _ & _ & ->).
    + by destruct Hf as [t ->].
  - destruct s; try done; simpl in Hf.
    + by destruct Hf as [[] ->].
    + destruct Hf as (z & _ & ->). rewrite scalar_text_i64. apply trim_no_ws, number_char_no_ws, show_i64_chars.
    + destruct Hf as (x & _ & Hx & ->). by apply trim_no_ws, number_char_no_ws, f64_to_string_chars.
    + destruct Hf as [t ->]. by apply Ht.
Qed.

(** ** Parsing the properties of a section *)
Fixpoint numbered (n : nat) (l : list (rstr * rstr)) : list (nat * rstr * rstr) :=
  match l with
  | [] => []
  | kt :: l' => (n, kt.1, kt.2) :: numbered (S n) l'
  end.

Lemma numbered_app n a b : numbered n (a ++ b) = numbered n a ++ numbered (n + length a) b.
Proof.
  revert n. induction a as [|x a IH]; intros n; simpl; [by rewrite Nat.add_0_r|].
  rewrite IH. by replace (S n + length a) with (n + S (length a)) by lia.
Qed.

(** A text that is read as the value. *)
Definition reads (s : Schema) (v : Value) : Prop :=
  ∃ t, scalar_texts v = [t] ∧ trim t = t ∧ parse_simple_value s t = Ok v.

Definition entry_ok (s : Schema) (g : type_field) (k : rstr) (v : Value) : Prop :=
  match lookup_schema s k g with
  | Some (_, SArray items _ _) => ∃ l, v = VArray l ∧ l ≠ [] ∧ ∀ x, x ∈ l → reads items x
  | Some (_, p) => reads p v
  | None => additional_properties s = true ∧ ∃ t, v = VString t ∧ trim t = t
  end.

Lemma reads_texts s v : reads s v → ∃ t, texts v = [t] ∧ trim t = t ∧ parse_simple_value s t = Ok v.
Proof. intros (t & Ht & H). exists t. split; [|done]. destruct v; done. Qed.

Section ParseEntry.
Context (s : Schema) (g : type_field).

Lemma parse_property_scalar cm k t v p is_opt :
  lookup_schema s k g = Some (is_opt, p) → (∀ items mn mx, p ≠ SArray items mn mx) →
  parse_simple_value p t = Ok v → bt_get k cm = None →
  parse_section_property (VObject cm) s k t g = Ok (VObject (bt_insert k v cm)).
Proof.
  intros El Hp Ht Hk. unfold parse_section_property. rewrite El.
  destruct p; try (by destruct (Hp p min_len max_len)); cbn [rbind]; rewrite Ht; cbn [map_err rbind value_at];
    by rewrite Hk.
Qed.

Lemma parse_items items o mn mx k cm n l rest acc :
  lookup_schema s k g = Some (o, SArray items mn mx) → (∀ x, x ∈ l → reads items x) →
  parse_properties s g (VObject (bt_insert k (VArray acc) cm)) (numbered n (map (pair k) (flat_map scalar_texts l)) ++ rest) =
  parse_properties s g (VObject (bt_insert k (VArray (acc ++ l)) cm)) rest.
Proof.
  intros El. revert n acc. induction l as [|x l IH]; intros n acc Hl; [by rewrite app_nil_r|].
  destruct (Hl x ltac:(by left)) as (t & Ht & _ & Hp). cbn [flat_map]. rewrite Ht. cbn [app map numbered fst snd parse_properties].
  unfold parse_section_property. rewrite El. cbn [rbind]. rewrite Hp. cbn [map_err rbind value_at].
  rewrite bt_get_insert_eq. cbn [from_option id value_set]. rewrite bt_insert_insert, IH.
  - by rewrite <- app_assoc.
  - intros y Hy. apply Hl. by right.
Qed.

Lemma parse_entry cm k v n rest :
  entry_ok s g k v → bt_get k cm = None →
  parse_properties s g (VObject cm) (numbered n (map (pair k) (texts v)) ++ rest) =
  parse_properties s g (VObject (bt_insert k v cm)) rest.
Proof.
  unfold entry_ok. intros Hok Hk. destruct (lookup_schema s k g) as [[o p]|] eqn:El.
  - destruct p as [| |i|c|c|a ps d al|items mn mx|l|tp to ts vs].
    7: { destruct Hok as (l & -> & Hne & Hl). destruct l as [|x l]; [done|]. cbn [texts flat_map].
      destruct (Hl x ltac:(by left)) as (t & Ht & _ & Hp). rewrite Ht. cbn [app map numbered fst snd parse_properties].
      unfold parse_section_property. rewrite El. cbn [rbind]. rewrite Hp. cbn [map_err rbind value_at].
      rewrite Hk. cbn [from_option id value_set]. rewrite (parse_items items o mn mx); [done|done|].
      intros y Hy. apply Hl. by right. }
    all: apply reads_texts in Hok as (t & -> & _ & Hp); cbn [map numbered fst snd app parse_properties];
      by rewrite (parse_property_scalar cm k t v _ o El) by done.
  - destruct Hok as (Hadd & t & -> & _). cbn [texts scalar_texts value_text map numbered fst snd app parse_properties].
    unfold parse_section_property. rewrite El, Hadd. cbn. by rewrite Hk.
Qed.

Definition kept (skip : rstr → bool) (m : list (rstr * Value)) : list (rstr * Value) :=
  List.filter (λ kv, negb (skip kv.1)) m.

Lemma kept_key skip m k v : (k, v) ∈ kept skip m ↔ (k, v) ∈ m ∧ skip k = false.
Proof. unfold kept. rewrite list_elem_of_In, filter_In, <- list_elem_of_In, negb_true_iff. done. Qed.

Lemma parse_fields skip m cm n :
  bt_sorted m → (∀ k v, (k, v) ∈ m → skip k = false → entry_ok s g k v ∧ bt_get k cm = None) →
  parse_properties s g (VObject cm) (numbered n (fields skip m)) = Ok (VObject (insert_all cm (kept skip m))).
Proof.
  revert cm n. induction m as [|[k v] m IH]; intros cm n Hs Hm; [done|]. destruct Hs as [Hlb Hs].
  unfold fields, kept. cbn [flat_map List.filter fst snd]. fold (fields skip m) (kept skip m).
  destruct (skip k) eqn:Ek; cbn [negb app]; [apply IH; [done|]; intros ? ? ?; apply Hm; by right|].
  destruct (Hm k v ltac:(by left) Ek) as [Hok Hk]. rewrite numbered_app, parse_entry by done.
  unfold insert_all. cbn [foldl fst snd]. apply IH; [done|]. intros k' v' Hin Hskip.
  destruct (Hm k' v' ltac:(by right) Hskip) as [Hok' Hk']. split; [done|].
  rewrite bt_get_insert_ne; [done|]. by eapply bt_lb_elem.
Qed.

Lemma kept_lb skip k m : bt_lb k m → bt_lb k (kept skip m).
Proof. unfold kept. induction m as [|[k' v] m IH]; simpl; [done|]. intros [? ?]. destruct (skip k'); simpl; auto. Qed.

Lemma kept_sorted skip m : bt_sorted m → bt_sorted (kept skip m).
Proof.
  induction m as [|[k v] m IH]; [done|]. intros [Hlb Hs]. unfold kept. cbn [List.filter fst]. fold (kept skip m).
  destruct (skip k); cbn [negb]; [by apply IH|]. split; [by apply kept_lb|by apply IH].
Qed.

Lemma kept_get skip m k : bt_get k (kept skip m) = if skip k then None else bt_get k m.
Proof.
  induction m as [|[k' v] m IH]; [by destruct (skip k)|]. unfold kept. cbn [List.filter fst]. fold (kept skip m).
  destruct (skip k') eqn:E; cbn [negb bt_get]; case_decide; subst; rewrite ?IH, ?E; done.
Qed.
End ParseEntry.
End Fields.

(** ** Only the type properties of a schema are looked up *)
Definition agree (s : Schema) (g1 g2 : type_field) : Prop := ∀ n, n ∈ type_properties s → g1 n = g2 n.

Lemma agree_all_of l g1 g2 e : agree (SAllOf l) g1 g2 → e ∈ l → agree e g1 g2.
Proof. intros H He n Hn. apply H. simpl. apply elem_of_flat_map. by exists e. Qed.

Lemma agree_variant tp o ts vs g1 g2 n e : agree (SOneOf tp o ts vs) g1 g2 → (n, e) ∈ vs → agree e g1 g2.
Proof. intros H He k Hk. apply H. simpl. right. apply elem_of_flat_map. by exists (n, e). Qed.

Section Agree.
Context (g1 g2 : type_field).

Lemma lookup_schema_agree s k : agree s g1 g2 → lookup_schema s k g1 = lookup_schema s k g2.
Proof.
  induction s as [| | | | |a ps d al _|items mn mx _|l Hl|tp o ts vs _ Hvs] using Schema_ind; intros Hg; simpl; try done.
  - apply first_some_ext. intros e He. rewrite Forall_forall in Hl. apply Hl; [done|]. by eapply agree_all_of.
  - case_decide; [done|]. rewrite <- (Hg tp) by (simpl; by left). destruct (g1 tp) as [variant|]; [|done].
    rewrite (with_variant_map (λ e, lookup_schema e k g1)), (with_variant_map (λ e, lookup_schema e k g2)).
    destruct (with_variant id variant vs) as [e|] eqn:E; [|done]. simpl. apply with_variant_elem in E.
    rewrite Forall_forall in Hvs. apply (Hvs _ E). by eapply agree_variant.
Qed.

Lemma flat_map_ext {X Y} (f h : X → list Y) l : (∀ x, x ∈ l → f x = h x) → flat_map f l = flat_map h l.
Proof.
  induction l as [|x l IH]; intros H; simpl; [done|]. rewrite (H x) by by left.
  f_equal. apply IH. intros y Hy. apply H. by right.
Qed.

Lemma all_properties_agree s : agree s g1 g2 → all_properties s g1 = all_properties s g2.
Proof.
  induction s as [| | | | |a ps d al _|items mn mx _|l Hl|tp o ts vs _ Hvs] using Schema_ind; intros Hg; simpl; try done.
  - apply flat_map_ext. intros e He. rewrite Forall_forall in Hl. apply Hl; [done|]. by eapply agree_all_of.
  - f_equal. rewrite <- (Hg tp) by (simpl; by left). destruct (g1 tp) as [variant|]; [|done].
    rewrite (with_variant_map (λ e, all_properties e g1)), (with_variant_map (λ e, all_properties e g2)).
    destruct (with_variant id variant vs) as [e|] eqn:E; [|done]. simpl. apply with_variant_elem in E.
    rewrite Forall_forall in Hvs. apply (Hvs _ E). by eapply agree_variant.
Qed.

Lemma verify_type_fields_agree s : agree s g1 g2 → verify_type_fields s g1 = verify_type_fields s g2.
Proof.
  induction s as [| | | | |a ps d al _|items mn mx _|l Hl|tp o ts vs _ Hvs] using Schema_ind; intros Hg; simpl; try done.
  - apply flat_map_ext. intros e He. rewrite Forall_forall in Hl. apply Hl; [done|]. by eapply agree_all_of.
  - rewrite <- (Hg tp) by (simpl; by left). destruct (g1 tp) as [variant|]; [|done].
    rewrite (with_variant_map (λ e, verify_type_fields e g1)), (with_variant_map (λ e, verify_type_fields e g2)).
    destruct (with_variant id variant vs) as [e|] eqn:E; [|done]. simpl. apply with_variant_elem in E.
    rewrite Forall_forall in Hvs. apply (Hvs _ E). by eapply agree_variant.
Qed.
End Agree.

(** ** Nothing to do for the aliases *)
Lemma canonicalize_none s m : no_alias s m → canonicalize_aliases s (VObject m) = Ok (VObject m).
Proof.
  induction s as [| | | | |a ps d al _|items mn mx _|l Hl|tp o ts vs _ Hvs] using Schema_ind; intros Hg; simpl; try done.
  - assert (filter (λ ac, contains_key m ac.1 = true) al = []) as ->; [|done].
    unfold no_alias in Hg. simpl in Hg. induction al as [|[x c] al IH]; [done|]. rewrite filter_cons_False.
    + apply IH. intros x' c' Hin. apply (Hg x' c'). by right.
    + simpl. unfold contains_key. by rewrite (Hg x c) by by left.
  - unfold no_alias in Hg. simpl in Hg. induction Hl as [|e l He _ IH]; [done|]. simpl. rewrite He; [apply IH|].
    + intros x c Hin. apply (Hg x c). simpl. apply elem_of_app. by right.
    + intros x c Hin. apply (Hg x c). simpl. apply elem_of_app. by left.
  - unfold no_alias in Hg. simpl in Hg. induction Hvs as [|e l He _ IH]; [done|]. simpl. rewrite He; [apply IH|].
    + intros x c Hin. apply (Hg x c). simpl. apply elem_of_app. by right.
    + intros x c Hin. apply (Hg x c). simpl. apply elem_of_app. by left.
Qed.

Lemma test_required_ok config idp l :
  (∀ name p, (name, false, p) ∈ l → idp ≠ Some name → is_null (value_at config name) = false) →
  test_required config idp l = Ok tt.
Proof.
  induction l as [|[[name o] p] l IH]; intros H; [done|]. cbn [test_required].
  assert (test_required config idp l = Ok tt) as Hrest by (apply IH; intros ? ? ?; apply (H name0 p0); by right).
  case_bool_decide as Hi; [done|]. destruct o; [done|]. cbn [negb andb]. by rewrite (H name p) by (done || by left).
Qed.

(** ** The end of a section *)
Section Finish.
Context {F : F64Text} {FL : F64TextLaws F} {A : Alphabetic}.

Lemma find_numbered_other n key l rest :
  (∀ kt, kt ∈ l → kt.1 ≠ key) →
  List.find (λ p : nat * rstr * rstr, bool_decide (p.1.2 = key)) (numbered n l ++ rest) =
  List.find (λ p : nat * rstr * rstr, bool_decide (p.1.2 = key)) rest.
Proof.
  revert n. induction l as [|kt l IH]; intros n Hl; [done|]. simpl.
  rewrite bool_decide_eq_false_2 by (apply Hl; by left). apply IH. intros x Hx. apply Hl. by right.
Qed.

Lemma find_fields skip m n key :
  bt_sorted m → skip key = false → (∀ v, bt_get key m = Some v → ∃ t, v = VString t) →
  snd <$> List.find (λ p : nat * rstr * rstr, bool_decide (p.1.2 = key)) (numbered n (fields skip m)) =
  bt_get key m ≫= as_str.
Proof.
  intros Hs Hskip. revert n. induction m as [|[k v] m IH]; intros n Hv; [done|]. destruct Hs as [Hlb Hs].
  unfold fields. cbn [flat_map fst snd]. fold (fields skip m). cbn [bt_get] in *. case_decide as Hk.
  - subst k. destruct (Hv v eq_refl) as [t ->]. rewrite Hskip. simpl. by rewrite bool_decide_eq_true_2.
  - rewrite numbered_app. rewrite find_numbered_other; [by apply IH|].
    intros kt Hkt. destruct (skip k); [by apply not_elem_of_nil in Hkt|].
    apply list_elem_of_fmap in Hkt as (t & -> & _). done.
Qed.

Lemma skip_key_spec c p k :
  skip_key c p k = true ↔ p.(id_property) = Some k ∨ section_type_key c p = Some k.
Proof.
  unfold skip_key, section_type_key, opt_or.
  rewrite !orb_true_iff, andb_true_iff, !bool_decide_eq_true. destruct (plugin_type_key p); naive_solver.
Qed.

(** A section that survives the file format. *)
Record writable (c : SectionConfig) (p : SectionConfigPlugin) (id : rstr) (m : list (rstr * Value)) : Prop := {
  w_combined : combined p.(properties);
  w_plugin : c.(plugins) !! p.(type_name) = Some p;
  w_type : good_type p.(type_name);
  w_id : trim id = id;
  w_sorted : bt_sorted m;
  w_type_key k : section_type_key c p = Some k → bt_get k m = Some (VString p.(type_name));
  w_id_property k : p.(id_property) = Some k → bt_get k m = Some (VString id);
  w_keys k : k ∈ m.*1 → skip_key c p k = false → good_key k;
  w_alias : no_alias p.(properties) m;
  w_types n : n ∈ type_properties p.(properties) →
    p.(id_property) ≠ Some n ∧ ∀ v, bt_get n m = Some v → ∃ t, v = VString t;
  w_values k v : (k, v) ∈ m → skip_key c p k = false →
    match lookup_schema p.(properties) k (map_type m) with
    | Some (_, SArray items _ _) => ∃ l, v = VArray l ∧ l ≠ [] ∧ ∀ x, x ∈ l → readable items x
    | Some (_, q) => readable q v
    | None => ∃ t, v = VString t ∧ trim t = t
    end
}.

Section Section.
Context (c : SectionConfig) (p : SectionConfigPlugin) (id : rstr) (m : list (rstr * Value)).
Context (W : writable c p id m) (V : verify_json p.(properties) (VObject m) = Ok tt).

Let s := p.(properties).
Let skip := skip_key c p.
Definition header_map : list (rstr * Value) :=
  match section_type_key c p with Some k => [(k, VString p.(type_name))] | None => [] end.

Lemma section_data_map : section_data (section_type_key c p) p.(type_name) = VObject header_map.
Proof. unfold section_data, header_map. by destruct (section_type_key c p). Qed.

Definition section_inside (n : nat) : InsideSection :=
  mkInside p id (section_data (section_type_key c p) p.(type_name)) (numbered n (fields skip m)).

Lemma header_get k : bt_get k header_map = if decide (section_type_key c p = Some k) then Some (VString p.(type_name)) else None.
Proof. unfold header_map. destruct (section_type_key c p); simpl; repeat case_decide; naive_solver. Qed.

Lemma inside_agree n : agree s (inside_type (section_inside n)) (map_type m).
Proof.
  intros k Hk. destruct (w_types _ _ _ _ W k Hk) as [Hid Hstr]. unfold inside_type, section_inside. cbn [header_data section_properties].
  rewrite section_data_map. cbn [value_at]. rewrite header_get. unfold map_type. case_decide as Ht.
  - simpl. by rewrite (w_type_key _ _ _ _ W k Ht).
  - simpl. apply find_fields; [apply W| |done]. destruct (skip k) eqn:E; [|done].
    apply skip_key_spec in E as [E|E]; done.
Qed.

Lemma verified : (∀ k x, (k, x) ∈ m → value_ok s m k x) ∧ aliases_ok s m ∧ required_ok s m ∧ verify_type_fields s (map_type m) = [].
Proof. apply object_errors_nil, verify_object_ok; [apply W|done]. Qed.

Lemma section_entries n k v :
  (k, v) ∈ m → skip k = false → entry_ok s (inside_type (section_inside n)) k v ∧ bt_get k header_map = None.
Proof.
  intros Hin Hk. split.
  - unfold entry_ok. rewrite (lookup_schema_agree _ (map_type m)) by apply inside_agree.
    destruct verified as [Hv _]. specialize (Hv k v Hin). pose proof (w_values _ _ _ _ W k v Hin Hk) as Hr.
    unfold value_ok in Hv. fold s in Hr. destruct (lookup_schema s k (map_type m)) as [[o q]|]; [|done].
    destruct q as [| |i|x|t|a ps d al|items mn mx|l|tp to ts vs]; try (by apply readable_text).
    destruct Hr as (l & -> & Hne & Hl). exists l. split_and!; [done|done|]. apply verify_array_ok in Hv as [_ Hv].
    intros x Hx. apply readable_text; auto.
  - rewrite header_get. rewrite decide_False; [done|]. intros E.
    assert (skip k = true) as E' by (apply skip_key_spec; by right). congruence.
Qed.

(** The properties of the section before its id is added. *)
Definition parsed_map : list (rstr * Value) := insert_all header_map (kept skip m).

Lemma parsed_sorted : bt_sorted parsed_map.
Proof. apply insert_all_sorted. unfold header_map. by destruct (section_type_key c p). Qed.

Lemma parsed_get k :
  bt_get k parsed_map =
  if decide (p.(id_property) = Some k ∧ section_type_key c p ≠ Some k) then None else bt_get k m.
Proof.
  unfold parsed_map. rewrite insert_all_get, kept_get, header_get by (apply kept_sorted, W).
  pose proof (w_type_key _ _ _ _ W k) as Ht. destruct (skip k) eqn:E.
  - apply skip_key_spec in E. repeat case_decide; naive_solver.
  - assert (¬ (p.(id_property) = Some k ∨ section_type_key c p = Some k)) as Hn.
    { intros H%skip_key_spec. unfold skip in E. congruence. }
    rewrite (decide_False (P := _ = Some k)) by naive_solver. rewrite decide_False by naive_solver.
    by destruct (bt_get k m).
Qed.

Lemma parsed_types : agree s (map_type parsed_map) (map_type m).
Proof.
  intros k Hk. unfold map_type. rewrite parsed_get, decide_False; [done|]. intros [H _].
  by destruct (w_types _ _ _ _ W k Hk).
Qed.

Lemma parsed_required : test_required_properties (VObject parsed_map) s p.(id_property) = Ok tt.
Proof.
  unfold test_required_properties. cbn [value_type]. rewrite (all_properties_agree _ (map_type m)) by apply parsed_types.
  apply test_required_ok. intros name q Hin Hid. destruct verified as (_ & _ & Hr & _).
  destruct (Hr name q Hin) as [H|(k & Hk & Ha)].
  - cbn [value_at] in *. rewrite parsed_get, decide_False by naive_solver. by destruct (default VNull (bt_get name m)).
  - exfalso. apply lookup_alias_key in Ha. apply (w_alias _ _ _ _ W) in Ha. apply bt_get_None in Ha. by apply Ha.
Qed.

Lemma parsed_complete :
  match p.(id_property) with
  | Some k => value_set (VObject parsed_map) k (VString id)
  | None => VObject parsed_map
  end = VObject m.
Proof.
  pose proof (w_id_property _ _ _ _ W) as Hid. destruct (id_property p) as [k|] eqn:E; cbn [value_set]; f_equal.
  - apply bt_sorted_ext; [apply bt_sorted_insert, parsed_sorted|apply W|]. intros k'. destruct (decide (k' = k)) as [->|Hk].
    + rewrite bt_get_insert_eq. symmetry. by apply Hid.
    + rewrite bt_get_insert_ne, parsed_get, E, decide_False by naive_solver. done.
  - apply bt_sorted_ext; [apply parsed_sorted|apply W|]. intros k'. rewrite parsed_get, E, decide_False by naive_solver. done.
Qed.

Lemma finish_writable d n :
  finish_section d (section_inside n) = Ok (record_order (set_data d id p.(type_name) (VObject m)) id).
Proof.
  unfold finish_section. cbn [plugin section_id header_data section_properties section_inside].
  rewrite section_data_map, parse_fields; [|apply W|apply section_entries]. cbn [rbind].
  fold parsed_map. rewrite canonicalize_none.
  2: { intros a k Hin. rewrite parsed_get. case_decide; [done|]. by apply (w_alias _ _ _ _ W a k). }
  cbn [map_err rbind]. fold s. rewrite parsed_required. cbn [map_err rbind value_type].
  rewrite (verify_type_fields_agree _ (map_type m)) by apply parsed_types.
  destruct verified as (_ & _ & _ & ->). cbn [rbind]. by rewrite parsed_complete.
Qed.
End Section.
End Finish.

(** ** Whole files *)
Section File.
Context {F : F64Text} {FL : F64TextLaws F} {A : Alphabetic} {AL : AlphabeticLaws A}.
Context (c : SectionConfig) (Hsyntax : c.(syntax) = default_syntax).

Definition section_lines (p : SectionConfigPlugin) (id : rstr) (m : list (rstr * Value)) : list rstr :=
  header_line p.(type_name) id :: map content_line (fields (skip_key c p) m).

Lemma readable_flat s v : readable s v → match v with VArray _ | VObject _ => False | _ => True end.
Proof.
  intros [Hf _]. destruct s; try done; simpl in Hf.
  - by destruct Hf as [b ->].
  - by destruct Hf as (z & _ & ->).
  - by destruct Hf as (x & _ & _ & ->).
  - by destruct Hf as [t ->].
Qed.

Lemma writable_flat p id m k v : writable c p id m → (k, v) ∈ m → skip_key c p k = false → flat v.
Proof.
  intros W Hin Hk. pose proof (w_values _ _ _ _ W k v Hin Hk) as H.
  destruct (lookup_schema _ k _) as [[o q]|]; [|by destruct H as (t & -> & _)].
  destruct q as [| |i|x|t|a ps d al|items mn mx|l|tp to ts vs];
    try (apply readable_flat in H; by destruct v).
  destruct H as (l & -> & _ & Hl). intros x Hx. by eapply readable_flat, Hl.
Qed.

(** What a written section says about its data. *)
Definition checked (p : SectionConfigPlugin) (id : rstr) (m : list (rstr * Value)) : Prop :=
  verify_json p.(properties) (VObject m) = Ok tt ∧ no_control id ∧
  (∃ v, parse_simple_value (default c.(id_schema) (get_id_schema p)) id = Ok v) ∧
  Forall (λ kt, no_control kt.2) (fields (skip_key c p) m).

Lemma write_section_lines p id m text :
  writable c p id m → write_section c id p.(type_name) (VObject m) = Ok text →
  text = unlines (section_lines p id m) ∧ checked p id m.
Proof.
  intros W. unfold write_section. rewrite (w_plugin _ _ _ _ W), Hsyntax. cbn [format_section_header format_section_content default_syntax].
  destruct (parse_simple_value _ id) as [v|] eqn:Ei; [|done]. cbn [map_err rbind].
  destruct (existsb is_control id) eqn:Ec; [done|].
  destruct (verify_json _ _) as [[]|] eqn:Ev; [|done]. cbn [map_err rbind as_object ok_or].
  unfold default_format_section_header. cbn [rbind].
  destruct (write_properties _ _ m) as [content|] eqn:Ew; [|done]. cbn [rbind]. intros [= <-].
  apply write_properties_fields in Ew as [-> Hf]; [|intros k x; by apply (writable_flat p id)].
  split; [|split_and!; try done; by eexists].
  unfold section_lines, unlines. cbn [map concat]. f_equal. unfold header_line. by rewrite <- !app_assoc.
Qed.

Lemma fields_trimmed p id m k t :
  writable c p id m → checked p id m → (k, t) ∈ fields (skip_key c p) m → trim t = t ∧ good_key k.
Proof.
  intros W (Hv & _) Hin. split.
  - unfold fields in Hin. apply elem_of_flat_map in Hin as ([k' v] & Hm & Hin). simpl in Hin.
    destruct (skip_key c p k') eqn:Ek; [by apply not_elem_of_nil in Hin|].
    apply list_elem_of_fmap in Hin as (t' & [= <- <-] & Ht).
    destruct (section_entries c p id m W Hv 0 k v Hm Ek) as [He _]. unfold entry_ok in He.
    destruct (lookup_schema _ k _) as [[o q]|].
    2: { destruct He as (_ & t' & -> & Htr). simpl in Ht. by apply list_elem_of_singleton in Ht as ->. }
    destruct q as [| |i|x|x|a ps d al|items mn mx|l|tp to ts vs].
    7: { destruct He as (l & -> & _ & Hl). simpl in Ht. apply elem_of_flat_map in Ht as (x & Hx & Ht).
         destruct (Hl x Hx) as (t' & E & Htr & _). rewrite E in Ht. by apply list_elem_of_singleton in Ht as ->. }
    all: apply reads_texts in He as (t' & E & Htr & _); rewrite E in Ht; by apply list_elem_of_singleton in Ht as ->.
  - apply fields_key in Hin as (v & Hm & Hk). simpl in *. apply (w_keys _ _ _ _ W); [|done].
    by apply (list_elem_of_fmap_2 fst _ (k, v)).
Qed.

Lemma section_lines_good p id m : writable c p id m → checked p id m → Forall good_line (section_lines p id m).
Proof.
  intros W H. pose proof H as (_ & Hid & _ & Hf). constructor.
  - apply header_line_good; [apply W|done].
  - apply Forall_fmap. apply Forall_forall. intros [k t] Hin. apply content_line_good.
    + by eapply fields_trimmed.
    + rewrite Forall_forall in Hf. by apply (Hf (k, t)).
Qed.

Lemma blank_false l : trim l ≠ [] → match trim l with [] => true | _ => false end = false.
Proof. by destruct (trim l). Qed.

Lemma parse_content_lines fs n i d rest :
  (∀ k t, (k, t) ∈ fs → trim t = t ∧ good_key k) →
  parse_lines c n (Inside i, d) (map content_line fs ++ rest) =
  parse_lines c (n + length fs)
    (Inside (mkInside i.(plugin) i.(section_id) i.(header_data) (i.(section_properties) ++ numbered (S n) fs)), d) rest.
Proof.
  revert n i. induction fs as [|[k t] fs IH]; intros n i Hfs.
  { simpl. rewrite Nat.add_0_r, app_nil_r. by destruct i. }
  destruct (Hfs k t ltac:(by left)) as [Ht Hk]. cbn [map app parse_lines].
  unfold parse_line at 1. rewrite blank_false by by apply content_line_not_blank.
  rewrite Hsyntax. cbn [parse_section_content default_syntax]. rewrite parse_content_line, Ht by done. cbn [rbind].
  rewrite IH by (intros ? ? ?; apply Hfs; by right). cbn [plugin section_id header_data section_properties numbered fst snd length].
  rewrite <- app_assoc. by replace (S n + length fs) with (n + S (length fs)) by lia.
Qed.

Lemma parse_section_lines p id m n d rest :
  writable c p id m → checked p id m →
  parse_lines c n (BeforeHeader, d) (section_lines p id m ++ rest) =
  parse_lines c (n + length (section_lines p id m)) (Inside (section_inside c p id m (S (S n))), d) rest.
Proof.
  intros W H. pose proof H as (_ & _ & (v & Hid) & _). unfold section_lines. cbn [app parse_lines].
  unfold parse_line at 1. rewrite blank_false by (apply header_line_not_blank, W).
  unfold parse_header. rewrite Hsyntax. cbn [parse_section_header default_syntax].
  rewrite parse_header_line by apply W. rewrite (w_id _ _ _ _ W), (w_plugin _ _ _ _ W), Hid. cbn [map_err rbind].
  rewrite parse_content_lines by (intros ? ? ?; by eapply fields_trimmed).
  cbn [plugin section_id header_data section_properties app length]. rewrite length_map.
  by replace (S n + length (fields (skip_key c p) m)) with (n + S (length (fields (skip_key c p) m))) by lia.
Qed.

Section Data.
Context (d : SectionConfigData).

Definition all_writable : Prop :=
  ∀ id ty v, d.(sections) !! id = Some (ty, v) → ∃ p m, ty = p.(type_name) ∧ v = VObject m ∧ writable c p id m.

(** The section of an id that was written. *)
Inductive written (id : rstr) (ls : list rstr) : Prop :=
| written_section p m (Hd : d.(sections) !! id = Some (p.(type_name), VObject m))
    (W : writable c p id m) (Hc : checked p id m) (Hls : ls = section_lines p id m).

Lemma write_sections_lines raw ids out :
  all_writable → write_sections c d raw ids = Ok out →
  ∃ lss, Forall2 written ids lss ∧
    out = raw ++ match raw, lss with
                 | [], ls :: lss => unlines (ls ++ flat_map (cons []) lss)
                 | _, _ => unlines (flat_map (cons []) lss)
                 end.
Proof.
  intros Hw. revert raw. induction ids as [|id ids IH]; intros raw.
  { intros [= <-]. exists []. split; [constructor|]. by destruct raw; rewrite app_nil_r. }
  cbn [write_sections]. destruct (d.(sections) !! id) as [[ty v]|] eqn:Ed; [|done].
  destruct (Hw _ _ _ Ed) as (p & m & -> & -> & W).
  destruct (write_section c id p.(type_name) (VObject m)) as [text|] eqn:Et; [|done]. cbn [rbind].
  apply write_section_lines in Et as [-> Hc]; [|done]. intros (lss & Hall & ->)%IH.
  exists (section_lines p id m :: lss). split; [constructor; [by econstructor|done]|].
  destruct raw as [|x raw]; cbn [app].
  - assert (∃ y l, unlines (section_lines p id m) = y :: l) as (y & l & E).
    { unfold section_lines, unlines. cbn [map concat]. destruct (header_line _ _); by eexists _, _. }
    rewrite E. cbn [app]. rewrite unlines_app, E. done.
  - cbn [flat_map]. rewrite (unlines_app ([] :: _)).
    change (unlines ([] :: section_lines p id m)) with (10%N :: unlines (section_lines p id m)).
    by rewrite <- !app_assoc.
Qed.

Definition add_section (acc : SectionConfigData) (id : rstr) : SectionConfigData :=
  match d.(sections) !! id with
  | Some (ty, v) => record_order (set_data acc id ty v) id
  | None => acc
  end.

Lemma parse_sections ids lss n i d0 d1 :
  Forall2 written ids lss → finish_section d0 i = Ok d1 →
  ∃ n' i' d', parse_lines c n (Inside i, d0) (flat_map (cons []) lss) = Ok (n', (Inside i', d')) ∧
    finish_section d' i' = Ok (foldl add_section d1 ids).
Proof.
  intros Hall. revert n i d0 d1. induction Hall as [|id ls ids lss [p m Hd W Hc ->] _ IH]; intros n i d0 d1 Hf.
  { by eexists _, _, _. }
  cbn [flat_map app parse_lines]. unfold parse_line at 1. change (trim []) with (@nil rchar). cbn match. rewrite Hf. cbn [map_err rbind].
  rewrite parse_section_lines by done. cbn [foldl]. apply IH. unfold add_section. rewrite Hd.
  apply finish_writable; [done|apply Hc].
Qed.

Lemma parse_file ids lss :
  Forall2 written ids lss →
  let ls := match lss with [] => [] | ls :: lss => ls ++ flat_map (cons []) lss end in
  Forall good_line ls ∧
  ∃ n st, parse_lines c 0 (BeforeHeader, data_new) ls = Ok (n, st) ∧ parse_end n st = Ok (foldl add_section data_new ids).
Proof.
  intros Hall. assert (Forall (Forall good_line) lss) as Hgood.
  { induction Hall as [|id ls ids lss [p m Hd W Hc ->] _ IH]; [constructor|]. constructor; [by apply section_lines_good|done]. }
  destruct Hall as [|id ls ids lss [p m Hd W Hc ->] Hall]; cbn zeta.
  { split; [constructor|]. by eexists _, _. }
  inversion Hgood as [|? ? Hg1 Hg2]; subst. split.
  - apply Forall_app. split; [done|]. clear -Hg2. induction Hg2 as [|l lss Hl _ IH]; [constructor|].
    simpl. constructor; [split; [apply not_elem_of_nil|done]|]. by apply Forall_app.
  - rewrite parse_section_lines by done.
    destruct (parse_sections ids lss (0 + length (section_lines p id m)) (section_inside c p id m 2) data_new
                (add_section data_new id)) as (n & i & d' & Hp & Hf); [done| |].
    { unfold add_section. rewrite Hd. apply finish_writable; [done|apply Hc]. }
    eexists _, _. split; [exact Hp|]. cbn [parse_end]. by rewrite Hf.
Qed.

Lemma add_sections_lookup acc ids k :
  (∀ id, id ∈ ids → is_Some (d.(sections) !! id)) →
  (foldl add_section acc ids).(sections) !! k = if decide (k ∈ ids) then d.(sections) !! k else acc.(sections) !! k.
Proof.
  revert acc. induction ids as [|id ids IH]; intros acc Hids; [by rewrite decide_False by apply not_elem_of_nil|].
  cbn [foldl]. rewrite IH by (intros ? ?; apply Hids; by right).
  destruct (Hids id ltac:(by left)) as [[ty v] Hid].
  destruct (decide (k ∈ ids)) as [Hk|Hk]; [by rewrite decide_True by by right|].
  unfold add_section. rewrite Hid. cbn [record_order set_data sections].
  destruct (decide (k = id)) as [->|Hne].
  - rewrite decide_True by by left. by rewrite lookup_insert_eq.
  - rewrite decide_False by (rewrite elem_of_cons; tauto). by rewrite lookup_insert_ne by done.
Qed.

Lemma add_sections_order acc ids :
  (∀ id, id ∈ ids → is_Some (d.(sections) !! id)) → (foldl add_section acc ids).(order) = acc.(order) ++ ids.
Proof.
  revert acc. induction ids as [|id ids IH]; intros acc Hids; [by rewrite app_nil_r|].
  cbn [foldl]. rewrite IH by (intros ? ?; apply Hids; by right).
  destruct (Hids id ltac:(by left)) as [[ty v] Hid]. unfold add_section. rewrite Hid. simpl. by rewrite <- app_assoc.
Qed.

Lemma elem_of_write_order keys id :
  (∀ id, id ∈ keys ↔ is_Some (d.(sections) !! id)) → id ∈ write_order d keys ↔ is_Some (d.(sections) !! id).
Proof.
  intros Hkeys. unfold write_order. rewrite elem_of_app, !list_elem_of_In, !filter_In, <- !list_elem_of_In.
  rewrite bool_decide_eq_true, negb_true_iff, bool_decide_eq_false, !Hkeys.
  rewrite !list_elem_of_In, filter_In, <- !list_elem_of_In, bool_decide_eq_true.
  destruct (decide (id ∈ d.(order))); tauto.
Qed.
End Data.

Lemma write_parse_data d keys raw :
  all_writable d → (∀ id, id ∈ keys ↔ is_Some (d.(sections) !! id)) →
  write_do c d keys = Ok raw →
  parse c raw = Ok (mkData d.(sections) (write_order d keys)).
Proof.
  intros Hw Hkeys H. unfold write_do in H. apply write_sections_lines in H as (lss & Hall & ->); [|done].
  destruct (parse_file d _ _ Hall) as (Hgood & n & st & Hp & He).
  set (ls := match lss with [] => [] | ls :: lss => ls ++ flat_map (cons []) lss end) in *.
  cbn [app]. unfold parse. replace (match lss with [] => _ | _ => _ end) with (unlines ls) by (subst ls; by destruct lss).
  rewrite lines_unlines by done. rewrite Hp. cbn [rbind fst snd]. rewrite He. f_equal.
  assert (∀ id, id ∈ write_order d keys → is_Some (d.(sections) !! id)) as Hids by (intros id; by rewrite elem_of_write_order).
  pose proof (add_sections_order d data_new _ Hids) as Ho. pose proof (λ k, add_sections_lookup d data_new _ k Hids) as Hl.
  destruct (foldl _ _ _) as [secs ord]. simpl in Ho, Hl. subst ord. f_equal. apply map_eq. intros k. rewrite Hl.
  case_decide as Hk; [done|]. rewrite elem_of_write_order in Hk by done. rewrite lookup_empty.
  destruct (d.(sections) !! k) eqn:E; [|done]. exfalso. apply Hk. by eexists.
Qed.

Lemma filter_all {B} (p : B → bool) l : (∀ x, x ∈ l → p x = true) → List.filter p l = l.
Proof.
  induction l as [|x l IH]; intros H; [done|]. simpl. rewrite H by by left. f_equal. apply IH.
  intros y Hy. apply H. by right.
Qed.

Lemma filter_none {B} (p : B → bool) l : (∀ x, x ∈ l → p x = false) → List.filter p l = [].
Proof.
  induction l as [|x l IH]; intros H; [done|]. simpl. rewrite H by by left. apply IH. intros y Hy. apply H. by right.
Qed.

(** Data with an order of all its sections is written in this order. *)
Lemma write_order_recorded d keys keys' :
  (∀ id, id ∈ keys ↔ is_Some (d.(sections) !! id)) → (∀ id, id ∈ keys' ↔ is_Some (d.(sections) !! id)) →
  write_order (mkData d.(sections) (write_order d keys)) keys' = write_order d keys.
Proof.
  intros Hk Hk'. unfold write_order at 1. cbn [sections order]. rewrite (filter_all _ (write_order d keys)).
  - rewrite filter_none; [apply app_nil_r|]. intros id Hid. apply negb_false_iff, bool_decide_eq_true.
    apply elem_of_write_order; [done|]. by apply Hk'.
  - intros id Hid. apply bool_decide_eq_true. by rewrite elem_of_write_order in Hid.
Qed.

Lemma write_sections_data c' d1 d2 raw ids :
  d1.(sections) = d2.(sections) → write_sections c' d1 raw ids = write_sections c' d2 raw ids.
Proof.
  intros Hd. revert raw. induction ids as [|id ids IH]; intros raw; [done|]. cbn [write_sections]. rewrite Hd.
  destruct (d2.(sections) !! id) as [[ty v]|]; [|done]. destruct (write_section _ _ _ _); [apply IH|done].
Qed.

(** [C19] A configuration file in the default syntax is parsed to the sections it
    was written from, in the order of the file, if the keys and values survive
    the format: keys without white space, texts without white space around them,
    arrays that are not empty, canonical names, and the id and the type where the
    plugin says. Writing what was parsed gives the same file again. *)
Theorem write_parse d keys raw :
  all_writable d → (∀ id, id ∈ keys ↔ is_Some (d.(sections) !! id)) →
  write_do c d keys = Ok raw →
  ∃ d', parse c raw = Ok d' ∧ d'.(sections) = d.(sections) ∧ d'.(order) = write_order d keys ∧
    ∀ keys', (∀ id, id ∈ keys' ↔ is_Some (d.(sections) !! id)) → write_do c d' keys' = Ok raw.
Proof.
  intros Hw Hk H. exists (mkData d.(sections) (write_order d keys)). split_and!; [by apply write_parse_data|done|done|].
  intros keys' Hk'. unfold write_do. rewrite write_order_recorded by done.
  by rewrite (write_sections_data c _ d) by done.
Qed.
End File.

(** ** Examples *)
Definition ascii_alphabetic : Alphabetic := is_ascii_alphabetic.
#[export] Instance ascii_alphabetic_laws : AlphabeticLaws ascii_alphabetic.
Proof. intros c. unfold is_alphabetic, ascii_alphabetic, is_ascii_alphabetic, is_whitespace. lia. Qed.

(** A storage with a path, tags, and a choice of its kind. *)
Definition storage_schema : Schema :=
  SAllOf
    [SObject false [(lit "path", false, plain_string); (lit "tags", true, SArray plain_string None None)] None
       [(lit "dir", lit "path")];
     SOneOf (lit "kind") false plain_string
       [(lit "fixed", SObject false [(lit "size", false, SInteger {| minimum := Some 1%Z; maximum := None |})] None []);
        (lit "free", SObject false [] None [])]].

Definition storage_plugin : SectionConfigPlugin := mkPlugin (lit "storage") storage_schema None None.
Definition storage_config : SectionConfig :=
  register_plugin (mkConfig ∅ plain_string (default_syntax (H := f64_text) (H0 := ascii_alphabetic)) false None) storage_plugin.

Definition storage_map : list (rstr * Value) :=
  [(lit "kind", VString (lit "fixed")); (lit "path", VString (lit "/mnt/my data")); (lit "size", VNumber (PosInt 5));
   (lit "tags", VArray [VString (lit "a"); VString (lit "b")])].
Definition storage_data : SectionConfigData :=
  mkData {[lit "s1" := (lit "storage", VObject storage_map)]} [].

Ltac elems H := repeat (apply elem_of_cons in H as [H|H]; [simplify_eq|]); try (by apply not_elem_of_nil in H).

Lemma storage_writable : writable (A := ascii_alphabetic) storage_config storage_plugin (lit "s1") storage_map.
Proof.
  split; try done.
  - split_and!; [by eexists _, _|..]; try done; vm_compute; set_solver.
  - intros k Hk _. unfold storage_map in Hk. cbn [fmap list_fmap fst] in Hk.
    elems Hk; (split; [done|repeat constructor]).
  - intros a k Hin. cbn [alias_list storage_plugin properties storage_schema flat_map app] in Hin. by elems Hin.
  - intros n Hn. cbn [type_properties storage_plugin properties storage_schema flat_map app snd] in Hn. elems Hn.
    split; [done|]. intros v [= <-]. by eexists.
  - intros k v Hin _. unfold storage_map in Hin.
    elems Hin; match goal with |- context [lookup_schema ?a ?b ?c] =>
      let r := eval vm_compute in (lookup_schema a b c) in change (lookup_schema a b c) with r end.
    + split; [by eexists|by intros t [= <-]].
    + split; [by eexists|by intros t [= <-]].
    + split; [|done]. exists 5%Z. split; [split; [intros E; discriminate E|reflexivity]|reflexivity].
    + eexists. split_and!; [done|done|]. intros x Hx. elems Hx; (split; [by eexists|by intros t [= <-]]).
Qed.

Lemma write_parse_witness :
  ∃ d', parse (H := f64_text) storage_config
    (lit "storage: s1" ++ [10%N; 9%N] ++ lit "kind fixed" ++ [10%N; 9%N] ++ lit "path /mnt/my data" ++ [10%N; 9%N] ++
     lit "size 5" ++ [10%N; 9%N] ++ lit "tags a" ++ [10%N; 9%N] ++ lit "tags b" ++ [10%N])
  = Ok d' ∧ d'.(sections) = storage_data.(sections) ∧ d'.(order) = [lit "s1"].
Proof.
  destruct (write_parse (F := f64_text) (A := ascii_alphabetic) storage_config eq_refl storage_data [lit "s1"]
    (lit "storage: s1" ++ [10%N; 9%N] ++ lit "kind fixed" ++ [10%N; 9%N] ++ lit "path /mnt/my data" ++ [10%N; 9%N] ++
     lit "size 5" ++ [10%N; 9%N] ++ lit "tags a" ++ [10%N; 9%N] ++ lit "tags b" ++ [10%N]))
    as (d' & Hp & Hs & Ho & _).
  - intros id ty v H. unfold storage_data in H. cbn [sections] in H. apply lookup_singleton_Some in H as [<- [= <- <-]].
    exists storage_plugin, storage_map. split; [reflexivity|]. split; [reflexivity|]. apply storage_writable.
  - intros id. rewrite list_elem_of_singleton. unfold storage_data. cbn [sections]. rewrite <- not_eq_None_Some, lookup_singleton_None.
    split; [intros ->; intros E; by apply E|]. intros H. destruct (decide (id = lit "s1")) as [E|E]; [exact E|].
    exfalso. apply H. intros E'. apply E. symmetry. exact E'.
  - vm_compute. reflexivity.
  - exists d'. split_and!; [exact Hp|exact Hs|]. rewrite Ho. vm_compute. reflexivity.
Defined.

(** ** Where the format loses something *)
Section Lossy.
#[local] Existing Instance f64_text.
#[local] Existing Instance ascii_alphabetic.

Definition one_section (ty : rstr) (m : list (rstr * Value)) : SectionConfigData :=
  mkData {[lit "x" := (ty, VObject m)]} [].
Definition open_config (unknown : bool) (tk : option rstr) (s : Schema) : SectionConfig :=
  register_plugin (mkConfig ∅ plain_string default_syntax unknown tk) (mkPlugin (lit "p") s None None).
Definition reread (c : SectionConfig) (d : SectionConfigData) (ty : rstr) : option (result Value LookupError) :=
  match write_do c d [lit "x"] with
  | Ok raw => match parse c raw with Ok d' => Some (lookup_json d' ty (lit "x")) | Err _ => None end
  | Err _ => None
  end.

(** White space around a value is written and not read. *)
Lemma spaces_are_lost :
  let s := SObject false [(lit "name", false, plain_string)] None [] in
  reread (open_config false None s) (one_section (lit "p") [(lit "name", VString (lit " a "))]) (lit "p") =
  Some (Ok (VObject [(lit "name", VString (lit "a"))])).
Proof. vm_compute. reflexivity. Qed.

(** A key is written as it is: with additional properties a line feed in a key
    adds a section to the file. *)
Lemma key_adds_section :
  let c := open_config false None (SObject true [] None []) in
  let key := lit "k v" ++ [10%N; 10%N] ++ lit "p: y" ++ [10%N; 9%N] ++ lit "a" in
  match write_do c (one_section (lit "p") [(key, VString (lit "b"))]) [lit "x"] with
  | Ok raw => match parse c raw with Ok d => Some d.(order) | Err _ => None end
  | Err _ => None
  end = Some [lit "x"; lit "y"].
Proof. vm_compute. reflexivity. Qed.

(** The type of an unknown section is in its header and among its properties: it
    is read back twice. *)
Lemma unknown_type_doubles :
  let c := open_config true (Some (lit "type")) (SObject false [] None []) in
  parse c (lit "u: x" ++ [10%N]) = Ok (mkData {[lit "x" := (lit "u", VObject [(lit "type", VString (lit "u"))])]} [lit "x"]) ∧
  reread c (one_section (lit "u") [(lit "type", VString (lit "u"))]) (lit "u") =
  Some (Ok (VObject [(lit "type", VArray [VString (lit "u"); VString (lit "u")])])).
Proof. split; vm_compute; reflexivity. Qed.

(** A section that is in the file twice is written twice. *)
Lemma duplicate_id_written_twice :
  let c := open_config false None (SObject false [] None []) in
  let file := lit "p: x" ++ [10%N; 10%N] ++ lit "p: x" ++ [10%N] in
  match parse c file with Ok d => write_do c d [lit "x"] | Err _ => Err NotAnObject end = Ok file.
Proof. vm_compute. reflexivity. Qed.

(** A plugin whose schema is a choice reads sections that it cannot write. *)
Lemma one_of_section_not_written :
  let s := SOneOf (lit "kind") false plain_string [(lit "a", SObject false [(lit "n", false, plain_string)] None [])] in
  let c := open_config false None s in
  let file := lit "p: x" ++ [10%N; 9%N] ++ lit "kind a" ++ [10%N; 9%N] ++ lit "n 1" ++ [10%N] in
  match parse c file with Ok d => write_do c d [lit "x"] | Err _ => Err NotAnObject end =
  Err (SectionError (Param [(lit "kind", Msg AdditionalProperty)])).
Proof. vm_compute. reflexivity. Qed.
End Lossy.
