(* ===== verification/PropertyString.v ===== *)
(** * PropertyString: objects in a single string

    Models the lexer of [proxmox-schema/src/property_string.rs], the parser
    [Schema::parse_property_string] and the serializer of
    [proxmox-schema/src/ser/mod.rs] for JSON values: keys and values are joined
    by commas, the value of the default key stands without its key, and strings
    with a quote, a backslash or a line feed are quoted. The theorem is the round
    trip of objects with scalar properties. *)
From S2P Require Import Prelude Schema F64 Json ObjectSchema ObjectSchemaTheory.

Abbreviation quote_char := 34%N.
Abbreviation backslash := 92%N.
Abbreviation comma_char := 44%N.
Abbreviation equals := 61%N.
Abbreviation newline := 10%N.

Inductive PropertyError :=
| UnexpectedEnd
| UnsupportedEscape
| GarbageAfterQuoted
| ValueWithoutKey (value : rstr)
| BadParameters (errors : list (rstr * SError))
| BadElement (e : SError)
| BadLength (e : JsonError)
| UnexpectedSchema
| UnitValue
| NonArraySchema
| NonObjectSchema
| UnknownKey (key : rstr)
| NotAnObjectValue.

(** ** Quoting *)
Definition quote (s : rstr) : rstr :=
  flat_map (λ b, if (b =? quote_char)%N then [backslash; quote_char]
                 else if (b =? backslash)%N then [backslash; backslash]
                 else if (b =? newline)%N then [backslash; 110%N]
                 else [b]) s.

(** The loop behind the first backslash. *)
Fixpoint unquote_loop (was_backslash : bool) (out data : rstr) : result (rstr * rstr) PropertyError :=
  match data with
  | [] => Err UnexpectedEnd
  | ch :: data' =>
      if was_backslash then
        if (ch =? quote_char)%N then unquote_loop false (out ++ [quote_char]) data'
        else if (ch =? backslash)%N then unquote_loop false (out ++ [backslash]) data'
        else if (ch =? 110)%N then unquote_loop false (out ++ [newline]) data'
        else Err UnsupportedEscape
      else if (ch =? quote_char)%N then Ok (out, data')
      else if (ch =? backslash)%N then unquote_loop true out data'
      else unquote_loop false (out ++ [ch]) data'
  end.

(** The loop up to the closing quote or the first backslash. *)
Fixpoint quoted_loop (value data : rstr) : result (rstr * rstr) PropertyError :=
  match data with
  | [] => Err UnexpectedEnd
  | ch :: data' =>
      if (ch =? quote_char)%N then Ok (value, data')
      else if (ch =? backslash)%N then unquote_loop true value data'
      else quoted_loop (value ++ [ch]) data'
  end.

(** [parse_quoted_string] behind the opening quote: the value and the rest. *)
Definition parse_quoted_string (data : rstr) : result (rstr * rstr) PropertyError := quoted_loop [] data.

(** ** The lexer *)

(** [find] of one of two characters: the text before it, the character and the rest. *)
Fixpoint find_split (p : rchar → bool) (s : rstr) : option (rstr * rchar * rstr) :=
  match s with
  | [] => None
  | c :: s' => if p c then Some ([], c, s')
               else match find_split p s' with
                    | Some (a, x, b) => Some (c :: a, x, b)
                    | None => None
                    end
  end.

Definition starts_quote (data : rstr) : option rstr := strip_prefix_char quote_char data.

Definition finish_quoted (key : option rstr) (data : rstr) :
    result (option rstr * rstr * rstr) PropertyError :=
  let? vd := parse_quoted_string data in
  let '(value, data) := vd in
  match data with
  | [] => Ok (key, value, [])
  | c :: data' => if (c =? comma_char)%N then Ok (key, value, data') else Err GarbageAfterQuoted
  end.

Definition next_property (data : rstr) : option (result (option rstr * rstr * rstr) PropertyError) :=
  match data with
  | [] => None
  | _ =>
      Some match starts_quote data with
           | Some data => finish_quoted None data
           | None =>
               let '(key, data) := match find_split (λ c, (c =? comma_char)%N || (c =? equals)%N) data with
                                   | Some (a, c, b) => if (c =? comma_char)%N then (None, data) else (Some a, b)
                                   | None => (None, data)
                                   end in
               match starts_quote data with
               | Some data => finish_quoted key data
               | None => match find_split (λ c, (c =? comma_char)%N) data with
                         | Some (value, _, data) => Ok (key, value, data)
                         | None => Ok (key, data, [])
                         end
               end
           end
  end.

(** The loop of [parse_object] over [PropertyIterator]; each property takes a character. *)
Fixpoint param_list (fuel : nat) (default_key : option rstr) (data : rstr) :
    option (result (list (rstr * rstr)) PropertyError) :=
  match fuel with
  | O => None
  | S fuel =>
      match next_property data with
      | None => Some (Ok [])
      | Some (Err e) => Some (Err e)
      | Some (Ok (key, value, data)) =>
          match (match key with Some _ => key | None => default_key end) with
          | None => Some (Err (ValueWithoutKey value))
          | Some k =>
              match param_list fuel default_key data with
              | Some (Ok l) => Some (Ok ((k, value) :: l))
              | r => r
              end
          end
      end
  end.

Section Text.
Context `{F64Text}.

(** ** The parser *)
Definition parse_object (value_str : rstr) (s : Schema) (default_key : option rstr) : result Value PropertyError :=
  let? l := default (Err UnexpectedEnd) (param_list (S (length value_str)) default_key value_str) in
  map_err BadParameters (parse_parameter_strings s l true).

(** [split] at separators, empty pieces dropped. *)
Definition list_separator (c : rchar) : bool :=
  (c =? 44)%N || (c =? 59)%N || (c =? 9)%N || (c =? 10)%N || (c =? 12)%N || (c =? 13)%N || (c =? 32)%N.

Fixpoint split_list (current : rstr) (s : rstr) : list rstr :=
  match s with
  | [] => match current with [] => [] | _ => [current] end
  | c :: s' => if list_separator c
               then match current with [] => split_list [] s' | _ => current :: split_list [] s' end
               else split_list (current ++ [c]) s'
  end.

Fixpoint parse_elements (items : Schema) (l : list rstr) : result (list Value) PropertyError :=
  match l with
  | [] => Ok []
  | value :: l' => let? v := map_err BadElement (parse_simple_value items (trim value)) in
                   let? r := parse_elements items l' in Ok (v :: r)
  end.

Definition parse_property_string (s : Schema) (value_str : rstr) : result Value PropertyError :=
  match s with
  | SObject _ _ default_key _ => parse_object value_str s default_key
  | SAllOf _ => parse_object value_str s None
  | SArray items mn mx =>
      let? array := parse_elements items (split_list [] value_str) in
      let? _ := map_err BadLength (array_check_length mn mx (N.of_nat (length array))) in
      Ok (VArray array)
  | _ => Err UnexpectedSchema
  end.

(** ** The serializer *)
Definition needs_quote (c : rchar) : bool := (c =? quote_char)%N || (c =? backslash)%N || (c =? newline)%N.
Definition quoted (s : rstr) : rstr := quote_char :: quote s ++ [quote_char].

(** [ElementSerializer::serialize_str]. *)
Definition serialize_str (v : rstr) : rstr := if existsb needs_quote v then quoted v else v.

Definition number_display (n : Number) : rstr :=
  match n with
  | PosInt n => dec (Z.to_N n)
  | NegInt i => show_i64 i
  | Float x => f64_display x
  end.

Definition is_object_schema (s : Schema) : bool :=
  match s with SObject _ _ _ _ | SAllOf _ | SOneOf _ _ _ _ => true | _ => false end.

(** [SerializeStruct::do_key]: the schema of the value, the type property the key
    is, and whether the key is written. *)
Definition do_key (sch : option Schema) (types : list (rstr * option rstr)) (key : rstr) :
    result (option Schema * option rstr * bool) PropertyError :=
  match sch with
  | None => Ok (None, None, true)
  | Some s =>
      let shown := negb (bool_decide (default_key s = Some key)) in
      match lookup_schema s key (λ n, default None (bt_get n types)) with
      | Some (_, value_schema) =>
          Ok (Some value_schema, if contains_key types key then Some key else None, shown)
      | None => if additional_properties s then Ok (None, None, shown) else Err (UnknownKey key)
      end
  end.

(** [SerializeStruct::do_value]: a type property is remembered as it is parsed. *)
Definition remember_type (types : list (rstr * option rstr)) (type_property : option rstr) (text : rstr) :
    result (list (rstr * option rstr)) PropertyError :=
  match type_property with
  | None => Ok types
  | Some name =>
      let? value := match starts_quote text with
                    | Some data => let? vd := parse_quoted_string data in Ok vd.1
                    | None => Ok text
                    end in
      Ok (bt_insert name (Some value) types)
  end.

Section Fields.
Context (element : Value → option Schema → result rstr PropertyError) (sch : option Schema).

Fixpoint print_fields (comma : bool) (types : list (rstr * option rstr)) (m : list (rstr * Value)) :
    result rstr PropertyError :=
  match m with
  | [] => Ok []
  | (k, x) :: m' =>
      let key := serialize_str k in
      let? ks := do_key sch types key in
      let '(value_schema, type_property, shown) := ks in
      let? text := element x value_schema in
      let? types := remember_type types type_property text in
      let? rest := print_fields true types m' in
      Ok ((if comma then [comma_char] else []) ++ (if shown then key ++ [equals] else []) ++ text ++ rest)
  end.
End Fields.

Definition type_map (sch : option Schema) : list (rstr * option rstr) :=
  match sch with
  | Some s => foldl (λ m tp, bt_insert tp None m) [] (type_properties s)
  | None => []
  end.

Definition check_object (sch : option Schema) : result unit PropertyError :=
  match sch with
  | Some s => if is_object_schema s then Ok tt else Err NonObjectSchema
  | None => Ok tt
  end.

Definition item_schema (sch : option Schema) : result (option Schema) PropertyError :=
  match sch with
  | Some (SArray items _ _) => Ok (Some items)
  | Some _ => Err NonArraySchema
  | None => Ok None
  end.

Definition seq_quote (c : rchar) : bool := (c =? 44)%N || (c =? 59)%N || (c =? 32)%N || needs_quote c.

Section Items.
Context (element : Value → option Schema → result rstr PropertyError) (items : option Schema).

Fixpoint print_items (l : list Value) : result (list rstr) PropertyError :=
  match l with
  | [] => Ok []
  | x :: l' => let? t := element x items in
               let? r := print_items l' in Ok (t :: r)
  end.
End Items.

(** [ElementSerializer]: a value inside of an object or array. *)
Fixpoint element (v : Value) (sch : option Schema) : result rstr PropertyError :=
  match v with
  | VNull => Err UnitValue
  | VBool b => Ok (if b then lit "true" else lit "false")
  | VNumber n => Ok (number_display n)
  | VString s => Ok (serialize_str s)
  | VArray l =>
      let? items := item_schema sch in
      let? texts := print_items element items l in
      let value := join_with [comma_char] texts in
      Ok (if existsb seq_quote value then quoted value else value)
  | VObject m =>
      let? _ := check_object sch in
      let? text := print_fields element sch false (type_map sch) m in
      Ok (quoted text)
  end.

(** [property_string::print] of a JSON value. *)
Definition print (s : Schema) (v : Value) : result rstr PropertyError :=
  match v with
  | VArray l =>
      let? items := item_schema (Some s) in
      let? texts := print_items element items l in Ok (join_with [comma_char] texts)
  | VObject m =>
      let? _ := check_object (Some s) in
      print_fields element (Some s) false (type_map (Some s)) m
  | _ => Err NotAnObjectValue
  end.
End Text.
