(* ===== verification/PropertyStringTheory.v ===== *)
(** * PropertyStringTheory: the round trip of property strings *)
From S2P Require Import Prelude Schema F64 Json ObjectSchema ObjectSchemaTheory PropertyString.

(** ** Quoting *)
Lemma unquote_quote out s rest : unquote_loop false out (quote s ++ quote_char :: rest) = Ok (out ++ s, rest).
Proof.
  revert out. induction s as [|c s IH]; intros out; [by rewrite app_nil_r|].
  unfold quote. cbn [flat_map]. fold (quote s). rewrite <- app_assoc.
  destruct (N.eqb_spec c quote_char) as [->|H1]; [cbn; rewrite IH, <- app_assoc; done|].
  destruct (N.eqb_spec c backslash) as [->|H2]; [cbn; rewrite IH, <- app_assoc; done|].
  destruct (N.eqb_spec c newline) as [->|H3]; [cbn; rewrite IH, <- app_assoc; done|].
  cbn [app unquote_loop]. rewrite (proj2 (N.eqb_neq _ _) H1), (proj2 (N.eqb_neq _ _) H2), IH, <- app_assoc. done.
Qed.

Lemma quoted_quote value s rest : quoted_loop value (quote s ++ quote_char :: rest) = Ok (value ++ s, rest).
Proof.
  revert value. induction s as [|c s IH]; intros value; [by rewrite app_nil_r|].
  unfold quote. cbn [flat_map]. fold (quote s). rewrite <- app_assoc.
  destruct (N.eqb_spec c quote_char) as [->|H1]; [cbn; rewrite unquote_quote, <- app_assoc; done|].
  destruct (N.eqb_spec c backslash) as [->|H2]; [cbn; rewrite unquote_quote, <- app_assoc; done|].
  destruct (N.eqb_spec c newline) as [->|H3]; [cbn; rewrite unquote_quote, <- app_assoc; done|].
  cbn [app quoted_loop]. rewrite (proj2 (N.eqb_neq _ _) H1), (proj2 (N.eqb_neq _ _) H2), IH, <- app_assoc. done.
Qed.

(** Every string is read back from its quoted form, whatever follows. *)
Theorem parse_quoted_quote s rest : parse_quoted_string (quote s ++ quote_char :: rest) = Ok (s, rest).
Proof. apply quoted_quote. Qed.

(** ** The lexer makes progress *)
Lemma unquote_length b out data v rest :
  unquote_loop b out data = Ok (v, rest) → length rest < length data.
Proof.
  revert b out. induction data as [|c data IH]; intros b out; simpl; [done|].
  repeat case_match; intros; simplify_eq; try lia;
    match goal with H : unquote_loop _ _ _ = _ |- _ => apply IH in H; lia end.
Qed.

Lemma quoted_length value data v rest : quoted_loop value data = Ok (v, rest) → length rest < length data.
Proof.
  revert value. induction data as [|c data IH]; intros value; simpl; [done|].
  case_match; [intros; simplify_eq; lia|]. case_match; [intros Hu%unquote_length; lia|intros Hq%IH; lia].
Qed.

Lemma find_split_length p s a c b : find_split p s = Some (a, c, b) → length b < length s.
Proof.
  revert a. induction s as [|x s IH]; intros a; simpl; [done|]. destruct (p x); [intros; simplify_eq; lia|].
  destruct (find_split p s) as [[[a' c'] b']|]; [|done]. intros. simplify_eq. specialize (IH a' eq_refl). lia.
Qed.

Lemma finish_quoted_length key data k v rest : finish_quoted key data = Ok (k, v, rest) → length rest < length data.
Proof.
  unfold finish_quoted, parse_quoted_string. destruct (quoted_loop [] data) as [[v' r]|] eqn:E; [|done].
  apply quoted_length in E. cbn [rbind]. repeat case_match; intros; simplify_eq; simpl in *; lia.
Qed.

Lemma starts_quote_length data data' : starts_quote data = Some data' → length data' < length data.
Proof. unfold starts_quote. destruct data; simpl; [done|]. case_decide; intros; simplify_eq. simpl. lia. Qed.

Lemma next_property_length data k v rest : next_property data = Some (Ok (k, v, rest)) → length rest < length data.
Proof.
  unfold next_property. destruct data as [|c0 data0]; [done|]. set (data := c0 :: data0).
  assert (0 < length data) as Hpos by (simpl; lia). clearbody data. intros [= H]. revert H.
  destruct (starts_quote data) as [d|] eqn:E1; [intros H%finish_quoted_length; apply starts_quote_length in E1; lia|].
  assert (∀ key d, length d ≤ length data →
    match starts_quote d with
    | Some d => finish_quoted key d
    | None => match find_split (λ c, (c =? comma_char)%N) d with
              | Some (value, _, d) => Ok (key, value, d) | None => Ok (key, d, []) end
    end = Ok (k, v, rest) → length rest < length data) as Hd.
  { intros key d Hlen. destruct (starts_quote d) eqn:E2;
      [intros H%finish_quoted_length; apply starts_quote_length in E2; lia|].
    destruct (find_split _ d) as [[[a c] b]|] eqn:E3; intros; simplify_eq; [apply find_split_length in E3; lia|simpl; lia]. }
  destruct (find_split (λ c, (c =? comma_char)%N || (c =? equals)%N) data) as [[[a c] b]|] eqn:E2; [|by apply Hd].
  apply find_split_length in E2. destruct (c =? comma_char)%N; apply Hd; lia.
Qed.

(** The fuel of [parse_object] is enough for every string. *)
Lemma param_list_enough fuel dk data : length data < fuel → is_Some (param_list fuel dk data).
Proof.
  revert data. induction fuel as [|fuel IH]; intros data Hlen; [lia|]. cbn [param_list].
  destruct (next_property data) as [[[[k v] rest]|e]|] eqn:E; [|by eexists..].
  apply next_property_length in E. destruct (match k with Some _ => k | None => dk end); [|by eexists].
  destruct (IH rest) as [[] ->]; [lia|by eexists..].
Qed.

(** ** The lexer on a printed field *)
Lemma find_split_app p a c b :
  Forall (λ x, p x = false) a → p c = true → find_split p (a ++ c :: b) = Some (a, c, b).
Proof. intros Ha Hc. induction Ha as [|x a Hx _ IH]; simpl; [by rewrite Hc|]. by rewrite Hx, IH. Qed.

Lemma find_split_none p a : Forall (λ x, p x = false) a → find_split p a = None.
Proof. induction 1 as [|x a Hx _ IH]; simpl; [done|]. by rewrite Hx, IH. Qed.

(** What follows a field: nothing, or a comma and the rest. *)
Inductive field_end : rstr → rstr → Prop :=
| end_of_string : field_end [] []
| end_of_field rest : field_end (comma_char :: rest) rest.

Definition plain_text (t : rstr) : Prop := (comma_char ∉ t) ∧ (quote_char ∉ t).
Definition plain_key (k : rstr) : Prop :=
  (comma_char ∉ k) ∧ (equals ∉ k) ∧ existsb needs_quote k = false.

(** The text of a value: quoted, or plain. *)
Inductive value_repr (v : rstr) : rstr → Prop :=
| repr_quoted : value_repr v (quoted v)
| repr_plain : plain_text v → value_repr v v.

Lemma not_in_Forall c (t : rstr) : c ∉ t → Forall (λ x, (x =? c)%N = false) t.
Proof. intros H. apply Forall_forall. intros x Hx. apply N.eqb_neq. by intros ->. Qed.

Lemma starts_quote_none t e r : quote_char ∉ t → field_end e r → starts_quote (t ++ e) = None.
Proof.
  intros Ht He. destruct t as [|c t]; [by destruct He|]. unfold starts_quote. simpl. apply decide_False.
  intros ->. apply Ht. by left.
Qed.

Lemma finish_quoted_end key v e r : field_end e r → finish_quoted key (quote v ++ quote_char :: e) = Ok (key, v, r).
Proof.
  intros He. unfold finish_quoted, parse_quoted_string. rewrite quoted_quote. cbn [rbind app]. by destruct He.
Qed.

Lemma plain_end t e r :
  comma_char ∉ t → field_end e r →
  ∀ key : option rstr,
  match find_split (λ c, (c =? comma_char)%N) (t ++ e) with
  | Some (value, _, data) => Ok (key, value, data)
  | None => Ok (key, t ++ e, [])
  end = Ok (E := PropertyError) (key, t, r).
Proof.
  intros Ht He key. destruct He as [|rest].
  - rewrite app_nil_r, find_split_none by by apply not_in_Forall. done.
  - rewrite find_split_app by (try done; by apply not_in_Forall). done.
Qed.

Lemma next_keyed k v t e r :
  plain_key k → value_repr v t → field_end e r →
  next_property (k ++ [equals] ++ t ++ e) = Some (Ok (Some k, v, r)).
Proof.
  intros (Hc & Heq & Hq) Hv He. cbn [app].
  assert (starts_quote (k ++ equals :: t ++ e) = None) as Hs.
  { destruct k as [|c k]; [done|]. unfold starts_quote. simpl. apply decide_False. intros ->. by simpl in Hq. }
  assert (find_split (λ c, (c =? comma_char)%N || (c =? equals)%N) (k ++ equals :: t ++ e) = Some (k, equals, t ++ e)) as Hf.
  { apply find_split_app; [|done]. apply Forall_forall. intros x Hx. apply orb_false_iff.
    split; apply N.eqb_neq; by intros ->. }
  unfold next_property. destruct (k ++ equals :: t ++ e) as [|x l] eqn:E; [by destruct k|].
  rewrite Hs, Hf. cbn [N.eqb Pos.eqb]. f_equal. destruct Hv as [|[Hcv Hqv]].
  - unfold quoted. cbn [app starts_quote strip_prefix_char]. rewrite decide_True by done.
    rewrite <- app_assoc. cbn [app]. by apply finish_quoted_end.
  - rewrite (starts_quote_none _ _ r) by done. by apply plain_end.
Qed.

Lemma next_unkeyed v t e r :
  value_repr v t → (t = v → (equals ∉ v) ∧ v ≠ []) → field_end e r →
  next_property (t ++ e) = Some (Ok (None, v, r)).
Proof.
  intros Hv Hp He. destruct Hv as [|[Hcv Hqv]].
  - unfold next_property, quoted. cbn [app starts_quote strip_prefix_char]. rewrite decide_True by done.
    rewrite <- app_assoc. cbn [app]. f_equal. by apply finish_quoted_end.
  - destruct (Hp eq_refl) as [Heq Hne]. unfold next_property.
    destruct (v ++ e) as [|x l] eqn:E; [by apply app_nil in E as [-> _]|]. rewrite <- E.
    rewrite (starts_quote_none _ _ r) by done. f_equal.
    assert (Forall (λ c, (c =? comma_char)%N || (c =? equals)%N = false) v) as Hall.
    { apply Forall_forall. intros y Hy. apply orb_false_iff. split; apply N.eqb_neq; by intros ->. }
    destruct He as [|rest].
    + rewrite app_nil_r, find_split_none by done. rewrite <- (app_nil_r v) at 1.
      rewrite (starts_quote_none _ _ []) by (done || constructor).
      rewrite find_split_none by by apply not_in_Forall. done.
    + rewrite find_split_app by done. cbn [N.eqb Pos.eqb]. rewrite (starts_quote_none _ _ rest) by (done || constructor).
      rewrite find_split_app by (try done; by apply not_in_Forall). done.
Qed.

Lemma length_quote s : length s ≤ length (quote s).
Proof. induction s as [|c s IH]; [done|]. unfold quote. cbn [flat_map]. fold (quote s). rewrite length_app. repeat case_match; simpl; lia. Qed.

Lemma quoted_ne v : quoted v ≠ v.
Proof. intros E%(f_equal length). unfold quoted in E. simpl in E. rewrite length_app in E. simpl in E. pose proof (length_quote v). lia. Qed.

(** ** Printed objects *)
Section Print.
Context {F : F64Text} {FL : F64TextLaws F}.

(** A string is quoted for its quotes, backslashes and line feeds only: without
    them it must not have a comma, and the value of the default key, which stands
    alone, no equals sign. *)
Definition printable (dk : option rstr) (k : rstr) (v : Value) : Prop :=
  plain_key k ∧
  ∀ t, v = VString t →
    existsb needs_quote t = true ∨ (comma_char ∉ t) ∧ (dk = Some k → (equals ∉ t) ∧ t ≠ []).

Abbreviation text_of := (scalar_text f64_display).

Lemma number_text_plain t : Forall (λ c, number_char c = true) t → plain_text t ∧ (equals ∉ t).
Proof.
  intros H. rewrite Forall_forall in H. unfold plain_text. split_and!; intros Hin%H; done.
Qed.

Lemma not_in_text (c : rchar) (t : rstr) : bool_decide (c ∈ t) = false → c ∉ t.
Proof. by rewrite bool_decide_eq_false. Qed.

Lemma bool_text_plain (b : bool) :
  let t := if b then lit "true" else lit "false" in plain_text t ∧ (equals ∉ t) ∧ t ≠ [].
Proof.
  unfold plain_text. destruct b; split_and!; try done; apply not_in_text; vm_compute; reflexivity.
Qed.

Lemma element_number sch n :
  (∀ x, n = Float x → f64_is_finite x = true) →
  element (VNumber n) sch = Ok (text_of (VNumber n)) ∧
  (plain_text (text_of (VNumber n)) ∧ (equals ∉ text_of (VNumber n))) ∧ text_of (VNumber n) ≠ [].
Proof.
  intros Hx. split; [by destruct n|]. split.
  - apply number_text_plain. destruct n; [apply dec_number_chars|apply show_i64_chars|by apply f64_display_chars, Hx].
  - destruct n as [z|z|x]; simpl; [apply dec_spec| |by apply f64_display_nonempty, Hx].
    unfold show_i64. case_match; [done|apply dec_spec].
Qed.

(** The value is a string, or one with a plain text. *)
Lemma element_repr dk k v sch :
  printable dk k v → (∃ t, v = VString t) ∨ (∃ p, scalar_form p v) →
  ∃ t, element v sch = Ok t ∧ value_repr (text_of v) t ∧
       (dk = Some k → t = text_of v → (equals ∉ text_of v) ∧ text_of v ≠ []).
Proof.
  intros Hp Hv.
  assert (∀ s, printable dk k (VString s) → ∃ t, element (VString s) sch = Ok t ∧ value_repr s t ∧
    (dk = Some k → t = s → (equals ∉ s) ∧ s ≠ [])) as Hstr.
  { intros s [_ Hs]. exists (serialize_str s). split; [done|]. unfold serialize_str.
    destruct (Hs s eq_refl) as [Hq|[Hc He]].
    - rewrite Hq. split; [constructor|]. intros _ []%quoted_ne.
    - destruct (existsb needs_quote s) eqn:E; [split; [constructor|intros _ []%quoted_ne]|].
      split; [|auto]. apply repr_plain. split; [done|]. intros Hin.
      assert (existsb needs_quote s = true) by (apply existsb_exists; exists quote_char; split; [by apply list_elem_of_In|done]).
      congruence. }
  destruct Hv as [[t ->]|[p Hf]]; [by apply Hstr|].
  destruct p; try done; simpl in Hf.
  - destruct Hf as [b ->]. eexists. split; [done|]. split.
    + apply repr_plain, bool_text_plain.
    + intros _ _. apply bool_text_plain.
  - destruct Hf as (z & _ & ->). destruct (element_number sch (number_from_i64 z)) as (He & [Hpl Heq] & Hne).
    { unfold number_from_i64. by case_match. }
    eexists. split; [exact He|]. split; [by apply repr_plain|done].
  - destruct Hf as (x & _ & Hfin & ->). destruct (element_number sch (Float x)) as (He & [Hpl Heq] & Hne); [by intros ? [= <-]|].
    eexists. split; [exact He|]. split; [by apply repr_plain|done].
  - destruct Hf as [t ->]. by apply Hstr.
Qed.

(** *** One object schema *)
Context (a : bool) (ps : list entry) (dk : option rstr) (al : list (rstr * rstr)).
Abbreviation s := (SObject a ps dk al).

(** Properties of the schema hold scalars, additional ones strings. *)
Definition field_ok (k : rstr) (v : Value) : Prop :=
  match object_lookup ps al k with
  | Some (_, p) => scalar_form p v ∧ verify_json p v = Ok tt
  | None => a = true ∧ ∃ t, v = VString t
  end.

Definition key_of (k : rstr) : option rstr := if decide (dk = Some k) then None else Some k.
Definition texts (m : list (rstr * Value)) : list (rstr * rstr) := map (λ kv, (kv.1, text_of kv.2)) m.

Lemma key_of_default k : match key_of k with Some _ => key_of k | None => dk end = Some k.
Proof. unfold key_of. by case_decide. Qed.

Lemma field_ok_form k v : field_ok k v → (∃ t, v = VString t) ∨ (∃ p, scalar_form p v).
Proof. unfold field_ok. destruct (object_lookup _ _ _) as [[o p]|]; naive_solver. Qed.

Lemma serialize_plain_key k : plain_key k → serialize_str k = k.
Proof. intros (_ & _ & H). unfold serialize_str. by rewrite H. Qed.

Lemma do_key_ok k v :
  field_ok k v → ∃ vs, do_key (Some s) [] k = Ok (vs, None, negb (bool_decide (dk = Some k))).
Proof.
  unfold field_ok, do_key. cbn [lookup_schema default_key additional_properties].
  destruct (object_lookup ps al k) as [[o p]|]; [by eexists|]. intros [-> _]. by eexists.
Qed.

(** The text of a field, and how the lexer reads it with what follows. *)
Lemma field_text k v :
  printable dk k v → field_ok k v →
  ∃ vs t, do_key (Some s) [] k = Ok (vs, None, negb (bool_decide (dk = Some k))) ∧ element v vs = Ok t ∧
    let field := (if negb (bool_decide (dk = Some k)) then k ++ [equals] else []) ++ t in
    field ≠ [] ∧ ∀ e r, field_end e r → next_property (field ++ e) = Some (Ok (key_of k, text_of v, r)).
Proof.
  intros Hp Hf. destruct (do_key_ok _ _ Hf) as [vs Hk]. exists vs.
  destruct (element_repr dk k v vs Hp (field_ok_form _ _ Hf)) as (t & He & Hr & Hd). exists t.
  split_and!; [done..|]. unfold key_of. case_bool_decide as Hdk; cbn [negb].
  - rewrite decide_True by done. split.
    + destruct Hr as [|Hpl]; [by unfold quoted|]. by apply Hd.
    + intros e r Hend. cbn [app]. apply next_unkeyed; auto.
  - rewrite decide_False by done. split; [by destruct k|].
    intros e r Hend. rewrite <- !app_assoc. apply next_keyed; [apply Hp|done..].
Qed.

Abbreviation all_fields m := (∀ k v, (k, v) ∈ m → printable dk k v ∧ field_ok k v).

Lemma print_step comma k v m vs t rest :
  plain_key k → do_key (Some s) [] k = Ok (vs, None, negb (bool_decide (dk = Some k))) → element v vs = Ok t →
  print_fields element (Some s) true [] m = Ok rest →
  print_fields element (Some s) comma [] ((k, v) :: m) =
  Ok ((if comma then [comma_char] else []) ++
      ((if negb (bool_decide (dk = Some k)) then k ++ [equals] else []) ++ t) ++ rest).
Proof.
  intros Hk Hd He Hm. cbn [print_fields]. rewrite (serialize_plain_key k Hk), Hd. cbn [rbind].
  rewrite He. cbn [rbind remember_type]. rewrite Hm. cbn [rbind]. by rewrite <- app_assoc.
Qed.

Lemma print_tail m :
  all_fields m →
  ∃ e r, print_fields element (Some s) true [] m = Ok e ∧ field_end e r ∧ length m ≤ length e ∧
    ∀ fuel, length m < fuel → param_list fuel dk r = Some (Ok (texts m)).
Proof.
  induction m as [|[k v] m IH]; intros Hall.
  - exists [], []. split_and!; [done|constructor|done|]. intros [|fuel] Hf; [simpl in Hf; lia|done].
  - destruct IH as (e & r & Hm & Hend & Hlen & Hl); [intros ? ? ?; apply Hall; by right|].
    destruct (Hall k v) as [Hp Hf]; [by left|].
    destruct (field_text k v Hp Hf) as (vs & t & Hd & He & Hne & Hnext).
    eexists _, _. split; [by apply (print_step true k v m vs t e); [apply Hp|..]|]. cbn [app].
    split; [constructor|]. split; [simpl; rewrite length_app; lia|].
    intros [|fuel] Hfu; [simpl in Hfu; lia|]. cbn [param_list]. rewrite (Hnext e r Hend).
    rewrite key_of_default, Hl by (simpl in Hfu; lia). done.
Qed.

Lemma print_lex m :
  all_fields m →
  ∃ text, print s (VObject m) = Ok text ∧
    param_list (S (length text)) dk text = Some (Ok (texts m)).
Proof.
  intros Hall. unfold print, check_object, is_object_schema, type_map. cbn [rbind type_properties foldl].
  destruct m as [|[k v] m]; [by exists []|].
  destruct (print_tail m) as (e & r & Hm & Hend & Hlen & Hl); [intros ? ? ?; apply Hall; by right|].
  destruct (Hall k v) as [Hp Hf]; [by left|].
  destruct (field_text k v Hp Hf) as (vs & t & Hd & He & Hne & Hnext).
  eexists. split; [by apply (print_step false k v m vs t e); [apply Hp|..]|]. cbn [app].
  set (field := _ ++ t) in *. cbn [param_list]. rewrite (Hnext e r Hend), key_of_default, Hl; [done|].
  rewrite length_app. destruct field; [done|simpl; lia].
Qed.

(** *** Reading the fields back *)
Lemma parse_parameter_new g st k v :
  bt_get k st.(params) = None → field_ok k v →
  parse_parameter s g st k k (text_of v) = set_param st k v.
Proof.
  intros Hk Hf. unfold parse_parameter, field_ok, param_at in *. cbn [lookup_schema additional_properties value_at].
  rewrite Hk. cbn [from_option id is_null].
  destruct (object_lookup ps al k) as [[o p]|]; [|by destruct Hf as [-> [t ->]]].
  destruct Hf as [Hf Hv]. rewrite scalar_form_text by (done || apply f64_from_display). by destruct p.
Qed.

Lemma parameters_fold g m st :
  NoDup m.*1 → (∀ k v, (k, v) ∈ m → field_ok k v) → (∀ k, k ∈ m.*1 → lookup_alias s k = None) →
  (∀ k, k ∈ m.*1 → bt_get k st.(params) = None ∧ bt_get k st.(first_raw) = None) →
  let st' := foldl (parameter_step s g) st (texts m) in
  st'.(params) = insert_all st.(params) m ∧ st'.(errors) = st.(errors).
Proof.
  revert st. induction m as [|[k v] m IH]; intros st Hnd Hall Hal Hnew; [done|].
  unfold texts. cbn [map foldl fst snd]. fold (texts m). apply NoDup_cons in Hnd as [Hk Hnd].
  destruct (Hnew k) as [Hp Hr]; [by left|].
  assert (parameter_step s g st (k, text_of v) =
    mkParams (bt_insert k v st.(params)) st.(errors) (bt_insert k k st.(first_raw))) as ->.
  { unfold parameter_step. rewrite (Hal k) by by left. rewrite Hr. rewrite parse_parameter_new; [done|done|].
    apply Hall. by left. }
  refine (IH (mkParams _ _ _) Hnd _ _ _).
  - intros k' v' H. apply Hall. by right.
  - intros k' H. apply Hal. by right.
  - intros k' H. assert (k' ≠ k) by by intros ->. cbn [params first_raw].
    rewrite !bt_get_insert_ne by congruence. apply Hnew. by right.
Qed.

Lemma bt_sorted_NoDup {V} (m : list (rstr * V)) : bt_sorted m → NoDup m.*1.
Proof.
  induction m as [|[k v] m IH]; intros Hs; [constructor|]. destruct Hs as [Hlb Hs].
  constructor; [|auto]. apply bt_get_None. by apply bt_lb_get.
Qed.

Lemma insert_all_nil m : bt_sorted m → insert_all [] m = m.
Proof.
  intros Hs. apply bt_sorted_ext; [by apply insert_all_sorted|done|].
  intros k. rewrite insert_all_get by done. by destruct (bt_get k m).
Qed.

Lemma parameters_read m :
  bt_sorted m → (∀ k v, (k, v) ∈ m → field_ok k v) → no_alias s m → required_ok s m →
  parse_parameter_strings s (texts m) true = Ok (VObject m).
Proof.
  intros Hs Hall Hal Hreq. unfold parse_parameter_strings.
  set (g := λ name, bt_get name _).
  destruct (parameters_fold g m (mkParams [] [] [])) as [Hp He]; [by apply bt_sorted_NoDup|done| |done|].
  { intros k Hk. by apply (no_alias_lookup s m). }
  cbn [params errors] in Hp, He. rewrite insert_all_nil in Hp by done.
  destruct (foldl _ _ _) as [pa er fr]. cbn [params errors] in Hp, He. subst pa er.
  cbn [errors params]. assert (List.filter (λ e : entry, negb e.1.2 && is_null (param_at (mkParams m [] fr) e.1.1))
    (all_properties s g) = []) as ->; [|done].
  apply filter_nil. intros [[name o] p] Hin. destruct o; [done|]. cbn [fst snd negb andb].
  destruct (Hreq name p Hin) as [Hv|(k & Hk & Hl)].
  - unfold param_at. cbn [params]. by destruct (value_at (VObject m) name).
  - by rewrite (no_alias_lookup s m k Hal Hk) in Hl.
Qed.

(** Strings that the serializer and the parser agree on. *)
Definition scalar_fields (m : list (rstr * Value)) : Prop :=
  ∀ k v, (k, v) ∈ m → printable dk k v ∧
    match object_lookup ps al k with
    | Some (_, p) => scalar_form p v
    | None => ∃ t, v = VString t
    end.
End Print.

(** [C29] An object with scalar properties that its schema accepts is printed, and
    read back from what was printed: if a string has no character that is
    quoted, it must not have a comma, and as the value of the default key it must
    not be empty or have an equals sign; keys are plain and no aliases. *)
Theorem print_parse (F : F64Text) (FL : F64TextLaws F) a ps dk al m :
  bt_sorted m → no_alias (SObject a ps dk al) m → scalar_fields ps dk al m →
  verify_json (SObject a ps dk al) (VObject m) = Ok tt →
  ∃ text, print (SObject a ps dk al) (VObject m) = Ok text ∧
          parse_property_string (SObject a ps dk al) text = Ok (VObject m).
Proof.
  intros Hs Hal Hsc Hv. apply verify_object_ok, object_errors_nil in Hv as (Hv & _ & Hreq & _); [|done].
  assert (∀ k v, (k, v) ∈ m → printable dk k v ∧ field_ok a ps al k v) as Hall.
  { intros k v Hin. destruct (Hsc k v Hin) as [Hp Hf]. split; [done|]. specialize (Hv k v Hin).
    unfold value_ok in Hv. unfold field_ok. cbn [lookup_schema additional_properties] in Hv.
    by destruct (object_lookup ps al k) as [[o p]|]. }
  destruct (print_lex a ps dk al m Hall) as (text & Hprint & Hlex). exists text. split; [done|].
  unfold parse_property_string, parse_object. rewrite Hlex. cbn [from_option id rbind].
  rewrite parameters_read; [done|done| |done|done].
  intros k v Hin. by apply Hall.
Qed.

(** ** Examples *)
Definition disk_schema : Schema :=
  SObject true
    [(lit "file", false, plain_string);
     (lit "size", true, SInteger {| minimum := Some 0%Z; maximum := None |})]
    (Some (lit "file")) [(lit "volume", lit "file")].

Lemma print_parse_witness :
  print (H := f64_text) disk_schema
    (VObject [(lit "file", VString (lit "a")); (lit "note", VString [65; 34; 44]%N); (lit "size", VNumber (PosInt 3))])
  = Ok (lit "a,note=" ++ [34; 65; 92; 34; 44; 34]%N ++ lit ",size=3") ∧
  ∃ text,
    print (H := f64_text) disk_schema
      (VObject [(lit "file", VString (lit "a")); (lit "note", VString [65; 34; 44]%N); (lit "size", VNumber (PosInt 3))]) = Ok text ∧
    parse_property_string (H := f64_text) disk_schema text =
      Ok (VObject [(lit "file", VString (lit "a")); (lit "note", VString [65; 34; 44]%N); (lit "size", VNumber (PosInt 3))]).
Proof.
  split; [vm_compute; reflexivity|].
  apply (print_parse f64_text f64_text_laws); [vm_compute; tauto| | |vm_compute; reflexivity].
  - intros a c Hin. apply list_elem_of_singleton in Hin as [= -> ->]. vm_compute. reflexivity.
  - intros k v Hin. rewrite !elem_of_cons in Hin. destruct Hin as [[= -> ->]|[[= -> ->]|[[= -> ->]|[]%not_elem_of_nil]]].
    + split; [|by eexists]. split; [split_and!; [apply not_in_text| apply not_in_text|]; vm_compute; reflexivity|].
      intros t [= <-]. right. split_and!; [apply not_in_text; vm_compute; reflexivity|]. intros _. split; [apply not_in_text; vm_compute; reflexivity|done].
    + split; [|by eexists]. split; [split_and!; [apply not_in_text| apply not_in_text|]; vm_compute; reflexivity|].
      intros t [= <-]. by left.
    + split; [|by exists 3%Z]. split; [split_and!; [apply not_in_text| apply not_in_text|]; vm_compute; reflexivity|]. intros t [=].
Defined.

(** A comma does not make the serializer quote a string: it is read as the start
    of another property. *)
Lemma comma_not_quoted :
  let m := VObject [(lit "file", VString (lit "a,size=3"))] in
  print (H := f64_text) disk_schema m = Ok (lit "a,size=3") ∧
  parse_property_string (H := f64_text) disk_schema (lit "a,size=3") =
    Ok (VObject [(lit "file", VString (lit "a")); (lit "size", VNumber (PosInt 3))]).
Proof. split; vm_compute; reflexivity. Qed.

(** A combined schema prints the value of the default key alone, but does not read
    it: its default key is not passed to the parser. *)
Lemma all_of_default_key :
  let m := VObject [(lit "file", VString (lit "a"))] in
  print (H := f64_text) (SAllOf [disk_schema]) m = Ok (lit "a") ∧
  parse_property_string (H := f64_text) (SAllOf [disk_schema]) (lit "a") = Err (ValueWithoutKey (lit "a")).
Proof. split; vm_compute; reflexivity. Qed.
