(* ===== verification/Notify.v ===== *)
(** * Notify: which targets a notification reaches

    Models [proxmox-notify]: the matchers ([matcher/field.rs], [calendar.rs],
    [severity.rs], [expression.rs]) as leaves of [MatchExpr] expressions, the
    matcher configuration ([matcher/mod.rs]) with its older keys, and the bus
    ([lib.rs]) that hands a notification to endpoints. Regular expressions, the
    JSON text of an expression and the endpoints are parameters; log messages
    are left out. *)
From stdpp Require Import gmap.
From S2P Require Import Prelude Schema Gregorian TmEditor CalendarEvent Nom TimeParse MatchExpr.

Inductive NotifyError :=
| FilterFailed
| InvalidSeverity (s : rstr)
| BadSchedule (e : LineError)
| TimestampFailed (e : TimeError)
| NoValues
| BadFieldName
| NoSeverities
| EmptyRule (name : rstr)
| MutuallyExclusive (properties : list rstr)
| BadExpression
| NotSerializable
| TargetDoesNotExist (target : rstr)
| SendFailed.

(** ** Severities *)
Inductive Severity := SInfo | SNotice | SWarning | SErr | SUnknown.
#[export] Instance Severity_eq_dec : EqDecision Severity.
Proof. solve_decision. Defined.

Definition severity_to_string (s : Severity) : rstr :=
  match s with
  | SInfo => lit "info"
  | SNotice => lit "notice"
  | SWarning => lit "warning"
  | SErr => lit "error"
  | SUnknown => lit "unknown"
  end.

Definition severity_from_str (s : rstr) : result Severity NotifyError :=
  if decide (s = lit "info") then Ok SInfo
  else if decide (s = lit "notice") then Ok SNotice
  else if decide (s = lit "warning") then Ok SWarning
  else if decide (s = lit "error") then Ok SErr
  else if decide (s = lit "unknown") then Ok SUnknown
  else Err (InvalidSeverity s).

(** ** Notifications: what the matchers see of them *)
Record Metadata := mkMetadata {
  severity : Severity;
  timestamp : Z;
  additional_fields : gmap rstr rstr
}.

(** ** Regular expressions: the [regex] crate *)
Class RegexLib := {
  Regex : Type;
  regex_new : rstr → option Regex;
  regex_as_str : Regex → rstr;
  regex_is_match : Regex → rstr → bool
}.

Class RegexLaws (R : RegexLib) : Prop :=
  (** [as_str] returns the text the expression was made from. *)
  regex_new_as_str p r : regex_new p = Some r → regex_as_str r = p.

Section Matchers.
Context {R : RegexLib} {N : Nom} {L : Libc}.

Inductive FieldMatcher :=
| Exact (field : rstr) (values : list rstr)
| FieldRegex (field : rstr) (regex : Regex).

Record CalendarMatcher := mkCalendar { schedule : rstr; daily_duration : DailyDuration }.
Record SeverityMatcher := mkSeverityMatcher { severities : list Severity }.

Inductive NotificationMatcher :=
| MField (m : FieldMatcher)
| MCalendar (m : CalendarMatcher)
| MSeverity (m : SeverityMatcher).

(** *** [MatchDirective] *)
Definition field_matches (m : FieldMatcher) (n : Metadata) : result bool NotifyError :=
  Ok match m with
     | Exact field values =>
         match n.(additional_fields) !! field with
         | Some value => bool_decide (value ∈ values)
         | None => false
         end
     | FieldRegex field regex =>
         match n.(additional_fields) !! field with
         | Some value => regex_is_match regex value
         | None => false
         end
     end.

Definition field_validate (m : FieldMatcher) : result unit NotifyError :=
  match m with
  | Exact field values =>
      match values with
      | [] => Err NoValues
      | _ => if SAFE_ID_REGEX field then Ok tt else Err BadFieldName
      end
  | FieldRegex field _ => if SAFE_ID_REGEX field then Ok tt else Err BadFieldName
  end.

(** The time zone is the local one. *)
Definition calendar_matches (m : CalendarMatcher) (n : Metadata) : result bool NotifyError :=
  match time_match m.(daily_duration) n.(timestamp) false with
  | Ok b => Ok b
  | Err e => Err (TimestampFailed e)
  end.
Definition calendar_validate (m : CalendarMatcher) : result unit NotifyError := Ok tt.

Definition severity_matches (m : SeverityMatcher) (n : Metadata) : result bool NotifyError :=
  Ok (bool_decide (n.(severity) ∈ m.(severities))).
Definition severity_validate (m : SeverityMatcher) : result unit NotifyError :=
  match m.(severities) with [] => Err NoSeverities | _ => Ok tt end.

#[export] Instance notification_match : MatchExpression NotificationMatcher Metadata NotifyError := λ m n,
  match m with
  | MField m => field_matches m n
  | MCalendar m => calendar_matches m n
  | MSeverity m => severity_matches m n
  end.

Definition matcher_validate (m : NotificationMatcher) : result unit NotifyError :=
  match m with
  | MField m => field_validate m
  | MCalendar m => calendar_validate m
  | MSeverity m => severity_validate m
  end.

(** *** The inline forms *)

(** [str::split_once('=')]. *)
Definition split_equals (s : rstr) : option (rstr * rstr) :=
  match position 61%N s with
  | Some i => Some (take i s, drop (S i) s)
  | None => None
  end.

(** The pattern: an optional prefix [exact:] or [regex:], an identifier, an equals
    sign and any text without a line feed. An identifier has neither a colon nor
    an equals sign, so that there is one way to match. *)
Definition MATCH_FIELD_ENTRY_REGEX (s : rstr) : bool :=
  let rest := match strip_prefix (lit "exact:") s with
              | Some r => r
              | None => match strip_prefix (lit "regex:") s with Some r => r | None => s end
              end in
  match split_equals rest with
  | Some (field, value) => SAFE_ID_REGEX field && negb (bool_decide (10%N ∈ value))
  | None => false
  end.

Definition inline_field_to_string (m : FieldMatcher) : rstr :=
  match m with
  | Exact field values => lit "exact:" ++ field ++ [61%N] ++ join_with [44%N] values
  | FieldRegex field regex => lit "regex:" ++ field ++ [61%N] ++ regex_as_str regex
  end.

Definition inline_field_from_str (s : rstr) : result FieldMatcher NotifyError :=
  if negb (MATCH_FIELD_ENTRY_REGEX s) then Err FilterFailed
  else match strip_prefix (lit "regex:") s with
       | Some remaining =>
           match split_equals remaining with
           | None => Err FilterFailed
           | Some (field, expected) =>
               let? regex := ok_or (regex_new expected) FilterFailed in Ok (FieldRegex field regex)
           end
       | None =>
           match strip_prefix (lit "exact:") s with
           | Some remaining =>
               match split_equals remaining with
               | None => Err FilterFailed
               | Some (field, expected) => Ok (Exact field (map trim (split_on 44%N expected)))
               end
           | None => Err FilterFailed
           end
       end.

Definition calendar_to_string (m : CalendarMatcher) : rstr := m.(schedule).
Definition calendar_from_str (s : rstr) : result CalendarMatcher NotifyError :=
  match parse_daily_duration s with
  | Ok d => Ok (mkCalendar s d)
  | Err e => Err (BadSchedule e)
  end.

Definition inline_severity_to_string (m : SeverityMatcher) : rstr :=
  join_with [44%N] (map severity_to_string m.(severities)).

Fixpoint parse_severities (l : list rstr) : result (list Severity) NotifyError :=
  match l with
  | [] => Ok []
  | element :: l' => let? s := severity_from_str (trim element) in
                     let? r := parse_severities l' in Ok (s :: r)
  end.
Definition inline_severity_from_str (s : rstr) : result SeverityMatcher NotifyError :=
  let? l := parse_severities (split_on 44%N s) in Ok (mkSeverityMatcher l).

(** ** Matcher configurations *)
Inductive MatchModeOperator := ModeAll | ModeAny.

Record MatcherConfig := mkMatcher {
  name : rstr;
  match_field : list FieldMatcher;
  match_severity : list SeverityMatcher;
  match_calendar : list CalendarMatcher;
  mode : option MatchModeOperator;
  invert_match : option bool;
  expression : option rstr;
  target : list rstr;
  comment : option rstr;
  disable : option bool
}.

(** [serde_json] on [Expression<NotificationMatcher>]. *)
Class ExpressionText := {
  expression_from_str : rstr → option (Expression NotificationMatcher);
  expression_to_string : Expression NotificationMatcher → option rstr
}.
Class ExpressionTextLaws (T : ExpressionText) : Prop :=
  (** What was serialised is read back. *)
  expression_from_to_string e s : expression_to_string e = Some s → expression_from_str s = Some e.

Definition generate_expression_from_legacy_config (c : MatcherConfig) : Expression NotificationMatcher :=
  match c.(match_severity), c.(match_field), c.(match_calendar) with
  | [], [], [] => Constant true
  | _, _, _ =>
      let expressions := map (λ m, Match (MCalendar m)) c.(match_calendar) ++
                         map (λ m, Match (MField m)) c.(match_field) ++
                         map (λ m, Match (MSeverity m)) c.(match_severity) in
      let root := match default ModeAll c.(mode) with
                  | ModeAll => AllOf expressions
                  | ModeAny => AnyOf expressions
                  end in
      if default false c.(invert_match) then Not root else root
  end.

Definition properties_conflicting_with_expression (c : MatcherConfig) : list rstr :=
  (match c.(invert_match) with Some _ => [lit "invert-match"] | None => [] end) ++
  (match c.(mode) with Some _ => [lit "mode"] | None => [] end) ++
  (match c.(match_field) with [] => [] | _ => [lit "match-field"] end) ++
  (match c.(match_severity) with [] => [] | _ => [lit "match-severity"] end) ++
  (match c.(match_calendar) with [] => [] | _ => [lit "match-calendar"] end).

Definition ensure_no_ignored_properties (c : MatcherConfig) : result unit NotifyError :=
  match c.(expression) with
  | Some _ => match properties_conflicting_with_expression c with
              | [] => Ok tt
              | l => Err (MutuallyExclusive l)
              end
  | None => Ok tt
  end.

(** The loop over the children: stops at the first error. *)
Definition each_child {A} (f : A → result unit NotifyError) : list A → result unit NotifyError :=
  fix each l := match l with
                | [] => Ok tt
                | e :: l' => let? _ := f e in each l'
                end.

Fixpoint verify_match_expression_constraints (e : Expression NotificationMatcher) : result unit NotifyError :=
  match e with
  | AllOf [] => Err (EmptyRule (lit "all-of"))
  | AnyOf [] => Err (EmptyRule (lit "any-of"))
  | OneOf [] => Err (EmptyRule (lit "one-of"))
  | AllOf l | AnyOf l | OneOf l => each_child verify_match_expression_constraints l
  | Not e => verify_match_expression_constraints e
  | Match m => matcher_validate m
  | Constant _ => Ok tt
  end.

Section Config.
Context {T : ExpressionText}.

Definition set_expression (c : MatcherConfig) (e : option rstr) : MatcherConfig :=
  mkMatcher c.(name) c.(match_field) c.(match_severity) c.(match_calendar) c.(mode) c.(invert_match)
    e c.(target) c.(comment) c.(disable).

Definition ensure_valid_expression (c : MatcherConfig) : result MatcherConfig NotifyError :=
  match c.(expression) with
  | Some text =>
      match expression_from_str text with
      | Some expr =>
          let? _ := verify_match_expression_constraints expr in
          let? s := ok_or (expression_to_string expr) NotSerializable in
          Ok (set_expression c (Some s))
      | None => Err BadExpression
      end
  | None => Ok c
  end.

Definition ensure_valid (c : MatcherConfig) : result MatcherConfig NotifyError :=
  let? _ := ensure_no_ignored_properties c in ensure_valid_expression c.

(** [MatcherConfig::matches]: the targets if the notification matches. *)
Definition matches (c : MatcherConfig) (n : Metadata) : result (option (list rstr)) NotifyError :=
  let? expr := match c.(expression) with
               | Some text => ok_or (expression_from_str text) FilterFailed
               | None => Ok (generate_expression_from_legacy_config c)
               end in
  let? evaluated := evaluate n expr in
  Ok (if is_match evaluated then Some c.(target) else None).

(** [get_matcher_as_expression] on the matcher it found. *)
Definition as_expression (c : MatcherConfig) : result MatcherConfig NotifyError :=
  let? e := match c.(expression) with
            | Some text => Ok text
            | None => ok_or (expression_to_string (generate_expression_from_legacy_config c)) NotSerializable
            end in
  Ok (mkMatcher c.(name) [] [] [] None None (Some e) c.(target) c.(comment) c.(disable)).

(** A matcher that is disabled or fails contributes nothing. *)
Definition matcher_targets (n : Metadata) (c : MatcherConfig) : list rstr :=
  if default false c.(disable) then []
  else match matches c n with
       | Ok (Some t) => t
       | _ => []
       end.

Definition check_matches (matchers : list MatcherConfig) (n : Metadata) : gset rstr :=
  foldl (λ targets m, targets ∪ list_to_set (matcher_targets n m)) ∅ matchers.

(** ** The bus *)
Record Endpoint := mkEndpoint {
  ep_disabled : bool;
  ep_send : Metadata → result unit NotifyError
}.
Record Bus := mkBus { endpoints : gmap rstr Endpoint; matchers : list MatcherConfig }.

(** What happens to a target. *)
Inductive Outcome :=
| Sent (target : rstr) (r : result unit NotifyError)
| SkippedDisabled (target : rstr)
| NoSuchTarget (target : rstr).

Definition deliver (bus : Bus) (n : Metadata) (target : rstr) : Outcome :=
  match bus.(endpoints) !! target with
  | Some endpoint => if endpoint.(ep_disabled) then SkippedDisabled target
                     else Sent target (endpoint.(ep_send) n)
  | None => NoSuchTarget target
  end.

(** [Bus::send] with the targets in the order in which the hash set yields them. *)
Definition send (bus : Bus) (n : Metadata) (targets : list rstr) : list Outcome := map (deliver bus n) targets.

(** [Bus::test_target]: errors are returned, and a disabled endpoint is used. *)
Definition test_target (bus : Bus) (n : Metadata) (target : rstr) : result unit NotifyError :=
  match bus.(endpoints) !! target with
  | Some endpoint => endpoint.(ep_send) n
  | None => Err (TargetDoesNotExist target)
  end.
End Config.
End Matchers.
