(* ===== verification/NotifyTheory.v ===== *)
(** * NotifyTheory: delivery, the migration of older matchers, inline forms *)
From stdpp Require Import gmap.
From S2P Require Import Prelude Schema Gregorian TmEditor CalendarEvent Nom TimeParse MatchExpr Notify.

Section Theory.
Context {R : RegexLib} {N : Nom} {L : Libc}.

(** ** The inline forms *)
Lemma split_equals_app f v : 61%N ∉ f → split_equals (f ++ 61%N :: v) = Some (f, v).
Proof.
  intros Hf. unfold split_equals. rewrite position_app by done.
  rewrite take_app_length. replace (S (length f)) with (length (f ++ [61%N])) by (rewrite length_app; simpl; lia).
  rewrite (assoc_L (++) f [61%N] v : f ++ 61%N :: v = _). by rewrite drop_app_length.
Qed.

Lemma safe_id_no_equals f : SAFE_ID_REGEX f = true → 61%N ∉ f.
Proof. intros H. by eapply SAFE_ID_not_in. Qed.

Lemma severity_from_to s : severity_from_str (trim (severity_to_string s)) = Ok s.
Proof. by destruct s. Qed.

Lemma severity_no_comma s : 44%N ∉ severity_to_string s.
Proof. destruct s; apply (bool_decide_eq_false (_ ∈ _)); reflexivity. Qed.

(** A value of the list of an inline field matcher. *)
Definition plain_value (v : rstr) : Prop := trim v = v ∧ (44%N ∉ v) ∧ (10%N ∉ v).

Definition inline_ok (m : FieldMatcher) : Prop :=
  match m with
  | Exact field values => SAFE_ID_REGEX field = true ∧ values ≠ [] ∧ Forall plain_value values
  | FieldRegex field r =>
      SAFE_ID_REGEX field = true ∧ (∃ p, regex_new p = Some r) ∧ (10%N ∉ regex_as_str r)
  end.

Lemma entry_regex_prefix p f v :
  p = lit "exact:" ∨ p = lit "regex:" → SAFE_ID_REGEX f = true → 10%N ∉ v →
  MATCH_FIELD_ENTRY_REGEX (p ++ f ++ 61%N :: v) = true.
Proof.
  intros Hp Hf Hv. unfold MATCH_FIELD_ENTRY_REGEX. destruct Hp as [->| ->].
  - rewrite strip_prefix_app. rewrite split_equals_app by by apply safe_id_no_equals.
    rewrite Hf. by rewrite bool_decide_false.
  - change (strip_prefix (lit "exact:") (lit "regex:" ++ f ++ 61%N :: v)) with (@None rstr).
    rewrite strip_prefix_app, split_equals_app by by apply safe_id_no_equals.
    rewrite Hf. by rewrite bool_decide_false.
Qed.

Lemma join_not_in (c : rchar) l : c ≠ 44%N → Forall (λ v, c ∉ v) l → c ∉ join_with [44%N] l.
Proof.
  intros Hc. induction 1 as [|v l Hv Hl IH]; [by apply not_elem_of_nil|]. destruct l; [done|].
  cbn [join_with] in *. rewrite !not_elem_of_app, list_elem_of_singleton. done.
Qed.

(** A matcher of a metadata field and a list of severities are read back from
    their inline forms. *)
Lemma inline_field_roundtrip (RL : RegexLaws R) m :
  inline_ok m → inline_field_from_str (inline_field_to_string m) = Ok m.
Proof.
  intros Hm. unfold inline_field_from_str. destruct m as [f values|f r]; destruct Hm as (Hf & H2 & H3).
  - unfold inline_field_to_string. cbn [app].
    assert (10%N ∉ join_with [44%N] values) as Hn.
    { apply join_not_in; [done|]. eapply Forall_impl; [exact H3|]. by intros v (_ & _ & ?). }
    rewrite entry_regex_prefix by auto. cbn [negb].
    change (strip_prefix (lit "regex:") (lit "exact:" ++ f ++ 61%N :: join_with [44%N] values)) with (@None rstr).
    rewrite strip_prefix_app, split_equals_app by by apply safe_id_no_equals.
    rewrite split_on_join; [|done|eapply Forall_impl; [exact H3|by intros v (_ & ? & _)]].
    f_equal. f_equal. rewrite <- (map_id values) at 2. apply map_ext_in. intros v Hv%list_elem_of_In.
    rewrite Forall_forall in H3. by apply H3.
  - destruct H2 as [p Hp]. unfold inline_field_to_string. cbn [app]. rewrite entry_regex_prefix by auto. cbn [negb].
    rewrite strip_prefix_app, split_equals_app by by apply safe_id_no_equals.
    by rewrite (regex_new_as_str p r Hp), Hp.
Qed.

Lemma inline_severity_roundtrip m :
  m.(severities) ≠ [] → inline_severity_from_str (inline_severity_to_string m) = Ok m.
Proof.
  destruct m as [l]. simpl. intros Hl. unfold inline_severity_from_str, inline_severity_to_string. simpl.
  rewrite split_on_join; [|by destruct l|by apply Forall_forall; intros x (s & -> & _)%list_elem_of_fmap; apply severity_no_comma].
  assert (parse_severities (map severity_to_string l) = Ok l) as ->; [|done].
  clear Hl. induction l as [|s l IH]; [done|]. cbn [map parse_severities]. by rewrite severity_from_to, IH.
Qed.

(** Parsed inline forms are valid as rules. *)
Lemma split_on_ne (c : rchar) s : map trim (split_on c s) ≠ [].
Proof. pose proof (split_on_nonempty c s). by destruct (split_on c s). Qed.

Lemma inline_field_valid s m : inline_field_from_str s = Ok m → field_validate m = Ok tt.
Proof.
  unfold inline_field_from_str, MATCH_FIELD_ENTRY_REGEX.
  destruct (strip_prefix (lit "exact:") s) as [r|] eqn:E1; destruct (strip_prefix (lit "regex:") s) as [r'|] eqn:E2.
  - exfalso. change (lit "exact:") with (101%N :: lit "xact:") in E1. change (lit "regex:") with (114%N :: lit "egex:") in E2.
    destruct s as [|c s]; [done|]. cbn [strip_prefix] in E1, E2. repeat case_decide; congruence.
  - destruct (split_equals r) as [[f v]|]; [|done]. destruct (SAFE_ID_REGEX f) eqn:Ef; [|done].
    case_bool_decide; [done|]. cbn [andb negb]. intros [= <-]. cbn [field_validate]. rewrite Ef.
    pose proof (split_on_ne 44%N v). by destruct (map trim _).
  - destruct (split_equals r') as [[f v]|]; [|done]. destruct (SAFE_ID_REGEX f) eqn:Ef; [|done].
    case_bool_decide; [done|]. cbn [andb negb]. destruct (regex_new v); [|done]. intros [= <-]. simpl. by rewrite Ef.
  - by case_match.
Qed.

Lemma inline_severity_valid s m : inline_severity_from_str s = Ok m → severity_validate m = Ok tt.
Proof.
  unfold inline_severity_from_str. pose proof (split_on_nonempty 44%N s) as Hne.
  destruct (split_on 44%N s) as [|x l]; [done|]. cbn [parse_severities].
  destruct (severity_from_str _); [|done]. cbn [rbind]. destruct (parse_severities l); [|done]. by intros [= <-].
Qed.

(** ** What a matcher means *)
Section Meaning.
Context {T : ExpressionText}.

Definition matcher_expression (c : MatcherConfig) : option (Expression NotificationMatcher) :=
  match c.(expression) with
  | Some text => expression_from_str text
  | None => Some (generate_expression_from_legacy_config c)
  end.

(** The clauses of the older keys, in the order in which they are evaluated. *)
Definition clauses (c : MatcherConfig) : list NotificationMatcher :=
  map MCalendar c.(match_calendar) ++ map MField c.(match_field) ++ map MSeverity c.(match_severity).

Definition combine (m : MatchModeOperator) (l : list bool) : bool :=
  match m with ModeAll => forallb id l | ModeAny => existsb id l end.

Definition legacy_value (c : MatcherConfig) (n : Metadata) : bool :=
  match clauses c with
  | [] => true
  | l => xorb (default false c.(invert_match)) (combine (default ModeAll c.(mode)) (map (leaf_value n) l))
  end.

Lemma legacy_expression c :
  generate_expression_from_legacy_config c =
  match clauses c with
  | [] => Constant true
  | l => let root := match default ModeAll c.(mode) with
                     | ModeAll => AllOf (map Match l)
                     | ModeAny => AnyOf (map Match l)
                     end in
         if default false c.(invert_match) then Not root else root
  end.
Proof.
  unfold generate_expression_from_legacy_config, clauses.
  destruct (match_severity c) as [|sv svs], (match_field c) as [|f fs], (match_calendar c) as [|ca cas];
    repeat progress (cbn [map app]; rewrite ?map_app, ?map_map); reflexivity.
Qed.

Lemma leaves_matches l : concat (map leaves (map (Match (M := NotificationMatcher)) l)) = l.
Proof. induction l as [|m l IH]; [done|]. cbn [map concat leaves app]. by rewrite IH. Qed.

Lemma legacy_leaves c : leaves (generate_expression_from_legacy_config c) = clauses c.
Proof.
  rewrite legacy_expression. destruct (clauses c) as [|m l]; [done|]. cbn zeta.
  destruct (default ModeAll (mode c)), (default false (invert_match c)); cbn [leaves]; apply leaves_matches.
Qed.

Lemma legacy_value_of c n :
  value_of (leaf_value n) (generate_expression_from_legacy_config c) = legacy_value c n.
Proof.
  rewrite legacy_expression. unfold legacy_value. destruct (clauses c) as [|m l]; [done|]. cbn zeta.
  assert (∀ l, forallb (value_of (leaf_value n)) (map Match l) = forallb id (map (leaf_value n) l) ∧
               existsb (value_of (leaf_value n)) (map Match l) = existsb id (map (leaf_value n) l)) as H.
  { clear. induction l as [|m l [IH1 IH2]]; [done|]. cbn [map forallb existsb value_of]. by rewrite IH1, IH2. }
  destruct (H (m :: l)) as [Ha Ho].
  destruct (default ModeAll (mode c)), (default false (invert_match c)); cbn [value_of combine xorb];
    rewrite ?Ha, ?Ho; done.
Qed.

Lemma matches_expression c n e :
  matcher_expression c = Some e →
  matches c n = match first_error n (leaves e) with
                | Some err => Err err
                | None => Ok (if value_of (leaf_value n) e then Some c.(target) else None)
                end.
Proof.
  intros He. unfold matches. assert (match expression c with
    | Some text => ok_or (expression_from_str text) FilterFailed
    | None => Ok (generate_expression_from_legacy_config c) end = Ok e) as ->.
  { unfold matcher_expression in He. destruct (expression c); [by rewrite He|by simplify_eq]. }
  cbn [rbind]. rewrite evaluate_reference. unfold reference. destruct (first_error _ _); [done|]. cbn [rbind].
  by rewrite is_match_annotate.
Qed.

Lemma matches_no_expression c n : matcher_expression c = None → matches c n = Err FilterFailed.
Proof. unfold matcher_expression, matches. destruct (expression c); [|done]. by intros ->. Qed.

(** The notification is selected for a target: the matcher is enabled, its
    expression can be evaluated and is true. *)
Definition selects (c : MatcherConfig) (n : Metadata) (t : rstr) : Prop :=
  c.(disable) ≠ Some true ∧ t ∈ c.(target) ∧
  ∃ e, matcher_expression c = Some e ∧ first_error n (leaves e) = None ∧ value_of (leaf_value n) e = true.

Lemma matcher_targets_selects c n t : t ∈ matcher_targets n c ↔ selects c n t.
Proof.
  unfold matcher_targets, selects. destruct (default false (disable c)) eqn:Ed.
  - split; [intros []%not_elem_of_nil|]. intros [Hd _]. by destruct (disable c) as [[]|].
  - assert (disable c ≠ Some true) by (intros E; by rewrite E in Ed).
    destruct (matcher_expression c) as [e|] eqn:He.
    + rewrite (matches_expression c n e He). destruct (first_error n (leaves e)) eqn:Ef.
      * split; [intros []%not_elem_of_nil|]. intros (_ & _ & e' & [= <-] & Hf & _). congruence.
      * destruct (value_of (leaf_value n) e) eqn:Ev; [naive_solver|].
        split; [intros []%not_elem_of_nil|]. intros (_ & _ & e' & [= <-] & _ & Hv). congruence.
    + rewrite matches_no_expression by done. split; [intros []%not_elem_of_nil|naive_solver].
Qed.

Lemma elem_of_check_matches ms n t : t ∈ check_matches ms n ↔ ∃ c, c ∈ ms ∧ selects c n t.
Proof.
  unfold check_matches.
  assert (∀ acc : gset rstr, t ∈ foldl (λ targets m, targets ∪ list_to_set (matcher_targets n m)) acc ms ↔
    t ∈ acc ∨ ∃ c, c ∈ ms ∧ selects c n t) as H; [|rewrite H; set_solver].
  induction ms as [|m ms IH]; intros acc; simpl; [split; [by left|]; intros [?|(c & []%not_elem_of_nil & _)]; done|].
  rewrite IH, elem_of_union, elem_of_list_to_set, matcher_targets_selects. setoid_rewrite elem_of_cons. naive_solver.
Qed.

Lemma deliver_target bus n t t' : deliver bus n t = deliver bus n t' → t = t'.
Proof. unfold deliver. repeat case_match; naive_solver. Qed.

(** [C24] A notification is handed to exactly the enabled endpoints that an
    enabled matcher selects, once each, whatever the order of the targets and
    whatever the result of the others; a matcher that cannot be evaluated selects
    nothing. *)
Theorem send_delivers bus n order :
  order ≡ₚ elements (check_matches bus.(matchers) n) →
  NoDup (send bus n order) ∧
  ∀ t r, Sent t r ∈ send bus n order ↔
    ∃ ep, bus.(endpoints) !! t = Some ep ∧ ep.(ep_disabled) = false ∧ r = ep.(ep_send) n ∧
          ∃ c, c ∈ bus.(matchers) ∧ selects c n t.
Proof.
  intros Hperm. split.
  - unfold send. apply NoDup_fmap_2_strong; [intros ? ? _ _; apply deliver_target|]. rewrite Hperm. apply NoDup_elements.
  - intros t r. unfold send. rewrite list_elem_of_fmap.
    assert (∀ t, t ∈ order ↔ ∃ c, c ∈ bus.(matchers) ∧ selects c n t) as Ho
      by (intros x; by rewrite Hperm, elem_of_elements, elem_of_check_matches).
    unfold deliver. split.
    + intros (x & Hx & Hin%Ho). repeat case_match; simplify_eq; eauto 10.
    + intros (ep & Hep & Hd & -> & Hs). exists t. rewrite Hep, Hd, Ho. auto.
Qed.

(** ** The older keys as an expression *)

(** The clauses were read from their inline forms. *)
Definition parsed_clauses (c : MatcherConfig) : Prop :=
  (∀ m, m ∈ c.(match_field) → ∃ s, inline_field_from_str s = Ok m) ∧
  (∀ m, m ∈ c.(match_severity) → ∃ s, inline_severity_from_str s = Ok m).

Lemma each_child_ok {A} (f : A → result unit NotifyError) l :
  (∀ x, x ∈ l → f x = Ok tt) → each_child f l = Ok tt.
Proof.
  induction l as [|x l IH]; intros H; [done|]. cbn [each_child]. rewrite H by by left. cbn [rbind].
  apply IH. intros y Hy. apply H. by right.
Qed.

Lemma clauses_valid c : parsed_clauses c → ∀ m, m ∈ clauses c → matcher_validate m = Ok tt.
Proof.
  intros [Hf Hs] m. unfold clauses. rewrite !elem_of_app, !list_elem_of_fmap.
  intros [(x & -> & Hx)|[(x & -> & Hx)|(x & -> & Hx)]]; simpl; [done| |].
  - destruct (Hf x Hx) as [s E]. by eapply inline_field_valid.
  - destruct (Hs x Hx) as [s E]. by eapply inline_severity_valid.
Qed.

Lemma legacy_valid c :
  parsed_clauses c → verify_match_expression_constraints (generate_expression_from_legacy_config c) = Ok tt.
Proof.
  intros Hp. pose proof (clauses_valid c Hp) as Hc. rewrite legacy_expression. destruct (clauses c) as [|m l] eqn:E; [done|]. cbn zeta.
  assert (each_child verify_match_expression_constraints (map Match (m :: l)) = Ok tt).
  { apply each_child_ok. intros x (y & -> & Hy)%list_elem_of_fmap. simpl. auto. }
  destruct (default ModeAll (mode c)), (default false (invert_match c)); done.
Qed.

(** A matcher with the older keys is shown as an expression that means the
    same for every notification: the negation, if it is inverted, of all or one
    of the clauses, true if there are none; an error of a clause is an error of
    both. The result is accepted as it is when it is saved again. *)
Theorem as_expression_equivalent (TL : ExpressionTextLaws T) c c' :
  c.(expression) = None → parsed_clauses c → as_expression c = Ok c' →
  ensure_valid c' = Ok c' ∧
  ∀ n, matches c' n = matches c n ∧
       matches c n = match first_error n (clauses c) with
                     | Some err => Err err
                     | None => Ok (if legacy_value c n then Some c.(target) else None)
                     end.
Proof.
  intros Hn Hp. unfold as_expression. rewrite Hn.
  destruct (expression_to_string _) as [s|] eqn:Es; [|done]. cbn [ok_or rbind]. intros [= <-].
  pose proof (expression_from_to_string _ _ Es) as Hr. split.
  - unfold ensure_valid, ensure_no_ignored_properties, ensure_valid_expression. cbn.
    rewrite Hr, legacy_valid by done. cbn [rbind]. by rewrite Es.
  - intros n. assert (matcher_expression c = Some (generate_expression_from_legacy_config c)) as Hc
      by (unfold matcher_expression; by rewrite Hn).
    rewrite (matches_expression c n _ Hc). erewrite matches_expression by (unfold matcher_expression; exact Hr).
    rewrite legacy_leaves, legacy_value_of. done.
Qed.
End Meaning.
End Theory.

(** ** Examples *)

(** Regular expressions without special characters match where they occur. *)
Fixpoint occurs (p s : rstr) : bool :=
  match strip_prefix p s with
  | Some _ => true
  | None => match s with [] => false | _ :: s' => occurs p s' end
  end.
Definition literal_regex : RegexLib := {|
  Regex := rstr;
  regex_new p := if forallb is_ascii_alphanumeric p then Some p else None;
  regex_as_str r := r;
  regex_is_match := occurs
|}.
#[export] Instance literal_regex_laws : RegexLaws literal_regex.
Proof. intros p r. unfold regex_new, regex_as_str. simpl. case_match; congruence. Qed.

(** The texts of constants and of a rule for errors. *)
Definition error_text : rstr := lit "{'all-of':[{'match':{'type':'severity','severities':['error']}}]}".
Definition few_expressions : ExpressionText (R := literal_regex) := {|
  expression_from_str s :=
    if decide (s = error_text) then Some (AllOf [Match (MSeverity (mkSeverityMatcher [SErr]))])
    else if decide (s = lit "{'constant':true}") then Some (Constant true)
    else None;
  expression_to_string e :=
    match e with
    | AllOf [Match (MSeverity (mkSeverityMatcher [SErr]))] => Some error_text
    | Constant true => Some (lit "{'constant':true}")
    | _ => None
    end
|}.
#[export] Instance few_expressions_laws : ExpressionTextLaws few_expressions.
Proof.
  intros e s. unfold expression_to_string, expression_from_str, few_expressions.
  repeat (case_match; try done); intros [= <-]; simplify_eq; done.
Qed.

Section Examples.
#[local] Existing Instance literal_regex.
#[local] Existing Instance nom_complete.
#[local] Existing Instance libc_utc.
#[local] Existing Instance few_expressions.

Definition on_error : MatcherConfig :=
  mkMatcher (lit "default") [] [mkSeverityMatcher [SErr]] [] None None None [lit "mail"; lit "gone"] None None.
Definition example_bus : Bus := mkBus {[lit "mail" := mkEndpoint false (λ _, Ok tt)]} [on_error].
Definition example_error : Metadata := mkMetadata SErr 29100 ∅.

Lemma send_delivers_witness :
  Sent (lit "mail") (Ok tt) ∈ send example_bus example_error [lit "mail"; lit "gone"].
Proof.
  apply (send_delivers example_bus example_error [lit "mail"; lit "gone"]).
  - apply NoDup_Permutation; [by apply (bool_decide_unpack _)|apply NoDup_elements|].
    intros t. rewrite elem_of_elements, elem_of_check_matches. split.
    + intros Ht. exists on_error. split; [by left|]. split; [done|]. split; [exact Ht|].
      eexists. split; [reflexivity|]. split; vm_compute; reflexivity.
    + intros (c & Hc & _ & Ht & _). apply list_elem_of_singleton in Hc as ->. exact Ht.
  - exists (mkEndpoint false (λ _, Ok tt)). split_and!; [vm_compute; reflexivity|done|done|].
    exists on_error. split; [by left|]. split; [done|]. split; [by left|].
    eexists. split; [reflexivity|]. split; vm_compute; reflexivity.
Defined.

Definition on_error_expression : MatcherConfig :=
  mkMatcher (lit "default") [] [] [] None None (Some error_text) [lit "mail"; lit "gone"] None None.

Lemma as_expression_equivalent_witness :
  ensure_valid on_error_expression = Ok on_error_expression ∧
  matches on_error_expression example_error = matches on_error example_error ∧
  matches on_error example_error = Ok (Some [lit "mail"; lit "gone"]).
Proof.
  destruct (as_expression_equivalent few_expressions_laws on_error on_error_expression) as [Hv H].
  - reflexivity.
  - split; intros m Hm; [by apply not_elem_of_nil in Hm|]. exists (lit "error").
    apply list_elem_of_singleton in Hm as ->. vm_compute. reflexivity.
  - vm_compute. reflexivity.
  - destruct (H example_error) as [H1 H2]. split_and!; [exact Hv|exact H1|]. rewrite H2. vm_compute. reflexivity.
Defined.

(** An error of one clause is an error of the matcher, although another clause
    decides it: in the mode [any] a severity that matches does not select a
    notification whose time cannot be converted. *)
Definition no_clock : Libc := {| libc_gmtime_r := λ _, None; libc_localtime_r := λ _, None; libc_timegm := λ t, (-1, t)%Z; libc_mktime := λ t, (-1, t)%Z |}.
Lemma any_clause_error :
  matches (L := no_clock) (T := few_expressions)
    (mkMatcher (lit "m") [] [mkSeverityMatcher [SErr]] [mkCalendar (lit "0-23") (mkDuration 0 (mkHm 0 0) (mkHm 23 0))]
       (Some ModeAny) None None [lit "mail"] None None) example_error = Err (TimestampFailed LibcFailed).
Proof. vm_compute. reflexivity. Qed.

(** A comma inside of a value is a separator of the inline form. *)
Lemma inline_comma :
  inline_field_from_str (inline_field_to_string (Exact (lit "f") [lit "a,b"])) = Ok (Exact (lit "f") [lit "a"; lit "b"]).
Proof. vm_compute. reflexivity. Qed.
End Examples.
