(* ===== verification/NotifyConfig.v ===== *)
(** * NotifyConfig: the notification configuration and its API

    Models [Config] of [proxmox-notify/src/lib.rs], which merges the sections of
    [notifications.cfg] with the built-in ones and marks where each section comes
    from, and the operations on it: [api/mod.rs], [api/matcher.rs], and adding and
    deleting the endpoints of [api/sendmail.rs], [api/gotify.rs], [api/smtp.rs] and
    [api/webhook.rs]. Files are parsed and
    written by [SectionConfig]; the schemas of the section types, which a macro
    generates, and the conversion of matchers from and to JSON are parameters. *)
From Stdlib Require Import SpecFloat.
From stdpp Require Import gmap.
From S2P Require Import Prelude Schema F64 Json ObjectSchema SectionConfig.
From S2P Require Import Gregorian TmEditor CalendarEvent Nom TimeParse MatchExpr Notify.

(** ** Equality of JSON values *)
Definition number_eqb (a b : Number) : bool :=
  match a, b with
  | PosInt x, PosInt y => (x =? y)%Z
  | NegInt x, NegInt y => (x =? y)%Z
  | Float x, Float y => SFeqb x y
  | _, _ => false
  end.

Fixpoint value_eqb (a b : Value) : bool :=
  match a, b with
  | VNull, VNull => true
  | VBool x, VBool y => Bool.eqb x y
  | VNumber x, VNumber y => number_eqb x y
  | VString x, VString y => bool_decide (x = y)
  | VArray x, VArray y =>
      (fix items l1 l2 := match l1, l2 with
                          | [], [] => true
                          | v1 :: l1, v2 :: l2 => value_eqb v1 v2 && items l1 l2
                          | _, _ => false
                          end) x y
  | VObject x, VObject y =>
      (fix fields m1 m2 := match m1, m2 with
                           | [], [] => true
                           | (k1, v1) :: m1, (k2, v2) :: m2 =>
                               bool_decide (k1 = k2) && value_eqb v1 v2 && fields m1 m2
                           | _, _ => false
                           end) x y
  | _, _ => false
  end.

(** ** The configuration *)
Inductive HttpStatus := BAD_REQUEST | NOT_FOUND | INTERNAL_SERVER_ERROR.

Definition origin_key : rstr := lit "origin".
Definition MATCHER_TYPENAME : rstr := lit "matcher".
Definition SENDMAIL_TYPENAME : rstr := lit "sendmail".
Definition GOTIFY_TYPENAME : rstr := lit "gotify".
Definition SMTP_TYPENAME : rstr := lit "smtp".
Definition WEBHOOK_TYPENAME : rstr := lit "webhook".

Record Config := mkNotify {
  config : SectionConfigData;
  private_config : SectionConfigData;
  digest : list N
}.

Abbreviation Sections := (gmap rstr (rstr * Value)).

(** [obj.insert("origin", …)] of an object. *)
Definition set_origin (origin : rstr) (v : Value) : Value := value_set v origin_key (VString origin).

(** A section of the built-in configuration. *)
Definition merge_builtin_section (key : rstr) (builtin : rstr * Value) (sections : Sections) : Sections :=
  let '(builtin_typename, builtin_value) := builtin in
  match sections !! key with
  | Some (typename, value) =>
      if bool_decide (builtin_typename = typename) && value_eqb value builtin_value
      then <[key := (typename, set_origin (lit "builtin") value)]> sections
      else <[key := (typename, set_origin (lit "modified-builtin") value)]> sections
  | None => <[key := (builtin_typename, set_origin (lit "builtin") builtin_value)]> sections
  end.

(** Every section that has no origin yet was created by the user. *)
Definition mark_user_created (section : rstr * Value) : rstr * Value :=
  match section.2 with
  | VObject m => match bt_get origin_key m with
                 | None => (section.1, set_origin (lit "user-created") section.2)
                 | Some _ => section
                 end
  | _ => section
  end.

Definition merge_builtin (builtin sections : Sections) : Sections :=
  mark_user_created <$> map_fold merge_builtin_section sections builtin.

(** [Config::write] leaves out the origin. *)
Definition remove_origin (section : rstr * Value) : rstr * Value :=
  match section.2 with
  | VObject m => (section.1, VObject (bt_remove origin_key m))
  | _ => section
  end.

Section Files.
Context `{F64Text} `{Alphabetic}.
Context (config_parser private_config_parser : SectionConfig) (sha256 : rstr → list N) (default_config : rstr).

Definition config_new (raw_config raw_private_config : rstr) : result Config (nat * ConfigError) :=
  let? c := parse config_parser raw_config in
  let? p := parse private_config_parser raw_private_config in
  let? builtin_config := parse config_parser default_config in
  Ok (mkNotify (mkData (merge_builtin builtin_config.(sections) c.(sections)) c.(order)) p (sha256 raw_config)).

(** [keys] and [private_keys] are the sections in the order of the hash maps. *)
Definition config_write (c : Config) (keys private_keys : list rstr) : result (rstr * rstr) ConfigError :=
  let? public := write_do config_parser
                   (mkData (remove_origin <$> c.(config).(sections)) c.(config).(order)) keys in
  let? private := write_do private_config_parser c.(private_config) private_keys in
  Ok (public, private).
End Files.

(** ** The API *)
Section Api.
Context {R : RegexLib} {T : ExpressionText}.

(** The derived conversions: [None] is an error of [serde]. *)
Class EntityCodec := {
  matcher_from_value : Value → option MatcherConfig;
  matcher_to_value : MatcherConfig → option Value;
  (** whether the value of a section is an endpoint of the type *)
  is_endpoint : rstr → Value → bool
}.
Context {C : EntityCodec}.

Definition verify_digest (c : Config) (d : option (list N)) : result unit HttpStatus :=
  match d with
  | Some d => if decide (c.(digest) = d) then Ok tt else Err BAD_REQUEST
  | None => Ok tt
  end.

(** [get_endpoint] of an endpoint type. *)
Definition get_endpoint (c : Config) (typename name : rstr) : bool :=
  match lookup_json c.(config) typename name with
  | Ok v => is_endpoint typename v
  | Err _ => false
  end.

Definition ensure_endpoint_exists (c : Config) (name : rstr) : result unit HttpStatus :=
  if get_endpoint c SENDMAIL_TYPENAME name || get_endpoint c GOTIFY_TYPENAME name ||
     get_endpoint c SMTP_TYPENAME name || get_endpoint c WEBHOOK_TYPENAME name
  then Ok tt else Err NOT_FOUND.

Fixpoint ensure_endpoints_exist (c : Config) (endpoints : list rstr) : result unit HttpStatus :=
  match endpoints with
  | [] => Ok tt
  | e :: endpoints' => let? _ := ensure_endpoint_exists c e in ensure_endpoints_exist c endpoints'
  end.

Definition ensure_unique (c : Config) (entity : rstr) : result unit HttpStatus :=
  if decide (is_Some (c.(config).(sections) !! entity)) then Err BAD_REQUEST else Ok tt.

Definition get_matcher (c : Config) (name : rstr) : result MatcherConfig HttpStatus :=
  match lookup_json c.(config) MATCHER_TYPENAME name with
  | Ok v => ok_or (matcher_from_value v) NOT_FOUND
  | Err _ => Err NOT_FOUND
  end.

(** [convert_to_typed_array]: the first value that cannot be converted is an error. *)
Fixpoint typed_matchers (l : list (rstr * Value)) : result (list MatcherConfig) HttpStatus :=
  match l with
  | [] => Ok []
  | (section_type, data) :: l' =>
      if decide (section_type = MATCHER_TYPENAME) then
        let? m := ok_or (matcher_from_value data) INTERNAL_SERVER_ERROR in
        let? r := typed_matchers l' in Ok (m :: r)
      else typed_matchers l'
  end.
Definition get_matchers (c : Config) : result (list MatcherConfig) HttpStatus :=
  typed_matchers (map_to_list c.(config).(sections)).*2.

Definition get_referrers (c : Config) (entity : rstr) : result (gset rstr) HttpStatus :=
  let? ms := get_matchers c in
  Ok (list_to_set (map name (List.filter (λ m, bool_decide (entity ∈ m.(target))) ms))).

Definition is_builtin_origin (v : Value) : bool :=
  match value_at v origin_key with
  | VString s => bool_decide (s = lit "builtin") || bool_decide (s = lit "modified-builtin")
  | _ => false
  end.

Definition ensure_safe_to_delete (c : Config) (entity : rstr) : result unit HttpStatus :=
  match c.(config).(sections) !! entity with
  | None => Err NOT_FOUND
  | Some (_, v) =>
      if is_builtin_origin v then Ok tt
      else
        let? referrers := get_referrers c entity in
        if decide (referrers = ∅) then Ok tt else Err BAD_REQUEST
  end.

(** *** Which entities an entity refers to *)
Definition referenced (c : Config) (entity : rstr) : list rstr :=
  match get_matcher c entity with Ok m => m.(target) | Err _ => [] end.

Definition expand (c : Config) (entities : gset rstr) : gset rstr :=
  list_to_set (flat_map (referenced c) (elements entities)).

Fixpoint referenced_loop (fuel : nat) (c : Config) (to_expand expanded : gset rstr) : option (gset rstr) :=
  match fuel with
  | O => None
  | S fuel =>
      if decide (to_expand = ∅) then Some expanded
      else referenced_loop fuel c (expand c to_expand) (expanded ∪ to_expand)
  end.
Definition get_referenced_entities (fuel : nat) (c : Config) (entity : rstr) : option (gset rstr) :=
  referenced_loop fuel c {[entity]} ∅.

(** *** Operations *)
Definition set_section (c : Config) (name type_name : rstr) (v : Value) : Config :=
  mkNotify (set_data c.(config) name type_name v) c.(private_config) c.(digest).
Definition remove_section (c : Config) (name : rstr) : Config :=
  mkNotify (mkData (delete name c.(config).(sections)) c.(config).(order)) c.(private_config) c.(digest).
Definition set_private_config_entry (c : Config) (name type_name : rstr) (v : Value) : Config :=
  mkNotify c.(config) (set_data c.(private_config) name type_name v) c.(digest).
Definition remove_private_config_entry (c : Config) (name : rstr) : Config :=
  mkNotify c.(config) (mkData (delete name c.(private_config).(sections)) c.(private_config).(order)) c.(digest).

Definition save_matcher (c : Config) (name : rstr) (m : MatcherConfig) : result Config HttpStatus :=
  let? m := map_err (λ _, BAD_REQUEST) (ensure_valid m) in
  let? v := ok_or (matcher_to_value m) INTERNAL_SERVER_ERROR in
  Ok (set_section c name MATCHER_TYPENAME v).

Definition add_matcher (c : Config) (m : MatcherConfig) : result Config HttpStatus :=
  let? _ := ensure_unique c m.(name) in
  let? _ := ensure_endpoints_exist c m.(target) in
  save_matcher c m.(name) m.

Inductive DeleteableMatcherProperty :=
| DComment | DDisable | DInvertMatch | DMatchCalendar | DMatchField | DMatchSeverity | DMode | DExpression | DTarget.

Definition delete_property (m : MatcherConfig) (p : DeleteableMatcherProperty) : MatcherConfig :=
  let '(mkMatcher na mf ms mc mo im ex ta co di) := m in
  match p with
  | DComment => mkMatcher na mf ms mc mo im ex ta None di
  | DDisable => mkMatcher na mf ms mc mo im ex ta co None
  | DInvertMatch => mkMatcher na mf ms mc mo None ex ta co di
  | DMatchCalendar => mkMatcher na mf ms [] mo im ex ta co di
  | DMatchField => mkMatcher na [] ms mc mo im ex ta co di
  | DMatchSeverity => mkMatcher na mf [] mc mo im ex ta co di
  | DMode => mkMatcher na mf ms mc None im ex ta co di
  | DExpression => mkMatcher na mf ms mc mo im None ta co di
  | DTarget => mkMatcher na mf ms mc mo im ex [] co di
  end.

Record MatcherConfigUpdater := mkUpdater {
  up_match_field : option (list FieldMatcher);
  up_match_severity : option (list SeverityMatcher);
  up_match_calendar : option (list CalendarMatcher);
  up_mode : option MatchModeOperator;
  up_invert_match : option bool;
  up_expression : option rstr;
  up_target : option (list rstr);
  up_comment : option rstr;
  up_disable : option bool
}.

Definition apply_updater (m : MatcherConfig) (u : MatcherConfigUpdater) : MatcherConfig :=
  mkMatcher m.(name)
    (default m.(match_field) u.(up_match_field)) (default m.(match_severity) u.(up_match_severity))
    (default m.(match_calendar) u.(up_match_calendar)) (opt_or u.(up_mode) m.(mode))
    (opt_or u.(up_invert_match) m.(invert_match)) (opt_or u.(up_expression) m.(expression))
    (default m.(target) u.(up_target)) (opt_or u.(up_comment) m.(comment)) (opt_or u.(up_disable) m.(disable)).

Definition update_matcher (c : Config) (name : rstr) (u : MatcherConfigUpdater)
    (del : option (list DeleteableMatcherProperty)) (d : option (list N)) : result Config HttpStatus :=
  let? _ := verify_digest c d in
  let? m := get_matcher c name in
  let m := foldl delete_property m (default [] del) in
  let? _ := match u.(up_target) with Some t => ensure_endpoints_exist c t | None => Ok tt end in
  save_matcher c name (apply_updater m u).

Definition delete_matcher (c : Config) (name : rstr) : result Config HttpStatus :=
  let? _ := get_matcher c name in Ok (remove_section c name).

(** *** Endpoints

    The configuration is changed in place, so that a call returns it also with an
    error. A configuration that is saved is given by its name and by its value,
    [None] if it cannot be serialised. *)
Definition save_endpoint (c : Config) (typename name : rstr) (v : option Value) : Config * result unit HttpStatus :=
  match v with
  | Some v => (set_section c name typename v, Ok tt)
  | None => (c, Err INTERNAL_SERVER_ERROR)
  end.
Definition save_with_private (c : Config) (typename name : rstr) (v private : option Value)
    : Config * result unit HttpStatus :=
  match private with
  | Some p => save_endpoint (set_private_config_entry c name typename p) typename name v
  | None => (c, Err INTERNAL_SERVER_ERROR)
  end.

(** [sendmail::add_endpoint] *)
Definition add_sendmail_endpoint (c : Config) (name : rstr) (mailto mailto_user : list rstr) (v : option Value)
    : Config * result unit HttpStatus :=
  match ensure_unique c name with
  | Err e => (c, Err e)
  | Ok _ =>
      if decide (mailto = [] ∧ mailto_user = []) then (c, Err BAD_REQUEST)
      else save_endpoint c SENDMAIL_TYPENAME name v
  end.

(** [gotify::add_endpoint]; [None] is the panic for different names. *)
Definition add_gotify_endpoint (c : Config) (name private_name : rstr) (v private : option Value)
    : option (Config * result unit HttpStatus) :=
  if decide (name = private_name) then
    Some match ensure_unique c name with
         | Err e => (c, Err e)
         | Ok _ => save_with_private c GOTIFY_TYPENAME name v private
         end
  else None.

(** [smtp::add_endpoint] *)
Definition add_smtp_endpoint (c : Config) (name private_name : rstr) (mailto mailto_user : list rstr)
    (v private : option Value) : option (Config * result unit HttpStatus) :=
  if decide (name = private_name) then
    Some match ensure_unique c name with
         | Err e => (c, Err e)
         | Ok _ =>
             if decide (mailto = [] ∧ mailto_user = []) then (c, Err BAD_REQUEST)
             else save_with_private c SMTP_TYPENAME name v private
         end
  else None.

(** [webhook::add_endpoint]; [v] is the value without the secrets. *)
Definition add_webhook_endpoint (c : Config) (name : rstr) (v private : option Value) : Config * result unit HttpStatus :=
  match ensure_unique c name with
  | Err e => (c, Err e)
  | Ok _ => save_with_private c WEBHOOK_TYPENAME name v private
  end.

(** [sendmail::delete_endpoint] *)
Definition delete_sendmail_endpoint (c : Config) (name : rstr) : result Config HttpStatus :=
  if get_endpoint c SENDMAIL_TYPENAME name then
    let? _ := ensure_safe_to_delete c name in Ok (remove_section c name)
  else Err NOT_FOUND.

Definition delete_private_endpoint (typename : rstr) (c : Config) (name : rstr) : result Config HttpStatus :=
  if get_endpoint c typename name then
    let? _ := ensure_safe_to_delete c name in
    Ok (remove_section (remove_private_config_entry c name) name)
  else Err NOT_FOUND.
Definition delete_gotify_endpoint : Config → rstr → result Config HttpStatus := delete_private_endpoint GOTIFY_TYPENAME.
Definition delete_smtp_endpoint : Config → rstr → result Config HttpStatus := delete_private_endpoint SMTP_TYPENAME.
Definition delete_webhook_endpoint : Config → rstr → result Config HttpStatus := delete_private_endpoint WEBHOOK_TYPENAME.
End Api.
