(* ===== verification/NotifyConfigTheory.v ===== *)
(** * NotifyConfigTheory: saving and loading, references between entities *)
From Stdlib Require Import SpecFloat.
From stdpp Require Import gmap.
From S2P Require Import Prelude Schema F64 Json ObjectSchema ObjectSchemaTheory SectionConfig SectionConfigTheory.
From S2P Require Import Gregorian TmEditor CalendarEvent Nom TimeParse MatchExpr Notify NotifyTheory NotifyConfig.

(** ** Equality of values is reflexive without NaN *)
Fixpoint no_nan (v : Value) : bool :=
  match v with
  | VNumber (Float x) => negb (f64_is_nan x)
  | VArray l => forallb no_nan l
  | VObject m => forallb (λ kv, no_nan kv.2) m
  | _ => true
  end.

Lemma SFeqb_refl x : f64_is_nan x = false → SFeqb x x = true.
Proof.
  destruct x as [s|s| |s m e]; try done; [by destruct s|]. intros _. unfold SFeqb, SFcompare.
  destruct s; by rewrite Z.compare_refl, Pos.compare_cont_refl.
Qed.

Lemma value_eqb_refl v : no_nan v = true → value_eqb v v = true.
Proof.
  induction v as [|b|n|s|l IH|m IH] using Value_ind; cbn [value_eqb]; try done.
  - intros _. by destruct b.
  - destruct n as [z|z|x]; simpl; [intros _; apply Z.eqb_refl..|]. intros H%negb_true_iff. by apply SFeqb_refl.
  - intros _. by apply bool_decide_eq_true.
  - cbn [no_nan]. induction IH as [|v l Hv _ IHl]; [done|]. cbn [forallb]. rewrite andb_true_iff. intros [H1 H2].
    by rewrite Hv, IHl.
  - cbn [no_nan]. induction IH as [|[k v] m Hv _ IHm]; [done|]. cbn [forallb snd]. rewrite andb_true_iff. intros [H1 H2].
    cbn [snd] in Hv. rewrite Hv, IHm by done. by rewrite bool_decide_true.
Qed.

(** ** The origin of a section *)
Lemma bt_remove_insert {V} k (v : V) m : bt_sorted m → bt_get k m = None → bt_remove k (bt_insert k v m) = m.
Proof.
  intros Hs Hn. apply bt_sorted_ext; [by apply bt_sorted_remove, bt_sorted_insert|done|]. intros k'.
  destruct (decide (k = k')) as [<-|Hk]; [by rewrite bt_get_remove_eq|].
  by rewrite bt_get_remove_ne, bt_get_insert_ne by done.
Qed.

(** Sections of a file that does not mention the origin. *)
Definition origin_free (s : Sections) : Prop :=
  ∀ k ty v, s !! k = Some (ty, v) →
    ∃ m, v = VObject m ∧ bt_sorted m ∧ bt_get origin_key m = None ∧ no_nan v = true.

(** What a built-in section becomes beside a section of the file. *)
Definition merged (builtin : rstr * Value) (own : option (rstr * Value)) : rstr * Value :=
  match own with
  | Some (ty, v) => (ty, set_origin (if bool_decide (builtin.1 = ty) && value_eqb v builtin.2
                                     then lit "builtin" else lit "modified-builtin") v)
  | None => (builtin.1, set_origin (lit "builtin") builtin.2)
  end.

Lemma merge_builtin_fold builtin s k :
  map_fold merge_builtin_section s builtin !! k =
  match builtin !! k with Some b => Some (merged b (s !! k)) | None => s !! k end.
Proof.
  revert k. apply (map_fold_weak_ind (λ r b, ∀ k, r !! k = match b !! k with Some b => Some (merged b (s !! k)) | None => s !! k end)).
  - intros k. by rewrite lookup_empty.
  - intros key [bt bv] m r Hm IH k. unfold merge_builtin_section. pose proof (IH key) as Hk. rewrite Hm in Hk.
    destruct (r !! key) as [[ty v]|] eqn:Er.
    + destruct (decide (key = k)) as [<-|Hne].
      * rewrite lookup_insert_eq. unfold merged. rewrite <- Hk. cbn [fst snd]. case_match; by rewrite lookup_insert_eq.
      * rewrite lookup_insert_ne by done. case_match; by rewrite lookup_insert_ne.
    + destruct (decide (key = k)) as [<-|Hne].
      * rewrite !lookup_insert_eq. unfold merged. by rewrite <- Hk.
      * by rewrite !lookup_insert_ne by done.
Qed.

Lemma merge_builtin_lookup builtin s k :
  merge_builtin builtin s !! k =
  mark_user_created <$> match builtin !! k with Some b => Some (merged b (s !! k)) | None => s !! k end.
Proof. unfold merge_builtin. by rewrite lookup_fmap, merge_builtin_fold. Qed.

Lemma mark_set_origin ty o m :
  mark_user_created (ty, set_origin o (VObject m)) = (ty, set_origin o (VObject m)).
Proof. unfold mark_user_created, set_origin. cbn [fst snd value_set]. by rewrite bt_get_insert_eq. Qed.

Lemma remove_set_origin ty o m :
  bt_sorted m → bt_get origin_key m = None → remove_origin (ty, set_origin o (VObject m)) = (ty, VObject m).
Proof. intros Hs Hn. unfold remove_origin, set_origin. cbn [fst snd value_set]. by rewrite bt_remove_insert. Qed.

Lemma mark_origin_free ty m :
  bt_get origin_key m = None →
  mark_user_created (ty, VObject m) = (ty, set_origin (lit "user-created") (VObject m)).
Proof. intros Hn. unfold mark_user_created. cbn [fst snd]. by rewrite Hn. Qed.

(** Without the origin, the merged sections are those of the file and the built-in
    ones that the file does not have. *)
Lemma remove_merged builtin s k :
  origin_free builtin → origin_free s →
  (remove_origin <$> merge_builtin builtin s) !! k = match s !! k with Some x => Some x | None => builtin !! k end.
Proof.
  intros Hb Hs. rewrite lookup_fmap, merge_builtin_lookup.
  destruct (s !! k) as [[ty v]|] eqn:Es.
  - destruct (Hs _ _ _ Es) as (m & -> & Hm & Hn & _). destruct (builtin !! k) as [[bt bv]|].
    + cbn [fmap option_fmap option_map merged fst snd]. by rewrite mark_set_origin, remove_set_origin.
    + cbn [fmap option_fmap option_map]. by rewrite mark_origin_free, remove_set_origin.
  - destruct (builtin !! k) as [[bt bv]|] eqn:Eb; [|done]. destruct (Hb _ _ _ Eb) as (m & -> & Hm & Hn & _).
    cbn [fmap option_fmap option_map merged fst snd]. by rewrite mark_set_origin, remove_set_origin.
Qed.

Lemma merge_idempotent builtin s :
  origin_free builtin → origin_free s →
  merge_builtin builtin (remove_origin <$> merge_builtin builtin s) = merge_builtin builtin s.
Proof.
  intros Hb Hs. apply map_eq. intros k. rewrite (merge_builtin_lookup builtin (remove_origin <$> _)), remove_merged by done.
  rewrite merge_builtin_lookup. destruct (s !! k) as [x|] eqn:Es; [done|].
  destruct (builtin !! k) as [[bt bv]|] eqn:Eb; [|done]. destruct (Hb _ _ _ Eb) as (m & -> & Hm & Hn & Hnan).
  cbn [merged fst snd]. by rewrite bool_decide_true, value_eqb_refl by done.
Qed.

(** ** Saving and loading *)
Abbreviation lists_sections keys s := (∀ id : rstr, id ∈ keys ↔ is_Some ((s : Sections) !! id)).

Section Files.
Context {F : F64Text} {FL : F64TextLaws F} {A : Alphabetic} {AL : AlphabeticLaws A}.
Context (parser private_parser : SectionConfig) (sha256 : rstr → list N) (default_config : rstr).
Context (Hp : parser.(syntax) = default_syntax) (Hpp : private_parser.(syntax) = default_syntax).

Definition stripped (c : Config) : SectionConfigData :=
  mkData (remove_origin <$> c.(config).(sections)) c.(config).(order).

(** A configuration that was saved is loaded again with all its sections
    and private sections; the origins are determined anew. Loading what was saved
    right after loading changes nothing, and a built-in section that was removed
    is back with its default. *)
Theorem config_write_new c builtin keys private_keys raw raw_private :
  parse parser default_config = Ok builtin → origin_free builtin.(sections) →
  all_writable parser (stripped c) → all_writable private_parser c.(private_config) →
  lists_sections keys (stripped c).(sections) → lists_sections private_keys c.(private_config).(sections) →
  config_write parser private_parser c keys private_keys = Ok (raw, raw_private) →
  ∃ c', config_new parser private_parser sha256 default_config raw raw_private = Ok c' ∧
    c'.(private_config).(sections) = c.(private_config).(sections) ∧
    (∀ s, origin_free s → c.(config).(sections) = merge_builtin builtin.(sections) s →
          c'.(config).(sections) = c.(config).(sections)) ∧
    (∀ k, c.(config).(sections) !! k = None → c'.(config).(sections) !! k =
          (λ b, (b.1, set_origin (lit "builtin") b.2)) <$> builtin.(sections) !! k) ∧
    (∀ k ty m, c.(config).(sections) !! k = Some (ty, VObject m) → bt_get origin_key m = None →
          builtin.(sections) !! k = None →
          c'.(config).(sections) !! k = Some (ty, set_origin (lit "user-created") (VObject m))).
Proof.
  intros Hb Hbf Hw Hwp Hk Hkp. unfold config_write. fold (stripped c).
  destruct (write_do parser (stripped c) keys) as [pub|] eqn:E1; [|done]. cbn [rbind].
  destruct (write_do private_parser _ _) as [priv|] eqn:E2; [|done]. cbn [rbind]. intros [= <- <-].
  apply (write_parse_data parser Hp) in E1; [|done..]. apply (write_parse_data private_parser Hpp) in E2; [|done..].
  eexists. split; [unfold config_new; rewrite E1; cbn [rbind]; rewrite E2; cbn [rbind]; by rewrite Hb|].
  cbn [config private_config sections stripped]. split; [done|]. split_and!.
  - intros s Hs ->. by apply merge_idempotent.
  - intros k Hn. rewrite merge_builtin_lookup, lookup_fmap, Hn. cbn [fmap option_fmap option_map].
    destruct (builtin.(sections) !! k) as [[bt bv]|] eqn:Eb; [|done]. destruct (Hbf _ _ _ Eb) as (m & -> & _).
    cbn [fmap option_fmap option_map merged fst snd]. by rewrite mark_set_origin.
  - intros k ty m Hc Hn Hbn. rewrite merge_builtin_lookup, lookup_fmap, Hc, Hbn.
    cbn [fmap option_fmap option_map]. unfold remove_origin. cbn [fst snd].
    assert (bt_remove origin_key m = m) as ->; [|by rewrite mark_origin_free].
    clear -Hn. unfold bt_remove. induction m as [|[k v] m IH]; [done|]. simpl in Hn. case_decide as Hk; [done|].
    rewrite filter_cons_True by (simpl; congruence). by rewrite IH.
Qed.
End Files.

(** ** References *)
Section Api.
Context {R : RegexLib} {T : ExpressionText} {C : EntityCodec}.

Definition refers (c : Config) (x y : rstr) : Prop := y ∈ referenced c x.

Lemma elem_of_expand c X y : y ∈ expand c X ↔ ∃ x, x ∈ X ∧ refers c x y.
Proof.
  unfold expand, refers. rewrite elem_of_list_to_set, elem_of_flat_map. by setoid_rewrite elem_of_elements.
Qed.

Lemma referenced_loop_sound fuel c X E S :
  referenced_loop fuel c X E = Some S → ∀ y, y ∈ S ↔ y ∈ E ∨ ∃ x, x ∈ X ∧ rtc (refers c) x y.
Proof.
  revert X E. induction fuel as [|fuel IH]; intros X E; [done|]. cbn [referenced_loop]. case_decide as HX.
  - intros [= <-] y. subst. set_solver.
  - intros H y. rewrite (IH _ _ H y), elem_of_union. setoid_rewrite elem_of_expand. split.
    + intros [[?|Hx]|(z & (x & Hx & Hxz) & Hzy)]; [by left|right; exists y; split; [done|constructor]|].
      right. exists x. split; [done|]. by eapply rtc_l.
    + intros [?|(x & Hx & Hxy)]; [by left; left|]. inversion Hxy as [|? z ? Hxz Hzy]; subst; [by left; right|].
      right. exists z. split; [|done]. by exists x.
Qed.

Lemma referenced_loop_total n c rank X E :
  (∀ x y, refers c x y → rank y < rank x) → (∀ x, x ∈ X → rank x < n) →
  is_Some (referenced_loop (S n) c X E).
Proof.
  intros Hr. revert X E. induction n as [|n IH]; intros X E HX.
  - cbn [referenced_loop]. rewrite decide_True; [by eexists|]. apply set_eq. intros x.
    split; [intros Hx%HX; lia|set_solver].
  - cbn [referenced_loop]. case_decide; [by eexists|]. apply IH. intros y (x & Hx & Hxy)%elem_of_expand.
    specialize (HX x Hx). specialize (Hr x y Hxy). lia.
Qed.

Lemma referenced_loop_cycle fuel c e X E :
  tc (refers c) e e → (∃ x, x ∈ X ∧ tc (refers c) x e) → referenced_loop fuel c X E = None.
Proof.
  intros He. revert X E. induction fuel as [|fuel IH]; intros X E (x & Hx & Hxe); [done|]. cbn [referenced_loop].
  rewrite decide_False by set_solver. apply IH. inversion Hxe as [|? y ? Hxy Hye]; subst.
  - exists e. rewrite elem_of_expand. eauto.
  - exists y. rewrite elem_of_expand. eauto.
Qed.

(** [C27] The entities that an entity refers to are those reachable over the
    targets of matchers, the entity itself included. The loop ends if there is no
    cycle, within one round more than the longest chain; it never ends if the
    entity reaches a cycle. *)
Theorem referenced_entities_correct c entity :
  (∀ fuel s, get_referenced_entities fuel c entity = Some s → ∀ y, y ∈ s ↔ rtc (refers c) entity y) ∧
  (∀ rank, (∀ x y, refers c x y → rank y < rank x) → is_Some (get_referenced_entities (2 + rank entity) c entity)) ∧
  (∀ e fuel, rtc (refers c) entity e → tc (refers c) e e → get_referenced_entities fuel c entity = None).
Proof.
  split_and!.
  - intros fuel s H y. rewrite (referenced_loop_sound _ _ _ _ _ H). set_solver.
  - intros rank Hr. apply (referenced_loop_total _ c rank); [done|]. intros x ->%elem_of_singleton. lia.
  - intros e fuel Hr He. apply (referenced_loop_cycle _ _ e); [done|]. exists entity. split; [set_solver|].
    by eapply tc_rtc_l.
Qed.

(** ** Every target of a matcher exists *)
Class EntityCodecLaws : Prop :=
  matcher_from_to_value m v : matcher_to_value m = Some v → matcher_from_value v = Some m.
Context {CL : EntityCodecLaws}.

Definition targets_exist (c : Config) : Prop :=
  ∀ k m t, get_matcher c k = Ok m → t ∈ m.(target) → ensure_endpoint_exists c t = Ok tt.

(** A target that does not exist is the name of a built-in endpoint that was deleted,
    which comes back when the configuration is loaded again. *)
Definition targets_exist_but (reset : gset rstr) (c : Config) : Prop :=
  ∀ k m t, get_matcher c k = Ok m → t ∈ m.(target) → ensure_endpoint_exists c t = Ok tt ∨ t ∈ reset.

(** The calls that add an endpoint, and those that delete one. *)
Inductive adds_endpoint (c : Config) (r : Config * result unit HttpStatus) : Prop :=
| adds_sendmail k to users v : add_sendmail_endpoint c k to users v = r → adds_endpoint c r
| adds_gotify k k' v p : add_gotify_endpoint c k k' v p = Some r → adds_endpoint c r
| adds_smtp k k' to users v p : add_smtp_endpoint c k k' to users v p = Some r → adds_endpoint c r
| adds_webhook k v p : add_webhook_endpoint c k v p = r → adds_endpoint c r.

Inductive deletes_endpoint (c : Config) (k : rstr) (c' : Config) : Prop :=
| deletes_sendmail : delete_sendmail_endpoint c k = Ok c' → deletes_endpoint c k c'
| deletes_gotify : delete_gotify_endpoint c k = Ok c' → deletes_endpoint c k c'
| deletes_smtp : delete_smtp_endpoint c k = Ok c' → deletes_endpoint c k c'
| deletes_webhook : delete_webhook_endpoint c k = Ok c' → deletes_endpoint c k c'.

(** A call of the API, with the built-in endpoints that were deleted so far. *)
Inductive api_step : Config * gset rstr → Config * gset rstr → Prop :=
| step_add_matcher c d m c' : add_matcher c m = Ok c' → api_step (c, d) (c', d)
| step_update_matcher c d k u del dig c' : update_matcher c k u del dig = Ok c' → api_step (c, d) (c', d)
| step_delete_matcher c d k c' : delete_matcher c k = Ok c' → api_step (c, d) (c', d)
| step_add_endpoint c d c' res : adds_endpoint c (c', res) → api_step (c, d) (c', d)
| step_delete_endpoint c d k ty v c' :
    c.(config).(sections) !! k = Some (ty, v) → deletes_endpoint c k c' →
    api_step (c, d) (c', if is_builtin_origin v then {[k]} ∪ d else d).

(** An endpoint is looked up by the section of its name only. *)
Lemma endpoint_exists_ext c c' t :
  c.(config).(sections) !! t = c'.(config).(sections) !! t →
  ensure_endpoint_exists c t = ensure_endpoint_exists c' t.
Proof. intros H. unfold ensure_endpoint_exists, get_endpoint, lookup_json. by rewrite H. Qed.

Lemma get_matcher_ext c c' k :
  c.(config).(sections) !! k = c'.(config).(sections) !! k → get_matcher c k = get_matcher c' k.
Proof. intros H. unfold get_matcher, lookup_json. by rewrite H. Qed.

Lemma matcher_not_endpoint c t v :
  c.(config).(sections) !! t = Some (MATCHER_TYPENAME, v) → ensure_endpoint_exists c t = Ok tt → False.
Proof. intros H. unfold ensure_endpoint_exists, get_endpoint, lookup_json. by rewrite H. Qed.

Lemma missing_not_endpoint c t :
  c.(config).(sections) !! t = None → ensure_endpoint_exists c t = Ok tt → False.
Proof. intros H. unfold ensure_endpoint_exists, get_endpoint, lookup_json. by rewrite H. Qed.

Lemma get_matcher_section c k m :
  get_matcher c k = Ok m → ∃ v, c.(config).(sections) !! k = Some (MATCHER_TYPENAME, v) ∧ matcher_from_value v = Some m.
Proof.
  unfold get_matcher, lookup_json. destruct (_ !! k) as [[ty v]|]; [|done]. case_decide as Ht; [|done]. subst.
  destruct (matcher_from_value v) eqn:E; [|done]. intros [= <-]. by exists v.
Qed.

Lemma endpoints_exist_elem c l t : ensure_endpoints_exist c l = Ok tt → t ∈ l → ensure_endpoint_exists c t = Ok tt.
Proof.
  induction l as [|x l IH]; cbn [ensure_endpoints_exist]; [intros _ []%not_elem_of_nil|].
  destruct (ensure_endpoint_exists c x) as [[]|] eqn:E; [|done]. rewrite elem_of_cons. intros H [->|Ht]; auto.
Qed.

(** Saving a matcher under a name that is free or that of a matcher. *)
Lemma save_matcher_ok d c k m c' :
  targets_exist_but d c →
  c.(config).(sections) !! k = None ∨ (∃ v, c.(config).(sections) !! k = Some (MATCHER_TYPENAME, v)) →
  (∀ t, t ∈ m.(target) → ensure_endpoint_exists c t = Ok tt ∨ t ∈ d) →
  save_matcher c k m = Ok c' → targets_exist_but d c'.
Proof.
  intros Hc Hk Ht. unfold save_matcher. destruct (ensure_valid m) as [m'|] eqn:Ev; [|done]. cbn [map_err rbind].
  destruct (matcher_to_value m') as [v|] eqn:Em; [|done]. cbn [ok_or rbind]. intros [= <-].
  assert (target m' = target m) as Hm.
  { unfold ensure_valid, ensure_valid_expression in Ev. destruct (ensure_no_ignored_properties m); [|done].
    cbn [rbind] in Ev. destruct (expression m) as [e|]; [|by simplify_eq]. destruct (expression_from_str e); [|done].
    destruct (verify_match_expression_constraints _); [|done]. cbn [rbind] in Ev.
    destruct (expression_to_string _); [|done]. by simplify_eq/=. }
  assert (∀ t, ensure_endpoint_exists c t = Ok tt → ensure_endpoint_exists (set_section c k MATCHER_TYPENAME v) t = Ok tt) as Hext.
  { intros t He. rewrite <- He. apply endpoint_exists_ext. cbn. rewrite lookup_insert_ne; [done|]. intros ->.
    destruct Hk as [Hk|[w Hk]]; [by eapply missing_not_endpoint|by eapply matcher_not_endpoint]. }
  intros k' m'' t Hg Htt. destruct (decide (k = k')) as [<-|Hne].
  - apply get_matcher_section in Hg as (w & Hw & Hd). cbn in Hw. rewrite lookup_insert_eq in Hw. simplify_eq.
    apply matcher_from_to_value in Em. simplify_eq. destruct (Ht t) as [H|H]; [by rewrite <- Hm|left; by apply Hext|by right].
  - destruct (Hc k' m'' t) as [H|H]; [|done|left; by apply Hext|by right].
    rewrite <- Hg. apply get_matcher_ext. cbn. by rewrite lookup_insert_ne.
Qed.

(** Removing a section that no matcher has as a target, or that is set aside. *)
Lemma remove_section_ok d d' c c' k :
  targets_exist_but d c → c'.(config).(sections) = delete k c.(config).(sections) → d ⊆ d' →
  (∀ k' m, get_matcher c k' = Ok m → k' ≠ k → k ∈ m.(target) → k ∈ d') → targets_exist_but d' c'.
Proof.
  intros Hc Hs Hd Hk k' m t Hg Ht.
  assert (k' ≠ k) as Hne.
  { intros ->. apply get_matcher_section in Hg as (v & Hv & _). by rewrite Hs, lookup_delete_eq in Hv. }
  assert (get_matcher c k' = Ok m) as Hg'.
  { rewrite <- Hg. apply get_matcher_ext. by rewrite Hs, lookup_delete_ne. }
  destruct (decide (t = k)) as [->|Htk]; [right; by eapply Hk|].
  destruct (Hc k' m t Hg' Ht) as [He|He]; [left|right; by apply Hd].
  rewrite <- He. apply endpoint_exists_ext. by rewrite Hs, lookup_delete_ne.
Qed.

(** Adding an endpoint under a name that is free. *)
Lemma save_endpoint_ok d c c0 ty k v c' res :
  targets_exist_but d c → c.(config).(sections) !! k = None → c0.(config) = c.(config) →
  ty ≠ MATCHER_TYPENAME → save_endpoint c0 ty k v = (c', res) → targets_exist_but d c'.
Proof.
  intros Hc Hn H0 Hty. unfold save_endpoint. destruct v as [v|]; intros [= <- _].
  - intros k' m t Hg Ht. assert (k' ≠ k) as Hne.
    { intros ->. apply get_matcher_section in Hg as (w & Hw & _). cbn in Hw. rewrite lookup_insert_eq in Hw. injection Hw as Hw _. exact (Hty Hw). }
    assert (get_matcher c k' = Ok m) as Hg' by (rewrite <- Hg; apply get_matcher_ext; cbn; by rewrite H0, lookup_insert_ne).
    destruct (Hc k' m t Hg' Ht) as [He|He]; [left|by right].
    rewrite <- He. apply endpoint_exists_ext. cbn. rewrite H0, lookup_insert_ne; [done|].
    intros ->. by eapply missing_not_endpoint.
  - intros k' m t Hg Ht. assert (get_matcher c k' = Ok m) as Hg' by (rewrite <- Hg; apply get_matcher_ext; by rewrite H0).
    destruct (Hc k' m t Hg' Ht) as [He|He]; [left|by right]. rewrite <- He. apply endpoint_exists_ext. by rewrite H0.
Qed.

Lemma save_with_private_ok d c ty k v p c' res :
  targets_exist_but d c → c.(config).(sections) !! k = None → ty ≠ MATCHER_TYPENAME →
  save_with_private c ty k v p = (c', res) → targets_exist_but d c'.
Proof.
  intros Hc Hn Hty. unfold save_with_private. destruct p as [p|]; [by apply (save_endpoint_ok d c)|]. by intros [= <- _].
Qed.

Lemma adds_endpoint_ok d c c' res : targets_exist_but d c → adds_endpoint c (c', res) → targets_exist_but d c'.
Proof.
  intros Hc Ha. destruct Ha as [k to users v H|k k' v p H|k k' to users v p H|k v p H].
  - unfold add_sendmail_endpoint, ensure_unique in H. case_decide as Hn; [by simplify_eq|].
    case_decide; [by simplify_eq|]. eapply save_endpoint_ok; [done|by apply eq_None_not_Some|done| |exact H]. done.
  - unfold add_gotify_endpoint, ensure_unique in H. case_decide; [|done]. case_decide as Hn; [by simplify_eq|].
    injection H as H. eapply save_with_private_ok; [done|by apply eq_None_not_Some| |exact H]. done.
  - unfold add_smtp_endpoint, ensure_unique in H. case_decide; [|done]. case_decide as Hn; [by simplify_eq|].
    case_decide; [by simplify_eq|]. injection H as H. eapply save_with_private_ok; [done|by apply eq_None_not_Some| |exact H]. done.
  - unfold add_webhook_endpoint, ensure_unique in H. case_decide as Hn; [by simplify_eq|].
    eapply save_with_private_ok; [done|by apply eq_None_not_Some| |exact H]. done.
Qed.

Lemma typed_matchers_elem l ms v m :
  typed_matchers l = Ok ms → (MATCHER_TYPENAME, v) ∈ l → matcher_from_value v = Some m → m ∈ ms.
Proof.
  revert ms. induction l as [|[ty w] l IH]; intros ms; cbn [typed_matchers]; [intros _ []%not_elem_of_nil|].
  intros H Hin Hm. apply elem_of_cons in Hin as [[= <- <-]|Hin].
  - rewrite decide_True, Hm in H by done. cbn [ok_or rbind] in H. destruct (typed_matchers l); [|done]. cbn [rbind] in H. simplify_eq. by left.
  - case_decide; [|by eapply IH]. destruct (matcher_from_value w); [|done]. cbn [ok_or rbind] in H.
    destruct (typed_matchers l); [|done]. cbn [rbind] in H. simplify_eq. right. by eapply IH.
Qed.

Lemma safe_to_delete_unreferenced c k ty v :
  c.(config).(sections) !! k = Some (ty, v) → is_builtin_origin v = false → ensure_safe_to_delete c k = Ok tt →
  ∀ k' m, get_matcher c k' = Ok m → k ∉ m.(target).
Proof.
  intros Hs Hb. unfold ensure_safe_to_delete, get_referrers. rewrite Hs, Hb.
  destruct (get_matchers c) as [ms|] eqn:E; [|done]. cbn [rbind]. case_decide as He; [|done]. intros _ k' m Hg Hin.
  apply get_matcher_section in Hg as (w & Hw & Hm).
  assert (m ∈ ms) as Hms.
  { eapply typed_matchers_elem; [exact E| |exact Hm]. apply list_elem_of_fmap.
    exists (k', (MATCHER_TYPENAME, w)). split; [done|]. by apply elem_of_map_to_list. }
  assert (name m ∈ (∅ : gset rstr)); [|set_solver]. rewrite <- He. apply elem_of_list_to_set, list_elem_of_fmap.
  exists m. split; [done|]. apply list_elem_of_In, filter_In. split; [by apply list_elem_of_In|].
  by apply bool_decide_eq_true.
Qed.

Lemma delete_property_target m l t : t ∈ target (foldl delete_property m l) → t ∈ target m.
Proof.
  revert m. induction l as [|p l IH]; intros m; [done|]. cbn [foldl]. intros H%IH.
  destruct m as [na mf ms mc mo im ex ta co di], p; cbn in *; try done; by apply not_elem_of_nil in H.
Qed.

Lemma deletes_endpoint_safe c k c' :
  deletes_endpoint c k c' →
  ensure_safe_to_delete c k = Ok tt ∧ c'.(config).(sections) = delete k c.(config).(sections).
Proof.
  assert (∀ ty, delete_private_endpoint ty c k = Ok c' →
    ensure_safe_to_delete c k = Ok tt ∧ c'.(config).(sections) = delete k c.(config).(sections)) as Hp.
  { intros ty. unfold delete_private_endpoint. destruct (get_endpoint c ty k); [|done].
    destruct (ensure_safe_to_delete c k) as [[]|]; [|done]. by intros [= <-]. }
  intros [H|H|H|H]; [|by eapply Hp..]. unfold delete_sendmail_endpoint in H. case_match; [|done].
  destruct (ensure_safe_to_delete c k) as [[]|]; [|done]. by simplify_eq/=.
Qed.

Lemma api_step_ok s s' : api_step s s' → targets_exist_but s.2 s.1 → targets_exist_but s'.2 s'.1.
Proof.
  intros [c d m c1 H|c d k u del dig c1 H|c d k c1 H|c d c1 res H|c d k ty v c1 Hk H] Hc; cbn [fst snd] in *.
  - unfold add_matcher, ensure_unique in H. case_decide as Hn; [done|]. cbn [rbind] in H.
    destruct (ensure_endpoints_exist c (target m)) as [[]|] eqn:E; [|done]. cbn [rbind] in H.
    eapply save_matcher_ok; [done|left; by apply eq_None_not_Some| |exact H]. intros t Ht. left. by eapply endpoints_exist_elem.
  - unfold update_matcher in H. destruct (verify_digest c dig) as [[]|]; [|done]. cbn [rbind] in H.
    destruct (get_matcher c k) as [m|] eqn:Em; [|done]. cbn [rbind] in H.
    destruct (match up_target u with Some t => _ | None => _ end) as [[]|] eqn:E in H; [|done]. cbn [rbind] in H.
    destruct (get_matcher_section _ _ _ Em) as (v & Hv & _).
    eapply save_matcher_ok; [done|right; by exists v| |exact H]. intros t. unfold apply_updater. cbn [target].
    destruct (up_target u) as [l|]; cbn [from_option]; [left; by eapply endpoints_exist_elem|].
    intros Ht%delete_property_target. by eapply Hc.
  - unfold delete_matcher in H. destruct (get_matcher c k) as [m|] eqn:Em; [|done]. simplify_eq/=.
    apply (remove_section_ok d d c _ k); [done|done|done|]. intros k' m' Hg _ Ht.
    destruct (Hc _ _ _ Hg Ht) as [He|]; [|done].
    destruct (get_matcher_section _ _ _ Em) as (v & Hv & _). by destruct (matcher_not_endpoint c k v Hv He).
  - by eapply adds_endpoint_ok.
  - apply deletes_endpoint_safe in H as [Hsafe Hs]. destruct (is_builtin_origin v) eqn:Eb.
    + apply (remove_section_ok d _ c _ k); [done|done|set_solver|]. intros. set_solver.
    + apply (remove_section_ok d d c _ k); [done|done|done|]. intros k' m Hg _ Hin.
      by destruct (safe_to_delete_unreferenced c k ty v Hk Eb Hsafe k' m Hg).
Qed.

(** [C25] Over any sequence of the calls that add, update and delete matchers and that add
    and delete endpoints of all four kinds, every target of every matcher stays an
    existing endpoint, if it was one before, except for built-in endpoints that were
    deleted in between: these may be deleted while they are referenced, since they come
    back when the configuration is loaded. *)
Theorem api_targets_exist c c' reset :
  targets_exist c → rtc api_step (c, ∅) (c', reset) →
  ∀ k m t, get_matcher c' k = Ok m → t ∈ m.(target) → ensure_endpoint_exists c' t = Ok tt ∨ t ∈ reset.
Proof.
  intros Hc Hs. change (targets_exist_but (c', reset).2 (c', reset).1).
  assert (targets_exist_but (c, (∅ : gset rstr)).2 (c, (∅ : gset rstr)).1) as H0 by (intros k m t Hg Ht; left; by eapply Hc).
  induction Hs as [|s1 s2 s3 Hstep _ IH]; [done|]. apply IH. by eapply api_step_ok.
Qed.
End Api.

(** ** Examples *)

(** Matchers that only have a name and targets. *)
Fixpoint strings_of (l : list Value) : option (list rstr) :=
  match l with
  | [] => Some []
  | VString s :: l' => match strings_of l' with Some r => Some (s :: r) | None => None end
  | _ => None
  end.

Definition target_codec : EntityCodec (R := literal_regex) := {|
  matcher_from_value v :=
    match v with
    | VObject [(k1, VString n); (k2, VArray l)] =>
        if decide (k1 = lit "name" ∧ k2 = lit "target") then
          match strings_of l with
          | Some ts => Some (mkMatcher (R := literal_regex) n [] [] [] None None None ts None None)
          | None => None
          end
        else None
    | _ => None
    end;
  matcher_to_value m :=
    match m with
    | mkMatcher n [] [] [] None None None ts None None =>
        Some (VObject [(lit "name", VString n); (lit "target", VArray (map VString ts))])
    | _ => None
    end;
  is_endpoint _ v := match v with VObject _ => true | _ => false end
|}.

Lemma strings_of_map ts : strings_of (map VString ts) = Some ts.
Proof. induction ts as [|t ts IH]; [done|]. cbn [map strings_of]. by rewrite IH. Qed.

#[export] Instance target_codec_laws : EntityCodecLaws (C := target_codec).
Proof.
  intros m v. unfold matcher_to_value, matcher_from_value, target_codec.
  destruct m as [n [|] [|] [|] [|] [|] [|] ts [|] [|]]; try done. intros [= <-].
  rewrite decide_True by done. by rewrite strings_of_map.
Qed.

Section Examples.
#[local] Existing Instance literal_regex.
#[local] Existing Instance few_expressions.
#[local] Existing Instance target_codec.
#[local] Existing Instance f64_text.
#[local] Existing Instance ascii_alphabetic.

Definition empty_config : Config := mkNotify data_new data_new [].
Definition to_gotify : MatcherConfig := mkMatcher (lit "m") [] [] [] None None None [lit "g"] None None.
Definition matcher_value (n t : rstr) : Value :=
  VObject [(lit "name", VString n); (lit "target", VArray [VString t])].
Definition with_gotify : Config := set_section (set_private_config_entry empty_config (lit "g") GOTIFY_TYPENAME (VObject []))
  (lit "g") GOTIFY_TYPENAME (VObject []).
Definition with_matcher : Config := set_section with_gotify (lit "m") MATCHER_TYPENAME (matcher_value (lit "m") (lit "g")).

Lemma api_targets_exist_witness :
  ensure_endpoint_exists with_matcher (lit "g") = Ok tt ∧ delete_gotify_endpoint with_matcher (lit "g") = Err BAD_REQUEST.
Proof.
  split; [|vm_compute; reflexivity].
  destruct (api_targets_exist empty_config with_matcher ∅) with (k := lit "m") (m := to_gotify) (t := lit "g") as [H|H].
  - intros k m t Hg. unfold get_matcher, lookup_json, empty_config, data_new in Hg. cbn in Hg.
    rewrite lookup_empty in Hg. discriminate Hg.
  - apply (rtc_l _ _ (with_gotify, ∅)).
    + apply (step_add_endpoint _ _ _ (Ok tt)), (adds_gotify _ _ (lit "g") (lit "g") (Some (VObject [])) (Some (VObject []))).
      vm_compute. reflexivity.
    + apply rtc_once. apply (step_add_matcher _ _ to_gotify). vm_compute. reflexivity.
  - vm_compute. reflexivity.
  - by left.
  - exact H.
  - by apply not_elem_of_empty in H.
Defined.

(** A matcher that has its own name among its targets, which a file can say, makes
    the search for referenced entities run forever. *)
Lemma self_reference_diverges fuel :
  get_referenced_entities fuel
    (set_section empty_config (lit "m") MATCHER_TYPENAME (matcher_value (lit "m") (lit "m"))) (lit "m") = None.
Proof.
  assert (refers (set_section empty_config (lit "m") MATCHER_TYPENAME (matcher_value (lit "m") (lit "m")))
            (lit "m") (lit "m")) as H by (unfold refers; by left).
  apply (referenced_loop_cycle _ _ (lit "m")); [by apply tc_once|]. exists (lit "m").
  split; [set_solver|by apply tc_once].
Qed.

(** A configuration whose only section is built in. *)
Definition builtin_text : rstr :=
  lit "storage: s1" ++ [10%N; 9%N] ++ lit "kind fixed" ++ [10%N; 9%N] ++ lit "path /mnt/my data" ++ [10%N; 9%N] ++
  lit "size 5" ++ [10%N; 9%N] ++ lit "tags a" ++ [10%N; 9%N] ++ lit "tags b" ++ [10%N].
Definition builtin_only : Config :=
  mkNotify (mkData (merge_builtin storage_data.(sections) ∅) []) data_new [].

Lemma storage_origin_free : origin_free storage_data.(sections).
Proof.
  intros k ty v H. unfold storage_data in H. cbn [sections] in H. apply lookup_singleton_Some in H as [<- [= <- <-]].
  exists storage_map. split_and!; [done|vm_compute; tauto|reflexivity|reflexivity].
Qed.

Lemma config_write_new_witness :
  ∃ c', config_new storage_config storage_config (λ _, []) builtin_text builtin_text [] = Ok c' ∧
    c'.(config).(sections) = builtin_only.(config).(sections).
Proof.
  destruct (config_write_new (F := f64_text) (A := ascii_alphabetic) storage_config storage_config (λ _, []) builtin_text
    eq_refl eq_refl builtin_only (mkData storage_data.(sections) [lit "s1"]) [lit "s1"] [] builtin_text [])
    as (c' & Hc & _ & Hs & _).
  - vm_compute. reflexivity.
  - apply storage_origin_free.
  - intros id ty v H. unfold stripped, builtin_only in H. cbn [config sections] in H.
    rewrite remove_merged in H; [|apply storage_origin_free|intros ? ? ? Hn; by rewrite lookup_empty in Hn].
    rewrite lookup_empty in H. unfold storage_data in H. cbn [sections] in H.
    apply lookup_singleton_Some in H as [<- [= <- <-]]. exists storage_plugin, storage_map.
    split; [reflexivity|]. split; [reflexivity|]. apply storage_writable.
  - intros id ty v H. unfold builtin_only, data_new in H. cbn in H. by rewrite lookup_empty in H.
  - intros id. rewrite list_elem_of_singleton. unfold stripped, builtin_only. cbn [config sections].
    rewrite remove_merged; [|apply storage_origin_free|intros ? ? ? Hn; by rewrite lookup_empty in Hn].
    rewrite lookup_empty. unfold storage_data. cbn [sections]. rewrite lookup_singleton. case_decide; naive_solver.
  - intros id. unfold builtin_only, data_new. cbn. rewrite lookup_empty. split; [by intros ?%not_elem_of_nil|by intros [? ?]].
  - vm_compute. reflexivity.
  - exists c'. split; [exact Hc|]. apply (Hs ∅); [|reflexivity]. intros ? ? ? Hn. by rewrite lookup_empty in Hn.
Defined.
End Examples.
