(* ===== verification/Interfaces.v ===== *)
(** * Interfaces: the network interface configuration and its writer

    Models [proxmox-network-api]: the types of [api_types.rs] and of
    [network-types/src/bond.rs], the address checks of [config/helper.rs], and of
    [config/mod.rs] the names of VLANs, renaming, the consistency checks and the
    writer of [/etc/network/interfaces], as the list of the lines it writes. *)
From S2P Require Import Prelude Schema.

Inductive NetError :=
| UnexpectedEnd | UnexpectedToken | UnknownIfaceOption | MethodSet | DuplicateAddress | DuplicateGateway
| TypeDefined | BadNetmask | BadAddress | BadGateway | BadMtu | BadYesNo | BadBond | BadVlanId
| NetmaskForMany | MissingNetmask | PortUsedTwice (port : rstr) | MissingSlave (slave : rstr) | WrongSlaveType (slave : rstr)
| MissingPort (port : rstr) | MtuTooSmall | MissingInterface | NetOutOfFuel.

(** ** Types *)
Inductive NetworkConfigMethod := Manual | Static | DHCP | Loopback | Auto.
Inductive NetworkInterfaceType := TLoopback | TEth | TBridge | TBond | TVlan | TAlias | TUnknown.
Inductive LinuxBondMode := BalanceRr | ActiveBackup | BalanceXor | Broadcast | Ieee802_3ad | BalanceTlb | BalanceAlb.
Inductive BondXmitHashPolicy := Layer2 | Layer2_3 | Layer3_4.
#[export] Instance NetworkConfigMethod_eq_dec : EqDecision NetworkConfigMethod.
Proof. solve_decision. Defined.
#[export] Instance NetworkInterfaceType_eq_dec : EqDecision NetworkInterfaceType.
Proof. solve_decision. Defined.
#[export] Instance LinuxBondMode_eq_dec : EqDecision LinuxBondMode.
Proof. solve_decision. Defined.

Definition bond_mode_to_string (m : LinuxBondMode) : rstr :=
  match m with
  | BalanceRr => lit "balance-rr"
  | ActiveBackup => lit "active-backup"
  | BalanceXor => lit "balance-xor"
  | Broadcast => lit "broadcast"
  | Ieee802_3ad => lit "802.3ad"
  | BalanceTlb => lit "balance-tlb"
  | BalanceAlb => lit "balance-alb"
  end.
Definition all_bond_modes : list LinuxBondMode :=
  [BalanceRr; ActiveBackup; BalanceXor; Broadcast; Ieee802_3ad; BalanceTlb; BalanceAlb].
Definition bond_mode_from_str (s : rstr) : option LinuxBondMode :=
  List.find (λ m, bool_decide (bond_mode_to_string m = s)) all_bond_modes.

Definition xmit_policy_to_string (p : BondXmitHashPolicy) : rstr :=
  match p with Layer2 => lit "layer2" | Layer2_3 => lit "layer2+3" | Layer3_4 => lit "layer3+4" end.
Definition bond_xmit_hash_policy_from_str (s : rstr) : option BondXmitHashPolicy :=
  List.find (λ p, bool_decide (xmit_policy_to_string p = s)) [Layer2; Layer2_3; Layer3_4].

Record Interface := mkInterface {
  autostart : bool;
  active : bool;
  if_name : rstr;
  interface_type : NetworkInterfaceType;
  method : option NetworkConfigMethod;
  method6 : option NetworkConfigMethod;
  cidr : option rstr;
  gateway : option rstr;
  cidr6 : option rstr;
  gateway6 : option rstr;
  options : list rstr;
  options6 : list rstr;
  comments : option rstr;
  comments6 : option rstr;
  mtu : option N;
  bridge_ports : option (list rstr);
  bridge_vlan_aware : option bool;
  vlan_id : option N;
  vlan_raw_device : option rstr;
  slaves : option (list rstr);
  bond_mode : option LinuxBondMode;
  bond_primary : option rstr;
  bond_xmit_hash_policy : option BondXmitHashPolicy;
  altnames : list rstr
}.

Definition interface_new (name : rstr) : Interface :=
  mkInterface false false name TUnknown None None None None None None [] [] None None None None None None None
    None None None None [].

Inductive NetworkOrderEntry :=
| Iface (name : rstr)
| OComment (comment : rstr)
| OOption (option : rstr).

Record NetworkConfig := mkNetwork {
  interfaces : list (rstr * Interface);
  net_order : list NetworkOrderEntry
}.

(** ** Addresses *)

(** [IPV4OCTET]: at most 255 without leading zeros. *)
Definition ipv4_octet (s : rstr) : bool :=
  forallb is_ascii_digit s && (digits_val s <=? 255)%N &&
  match s with [] => false | [_] => true | c :: _ => negb (c =? 48)%N && (length s <=? 3)%nat end.
Definition IPV4RE (s : rstr) : bool :=
  match split_on 46%N s with
  | [a; b; c; d] => ipv4_octet a && ipv4_octet b && ipv4_octet c && ipv4_octet d
  | _ => false
  end.

Definition is_hex_digit (c : rchar) : bool :=
  is_ascii_digit c || ((97 <=? c) && (c <=? 102))%N || ((65 <=? c) && (c <=? 70))%N.
Definition ipv6_h16 (s : rstr) : bool :=
  forallb is_hex_digit s && (1 <=? length s)%nat && (length s <=? 4)%nat.

(** The number of 16-bit groups of a part without a double colon; the last one may
    be an IPv4 address, which counts for two. *)
Fixpoint groups_weight (l : list rstr) : option nat :=
  match l with
  | [] => Some 0
  | [g] => if ipv6_h16 g then Some 1 else if IPV4RE g then Some 2 else None
  | g :: l' => if ipv6_h16 g then S <$> groups_weight l' else None
  end.
Definition part_weight (s : rstr) : option nat :=
  match s with [] => Some 0 | _ => groups_weight (split_on 58%N s) end.
(** In front of the double colon there is no IPv4 address. *)
Definition left_weight (s : rstr) : option nat :=
  match s with
  | [] => Some 0
  | _ => if forallb ipv6_h16 (split_on 58%N s) then Some (length (split_on 58%N s)) else None
  end.

Fixpoint split_double_colon (s : rstr) : option (rstr * rstr) :=
  match s with
  | 58%N :: ((58%N :: r) as t) => Some ([], r)
  | c :: s' => match split_double_colon s' with Some (a, b) => Some (c :: a, b) | None => None end
  | [] => None
  end.

(** [IPV6RE_STR]: eight groups, or a double colon and at most seven. *)
Definition IPV6RE (s : rstr) : bool :=
  match split_double_colon s with
  | Some (a, b) =>
      match left_weight a, part_weight b with
      | Some n, Some k => (n + k <=? 7)%nat
      | _, _ => false
      end
  | None => bool_decide (part_weight s = Some 8)
  end.
Definition IP_REGEX (s : rstr) : bool := IPV4RE s || IPV6RE s.

Definition check_netmask (mask : N) (is_v6 : bool) : result unit NetError :=
  if ((1 <=? mask) && (mask <=? (if is_v6 then 128 else 32)))%N then Ok tt else Err BadNetmask.

(** An address with an optional mask of at most [n] digits. *)
Definition split_mask (n : nat) (s : rstr) : option (rstr * option rstr) :=
  match split_on 47%N s with
  | [a] => Some (a, None)
  | [a; m] => if forallb is_ascii_digit m && (1 <=? length m)%nat && (length m <=? n)%nat
              then Some (a, Some m) else None
  | _ => None
  end.

Definition with_mask (is_v6 : bool) (am : rstr * option rstr) : result (rstr * option N * bool) NetError :=
  match am.2 with
  | Some m =>
      let? mask := ok_or (parse_uint 255 m) BadNetmask in
      let? _ := check_netmask mask is_v6 in Ok (am.1, Some mask, is_v6)
  | None => Ok (am.1, None, is_v6)
  end.

Definition parse_address_or_cidr (s : rstr) : result (rstr * option N * bool) NetError :=
  let v6 := match split_mask 3 s with
            | Some am => if IPV6RE am.1 then with_mask true am else Err BadAddress
            | None => Err BadAddress
            end in
  match split_mask 2 s with
  | Some am => if IPV4RE am.1 then with_mask false am else v6
  | None => v6
  end.

Definition parse_cidr (s : rstr) : result (rstr * N * bool) NetError :=
  let? amv := parse_address_or_cidr s in
  match amv with
  | (address, Some mask, is_v6) => Ok (address, mask, is_v6)
  | _ => Err MissingNetmask
  end.

(** ** Names of interfaces: the regular expressions *)

(** The Unicode class of decimal digits, a table of the regex library. *)
Class UnicodeDigit := is_digit : rchar → bool.

Section Names.
Context {U : UnicodeDigit}.

Definition non_space (c : rchar) : bool := negb (is_whitespace c).
Definition digits1 (s : rstr) : bool := match s with [] => false | _ => forallb is_digit s end.

Fixpoint starts_with (p s : rstr) : option rstr :=
  match p, s with
  | [], _ => Some s
  | c :: p', x :: s' => if (c =? x)%N then starts_with p' s' else None
  | _ :: _, [] => None
  end.

(** Names [eth] or [ib] and digits, or [en] and anything without colon and dot. *)
Definition PHYSICAL_NIC_REGEX (s : rstr) : bool :=
  match starts_with (lit "eth") s with Some r => digits1 r | None => false end ||
  match starts_with (lit "en") s with
  | Some r => match r with [] => false | _ => forallb (λ c, negb ((c =? 58) || (c =? 46))%N) r end
  | None => false
  end ||
  match starts_with (lit "ib") s with Some r => digits1 r | None => false end.

(** A name without white space, a colon and digits. *)
Definition INTERFACE_ALIAS_REGEX (s : rstr) : bool :=
  match rposition 58%N s with
  | Some (S i) => forallb non_space (take (S i) s) && digits1 (drop (S (S i)) s)
  | _ => false
  end.

(** The last dot that a digit follows, not at the start: the parts around it. *)
Fixpoint last_dot (before s : rstr) : option (rstr * rstr) :=
  match s with
  | [] => None
  | c :: s' =>
      match last_dot (before ++ [c]) s' with
      | Some r => Some r
      | None =>
          if (c =? 46)%N && match before with [] => false | _ => true end &&
             match s' with d :: _ => is_digit d | [] => false end
          then Some (before, take_while is_digit s') else None
      end
  end.

(** [vlan] and digits at the end. *)
Fixpoint vlan_suffix (s : rstr) : option rstr :=
  match starts_with (lit "vlan") s with
  | Some r => if digits1 r then Some r
              else match s with _ :: s' => vlan_suffix s' | [] => None end
  | None => match s with _ :: s' => vlan_suffix s' | [] => None end
  end.

(** [VLAN_INTERFACE_REGEX]: the first alternative is bound to the start of the
    name, the second one to its end. *)
Definition vlan_captures (s : rstr) : option (option rstr * rstr) :=
  match last_dot [] (take_while non_space s) with
  | Some (raw, id) => Some (Some raw, id)
  | None => match vlan_suffix s with Some id => Some (None, id) | None => None end
  end.
Definition VLAN_INTERFACE_REGEX (s : rstr) : bool :=
  match vlan_captures s with Some _ => true | None => false end.

Definition parse_vlan_id_from_name (s : rstr) : option N :=
  match vlan_captures s with Some (_, id) => parse_uint 65535 id | None => None end.
Definition parse_vlan_raw_device_from_name (s : rstr) : option rstr :=
  match vlan_captures s with Some (raw, _) => raw | None => None end.

(** ** Renaming *)
Definition map_interface_name (iface : rstr) (mapping : list (rstr * rstr)) : rstr :=
  match bt_get iface mapping with
  | Some m => m
  | None =>
      match parse_vlan_raw_device_from_name iface, parse_vlan_id_from_name iface with
      | Some name, Some id =>
          match bt_get name mapping with
          | Some m => m ++ [46%N] ++ dec id
          | None => iface
          end
      | _, _ => iface
      end
  end.

Definition handle_interface (i : Interface) (mapping : list (rstr * rstr)) : Interface :=
  let f := λ n, map_interface_name n mapping in
  mkInterface i.(autostart) i.(active) i.(if_name) i.(interface_type) i.(method) i.(method6) i.(cidr) i.(gateway)
    i.(cidr6) i.(gateway6) i.(options) i.(options6) i.(comments) i.(comments6) i.(mtu)
    (map f <$> i.(bridge_ports)) i.(bridge_vlan_aware) i.(vlan_id) (f <$> i.(vlan_raw_device))
    (map f <$> i.(slaves)) i.(bond_mode) (f <$> i.(bond_primary)) i.(bond_xmit_hash_policy) i.(altnames).

Definition set_name (i : Interface) (n : rstr) : Interface :=
  mkInterface i.(autostart) i.(active) n i.(interface_type) i.(method) i.(method6) i.(cidr) i.(gateway)
    i.(cidr6) i.(gateway6) i.(options) i.(options6) i.(comments) i.(comments6) i.(mtu) i.(bridge_ports)
    i.(bridge_vlan_aware) i.(vlan_id) i.(vlan_raw_device) i.(slaves) i.(bond_mode) i.(bond_primary)
    i.(bond_xmit_hash_policy) i.(altnames).

(** The loop over the order: the interfaces that are left, and the new configuration. *)
Fixpoint rename_order (mapping : list (rstr * rstr)) (remaining : list (rstr * Interface)) (new : NetworkConfig)
    (l : list NetworkOrderEntry) : list (rstr * Interface) * NetworkConfig :=
  match l with
  | [] => (remaining, new)
  | (Iface n as e) :: l' =>
      match bt_get n remaining with
      | Some i =>
          let i := set_name i (map_interface_name i.(if_name) mapping) in
          let i := handle_interface i mapping in
          rename_order mapping (bt_remove n remaining)
            (mkNetwork (bt_insert i.(if_name) i new.(interfaces)) (new.(net_order) ++ [e])) l'
      | None => rename_order mapping remaining new l'
      end
  | e :: l' => rename_order mapping remaining (mkNetwork new.(interfaces) (new.(net_order) ++ [e])) l'
  end.

Definition rename_rest (mapping : list (rstr * rstr)) (new : NetworkConfig) (ni : rstr * Interface) : NetworkConfig :=
  let i := handle_interface (set_name ni.2 (map_interface_name ni.1 mapping)) mapping in
  mkNetwork (bt_insert i.(if_name) i new.(interfaces)) new.(net_order).

Definition rename_interfaces (c : NetworkConfig) (mapping : list (rstr * rstr)) : NetworkConfig :=
  let '(remaining, new) := rename_order mapping c.(interfaces) (mkNetwork [] []) c.(net_order) in
  foldl (rename_rest mapping) new remaining.
End Names.

(** ** Checks *)
Definition other_gateway (g : Interface → option rstr) (c : NetworkConfig) (iface : rstr) : result unit NetError :=
  match List.find (λ ni : rstr * Interface, match g ni.2 with Some _ => true | None => false end) c.(interfaces) with
  | Some (name, _) => if decide (name = iface) then Ok tt else Err DuplicateGateway
  | None => Ok tt
  end.
Definition check_duplicate_gateway_v4 := other_gateway gateway.
Definition check_duplicate_gateway_v6 := other_gateway gateway6.

Fixpoint use_ports (used ports : list rstr) : result (list rstr) NetError :=
  match ports with
  | [] => Ok used
  | p :: ports' => if decide (p ∈ used) then Err (PortUsedTwice p) else use_ports (p :: used) ports'
  end.
Fixpoint port_usage (used : list rstr) (l : list (rstr * Interface)) : result unit NetError :=
  match l with
  | [] => Ok tt
  | (_, i) :: l' =>
      let? used := use_ports used (default [] i.(bridge_ports)) in
      let? used := use_ports used (default [] i.(slaves)) in port_usage used l'
  end.
Definition check_port_usage (c : NetworkConfig) : result unit NetError := port_usage [] c.(interfaces).

Definition check_mtu (c : NetworkConfig) (parent_name child_name : rstr) : result unit NetError :=
  let? parent := ok_or (bt_get parent_name c.(interfaces)) MissingInterface in
  let? child := ok_or (bt_get child_name c.(interfaces)) MissingInterface in
  match child.(mtu) with
  | None => Ok tt
  | Some child_mtu =>
      let parent_mtu := match parent.(mtu) with
                        | Some m => m
                        | None => if decide (parent.(interface_type) = TBond) then child_mtu else 1500%N
                        end in
      if (parent_mtu <? child_mtu)%N then Err MtuTooSmall else Ok tt
  end.

Definition each {A} (f : A → result unit NetError) : list A → result unit NetError :=
  fix loop l := match l with
                | [] => Ok tt
                | x :: l' => let? _ := f x in loop l'
                end.

Definition check_slave (c : NetworkConfig) (iface slave : rstr) : result unit NetError :=
  match bt_get slave c.(interfaces) with
  | Some e => if decide (e.(interface_type) = TEth) then check_mtu c iface slave else Err (WrongSlaveType slave)
  | None => Err (MissingSlave slave)
  end.
Definition check_bond_slaves (c : NetworkConfig) : result unit NetError :=
  each (λ ni, each (check_slave c ni.1) (default [] ni.2.(slaves))) c.(interfaces).

(** A port [x.N] without white space stands for the interface [x]. *)
Definition port_device `{UnicodeDigit} (port : rstr) : rstr :=
  match rposition 46%N port with
  | Some (S i) => if forallb non_space (take (S i) port) && digits1 (drop (S (S i)) port)
                  then take (S i) port else port
  | _ => port
  end.
Definition check_port `{UnicodeDigit} (c : NetworkConfig) (iface port : rstr) : result unit NetError :=
  let port := port_device port in
  match bt_get port c.(interfaces) with
  | Some _ => check_mtu c iface port
  | None => Err (MissingPort port)
  end.
Definition check_bridge_ports `{UnicodeDigit} (c : NetworkConfig) : result unit NetError :=
  each (λ ni, each (check_port c ni.1) (default [] ni.2.(bridge_ports))) c.(interfaces).

(** ** The writer, as lines *)
Definition tab (words : list rstr) : rstr := 9%N :: join_with [32%N] words.
Definition opt_line {A} (f : A → list rstr) (o : option A) : list rstr :=
  match o with Some x => f x | None => [] end.

Definition write_ports (key : rstr) (l : list rstr) : rstr :=
  match l with [] => tab [key; lit "none"] | _ => tab (key :: l) end.

Definition write_iface_attributes (i : Interface) : list rstr :=
  match i.(interface_type) with
  | TBridge =>
      (if decide (i.(bridge_vlan_aware) = Some true) then [tab [lit "bridge-vlan-aware"; lit "yes"]] else []) ++
      [write_ports (lit "bridge-ports") (default [] i.(bridge_ports))]
  | TBond =>
      let mode := default BalanceRr i.(bond_mode) in
      [tab [lit "bond-mode"; bond_mode_to_string mode]] ++
      opt_line (λ p, if decide (mode = ActiveBackup) then [tab [lit "bond-primary"; p]] else []) i.(bond_primary) ++
      opt_line (λ p, if decide (mode = Ieee802_3ad ∨ mode = BalanceXor)
                     then [tab [lit "bond_xmit_hash_policy"; xmit_policy_to_string p]] else [])
        i.(bond_xmit_hash_policy) ++
      [write_ports (lit "bond-slaves") (default [] i.(slaves))]
  | TVlan =>
      opt_line (λ v, [tab [lit "vlan-id"; dec v]]) i.(vlan_id) ++
      opt_line (λ d, [tab [lit "vlan-raw-device"; d]]) i.(vlan_raw_device)
  | _ => []
  end ++
  opt_line (λ m, [tab [lit "mtu"; dec m]]) i.(mtu).

(** The attributes of one address family. *)
Definition write_family (m : NetworkConfigMethod) (address gw : option rstr) (opts : list rstr) (comment : option rstr) :
    list rstr :=
  (if decide (m = Static) then
     opt_line (λ a, [tab [lit "address"; a]]) address ++ opt_line (λ g, [tab [lit "gateway"; g]]) gw
   else []) ++
  map (λ o, 9%N :: o) opts ++
  opt_line (λ c, map (λ l, 35%N :: l) (lines c)) comment.
Definition write_iface_attributes_v4 (i : Interface) (m : NetworkConfigMethod) : list rstr :=
  write_family m i.(cidr) i.(gateway) i.(options) i.(comments).
Definition write_iface_attributes_v6 (i : Interface) (m : NetworkConfigMethod) : list rstr :=
  write_family m i.(cidr6) i.(gateway6) i.(options6) i.(comments6).

Definition method_to_str (m : NetworkConfigMethod) : rstr :=
  match m with
  | Static => lit "static" | Loopback => lit "loopback" | Manual => lit "manual" | DHCP => lit "dhcp" | Auto => lit "auto"
  end.

Definition iface_line (name family : rstr) (m : NetworkConfigMethod) : rstr :=
  join_with [32%N] [lit "iface"; name; family; method_to_str m].

(** An empty inet6 entry with the method manual is left out. *)
Definition skip_v6 (i : Interface) (m : NetworkConfigMethod) : bool :=
  match i.(method), m, i.(comments6), i.(options6) with
  | Some _, Manual, None, [] => true
  | _, _, _, _ => false
  end.

Definition write_iface (i : Interface) : list rstr :=
  match i.(method), i.(method6) with
  | None, None => []
  | _, _ =>
      (if i.(autostart) then [lit "auto " ++ i.(if_name)] else []) ++
      opt_line (λ m, [iface_line i.(if_name) (lit "inet") m] ++ write_iface_attributes_v4 i m ++
                     write_iface_attributes i ++ [[]]) i.(method) ++
      opt_line (λ m, if skip_v6 i m then [] else
                     [iface_line i.(if_name) (lit "inet6") m] ++ write_iface_attributes_v6 i m ++
                     (match i.(method) with None => write_iface_attributes i | Some _ => [] end) ++ [[]]) i.(method6)
  end.

(** The loop over the order. *)
Fixpoint write_entries (c : NetworkConfig) (done : list rstr) (last_comment : bool) (l : list NetworkOrderEntry) :
    list rstr * list rstr :=
  match l with
  | [] => ([], done)
  | OComment comment :: l' =>
      let '(out, d) := write_entries c done true l' in ((35%N :: comment) :: out, d)
  | OOption option :: l' =>
      let '(out, d) := write_entries c done false l' in
      ((if last_comment then [[]] else []) ++ [option; []] ++ out, d)
  | Iface name :: l' =>
      match bt_get name c.(interfaces) with
      | None => write_entries c done last_comment l'
      | Some i =>
          let blank := if last_comment then [[]] else [] in
          if decide (name ∈ done) then
            let '(out, d) := write_entries c done false l' in (blank ++ out, d)
          else
            let '(out, d) := write_entries c (name :: done) false l' in (blank ++ write_iface i ++ out, d)
      end
  end.

Definition write_lines (c : NetworkConfig) : list rstr :=
  let '(out, done) := write_entries c [] false c.(net_order) in
  out ++ flat_map (λ ni, if decide (ni.1 ∈ done) then [] else write_iface ni.2) c.(interfaces).

Definition unlines (ls : list rstr) : rstr := concat (map (λ l, l ++ [10%N]) ls).

Definition write_config `{UnicodeDigit} (c : NetworkConfig) : result rstr NetError :=
  let? _ := check_port_usage c in
  let? _ := check_bond_slaves c in
  let? _ := check_bridge_ports c in
  Ok (unlines (write_lines c)).
