(* ===== verification/InterfacesParser.v ===== *)
(** * InterfacesParser: the parser of the network interface configuration

    Models [proxmox-network-api]: the lexer of [config/lexer.rs] and the recursive
    descent parser of [config/parser.rs], with the state of the host's links of
    [config/helper.rs]. A parser is a function of the tokens that are left and the
    line number; an error carries the line number [parse_interfaces] reports. *)
From S2P Require Import Prelude Schema TimeParse Interfaces.

(** ** Field updates *)
Definition with_autostart (i : Interface) (v : bool) : Interface :=
  mkInterface v i.(active) i.(if_name) i.(interface_type) i.(method) i.(method6) i.(cidr) i.(gateway) i.(cidr6)
    i.(gateway6) i.(options) i.(options6) i.(comments) i.(comments6) i.(mtu) i.(bridge_ports)
    i.(bridge_vlan_aware) i.(vlan_id) i.(vlan_raw_device) i.(slaves) i.(bond_mode) i.(bond_primary)
    i.(bond_xmit_hash_policy) i.(altnames).
Definition with_active (i : Interface) (v : bool) : Interface :=
  mkInterface i.(autostart) v i.(if_name) i.(interface_type) i.(method) i.(method6) i.(cidr) i.(gateway)
    i.(cidr6) i.(gateway6) i.(options) i.(options6) i.(comments) i.(comments6) i.(mtu) i.(bridge_ports)
    i.(bridge_vlan_aware) i.(vlan_id) i.(vlan_raw_device) i.(slaves) i.(bond_mode) i.(bond_primary)
    i.(bond_xmit_hash_policy) i.(altnames).
Definition with_interface_type (i : Interface) (v : NetworkInterfaceType) : Interface :=
  mkInterface i.(autostart) i.(active) i.(if_name) v i.(method) i.(method6) i.(cidr) i.(gateway) i.(cidr6)
    i.(gateway6) i.(options) i.(options6) i.(comments) i.(comments6) i.(mtu) i.(bridge_ports)
    i.(bridge_vlan_aware) i.(vlan_id) i.(vlan_raw_device) i.(slaves) i.(bond_mode) i.(bond_primary)
    i.(bond_xmit_hash_policy) i.(altnames).
Definition with_method (i : Interface) (v : option NetworkConfigMethod) : Interface :=
  mkInterface i.(autostart) i.(active) i.(if_name) i.(interface_type) v i.(method6) i.(cidr) i.(gateway)
    i.(cidr6) i.(gateway6) i.(options) i.(options6) i.(comments) i.(comments6) i.(mtu) i.(bridge_ports)
    i.(bridge_vlan_aware) i.(vlan_id) i.(vlan_raw_device) i.(slaves) i.(bond_mode) i.(bond_primary)
    i.(bond_xmit_hash_policy) i.(altnames).
Definition with_method6 (i : Interface) (v : option NetworkConfigMethod) : Interface :=
  mkInterface i.(autostart) i.(active) i.(if_name) i.(interface_type) i.(method) v i.(cidr) i.(gateway)
    i.(cidr6) i.(gateway6) i.(options) i.(options6) i.(comments) i.(comments6) i.(mtu) i.(bridge_ports)
    i.(bridge_vlan_aware) i.(vlan_id) i.(vlan_raw_device) i.(slaves) i.(bond_mode) i.(bond_primary)
    i.(bond_xmit_hash_policy) i.(altnames).
Definition with_cidr (i : Interface) (v : option rstr) : Interface :=
  mkInterface i.(autostart) i.(active) i.(if_name) i.(interface_type) i.(method) i.(method6) v i.(gateway)
    i.(cidr6) i.(gateway6) i.(options) i.(options6) i.(comments) i.(comments6) i.(mtu) i.(bridge_ports)
    i.(bridge_vlan_aware) i.(vlan_id) i.(vlan_raw_device) i.(slaves) i.(bond_mode) i.(bond_primary)
    i.(bond_xmit_hash_policy) i.(altnames).
Definition with_gateway (i : Interface) (v : option rstr) : Interface :=
  mkInterface i.(autostart) i.(active) i.(if_name) i.(interface_type) i.(method) i.(method6) i.(cidr) v
    i.(cidr6) i.(gateway6) i.(options) i.(options6) i.(comments) i.(comments6) i.(mtu) i.(bridge_ports)
    i.(bridge_vlan_aware) i.(vlan_id) i.(vlan_raw_device) i.(slaves) i.(bond_mode) i.(bond_primary)
    i.(bond_xmit_hash_policy) i.(altnames).
Definition with_cidr6 (i : Interface) (v : option rstr) : Interface :=
  mkInterface i.(autostart) i.(active) i.(if_name) i.(interface_type) i.(method) i.(method6) i.(cidr)
    i.(gateway) v i.(gateway6) i.(options) i.(options6) i.(comments) i.(comments6) i.(mtu) i.(bridge_ports)
    i.(bridge_vlan_aware) i.(vlan_id) i.(vlan_raw_device) i.(slaves) i.(bond_mode) i.(bond_primary)
    i.(bond_xmit_hash_policy) i.(altnames).
Definition with_gateway6 (i : Interface) (v : option rstr) : Interface :=
  mkInterface i.(autostart) i.(active) i.(if_name) i.(interface_type) i.(method) i.(method6) i.(cidr)
    i.(gateway) i.(cidr6) v i.(options) i.(options6) i.(comments) i.(comments6) i.(mtu) i.(bridge_ports)
    i.(bridge_vlan_aware) i.(vlan_id) i.(vlan_raw_device) i.(slaves) i.(bond_mode) i.(bond_primary)
    i.(bond_xmit_hash_policy) i.(altnames).
Definition with_options (i : Interface) (v : list rstr) : Interface :=
  mkInterface i.(autostart) i.(active) i.(if_name) i.(interface_type) i.(method) i.(method6) i.(cidr)
    i.(gateway) i.(cidr6) i.(gateway6) v i.(options6) i.(comments) i.(comments6) i.(mtu) i.(bridge_ports)
    i.(bridge_vlan_aware) i.(vlan_id) i.(vlan_raw_device) i.(slaves) i.(bond_mode) i.(bond_primary)
    i.(bond_xmit_hash_policy) i.(altnames).
Definition with_options6 (i : Interface) (v : list rstr) : Interface :=
  mkInterface i.(autostart) i.(active) i.(if_name) i.(interface_type) i.(method) i.(method6) i.(cidr)
    i.(gateway) i.(cidr6) i.(gateway6) i.(options) v i.(comments) i.(comments6) i.(mtu) i.(bridge_ports)
    i.(bridge_vlan_aware) i.(vlan_id) i.(vlan_raw_device) i.(slaves) i.(bond_mode) i.(bond_primary)
    i.(bond_xmit_hash_policy) i.(altnames).
Definition with_comments (i : Interface) (v : option rstr) : Interface :=
  mkInterface i.(autostart) i.(active) i.(if_name) i.(interface_type) i.(method) i.(method6) i.(cidr)
    i.(gateway) i.(cidr6) i.(gateway6) i.(options) i.(options6) v i.(comments6) i.(mtu) i.(bridge_ports)
    i.(bridge_vlan_aware) i.(vlan_id) i.(vlan_raw_device) i.(slaves) i.(bond_mode) i.(bond_primary)
    i.(bond_xmit_hash_policy) i.(altnames).
Definition with_comments6 (i : Interface) (v : option rstr) : Interface :=
  mkInterface i.(autostart) i.(active) i.(if_name) i.(interface_type) i.(method) i.(method6) i.(cidr)
    i.(gateway) i.(cidr6) i.(gateway6) i.(options) i.(options6) i.(comments) v i.(mtu) i.(bridge_ports)
    i.(bridge_vlan_aware) i.(vlan_id) i.(vlan_raw_device) i.(slaves) i.(bond_mode) i.(bond_primary)
    i.(bond_xmit_hash_policy) i.(altnames).
Definition with_mtu (i : Interface) (v : option N) : Interface :=
  mkInterface i.(autostart) i.(active) i.(if_name) i.(interface_type) i.(method) i.(method6) i.(cidr)
    i.(gateway) i.(cidr6) i.(gateway6) i.(options) i.(options6) i.(comments) i.(comments6) v i.(bridge_ports)
    i.(bridge_vlan_aware) i.(vlan_id) i.(vlan_raw_device) i.(slaves) i.(bond_mode) i.(bond_primary)
    i.(bond_xmit_hash_policy) i.(altnames).
Definition with_bridge_ports (i : Interface) (v : option (list rstr)) : Interface :=
  mkInterface i.(autostart) i.(active) i.(if_name) i.(interface_type) i.(method) i.(method6) i.(cidr)
    i.(gateway) i.(cidr6) i.(gateway6) i.(options) i.(options6) i.(comments) i.(comments6) i.(mtu) v
    i.(bridge_vlan_aware) i.(vlan_id) i.(vlan_raw_device) i.(slaves) i.(bond_mode) i.(bond_primary)
    i.(bond_xmit_hash_policy) i.(altnames).
Definition with_bridge_vlan_aware (i : Interface) (v : option bool) : Interface :=
  mkInterface i.(autostart) i.(active) i.(if_name) i.(interface_type) i.(method) i.(method6) i.(cidr)
    i.(gateway) i.(cidr6) i.(gateway6) i.(options) i.(options6) i.(comments) i.(comments6) i.(mtu)
    i.(bridge_ports) v i.(vlan_id) i.(vlan_raw_device) i.(slaves) i.(bond_mode) i.(bond_primary)
    i.(bond_xmit_hash_policy) i.(altnames).
Definition with_vlan_id (i : Interface) (v : option N) : Interface :=
  mkInterface i.(autostart) i.(active) i.(if_name) i.(interface_type) i.(method) i.(method6) i.(cidr)
    i.(gateway) i.(cidr6) i.(gateway6) i.(options) i.(options6) i.(comments) i.(comments6) i.(mtu)
    i.(bridge_ports) i.(bridge_vlan_aware) v i.(vlan_raw_device) i.(slaves) i.(bond_mode) i.(bond_primary)
    i.(bond_xmit_hash_policy) i.(altnames).
Definition with_vlan_raw_device (i : Interface) (v : option rstr) : Interface :=
  mkInterface i.(autostart) i.(active) i.(if_name) i.(interface_type) i.(method) i.(method6) i.(cidr)
    i.(gateway) i.(cidr6) i.(gateway6) i.(options) i.(options6) i.(comments) i.(comments6) i.(mtu)
    i.(bridge_ports) i.(bridge_vlan_aware) i.(vlan_id) v i.(slaves) i.(bond_mode) i.(bond_primary)
    i.(bond_xmit_hash_policy) i.(altnames).
Definition with_slaves (i : Interface) (v : option (list rstr)) : Interface :=
  mkInterface i.(autostart) i.(active) i.(if_name) i.(interface_type) i.(method) i.(method6) i.(cidr)
    i.(gateway) i.(cidr6) i.(gateway6) i.(options) i.(options6) i.(comments) i.(comments6) i.(mtu)
    i.(bridge_ports) i.(bridge_vlan_aware) i.(vlan_id) i.(vlan_raw_device) v i.(bond_mode) i.(bond_primary)
    i.(bond_xmit_hash_policy) i.(altnames).
Definition with_bond_mode (i : Interface) (v : option LinuxBondMode) : Interface :=
  mkInterface i.(autostart) i.(active) i.(if_name) i.(interface_type) i.(method) i.(method6) i.(cidr)
    i.(gateway) i.(cidr6) i.(gateway6) i.(options) i.(options6) i.(comments) i.(comments6) i.(mtu)
    i.(bridge_ports) i.(bridge_vlan_aware) i.(vlan_id) i.(vlan_raw_device) i.(slaves) v i.(bond_primary)
    i.(bond_xmit_hash_policy) i.(altnames).
Definition with_bond_primary (i : Interface) (v : option rstr) : Interface :=
  mkInterface i.(autostart) i.(active) i.(if_name) i.(interface_type) i.(method) i.(method6) i.(cidr)
    i.(gateway) i.(cidr6) i.(gateway6) i.(options) i.(options6) i.(comments) i.(comments6) i.(mtu)
    i.(bridge_ports) i.(bridge_vlan_aware) i.(vlan_id) i.(vlan_raw_device) i.(slaves) i.(bond_mode) v
    i.(bond_xmit_hash_policy) i.(altnames).
Definition with_bond_xmit_hash_policy (i : Interface) (v : option BondXmitHashPolicy) : Interface :=
  mkInterface i.(autostart) i.(active) i.(if_name) i.(interface_type) i.(method) i.(method6) i.(cidr)
    i.(gateway) i.(cidr6) i.(gateway6) i.(options) i.(options6) i.(comments) i.(comments6) i.(mtu)
    i.(bridge_ports) i.(bridge_vlan_aware) i.(vlan_id) i.(vlan_raw_device) i.(slaves) i.(bond_mode)
    i.(bond_primary) v i.(altnames).
Definition with_altnames (i : Interface) (v : list rstr) : Interface :=
  mkInterface i.(autostart) i.(active) i.(if_name) i.(interface_type) i.(method) i.(method6) i.(cidr)
    i.(gateway) i.(cidr6) i.(gateway6) i.(options) i.(options6) i.(comments) i.(comments6) i.(mtu)
    i.(bridge_ports) i.(bridge_vlan_aware) i.(vlan_id) i.(vlan_raw_device) i.(slaves) i.(bond_mode)
    i.(bond_primary) i.(bond_xmit_hash_policy) v.

(** ** Links of the host *)
Inductive Link := Ether (address : list N) | UnknownLink (link_type : rstr).
Record LinkInfo := mkLinkInfo { perm_hw_addr : option (option (list N)); info_kind : option rstr }.
Record IpLink := mkIpLink {
  ifname : rstr;
  link_altnames : list rstr;
  ifindex : Z;
  link_type : Link;
  linkinfo : option LinkInfo;
  operstate : rstr
}.

Definition is_physical `{UnicodeDigit} (l : IpLink) : bool :=
  match l.(link_type), l.(linkinfo) with
  | Ether _, Some info => match info.(info_kind) with None => true | Some _ => PHYSICAL_NIC_REGEX l.(ifname) end
  | Ether _, None => true
  | UnknownLink _, _ => PHYSICAL_NIC_REGEX l.(ifname)
  end.
(** [info_slave_data] is the outer option of [perm_hw_addr]. *)
Definition permanent_mac (l : IpLink) : option (list N) :=
  match l.(link_type) with
  | Ether address =>
      match l.(linkinfo) with
      | Some info => match info.(perm_hw_addr) with Some mac => mac | None => Some address end
      | None => Some address
      end
  | UnknownLink _ => None
  end.
Definition link_active (l : IpLink) : bool := bool_decide (l.(operstate) = lit "UP").
Definition altname_mapping (links : list IpLink) : list (rstr * rstr) :=
  foldl (λ m l, foldl (λ m a, bt_insert a l.(ifname) m) m l.(link_altnames)) [] links.

(** ** Lexer *)
Inductive Token :=
| KText | KComment | KDHCP | KNewline | KAddress | KAuto | KGateway | KInet | KInet6 | KIface | KLoopback | KManual
| KNetmask | KStatic | KAttribute | KMTU | KBridgePorts | KBridgeVlanAware | KVlanId | KVlanRawDevice | KBondSlaves
| KBondMode | KBondPrimary | KBondXmitHashPolicy | KEOF.
#[export] Instance Token_eq_dec : EqDecision Token.
Proof. solve_decision. Defined.

Definition KEYWORDS : list (rstr * Token) :=
  [(lit "address", KAddress); (lit "auto", KAuto); (lit "dhcp", KDHCP); (lit "gateway", KGateway);
   (lit "inet", KInet); (lit "inet6", KInet6); (lit "iface", KIface); (lit "loopback", KLoopback);
   (lit "manual", KManual); (lit "netmask", KNetmask); (lit "static", KStatic); (lit "mtu", KMTU);
   (lit "bridge-ports", KBridgePorts); (lit "bridge_ports", KBridgePorts);
   (lit "bridge-vlan-aware", KBridgeVlanAware); (lit "bridge_vlan_aware", KBridgeVlanAware);
   (lit "vlan-id", KVlanId); (lit "vlan_id", KVlanId);
   (lit "vlan-raw-device", KVlanRawDevice); (lit "vlan_raw_device", KVlanRawDevice);
   (lit "bond-slaves", KBondSlaves); (lit "bond_slaves", KBondSlaves); (lit "bond-mode", KBondMode);
   (lit "bond-primary", KBondPrimary); (lit "bond_primary", KBondPrimary);
   (lit "bond_xmit_hash_policy", KBondXmitHashPolicy); (lit "bond-xmit-hash-policy", KBondXmitHashPolicy)].

Definition keyword_token (word : rstr) : Token := default KText (bt_get word KEYWORDS).

(** [char::is_ascii_whitespace]: without the vertical tab. *)
Definition is_ascii_whitespace (c : rchar) : bool :=
  ((c =? 9) || (c =? 10) || (c =? 12) || (c =? 13) || (c =? 32))%N.

(** [str::split_ascii_whitespace]; [cur] is the word that has begun. *)
Fixpoint split_words (cur s : rstr) : list rstr :=
  let emit := match cur with [] => [] | _ => [cur] end in
  match s with
  | [] => emit
  | c :: s' => if is_ascii_whitespace c then emit ++ split_words [] s' else split_words (cur ++ [c]) s'
  end.
Definition split_ascii_whitespace (s : rstr) : list rstr := split_words [] s.

(** The line is given without its line feed, which [split_ascii_whitespace] drops
    and [trim] removes. *)
Definition split_line (line : rstr) : list (Token * rstr) :=
  match line with
  | 35%N :: comment => [(KComment, trim comment)]
  | _ =>
      let list := map (λ text, (keyword_token text, text)) (split_ascii_whitespace line) in
      match line with
      | c :: _ => if is_ascii_whitespace c && negb (c =? 10)%N then (KAttribute, [9%N]) :: list else list
      | [] => list
      end
  end.

(** [BufRead::read_line] to the end of the input. *)
Definition read_lines (s : rstr) : list rstr :=
  match last (split_on 10%N s) with
  | Some [] => removelast (split_on 10%N s)
  | _ => split_on 10%N s
  end.

Definition line_tokens (line : rstr) : list (Token * rstr) := split_line line ++ [(KNewline, [10%N])].
Definition lexer (s : rstr) : list (Token * rstr) := flat_map line_tokens (read_lines s) ++ [(KEOF, [])].

(** ** Parser state *)
Record Input := mkInput { input : list (Token * rstr); line_nr : N }.
Definition Parser (A : Type) := Input → result (A * Input) (N * NetError).
Definition pret {A} (x : A) : Parser A := λ s, Ok (x, s).
Definition pfail {A} (e : NetError) : Parser A := λ s, Err (s.(line_nr), e).
Definition pbind {A B} (m : Parser A) (k : A → Parser B) : Parser B :=
  λ s, match m s with Ok (x, s') => k x s' | Err e => Err e end.
Notation "'let&' x ':=' m 'in' k" := (pbind m (fun x => k))
  (at level 10, x pattern, m at level 200, k at level 200).
Definition lift {A} (r : result A NetError) : Parser A :=
  match r with Ok x => pret x | Err e => pfail e end.

Definition peek : Parser Token := λ s,
  match s.(input) with
  | (token, _) :: _ => Ok (token, s)
  | [] => Err (s.(line_nr), UnexpectedEnd)
  end.
Definition next : Parser (Token * rstr) := λ s,
  match s.(input) with
  | (token, text) :: rest =>
      Ok (token, text, mkInput rest (if decide (token = KNewline) then s.(line_nr) + 1 else s.(line_nr))%N)
  | [] => Err (s.(line_nr), UnexpectedEnd)
  end.
Definition next_text : Parser rstr :=
  let& (token, text) := next in
  match token with KText => pret text | _ => pfail UnexpectedToken end.
Definition eat (expected : Token) : Parser rstr :=
  let& (token, text) := next in
  if decide (token = expected) then pret text else pfail UnexpectedToken.

(** ** Single lines; these loops end with the line *)
Fixpoint auto_loop (flags : list rstr) (l : list (Token * rstr)) (n : N) : result (list rstr * Input) (N * NetError) :=
  match l with
  | (KText, iface) :: l' => auto_loop (flags ++ [iface]) l' n
  | (KNewline, _) :: l' => Ok (flags, mkInput l' (n + 1)%N)
  | _ :: _ => Err (n, UnexpectedToken)
  | [] => Err (n, UnexpectedEnd)
  end.
Definition parse_auto (flags : list rstr) : Parser (list rstr) :=
  let& _ := eat KAuto in λ s, auto_loop flags s.(input) s.(line_nr).

(** [IPV4_MASK_HASH_LOCALNET]: the dotted masks by their length. *)
Definition IPV4_REVERSE_MASK : list rstr :=
  [lit "0.0.0.0"; lit "128.0.0.0"; lit "192.0.0.0"; lit "224.0.0.0"; lit "240.0.0.0"; lit "248.0.0.0";
   lit "252.0.0.0"; lit "254.0.0.0"; lit "255.0.0.0"; lit "255.128.0.0"; lit "255.192.0.0";
   lit "255.224.0.0"; lit "255.240.0.0"; lit "255.248.0.0"; lit "255.252.0.0"; lit "255.254.0.0";
   lit "255.255.0.0"; lit "255.255.128.0"; lit "255.255.192.0"; lit "255.255.224.0";
   lit "255.255.240.0"; lit "255.255.248.0"; lit "255.255.252.0"; lit "255.255.254.0";
   lit "255.255.255.0"; lit "255.255.255.128"; lit "255.255.255.192"; lit "255.255.255.224";
   lit "255.255.255.240"; lit "255.255.255.248"; lit "255.255.255.252"; lit "255.255.255.254";
   lit "255.255.255.255"].
Definition ipv4_mask_hash_localnet (s : rstr) : option N := N.of_nat <$> position s IPV4_REVERSE_MASK.

Definition parse_netmask : Parser N :=
  let& _ := eat KNetmask in
  let& netmask := next_text in
  let& mask := match ipv4_mask_hash_localnet netmask with
               | Some mask => pret mask
               | None => lift (ok_or (parse_uint u8_max netmask) BadNetmask)
               end in
  let& _ := eat KNewline in pret mask.

Definition parse_iface_address : Parser (rstr * option N * bool) :=
  let& _ := eat KAddress in
  let& cidr := next_text in
  let& amv := lift (parse_address_or_cidr cidr) in
  let& _ := eat KNewline in pret (cidr, amv.1.2, amv.2).

Definition set_method_v4 (i : Interface) (m : NetworkConfigMethod) : result Interface NetError :=
  match i.(method) with None => Ok (with_method i (Some m)) | Some _ => Err MethodSet end.
Definition set_method_v6 (i : Interface) (m : NetworkConfigMethod) : result Interface NetError :=
  match i.(method6) with None => Ok (with_method6 i (Some m)) | Some _ => Err MethodSet end.
Definition set_cidr_v4 (i : Interface) (a : rstr) : result Interface NetError :=
  match i.(cidr) with None => Ok (with_cidr i (Some a)) | Some _ => Err DuplicateAddress end.
Definition set_cidr_v6 (i : Interface) (a : rstr) : result Interface NetError :=
  match i.(cidr6) with None => Ok (with_cidr6 i (Some a)) | Some _ => Err DuplicateAddress end.
Definition set_gateway_v4 (i : Interface) (g : rstr) : result Interface NetError :=
  match i.(gateway) with None => Ok (with_gateway i (Some g)) | Some _ => Err DuplicateGateway end.
Definition set_gateway_v6 (i : Interface) (g : rstr) : result Interface NetError :=
  match i.(gateway6) with None => Ok (with_gateway6 i (Some g)) | Some _ => Err DuplicateGateway end.
Definition set_interface_type (i : Interface) (t : NetworkInterfaceType) : result Interface NetError :=
  if decide (i.(interface_type) = TUnknown) then Ok (with_interface_type i t)
  else if decide (i.(interface_type) = t) then Ok i else Err TypeDefined.

Definition parse_iface_gateway (i : Interface) : Parser Interface :=
  let& _ := eat KGateway in
  let& gateway := next_text in
  let& i := if IP_REGEX gateway then
              lift (if decide (58%N ∈ gateway) then set_gateway_v6 i gateway else set_gateway_v4 i gateway)
            else pfail BadGateway in
  let& _ := eat KNewline in pret i.

Definition parse_iface_mtu : Parser N :=
  let& _ := eat KMTU in
  let& text := next_text in
  let& mtu := lift (ok_or (parse_uint u64_max text) BadMtu) in
  let& _ := eat KNewline in pret mtu.

Definition parse_yes_no : Parser bool :=
  let& text := next_text in
  let lower := to_ascii_lowercase text in
  let& value := if decide (lower = lit "yes") then pret true
                else if decide (lower = lit "no") then pret false else pfail BadYesNo in
  let& _ := eat KNewline in pret value.

Fixpoint eol_loop (line : rstr) (l : list (Token * rstr)) (n : N) : result (rstr * Input) (N * NetError) :=
  match l with
  | (KNewline, _) :: l' => Ok (line, mkInput l' (n + 1)%N)
  | (_, text) :: l' => eol_loop (match line with [] => text | _ => line ++ [32%N] ++ text end) l' n
  | [] => Err (n, UnexpectedEnd)
  end.
Definition parse_to_eol : Parser rstr := λ s, eol_loop [] s.(input) s.(line_nr).

Fixpoint iface_list_loop (list : list rstr) (l : List.list (Token * rstr)) (n : N) :
    result (List.list rstr * Input) (N * NetError) :=
  match l with
  | (KNewline, _) :: l' => Ok (list, mkInput l' (n + 1)%N)
  | (KText, text) :: l' => iface_list_loop (if decide (text = lit "none") then list else list ++ [text]) l' n
  | _ :: _ => Err (n, UnexpectedToken)
  | [] => Err (n, UnexpectedEnd)
  end.
Definition parse_iface_list : Parser (list rstr) := λ s, iface_list_loop [] s.(input) s.(line_nr).

(** ** Attributes of an interface *)
Record AttrState := mkAttrs {
  at_netmask : option N;
  address_list : list (rstr * option N * bool);
  at_iface : Interface
}.
Definition on_iface (st : AttrState) (i : Interface) : AttrState := mkAttrs st.(at_netmask) st.(address_list) i.

Definition join_comment (old : option rstr) (comment : rstr) : option rstr :=
  Some (match default [] old with [] => comment | c => c ++ [10%N] ++ comment end).

(** The line after the token [Attribute]. *)
Definition attribute_line (only_v6 : bool) (st : AttrState) : Parser AttrState :=
  let i := st.(at_iface) in
  let& token := peek in
  match token with
  | KAddress =>
      let& a := parse_iface_address in pret (mkAttrs st.(at_netmask) (st.(address_list) ++ [a]) i)
  | KGateway => let& i := parse_iface_gateway i in pret (on_iface st i)
  | KNetmask => let& m := parse_netmask in pret (mkAttrs (Some m) st.(address_list) i)
  | KMTU => let& m := parse_iface_mtu in pret (on_iface st (with_mtu i (Some m)))
  | KBridgeVlanAware =>
      let& _ := eat KBridgeVlanAware in
      let& b := parse_yes_no in pret (on_iface st (with_bridge_vlan_aware i (Some b)))
  | KBridgePorts =>
      let& _ := eat KBridgePorts in
      let& ports := parse_iface_list in
      let& i := lift (set_interface_type (with_bridge_ports i (Some ports)) TBridge) in pret (on_iface st i)
  | KBondSlaves =>
      let& _ := eat KBondSlaves in
      let& sl := parse_iface_list in
      let& i := lift (set_interface_type (with_slaves i (Some sl)) TBond) in pret (on_iface st i)
  | KBondMode =>
      let& _ := eat KBondMode in
      let& text := next_text in
      let& mode := lift (ok_or (bond_mode_from_str text) BadBond) in
      let& _ := eat KNewline in pret (on_iface st (with_bond_mode i (Some mode)))
  | KBondPrimary =>
      let& _ := eat KBondPrimary in
      let& primary := next_text in
      let& _ := eat KNewline in pret (on_iface st (with_bond_primary i (Some primary)))
  | KBondXmitHashPolicy =>
      let& _ := eat KBondXmitHashPolicy in
      let& text := next_text in
      let& policy := lift (ok_or (bond_xmit_hash_policy_from_str text) BadBond) in
      let& _ := eat KNewline in pret (on_iface st (with_bond_xmit_hash_policy i (Some policy)))
  | KVlanId =>
      let& _ := eat KVlanId in
      let& text := next_text in
      let& v := lift (ok_or (parse_uint u16_max text) BadVlanId) in
      let& i := lift (set_interface_type (with_vlan_id i (Some v)) TVlan) in
      let& _ := eat KNewline in pret (on_iface st i)
  | KVlanRawDevice =>
      let& _ := eat KVlanRawDevice in
      let& d := next_text in
      let& i := lift (set_interface_type (with_vlan_raw_device i (Some d)) TVlan) in
      let& _ := eat KNewline in pret (on_iface st i)
  | _ =>
      let& option := parse_to_eol in
      match option with
      | [] => pret st
      | _ => pret (on_iface st (if only_v6 then with_options6 i (i.(options6) ++ [option])
                                else with_options i (i.(options) ++ [option])))
      end
  end.

Definition attribute_comment (only_v6 : bool) (st : AttrState) (comment : rstr) : AttrState :=
  let i := st.(at_iface) in
  on_iface st (if only_v6 then with_comments6 i (join_comment i.(comments6) comment)
               else with_comments i (join_comment i.(comments) comment)).

Fixpoint attributes_loop (fuel : nat) (only_v6 : bool) (st : AttrState) : Parser AttrState :=
  match fuel with
  | O => pfail NetOutOfFuel
  | S fuel' =>
      let& token := peek in
      match token with
      | KAttribute =>
          let& _ := eat KAttribute in
          let& st := attribute_line only_v6 st in attributes_loop fuel' only_v6 st
      | KComment =>
          let& comment := eat KComment in
          let& _ := eat KNewline in attributes_loop fuel' only_v6 (attribute_comment only_v6 st comment)
      | _ => pret st
      end
  end.

Definition set_cidr (i : Interface) (is_v6 : bool) (a : rstr) : result Interface NetError :=
  if is_v6 then set_cidr_v6 i a else set_cidr_v4 i a.

Fixpoint set_addresses (i : Interface) (l : list (rstr * option N * bool)) : result Interface NetError :=
  match l with
  | [] => Ok i
  | (a, Some _, is_v6) :: l' => let? i := set_cidr i is_v6 a in set_addresses i l'
  | (_, None, _) :: _ => Err MissingNetmask
  end.

(** After the loop: a netmask completes the one address without a mask. *)
Definition finish_addresses (st : AttrState) : result Interface NetError :=
  match st.(at_netmask) with
  | Some netmask =>
      match st.(address_list) with
      | [] => Ok st.(at_iface)
      | [(a, Some _, is_v6)] => set_cidr st.(at_iface) is_v6 a
      | [(a, None, is_v6)] =>
          let? _ := check_netmask netmask is_v6 in set_cidr st.(at_iface) is_v6 (a ++ [47%N] ++ dec netmask)
      | _ => Err NetmaskForMany
      end
  | None => set_addresses st.(at_iface) st.(address_list)
  end.

(** Every round of the loop takes a token: the tokens that are left are enough. *)
Definition parse_iface_attributes (i : Interface) (v4 v6 : bool) : Parser Interface := λ s,
  (let& st := attributes_loop (S (length s.(input))) (negb v4 && v6) (mkAttrs None [] i) in
   lift (finish_addresses st)) s.

(** The words after the name: address families and the last method. *)
Fixpoint iface_words (v4 v6 : bool) (m : option NetworkConfigMethod) (l : list (Token * rstr)) (n : N) :
    result (bool * bool * option NetworkConfigMethod * Input) (N * NetError) :=
  match l with
  | (token, _) :: l' =>
      match token with
      | KNewline => Ok (v4, v6, m, mkInput l' (n + 1)%N)
      | KInet => iface_words true v6 m l' n
      | KInet6 => iface_words v4 true m l' n
      | KLoopback => iface_words v4 v6 (Some Loopback) l' n
      | KStatic => iface_words v4 v6 (Some Static) l' n
      | KManual => iface_words v4 v6 (Some Manual) l' n
      | KDHCP => iface_words v4 v6 (Some DHCP) l' n
      | KAuto => iface_words v4 v6 (Some Auto) l' n
      | _ => Err (n, UnknownIfaceOption)
      end
  | [] => Err (n, UnexpectedEnd)
  end.

Definition set_methods (i : Interface) (v4 v6 : bool) (m : NetworkConfigMethod) : result Interface NetError :=
  let? i := if v4 then set_method_v4 i m else Ok i in
  if v6 then set_method_v6 i m else Ok i.

Definition parse_iface (config : NetworkConfig) : Parser NetworkConfig :=
  let& _ := eat KIface in
  let& iface := next_text in
  let& (v4, v6, m) := λ s, iface_words false false None s.(input) s.(line_nr) in
  let m := default Static m in
  let '(v4, v6) := if v4 || v6 then (v4, v6) else (true, true) in
  match bt_get iface config.(interfaces) with
  | Some i =>
      let& i := lift (set_methods i v4 v6 m) in
      let& i := parse_iface_attributes i v4 v6 in
      pret (mkNetwork (bt_insert iface i config.(interfaces)) config.(net_order))
  | None =>
      let& i := lift (set_methods (interface_new iface) v4 v6 m) in
      let& i := parse_iface_attributes i v4 v6 in
      pret (mkNetwork (bt_insert i.(if_name) i config.(interfaces)) (config.(net_order) ++ [Iface iface]))
  end.

(** ** The file *)
Definition push_order (config : NetworkConfig) (e : NetworkOrderEntry) : NetworkConfig :=
  mkNetwork config.(interfaces) (config.(net_order) ++ [e]).

Fixpoint interfaces_loop (fuel : nat) (config : NetworkConfig) (auto_flag : list rstr) :
    Parser (NetworkConfig * list rstr) :=
  match fuel with
  | O => pfail NetOutOfFuel
  | S fuel' =>
      let& token := peek in
      match token with
      | KEOF => pret (config, auto_flag)
      | KNewline => let& _ := eat KNewline in interfaces_loop fuel' config auto_flag
      | KComment =>
          let& (_, text) := next in
          let& _ := eat KNewline in interfaces_loop fuel' (push_order config (OComment text)) auto_flag
      | KAuto => let& auto_flag := parse_auto auto_flag in interfaces_loop fuel' config auto_flag
      | KIface => let& config := parse_iface config in interfaces_loop fuel' config auto_flag
      | _ =>
          let& option := parse_to_eol in
          interfaces_loop fuel' (match option with [] => config | _ => push_order config (OOption option) end) auto_flag
      end
  end.

(** [get_mut] and a change of the entry. *)
Definition bt_modify {V} (k : rstr) (f : V → V) (m : list (rstr * V)) : list (rstr * V) :=
  match bt_get k m with Some v => bt_insert k (f v) m | None => m end.

(** The flags are a set in the source; setting them does not depend on the order. *)
Definition set_autostarts (auto_flag : list rstr) (m : list (rstr * Interface)) : list (rstr * Interface) :=
  foldl (λ m n, bt_modify n (λ i, with_autostart i true) m) m auto_flag.

Section Existing.
Context `{U : UnicodeDigit}.

(** One link of the host, in the order the map of links yields them. *)
Definition existing_interface (config : NetworkConfig) (nl : rstr * IpLink) : result NetworkConfig NetError :=
  let '(iface, ip_link) := nl in
  match bt_get iface config.(interfaces) with
  | Some i =>
      let i := with_active i (link_active ip_link) in
      let i := if decide (i.(interface_type) = TUnknown ∧ is_physical ip_link = true)
               then with_interface_type i TEth else i in
      let i := with_altnames i ip_link.(link_altnames) in
      Ok (mkNetwork (bt_insert iface i config.(interfaces)) config.(net_order))
  | None =>
      if is_physical ip_link then
        let? i := set_method_v4 (interface_new iface) Manual in
        let i := with_active (with_interface_type i TEth) (link_active ip_link) in
        Ok (mkNetwork (bt_insert i.(if_name) i config.(interfaces)) (config.(net_order) ++ [Iface iface]))
      else Ok config
  end.
Fixpoint existing_loop (config : NetworkConfig) (l : list (rstr * IpLink)) : result NetworkConfig NetError :=
  match l with
  | [] => Ok config
  | nl :: l' => let? config := existing_interface config nl in existing_loop config l'
  end.

(** The type an interface without one gets by its name. *)
Definition derive_type (existing : option (list (rstr * IpLink))) (name : rstr) : NetworkInterfaceType :=
  if decide (name = lit "lo") then TLoopback
  else if INTERFACE_ALIAS_REGEX name then TAlias
  else if VLAN_INTERFACE_REGEX name then TVlan
  else match existing with
       | Some links => match bt_get name links with
                       | Some l => if is_physical l then TEth else TUnknown
                       | None => TUnknown
                       end
       | None => if PHYSICAL_NIC_REGEX name then TEth else TUnknown
       end.
Definition set_type (existing : option (list (rstr * IpLink))) (ni : rstr * Interface) : rstr * Interface :=
  if decide (ni.2.(interface_type) = TUnknown)
  then (ni.1, with_interface_type ni.2 (derive_type existing ni.1)) else ni.

(** [lo] comes first after the initial comments; it has no place when there is
    nothing else. *)
Fixpoint insert_lo (order : list NetworkOrderEntry) : list NetworkOrderEntry :=
  match order with
  | [] => []
  | OComment c :: order' => OComment c :: insert_lo order'
  | e :: order' => Iface (lit "lo") :: e :: order'
  end.
Definition add_lo (config : NetworkConfig) : result NetworkConfig NetError :=
  match bt_get (lit "lo") config.(interfaces) with
  | Some _ => Ok config
  | None =>
      let? i := set_method_v4 (interface_new (lit "lo")) Loopback in
      let i := with_autostart (with_interface_type i TLoopback) true in
      Ok (mkNetwork (bt_insert i.(if_name) i config.(interfaces)) (insert_lo config.(net_order)))
  end.

Definition do_parse_interfaces (existing : option (list (rstr * IpLink))) : Parser NetworkConfig := λ s,
  (let& (config, auto_flag) := interfaces_loop (S (length s.(input))) (mkNetwork [] []) [] in
   let config := mkNetwork (set_autostarts auto_flag config.(interfaces)) config.(net_order) in
   let& config := match existing with Some links => lift (existing_loop config links) | None => pret config end in
   let config := mkNetwork (map (set_type existing) config.(interfaces)) config.(net_order) in
   lift (add_lo config)) s.

Definition parse_interfaces (existing : option (list (rstr * IpLink))) (text : rstr) :
    result NetworkConfig (N * NetError) :=
  match do_parse_interfaces existing (mkInput (lexer text) 1) with
  | Ok (config, _) => Ok config
  | Err e => Err e
  end.
End Existing.
