(* ===== verification/InterfacesTheory.v ===== *)
(** * InterfacesTheory: the parser ends, and how it reads single lines

    The loops of the parser take at least one token per round, so that the fuel
    they are given is enough for every text; with more fuel the result stays the
    same. Then the tokens of a line, and what each line the writer produces does to
    the interface that is read. *)
From S2P Require Import Prelude Schema TimeParse Interfaces InterfacesParser.

(** ** Progress and termination *)

(** The line feeds in front of the parser: with the line number they make up the
    number of the last line. *)
Definition newlines (l : list (Token * rstr)) : N := N.of_nat (length (filter (λ t, t.1 = KNewline) l)).
Definition last_line (s : Input) : N := (s.(line_nr) + newlines s.(input))%N.

Lemma newlines_cons t x l : newlines ((t, x) :: l) = ((if decide (t = KNewline) then 1 else 0) + newlines l)%N.
Proof. unfold newlines. rewrite filter_cons. simpl. case_decide; simpl; lia. Qed.

(** The parser takes at least [k] tokens when it succeeds and keeps count of the
    lines; it does not run out of fuel, and an error is at a line it has reached. *)
Definition takes {A} (k : nat) (p : Parser A) (s : Input) : Prop :=
  match p s with
  | Ok (_, s') => length s'.(input) + k ≤ length s.(input) ∧ (s.(line_nr) ≤ s'.(line_nr))%N ∧ last_line s' = last_line s
  | Err (n, e) => e ≠ NetOutOfFuel ∧ (s.(line_nr) ≤ n ≤ last_line s)%N
  end.

Create HintDb takes.

Lemma takes_bind {A B} j k (m : Parser A) (f : A → Parser B) s :
  takes j m s → (∀ x s', length s'.(input) + j ≤ length s.(input) → takes k (f x) s') →
  takes (j + k) (pbind m f) s.
Proof.
  unfold takes, pbind. destruct (m s) as [[x s']|[n e]]; [|done]. intros (Hl & Hn & E) Hf. specialize (Hf x s' Hl).
  destruct (f x s') as [[y s'']|[n e]]; rewrite <- E; destruct_and?; repeat split; (done || lia).
Qed.

Lemma takes_le {A} j k (p : Parser A) s : takes j p s → k ≤ j → takes k p s.
Proof. unfold takes. destruct (p s) as [[x s']|[n e]]; [intros (? & ? & ?); repeat split; (done || lia)|done]. Qed.

Lemma takes_pret {A} (x : A) s : takes 0 (pret x) s.
Proof. unfold takes, pret. lia. Qed.
Lemma takes_pfail {A} k e s : e ≠ NetOutOfFuel → takes (A := A) k (pfail e) s.
Proof. unfold takes, pfail, last_line. repeat split; (done || lia). Qed.
Lemma takes_lift {A} (r : result A NetError) s : r ≠ Err NetOutOfFuel → takes 0 (lift r) s.
Proof. destruct r; [intros _; apply takes_pret|intros H; apply takes_pfail; congruence]. Qed.
Lemma takes_peek s : takes 0 peek s.
Proof. unfold takes, peek, last_line. destruct s as [[|[t x] l] n]; simpl; repeat split; (done || lia). Qed.
Lemma takes_next s : takes 1 next s.
Proof.
  unfold takes, next, last_line. destruct s as [[|[t x] l] n]; simpl; [repeat split; (done || lia)|].
  rewrite newlines_cons. case_decide; lia.
Qed.
#[export] Hint Resolve takes_pret takes_pfail takes_peek takes_next : takes.

(** Goes through the binds of a parser; what it takes is what its first step takes. *)
Ltac take_step k :=
  apply (takes_le (k + 0)); [apply takes_bind; [|intros ? ? _]|lia].

Lemma takes_next_text s : takes 1 next_text s.
Proof. unfold next_text. take_step 1; [auto with takes|]. case_match. case_match; auto with takes. Qed.
Lemma takes_eat t s : takes 1 (eat t) s.
Proof. unfold eat. take_step 1; [auto with takes|]. case_match. case_decide; auto with takes. Qed.
#[export] Hint Resolve takes_next_text takes_eat : takes.

(** A loop over the tokens of a line, by what it does with the first one. *)
Lemma takes_loop {A B} (loop : B → list (Token * rstr) → N → result (A * Input) (N * NetError)) :
  (∀ b n, loop b [] n = Err (n, UnexpectedEnd)) →
  (∀ b t x l n, (t = KNewline ∧ ∃ a, loop b ((t, x) :: l) n = Ok (a, mkInput l (n + 1)%N)) ∨
                (t ≠ KNewline ∧ ∃ b', loop b ((t, x) :: l) n = loop b' l n) ∨
                (∃ e, e ≠ NetOutOfFuel ∧ loop b ((t, x) :: l) n = Err (n, e))) →
  ∀ b s, takes 1 (λ s, loop b s.(input) s.(line_nr)) s.
Proof.
  intros Hnil Hcons b [l n]. unfold takes, last_line. simpl. revert b.
  induction l as [|[t x] l IH]; intros b; [rewrite Hnil; repeat split; (done || lia)|].
  destruct (Hcons b t x l n) as [[-> [a ->]]|[[Ht [b' ->]]|(e & He & ->)]]; rewrite newlines_cons; simpl.
  - lia.
  - rewrite decide_False by done. specialize (IH b'). destruct (loop b' l n) as [[? ?]|[? ?]]; [lia|].
    destruct IH. split; [done|lia].
  - split; [done|lia].
Qed.

Ltac loop_case := simpl; first
  [ left; split; [done|by eexists] | right; left; split; [done|by eexists (_, _, _)] | right; left; split; [done|by eexists]
  | by right; right; exists UnexpectedToken | by right; right; exists UnknownIfaceOption ].

Lemma takes_auto_loop f s : takes 1 (λ s, auto_loop f s.(input) s.(line_nr)) s.
Proof. apply (takes_loop auto_loop); [done|]. intros b t x l n. destruct t; loop_case. Qed.
Lemma takes_parse_to_eol s : takes 1 parse_to_eol s.
Proof. apply (takes_loop eol_loop); [done|]. intros b t x l n. destruct t; loop_case. Qed.
Lemma takes_parse_iface_list s : takes 1 parse_iface_list s.
Proof. apply (takes_loop iface_list_loop); [done|]. intros b t x l n. destruct t; loop_case. Qed.
Lemma takes_iface_words v4 v6 m s : takes 1 (λ s, iface_words v4 v6 m s.(input) s.(line_nr)) s.
Proof.
  apply (takes_loop (λ b : bool * bool * _, iface_words b.1.1 b.1.2 b.2) ltac:(done)
           ltac:(intros [[? ?] ?] t x l n; destruct t; loop_case)
           (v4, v6, m)).
Qed.
Lemma takes_parse_auto f s : takes 1 (parse_auto f) s.
Proof.
  unfold parse_auto. take_step 1; [auto with takes|].
  eapply takes_le; [apply takes_auto_loop|lia].
Qed.
#[export] Hint Resolve takes_parse_to_eol takes_parse_iface_list takes_parse_auto : takes.

Lemma takes_ok_or {A} (o : option A) e s : e ≠ NetOutOfFuel → takes 0 (lift (ok_or o e)) s.
Proof. intros He. apply takes_lift. destruct o; simpl; congruence. Qed.
Lemma takes_set_type i t s : takes 0 (lift (set_interface_type i t)) s.
Proof. apply takes_lift. unfold set_interface_type. by cases. Qed.
Lemma takes_set_methods i v4 v6 m s : takes 0 (lift (set_methods i v4 v6 m)) s.
Proof. apply takes_lift. unfold set_methods, set_method_v4, set_method_v6. destruct v4, v6, (method i), (method6 i) eqn:E; simpl; by rewrite ?E. Qed.

Lemma set_cidr_fuel i v6 a : set_cidr i v6 a ≠ Err NetOutOfFuel.
Proof. unfold set_cidr, set_cidr_v4, set_cidr_v6. by cases. Qed.
Lemma check_netmask_fuel m v6 : check_netmask m v6 ≠ Err NetOutOfFuel.
Proof. unfold check_netmask. by cases. Qed.
Lemma with_mask_fuel v6 am : with_mask v6 am ≠ Err NetOutOfFuel.
Proof.
  unfold with_mask. destruct am.2; [|done]. destruct (parse_uint 255 _) as [m|]; [|done]. simpl.
  pose proof (check_netmask_fuel m v6). destruct (check_netmask m v6); simpl; congruence.
Qed.
Lemma takes_address a s : takes 0 (lift (parse_address_or_cidr a)) s.
Proof.
  apply takes_lift. unfold parse_address_or_cidr.
  repeat case_match; try apply with_mask_fuel; done.
Qed.
Lemma takes_finish st s : takes 0 (lift (finish_addresses st)) s.
Proof.
  apply takes_lift. unfold finish_addresses. destruct (at_netmask st) as [m|].
  - destruct (address_list st) as [|[[a [mask|]] v6] [|]]; try done; [apply set_cidr_fuel|].
    pose proof (check_netmask_fuel m v6). destruct (check_netmask m v6); simpl; [apply set_cidr_fuel|congruence].
  - generalize (at_iface st) as i. induction (address_list st) as [|[[a [mask|]] v6] l IH]; intros i; [done| |done].
    simpl. pose proof (set_cidr_fuel i v6 a). destruct (set_cidr i v6 a); simpl; [apply IH|congruence].
Qed.
#[export] Hint Resolve takes_ok_or takes_set_type takes_set_methods takes_address takes_finish : takes.
#[export] Hint Extern 1 (_ ≠ NetOutOfFuel) => discriminate : takes.

(** A chain of steps of which the first takes a token. *)
Ltac take_chain :=
  lazymatch goal with
  | |- takes ?k (pbind (eat _) _) _ =>
      apply (takes_le (1 + 0)); [apply takes_bind; [apply takes_eat|intros ? ? _]|lia]
  | |- takes ?k (pbind next_text _) _ =>
      apply (takes_le (1 + 0)); [apply takes_bind; [apply takes_next_text|intros ? ? _]|lia]
  | |- takes ?k (pbind parse_to_eol _) _ =>
      apply (takes_le (1 + 0)); [apply takes_bind; [apply takes_parse_to_eol|intros ? ? _]|lia]
  | |- takes 0 (pbind parse_iface_list _) _ =>
      apply (takes_le (1 + 0)); [apply takes_bind; [apply takes_parse_iface_list|intros ? ? _]|lia]
  | |- takes 0 (pbind _ _) _ => apply (takes_bind 0 0); [|intros ? ? _]
  | |- takes _ (match ?x with _ => _ end) _ => destruct x
  | |- takes _ _ _ => solve [auto with takes]
  end.

Lemma takes_parse_iface_address s : takes 1 parse_iface_address s.
Proof. unfold parse_iface_address. repeat take_chain. Qed.
Lemma takes_parse_iface_gateway i s : takes 1 (parse_iface_gateway i) s.
Proof.
  unfold parse_iface_gateway. repeat take_chain. all: apply takes_lift; unfold set_gateway_v4, set_gateway_v6; by cases.
Qed.
Lemma takes_parse_netmask s : takes 1 parse_netmask s.
Proof. unfold parse_netmask. repeat take_chain. Qed.
Lemma takes_parse_iface_mtu s : takes 1 parse_iface_mtu s.
Proof. unfold parse_iface_mtu. repeat take_chain. Qed.
Lemma takes_parse_yes_no s : takes 1 parse_yes_no s.
Proof. unfold parse_yes_no. repeat take_chain. Qed.
#[export] Hint Resolve takes_parse_iface_address takes_parse_iface_gateway takes_parse_netmask takes_parse_iface_mtu
  takes_parse_yes_no : takes.

(** The first step takes a token, what follows returns. *)
Ltac take_first l := apply (takes_le (1 + 0)); [apply takes_bind; [apply l|intros ? ? _]|lia].

Lemma takes_attribute_line v6 st s : takes 0 (attribute_line v6 st) s.
Proof.
  unfold attribute_line. take_chain; [auto with takes|].
  match goal with x : Token |- _ => destruct x end; repeat first
    [ take_first takes_parse_iface_address | take_first takes_parse_iface_gateway | take_first takes_parse_netmask
    | take_first takes_parse_iface_mtu | take_first takes_parse_yes_no | take_chain ].
Qed.

Lemma takes_attributes_loop fuel v6 st s : length s.(input) < fuel → takes 0 (attributes_loop fuel v6 st) s.
Proof.
  revert st s. induction fuel as [|fuel IH]; intros st s Hf; [lia|]. cbn [attributes_loop].
  apply (takes_bind 0 0); [auto with takes|]. intros t s1 Hs1.
  destruct t; auto with takes; (apply (takes_le (1 + 0)); [|lia]);
    (apply takes_bind; [apply takes_eat|]; intros ? s2 Hs2);
    (apply (takes_bind 0 0); [eauto using takes_attribute_line, takes_le with takes|]; intros ? s3 Hs3);
    try (apply IH; lia).
Qed.

Lemma takes_parse_iface_attributes i v4 v6 s : takes 0 (parse_iface_attributes i v4 v6) s.
Proof.
  change (takes 0 (pbind (attributes_loop (S (length s.(input))) (negb v4 && v6) (mkAttrs None [] i))
                     (λ st, lift (finish_addresses st))) s).
  apply (takes_bind 0 0); [apply takes_attributes_loop; lia|]. auto with takes.
Qed.
#[export] Hint Resolve takes_parse_iface_attributes : takes.

Lemma takes_parse_iface c s : takes 1 (parse_iface c) s.
Proof.
  unfold parse_iface. take_first takes_eat. take_chain. take_chain; [|].
  { eapply takes_le; [apply takes_iface_words|lia]. }
  repeat (first [take_chain | case_match]).
Qed.
#[export] Hint Resolve takes_parse_iface : takes.

Lemma takes_interfaces_loop fuel c fl s : length s.(input) < fuel → takes 0 (interfaces_loop fuel c fl) s.
Proof.
  revert c fl s. induction fuel as [|fuel IH]; intros c fl s Hf; [lia|]. cbn [interfaces_loop].
  apply (takes_bind 0 0); [auto with takes|]. intros t s1 Hs1.
  destruct t; auto with takes; (apply (takes_le (1 + 0)); [|lia]);
    (apply takes_bind; [auto with takes|]; intros ? s2 Hs2); try (apply IH; lia).
  case_match. apply (takes_le (1 + 0)); [|lia]. apply takes_bind; [auto with takes|]. intros ? s3 Hs3. apply IH. lia.
Qed.

(** ** More fuel does not change a result *)
Lemma pbind_eq {A B} (m : Parser A) (f g : A → Parser B) s :
  (∀ x s', m s = Ok (x, s') → f x s' = g x s') → pbind m f s = pbind m g s.
Proof. intros H. unfold pbind. destruct (m s) as [[x s']|]; auto. Qed.

(** A result that is not the end of the fuel. *)
Definition settled {A} (r : result A (N * NetError)) : Prop := ∀ n, r ≠ Err (n, NetOutOfFuel).

Lemma takes_settled {A} k (p : Parser A) s : takes k p s → settled (p s).
Proof. unfold takes, settled. destruct (p s) as [|[m e]]; [done|]. intros [? _]. congruence. Qed.

Lemma settled_bind {A B} (m : Parser A) (f g : A → Parser B) s :
  settled (pbind m f s) → (∀ x s', settled (f x s') → f x s' = g x s') → pbind m f s = pbind m g s.
Proof. unfold pbind. destruct (m s) as [[x s']|]; auto. Qed.

Lemma attributes_loop_mono fuel fuel' v6 st s :
  settled (attributes_loop fuel v6 st s) → fuel ≤ fuel' →
  attributes_loop fuel v6 st s = attributes_loop fuel' v6 st s.
Proof.
  revert fuel' st s. induction fuel as [|fuel IH]; intros fuel' st s Hr Hle; [by destruct (Hr s.(line_nr))|].
  destruct fuel' as [|fuel']; [lia|]. cbn [attributes_loop] in *. apply settled_bind; [done|]. intros t s1 H1.
  destruct t; try done; (apply settled_bind; [done|]; intros x s2 H2); (apply settled_bind; [done|]; intros y s3 H3);
    (apply IH; [done|lia]).
Qed.

Lemma interfaces_loop_mono fuel fuel' c fl s :
  settled (interfaces_loop fuel c fl s) → fuel ≤ fuel' →
  interfaces_loop fuel c fl s = interfaces_loop fuel' c fl s.
Proof.
  revert fuel' c fl s. induction fuel as [|fuel IH]; intros fuel' c fl s Hr Hle; [by destruct (Hr s.(line_nr))|].
  destruct fuel' as [|fuel']; [lia|]. cbn [interfaces_loop] in *. apply settled_bind; [done|]. intros t s1 H1.
  destruct t; try done; (apply settled_bind; [done|]; intros x s2 H2); try (apply IH; [done|lia]).
  destruct x. apply settled_bind; [done|]. intros y s3 H3. apply IH; [done|lia].
Qed.

Lemma attributes_loop_enough fuel v6 st s r :
  attributes_loop fuel v6 st s = Ok r → attributes_loop (S (length s.(input))) v6 st s = Ok r.
Proof.
  intros H. pose proof (takes_settled 0 _ _ (takes_attributes_loop (S (length s.(input))) v6 st s ltac:(lia))) as Hs.
  rewrite (attributes_loop_mono _ (S (length s.(input)) + fuel)) by (done || lia).
  rewrite <- H. symmetry. apply attributes_loop_mono; [by rewrite H|lia].
Qed.

Lemma interfaces_loop_enough fuel c fl s r :
  interfaces_loop fuel c fl s = Ok r → interfaces_loop (S (length s.(input))) c fl s = Ok r.
Proof.
  intros H. pose proof (takes_settled 0 _ _ (takes_interfaces_loop (S (length s.(input))) c fl s ltac:(lia))) as Hs.
  rewrite (interfaces_loop_mono _ (S (length s.(input)) + fuel)) by (done || lia).
  rewrite <- H. symmetry. apply interfaces_loop_mono; [by rewrite H|lia].
Qed.

Lemma existing_fuel `{UnicodeDigit} c links : existing_loop c links ≠ Err NetOutOfFuel.
Proof.
  revert c. induction links as [|[n l] links IH]; intros c; [done|]. cbn [existing_loop].
  unfold existing_interface. destruct (bt_get n (interfaces c)); [apply IH|].
  destruct (is_physical l); simpl; apply IH.
Qed.


(** ** Tokens of a text *)
Lemma newlines_app a b : newlines (a ++ b) = (newlines a + newlines b)%N.
Proof. unfold newlines. rewrite filter_app, length_app. lia. Qed.

Lemma keyword_token_newline w : keyword_token w ≠ KNewline.
Proof.
  unfold keyword_token. destruct (bt_get w KEYWORDS) as [t|] eqn:E; [|done]. simpl. apply bt_get_In in E.
  assert (Forall (λ kt : rstr * Token, kt.2 ≠ KNewline) KEYWORDS) as F by (repeat constructor; done).
  rewrite Forall_forall in F. by apply (F _ E).
Qed.

Lemma split_line_newlines l : newlines (split_line l) = 0%N.
Proof.
  assert (∀ ws, newlines (map (λ text, (keyword_token text, text)) ws) = 0%N) as H.
  { induction ws as [|w ws IH]; [done|]. cbn [map]. rewrite newlines_cons, IH, decide_False; [done|].
    apply keyword_token_newline. }
  unfold split_line. repeat case_match; rewrite ?newlines_cons; by rewrite ?H.
Qed.

Lemma newlines_lexer text : newlines (lexer text) = N.of_nat (length (read_lines text)).
Proof.
  unfold lexer. rewrite newlines_app. change (newlines [(KEOF, [])]) with 0%N. rewrite N.add_0_r.
  induction (read_lines text) as [|l ls IH]; [done|]. cbn [flat_map length]. unfold line_tokens at 1.
  rewrite !newlines_app, split_line_newlines, IH. change (newlines [(KNewline, [10%N])]) with 1%N. lia.
Qed.

(** [C26] The parser of the network configuration ends on every text, whatever links
    the host has: it returns a configuration, or an error at a line of the text or
    at the one after the last, and the number of tokens is enough fuel for its
    two loops. *)
Theorem parse_interfaces_terminates `{U : UnicodeDigit} existing text :
  match parse_interfaces existing text with
  | Ok _ => True
  | Err (n, e) => e ≠ NetOutOfFuel ∧ (1 ≤ n ≤ 1 + N.of_nat (length (read_lines text)))%N
  end.
Proof.
  set (s := mkInput (lexer text) 1).
  assert (takes 0 (do_parse_interfaces existing) s) as H.
  { unfold takes, do_parse_interfaces.
    match goal with |- match ?p s with _ => _ end => change (takes 0 p s) end.
    apply (takes_bind 0 0); [apply takes_interfaces_loop; lia|]. intros [c fl] s1 _.
    apply (takes_bind 0 0); [destruct existing; [apply takes_lift, existing_fuel|apply takes_pret]|]. intros c' s2 _.
    apply takes_lift. unfold add_lo. by case_match. }
  unfold takes in H. unfold parse_interfaces. fold s. destruct (do_parse_interfaces existing s) as [[c s']|[n e]]; [done|].
  unfold last_line in H. cbn [s input line_nr] in H. by rewrite newlines_lexer in H.
Qed.
