(* ===== verification/InterfacesRoundtrip.v ===== *)
(** * InterfacesRoundtrip: a written network configuration is read back

    A configuration in the form the parser produces is written and parsed again
    without a change: first the tokens of the lines the writer produces, then what
    each line does to the interface being read, then the file. *)
From S2P Require Import Prelude Json Schema TimeParse Interfaces InterfacesParser InterfacesTheory.

(** ** Words and lines *)
Definition word (w : rstr) : Prop := w ≠ [] ∧ Forall (λ c, is_ascii_whitespace c = false) w.
(** A word that is not a keyword. *)
Definition plain (w : rstr) : Prop := word w ∧ keyword_token w = KText.
Definition tokens (ws : list rstr) : list (Token * rstr) := map (λ w, (keyword_token w, w)) ws.
Definition NL : Token * rstr := (KNewline, [10%N]).

Lemma split_words_word cur w rest :
  Forall (λ c, is_ascii_whitespace c = false) w → split_words cur (w ++ rest) = split_words (cur ++ w) rest.
Proof.
  intros H. revert cur. induction H as [|c w Hc _ IH]; intros cur; [by rewrite app_nil_r|].
  simpl. rewrite Hc, IH. by rewrite <- app_assoc.
Qed.

Lemma split_words_join ws : Forall word ws → split_ascii_whitespace (join_with [32%N] ws) = ws.
Proof.
  unfold split_ascii_whitespace. induction 1 as [|w ws [Hne Hw] Hws IH]; [done|].
  assert (∀ r, split_words w r = match r with [] => [w] | c :: s' => if is_ascii_whitespace c then [w] ++ split_words [] s'
                                                        else split_words (w ++ [c]) s' end) as E
    by (intros [|]; simpl; by destruct w).
  destruct ws as [|w' ws].
  - cbn [join_with]. rewrite <- (app_nil_r w) at 1. rewrite split_words_word by done. simpl. by destruct w.
  - change (join_with [32%N] (w :: w' :: ws)) with (w ++ [32%N] ++ join_with [32%N] (w' :: ws)).
    rewrite split_words_word by done. cbn [app]. rewrite E. change (is_ascii_whitespace 32) with true. cbn match.
    rewrite IH. done.
Qed.

Lemma split_line_tab ws : Forall word ws → split_line (tab ws) = (KAttribute, [9%N]) :: tokens ws.
Proof.
  intros H. unfold tab, split_line. cbn match. change (is_ascii_whitespace 9 && negb (9 =? 10)%N) with true. cbn match.
  unfold split_ascii_whitespace. cbn [split_words]. change (is_ascii_whitespace 9) with true. cbn match.
  change (split_words [] (join_with [32%N] ws)) with (split_ascii_whitespace (join_with [32%N] ws)).
  by rewrite split_words_join.
Qed.

(** A line that does not start with a hash sign or a space. *)
Definition starts_plain (ws : list rstr) : Prop :=
  match ws with (c :: _) :: _ => c ≠ 35%N | _ => False end.

Lemma split_line_plain ws : Forall word ws → starts_plain ws → split_line (join_with [32%N] ws) = tokens ws.
Proof.
  intros H Hs. destruct ws as [|[|c w] ws]; [done|done|]. simpl in Hs.
  assert (∃ t, join_with [32%N] ((c :: w) :: ws) = c :: t) as [t E] by (destruct ws; simpl; eauto).
  pose proof (split_words_join _ H) as Hsp. rewrite E in *.
  inversion H as [|? ? [_ Hw] _]; subst. inversion Hw as [|? ? Hc _]; subst.
  assert (split_line (c :: t) = map (λ text, (keyword_token text, text)) (split_ascii_whitespace (c :: t))) as ->.
  { unfold split_line. rewrite Hc. destruct c as [|p]; [done|].
    repeat (destruct p as [p|p|]; try reflexivity). by exfalso. }
  by rewrite Hsp.
Qed.

Lemma split_line_comment c : trim c = c → split_line (35%N :: c) = [(KComment, c)].
Proof. intros H. unfold split_line. by rewrite H. Qed.

Lemma read_lines_unlines ls : Forall (λ l, 10%N ∉ l) ls → read_lines (unlines ls) = ls.
Proof.
  intros H. assert (split_on 10%N (unlines ls) = ls ++ [[]]) as E.
  { induction H as [|l ls Hl _ IH]; [done|]. unfold unlines in *. cbn [map concat].
    rewrite <- app_assoc. cbn [app]. rewrite split_on_app by done. by rewrite IH. }
  unfold read_lines. by rewrite E, last_snoc, removelast_last.
Qed.

Lemma lexer_unlines ls : Forall (λ l, 10%N ∉ l) ls → lexer (unlines ls) = flat_map line_tokens ls ++ [(KEOF, [])].
Proof. intros H. unfold lexer. by rewrite read_lines_unlines. Qed.

Lemma word_no_newline w : word w → 10%N ∉ w.
Proof. intros [_ H] Hin. rewrite Forall_forall in H. by specialize (H _ Hin). Qed.
Lemma join_no_newline ws : Forall word ws → 10%N ∉ join_with [32%N] ws.
Proof.
  induction 1 as [|w ws Hw Hws IH]; [by apply not_elem_of_nil|].
  pose proof (word_no_newline w Hw). destruct ws; [done|].
  change (10%N ∉ w ++ [32%N] ++ join_with [32%N] (l :: ws)).
  rewrite !elem_of_app, list_elem_of_singleton. naive_solver.
Qed.

(** ** Steps of the parser on known tokens *)
Lemma pbind_ok {A B} (m : Parser A) (f : A → Parser B) s x s' : m s = Ok (x, s') → pbind m f s = f x s'.
Proof. unfold pbind. by intros ->. Qed.
Lemma peek_ok t x l n : peek (mkInput ((t, x) :: l) n) = Ok (t, mkInput ((t, x) :: l) n).
Proof. done. Qed.
Lemma eat_ok t x l n :
  eat t (mkInput ((t, x) :: l) n) = Ok (x, mkInput l (if decide (t = KNewline) then n + 1 else n)%N).
Proof. unfold eat, pbind, next. simpl. by rewrite decide_True. Qed.
Lemma next_text_ok x l n : next_text (mkInput ((KText, x) :: l) n) = Ok (x, mkInput l n).
Proof. done. Qed.
Lemma lift_ok {A} (r : result A NetError) x s : r = Ok x → lift r s = Ok (x, s).
Proof. by intros ->. Qed.

(** The tests of known tokens. *)
Ltac token_tests :=
  repeat match goal with
         | |- context [decide (@eq Token ?a ?b)] =>
             first [rewrite (decide_True (P := @eq Token a b)) by reflexivity
                   |rewrite (decide_False (P := @eq Token a b)) by discriminate]
         end.
(** The next step of a parser whose token is known. *)
Ltac pstep :=
  first [ rewrite (pbind_ok peek _ _ _ _ (peek_ok _ _ _ _))
        | rewrite (pbind_ok (eat _) _ _ _ _ (eat_ok _ _ _ _))
        | rewrite (pbind_ok next_text _ _ _ _ (next_text_ok _ _ _)) ]; cbn match; token_tests.

(** A list of lines takes the state of the attributes from [st] to [st']. *)
Definition consumes (v6 : bool) (st : AttrState) (ls : list rstr) (st' : AttrState) : Prop :=
  ∀ rest n r,
    (∃ fuel, attributes_loop fuel v6 st' (mkInput rest (n + N.of_nat (length ls))) = Ok r) →
    ∃ fuel, attributes_loop fuel v6 st (mkInput (flat_map line_tokens ls ++ rest) n) = Ok r.

Lemma consumes_nil v6 st : consumes v6 st [] st.
Proof. intros rest n r. simpl. by rewrite N.add_0_r. Qed.
Lemma consumes_app v6 st1 st2 st3 a b : consumes v6 st1 a st2 → consumes v6 st2 b st3 → consumes v6 st1 (a ++ b) st3.
Proof.
  intros H1 H2 rest n r H. rewrite flat_map_app, <- app_assoc. apply H1, H2.
  rewrite length_app, Nat2N.inj_add in H. by rewrite <- N.add_assoc.
Qed.

Lemma consumes_line v6 st st' ws :
  Forall word ws →
  (∀ rest n, attribute_line v6 st (mkInput (tokens ws ++ NL :: rest) n) = Ok (st', mkInput rest (n + 1))) →
  consumes v6 st [tab ws] st'.
Proof.
  intros Hw H rest n r [fuel Hf]. exists (S fuel). cbn [flat_map]. rewrite app_nil_r. unfold line_tokens.
  rewrite split_line_tab, <- app_assoc by done. cbn [app attributes_loop].
  pstep. pstep. by rewrite (pbind_ok _ _ _ _ _ (H rest n)).
Qed.

Lemma consumes_comment v6 st c :
  trim c = c → consumes v6 st [35%N :: c] (attribute_comment v6 st c).
Proof.
  intros Hc rest n r [fuel Hf]. exists (S fuel). cbn [flat_map]. rewrite app_nil_r. unfold line_tokens.
  rewrite split_line_comment, <- app_assoc by done. cbn [app attributes_loop].
  pstep. pstep. by pstep.
Qed.

(** ** Attribute lines *)
Lemma lit_word s : (∀ c, c ∈ lit s → is_ascii_whitespace c = false) → lit s ≠ [] → word (lit s).
Proof. intros H Hn. split; [done|]. by apply Forall_forall. Qed.
Lemma word_bool w : match w with [] => false | _ => forallb (λ c, negb (is_ascii_whitespace c)) w end = true → word w.
Proof.
  intros H. split; [by destruct w|]. destruct w; [done|]. apply forallb_Forall in H.
  eapply Forall_impl; [exact H|]. simpl. intros c. by destruct (is_ascii_whitespace c).
Qed.
#[local] Hint Extern 1 (word (lit _)) => apply word_bool; reflexivity : core.

(** The keyword tokens of a line, evaluated. *)
Ltac keywords :=
  repeat match goal with
         | |- context [keyword_token (lit ?s)] =>
             let k := eval vm_compute in (keyword_token (lit s)) in change (keyword_token (lit s)) with k
         end.

Section Lines.
Context (v6 : bool) (m : option N) (al : list (rstr * option N * bool)) (i : Interface).
Abbreviation st := (mkAttrs m al i).

(** Runs the parser on a line whose tokens are known. *)
Ltac eval_line :=
  cbn -[parse_address_or_cidr IP_REGEX set_gateway_v4 set_gateway_v6 set_interface_type parse_uint bond_mode_from_str
        bond_xmit_hash_policy_from_str bond_mode_to_string xmit_policy_to_string to_ascii_lowercase N.add dec lit u16_max
        u64_max with_vlan_id with_vlan_raw_device with_bridge_ports with_slaves].
Ltac run :=
  unfold attribute_line, parse_iface_address, parse_iface_gateway, parse_iface_mtu, parse_yes_no, next_text, eat, next,
    peek, pbind, pret, lift; keywords; eval_line; repeat (progress token_tests; eval_line).
Ltac key_line Hw :=
  intros; apply consumes_line; [apply Forall_cons; split; [auto|apply Forall_cons; split; [apply Hw|constructor]]|];
  intros rest n; cbn [tokens map app]; rewrite (proj2 Hw); run.

Lemma line_address a mask b :
  plain a → parse_address_or_cidr a = Ok (b, Some mask, v6) →
  consumes v6 st [tab [lit "address"; a]] (mkAttrs m (al ++ [(a, Some mask, v6)]) i).
Proof. intros Hw Ha. key_line Hw. by rewrite Ha. Qed.

Lemma line_gateway g j :
  plain g → IP_REGEX g = true →
  (if decide (58%N ∈ g) then set_gateway_v6 i g else set_gateway_v4 i g) = Ok j →
  consumes v6 st [tab [lit "gateway"; g]] (mkAttrs m al j).
Proof. intros Hw Hg Hj. key_line Hw. by rewrite Hg, Hj. Qed.

Lemma line_mtu v : plain (dec v) → (v ≤ u64_max)%N → consumes v6 st [tab [lit "mtu"; dec v]] (mkAttrs m al (with_mtu i (Some v))).
Proof. intros Hw Hv. key_line Hw. by rewrite parse_uint_dec. Qed.

Lemma line_bond_mode x : consumes v6 st [tab [lit "bond-mode"; bond_mode_to_string x]] (mkAttrs m al (with_bond_mode i (Some x))).
Proof.
  assert (plain (bond_mode_to_string x)) as Hw by (destruct x; (split; [apply word_bool|]; reflexivity)).
  key_line Hw. by destruct x.
Qed.
Lemma line_bond_primary p : plain p → consumes v6 st [tab [lit "bond-primary"; p]] (mkAttrs m al (with_bond_primary i (Some p))).
Proof. intros Hw. by key_line Hw. Qed.
Lemma line_xmit x :
  consumes v6 st [tab [lit "bond_xmit_hash_policy"; xmit_policy_to_string x]] (mkAttrs m al (with_bond_xmit_hash_policy i (Some x))).
Proof.
  assert (plain (xmit_policy_to_string x)) as Hw by (destruct x; (split; [apply word_bool|]; reflexivity)).
  key_line Hw. by destruct x.
Qed.
Lemma line_vlan_id v j :
  plain (dec v) → (v ≤ u16_max)%N → set_interface_type (with_vlan_id i (Some v)) TVlan = Ok j →
  consumes v6 st [tab [lit "vlan-id"; dec v]] (mkAttrs m al j).
Proof. intros Hw Hv Hj. key_line Hw. rewrite parse_uint_dec by done. cbn [ok_or pret]. by rewrite Hj. Qed.
Lemma line_vlan_raw d j :
  plain d → set_interface_type (with_vlan_raw_device i (Some d)) TVlan = Ok j →
  consumes v6 st [tab [lit "vlan-raw-device"; d]] (mkAttrs m al j).
Proof. intros Hw Hj. key_line Hw. by rewrite Hj. Qed.
Lemma line_vlan_aware : consumes v6 st [tab [lit "bridge-vlan-aware"; lit "yes"]] (mkAttrs m al (with_bridge_vlan_aware i (Some true))).
Proof.
  assert (plain (lit "yes")) as Hw by (split; [apply word_bool|]; reflexivity). by key_line Hw.
Qed.

(** Lists of interfaces: [none] stands for the empty one. *)
Lemma iface_list_tokens acc l rest n :
  Forall plain l → lit "none" ∉ l →
  iface_list_loop acc (tokens l ++ NL :: rest) n = Ok (acc ++ l, mkInput rest (n + 1)).
Proof.
  intros H. revert acc. induction H as [|w l [_ Hw] _ IH]; intros acc Hn; [by rewrite app_nil_r|].
  apply not_elem_of_cons in Hn as [? ?]. cbn [tokens map app]. rewrite Hw. cbn [iface_list_loop].
  rewrite decide_False by done. rewrite IH by done. by rewrite <- app_assoc.
Qed.

Lemma line_list key token l (f : list rstr → result Interface NetError) j :
  word key → keyword_token key = token →
  (∀ s, attribute_line v6 st (mkInput ((token, key) :: s.(input)) s.(line_nr)) =
        (let& l := parse_iface_list in let& i := lift (f l) in pret (on_iface st i)) s) →
  Forall plain l → lit "none" ∉ l → f l = Ok j →
  consumes v6 st [write_ports key l] (mkAttrs m al j).
Proof.
  intros Hk Ht Hline Hl Hn Hj.
  assert (write_ports key l = tab (key :: match l with [] => [lit "none"] | _ => l end)) as -> by by destruct l.
  apply consumes_line.
  { constructor; [done|]. destruct l; [by auto|]. eapply Forall_impl; [exact Hl|]. by intros ? [? _]. }
  intros rest n. cbn [tokens map app]. rewrite Ht. specialize (Hline (mkInput (tokens (match l with [] => [lit "none"] | _ => l end) ++ NL :: rest) n)).
  simpl in Hline. unfold tokens in *. rewrite Hline.
  rewrite (pbind_ok _ _ _ l (mkInput rest (n + 1))).
  - rewrite (pbind_ok _ _ _ j (mkInput rest (n + 1))); [done|]. by apply lift_ok.
  - unfold parse_iface_list. simpl. destruct l as [|w l]; [done|]. by rewrite iface_list_tokens.
Qed.

Lemma line_bridge_ports l j :
  Forall plain l → lit "none" ∉ l → set_interface_type (with_bridge_ports i (Some l)) TBridge = Ok j →
  consumes v6 st [write_ports (lit "bridge-ports") l] (mkAttrs m al j).
Proof.
  intros Hl Hn Hj. eapply (line_list _ KBridgePorts l (λ l, set_interface_type (with_bridge_ports i (Some l)) TBridge));
    [auto|reflexivity| |done..]. by intros [].
Qed.
Lemma line_slaves l j :
  Forall plain l → lit "none" ∉ l → set_interface_type (with_slaves i (Some l)) TBond = Ok j →
  consumes v6 st [write_ports (lit "bond-slaves") l] (mkAttrs m al j).
Proof.
  intros Hl Hn Hj. eapply (line_list _ KBondSlaves l (λ l, set_interface_type (with_slaves i (Some l)) TBond));
    [auto|reflexivity| |done..]. by intros [].
Qed.
End Lines.

(** Options: words separated by single spaces, the first one not a keyword of the
    attributes. *)
Lemma eol_tokens_rest cur ws rest n :
  cur ≠ [] → Forall word ws →
  eol_loop cur (tokens ws ++ NL :: rest) n = Ok (join_with [32%N] (cur :: ws), mkInput rest (n + 1)).
Proof.
  intros Hc H. revert cur Hc. induction H as [|w ws Hw _ IH]; intros cur Hc; [done|].
  cbn [tokens map app]. pose proof (keyword_token_newline w) as Hnl.
  assert (eol_loop cur ((keyword_token w, w) :: tokens ws ++ NL :: rest) n =
          eol_loop (cur ++ [32%N] ++ w) (tokens ws ++ NL :: rest) n) as E.
  { destruct cur; [done|]. cbn [eol_loop]. by destruct (keyword_token w). }
  unfold tokens in *. rewrite E, IH by (by destruct cur). destruct ws; simpl; by rewrite <- ?app_assoc.
Qed.
Lemma eol_tokens ws rest n :
  Forall word ws → ws ≠ [] →
  parse_to_eol (mkInput (tokens ws ++ NL :: rest) n) = Ok (join_with [32%N] ws, mkInput rest (n + 1)).
Proof.
  intros [|w ws' [Hne Hw] Hws] _; [done|]. unfold parse_to_eol. cbn [input line_nr].
  rewrite <- eol_tokens_rest by done. cbn [tokens map app]. pose proof (keyword_token_newline w).
  cbn [eol_loop]. by destruct (keyword_token w).
Qed.

Definition attribute_keyword (t : Token) : bool :=
  match t with
  | KAddress | KGateway | KNetmask | KMTU | KBridgeVlanAware | KBridgePorts | KBondSlaves | KBondMode | KBondPrimary
  | KBondXmitHashPolicy | KVlanId | KVlanRawDevice => true
  | _ => false
  end.

(** An option as the parser keeps it. *)
Definition option_ok (allowed : Token → bool) (o : rstr) : Prop :=
  ∃ w ws, o = join_with [32%N] (w :: ws) ∧ Forall word (w :: ws) ∧ allowed (keyword_token w) = true.

Definition push_option (v6 : bool) (i : Interface) (o : rstr) : Interface :=
  if v6 then with_options6 i (i.(options6) ++ [o]) else with_options i (i.(options) ++ [o]).

Lemma line_option v6 m al i o :
  option_ok (λ t, negb (attribute_keyword t)) o →
  consumes v6 (mkAttrs m al i) [9%N :: o] (mkAttrs m al (push_option v6 i o)).
Proof.
  intros (w & ws & -> & Hws & Hk). apply (consumes_line v6 _ _ (w :: ws)); [done|]. intros rest n.
  assert (join_with [32%N] (w :: ws) ≠ []) as Hne.
  { apply Forall_cons in Hws as [[? _] _]. destruct ws; [done|]. simpl. by destruct w. }
  assert (attribute_line v6 (mkAttrs m al i) (mkInput (tokens (w :: ws) ++ NL :: rest) n) =
          (let& option := parse_to_eol in
           match option with
           | [] => pret (mkAttrs m al i)
           | _ => pret (mkAttrs m al (push_option v6 i option))
           end) (mkInput (tokens (w :: ws) ++ NL :: rest) n)) as ->.
  { unfold attribute_line. cbn [tokens map app]. rewrite (pbind_ok peek _ _ _ _ (peek_ok _ _ _ _)).
    by destruct (keyword_token w). }
  rewrite (pbind_ok _ _ _ _ _ (eol_tokens (w :: ws) rest n Hws ltac:(done))).
  by destruct (join_with _ _).
Qed.

Lemma dec_plain v : plain (dec v).
Proof.
  destruct (dec_spec v) as (_ & Hd & Hne). split.
  - split; [done|]. eapply Forall_impl; [exact Hd|]. unfold is_ascii_digit, is_ascii_whitespace. intros c. simpl. lia.
  - unfold keyword_token. destruct (bt_get (dec v) KEYWORDS) as [t|] eqn:E; [|done]. apply bt_get_In in E. exfalso.
    assert (Forall (λ kt : rstr * Token, match kt.1 with c :: _ => is_ascii_digit c = false | [] => True end) KEYWORDS)
      as F by (repeat constructor; done).
    rewrite Forall_forall in F. specialize (F _ E). simpl in F. destruct (dec v); [done|]. inversion Hd. congruence.
Qed.
#[local] Hint Resolve dec_plain : core.

(** ** The attributes of an address family *)
Definition comment_ok (c : rstr) : Prop :=
  c ≠ [] ∧ join_with [10%N] (lines c) = c ∧ head (lines c) ≠ Some [] ∧ Forall (λ l, trim l = l ∧ 10%N ∉ l) (lines c).

Record family_ok (v6 : bool) (m : NetworkConfigMethod) (address gw : option rstr) (opts : list rstr) (comment : option rstr) :
    Prop := {
  family_address : from_option (λ a, m = Static ∧ plain a ∧ ∃ b mask, parse_address_or_cidr a = Ok (b, Some mask, v6)) True address;
  family_gateway : from_option (λ g, m = Static ∧ plain g ∧ IP_REGEX g = true ∧ bool_decide (58%N ∈ g) = v6) True gw;
  family_options : Forall (option_ok (λ t, negb (attribute_keyword t))) opts;
  family_comment : from_option comment_ok True comment
}.

(** Nothing of the family has been read yet. *)
Definition blank (v6 : bool) (i : Interface) : Prop :=
  if v6 then i.(cidr6) = None ∧ i.(gateway6) = None ∧ i.(options6) = [] ∧ i.(comments6) = None
  else i.(cidr) = None ∧ i.(gateway) = None ∧ i.(options) = [] ∧ i.(comments) = None.
Definition with_family (v6 : bool) (i : Interface) (gw : option rstr) (opts : list rstr) (comment : option rstr) : Interface :=
  if v6 then with_comments6 (with_options6 (with_gateway6 i gw) opts) comment
  else with_comments (with_options (with_gateway i gw) opts) comment.
Definition with_address (v6 : bool) (i : Interface) (a : option rstr) : Interface :=
  if v6 then with_cidr6 i a else with_cidr i a.

Lemma consumes_options v6 m al i opts :
  Forall (option_ok (λ t, negb (attribute_keyword t))) opts →
  consumes v6 (mkAttrs m al i) (map (cons 9%N) opts) (mkAttrs m al (foldl (push_option v6) i opts)).
Proof.
  intros H. revert i. induction H as [|o opts Ho _ IH]; intros i; [apply consumes_nil|].
  cbn [map foldl]. eapply (consumes_app _ _ _ _ [_]); [by apply line_option|apply IH].
Qed.

Definition push_comment (v6 : bool) (i : Interface) (c : rstr) : Interface :=
  if v6 then with_comments6 i (join_comment i.(comments6) c) else with_comments i (join_comment i.(comments) c).

Lemma consumes_comments v6 m al i ls :
  Forall (λ l, trim l = l ∧ 10%N ∉ l) ls →
  consumes v6 (mkAttrs m al i) (map (cons 35%N) ls) (mkAttrs m al (foldl (push_comment v6) i ls)).
Proof.
  intros H. revert i. induction H as [|c ls [Hc _] _ IH]; intros i; [apply consumes_nil|].
  cbn [map foldl]. eapply (consumes_app _ _ _ _ [_]); [by apply consumes_comment|]. apply IH.
Qed.

Lemma join_comments c ls : c ≠ [] → foldl join_comment (Some c) ls = Some (join_with [10%N] (c :: ls)).
Proof.
  revert c. induction ls as [|l ls IH]; intros c Hc; [done|]. cbn [foldl].
  replace (join_comment (Some c) l) with (Some (c ++ [10%N] ++ l)) by (by destruct c).
  rewrite IH by (by destruct c). destruct ls; simpl; by rewrite <- ?app_assoc.
Qed.
Lemma comment_lines c : comment_ok c → foldl join_comment None (lines c) = Some c.
Proof.
  intros (Hc & Hj & Hh & _). destruct (lines c) as [|l ls]; [by rewrite <- Hj in Hc|].
  cbn [foldl]. change (join_comment None l) with (Some l). rewrite join_comments; [by rewrite Hj|]. by intros ->.
Qed.

Lemma fold_push_option v6 i opts :
  foldl (push_option v6) i opts =
  if v6 then with_options6 i (i.(options6) ++ opts) else with_options i (i.(options) ++ opts).
Proof.
  revert i. induction opts as [|o opts IH]; intros i; destruct v6; destruct i; simpl; rewrite ?app_nil_r; try done;
    rewrite IH; simpl; by rewrite <- app_assoc.
Qed.
Lemma fold_push_comment v6 i ls :
  foldl (push_comment v6) i ls =
  if v6 then with_comments6 i (foldl join_comment i.(comments6) ls) else with_comments i (foldl join_comment i.(comments) ls).
Proof.
  revert i. induction ls as [|o ls IH]; intros i; destruct v6; destruct i; simpl; try done; by rewrite IH.
Qed.

Lemma consumes_family v6 m address gw opts comment i :
  family_ok v6 m address gw opts comment → blank v6 i →
  ∃ al, consumes v6 (mkAttrs None [] i) (write_family m address gw opts comment)
          (mkAttrs None al (with_family v6 i gw opts comment)) ∧
        ∀ j, (if v6 then j.(cidr6) else j.(cidr)) = None → finish_addresses (mkAttrs None al j) = Ok (with_address v6 j address).
Proof.
  intros [Ha Hg Ho Hc] Hb. unfold write_family.
  assert (∃ al, consumes v6 (mkAttrs None [] i)
                  (if decide (m = Static) then opt_line (λ a, [tab [lit "address"; a]]) address else [])
                  (mkAttrs None al i) ∧
          ∀ j, (if v6 then j.(cidr6) else j.(cidr)) = None → finish_addresses (mkAttrs None al j) = Ok (with_address v6 j address))
    as (al & H1 & H2).
  { destruct address as [a|].
    - destruct Ha as (-> & Hw & b & mask & E). exists [(a, Some mask, v6)]. rewrite decide_True by done.
      split; [by apply (line_address v6 None [] i a mask b)|].
      intros j Hj. unfold finish_addresses. simpl. destruct j, v6; simpl in *; destruct_and!; by simplify_eq.
    - exists []. split; [by case_decide; apply consumes_nil|].
      intros j Hj. unfold finish_addresses. simpl. destruct j, v6; simpl in *; destruct_and!; by simplify_eq. }
  exists al. split; [|done].
  assert (consumes v6 (mkAttrs None al i)
            (if decide (m = Static) then opt_line (λ g, [tab [lit "gateway"; g]]) gw else [])
            (mkAttrs None al (with_family v6 i gw [] None))) as H3.
  { destruct gw as [g|].
    - destruct Hg as (-> & Hw & Hre & Hv). rewrite decide_True by done. apply line_gateway; [done|done|].
      case_bool_decide; subst; [rewrite decide_True by done|rewrite decide_False by done];
        destruct i; simpl in *; destruct_and!; by simplify_eq.
    - case_decide; destruct i, v6; simpl in *; destruct_and!; simplify_eq; apply consumes_nil. }
  eapply consumes_app.
  { pose proof (consumes_app _ _ _ _ _ _ H1 H3) as H4. case_decide; exact H4. }
  eapply consumes_app; [by apply consumes_options|].
  rewrite fold_push_option. destruct comment as [c|]; simpl.
  - replace (with_family v6 i gw opts (Some c)) with
      (foldl (push_comment v6) (if v6 then with_options6 (with_family v6 i gw [] None) (options6 (with_family v6 i gw [] None) ++ opts)
         else with_options (with_family v6 i gw [] None) (options (with_family v6 i gw [] None) ++ opts)) (lines c));
      [apply consumes_comments, Hc|].
    rewrite fold_push_comment. destruct i, v6; simpl; by rewrite comment_lines.
  - destruct i, v6; apply consumes_nil.
Qed.

(** ** The attributes that do not depend on the family *)
Definition no_bridge (i : Interface) : Prop := i.(bridge_ports) = None ∧ i.(bridge_vlan_aware) = None.
Definition no_bond (i : Interface) : Prop :=
  i.(slaves) = None ∧ i.(bond_mode) = None ∧ i.(bond_primary) = None ∧ i.(bond_xmit_hash_policy) = None.
Definition no_vlan (i : Interface) : Prop := i.(vlan_id) = None ∧ i.(vlan_raw_device) = None.
Definition ports_ok (o : option (list rstr)) : Prop :=
  from_option (λ l, Forall plain l ∧ lit "none" ∉ l) False o.

(** The fields of the type of the interface, and no others, are set. *)
Definition type_ok (i : Interface) : Prop :=
  match i.(interface_type) with
  | TBridge => ports_ok i.(bridge_ports) ∧ i.(bridge_vlan_aware) ≠ Some false ∧ no_bond i ∧ no_vlan i
  | TBond =>
      ports_ok i.(slaves) ∧ i.(bond_mode) ≠ None ∧
      from_option (λ p, plain p ∧ i.(bond_mode) = Some ActiveBackup) True i.(bond_primary) ∧
      (i.(bond_xmit_hash_policy) ≠ None → i.(bond_mode) = Some Ieee802_3ad ∨ i.(bond_mode) = Some BalanceXor) ∧
      no_bridge i ∧ no_vlan i
  | TVlan =>
      from_option (λ v, v ≤ u16_max)%N True i.(vlan_id) ∧ from_option plain True i.(vlan_raw_device) ∧
      no_bridge i ∧ no_bond i
  | _ => no_bridge i ∧ no_bond i ∧ no_vlan i
  end ∧ from_option (λ v, v ≤ u64_max)%N True i.(mtu).

(** The type the attributes alone determine. *)
Definition read_type (i : Interface) : NetworkInterfaceType :=
  match i.(interface_type) with
  | TBridge => TBridge
  | TBond => TBond
  | TVlan => match i.(vlan_id), i.(vlan_raw_device) with None, None => TUnknown | _, _ => TVlan end
  | _ => TUnknown
  end.

Definition untyped (j : Interface) : Prop :=
  j.(interface_type) = TUnknown ∧ no_bridge j ∧ no_bond j ∧ no_vlan j ∧ j.(mtu) = None.
Definition with_common (j i : Interface) : Interface :=
  mkInterface j.(autostart) j.(active) j.(if_name) (read_type i) j.(method) j.(method6) j.(cidr) j.(gateway)
    j.(cidr6) j.(gateway6) j.(options) j.(options6) j.(comments) j.(comments6) i.(mtu) i.(bridge_ports)
    i.(bridge_vlan_aware) i.(vlan_id) i.(vlan_raw_device) i.(slaves) i.(bond_mode) i.(bond_primary)
    i.(bond_xmit_hash_policy) j.(altnames).

Lemma consumes_one v6 st st1 st2 l ls : consumes v6 st [l] st1 → consumes v6 st1 ls st2 → consumes v6 st (l :: ls) st2.
Proof. apply (consumes_app v6 st st1 st2 [l] ls). Qed.

Lemma consumes_mtu v6 m al j v :
  j.(mtu) = None → from_option (λ v, v ≤ u64_max)%N True v →
  consumes v6 (mkAttrs m al j) (opt_line (λ m, [tab [lit "mtu"; dec m]]) v) (mkAttrs m al (with_mtu j v)).
Proof.
  destruct v; intros Hj Hv; [by apply line_mtu|]. destruct j; simpl in *; subst. apply consumes_nil.
Qed.

Lemma consumes_primary v6 m al j mode p :
  j.(bond_primary) = None → from_option (λ p, plain p ∧ mode = ActiveBackup) True p →
  consumes v6 (mkAttrs m al j)
    (opt_line (λ p, if decide (mode = ActiveBackup) then [tab [lit "bond-primary"; p]] else []) p)
    (mkAttrs m al (with_bond_primary j p)).
Proof.
  destruct p; simpl; intros Hj Hp; [destruct Hp as [Hp ->]; rewrite decide_True by done; by apply line_bond_primary|].
  destruct j; simpl in *; subst. apply consumes_nil.
Qed.
Lemma consumes_xmit v6 m al j mode x :
  j.(bond_xmit_hash_policy) = None → from_option (λ _, mode = Ieee802_3ad ∨ mode = BalanceXor) True x →
  consumes v6 (mkAttrs m al j)
    (opt_line (λ p, if decide (mode = Ieee802_3ad ∨ mode = BalanceXor)
                    then [tab [lit "bond_xmit_hash_policy"; xmit_policy_to_string p]] else []) x)
    (mkAttrs m al (with_bond_xmit_hash_policy j x)).
Proof.
  destruct x; simpl; intros Hj Hp; [rewrite decide_True by done; apply line_xmit|].
  destruct j; simpl in *; subst. apply consumes_nil.
Qed.

Lemma consumes_common v6 m al j i :
  untyped j → type_ok i →
  consumes v6 (mkAttrs m al j) (write_iface_attributes i) (mkAttrs m al (with_common j i)).
Proof.
  intros Hj [Hi Hmtu]. unfold write_iface_attributes.
  replace (with_common j i) with (with_mtu (with_mtu (with_common j i) None) i.(mtu)) by done.
  eapply consumes_app; [|by apply consumes_mtu].
  unfold with_common, read_type. destruct j; unfold untyped, no_bridge, no_bond, no_vlan in Hj; simpl in Hj; destruct_and!; simplify_eq.
  destruct i as [? ? ? ty ? ? ? ? ? ? ? ? ? ? ? bp bva vid vrd sl bm bpr bx ?].
  unfold no_bridge, no_bond, no_vlan, ports_ok in Hi.
  destruct ty; simpl in *; destruct_and!; simplify_eq/=; try apply consumes_nil.
  - destruct bp as [l|]; [|done]. simpl in *. destruct_and?. destruct bva as [[]|]; simpl.
    + eapply consumes_one; [apply line_vlan_aware|]. by apply line_bridge_ports.
    + done.
    + by apply line_bridge_ports.
  - destruct sl as [l|]; [|done]. destruct bm as [mode|]; [|done]. simpl in *. destruct_and?.
    eapply consumes_one; [apply line_bond_mode|].
    eapply consumes_app; [apply (consumes_primary _ _ _ _ mode bpr); [done|by destruct bpr; naive_solver]|].
    eapply consumes_app; [apply (consumes_xmit _ _ _ _ mode bx); [done|destruct bx; naive_solver]|].
    by apply line_slaves.
  - destruct vid as [v|], vrd as [d|]; simpl; try apply consumes_nil.
    + eapply consumes_one; [by eapply line_vlan_id|]. by apply line_vlan_raw.
    + by apply line_vlan_id.
    + by apply line_vlan_raw.
Qed.

(** ** One interface *)
Definition family_word (v6 : bool) : rstr := if v6 then lit "inet6" else lit "inet".

Lemma attributes_block v4 v6 i ls st i' rest n :
  consumes (negb v4 && v6) (mkAttrs None [] i) ls st → finish_addresses st = Ok i' →
  parse_iface_attributes i v4 v6 (mkInput (flat_map line_tokens ls ++ NL :: rest) n) =
  Ok (i', mkInput (NL :: rest) (n + N.of_nat (length ls))).
Proof.
  intros Hc Hf. destruct (Hc (NL :: rest) n (st, mkInput (NL :: rest) (n + N.of_nat (length ls)))) as [fuel H].
  { by exists 1. }
  unfold parse_iface_attributes. apply attributes_loop_enough in H.
  rewrite (pbind_ok _ _ _ _ _ H). by apply lift_ok.
Qed.

Lemma iface_words_line (v6 : bool) m rest n :
  iface_words false false None ((if v6 then KInet6 else KInet, family_word v6) ::
    (keyword_token (method_to_str m), method_to_str m) :: NL :: rest) n =
  Ok (negb v6, v6, Some m, mkInput rest (n + 1)).
Proof. by destruct v6, m. Qed.

Lemma iface_line_tokens v6 name m :
  plain name →
  split_line (iface_line name (family_word v6) m) =
  [(KIface, lit "iface"); (KText, name); (if v6 then KInet6 else KInet, family_word v6);
   (keyword_token (method_to_str m), method_to_str m)].
Proof.
  intros [Hw Hn]. unfold iface_line.
  rewrite split_line_plain; [|constructor; [auto|]; constructor; [done|]; constructor;
    [destruct v6; apply word_bool; reflexivity|constructor; [destruct m; simpl; auto|constructor]]|done].
  cbn [tokens map]. rewrite Hn. by destruct v6.
Qed.

Lemma parse_iface_block v6 c name m ls st i0 i' rest n :
  plain name →
  set_methods (default (interface_new name) (bt_get name c.(interfaces))) (negb v6) v6 m = Ok i0 →
  consumes v6 (mkAttrs None [] i0) ls st → finish_addresses st = Ok i' → i'.(if_name) = name →
  parse_iface c (mkInput (flat_map line_tokens (iface_line name (family_word v6) m :: ls) ++ NL :: rest) n) =
  Ok (mkNetwork (bt_insert name i' c.(interfaces))
        (match bt_get name c.(interfaces) with Some _ => c.(net_order) | None => c.(net_order) ++ [Iface name] end),
      mkInput (NL :: rest) (n + N.of_nat (S (length ls)))).
Proof.
  intros Hn Hm Hc Hf Hi. cbn [flat_map]. unfold line_tokens at 1. rewrite iface_line_tokens by done.
  rewrite <- !app_assoc. cbn [app]. unfold parse_iface. pstep. pstep.
  rewrite (pbind_ok (λ s, iface_words false false None (input s) (line_nr s)) _ (mkInput _ _) _ _
             (iface_words_line v6 m (flat_map line_tokens ls ++ NL :: rest) n)).
  cbn match.
  replace (negb v6 || v6) with true by (by destruct v6). cbn match. cbn [default from_option id].
  pose proof (attributes_block (negb v6) v6 i0 ls st i' rest (n + 1)) as Ha.
  rewrite negb_involutive, andb_diag in Ha. specialize (Ha Hc Hf).
  replace (n + 1 + N.of_nat (length ls))%N with (n + N.of_nat (S (length ls)))%N in Ha by lia.
  destruct (bt_get name (interfaces c)) as [j|]; simpl in Hm;
    rewrite (pbind_ok _ _ _ _ _ (lift_ok _ _ _ Hm)), (pbind_ok _ _ _ _ _ Ha); unfold pret; by rewrite ?Hi.
Qed.

(** A list of lines takes the configuration and the flags of the main loop on. *)
Definition reads (c : NetworkConfig) (fl : list rstr) (ls : list rstr) (c' : NetworkConfig) (fl' : list rstr) : Prop :=
  ∀ rest n r,
    (∃ fuel, interfaces_loop fuel c' fl' (mkInput rest (n + N.of_nat (length ls))) = Ok r) →
    ∃ fuel, interfaces_loop fuel c fl (mkInput (flat_map line_tokens ls ++ rest) n) = Ok r.

Lemma reads_nil c fl : reads c fl [] c fl.
Proof. intros rest n r. simpl. by rewrite N.add_0_r. Qed.
Lemma reads_app c1 f1 c2 f2 c3 f3 a b : reads c1 f1 a c2 f2 → reads c2 f2 b c3 f3 → reads c1 f1 (a ++ b) c3 f3.
Proof.
  intros H1 H2 rest n r H. rewrite flat_map_app, <- app_assoc. apply H1, H2.
  rewrite length_app, Nat2N.inj_add in H. by rewrite <- N.add_assoc.
Qed.

Lemma reads_blank c fl : reads c fl [[]] c fl.
Proof.
  intros rest n r [fuel H]. exists (S fuel). change (flat_map line_tokens [[]] ++ rest) with (NL :: rest).
  cbn [interfaces_loop]. unfold NL. pstep. by pstep.
Qed.

Lemma reads_comment c fl x : trim x = x → reads c fl [35%N :: x] (push_order c (OComment x)) fl.
Proof.
  intros Hx rest n r [fuel H]. exists (S fuel). cbn [flat_map]. unfold line_tokens.
  rewrite split_line_comment by done. cbn [app interfaces_loop]. pstep.
  rewrite (pbind_ok next _ _ (KComment, x) (mkInput ((KNewline, [10%N]) :: rest) n)) by done. cbn match. by pstep.
Qed.

Definition top_keyword (t : Token) : bool := match t with KAuto | KIface => true | _ => false end.
(** An option of the file does not look like a comment. *)
Definition file_option_ok (o : rstr) : Prop :=
  option_ok (λ t, negb (top_keyword t)) o ∧ head o ≠ Some 35%N.

Lemma reads_option c fl o : file_option_ok o → reads c fl [o] (push_order c (OOption o)) fl.
Proof.
  intros [(w & ws & -> & Hws & Hk) Hh] rest n r [fuel H]. exists (S fuel). cbn [flat_map]. unfold line_tokens.
  pose proof Hws as Hws'. apply Forall_cons in Hws' as [[Hne Hw] _].
  assert (head (join_with [32%N] (w :: ws)) = head w) as E by (destruct w, ws; done). rewrite E in Hh.
  rewrite split_line_plain; [|done|by destruct w; [|simpl; intros ->]].
  assert (join_with [32%N] (w :: ws) ≠ []) as Hj by (intros E'; rewrite E' in E; by destruct w).
  rewrite <- !app_assoc, (app_nil_l rest). cbn [app].
  pose proof (eol_tokens (w :: ws) rest n Hws ltac:(done)) as He. cbn [tokens map app] in *. cbn [interfaces_loop]. pstep.
  assert (∀ t, t = keyword_token w → ∀ A (x y z u v k : A), match t with
     | KEOF => x | KNewline => y | KComment => z | KAuto => u | KIface => v | _ => k end = k) as Ht.
  { intros t -> A x y z u v k.
    assert (keyword_token w ≠ KEOF ∧ keyword_token w ≠ KComment) as [? ?].
    { unfold keyword_token. destruct (bt_get w KEYWORDS) as [t|] eqn:Eb; [|done]. apply bt_get_In in Eb.
      assert (Forall (λ kt : rstr * Token, kt.2 ≠ KEOF ∧ kt.2 ≠ KComment) KEYWORDS) as F by (repeat constructor; done).
      rewrite Forall_forall in F. apply (F _ Eb). }
    pose proof (keyword_token_newline w). by destruct (keyword_token w). }
  rewrite Ht by done. rewrite (pbind_ok _ _ _ _ _ He). by destruct (join_with _ _).
Qed.

Lemma reads_auto c fl name : plain name → reads c fl [lit "auto " ++ name] c (fl ++ [name]).
Proof.
  intros [Hw Hn] rest n r [fuel H]. exists (S fuel). cbn [flat_map]. unfold line_tokens.
  change (lit "auto " ++ name) with (join_with [32%N] [lit "auto"; name]).
  rewrite split_line_plain; [|by repeat constructor; auto; apply Hw|done].
  cbn [tokens map]. rewrite Hn. change (keyword_token (lit "auto")) with KAuto. cbn [app interfaces_loop]. pstep.
  unfold parse_auto. rewrite (pbind_ok _ _ _ (fl ++ [name]) (mkInput rest (n + 1))); [done|]. by pstep.
Qed.

Lemma reads_iface v6 c fl name m ls st i0 i' :
  plain name →
  set_methods (default (interface_new name) (bt_get name c.(interfaces))) (negb v6) v6 m = Ok i0 →
  consumes v6 (mkAttrs None [] i0) ls st → finish_addresses st = Ok i' → i'.(if_name) = name →
  reads c fl ([iface_line name (family_word v6) m] ++ ls ++ [[]])
    (mkNetwork (bt_insert name i' c.(interfaces))
       (match bt_get name c.(interfaces) with Some _ => c.(net_order) | None => c.(net_order) ++ [Iface name] end)) fl.
Proof.
  intros Hw Hm Hc Hf Hi rest n r [fuel H]. exists (S (S fuel)).
  pose proof (parse_iface_block v6 c name m ls st i0 i' rest n Hw Hm Hc Hf Hi) as Hp.
  replace (flat_map line_tokens ([iface_line name (family_word v6) m] ++ ls ++ [[]]) ++ rest) with
    (flat_map line_tokens (iface_line name (family_word v6) m :: ls) ++ NL :: rest).
  2: { cbn [app flat_map]. rewrite flat_map_app, <- !app_assoc. done. }
  cbn [flat_map] in *. unfold line_tokens at 1 in Hp. unfold line_tokens at 1.
  rewrite iface_line_tokens in * by done. cbn [app] in *. cbn [interfaces_loop]. pstep.
  rewrite (pbind_ok _ _ _ _ _ Hp). cbn [interfaces_loop]. unfold NL. pstep. pstep.
  simpl in H. rewrite length_app in H. simpl in H. rewrite <- H. f_equal. f_equal. lia.
Qed.

(** What the main loop makes of the interface: the flags and the types that follow
    from names are set later. *)
Definition read_interface (i : Interface) : Interface :=
  with_interface_type (with_autostart i false) (read_type i).

Lemma set_methods_v6 j m : j.(method6) = None → set_methods j false true m = Ok (with_method6 j (Some m)).
Proof. intros H. unfold set_methods, set_method_v6. simpl. by rewrite H. Qed.

Section Interfaces.
Context `{U : UnicodeDigit}.

(** An interface that the format can express: no data of a link, a method for at least
    one family, addresses and gateways only for the method [static] and of their family,
    nothing for a family without method, only the fields of its own type (and a bridge
    that is not explicitly unaware of VLANs, a primary slave in the mode active-backup
    only), and a type that follows from the attributes or the name. *)
Record iface_ok (i : Interface) : Prop := {
  ok_name : plain i.(if_name);
  ok_link : i.(active) = false ∧ i.(altnames) = [];
  ok_method : i.(method) ≠ None ∨ i.(method6) ≠ None;
  ok_family4 : match i.(method) with
               | Some m => family_ok false m i.(cidr) i.(gateway) i.(options) i.(comments)
               | None => blank false i
               end;
  ok_family6 : match i.(method6) with
               | Some m => family_ok true m i.(cidr6) i.(gateway6) i.(options6) i.(comments6) ∧ skip_v6 i m = false
               | None => blank true i
               end;
  ok_type : type_ok i;
  ok_derive : read_type i = TUnknown → derive_type None i.(if_name) = i.(interface_type)
}.

Lemma reads_write_iface c fl i :
  iface_ok i → bt_get i.(if_name) c.(interfaces) = None →
  reads c fl (write_iface i)
    (mkNetwork (bt_insert i.(if_name) (read_interface i) c.(interfaces)) (c.(net_order) ++ [Iface i.(if_name)]))
    (if i.(autostart) then fl ++ [i.(if_name)] else fl).
Proof.
  intros [Hn [Hact Halt] Hm H4 H6 Ht _] Hnone. unfold write_iface.
  assert (∀ ls c', reads c (if i.(autostart) then fl ++ [i.(if_name)] else fl) ls c' (if i.(autostart) then fl ++ [i.(if_name)] else fl) →
          reads c fl ((if i.(autostart) then [lit "auto " ++ i.(if_name)] else []) ++ ls) c'
            (if i.(autostart) then fl ++ [i.(if_name)] else fl)) as Hauto.
  { intros ls c' H. destruct i.(autostart); [|done]. eapply reads_app; [by apply reads_auto|done]. }
  generalize dependent (if i.(autostart) then fl ++ [i.(if_name)] else fl). intros fl' Hauto.
  destruct (method i) as [m4|] eqn:E4.
  - apply Hauto. cbn [opt_line].
    destruct (consumes_family false m4 _ _ _ _ (with_method (interface_new i.(if_name)) (Some m4)) H4) as (al & Hc & Hf);
      [done|].
    pose proof (λ H, consumes_app _ _ _ _ _ _ Hc (consumes_common false None al _ i H Ht)) as Hc4.
    specialize (Hc4 ltac:(by repeat split)).
    rewrite (app_assoc (write_iface_attributes_v4 _ _)).
    eapply reads_app.
    { eapply (reads_iface false); [done|by rewrite Hnone|exact Hc4|by apply Hf|reflexivity]. }
    rewrite Hnone. destruct (method6 i) as [m6|] eqn:E6; simpl.
    + destruct H6 as [H6 Hs]. rewrite Hs.
      match goal with |- reads (mkNetwork (bt_insert _ ?j _) _) _ _ _ _ => set (i1 := j) end.
      destruct (consumes_family true m6 _ _ _ _ (with_method6 i1 (Some m6)) H6) as (al6 & Hc6 & Hf6); [done|].
      set (c1 := mkNetwork (bt_insert (if_name i) i1 (interfaces c)) (net_order c ++ [Iface (if_name i)])).
      assert (bt_get (if_name i) (interfaces c1) = Some i1) as G by apply bt_get_insert_eq.
      assert (set_methods (default (interface_new (if_name i)) (bt_get (if_name i) (interfaces c1))) (negb true) true m6 =
              Ok (with_method6 i1 (Some m6))) as Hsm by (rewrite G; by apply set_methods_v6).
      pose proof (λ H, reads_iface true c1 fl' _ m6 _ _ _ _ Hn Hsm Hc6 (Hf6 _ H)) as R. specialize (R eq_refl eq_refl).
      rewrite G in R. unfold c1 in R at 2 3. cbn [interfaces net_order] in R. rewrite bt_insert_insert in R.
      replace (read_interface i) with (with_address true (with_family true (with_method6 i1 (Some m6)) (gateway6 i) (options6 i)
        (comments6 i)) (cidr6 i)); [exact R|].
      clear R Hc6 Hf6 Hsm G. destruct i; simpl in *; by simplify_eq.
    + replace (with_cidr _ _) with (read_interface i); [apply reads_nil|].
      destruct i; simpl in *; destruct_and!; by simplify_eq.
  - destruct (method6 i) as [m6|] eqn:E6; [|by destruct Hm]. destruct H6 as [H6 Hs]. apply Hauto. cbn [opt_line app].
    destruct (consumes_family true m6 _ _ _ _ (with_method6 (interface_new i.(if_name)) (Some m6)) H6) as (al & Hc & Hf);
      [done|].
    pose proof (λ H, consumes_app _ _ _ _ _ _ Hc (consumes_common true None al _ i H Ht)) as Hc6.
    specialize (Hc6 ltac:(by repeat split)). rewrite Hs.
    assert (set_methods (default (interface_new (if_name i)) (bt_get (if_name i) (interfaces c))) (negb true) true m6 =
            Ok (with_method6 (interface_new i.(if_name)) (Some m6))) as Hsm by (rewrite Hnone; by apply set_methods_v6).
    pose proof (λ H, reads_iface true c fl' _ m6 _ _ _ _ Hn Hsm Hc6 (Hf _ H)) as R. specialize (R eq_refl eq_refl).
    rewrite Hnone in R. rewrite (app_assoc (write_iface_attributes_v6 _ _)). cbn [opt_line]. simpl in R.
    replace (read_interface i) with (with_cidr6 (with_common (with_comments6 (with_options6 (with_gateway6 (with_method6
      (interface_new i.(if_name)) (Some m6)) (gateway6 i)) (options6 i)) (comments6 i)) i) (cidr6 i)); [exact R|].
    clear R Hc6 Hc Hf Hsm. destruct i; simpl in *; destruct_and!; by simplify_eq.
Qed.

(** ** No line contains a line feed *)
Definition one_line (l : rstr) : Prop := 10%N ∉ l.
Lemma one_line_cons c l : c ≠ 10%N → one_line l → one_line (c :: l).
Proof. unfold one_line. rewrite not_elem_of_cons. auto. Qed.
Lemma one_line_tab ws : Forall word ws → one_line (tab ws).
Proof. intros H. apply one_line_cons; [done|]. by apply join_no_newline. Qed.
Lemma one_line_key k w : word k → word w → one_line (tab [k; w]).
Proof. intros. apply one_line_tab. do 2 (apply Forall_cons; split; [done|]). constructor. Qed.
Lemma one_line_ports k l : word k → Forall plain l → one_line (write_ports k l).
Proof.
  intros Hk Hl. destruct l as [|w l]; [by apply one_line_key; [|auto]|]. apply one_line_tab. constructor; [done|].
  eapply Forall_impl; [exact Hl|]. by intros ? [? _].
Qed.
Lemma one_line_opt {A} (f : A → list rstr) o : from_option (λ x, Forall one_line (f x)) True o → Forall one_line (opt_line f o).
Proof. by destruct o. Qed.

Lemma one_line_family v6 m a g o c : family_ok v6 m a g o c → Forall one_line (write_family m a g o c).
Proof.
  intros [Ha Hg Ho Hc]. unfold write_family. apply Forall_app. split; [case_decide; [|constructor]; apply Forall_app; split|].
  - apply one_line_opt. destruct a; [|done]. destruct Ha as (_ & [? _] & _). constructor; [|done]. apply one_line_key; auto.
  - apply one_line_opt. destruct g; [|done]. destruct Hg as (_ & [? _] & _). constructor; [|done]. apply one_line_key; auto.
  - apply Forall_app. split.
    + apply Forall_map. eapply Forall_impl; [exact Ho|]. intros x (w & ws & -> & Hws & _). by apply (one_line_tab (w :: ws)).
    + apply one_line_opt. destruct c as [c|]; [|done]. apply Forall_map. destruct Hc as (_ & _ & _ & Hc).
      eapply Forall_impl; [exact Hc|]. intros x [_ ?]. by apply one_line_cons.
Qed.

Lemma one_line_common i : type_ok i → Forall one_line (write_iface_attributes i).
Proof.
  intros [Ht Hm]. unfold write_iface_attributes. apply Forall_app. split.
  2: { apply one_line_opt. destruct (mtu i); [|done]. constructor; [|done]. apply one_line_key; [auto|apply dec_plain]. }
  unfold ports_ok, no_bridge, no_bond, no_vlan in Ht.
  destruct (interface_type i); destruct_and!; try (by constructor).
  - apply Forall_app. split.
    + case_decide; [|constructor]. constructor; [apply one_line_key; auto|done].
    + destruct (bridge_ports i); [|done]. constructor; [|done]. apply one_line_ports; [auto|naive_solver].
  - constructor; [apply one_line_key; [auto|by destruct (default _ _); apply word_bool]|]. apply Forall_app. split.
    + apply one_line_opt. destruct (bond_primary i); [|done]. simpl in *. case_decide; [|constructor].
      constructor; [|done]. apply one_line_key; [auto|]. by destruct_and!; match goal with H : plain _ |- _ => apply H end.
    + apply Forall_app. split.
      * apply one_line_opt. destruct (bond_xmit_hash_policy i) as [x|]; [|done]. simpl. case_decide; [|constructor].
        constructor; [|done]. apply one_line_key; [auto|by destruct x; apply word_bool].
      * destruct (slaves i); [|done]. constructor; [|done]. apply one_line_ports; [auto|naive_solver].
  - apply Forall_app. split.
    + apply one_line_opt. destruct (vlan_id i); [|done]. constructor; [|done]. apply one_line_key; [auto|apply dec_plain].
    + apply one_line_opt. destruct (vlan_raw_device i) as [d|]; [|done]. constructor; [|done].
      apply one_line_key; [auto|]. match goal with H : from_option plain True _ |- _ => apply H end.
Qed.

Lemma one_line_iface i : iface_ok i → Forall one_line (write_iface i).
Proof.
  intros [[Hn _] _ _ H4 H6 Ht _]. pose proof (one_line_common i Ht) as Hc. unfold write_iface.
  assert (∀ v6 m, one_line (iface_line (if_name i) (family_word v6) m)) as Hl.
  { intros v6 m. apply join_no_newline. constructor; [auto|]. constructor; [done|].
    constructor; [by destruct v6; apply word_bool|]. constructor; [by destruct m; apply word_bool|constructor]. }
  assert (one_line []) as Hb by apply not_elem_of_nil.
  assert (Forall one_line (if autostart i then [lit "auto " ++ if_name i] else [])) as Ha.
  { destruct (autostart i); [|constructor]. constructor; [|done].
    apply (join_no_newline [lit "auto"; if_name i]). constructor; [auto|]. by constructor. }
  assert (Forall one_line [[]]) as Hb' by (constructor; [done|constructor]).
  assert (∀ v6 m ls, Forall one_line ls → Forall one_line ([iface_line (if_name i) (family_word v6) m] ++ ls ++ [[]])) as Hblock.
  { intros v6 m ls Hls. constructor; [done|]. apply Forall_app. by split. }
  assert (∀ m, method i = Some m → Forall one_line (write_iface_attributes_v4 i m ++ write_iface_attributes i)) as H4'.
  { intros m E. rewrite E in H4. apply Forall_app. split; [by eapply one_line_family|done]. }
  assert (∀ m, method6 i = Some m → Forall one_line (write_iface_attributes_v6 i m)) as H6'.
  { intros m E. rewrite E in H6. by eapply one_line_family, H6. }
  assert (∀ m, method i = Some m → Forall one_line ([iface_line (if_name i) (lit "inet") m] ++
            write_iface_attributes_v4 i m ++ write_iface_attributes i ++ [[]])) as H4b.
  { intros m E. rewrite (app_assoc (write_iface_attributes_v4 _ _)). by apply (Hblock false), H4'. }
  destruct (method i) as [m|] eqn:E4, (method6 i) as [m6|] eqn:E6; try apply Forall_nil_2; apply Forall_app; (split; [done|]);
    cbn [opt_line]; apply Forall_app.
  - split; [by apply H4b|]. destruct (skip_v6 i m6); [apply Forall_nil_2|]. by apply (Hblock true), H6'.
  - split; [by apply H4b|apply Forall_nil_2].
  - split; [apply Forall_nil_2|]. destruct (skip_v6 i m6); [apply Forall_nil_2|].
    rewrite (app_assoc (write_iface_attributes_v6 _ _)). apply (Hblock true), Forall_app. auto.
Qed.

(** ** The file *)
Definition order_names (l : list NetworkOrderEntry) : list rstr :=
  flat_map (λ e, match e with Iface n => [n] | _ => [] end) l.
Definition entry_ok (e : NetworkOrderEntry) : Prop :=
  match e with
  | Iface _ => True
  | OComment c => trim c = c ∧ one_line c
  | OOption o => file_option_ok o
  end.

(** The configurations that the format can express: [lo] is there, every interface is
    one of [iface_ok] under its own name and has its one place in the order, and the
    comments and options of the file are lines that are read as such. *)
Record canonical_config (c : NetworkConfig) : Prop := {
  can_sorted : bt_sorted c.(interfaces);
  can_interfaces : Forall (λ ni, ni.2.(if_name) = ni.1 ∧ iface_ok ni.2) c.(interfaces);
  can_lo : bt_get (lit "lo") c.(interfaces) ≠ None;
  can_entries : Forall entry_ok c.(net_order);
  can_nodup : NoDup (order_names c.(net_order));
  can_names : ∀ n, n ∈ order_names c.(net_order) ↔ n ∈ c.(interfaces).*1
}.

Lemma bt_get_fst {V} k (m : list (rstr * V)) : k ∈ m.*1 ↔ is_Some (bt_get k m).
Proof.
  induction m as [|[k' v] m IH]; simpl; [split; [by intros ?%not_elem_of_nil|by intros []]|].
  rewrite elem_of_cons. case_decide; subst; [split; eauto|]. naive_solver.
Qed.

(** The interfaces and the flags the main loop has collected after [l]. *)
Definition read_entry (c : NetworkConfig) (m : list (rstr * Interface)) (n : rstr) : list (rstr * Interface) :=
  match bt_get n c.(interfaces) with Some i => bt_insert n (read_interface i) m | None => m end.
Definition starts (c : NetworkConfig) (n : rstr) : bool :=
  match bt_get n c.(interfaces) with Some i => i.(autostart) | None => false end.

(** The names of [l] have interfaces that are in order, and were not read before. *)
Definition pending (c : NetworkConfig) (done : list rstr) (m : list (rstr * Interface)) (l : list NetworkOrderEntry) : Prop :=
  NoDup (order_names l) ∧ Forall entry_ok l ∧
  (∀ n, n ∈ order_names l → (n ∉ done) ∧ bt_get n m = None ∧
    ∃ i, bt_get n c.(interfaces) = Some i ∧ i.(if_name) = n ∧ iface_ok i).

Lemma reads_blank_if (b : bool) c fl ls c' fl' : reads c fl ls c' fl' → reads c fl ((if b then [[]] else []) ++ ls) c' fl'.
Proof. intros H. destruct b; [eapply reads_app; [apply reads_blank|done]|done]. Qed.

Lemma reads_entries c l done b m p fl :
  pending c done m l →
  reads (mkNetwork m p) fl (write_entries c done b l).1
    (mkNetwork (foldl (read_entry c) m (order_names l)) (p ++ l)) (fl ++ filter (λ n, starts c n = true) (order_names l)) ∧
  Forall one_line (write_entries c done b l).1 ∧
  (∀ n, n ∈ order_names l ∨ n ∈ done → n ∈ (write_entries c done b l).2).
Proof.
  revert done b m p fl. induction l as [|e l IH]; intros done b m p fl (Hnd & He & Hn).
  { simpl. rewrite !app_nil_r. split; [apply reads_nil|]. split; [constructor|]. by intros n [?%not_elem_of_nil|]. }
  apply Forall_cons in He as [He Hes]. destruct e as [name|x|o]; simpl in *.
  - apply NoDup_cons in Hnd as [Hni Hnd].
    destruct (Hn name ltac:(by left)) as (Hd & Hm & i & Hi & Hname & Hok). rewrite Hi, decide_False by done.
    specialize (IH (name :: done) false (bt_insert name (read_interface i) m) (p ++ [Iface name])
                  (if i.(autostart) then fl ++ [name] else fl)).
    destruct IH as (H1 & H2 & H3).
    { split; [done|]. split; [done|]. intros n Hin. destruct (Hn n ltac:(by right)) as (? & ? & ?).
      assert (n ≠ name) by congruence. rewrite not_elem_of_cons, bt_get_insert_ne by done. auto. }
    destruct (write_entries c (name :: done) false l) as [out d]. simpl in *.
    assert (starts c name = i.(autostart)) as Es by (unfold starts; by rewrite Hi).
    assert (read_entry c m name = bt_insert name (read_interface i) m) as -> by (unfold read_entry; by rewrite Hi).
    rewrite filter_cons. rewrite <- app_assoc in H1. simpl in H1.
    split; [|split].
    + apply reads_blank_if. eapply reads_app; [|].
      { pose proof (reads_write_iface (mkNetwork m p) fl i Hok) as R. rewrite Hname in R. exact (R Hm). }
      simpl. destruct (autostart i); [rewrite decide_True by done; rewrite <- app_assoc in H1|rewrite decide_False by congruence];
        exact H1.
    + apply Forall_app. split; [destruct b; [|constructor]; constructor; [apply not_elem_of_nil|constructor]|].
      apply Forall_app. split; [by apply one_line_iface|done].
    + intros n Hin. apply H3. rewrite elem_of_cons. rewrite elem_of_cons in Hin. naive_solver.
  - destruct (IH done true m (p ++ [OComment x]) fl) as (H1 & H2 & H3); [by split|].
    destruct (write_entries c done true l) as [out d]. simpl in *. rewrite <- app_assoc in H1.
    destruct He as [Hx1 Hx2]. split; [|split; [|done]].
    + eapply (reads_app _ _ _ _ _ _ [_]); [by apply reads_comment|exact H1].
    + constructor; [by apply one_line_cons|done].
  - destruct (IH done false m (p ++ [OOption o]) fl) as (H1 & H2 & H3); [by split|].
    destruct (write_entries c done false l) as [out d]. simpl in *. rewrite <- app_assoc in H1.
    split; [|split; [|done]].
    + apply reads_blank_if. eapply (reads_app _ _ _ _ _ _ [_]); [by apply reads_option|].
      eapply (reads_app _ _ _ _ _ _ [_]); [apply reads_blank|exact H1].
    + apply Forall_app. split; [destruct b; [|constructor]; constructor; [apply not_elem_of_nil|constructor]|].
      constructor; [destruct He as [(w & ws & -> & Hws & _) _]; by apply join_no_newline|].
      constructor; [apply not_elem_of_nil|done].
Qed.

Lemma read_entries_other c ns m k : k ∉ ns → bt_get k (foldl (read_entry c) m ns) = bt_get k m.
Proof.
  revert m. induction ns as [|n ns IH]; intros m Hk; [done|]. apply not_elem_of_cons in Hk as [Hne Hk]. simpl.
  rewrite IH by done. unfold read_entry. destruct (bt_get n _); [by rewrite bt_get_insert_ne|done].
Qed.
Lemma read_entries_get c ns m k i :
  k ∈ ns → bt_get k c.(interfaces) = Some i → bt_get k (foldl (read_entry c) m ns) = Some (read_interface i).
Proof.
  intros Hk E. revert m. induction ns as [|n ns IH]; intros m; [by apply not_elem_of_nil in Hk|]. simpl.
  destruct (decide (k ∈ ns)) as [Hin|Hin]; [by apply IH|]. rewrite read_entries_other by done.
  apply elem_of_cons in Hk as [->|]; [|done]. unfold read_entry. rewrite E. by rewrite bt_get_insert_eq.
Qed.
Lemma read_entries_sorted c ns m : bt_sorted m → bt_sorted (foldl (read_entry c) m ns).
Proof.
  revert m. induction ns as [|n ns IH]; intros m Hm; [done|]. simpl. apply IH. unfold read_entry.
  destruct (bt_get n _); [by apply bt_sorted_insert|done].
Qed.

Lemma set_autostarts_get fl m k :
  bt_get k (set_autostarts fl m) = (λ i, if decide (k ∈ fl) then with_autostart i true else i) <$> bt_get k m.
Proof.
  unfold set_autostarts. revert m. induction fl as [|n fl IH]; intros m; simpl.
  { by destruct (bt_get k m). }
  rewrite IH. unfold bt_modify. destruct (decide (k = n)) as [->|Hne].
  - destruct (bt_get n m) as [i|] eqn:E; [|by rewrite E]. rewrite bt_get_insert_eq. simpl.
    rewrite (decide_True (P := n ∈ n :: fl)) by (by left). by case_decide.
  - assert (bt_get k (match bt_get n m with Some v => bt_insert n (with_autostart v true) m | None => m end) = bt_get k m) as ->
      by (destruct (bt_get n m); [by rewrite bt_get_insert_ne|done]).
    destruct (bt_get k m); [|done]. simpl. f_equal. apply decide_ext. rewrite elem_of_cons. naive_solver.
Qed.
Lemma set_autostarts_sorted fl m : bt_sorted m → bt_sorted (set_autostarts fl m).
Proof.
  unfold set_autostarts. revert m. induction fl as [|n fl IH]; intros m Hm; [done|]. simpl. apply IH. unfold bt_modify.
  destruct (bt_get n m); [by apply bt_sorted_insert|done].
Qed.

Lemma set_type_fst ex ni : (set_type ex ni).1 = ni.1.
Proof. unfold set_type. by case_decide. Qed.
Lemma set_types_get ex m k : bt_get k (map (set_type ex) m) = (λ i, (set_type ex (k, i)).2) <$> bt_get k m.
Proof.
  induction m as [|[n i] m IH]; [done|]. cbn [map bt_get]. destruct (set_type ex (n, i)) as [n' i'] eqn:E.
  pose proof (set_type_fst ex (n, i)) as Hf. rewrite E in Hf. simpl in Hf. subst n'.
  case_decide; [subst; simpl; by rewrite E|done].
Qed.
Lemma set_types_sorted ex m : bt_sorted m → bt_sorted (map (set_type ex) m).
Proof.
  assert (∀ k m, bt_lb k m → bt_lb k (map (set_type ex) m)) as Hlb.
  { intros k m'. induction m' as [|[n i] m' IH]; [done|]. simpl. intros [? ?].
    pose proof (set_type_fst ex (n, i)) as Hf. destruct (set_type ex (n, i)). simpl in *. subst. auto. }
  induction m as [|[n i] m IH]; [done|]. simpl. intros [? ?].
  pose proof (set_type_fst ex (n, i)) as Hf. destruct (set_type ex (n, i)). simpl in *. subst. auto.
Qed.

(** The flag and the type of the name complete what the main loop has read. *)
Lemma complete_interface n i b :
  i.(if_name) = n → iface_ok i → b = i.(autostart) →
  (set_type None (n, if b : bool then with_autostart (read_interface i) true else read_interface i)).2 = i.
Proof.
  intros Hn Hok ->. pose proof (ok_derive i Hok) as Hd. unfold set_type.
  assert (interface_type (if autostart i then with_autostart (read_interface i) true else read_interface i) = read_type i)
    as E by (by destruct (autostart i)).
  cbn [snd fst]. rewrite E. destruct (decide (read_type i = TUnknown)) as [Ht|Ht].
  - specialize (Hd Ht). rewrite Hn in Hd. cbn [snd]. rewrite Hd. destruct i as [[] ? ? ? ? ? ? ? ? ? ? ? ? ? ? ? ? ? ? ? ? ? ? ?]; done.
  - assert (read_type i = interface_type i) as Ht'.
    { unfold read_type in *. destruct (interface_type i); try done. by destruct (vlan_id i), (vlan_raw_device i). }
    cbn [snd]. unfold read_interface. rewrite Ht'.
    destruct i as [[] ? ? ? ? ? ? ? ? ? ? ? ? ? ? ? ? ? ? ? ? ? ? ?]; done.
Qed.

Lemma write_lines_entries c :
  (∀ n, n ∈ c.(interfaces).*1 → n ∈ (write_entries c [] false c.(net_order)).2) →
  write_lines c = (write_entries c [] false c.(net_order)).1.
Proof.
  unfold write_lines. destruct (write_entries c [] false (net_order c)) as [out d]. simpl. intros H.
  rewrite <- (app_nil_r out) at 2. f_equal. revert H.
  induction c.(interfaces) as [|ni l IH]; intros H; [done|]. simpl in *. rewrite decide_True by (apply H; by left).
  apply IH. intros n Hn. apply H. by right.
Qed.

End Interfaces.

(** ** Examples *)
Definition ascii_digits : UnicodeDigit := is_ascii_digit.

(** The loopback interface, a card that is part of a bridge, and a file with a
    comment and a line of its own. *)
Definition example_lo : Interface :=
  with_autostart (with_interface_type (with_method (interface_new (lit "lo")) (Some Loopback)) TLoopback) true.
Definition example_eth : Interface :=
  with_options (with_interface_type (with_method (interface_new (lit "enp1s0")) (Some Manual)) TEth) [lit "up ethtool -K on"].
Definition example_bridge : Interface :=
  with_autostart (with_interface_type (with_bridge_ports (with_mtu (with_comments (with_gateway (with_cidr
    (with_method (interface_new (lit "vmbr0")) (Some Static)) (Some (lit "192.0.2.7/24"))) (Some (lit "192.0.2.1")))
    (Some (lit "uplink" ++ [10%N] ++ lit "to the lab"))) (Some 1500%N)) (Some [lit "enp1s0"])) TBridge) true.
Definition example_network : NetworkConfig :=
  mkNetwork [(lit "enp1s0", example_eth); (lit "lo", example_lo); (lit "vmbr0", example_bridge)]
    [OComment (lit "managed"); Iface (lit "lo"); OOption (lit "source /etc/network/interfaces.d/all");
     Iface (lit "vmbr0"); Iface (lit "enp1s0")].

Lemma plain_bool w :
  match w with [] => false | _ => forallb (λ c, negb (is_ascii_whitespace c)) w end = true → keyword_token w = KText → plain w.
Proof. intros H1 H2. split; [by apply word_bool|done]. Qed.

Lemma example_canonical : canonical_config (U := ascii_digits) example_network.
Proof.
  split.
  - by vm_compute.
  - repeat (apply Forall_cons; split; [split; [done|]|]); [| | |constructor].
    + split; [by apply plain_bool|done|by left| |done|by repeat split|done]. split; [done|done| |done].
      constructor; [|done]. exists (lit "up"), [lit "ethtool"; lit "-K"; lit "on"]. split; [done|]. split; [|done].
      by repeat (apply Forall_cons; split; [by apply word_bool|]).
    + split; [by apply plain_bool|done|by left|by split|done|by repeat split|done].
    + split; [by apply plain_bool|done|by left| |done| |done].
      * split; [|split; [done|]; split; [by apply plain_bool|done]|done|].
        { split; [done|]. split; [by apply plain_bool|]. by exists (lit "192.0.2.7"), 24%N. }
        split; [done|]. split; [done|]. split; [done|]. repeat (constructor; [split; [done|by apply (bool_decide_unpack _)]|]). done.
      * split; [|done]. split; [|done]. split; [constructor; [by apply plain_bool|done]|by apply (bool_decide_unpack _)].
  - done.
  - repeat constructor; try done; [by apply (bool_decide_unpack _)|].
    exists (lit "source"), [lit "/etc/network/interfaces.d/all"]. split; [done|]. split; [|done].
    by repeat (apply Forall_cons; split; [by apply word_bool|]).
  - by apply (bool_decide_unpack _).
  - intros n. change (n ∈ [lit "lo"; lit "vmbr0"; lit "enp1s0"] ↔ n ∈ [lit "enp1s0"; lit "lo"; lit "vmbr0"]). set_solver.
Qed.



(** Renaming keeps the entries of the order under their old names: the renamed
    interface has no place in the order and is written at the end. *)
Lemma rename_loses_place :
  let c := rename_interfaces (U := ascii_digits) example_network [(lit "vmbr0", lit "vmbr9")] in
  bt_get (lit "vmbr9") c.(interfaces) ≠ None ∧ bt_get (lit "vmbr0") c.(interfaces) = None ∧
  order_names c.(net_order) = [lit "lo"; lit "vmbr0"; lit "enp1s0"].
Proof. by vm_compute. Qed.
