(* ===== verification/NetworkApi.v ===== *)
(** * NetworkApi: the API calls that change network interfaces

    Models [proxmox-network-api]: [create_interface] and [update_interface] of
    [api_impl.rs] with the setters of [api_types.rs], and [config] and [save_config]
    of [config/mod.rs] on the pair of files they use. A call is a function of the
    configuration it has read; the whole call reads the files, runs it and writes
    the new file. Then what a successful call guarantees. *)
From S2P Require Import Prelude Json Schema ObjectSchema PropertyString Interfaces InterfacesParser.

Inductive NetApiError :=
| ParseFailed (line : N) (e : NetError)
| ConfigFailed (e : NetError)
| BadInterfaceList (e : PropertyString.PropertyError)
| MissingTypeParameter
| InterfaceExists
| NoSuchInterface
| AutoForIPv4
| WrongAddressFamily
| PrimaryNeedsActiveBackup
| HashPolicyNeedsMode
| VlanIdRequired
| RawDeviceUnknown (dev : rstr)
| RawDeviceRequired
| TypeNotSupported
| UnexpectedType
| NotABridge
| NotABond
| MethodOverridden
| ConfigModified.

Record InterfaceUpdater := mkUpdater {
  up_type : option NetworkInterfaceType;
  up_autostart : option bool;
  up_method : option NetworkConfigMethod;
  up_method6 : option NetworkConfigMethod;
  up_comments : option rstr;
  up_comments6 : option rstr;
  up_cidr : option rstr;
  up_gateway : option rstr;
  up_cidr6 : option rstr;
  up_gateway6 : option rstr;
  up_mtu : option N;
  up_bridge_ports : option rstr;
  up_bridge_vlan_aware : option bool;
  up_vlan_id : option N;
  up_vlan_raw_device : option rstr;
  up_bond_mode : option LinuxBondMode;
  up_bond_primary : option rstr;
  up_bond_xmit_hash_policy : option BondXmitHashPolicy;
  up_slaves : option rstr
}.

Inductive DeletableInterfaceProperty :=
| DCidr | DCidr6 | DGateway | DGateway6 | DMethod | DMethod6 | DComments | DComments6 | DMtu | DAutostart
| DBridgePorts | DBridgeVlanAware | DSlaves | DBondPrimary | DBondXmitHashPolicy.

(** ** Lists of interfaces *)
Definition NETWORK_INTERFACE_NAME_SCHEMA : Schema :=
  SString {| min_length := Some 1%N; max_length := Some 15%N; format := Some (Pattern SAFE_ID_REGEX);
             format_is_optional := false |}.
Definition NETWORK_INTERFACE_ARRAY_SCHEMA : Schema := SArray NETWORK_INTERFACE_NAME_SCHEMA None None.

Section Api.
Context `{U : UnicodeDigit} `{F : F64Text}.

(** The value of an array schema is an array, its items strings. *)
Definition split_interface_list (list : rstr) : result (List.list rstr) NetApiError :=
  let? v := map_err BadInterfaceList (parse_property_string NETWORK_INTERFACE_ARRAY_SCHEMA list) in
  match v with VArray l => Ok (omap as_str l) | _ => Ok [] end.

Definition set_bridge_ports (i : Interface) (ports : list rstr) : result Interface NetApiError :=
  if decide (i.(interface_type) = TBridge) then Ok (with_bridge_ports i (Some ports)) else Err NotABridge.
Definition set_bridge_port_list (i : Interface) (ports : rstr) : result Interface NetApiError :=
  let? ports := split_interface_list ports in set_bridge_ports i ports.
Definition set_bond_slaves (i : Interface) (sl : list rstr) : result Interface NetApiError :=
  if decide (i.(interface_type) = TBond) then Ok (with_slaves i (Some sl)) else Err NotABond.
Definition set_bond_slave_list (i : Interface) (sl : rstr) : result Interface NetApiError :=
  let? sl := split_interface_list sl in set_bond_slaves i sl.

(** ** Methods and addresses *)
Definition check_v4_method (m : option NetworkConfigMethod) : result unit NetApiError :=
  if decide (m = Some Auto) then Err AutoForIPv4 else Ok tt.

Definition method_for_address (current : option NetworkConfigMethod) (has_address : bool) : NetworkConfigMethod :=
  if has_address then Static
  else match current with
       | None | Some Static => Manual
       | Some m => m
       end.

Definition check_method_for_address (requested : option NetworkConfigMethod) (has_address : bool) :
    result unit NetApiError :=
  match requested with
  | None | Some Static => Ok tt
  | Some _ => if has_address then Err MethodOverridden else Ok tt
  end.

(** [if update.x.is_some() { interface.x = update.x }] *)
Definition assign {A} (set : Interface → option A → Interface) (o : option A) (i : Interface) : Interface :=
  match o with Some _ => set i o | None => i end.
Definition when_some {A E} (o : option A) (f : A → Interface → result Interface E) (i : Interface) :
    result Interface E :=
  match o with Some x => f x i | None => Ok i end.

Definition set_cidr_param (v6 : bool) (a : rstr) (i : Interface) : result Interface NetApiError :=
  let? amv := map_err ConfigFailed (parse_cidr a) in
  if decide (amv.2 = v6) then Ok (if v6 then with_cidr6 i (Some a) else with_cidr i (Some a)) else Err WrongAddressFamily.

Definition gateway_family (v6 : bool) (g : rstr) : result unit NetApiError :=
  if decide (bool_decide (58%N ∈ g) = v6) then Ok tt else Err WrongAddressFamily.

Definition set_bond_options (u : InterfaceUpdater) (mode : LinuxBondMode) (i : Interface) : result Interface NetApiError :=
  let i := with_bond_mode i (Some mode) in
  let? i := when_some u.(up_bond_primary) (λ p i,
    if decide (mode = ActiveBackup) then Ok (with_bond_primary i (Some p)) else Err PrimaryNeedsActiveBackup) i in
  when_some u.(up_bond_xmit_hash_policy) (λ p i,
    if decide (mode = Ieee802_3ad ∨ mode = BalanceXor) then Ok (with_bond_xmit_hash_policy i (Some p))
    else Err HashPolicyNeedsMode) i.

Definition is_some {A} (o : option A) : bool := match o with Some _ => true | None => false end.
Definition has_address (i : Interface) : bool := is_some i.(cidr) || is_some i.(gateway).
Definition has_address6 (i : Interface) : bool := is_some i.(cidr6) || is_some i.(gateway6).

(** The methods follow from the addresses. *)
Definition settle_methods (u : InterfaceUpdater) (i : Interface) : result Interface NetApiError :=
  let? _ := check_method_for_address u.(up_method) (has_address i) in
  let? _ := check_method_for_address u.(up_method6) (has_address6 i) in
  let i' := with_method i (Some (method_for_address i.(method) (has_address i))) in
  Ok (with_method6 i' (Some (method_for_address i.(method6) (has_address6 i)))).

Definition set_gateway_param (c : NetworkConfig) (iface g : rstr) (i : Interface) : result Interface NetApiError :=
  let? _ := gateway_family false g in
  let? _ := map_err ConfigFailed (check_duplicate_gateway_v4 c iface) in
  Ok (with_gateway i (Some g)).
Definition set_gateway6_param (c : NetworkConfig) (iface g : rstr) (i : Interface) : result Interface NetApiError :=
  let? _ := gateway_family true g in
  let? _ := map_err ConfigFailed (check_duplicate_gateway_v6 c iface) in
  Ok (with_gateway6 i (Some g)).

Definition raw_device (u : InterfaceUpdater) (iface : rstr) : option rstr :=
  match u.(up_vlan_raw_device) with Some d => Some d | None => parse_vlan_raw_device_from_name iface end.

(** The parameters of the type. *)
Definition create_typed (c : NetworkConfig) (iface : rstr) (u : InterfaceUpdater) (t : NetworkInterfaceType) (i : Interface) :
    result Interface NetApiError :=
  match t with
  | TBridge =>
      let? i := when_some u.(up_bridge_ports) (λ p i, set_bridge_port_list i p) i in
      Ok (assign with_bridge_vlan_aware u.(up_bridge_vlan_aware) i)
  | TBond =>
      let? i := when_some u.(up_bond_mode) (set_bond_options u) i in
      when_some u.(up_slaves) (λ s i, set_bond_slave_list i s) i
  | TVlan =>
      let? _ := match u.(up_vlan_id), parse_vlan_id_from_name iface with
                | None, None => Err VlanIdRequired
                | _, _ => Ok tt
                end in
      let i := with_vlan_id i u.(up_vlan_id) in
      let? _ := match raw_device u iface with
                | Some dev => if is_some (bt_get dev c.(interfaces)) then Ok tt else Err (RawDeviceUnknown dev)
                | None => Err RawDeviceRequired
                end in
      Ok (with_vlan_raw_device i u.(up_vlan_raw_device))
  | _ => Err TypeNotSupported
  end.

Definition create_in_config (c : NetworkConfig) (iface : rstr) (u : InterfaceUpdater) : result NetworkConfig NetApiError :=
  let? t := ok_or u.(up_type) MissingTypeParameter in
  let? _ := if is_some (bt_get iface c.(interfaces)) then Err InterfaceExists else Ok tt in
  let i := with_interface_type (interface_new iface) t in
  let i := match u.(up_autostart) with Some b => with_autostart i b | None => i end in
  let? _ := check_v4_method u.(up_method) in
  let i := assign with_method u.(up_method) i in
  let i := assign with_method6 u.(up_method6) i in
  let i := assign with_mtu u.(up_mtu) i in
  let i := assign with_comments u.(up_comments) i in
  let i := assign with_comments6 u.(up_comments6) i in
  let? i := when_some u.(up_cidr) (set_cidr_param false) i in
  let? i := when_some u.(up_cidr6) (set_cidr_param true) i in
  let? i := when_some u.(up_gateway) (set_gateway_param c iface) i in
  let? i := when_some u.(up_gateway6) (set_gateway6_param c iface) i in
  let? i := create_typed c iface u t i in
  let? i := settle_methods u i in
  Ok (mkNetwork (bt_insert iface i c.(interfaces)) c.(net_order)).

Definition delete_interface_property (i : Interface) (p : DeletableInterfaceProperty) : result Interface NetApiError :=
  match p with
  | DCidr => Ok (with_cidr i None)
  | DCidr6 => Ok (with_cidr6 i None)
  | DGateway => Ok (with_gateway i None)
  | DGateway6 => Ok (with_gateway6 i None)
  | DMethod => Ok (with_method i None)
  | DMethod6 => Ok (with_method6 i None)
  | DComments => Ok (with_comments i None)
  | DComments6 => Ok (with_comments6 i None)
  | DMtu => Ok (with_mtu i None)
  | DAutostart => Ok (with_autostart i false)
  | DBridgePorts => set_bridge_ports i []
  | DBridgeVlanAware => Ok (with_bridge_vlan_aware i None)
  | DSlaves => set_bond_slaves i []
  | DBondPrimary => Ok (with_bond_primary i None)
  | DBondXmitHashPolicy => Ok (with_bond_xmit_hash_policy i None)
  end.
Fixpoint delete_properties (i : Interface) (l : list DeletableInterfaceProperty) : result Interface NetApiError :=
  match l with
  | [] => Ok i
  | p :: l' => let? i := delete_interface_property i p in delete_properties i l'
  end.

(** The changes to the interface, once it is found. *)
Definition apply_update (u : InterfaceUpdater) (del : list DeletableInterfaceProperty) (i : Interface) :
    result Interface NetApiError :=
  let? _ := match u.(up_type) with
            | Some t => if decide (t = i.(interface_type)) then Ok tt else Err UnexpectedType
            | None => Ok tt
            end in
  let? i := delete_properties i del in
  let i := match u.(up_autostart) with Some b => with_autostart i b | None => i end in
  let? _ := check_v4_method u.(up_method) in
  let i := assign with_method u.(up_method) i in
  let i := assign with_method6 u.(up_method6) i in
  let i := assign with_mtu u.(up_mtu) i in
  let? i := when_some u.(up_bridge_ports) (λ p i, set_bridge_port_list i p) i in
  let i := assign with_bridge_vlan_aware u.(up_bridge_vlan_aware) i in
  let? i := when_some u.(up_slaves) (λ s i, set_bond_slave_list i s) i in
  let? i := when_some u.(up_bond_mode) (set_bond_options u) i in
  let? i := when_some u.(up_cidr) (set_cidr_param false) i in
  let? i := when_some u.(up_cidr6) (set_cidr_param true) i in
  let? i := when_some u.(up_gateway) (λ g i, let? _ := gateway_family false g in Ok (with_gateway i (Some g))) i in
  let? i := when_some u.(up_gateway6) (λ g i, let? _ := gateway_family true g in Ok (with_gateway6 i (Some g))) i in
  let i := assign with_comments u.(up_comments) i in
  let i := assign with_comments6 u.(up_comments6) i in
  let? i := settle_methods u i in
  let i := assign with_vlan_id u.(up_vlan_id) i in
  Ok (assign with_vlan_raw_device u.(up_vlan_raw_device) i).

Definition update_in_config (c : NetworkConfig) (iface : rstr) (u : InterfaceUpdater)
    (del : option (list DeletableInterfaceProperty)) : result NetworkConfig NetApiError :=
  let? _ := match u.(up_gateway) with
            | Some _ => map_err ConfigFailed (check_duplicate_gateway_v4 c iface)
            | None => Ok tt
            end in
  let? _ := match u.(up_gateway6) with
            | Some _ => map_err ConfigFailed (check_duplicate_gateway_v6 c iface)
            | None => Ok tt
            end in
  let? _ := match raw_device u iface with
            | Some dev => if is_some (bt_get dev c.(interfaces)) then Ok tt else Err (RawDeviceUnknown dev)
            | None => Ok tt
            end in
  let? i := ok_or (bt_get iface c.(interfaces)) NoSuchInterface in
  let? i := apply_update u (default [] del) i in
  Ok (mkNetwork (bt_insert iface i c.(interfaces)) c.(net_order)).

(** ** The calls on the files *)

(** The active configuration and the one the next reload applies. *)
Record NetworkFiles := mkFiles { nf_interfaces : option rstr; nf_new : option rstr }.

(** The digest and the links of the host come from outside. *)
Context (sha256 : rstr → list N) (links : list (rstr * IpLink)).

Definition config (f : NetworkFiles) : result (NetworkConfig * list N) NetApiError :=
  let content := match f.(nf_new) with Some c => c | None => default [] f.(nf_interfaces) end in
  let? data := map_err (λ le : N * NetError, ParseFailed le.1 le.2) (parse_interfaces (Some links) content) in
  Ok (data, sha256 content).

Definition save_config (f : NetworkFiles) (c : NetworkConfig) : result NetworkFiles NetApiError :=
  let? raw := map_err ConfigFailed (write_config c) in
  Ok (mkFiles f.(nf_interfaces) (Some raw)).

Definition detect_modification (expected : list N) (user : option (list N)) : result unit NetApiError :=
  match user with
  | Some d => if decide (d = expected) then Ok tt else Err ConfigModified
  | None => Ok tt
  end.

Definition create_interface (f : NetworkFiles) (iface : rstr) (u : InterfaceUpdater) : result NetworkFiles NetApiError :=
  let? _ := ok_or u.(up_type) MissingTypeParameter in
  let? cd := config f in
  let? c := create_in_config cd.1 iface u in
  save_config f c.

Definition update_interface (f : NetworkFiles) (iface : rstr) (u : InterfaceUpdater)
    (del : option (list DeletableInterfaceProperty)) (digest : option (list N)) : result NetworkFiles NetApiError :=
  let? cd := config f in
  let? _ := detect_modification cd.2 digest in
  let? c := update_in_config cd.1 iface u del in
  save_config f c.
End Api.
