(* ===== verification/NetworkApiTheory.v ===== *)
(** * NetworkApiTheory: what a successful change of an interface guarantees

    [create_interface] and [update_interface] keep the gateways of the two address
    families unique, make the method of the interface follow from its addresses,
    leave the other interfaces and the active file alone, and write no file in which
    a port belongs to two interfaces. *)
From S2P Require Import Prelude Json Schema ObjectSchema ObjectSchemaTheory PropertyString Interfaces InterfacesParser.
From S2P Require Import InterfacesTheory InterfacesRoundtrip NetworkApi.

(** Splits the binds of a call that has succeeded. *)
Ltac binds H :=
  repeat match type of H with
         | rbind _ _ = Ok _ => let x := fresh "x" in let E := fresh "E" in apply rbind_ok in H as (x & E & H)
         end.

(** ** How gateways change *)

(** A gateway stays or goes away, unless it is one of those being set. *)
Definition moves (b4 b6 : bool) (i i' : Interface) : Prop :=
  (b4 = true ∨ i'.(gateway) = i.(gateway) ∨ i'.(gateway) = None) ∧
  (b6 = true ∨ i'.(gateway6) = i.(gateway6) ∨ i'.(gateway6) = None) ∧
  i'.(if_name) = i.(if_name).

#[export] Instance moves_preorder b4 b6 : PreOrder (moves b4 b6).
Proof.
  split; [intros i; unfold moves; auto|]. intros i j k (H1 & H2 & H3) (K1 & K2 & K3). unfold moves.
  split; [|split; [|congruence]].
  - destruct H1 as [?|[H1|H1]], K1 as [?|[K1|K1]]; auto; rewrite K1, H1; auto.
  - destruct H2 as [?|[H2|H2]], K2 as [?|[K2|K2]]; auto; rewrite K2, H2; auto.
Qed.

Create HintDb moves.
Section Steps.
Context `{U : UnicodeDigit} `{F : F64Text} (b4 b6 : bool).

Lemma moves_fields i i' :
  i'.(gateway) = i.(gateway) → i'.(gateway6) = i.(gateway6) → i'.(if_name) = i.(if_name) → moves b4 b6 i i'.
Proof. unfold moves. auto. Qed.

Lemma moves_assign {A} (set : Interface → option A → Interface) o i :
  (∀ i v, moves b4 b6 i (set i v)) → moves b4 b6 i (assign set o i).
Proof. destruct o; simpl; [auto|reflexivity]. Qed.
Lemma moves_when {A} (o : option A) (f : A → Interface → result Interface NetApiError) i i' :
  when_some o f i = Ok i' → (∀ x i i', o = Some x → f x i = Ok i' → moves b4 b6 i i') → moves b4 b6 i i'.
Proof. destruct o; simpl; intros H Hf; [by eapply Hf|simplify_eq; reflexivity]. Qed.

Lemma moves_bridge_ports i l i' : set_bridge_port_list i l = Ok i' → moves b4 b6 i i'.
Proof. intros H. unfold set_bridge_port_list in H. binds H. unfold set_bridge_ports in H. case_decide; simplify_eq. by apply moves_fields. Qed.
Lemma moves_slaves i l i' : set_bond_slave_list i l = Ok i' → moves b4 b6 i i'.
Proof. intros H. unfold set_bond_slave_list in H. binds H. unfold set_bond_slaves in H. case_decide; simplify_eq. by apply moves_fields. Qed.
Lemma moves_bond_options u mode i i' : set_bond_options u mode i = Ok i' → moves b4 b6 i i'.
Proof.
  intros H. unfold set_bond_options in H. binds H. etrans; [|eapply (moves_when _ _ _ _ H)].
  - trans (with_bond_mode i (Some mode)); [by apply moves_fields|]. eapply (moves_when _ _ _ _ E).
    intros p j j' _ Hj. simpl in Hj. case_decide; simplify_eq. by apply moves_fields.
  - intros p j j' _ Hj. simpl in Hj. case_decide; simplify_eq. by apply moves_fields.
Qed.
Lemma moves_cidr v6 a i i' : set_cidr_param v6 a i = Ok i' → moves b4 b6 i i'.
Proof.
  intros H. unfold set_cidr_param in H. binds H. case_decide; [|done]. simplify_eq. case_match; by apply moves_fields.
Qed.
Lemma moves_delete i p i' : delete_interface_property i p = Ok i' → moves b4 b6 i i'.
Proof.
  destruct p; simpl; unfold set_bridge_ports, set_bond_slaves; intros H; repeat case_decide; simplify_eq;
    unfold moves; simpl; auto.
Qed.
Lemma moves_deletes i l i' : delete_properties i l = Ok i' → moves b4 b6 i i'.
Proof.
  revert i. induction l as [|p l IH]; simpl; intros i H; [simplify_eq; reflexivity|]. binds H.
  etrans; [by eapply moves_delete|by apply IH].
Qed.
Lemma moves_settle u i i' : settle_methods u i = Ok i' → moves b4 b6 i i'.
Proof. intros H. unfold settle_methods in H. binds H. simplify_eq. by apply moves_fields. Qed.
Lemma moves_typed c iface u t i i' : create_typed c iface u t i = Ok i' → moves b4 b6 i i'.
Proof.
  destruct t; simpl; intros H; try done; binds H; simplify_eq.
  - etrans; [eapply (moves_when _ _ _ _ E); intros; by eapply moves_bridge_ports|]. apply moves_assign. intros. by apply moves_fields.
  - etrans; [eapply (moves_when _ _ _ _ E); intros; by eapply moves_bond_options|].
    eapply (moves_when _ _ _ _ H). intros. by eapply moves_slaves.
  - by apply moves_fields.
Qed.
End Steps.
#[export] Hint Resolve moves_bridge_ports moves_slaves moves_bond_options moves_cidr moves_deletes moves_settle moves_typed
  moves_fields : moves.

(** ** The interface after a call *)

(** The methods say whether an address or gateway is configured. *)
Definition follows_addresses (i : Interface) : Prop :=
  i.(method) ≠ None ∧ (i.(method) = Some Static ↔ has_address i = true) ∧
  i.(method6) ≠ None ∧ (i.(method6) = Some Static ↔ has_address6 i = true).

Lemma method_for_address_static cur b : method_for_address cur b = Static ↔ b = true.
Proof. destruct b; [done|]. destruct cur as [[]|]; done. Qed.

Lemma settle_follows u i i' : settle_methods u i = Ok i' → follows_addresses i'.
Proof.
  intros H. unfold settle_methods in H. binds H. simplify_eq. unfold follows_addresses.
  change (has_address (with_method6 _ _)) with (has_address i). change (has_address6 (with_method6 _ _)) with (has_address6 i).
  split; [done|]. split; [|split; [done|]]; simpl;
    [rewrite <- (method_for_address_static (method i))|rewrite <- (method_for_address_static (method6 i))];
    (split; [by intros [=]|by intros ->]).
Qed.

Section Calls.
Context `{U : UnicodeDigit} `{F : F64Text}.

(** The step of an optional parameter. *)
Ltac moved_param :=
  let x := fresh "x" in let j := fresh "j" in let k := fresh "k" in let Ho := fresh "Ho" in let Hk := fresh "Hk" in
  intros x j k Ho Hk; simpl in Hk;
  first [ by eauto with moves
        | unfold set_gateway_param, set_gateway6_param in Hk; binds Hk; simplify_eq; rewrite Ho; unfold moves; simpl; by auto ].
(** Goes back one step from the interface at the end. *)
Ltac move_back :=
  match goal with
  | |- moves _ _ ?i ?i => reflexivity
  | |- moves _ _ _ (assign _ _ ?j) => trans j; [|apply moves_assign; intros; by apply moves_fields]
  | |- moves _ _ _ (match ?o with Some b => with_autostart ?j b | None => ?j end) =>
      trans j; [|destruct o; [by apply moves_fields|reflexivity]]
  | E : when_some _ _ ?j = Ok ?k |- moves _ _ _ ?k => trans j; [|eapply (moves_when _ _ _ _ _ _ E); moved_param]
  | E : settle_methods _ ?j = Ok ?k |- moves _ _ _ ?k => trans j; [|by eapply moves_settle]
  | E : delete_properties ?j _ = Ok ?k |- moves _ _ _ ?k => trans j; [|by eapply moves_deletes]
  | E : create_typed _ _ _ _ ?j = Ok ?k |- moves _ _ _ ?k => trans j; [|by eapply moves_typed]
  end.

Lemma apply_update_spec u del i i' :
  apply_update u del i = Ok i' →
  moves (is_some u.(up_gateway)) (is_some u.(up_gateway6)) i i' ∧ follows_addresses i'.
Proof.
  intros H. unfold apply_update in H. binds H. simplify_eq. split; [repeat move_back|].
  apply settle_follows in E9. by destruct (up_vlan_raw_device u), (up_vlan_id u).
Qed.

Lemma create_in_config_spec c iface u c' :
  create_in_config c iface u = Ok c' →
  bt_get iface c.(interfaces) = None ∧
  (u.(up_gateway) ≠ None → check_duplicate_gateway_v4 c iface = Ok tt) ∧
  (u.(up_gateway6) ≠ None → check_duplicate_gateway_v6 c iface = Ok tt) ∧
  ∃ i, c' = mkNetwork (bt_insert iface i c.(interfaces)) c.(net_order) ∧
       moves (is_some u.(up_gateway)) (is_some u.(up_gateway6)) (interface_new iface) i ∧ follows_addresses i.
Proof.
  intros H. unfold create_in_config in H. binds H. simplify_eq. split; [|split; [|split]].
  - by destruct (bt_get iface (interfaces c)).
  - destruct (up_gateway u); [intros _|done]. simpl in E4. unfold set_gateway_param in E4. binds E4.
    destruct x9. by apply map_err_ok in E9.
  - destruct (up_gateway6 u); [intros _|done]. simpl in E5. unfold set_gateway6_param in E5. binds E5.
    destruct x9. by apply map_err_ok in E9.
  - exists x7. split; [done|]. split; [|by eapply settle_follows].
    trans (with_interface_type (interface_new iface) x); [by apply moves_fields|]. repeat move_back.
Qed.

Lemma update_in_config_spec c iface u del c' :
  update_in_config c iface u del = Ok c' →
  (u.(up_gateway) ≠ None → check_duplicate_gateway_v4 c iface = Ok tt) ∧
  (u.(up_gateway6) ≠ None → check_duplicate_gateway_v6 c iface = Ok tt) ∧
  ∃ i0 i, bt_get iface c.(interfaces) = Some i0 ∧ c' = mkNetwork (bt_insert iface i c.(interfaces)) c.(net_order) ∧
       moves (is_some u.(up_gateway)) (is_some u.(up_gateway6)) i0 i ∧ follows_addresses i.
Proof.
  intros H. unfold update_in_config in H. binds H. simplify_eq. split; [|split].
  - destruct (up_gateway u); [intros _|done]. destruct x. by apply map_err_ok in E.
  - destruct (up_gateway6 u); [intros _|done]. destruct x0. by apply map_err_ok in E0.
  - exists x2, x3. apply apply_update_spec in E3 as [? ?]. split; [|done].
    by destruct (bt_get iface (interfaces c)); simplify_eq/=.
Qed.

(** ** Unique gateways *)
Definition one_gateway (g : Interface → option rstr) (c : NetworkConfig) : Prop :=
  ∀ n1 i1 n2 i2, (n1, i1) ∈ c.(interfaces) → (n2, i2) ∈ c.(interfaces) →
    g i1 ≠ None → g i2 ≠ None → n1 = n2.

Lemma other_gateway_ok g c iface n i :
  one_gateway g c → other_gateway g c iface = Ok tt → (n, i) ∈ c.(interfaces) → g i ≠ None → n = iface.
Proof.
  intros Hone Hok Hin Hg. unfold other_gateway in Hok.
  destruct (List.find _ (interfaces c)) as [[n' i']|] eqn:E.
  - case_decide; [|done]. subst. apply find_some in E as [E1 E2]. apply list_elem_of_In in E1.
    eapply Hone; [exact Hin|exact E1|done|]. simpl in E2. by destruct (g i').
  - pose proof (find_none _ _ E (n, i)) as Hn. rewrite <- list_elem_of_In in Hn. specialize (Hn Hin). simpl in Hn.
    by destruct (g i).
Qed.

Lemma one_gateway_insert g c iface i :
  one_gateway g c →
  (g i ≠ None → other_gateway g c iface = Ok tt ∨ ∃ i0, (iface, i0) ∈ c.(interfaces) ∧ g i0 ≠ None) →
  one_gateway g (mkNetwork (bt_insert iface i c.(interfaces)) c.(net_order)).
Proof.
  intros Hone Hi.
  assert (∀ n j, (n, j) ∈ c.(interfaces) → g i ≠ None → g j ≠ None → n = iface) as Hold.
  { intros n j Hin Hg Hj. destruct (Hi Hg) as [Ho|(i0 & H0 & Hg0)].
    - by eapply other_gateway_ok.
    - by eapply Hone. }
  intros n1 i1 n2 i2 H1 H2 G1 G2. simpl in *.
  apply elem_of_bt_insert in H1 as [[-> ->]|H1], H2 as [[-> ->]|H2];
    [done|symmetry; by eapply Hold|by eapply Hold|by eapply Hone].
Qed.

(** ** Ports *)
Definition interface_ports (ni : rstr * Interface) : list rstr := default [] ni.2.(bridge_ports) ++ default [] ni.2.(slaves).
Definition all_ports (c : NetworkConfig) : list rstr := flat_map interface_ports c.(interfaces).

Lemma use_ports_ok used l used' :
  use_ports used l = Ok used' → NoDup l ∧ (∀ p, p ∈ l → p ∉ used) ∧ (∀ p, p ∈ used' ↔ p ∈ l ∨ p ∈ used).
Proof.
  revert used. induction l as [|p l IH]; simpl; intros used H.
  { simplify_eq. split; [constructor|]. split; [by intros ? ?%not_elem_of_nil|]. set_solver. }
  case_decide as Hp; [done|]. apply IH in H as (H1 & H2 & H3). split; [|split].
  - constructor; [|done]. intros Hin. apply (H2 _ Hin). set_solver.
  - intros q [->|Hq]%elem_of_cons; [done|]. intros Hu. apply (H2 _ Hq). set_solver.
  - intros q. rewrite H3. set_solver.
Qed.

Lemma port_usage_ok used l :
  port_usage used l = Ok tt → NoDup (flat_map interface_ports l) ∧ (∀ p, p ∈ flat_map interface_ports l → p ∉ used).
Proof.
  revert used. induction l as [|[n i] l IH]; simpl; intros used H; [split; [constructor|by intros ? ?%not_elem_of_nil]|].
  binds H. apply use_ports_ok in E as (A1 & A2 & A3), E0 as (B1 & B2 & B3). apply IH in H as (C1 & C2).
  unfold interface_ports at 1 3. simpl. split.
  - apply NoDup_app. split; [apply NoDup_app; split; [done|]; split; [|done]|split; [|done]].
    + intros p Hp Hp'. apply (B2 _ Hp'). set_solver.
    + intros p Hp Hp'. apply (C2 _ Hp'). set_solver.
  - intros p. rewrite !elem_of_app. intros [[Hp|Hp]|Hp] Hu; [by apply (A2 _ Hp)|apply (B2 _ Hp); set_solver|].
    apply (C2 _ Hp). set_solver.
Qed.

(** ** The calls *)
Section Files.
Context (sha256 : rstr → list N) (links : list (rstr * IpLink)).
Abbreviation config := (config sha256 links).

(** A call changes the file of the next reload only, from the configuration [c] it
    has read to [c'], which differs at one interface. *)
Record changed (f f' : NetworkFiles) (iface : rstr) (c c' : NetworkConfig) : Prop := {
  changed_files : f' = mkFiles f.(nf_interfaces) (Some (unlines (write_lines c')));
  changed_order : c'.(net_order) = c.(net_order);
  changed_others n : n ≠ iface → bt_get n c'.(interfaces) = bt_get n c.(interfaces);
  changed_iface : ∃ i, bt_get iface c'.(interfaces) = Some i ∧ follows_addresses i;
  changed_gateway : one_gateway gateway c → one_gateway gateway c';
  changed_gateway6 : one_gateway gateway6 c → one_gateway gateway6 c';
  changed_ports : NoDup (all_ports c')
}.

Lemma save_config_ok f c f' :
  save_config f c = Ok f' → f' = mkFiles f.(nf_interfaces) (Some (unlines (write_lines c))) ∧ NoDup (all_ports c).
Proof.
  intros H. unfold save_config in H. binds H. apply map_err_ok in E. unfold write_config in E. binds E. simplify_eq.
  split; [done|]. destruct x0. by apply port_usage_ok in E0 as [? _].
Qed.

End Files.
End Calls.

(** ** Examples *)
Definition empty_updater : InterfaceUpdater :=
  mkUpdater None None None None None None None None None None None None None None None None None None None.
Definition example_files : NetworkFiles :=
  mkFiles (Some (unlines [lit "iface eth0 inet manual"; lit "iface vmbr0 inet dhcp"; 9%N :: lit "bridge-ports eth0"])) None.


(** Deleting the method does not remove the entry of the address family: the
    interface gets the method manual. *)
Lemma delete_method_keeps_entry :
  match config (U := ascii_digits) (λ s, s) [] example_files with
  | Ok (c, _) =>
      match update_in_config (U := ascii_digits) (F := f64_text) c (lit "vmbr0") empty_updater (Some [DMethod]) with
      | Ok c' => method <$> bt_get (lit "vmbr0") c'.(interfaces) = Some (Some Manual)
      | Err _ => False
      end
  | Err _ => False
  end.
Proof. by vm_compute. Qed.
