(* ===== verification/Backup.v ===== *)
(** * Backup: namespaces, groups, snapshots, filters and archive names

    Models the backup types of [pbs-api-types/src/datastore.rs], the regular
    expressions of [lib.rs] they use, the group filters of [jobs.rs] and the
    maintenance modes of [maintenance.rs]. A [Path] is its text; what the code
    uses of it are its components. A result of type [usize] has no bound here:
    the lengths it counts are those of texts in memory. *)
From S2P Require Import Prelude Schema Gregorian TmEditor Rfc3339 DebVersion Notify.

Inductive BackupError :=
| NamespaceSlash | NamespaceTooDeep | NamespaceTooLong | BadNamespaceComponent (subdir : rstr)
| BadNamespacePath (path : rstr) | NotAPrefix | DepthExceeded
| BadBackupType (ty : rstr) | BadGroupPath (path : rstr) | BadSnapshotPath (path : rstr) | BadTime (e : TimeError)
| FormatFailed | BadFilter | BadFilterPrefix (ty : rstr) | BadRegex
| UnknownArchiveType | ArchiveIsDirectory | BadArchiveName
| BeingDeleted | BeingUnmounted | OfflineMode | S3RefreshMode | ReadOnlyMode
| NestedOnDevice (store : rstr) | NestedDatastore (store : rstr)
| BackupOutOfFuel.

Abbreviation slash := 47%N.

(** ** Paths: [Path::components] and what is built on it *)
Module Path.
Inductive Component := RootDir | CurDir | ParentDir | Normal (name : rstr).
#[export] Instance Component_eq_dec : EqDecision Component.
Proof. solve_decision. Defined.

Definition component (s : rstr) : Component := if decide (s = lit "..") then ParentDir else Normal s.

(** Empty segments and the segments that name the current directory are skipped,
    except for the latter at the start of a relative path. *)
Definition components (path : rstr) : list Component :=
  let segments := split_on slash path in
  let rest := map component (filter (λ s, s ≠ [] ∧ s ≠ lit ".") segments) in
  match segments with
  | [] :: _ :: _ => RootDir :: rest
  | s :: _ => if decide (s = lit ".") then CurDir :: rest else rest
  | [] => rest
  end.

Definition starts_with (path base : rstr) : bool := bool_decide (components base `prefix_of` components path).

Definition file_name (path : rstr) : option rstr :=
  match last (components path) with
  | Some (Normal s) => Some s
  | _ => None
  end.

(** The text behind the last dot of the file name, if there is one before which
    the name has any characters. *)
Definition extension (path : rstr) : option rstr :=
  match file_name path with
  | Some name =>
      match rposition 46%N name with
      | Some (S _ as i) => Some (drop (S i) name)
      | _ => None
      end
  | None => None
  end.
End Path.

(** ** Namespaces *)
Record BackupNamespace := mkNs { inner : list rstr; len : N }.
#[export] Instance BackupNamespace_eq_dec : EqDecision BackupNamespace.
Proof. solve_decision. Defined.

Definition MAX_NAMESPACE_DEPTH : nat := 7.
Definition MAX_BACKUP_NAMESPACE_LENGTH : N := 256.

Definition ns_root : BackupNamespace := mkNs [] 0.
Definition is_root (ns : BackupNamespace) : bool := bool_decide (ns.(inner) = []).
Definition depth (ns : BackupNamespace) : nat := length ns.(inner).
Definition name_len (ns : BackupNamespace) : N := ns.(len).
Definition path_len (ns : BackupNamespace) : N := (name_len ns + 3 * N.of_nat (length ns.(inner)))%N.

Definition push_do (ns : BackupNamespace) (subdir : rstr) : result BackupNamespace BackupError :=
  if MAX_NAMESPACE_DEPTH <=? depth ns then Err NamespaceTooDeep
  else if (MAX_BACKUP_NAMESPACE_LENGTH <? ns.(len) + utf8_len subdir + 1)%N then Err NamespaceTooLong
  else if negb (SAFE_ID_REGEX subdir) then Err (BadNamespaceComponent subdir)
  else
    let len := if bool_decide (ns.(inner) = []) then ns.(len) else (ns.(len) + 1)%N in
    Ok (mkNs (ns.(inner) ++ [subdir]) (len + utf8_len subdir)%N).

Definition push (ns : BackupNamespace) (subdir : rstr) : result BackupNamespace BackupError :=
  if bool_decide (slash ∈ subdir) then Err NamespaceSlash else push_do ns subdir.

Fixpoint push_all (ns : BackupNamespace) (names : list rstr) : result BackupNamespace BackupError :=
  match names with
  | [] => Ok ns
  | name :: names' => let? ns' := push ns name in push_all ns' names'
  end.

Definition ns_new (name : rstr) : result BackupNamespace BackupError :=
  match name with
  | [] => Ok ns_root
  | _ => push_all ns_root (split_on slash name)
  end.

(** Every turn of the loop consumes the prefix [ns/]. *)
Fixpoint from_path_loop (fuel : nat) (this : BackupNamespace) (path : rstr) : result BackupNamespace BackupError :=
  match fuel with
  | 0 => Err BackupOutOfFuel
  | S fuel =>
      match strip_prefix (lit "ns/") path with
      | Some next =>
          match position slash next with
          | Some pos =>
              let? this := push this (take pos next) in
              from_path_loop fuel this (drop (S pos) next)
          | None => push this next
          end
      | None => match path with [] => Ok this | _ => Err (BadNamespacePath path) end
      end
  end.
Definition ns_from_path (path : rstr) : result BackupNamespace BackupError :=
  from_path_loop (S (length path)) ns_root path.

Definition from_parent_ns (parent : BackupNamespace) (name : rstr) : result BackupNamespace BackupError := push parent name.

Definition pop (ns : BackupNamespace) : option rstr * BackupNamespace :=
  match last ns.(inner) with
  | Some dropped => (Some dropped, mkNs (removelast ns.(inner)) (ns.(len) - (utf8_len dropped + 1))%N)
  | None => (None, ns)
  end.

Definition parent (ns : BackupNamespace) : BackupNamespace := if is_root ns then ns_root else (pop ns).2.

Definition recalculate_len (inner : list rstr) : N :=
  foldl (λ len part, len + utf8_len part)%N (N.max (N.of_nat (length inner)) 1 - 1)%N inner.
Definition from_vec_unchecked (components : list rstr) : BackupNamespace := mkNs components (recalculate_len components).

(** [slice::strip_prefix] *)
Fixpoint strip_components (p l : list rstr) : option (list rstr) :=
  match p, l with
  | [], _ => Some l
  | x :: p', y :: l' => if decide (x = y) then strip_components p' l' else None
  | _ :: _, [] => None
  end.

Definition map_prefix (ns source_prefix target_prefix : BackupNamespace) : result BackupNamespace BackupError :=
  match strip_components source_prefix.(inner) ns.(inner) with
  | Some suffix => push_all target_prefix suffix
  | None => Err NotAPrefix
  end.

Definition check_max_depth (ns : BackupNamespace) (d : nat) : result unit BackupError :=
  if MAX_NAMESPACE_DEPTH <? depth ns + d then Err DepthExceeded else Ok tt.

Definition acl_path_extend (ns : BackupNamespace) (path : list rstr) : list rstr :=
  if is_root ns then path else path ++ ns.(inner).
Definition acl_path (ns : BackupNamespace) (store : rstr) : list rstr := acl_path_extend ns [lit "datastore"; store].
Definition remote_acl_path (ns : BackupNamespace) (remote store : rstr) : list rstr :=
  acl_path_extend ns [lit "remote"; remote; store].

Definition contains (ns other : BackupNamespace) : option nat := length <$> strip_components ns.(inner) other.(inner).

(** [Display] for the namespace and for its path. *)
Definition ns_to_string (ns : BackupNamespace) : rstr :=
  match ns.(inner) with
  | [] => []
  | first :: parts => first ++ flat_map (λ part, slash :: part) parts
  end.

Fixpoint display_parts (sep : rstr) (parts : list rstr) : rstr :=
  match parts with
  | [] => []
  | part :: parts' => sep ++ part ++ display_parts (lit "/ns/") parts'
  end.
Definition display_as_path (ns : BackupNamespace) : rstr := display_parts (lit "ns/") ns.(inner).

Definition print_store_and_ns (store : rstr) (ns : BackupNamespace) : rstr :=
  if is_root ns then lit "datastore '" ++ store ++ lit "', root namespace"
  else lit "datastore '" ++ store ++ lit "', namespace '" ++ ns_to_string ns ++ lit "'".

(** [BACKUP_NAMESPACE_SCHEMA]: up to eight components, at most 256 characters. *)
Definition BACKUP_NAMESPACE_REGEX (s : rstr) : bool :=
  match s with
  | [] => true
  | _ => let parts := split_on slash s in forallb SAFE_ID_REGEX parts && (length parts <=? 8)
  end.
Definition BACKUP_NAMESPACE_SCHEMA : StringSchema :=
  {| min_length := None; max_length := Some 256%N; format := Some (Pattern BACKUP_NAMESPACE_REGEX);
     format_is_optional := false |}.

(** ** Backup types and groups *)
Inductive BackupType := Vm | Ct | Host.
#[export] Instance BackupType_eq_dec : EqDecision BackupType.
Proof. solve_decision. Defined.

Definition type_as_str (ty : BackupType) : rstr :=
  match ty with Vm => lit "vm" | Ct => lit "ct" | Host => lit "host" end.
Definition type_order (ty : BackupType) : N := match ty with Ct => 0 | Host => 1 | Vm => 2 end.
Definition type_cmp (a b : BackupType) : comparison := N.compare (type_order a) (type_order b).
Definition type_from_str (s : rstr) : result BackupType BackupError :=
  if decide (s = lit "ct") then Ok Ct
  else if decide (s = lit "host") then Ok Host
  else if decide (s = lit "vm") then Ok Vm
  else Err (BadBackupType s).

Definition BACKUP_TYPE_RE (s : rstr) : bool := bool_decide (s ∈ [lit "host"; lit "vm"; lit "ct"]).
Definition BACKUP_ID_RE (s : rstr) : bool :=
  match s with
  | [] => false
  | c :: s' => safe_id_first c && forallb safe_id_rest s'
  end.
(** The digits and the separators of a time stamp in UTC. *)
Definition BACKUP_TIME_RE (s : rstr) : bool :=
  bool_decide (length s = 20) &&
  forallb (λ ic, match ic.1 with
                 | 4 | 7 => (ic.2 =? 45)%N
                 | 10 => (ic.2 =? 84)%N
                 | 13 | 16 => (ic.2 =? 58)%N
                 | 19 => (ic.2 =? 90)%N
                 | _ => is_ascii_digit ic.2
                 end) (zip (seq 0 20) s).

Record BackupGroup := mkGroup { ty : BackupType; id : rstr }.
#[export] Instance BackupGroup_eq_dec : EqDecision BackupGroup.
Proof. solve_decision. Defined.

Definition group_to_string (g : BackupGroup) : rstr := type_as_str g.(ty) ++ slash :: g.(id).

(** The captures of [GROUP_PATH_REGEX]: neither group can hold a slash. *)
Definition GROUP_PATH_captures (path : rstr) : option (rstr * rstr) :=
  match split_once slash path with
  | Some (t, i) => if BACKUP_TYPE_RE t && BACKUP_ID_RE i then Some (t, i) else None
  | None => None
  end.
Definition group_from_str (path : rstr) : result BackupGroup BackupError :=
  match GROUP_PATH_captures path with
  | Some (t, i) => let? ty := type_from_str t in Ok (mkGroup ty i)
  | None => Err (BadGroupPath path)
  end.

Definition group_cmp (a b : BackupGroup) : comparison :=
  match type_cmp a.(ty) b.(ty) with
  | Eq =>
      match parse_uint u64_max a.(id), parse_uint u64_max b.(id) with
      | Some i, Some j => N.compare i j
      | Some _, None => Lt
      | None, Some _ => Gt
      | None, None => str_compare a.(id) b.(id)
      end
  | o => o
  end.

(** ** Snapshots *)
Record BackupDir := mkDir { group : BackupGroup; time : Z }.
#[export] Instance BackupDir_eq_dec : EqDecision BackupDir.
Proof. solve_decision. Defined.
(** The derived order: the group first. *)
Definition dir_cmp (a b : BackupDir) : comparison :=
  match group_cmp a.(group) b.(group) with Eq => Z.compare a.(time) b.(time) | o => o end.

Inductive BackupPart := PartGroup (g : BackupGroup) | PartDir (d : BackupDir).

(** The captures of [GROUP_OR_SNAPSHOT_PATH_REGEX]; those of
    [SNAPSHOT_PATH_REGEX] are the ones with a time. *)
Definition GROUP_OR_SNAPSHOT_captures (path : rstr) : option (rstr * rstr * option rstr) :=
  match split_once slash path with
  | Some (t, rest) =>
      if BACKUP_TYPE_RE t then
        match split_once slash rest with
        | Some (i, tm) => if BACKUP_ID_RE i && BACKUP_TIME_RE tm then Some (t, i, Some tm) else None
        | None => if BACKUP_ID_RE rest then Some (t, rest, None) else None
        end
      else None
  | None => None
  end.
Definition SNAPSHOT_PATH_captures (path : rstr) : option (rstr * rstr * rstr) :=
  match GROUP_OR_SNAPSHOT_captures path with
  | Some (t, i, Some tm) => Some (t, i, tm)
  | _ => None
  end.

Section Snapshots.
Context `{Libc} `{Strftime}.

Definition with_rfc3339 (ty : BackupType) (id backup_time_string : rstr) : result BackupDir BackupError :=
  match parse_rfc3339 backup_time_string with
  | Ok time => Ok (mkDir (mkGroup ty id) time)
  | Err e => Err (BadTime e)
  end.

Definition dir_from_str (path : rstr) : result BackupDir BackupError :=
  match SNAPSHOT_PATH_captures path with
  | Some (t, i, tm) => let? ty := type_from_str t in with_rfc3339 ty i tm
  | None => Err (BadSnapshotPath path)
  end.

(** [to_string] panics on the error of [Display]. *)
Definition dir_to_string (d : BackupDir) : result rstr BackupError :=
  match epoch_to_rfc3339_utc d.(time) with
  | Ok time => Ok (group_to_string d.(group) ++ slash :: time)
  | Err _ => Err FormatFailed
  end.

Definition part_from_str (path : rstr) : result BackupPart BackupError :=
  match GROUP_OR_SNAPSHOT_captures path with
  | Some (t, i, time) =>
      let? ty := type_from_str t in
      match time with
      | Some time => let? d := with_rfc3339 ty i time in Ok (PartDir d)
      | None => Ok (PartGroup (mkGroup ty i))
      end
  | None => Err (BadSnapshotPath path)
  end.

(** [rmatch_indices('/').nth(n)] *)
Fixpoint rmatch_nth (n : nat) (s : rstr) : option nat :=
  match rposition slash s with
  | None => None
  | Some i => match n with 0 => Some i | S n => rmatch_nth n (take i s) end
  end.

Definition parse_ns_and_snapshot (input : rstr) : result (BackupNamespace * BackupDir) BackupError :=
  match rmatch_nth 2 input with
  | Some idx =>
      let? ns := ns_from_path (take idx input) in
      let? dir := dir_from_str (drop (S idx) input) in
      Ok (ns, dir)
  | None => let? dir := dir_from_str input in Ok (ns_root, dir)
  end.

Definition print_ns_and_snapshot (ns : BackupNamespace) (dir : BackupDir) : result rstr BackupError :=
  let? d := dir_to_string dir in
  Ok (if is_root ns then d else display_as_path ns ++ slash :: d).
End Snapshots.

(** ** Group filters *)
Section Filters.
Context {R : RegexLib}.

Inductive FilterType :=
| FilterBackupType (ty : BackupType)
| FilterGroup (backup_group : rstr)
| FilterRegex (regex : Regex).

Record GroupFilter := mkFilter { is_exclude : bool; filter_type : FilterType }.

(** [BACKUP_GROUP_SCHEMA] is a string of the pattern [GROUP_PATH_REGEX]. *)
Definition BACKUP_GROUP_SCHEMA : StringSchema :=
  {| min_length := None; max_length := None; format_is_optional := false;
     format := Some (Pattern (λ s, bool_decide (is_Some (GROUP_PATH_captures s)))) |}.

Definition filter_type_from_str (s : rstr) : result FilterType BackupError :=
  match split_once 58%N s with
  | Some (p, value) =>
      if decide (p = lit "group") then
        match check_constraints BACKUP_GROUP_SCHEMA value with
        | Ok _ => Ok (FilterGroup value)
        | Err _ => Err BadFilter
        end
      else if decide (p = lit "type") then let? ty := type_from_str value in Ok (FilterBackupType ty)
      else if decide (p = lit "regex") then
        match regex_new value with
        | Some regex => Ok (FilterRegex regex)
        | None => Err BadRegex
        end
      else Err (BadFilterPrefix p)
  | None => Err BadFilter
  end.

Definition filter_type_to_string (f : FilterType) : rstr :=
  match f with
  | FilterBackupType ty => lit "type:" ++ type_as_str ty
  | FilterGroup g => lit "group:" ++ g
  | FilterRegex regex => lit "regex:" ++ regex_as_str regex
  end.

Definition filter_from_str (s : rstr) : result GroupFilter BackupError :=
  let '(is_exclude, type_str) :=
    match split_once 58%N s with
    | Some (p, value) =>
        if decide (p = lit "include") then (false, value)
        else if decide (p = lit "exclude") then (true, value)
        else (false, s)
    | None => (false, s)
    end in
  let? f := filter_type_from_str type_str in
  Ok (mkFilter is_exclude f).

Definition filter_to_string (f : GroupFilter) : rstr :=
  (if f.(is_exclude) then lit "exclude:" else []) ++ filter_type_to_string f.(filter_type).

Definition group_matches (g : BackupGroup) (f : GroupFilter) : bool :=
  match f.(filter_type) with
  | FilterGroup backup_group =>
      match group_from_str backup_group with
      | Ok group => bool_decide (g = group)
      | Err _ => false
      end
  | FilterBackupType t => bool_decide (g.(ty) = t)
  | FilterRegex regex => regex_is_match regex (group_to_string g)
  end.

Definition apply_filters (g : BackupGroup) (filters : list GroupFilter) : bool :=
  let includes := List.filter (λ f, negb f.(is_exclude)) filters in
  let excludes := List.filter is_exclude filters in
  let is_included := if bool_decide (length includes = 0) then true else existsb (group_matches g) includes in
  is_included && negb (existsb (group_matches g) excludes).
End Filters.

(** ** Names of archives *)
Inductive ArchiveType := FixedIndex | DynamicIndex | Blob.
#[export] Instance ArchiveType_eq_dec : EqDecision ArchiveType.
Proof. solve_decision. Defined.

Definition archive_extension (ty : ArchiveType) : rstr :=
  match ty with DynamicIndex => lit "didx" | FixedIndex => lit "fidx" | Blob => lit "blob" end.

(** The type that an extension stands for in a table of extensions. *)
Definition type_of_extension (table : list (rstr * ArchiveType)) (path : rstr) : option ArchiveType :=
  match Path.extension path with
  | Some ext => bt_get ext table
  | None => None
  end.

Definition archive_from_path (archive_name : rstr) : result ArchiveType BackupError :=
  ok_or (type_of_extension [(lit "didx", DynamicIndex); (lit "fidx", FixedIndex); (lit "blob", Blob)] archive_name)
        UnknownArchiveType.

Record BackupArchiveName := mkArchive { archive_name : rstr; archive_ty : ArchiveType }.
#[export] Instance BackupArchiveName_eq_dec : EqDecision BackupArchiveName.
Proof. solve_decision. Defined.

Definition MANIFEST_BLOB_NAME := mkArchive (lit "index.json.blob") Blob.
Definition CATALOG_NAME := mkArchive (lit "catalog.pcat1.didx") DynamicIndex.
Definition CLIENT_LOG_BLOB_NAME := mkArchive (lit "client.log.blob") Blob.
Definition ENCRYPTED_KEY_BLOB_NAME := mkArchive (lit "rsa-encrypted.key.blob") Blob.

Definition client_extensions : list (rstr * ArchiveType) :=
  [(lit "pxar", DynamicIndex); (lit "mpxar", DynamicIndex); (lit "ppxar", DynamicIndex); (lit "pcat1", DynamicIndex);
   (lit "img", FixedIndex); (lit "conf", Blob); (lit "json", Blob); (lit "key", Blob); (lit "log", Blob)].

Definition parse_archive_type (name : rstr) : result (rstr * ArchiveType) BackupError :=
  match archive_from_path name with
  | Ok ty => Ok (name, ty)
  | Err _ =>
      match type_of_extension client_extensions name with
      | Some ty => Ok (name ++ 46%N :: archive_extension ty, ty)
      | None => Err BadArchiveName
      end
  end.

Definition archive_try_from (value : rstr) : result BackupArchiveName BackupError :=
  let? nt := parse_archive_type value in Ok (mkArchive nt.1 nt.2).

Definition archive_name_from_path (path : rstr) : result BackupArchiveName BackupError :=
  if bool_decide (last path = Some slash) then Err ArchiveIsDirectory
  else match Path.file_name path with
       | Some name => archive_try_from name
       | None => Err BadArchiveName
       end.

Definition ends_with (s postfix : rstr) : bool := bool_decide (postfix `suffix_of` s).
Definition has_pxar_filename_extension (a : BackupArchiveName) : bool :=
  ends_with a.(archive_name) (lit ".pxar.didx") || ends_with a.(archive_name) (lit ".mpxar.didx")
  || ends_with a.(archive_name) (lit ".ppxar.didx").

(** [str::strip_suffix] *)
Definition strip_suffix (suffix s : rstr) : option rstr := reverse <$> strip_prefix (reverse suffix) (reverse s).

(** [None] is the panic of [unwrap]. *)
Definition without_type_extension (a : BackupArchiveName) : option rstr :=
  strip_suffix (46%N :: archive_extension a.(archive_ty)) a.(archive_name).

Definition BACKUP_ARCHIVE_NAME_SCHEMA : StringSchema :=
  {| min_length := None; max_length := None; format := Some (Pattern SAFE_ID_REGEX); format_is_optional := false |}.

Definition try_from_strict (value : rstr) : result BackupArchiveName BackupError :=
  match check_constraints BACKUP_ARCHIVE_NAME_SCHEMA value with
  | Err _ => Err BadArchiveName
  | Ok _ => let? ty := archive_from_path value in Ok (mkArchive value ty)
  end.
