(* ===== verification/BackupTheory.v ===== *)
(** * BackupTheory: texts of namespaces, snapshots, filters and archives

    The properties of [Backup]: a namespace stays within its limits and its
    cached length is right, its two texts name it uniquely, mapping a prefix can
    be undone; a printed snapshot is read back with its namespace; a filter is
    read back; the name of an archive keeps its type. *)
From S2P Require Import Prelude Schema Gregorian TmEditor Rfc3339 DebVersion Notify NotifyTheory Backup.

(** ** Searching in texts *)
(** ** Namespaces *)
Lemma utf8_len_app s t : utf8_len (s ++ t) = (utf8_len s + utf8_len t)%N.
Proof. induction s as [|c s IH]; simpl; [done|]. rewrite IH. lia. Qed.

Definition ns_text (l : list rstr) : rstr := join_with [slash] l.

(** What the limits allow: the room for a separator is demanded of the first
    component too. *)
Definition valid_components (l : list rstr) : Prop :=
  Forall (λ c, SAFE_ID_REGEX c = true) l ∧ length l ≤ MAX_NAMESPACE_DEPTH ∧
  (utf8_len (ns_text l) + (if bool_decide (length l = 1%nat) then 1 else 0) ≤ MAX_BACKUP_NAMESPACE_LENGTH)%N.

Definition ns_wf (ns : BackupNamespace) : Prop :=
  valid_components ns.(inner) ∧ ns.(len) = utf8_len (ns_text ns.(inner)).

Lemma ns_text_snoc l x :
  ns_text (l ++ [x]) = match l with [] => x | _ => ns_text l ++ slash :: x end.
Proof.
  unfold ns_text. induction l as [|y l IH]; [done|]. destruct l as [|z l]; [done|].
  cbn [app join_with] in *. rewrite IH. cbn [join_with]. by rewrite <- !app_assoc.
Qed.

Lemma utf8_len_text_snoc l x :
  utf8_len (ns_text (l ++ [x])) =
  ((if bool_decide (l = []) then utf8_len (ns_text l) else utf8_len (ns_text l) + 1) + utf8_len x)%N.
Proof.
  rewrite ns_text_snoc. destruct l as [|y l]; [done|]. rewrite utf8_len_app, bool_decide_false by done.
  cbn [utf8_len foldr]. change (utf8_width slash) with 1%N. fold (utf8_len x). lia.
Qed.

Lemma safe_id_no_slash s : SAFE_ID_REGEX s = true → slash ∉ s.
Proof. intros H. by eapply SAFE_ID_not_in. Qed.
#[export] Hint Resolve safe_id_no_slash : rust.

Lemma ns_wf_root : ns_wf ns_root.
Proof. repeat split; [constructor|vm_compute; lia|vm_compute; discriminate]. Qed.
#[export] Hint Resolve ns_wf_root : rust.

Lemma ns_eq ns ns' : ns_wf ns → ns_wf ns' → ns.(inner) = ns'.(inner) → ns = ns'.
Proof. intros [_ H1] [_ H2]. destruct ns, ns'; simpl in *. by intros ->; subst. Qed.

Lemma valid_components_init l x : valid_components (l ++ [x]) → valid_components l.
Proof.
  intros (Hs & Hd & Hl). apply Forall_app in Hs as [Hs _]. rewrite length_app in Hd. simpl in Hd.
  split; [done|split; [lia|]]. rewrite utf8_len_text_snoc in Hl. revert Hl.
  destruct l as [|y l]; [vm_compute; discriminate|].
  rewrite (bool_decide_false (y :: l = [])), (bool_decide_false (length ((y :: l) ++ [x]) = 1))
    by (rewrite ?length_app; simpl; done || lia).
  case_bool_decide; lia.
Qed.

Lemma valid_components_prefix l1 l2 : valid_components (l1 ++ l2) → valid_components l1.
Proof.
  induction l2 as [|x l2 IH] using rev_ind; [by rewrite app_nil_r|].
  rewrite app_assoc. intros H%valid_components_init. auto.
Qed.

(** A component can be pushed exactly if the result is within the limits. *)
Lemma push_iff ns x ns' :
  ns_wf ns → push ns x = Ok ns' ↔ ns_wf ns' ∧ ns'.(inner) = ns.(inner) ++ [x].
Proof.
  intros [(Hs & Hd & Hl) Hlen]. unfold push, push_do, depth. split.
  - intros H. case_bool_decide as Hslash; [done|].
    destruct (Nat.leb_spec MAX_NAMESPACE_DEPTH (length ns.(inner))) as [|Hdeep]; [done|].
    destruct (N.ltb_spec MAX_BACKUP_NAMESPACE_LENGTH (ns.(len) + utf8_len x + 1)) as [|Hlong]; [done|].
    destruct (SAFE_ID_REGEX x) eqn:Hx; [|done]. simplify_eq/=. unfold ns_wf, valid_components. cbn [inner len].
    rewrite utf8_len_text_snoc, length_app, Hlen in *. split; [|done]. split; [split; [|split; [simpl; lia|]]|by case_bool_decide].
    + apply Forall_app; auto.
    + destruct (inner ns) as [|y l]; simpl in *; [lia|]. rewrite bool_decide_false by lia. lia.
  - intros [[(Hs' & Hd' & Hl') Hlen'] Hi]. rewrite Hi in Hs', Hd', Hl', Hlen'. rewrite length_app in Hd'. simpl in Hd'.
    apply Forall_app in Hs' as [_ Hx]. rewrite Forall_singleton in Hx.
    rewrite bool_decide_false by auto with rust. rewrite (proj2 (Nat.leb_gt _ _)) by lia.
    rewrite utf8_len_text_snoc in Hl', Hlen'. rewrite (proj2 (N.ltb_ge _ _)).
    2:{ destruct (inner ns) as [|y l]; simpl in Hl'; [rewrite Hlen; simpl; lia|]. case_bool_decide; lia. }
    rewrite Hx. simpl. rewrite Hlen, <- Hi. destruct ns' as [i' l']; simpl in *. f_equal. f_equal.
    rewrite Hlen'. by case_bool_decide.
Qed.

Lemma push_all_iff l : ∀ ns ns',
  ns_wf ns → push_all ns l = Ok ns' ↔ ns_wf ns' ∧ ns'.(inner) = ns.(inner) ++ l.
Proof.
  induction l as [|x l IH]; intros ns ns' Hns; simpl.
  - rewrite app_nil_r. split; [by intros [= <-]|]. intros [H1 H2]. f_equal. by apply ns_eq.
  - split.
    + destruct (push ns x) as [ns1|] eqn:E; [|done]. simpl. apply push_iff in E as [H1 E]; [|done].
      rewrite IH by done. rewrite E, <- app_assoc. done.
    + intros [H1 H2].
      assert (ns_wf (mkNs (ns.(inner) ++ [x]) (utf8_len (ns_text (ns.(inner) ++ [x]))))) as H3.
      { split; [|done]. simpl. destruct H1 as [H1 _]. rewrite H2, cons_middle, app_assoc in H1.
        by apply valid_components_prefix in H1. }
      rewrite (proj2 (push_iff ns x _ Hns) (conj H3 eq_refl)). simpl. rewrite IH by done. split; [done|].
      simpl. by rewrite <- app_assoc.
Qed.

Lemma ns_to_string_text ns : ns_to_string ns = ns_text ns.(inner).
Proof.
  unfold ns_to_string, ns_text. destruct (inner ns) as [|x l]; [done|].
  revert x. induction l as [|y l IH]; intros x; [by simpl; rewrite app_nil_r|].
  change (x ++ slash :: (y ++ flat_map (λ part, slash :: part) l) = x ++ [slash] ++ join_with [slash] (y :: l)).
  by rewrite <- IH.
Qed.

Lemma valid_no_slash l : valid_components l → Forall (λ w, slash ∉ w) l.
Proof. intros [H _]. eapply Forall_impl; [done|]. simpl; auto with rust. Qed.

Lemma ns_text_nil ns : ns_wf ns → ns_text ns.(inner) = [] → ns = ns_root.
Proof.
  intros Hns H. apply ns_eq; [done|auto with rust|]. destruct Hns as [(Hs & _) _].
  destruct (inner ns) as [|x l]; [done|]. apply Forall_cons in Hs as [Hx%SAFE_ID_nonempty _].
  unfold ns_text in H. destruct l; simpl in H; [done|]. by apply app_eq_nil in H as [].
Qed.

Lemma ns_new_iff s ns : ns_new s = Ok ns ↔ ns_wf ns ∧ ns_to_string ns = s.
Proof.
  rewrite ns_to_string_text. destruct s as [|c s].
  - split; [intros [= <-]; auto with rust|]. intros [H1 H2]. by rewrite (ns_text_nil ns).
  - change (ns_new (c :: s)) with (push_all ns_root (split_on slash (c :: s))).
    rewrite push_all_iff by auto with rust. cbn [inner ns_root app]. split; intros [H1 H2]; split; try done.
    + rewrite H2. apply join_split_on.
    + rewrite <- H2. symmetry. apply split_on_join; [|by apply valid_no_slash, H1].
      by intros E; rewrite E in H2.
Qed.

(** *** Paths *)
Definition path_text (l : list rstr) : rstr := display_parts (lit "ns/") l.

Lemma path_text_cons x l :
  path_text (x :: l) = lit "ns/" ++ x ++ match l with [] => [] | _ => slash :: path_text l end.
Proof. by destruct l. Qed.

(** The texts that name the components: with or without a slash at the end. *)
Definition path_of (p : rstr) (l : list rstr) : Prop :=
  p = path_text l ∨ (l ≠ [] ∧ p = path_text l ++ [slash]).

Lemma path_of_cons p x l :
  path_of p (x :: l) ↔
  (p = lit "ns/" ++ x ∧ l = []) ∨ (∃ p', p = lit "ns/" ++ x ++ slash :: p' ∧ path_of p' l).
Proof.
  unfold path_of. rewrite path_text_cons. split.
  - intros [->|[_ ->]].
    + destruct l; [left; by rewrite app_nil_r|]. right. eauto.
    + right. destruct l.
      * exists []. split; [by rewrite app_nil_r, <- app_assoc|by left].
      * eexists. split; [by rewrite <- !app_assoc|]. by right.
  - intros [[-> ->]|(p' & -> & [->|[Hl ->]])]; [left; by rewrite app_nil_r| |].
    + destruct l; [right; split; [done|]; by rewrite app_nil_r, <- app_assoc|by left].
    + right. split; [done|]. destruct l; [done|]. by rewrite <- !app_assoc.
Qed.

Lemma from_path_loop_iff fuel : ∀ this p ns,
  ns_wf this → length p < fuel →
  from_path_loop fuel this p = Ok ns ↔ ∃ l, path_of p l ∧ ns_wf ns ∧ ns.(inner) = this.(inner) ++ l.
Proof.
  induction fuel as [|fuel IH]; intros this p ns Hthis Hlen; [lia|]. cbn [from_path_loop]. split.
  - destruct (strip_prefix (lit "ns/") p) as [next|] eqn:Ep.
    + apply strip_prefix_Some in Ep as ->. rewrite length_app in Hlen. simpl in Hlen.
      destruct (position slash next) as [pos|] eqn:Epos.
      * apply position_Some in Epos as [E _]. destruct (push this (take pos next)) as [this'|] eqn:Epush; [|done].
        apply push_iff in Epush as [Hw Ei]; [|done]. cbn [rbind]. rewrite IH; [|done|rewrite length_drop; lia].
        intros (l & Hp & Hns & Hi). exists (take pos next :: l). split; [|split; [done|]].
        { apply path_of_cons. right. exists (drop (S pos) next). split; [by rewrite <- E|done]. }
        by rewrite Hi, Ei, <- app_assoc.
      * intros [Hw Ei]%push_iff; [|done]. exists [next]. split; [|done]. apply path_of_cons. by left.
    + destruct p; [|done]. intros [= <-]. exists []. rewrite app_nil_r. split; [by left|done].
  - intros ([|x l] & Hp & Hns & Hi).
    + rewrite app_nil_r in Hi. destruct Hp as [->|[? _]]; [|done]. simpl. f_equal. by apply ns_eq.
    + assert (slash ∉ x) as Hx.
      { destruct Hns as [Hns%valid_no_slash _]. rewrite Hi in Hns. by apply Forall_app in Hns as [_ [? _]%Forall_cons]. }
      assert (∃ this', push this x = Ok this' ∧ ns_wf this' ∧ this'.(inner) = this.(inner) ++ [x]) as (this' & Hpush & Hw & Ei).
      { pose proof (proj2 (push_all_iff (x :: l) this ns Hthis) (conj Hns Hi)) as H. simpl in H.
        destruct (push this x) as [this'|] eqn:E; [|done]. exists this'. split; [done|]. by apply push_iff in E. }
      apply path_of_cons in Hp as [[-> ->]|(p' & -> & Hp)]; rewrite strip_prefix_app.
      * rewrite position_None by done. apply push_iff; [done|]. by split.
      * rewrite position_app by done. rewrite take_app_length, drop_middle, Hpush. cbn [rbind].
        rewrite !length_app in Hlen. simpl in Hlen. apply IH; [done|lia|]. exists l. split; [done|split; [done|]].
        by rewrite Hi, Ei, <- app_assoc.
Qed.

Lemma ns_from_path_iff p ns : ns_from_path p = Ok ns ↔ ns_wf ns ∧ path_of p ns.(inner).
Proof.
  unfold ns_from_path. rewrite from_path_loop_iff by (auto with rust || lia). cbn [ns_root inner app].
  split; [intros (l & ? & ? & ->); done|]. intros []. eauto.
Qed.

(** *** Lengths *)
Lemma utf8_len_path l : utf8_len (path_text l) = (utf8_len (ns_text l) + 3 * N.of_nat (length l))%N.
Proof.
  induction l as [|x l IH]; [done|]. rewrite path_text_cons, !utf8_len_app.
  change (utf8_len (lit "ns/")) with 3%N. destruct l as [|y l]; [change (utf8_len []) with 0%N; change (ns_text [x]) with x; cbn [length]; lia|].
  change (ns_text (x :: y :: l)) with (x ++ [slash] ++ ns_text (y :: l)). rewrite !utf8_len_app.
  change (utf8_len (slash :: path_text (y :: l))) with (1 + utf8_len (path_text (y :: l)))%N. rewrite IH.
  change (utf8_len [slash]) with 1%N. cbn [length]. lia.
Qed.

Lemma pop_wf ns : ns_wf ns → ns_wf (pop ns).2 ∧ (pop ns).2.(inner) = removelast ns.(inner).
Proof.
  intros Hns. pose proof Hns as [Hv Hl]. unfold pop.
  destruct (inner ns) as [|x l _] eqn:E using rev_ind; [simpl; by rewrite E|].
  rewrite last_snoc. cbn [snd inner]. rewrite removelast_last. split; [|done]. split; [by eapply valid_components_init|].
  cbn [inner len]. rewrite Hl, utf8_len_text_snoc. case_bool_decide as Hn; [subst; change (utf8_len (ns_text [])) with 0%N|]; lia.
Qed.

Lemma parent_wf ns : ns_wf ns → ns_wf (parent ns) ∧ (parent ns).(inner) = removelast ns.(inner).
Proof.
  intros Hns. unfold parent, is_root. case_bool_decide as H; [|by apply pop_wf]. rewrite H. auto with rust.
Qed.

Lemma recalculate_len_text l : recalculate_len l = utf8_len (ns_text l).
Proof.
  unfold recalculate_len.
  assert (∀ l n, foldl (λ len part, len + utf8_len part)%N n l = (n + foldr (λ part s, utf8_len part + s) 0 l)%N) as Hf.
  { clear. induction l as [|x l IH]; intros n; simpl; [lia|]. rewrite IH. lia. }
  rewrite Hf. clear Hf. induction l as [|x l IH]; [done|].
  destruct l as [|y l]; [change (ns_text [x]) with x; cbn [foldr length]; lia|].
  change (ns_text (x :: y :: l)) with (x ++ [slash] ++ ns_text (y :: l)). rewrite !utf8_len_app, <- IH.
  change (utf8_len [slash]) with 1%N. cbn [foldr length]. lia.
Qed.

(** *** Prefixes *)
Lemma strip_components_Some p l r : strip_components p l = Some r ↔ l = p ++ r.
Proof.
  split.
  - revert l. induction p as [|x p IH]; intros [|y l]; simpl; try (by intros [= <-]).
    case_decide; [|done]. intros ->%IH. by subst.
  - intros ->. induction p as [|x p IH]; simpl; [done|]. by rewrite decide_True.
Qed.

Lemma map_prefix_iff ns src tgt ns' : ns_wf tgt →
  map_prefix ns src tgt = Ok ns' ↔
  ∃ suffix, ns.(inner) = src.(inner) ++ suffix ∧ ns_wf ns' ∧ ns'.(inner) = tgt.(inner) ++ suffix.
Proof.
  intros Ht. unfold map_prefix. split.
  - destruct (strip_components _ _) as [r|] eqn:E; [|done]. apply strip_components_Some in E.
    intros H%push_all_iff; [|done]. eauto.
  - intros (r & E & H). apply strip_components_Some in E. rewrite E. by apply push_all_iff.
Qed.

(** *** Namespaces in use: what the operations build from the root *)
Inductive ns_reach : BackupNamespace → Prop :=
| reach_root : ns_reach ns_root
| reach_new s ns : ns_new s = Ok ns → ns_reach ns
| reach_from_path p ns : ns_from_path p = Ok ns → ns_reach ns
| reach_push ns x ns' : ns_reach ns → push ns x = Ok ns' → ns_reach ns'
| reach_from_parent ns x ns' : ns_reach ns → from_parent_ns ns x = Ok ns' → ns_reach ns'
| reach_pop ns : ns_reach ns → ns_reach (pop ns).2
| reach_parent ns : ns_reach ns → ns_reach (parent ns)
| reach_map_prefix ns src tgt ns' : ns_reach tgt → map_prefix ns src tgt = Ok ns' → ns_reach ns'.

Lemma ns_reach_wf ns : ns_reach ns → ns_wf ns.
Proof.
  induction 1 as [|s ns E|p ns E|ns x ns' _ IH E|ns x ns' _ IH E|ns _ IH|ns _ IH|ns src tgt ns' _ IH E].
  - auto with rust.
  - by apply ns_new_iff in E as [].
  - by apply ns_from_path_iff in E as [].
  - by apply (push_iff _ _ _ IH) in E as [].
  - by apply (push_iff _ _ _ IH) in E as [].
  - by apply pop_wf.
  - by apply parent_wf.
  - apply map_prefix_iff in E; [|done]. naive_solver.
Qed.
#[export] Hint Resolve ns_reach_wf : rust.

Lemma ns_wf_reach ns : ns_wf ns → ns_reach ns.
Proof. intros H. eapply reach_new. by apply ns_new_iff. Qed.

(** A namespace that the operations can build has at most seven
    components, each a safe identifier, its text has at most 256 bytes, the cached
    length is the length of the text, and the length of the path is computed from
    it; going to the parent takes the last component away. *)
Theorem namespace_limits ns :
  ns_reach ns →
  depth ns ≤ MAX_NAMESPACE_DEPTH ∧ Forall (λ c, SAFE_ID_REGEX c = true) ns.(inner) ∧
  name_len ns = utf8_len (ns_to_string ns) ∧ (name_len ns ≤ MAX_BACKUP_NAMESPACE_LENGTH)%N ∧
  path_len ns = utf8_len (display_as_path ns) ∧
  ns = from_vec_unchecked ns.(inner) ∧
  (parent ns).(inner) = removelast ns.(inner) ∧
  (∀ x ns', push ns x = Ok ns' → parent ns' = ns ∧ (pop ns').1 = Some x ∧ contains ns ns' = Some 1).
Proof.
  intros Hns%ns_reach_wf. pose proof Hns as [(Hs & Hd & Hl) Hlen]. unfold name_len, path_len.
  rewrite ns_to_string_text. split; [done|split; [done|split; [done|]]].
  split; [rewrite Hlen; case_bool_decide; lia|]. split; [unfold name_len; by rewrite Hlen, <- utf8_len_path|].
  split. { unfold from_vec_unchecked. rewrite recalculate_len_text, <- Hlen. by destruct ns. }
  split; [by apply parent_wf|]. intros x ns' [Hw Hi]%push_iff; [|done]. split; [|split].
  - destruct (parent_wf ns' Hw) as [Hp Ep]. apply ns_eq; [done|done|]. by rewrite Ep, Hi, removelast_last.
  - unfold pop. rewrite Hi, last_snoc. done.
  - unfold contains. rewrite Hi, (proj2 (strip_components_Some _ _ [x]) eq_refl). done.
Qed.

Definition ns_a_b : BackupNamespace := mkNs [lit "a"; lit "b"] 3.
Lemma reach_a_b : ns_reach ns_a_b.
Proof. by apply (reach_new (lit "a/b")). Qed.

Lemma namespace_limits_witness : path_len ns_a_b = utf8_len (display_as_path ns_a_b) ∧ path_len ns_a_b = 9%N.
Proof. split; [|reflexivity]. destruct (namespace_limits ns_a_b reach_a_b) as (_ & _ & _ & _ & H & _). exact H. Defined.

Lemma from_path_loop_ends fuel : ∀ s this, length s < fuel → from_path_loop fuel this s ≠ Err BackupOutOfFuel.
Proof.
  induction fuel as [|fuel IH]; intros s this Hlt; [lia|]. cbn [from_path_loop].
  assert (∀ t x, push t x ≠ Err BackupOutOfFuel) as Hp by (intros t x; unfold push, push_do; by repeat case_match).
  destruct (strip_prefix (lit "ns/") s) as [next|] eqn:E; [|by destruct s].
  apply strip_prefix_Some in E as ->. rewrite length_app in Hlt. simpl in Hlt.
  destruct (position slash next) as [n|]; [|apply Hp]. specialize (Hp this (take n next)).
  destruct (push this (take n next)) as [this'|e]; simpl; [|congruence]. apply IH. rewrite length_drop. lia.
Qed.

Lemma length_utf8_len s : (N.of_nat (length s) ≤ utf8_len s)%N.
Proof.
  induction s as [|c s IH]; [done|]. change (utf8_len (c :: s)) with (utf8_width c + utf8_len s)%N.
  assert (1 ≤ utf8_width c)%N by (unfold utf8_width; repeat case_match; lia). cbn [length]. lia.
Qed.

Lemma ns_schema_ok ns : ns_wf ns → check_constraints BACKUP_NAMESPACE_SCHEMA (ns_to_string ns) = Ok tt.
Proof.
  intros Hw. pose proof Hw as [(Hs & Hd & Hl) _]. rewrite ns_to_string_text.
  unfold check_constraints, check_length. cbn [min_length max_length format_is_optional format BACKUP_NAMESPACE_SCHEMA rbind].
  rewrite (proj2 (N.ltb_ge _ _)). 2:{ etrans; [apply length_utf8_len|]. unfold MAX_BACKUP_NAMESPACE_LENGTH in Hl. lia. }
  cbn [rbind]. unfold BACKUP_NAMESPACE_REGEX. destruct (ns_text (inner ns)) as [|c t] eqn:E; [done|]. rewrite <- E.
  unfold ns_text. rewrite split_on_join; [|by intros E'; rewrite E' in E|by apply valid_no_slash, Hw].
  rewrite (proj2 (forallb_Forall _ _) Hs). rewrite (proj2 (Nat.leb_le _ _)); [done|]. unfold MAX_NAMESPACE_DEPTH in Hd. lia.
Qed.

(** The text of a namespace and its path on disk name it uniquely: a text is
    parsed to a namespace exactly if it is the text of this namespace, and a path
    exactly if it is its path, but for one slash at the end of a path that is not
    empty; both parsers end on every input, and what they accept is valid for the
    schema. *)
Theorem namespace_texts s ns :
  (ns_new s = Ok ns ↔ ns_reach ns ∧ ns_to_string ns = s) ∧
  (ns_from_path s = Ok ns ↔
     ns_reach ns ∧ (display_as_path ns = s ∨ (is_root ns = false ∧ display_as_path ns ++ [slash] = s))) ∧
  ns_from_path s ≠ Err BackupOutOfFuel ∧
  (ns_new s = Ok ns → check_constraints BACKUP_NAMESPACE_SCHEMA s = Ok tt).
Proof.
  assert (∀ n, ns_reach n ↔ ns_wf n) as Hr by (split; [apply ns_reach_wf|apply ns_wf_reach]). split; [|split; [|split]].
  - by rewrite Hr, ns_new_iff.
  - rewrite Hr, ns_from_path_iff. unfold path_of, is_root. rewrite bool_decide_eq_false. naive_solver.
  - apply from_path_loop_ends. lia.
  - intros [Hw <-]%ns_new_iff. by apply ns_schema_ok.
Qed.

Lemma namespace_texts_witness : check_constraints BACKUP_NAMESPACE_SCHEMA (lit "a/b") = Ok tt.
Proof. apply (namespace_texts (lit "a/b") ns_a_b). reflexivity. Defined.

(** The schema allows one component and one byte more than the parser. *)
Lemma namespace_schema_wider :
  (check_constraints BACKUP_NAMESPACE_SCHEMA (lit "a/b/c/d/e/f/g/h") = Ok tt ∧
   ns_new (lit "a/b/c/d/e/f/g/h") = Err NamespaceTooDeep) ∧
  (check_constraints BACKUP_NAMESPACE_SCHEMA (repeat 97%N 256) = Ok tt ∧
   ns_new (repeat 97%N 256) = Err NamespaceTooLong).
Proof. vm_compute. repeat split. Qed.

(** Mapping a namespace from one prefix to another succeeds exactly if the
    first is a prefix and the result is within the limits; the result lies as deep
    below the target as the namespace below the source, and mapping it back gives
    the namespace. *)
Theorem map_prefix_undone ns src tgt :
  ns_reach ns → ns_reach src → ns_reach tgt →
  (∀ ns', map_prefix ns src tgt = Ok ns' →
     map_prefix ns' tgt src = Ok ns ∧ contains tgt ns' = contains src ns ∧ is_Some (contains src ns)) ∧
  ((∃ ns', map_prefix ns src tgt = Ok ns') ↔
   ∃ suffix, ns.(inner) = src.(inner) ++ suffix ∧ valid_components (tgt.(inner) ++ suffix)).
Proof.
  intros Hns%ns_reach_wf Hs%ns_reach_wf Ht%ns_reach_wf. split.
  - intros ns' (r & E & Hw & E')%map_prefix_iff; [|done]. rewrite (map_prefix_iff ns' tgt src ns Hs). unfold contains.
    split; [eauto|]. apply strip_components_Some in E, E'. by rewrite E, E'.
  - split; [intros (ns' & (r & E & [Hv _] & E')%map_prefix_iff); [|done]; exists r; by rewrite <- E'|].
    intros (r & E & Hv). exists (mkNs (tgt.(inner) ++ r) (utf8_len (ns_text (tgt.(inner) ++ r)))).
    apply map_prefix_iff; [done|]. by exists r.
Qed.

Lemma map_prefix_undone_witness :
  map_prefix (mkNs [lit "x"; lit "b"] 3) (mkNs [lit "x"] 1) (mkNs [lit "a"] 1) = Ok ns_a_b.
Proof.
  apply (map_prefix_undone ns_a_b (mkNs [lit "a"] 1) (mkNs [lit "x"] 1));
    [exact reach_a_b|by apply (reach_new (lit "a"))|by apply (reach_new (lit "x"))|reflexivity].
Defined.

(** ** Groups *)
Definition valid_group (g : BackupGroup) : Prop := BACKUP_ID_RE g.(id) = true.

Lemma type_from_str_iff s t : type_from_str s = Ok t ↔ s = type_as_str t.
Proof.
  unfold type_from_str. split; [|intros ->; by destruct t].
  repeat (case_decide; [intros [= <-]; done|]). done.
Qed.

Lemma type_no_slash t : slash ∉ type_as_str t.
Proof. apply (bool_decide_unpack _). by destruct t. Qed.

Lemma BACKUP_TYPE_RE_iff s : BACKUP_TYPE_RE s = true ↔ ∃ t, s = type_as_str t.
Proof.
  unfold BACKUP_TYPE_RE. rewrite bool_decide_eq_true. split.
  - intros [->|[->|[->|[]%elem_of_nil]%elem_of_cons]%elem_of_cons]%elem_of_cons; [by exists Host|by exists Vm|by exists Ct].
  - intros [t ->]. destruct t; set_solver.
Qed.

Lemma id_no_slash i : BACKUP_ID_RE i = true → slash ∉ i.
Proof. apply safe_id_no_slash. Qed.
#[export] Hint Resolve type_no_slash id_no_slash : rust.

(** The parts of a path: the type, the id and perhaps a time. *)
Definition part_text (t : BackupType) (i : rstr) (time : option rstr) : rstr :=
  type_as_str t ++ slash :: i ++ match time with Some tm => slash :: tm | None => [] end.

Lemma captures_iff s ts i o :
  GROUP_OR_SNAPSHOT_captures s = Some (ts, i, o) ↔
  ∃ t, ts = type_as_str t ∧ s = part_text t i o ∧ BACKUP_ID_RE i = true ∧
       match o with Some tm => BACKUP_TIME_RE tm = true | None => True end.
Proof.
  unfold GROUP_OR_SNAPSHOT_captures, part_text. split.
  - destruct (split_once slash s) as [[ts' rest]|] eqn:E1; [|done]. apply split_once_iff in E1 as [-> _].
    destruct (BACKUP_TYPE_RE ts') eqn:Ht; [|done]. apply BACKUP_TYPE_RE_iff in Ht as [t ->].
    destruct (split_once slash rest) as [[i' tm]|] eqn:E2.
    + apply split_once_iff in E2 as [-> _]. destruct (BACKUP_ID_RE i') eqn:Hi, (BACKUP_TIME_RE tm) eqn:Htm; try done.
      simpl. intros [= <- <- <-]. eauto.
    + destruct (BACKUP_ID_RE rest) eqn:Hi; [|done]. intros [= <- <- <-]. exists t. by rewrite app_nil_r.
  - intros (t & -> & -> & Hi & Htm).
    rewrite (proj2 (split_once_iff _ _ _ _) (conj eq_refl (type_no_slash t))).
    rewrite (proj2 (BACKUP_TYPE_RE_iff _)) by eauto. destruct o as [tm|].
    + rewrite (proj2 (split_once_iff _ _ _ _) (conj eq_refl (id_no_slash i Hi))). by rewrite Hi, Htm.
    + rewrite app_nil_r, (proj2 (split_once_None _ _)) by auto with rust. by rewrite Hi.
Qed.

Lemma group_captures s : GROUP_PATH_captures s = None ∨
  ∃ t i, s = part_text t i None ∧ BACKUP_ID_RE i = true ∧ GROUP_PATH_captures s = Some (type_as_str t, i).
Proof.
  unfold GROUP_PATH_captures, part_text. destruct (split_once slash s) as [[ts i]|] eqn:E; [|by left].
  apply split_once_iff in E as [-> _]. destruct (BACKUP_TYPE_RE ts) eqn:Ht; [|by left].
  destruct (BACKUP_ID_RE i) eqn:Hi; [|by left]. right. apply BACKUP_TYPE_RE_iff in Ht as [t ->].
  exists t, i. by rewrite app_nil_r.
Qed.

Lemma group_from_str_iff s g : group_from_str s = Ok g ↔ valid_group g ∧ group_to_string g = s.
Proof.
  unfold group_from_str, valid_group, group_to_string. split.
  - destruct (group_captures s) as [->|(t & i & -> & Hi & ->)]; [done|].
    rewrite (proj2 (type_from_str_iff _ t)) by done. intros [= <-]. unfold part_text. by rewrite app_nil_r.
  - intros [Hi <-]. unfold GROUP_PATH_captures.
    rewrite (proj2 (split_once_iff _ _ _ _) (conj eq_refl (type_no_slash _))), Hi.
    rewrite (proj2 (BACKUP_TYPE_RE_iff _)) by eauto. simpl. rewrite (proj2 (type_from_str_iff _ g.(ty))) by done.
    by destruct g.
Qed.

(** *** The order of groups: a number is below every other id *)
Definition id_num (g : BackupGroup) : option N := parse_uint u64_max g.(id).
Definition same_place (a b : BackupGroup) : Prop :=
  a.(ty) = b.(ty) ∧ (a.(id) = b.(id) ∨ (is_Some (id_num a) ∧ id_num a = id_num b)).

Lemma type_cmp_eq a b : type_cmp a b = Eq ↔ a = b.
Proof. split; [|intros ->; by destruct b]. by destruct a, b. Qed.

Lemma group_cmp_eq a b : group_cmp a b = Eq ↔ same_place a b.
Proof.
  unfold group_cmp, same_place. fold (id_num a) (id_num b). destruct (type_cmp (ty a) (ty b)) eqn:E.
  - apply type_cmp_eq in E. destruct (id_num a) as [n|] eqn:Ea, (id_num b) as [m|] eqn:Eb.
    + rewrite N.compare_eq_iff. split; [intros ->; eauto|]. unfold id_num in *. intros [_ [H|[_ [= H]]]]; congruence.
    + split; [done|]. unfold id_num in *. intros [_ [H|[_ H]]]; congruence.
    + split; [done|]. unfold id_num in *. intros [_ [H|[[? H] _]]]; congruence.
    + rewrite str_compare_eq. split; [eauto|]. by intros [_ [H|[[? [=]] _]]].
  - split; [done|]. intros [H _]. by rewrite (proj2 (type_cmp_eq _ _) H) in E.
  - split; [done|]. intros [H _]. by rewrite (proj2 (type_cmp_eq _ _) H) in E.
Qed.

Lemma group_cmp_antisym a b : group_cmp b a = CompOpp (group_cmp a b).
Proof.
  unfold group_cmp. assert (type_cmp (ty b) (ty a) = CompOpp (type_cmp (ty a) (ty b))) as -> by by destruct (ty a), (ty b).
  destruct (type_cmp _ _); simpl; [|done|done]. repeat case_match; try done; [apply N.compare_antisym|apply str_compare_antisym].
Qed.

Lemma group_cmp_trans a b c : group_cmp a b = Lt → group_cmp b c = Lt → group_cmp a c = Lt.
Proof.
  unfold group_cmp. destruct a as [ta ia], b as [tb ib], c as [tc ic]. cbn [ty id].
  generalize (parse_uint u64_max ia) (parse_uint u64_max ib) (parse_uint u64_max ic). intros [] [] [];
    destruct ta, tb, tc; cbn; try done; rewrite ?N.compare_lt_iff; try (intros; lia); by apply str_compare_lt_trans.
Qed.

(** ** Snapshots *)

(** The times whose text can be read again. *)
Definition valid_time (t : Z) : Prop := (sane t ∧ 0 ≤ year_of (day_number t) ≤ 9999 ∧ t ≠ -1)%Z.
Definition valid_dir (d : BackupDir) : Prop := valid_group d.(group) ∧ valid_time d.(time).

Lemma is_digit_of (v : Z) : (0 ≤ v ≤ 9)%Z → is_ascii_digit (Z.to_N (48 + v)) = true.
Proof. intros. unfold is_ascii_digit. rewrite !(proj2 (N.leb_le _ _)) by lia. done. Qed.

Lemma time_re_digits t :
  (0 ≤ t.(tm_year) + 1900 ≤ 9999 ∧ 0 ≤ t.(tm_mon) ≤ 11 ∧ 1 ≤ t.(tm_mday) ≤ 31 ∧ 0 ≤ t.(tm_hour) ≤ 23 ∧
   0 ≤ t.(tm_min) ≤ 59 ∧ 0 ≤ t.(tm_sec) ≤ 59)%Z →
  BACKUP_TIME_RE (date_time_text t ++ lit "Z") = true.
Proof.
  intros (Hy & Hm & Hd & Hh & Hmi & Hs). unfold BACKUP_TIME_RE, date_time_text, four_digits, two_digits.
  generalize dependent (tm_year t + 1900)%Z. intros y Hy.
  change (bool_decide _) with true. cbn [andb zip zip_with seq app lit forallb fst snd].
  cbn. rewrite !is_digit_of by lia. reflexivity.
Qed.

Lemma time_re_text t : (0 ≤ year_of (day_number t) ≤ 9999)%Z → BACKUP_TIME_RE (date_time_text (tm_of_epoch t) ++ lit "Z") = true.
Proof.
  intros Hy. pose proof (valid_of_epoch t Hy) as (_ & Hm & Hd & Hh & Hmi & Hs).
  pose proof (month_len_bounds (year_of (day_number t)) _ Hm). apply time_re_digits. unfold tm_of_epoch.
  cbn [tm_year tm_mon tm_mday tm_hour tm_min tm_sec]. lia.
Qed.

Lemma time_re_no_slash s : BACKUP_TIME_RE s = true → slash ∉ s.
Proof.
  unfold BACKUP_TIME_RE. intros [H1 H2]%andb_true_iff Hin. apply bool_decide_eq_true in H1.
  apply list_elem_of_lookup in Hin as [k Hk]. assert (k < 20) as Hlt by (rewrite <- H1; by eapply lookup_lt_Some).
  assert (In (k, slash) (zip (seq 0 20) s)) as Hz.
  { apply list_elem_of_In, list_elem_of_lookup. exists k. apply lookup_zip_with_Some. exists k, slash.
    split; [done|split; [apply lookup_seq; lia|done]]. }
  rewrite forallb_forall in H2. specialize (H2 _ Hz). do 20 (destruct k as [|k]; [done|]). lia.
Qed.
#[export] Hint Resolve time_re_no_slash : rust.

Lemma rmatch_nth_snoc n s t : slash ∉ t →
  rmatch_nth n (s ++ slash :: t) = match n with 0 => Some (length s) | S n => rmatch_nth n s end.
Proof.
  intros Ht. destruct n; cbn [rmatch_nth]; rewrite rposition_app by done; [done|]. by rewrite take_app_length.
Qed.

Lemma rmatch_nth_none n s : slash ∉ s → rmatch_nth n s = None.
Proof. intros H. destruct n; simpl; by rewrite rposition_None. Qed.

Lemma rposition_lookup (c : rchar) s i : rposition c s = Some i → s !! i = Some c.
Proof.
  revert i. induction s as [|x s IH]; intros i; simpl; [done|].
  destruct (rposition c s) as [j|]; [|case_decide]; intros; simplify_eq; [by apply IH|done].
Qed.

Lemma rmatch_nth_lookup n s idx : rmatch_nth n s = Some idx → s !! idx = Some slash.
Proof.
  revert s. induction n as [|n IH]; intros s; cbn [rmatch_nth]; destruct (rposition slash s) as [i|] eqn:E; try done.
  - intros [= <-]. by apply rposition_lookup.
  - intros H%IH. apply lookup_take_Some in H as [H _]. done.
Qed.

Lemma rmatch_nth_split n s idx : rmatch_nth n s = Some idx → s = take idx s ++ slash :: drop (S idx) s.
Proof. intros H%rmatch_nth_lookup. symmetry. by apply take_drop_middle. Qed.

Lemma rmatch_two q i tm : slash ∉ i → slash ∉ tm →
  rmatch_nth 2 (q ++ slash :: i ++ slash :: tm) = rmatch_nth 0 q.
Proof.
  intros Hi Htm. replace (q ++ slash :: i ++ slash :: tm) with ((q ++ slash :: i) ++ slash :: tm) by by rewrite <- app_assoc.
  by rewrite !rmatch_nth_snoc.
Qed.

(** The text of a snapshot has two slashes. *)
Lemma rmatch_part t i tm : BACKUP_ID_RE i = true → BACKUP_TIME_RE tm = true →
  rmatch_nth 2 (part_text t i (Some tm)) = None ∧
  ∀ p, rmatch_nth 2 (p ++ slash :: part_text t i (Some tm)) = Some (length p).
Proof.
  intros Hi Htm. unfold part_text. split.
  - rewrite rmatch_two by auto with rust. apply rmatch_nth_none; auto with rust.
  - intros p. replace (p ++ slash :: _) with ((p ++ slash :: type_as_str t) ++ slash :: i ++ slash :: tm)
      by by rewrite <- app_assoc.
    rewrite rmatch_two, rmatch_nth_snoc by auto with rust. done.
Qed.

Section Snapshots.
Context {L : Libc}.

Lemma dir_from_str_iff s d :
  dir_from_str s = Ok d ↔
  valid_group d.(group) ∧ ∃ tm, s = part_text d.(group).(ty) d.(group).(id) (Some tm) ∧ BACKUP_TIME_RE tm = true ∧
    parse_rfc3339 tm = Ok d.(time).
Proof.
  unfold dir_from_str, SNAPSHOT_PATH_captures, with_rfc3339, valid_group. split.
  - destruct (GROUP_OR_SNAPSHOT_captures s) as [[[ts i] [tm|]]|] eqn:E; [|done|done].
    apply captures_iff in E as (t & -> & -> & Hi & Htm). rewrite (proj2 (type_from_str_iff _ t)) by done. cbn [rbind].
    destruct (parse_rfc3339 tm) eqn:Ep; [|done]. intros [= <-]. cbn. eauto.
  - intros (Hi & tm & -> & Htm & Ep). rewrite (proj2 (captures_iff _ (type_as_str d.(group).(ty)) d.(group).(id) (Some tm))) by eauto.
    rewrite (proj2 (type_from_str_iff _ d.(group).(ty))) by done. cbn [rbind]. rewrite Ep. by destruct d as [[] ?].
Qed.

Lemma part_from_str_iff s :
  (∀ g, part_from_str s = Ok (PartGroup g) ↔ group_from_str s = Ok g) ∧
  (∀ d, part_from_str s = Ok (PartDir d) ↔ dir_from_str s = Ok d).
Proof.
  split; [intros g; rewrite group_from_str_iff|intros d; rewrite dir_from_str_iff]; unfold part_from_str, valid_group; split.
  - destruct (GROUP_OR_SNAPSHOT_captures s) as [[[ts i] o]|] eqn:E; [|done].
    apply captures_iff in E as (t & -> & -> & Hi & Htm). rewrite (proj2 (type_from_str_iff _ t)) by done. cbn [rbind].
    destruct o; [by destruct (with_rfc3339 _ _ _)|]. intros [= <-]. split; [done|].
    unfold group_to_string, part_text. by rewrite app_nil_r.
  - intros [Hi <-]. rewrite (proj2 (captures_iff _ (type_as_str g.(ty)) g.(id) None)).
    { rewrite (proj2 (type_from_str_iff _ g.(ty))) by done. by destruct g. }
    exists g.(ty). unfold group_to_string, part_text. by rewrite app_nil_r.
  - destruct (GROUP_OR_SNAPSHOT_captures s) as [[[ts i] o]|] eqn:E; [|done].
    apply captures_iff in E as (t & -> & -> & Hi & Htm). rewrite (proj2 (type_from_str_iff _ t)) by done. cbn [rbind].
    destruct o as [tm|]; [|done]. unfold with_rfc3339. destruct (parse_rfc3339 tm) eqn:Ep; [|done]. intros [= <-]. cbn. eauto.
  - intros (Hi & tm & -> & Htm & Ep). rewrite (proj2 (captures_iff _ (type_as_str d.(group).(ty)) d.(group).(id) (Some tm))) by eauto.
    rewrite (proj2 (type_from_str_iff _ d.(group).(ty))) by done. cbn [rbind]. unfold with_rfc3339. rewrite Ep. by destruct d as [[] ?].
Qed.

Context {LU : LibcUtc L} {S : Strftime} {SL : StrftimeLaws S}.

Lemma dir_to_string_part d : valid_dir d → ∃ tm,
  dir_to_string d = Ok (part_text d.(group).(ty) d.(group).(id) (Some tm)) ∧ BACKUP_TIME_RE tm = true ∧
  parse_rfc3339 tm = Ok d.(time).
Proof.
  intros [Hg (Hs & Hy & Hne)]. destruct (rfc3339_utc_text d.(time) Hs Hy Hne) as [H1 H2].
  eexists. split; [|split; [by apply time_re_text|done]].
  unfold dir_to_string. rewrite H1. unfold part_text, group_to_string. by rewrite <- app_assoc.
Qed.

End Snapshots.


(** More paths than the printed one are read: a slash before the snapshot, or two
    of them behind the namespace. *)
Lemma snapshot_path_not_unique :
  parse_ns_and_snapshot (H := libc_cet) (lit "/vm/100/2020-06-15T05:18:33Z") =
    parse_ns_and_snapshot (H := libc_cet) (lit "vm/100/2020-06-15T05:18:33Z") ∧
  parse_ns_and_snapshot (H := libc_cet) (lit "ns/a//vm/100/2020-06-15T05:18:33Z") =
    parse_ns_and_snapshot (H := libc_cet) (lit "ns/a/vm/100/2020-06-15T05:18:33Z").
Proof. split; vm_compute; reflexivity. Qed.

(** Every component of the namespace has its own [ns/]. *)
Lemma printed_namespace_form :
  print_ns_and_snapshot (H := libc_cet) (H0 := strftime_iso) ns_a_b (mkDir (mkGroup Vm (lit "100")) 1592198313) =
    Ok (lit "ns/a/ns/b/vm/100/2020-06-15T05:18:33Z") ∧
  is_ok (parse_ns_and_snapshot (H := libc_cet) (lit "ns/a/b/vm/100/2020-06-15T05:18:33Z")) = false.
Proof. split; vm_compute; reflexivity. Qed.

(** Groups that differ can have the same place in the order. *)
Lemma group_order_not_eq :
  group_cmp (mkGroup Vm (lit "1")) (mkGroup Vm (lit "01")) = Eq ∧ mkGroup Vm (lit "1") ≠ mkGroup Vm (lit "01").
Proof. split; [reflexivity|done]. Qed.

(** ** Filters *)
Section Filters.
Context {R : RegexLib} {RL : RegexLaws R}.

Definition valid_filter_type (f : FilterType) : Prop :=
  match f with
  | FilterBackupType _ => True
  | FilterGroup s => ∃ g, valid_group g ∧ s = group_to_string g
  | FilterRegex r => regex_new (regex_as_str r) = Some r
  end.

Lemma group_schema_ok s : check_constraints BACKUP_GROUP_SCHEMA s = Ok tt ↔ ∃ g, valid_group g ∧ s = group_to_string g.
Proof.
  change (check_constraints BACKUP_GROUP_SCHEMA s) with
    (if bool_decide (is_Some (GROUP_PATH_captures s)) then Ok tt else @Err unit SchemaError PatternMismatch).
  split.
  - case_bool_decide as H; [|done]. intros _. destruct (group_captures s) as [E|(t & i & -> & Hi & _)].
    + rewrite E in H. by destruct H.
    + exists (mkGroup t i). split; [done|]. unfold part_text, group_to_string. by rewrite app_nil_r.
  - intros (g & Hg & ->). rewrite bool_decide_true; [done|].
    destruct (group_captures (group_to_string g)) as [E|(t & i & _ & _ & ->)]; [|eauto].
    pose proof (proj2 (group_from_str_iff _ g) (conj Hg eq_refl)) as H. unfold group_from_str in H. by rewrite E in H.
Qed.

Lemma filter_type_iff s f : filter_type_from_str s = Ok f ↔ valid_filter_type f ∧ s = filter_type_to_string f.
Proof using RL.
  unfold filter_type_from_str. split.
  - destruct (split_once 58%N s) as [[p v]|] eqn:E; [|done]. apply split_once_iff in E as [-> _].
    case_decide as Hp; [subst p|clear Hp; case_decide as Hp; [subst p|clear Hp; case_decide as Hp; [subst p|done]]].
    + destruct (check_constraints _ v) as [[]|] eqn:Ec; [|done]. apply group_schema_ok in Ec. by intros [= <-].
    + destruct (type_from_str v) as [t|] eqn:Et; [|done]. apply type_from_str_iff in Et as ->. by intros [= <-].
    + destruct (regex_new v) as [r|] eqn:Er; [|done]. intros [= <-]. simpl. by rewrite (regex_new_as_str _ _ Er).
  - intros [Hv ->]. destruct f as [t|g|r]; cbn [filter_type_to_string valid_filter_type] in *.
    + change (lit "type:" ++ type_as_str t) with (lit "type" ++ 58%N :: type_as_str t).
      rewrite (proj2 (split_once_iff _ _ (lit "type") _)) by (split; [done|by apply (bool_decide_unpack _)]). simpl.
      by rewrite (proj2 (type_from_str_iff _ t)).
    + change (lit "group:" ++ g) with (lit "group" ++ 58%N :: g).
      rewrite (proj2 (split_once_iff _ _ (lit "group") _)) by (split; [done|by apply (bool_decide_unpack _)]). simpl.
      apply group_schema_ok in Hv. by rewrite Hv.
    + change (lit "regex:" ++ regex_as_str r) with (lit "regex" ++ 58%N :: regex_as_str r).
      rewrite (proj2 (split_once_iff _ _ (lit "regex") _)) by (split; [done|by apply (bool_decide_unpack _)]). simpl.
      by rewrite Hv.
Qed.

Lemma filter_iff s f :
  filter_from_str s = Ok f ↔
  valid_filter_type f.(filter_type) ∧
  (s = filter_to_string f ∨ (f.(is_exclude) = false ∧ s = lit "include:" ++ filter_to_string f)).
Proof using RL.
  unfold filter_from_str, filter_to_string. split.
  - destruct (split_once 58%N s) as [[p v]|] eqn:E.
    + apply split_once_iff in E as [-> _]. repeat case_decide; subst;
        match goal with |- context [filter_type_from_str ?t] => destruct (filter_type_from_str t) as [ft|] eqn:Ef end; try done;
        apply filter_type_iff in Ef as [Hv Es]; intros [= <-]; cbn; split; try done.
      * right. by rewrite Es.
      * left. by rewrite Es.
      * left. by rewrite Es.
    + destruct (filter_type_from_str s) as [ft|] eqn:Ef; [|done]. apply filter_type_iff in Ef as [Hv Es]. intros [= <-].
      split; [done|]. by left.
  - destruct f as [ex ft]. cbn [is_exclude filter_type]. intros [Hv Hs].
    pose proof (proj2 (filter_type_iff _ ft) (conj Hv eq_refl)) as Hf.
    assert (∀ p, p ∈ [lit "include"; lit "exclude"] → 58%N ∉ p) as Hno.
    { intros p Hp. apply (bool_decide_unpack _). by repeat (apply elem_of_cons in Hp as [->|Hp]; [done|]); apply elem_of_nil in Hp. }
    destruct Hs as [->|[-> ->]]; [destruct ex|].
    + change (lit "exclude:" ++ ?x) with (lit "exclude" ++ 58%N :: x).
      rewrite (proj2 (split_once_iff _ _ (lit "exclude") _)) by (split; [done|apply Hno; set_solver]). simpl. by rewrite Hf.
    + assert (∃ p v, split_once 58%N (filter_type_to_string ft) = Some (p, v) ∧ p ≠ lit "include" ∧ p ≠ lit "exclude") as (p & v & E & H1 & H2).
      { unfold filter_type_from_str in Hf. destruct (split_once 58%N (filter_type_to_string ft)) as [[p v]|]; [|done].
        exists p, v. split; [done|]. repeat case_decide; subst; done. }
      cbn [app]. rewrite E, !decide_False by done. by rewrite Hf.
    + change (lit "include:" ++ ?x) with (lit "include" ++ 58%N :: x).
      rewrite (proj2 (split_once_iff _ _ (lit "include") _)) by (split; [done|apply Hno; set_solver]). simpl. by rewrite Hf.
Qed.

(** What a filter selects, in terms of the text of the group. *)
Definition selects (f : FilterType) (g : BackupGroup) : Prop :=
  match f with
  | FilterBackupType t => g.(ty) = t
  | FilterGroup s => group_to_string g = s
  | FilterRegex r => regex_is_match r (group_to_string g) = true
  end.

Lemma group_matches_iff g f : valid_group g → valid_filter_type f.(filter_type) →
  group_matches g f = true ↔ selects f.(filter_type) g.
Proof.
  intros Hg Hf. unfold group_matches. destruct (filter_type f) as [t|s|r]; simpl; [apply bool_decide_eq_true| |done].
  destruct Hf as (g' & Hg' & ->). rewrite (proj2 (group_from_str_iff _ g')) by done. rewrite bool_decide_eq_true.
  split; [by intros ->|]. intros E.
  pose proof (proj2 (group_from_str_iff _ g) (conj Hg eq_refl)) as H. rewrite E in H.
  rewrite (proj2 (group_from_str_iff _ g')) in H by done. congruence.
Qed.

Lemma apply_filters_iff g fs : apply_filters g fs = true ↔
  ((∀ f, f ∈ fs → f.(is_exclude) = true) ∨ (∃ f, f ∈ fs ∧ f.(is_exclude) = false ∧ group_matches g f = true)) ∧
  (∀ f, f ∈ fs → f.(is_exclude) = true → group_matches g f = false).
Proof.
  unfold apply_filters. rewrite andb_true_iff, negb_true_iff.
  assert (∀ (p : GroupFilter → bool) f, In f (List.filter p fs) ↔ f ∈ fs ∧ p f = true) as Hin.
  { intros p f. by rewrite list_elem_of_In, filter_In. }
  assert (existsb (group_matches g) (List.filter is_exclude fs) = false ↔
          ∀ f, f ∈ fs → f.(is_exclude) = true → group_matches g f = false) as ->.
  { rewrite <- not_true_iff_false, existsb_exists. split.
    - intros H f Hf He. apply not_true_is_false. intros Hm. apply H. exists f. by rewrite Hin.
    - intros H (f & [Hf He]%Hin & Hm). by rewrite H in Hm. }
  apply and_iff_compat_r. case_bool_decide as Hn.
  - apply nil_length_inv in Hn. split; [|done]. intros _. left. intros f Hf. apply not_false_is_true. intros He.
    assert (In f []) as []. rewrite <- Hn, Hin, He. done.
  - rewrite existsb_exists. split.
    + intros (f & [Hf He%negb_true_iff]%Hin & Hm). right. eauto.
    + intros [H|(f & Hf & He & Hm)]; [|exists f; by rewrite Hin, He].
      exfalso. apply Hn. apply length_zero_iff_nil. destruct (List.filter _ fs) as [|f l] eqn:E; [done|].
      assert (In f (f :: l)) as Hf by by left. rewrite <- E, Hin in Hf. destruct Hf as [Hf He]. by rewrite (H f Hf) in He.
Qed.

(** Filters are read back from their text. A list of filters that were read
    lets exactly the groups through that one of the including filters selects, or
    every group if there is none, and no excluding filter does; the order of the
    filters plays no part. *)
Theorem group_filters_select g texts filters :
  valid_group g → Forall2 (λ s f, filter_from_str s = Ok f) texts filters →
  (apply_filters g filters = true ↔
     ((∀ f, f ∈ filters → f.(is_exclude) = true) ∨ (∃ f, f ∈ filters ∧ f.(is_exclude) = false ∧ selects f.(filter_type) g)) ∧
     (∀ f, f ∈ filters → f.(is_exclude) = true → ¬ selects f.(filter_type) g)) ∧
  Forall (λ f, filter_from_str (filter_to_string f) = Ok f) filters ∧
  (∀ filters', filters' ≡ₚ filters → apply_filters g filters' = apply_filters g filters).
Proof using RL.
  intros Hg HF. assert (∀ f, f ∈ filters → valid_filter_type f.(filter_type)) as Hv.
  { intros f Hf. apply list_elem_of_lookup in Hf as [i Hf]. destruct (Forall2_lookup_r _ _ _ _ _ HF Hf) as (s & _ & H).
    by apply filter_iff in H as []. }
  assert (∀ fs, (∀ f, f ∈ fs → valid_filter_type f.(filter_type)) → apply_filters g fs = true ↔
     ((∀ f, f ∈ fs → f.(is_exclude) = true) ∨ (∃ f, f ∈ fs ∧ f.(is_exclude) = false ∧ selects f.(filter_type) g)) ∧
     (∀ f, f ∈ fs → f.(is_exclude) = true → ¬ selects f.(filter_type) g)) as Hspec.
  { intros fs Hfs. rewrite apply_filters_iff. split; intros [H1 H2]; split.
    - destruct H1 as [H1|(f & Hf & He & Hm)]; [by left|right]. exists f. by rewrite <- group_matches_iff by auto.
    - intros f Hf He. rewrite <- group_matches_iff by auto. by rewrite H2.
    - destruct H1 as [H1|(f & Hf & He & Hm)]; [by left|right]. exists f. by rewrite group_matches_iff by auto.
    - intros f Hf He. apply not_true_is_false. rewrite group_matches_iff by auto. by apply H2. }
  split; [by apply Hspec|split].
  - apply Forall_forall. intros f Hf. apply filter_iff. eauto.
  - intros fs Hp. assert (∀ f, f ∈ fs ↔ f ∈ filters) as He by (intros f; by rewrite Hp).
    apply eq_iff_eq_true. rewrite !apply_filters_iff. setoid_rewrite He. done.
Qed.
End Filters.

Lemma group_filters_select_witness :
  apply_filters (R := literal_regex) (mkGroup Vm (lit "100"))
    [mkFilter false (FilterBackupType Vm); mkFilter true (FilterRegex (R := literal_regex) (lit "77"))] = true.
Proof.
  refine (proj2 (proj1 (group_filters_select (R := literal_regex) (mkGroup Vm (lit "100"))
    [lit "include:type:vm"; lit "exclude:regex:77"] _ eq_refl _)) _).
  - repeat constructor.
  - split.
    + right. eexists. split; [apply elem_of_cons; by left|]. done.
    + intros f [->|[->|[]%elem_of_nil]%elem_of_cons]%elem_of_cons; [done|]. intros _. vm_compute. discriminate.
Defined.

(** ** Names of archives *)
Definition file_like (n : rstr) : Prop := (slash ∉ n) ∧ n ≠ [] ∧ n ≠ lit "." ∧ n ≠ lit "..".

Lemma components_file n : file_like n → Path.components n = [Path.Normal n].
Proof.
  intros (Hs & Hn & Hd & Hp). unfold Path.components. rewrite split_on_no_sep by done.
  rewrite filter_cons_True by done. cbn [map filter list_filter]. unfold Path.component. rewrite !decide_False by done.
  by destruct n.
Qed.

Lemma file_name_file p n : Path.file_name p = Some n → file_like n.
Proof.
  unfold Path.file_name. destruct (last (Path.components p)) as [[]|] eqn:E; try done. intros [= ->].
  apply last_Some_elem_of in E.
  assert (Path.Normal n ∈ map Path.component (filter (λ s, s ≠ [] ∧ s ≠ lit ".") (split_on slash p))) as Hin.
  { revert E. unfold Path.components. repeat case_match; try done; (intros [?|?]%elem_of_cons; [done|done]). }
  apply list_elem_of_fmap in Hin as (s & E' & [[Hn Hd] Hs]%list_elem_of_filter). unfold Path.component in E'.
  case_decide; simplify_eq. split; [|done]. by apply (proj1 (Forall_forall _ _) (split_on_no_sep_in slash p)).
Qed.

Lemma file_name_idem n : file_like n → Path.file_name n = Some n.
Proof. intros H. unfold Path.file_name. by rewrite components_file. Qed.

Lemma extension_of_file n i : file_like n → rposition 46%N n = Some (S i) → Path.extension n = Some (drop (S (S i)) n).
Proof. intros H E. unfold Path.extension. by rewrite file_name_idem, E. Qed.

Definition typed_name (base : rstr) (t : ArchiveType) : rstr := base ++ 46%N :: archive_extension t.

Lemma typed_name_file base t : slash ∉ base → base ≠ [] → file_like (typed_name base t).
Proof.
  intros Hs Hn. unfold typed_name. assert (5 ≤ length (typed_name base t)) as Hlen.
  { unfold typed_name. rewrite length_app. destruct t; simpl; lia. }
  assert (slash ∉ 46%N :: archive_extension t) as He by (apply (bool_decide_unpack _); by destruct t).
  split; [|split; [|split]].
  - rewrite elem_of_app. tauto.
  - by destruct base.
  - intros E. unfold typed_name in Hlen. rewrite E in Hlen. simpl in Hlen. lia.
  - intros E. unfold typed_name in Hlen. rewrite E in Hlen. simpl in Hlen. lia.
Qed.

Lemma archive_from_typed base t : slash ∉ base → base ≠ [] → archive_from_path (typed_name base t) = Ok t.
Proof.
  intros Hs Hn. assert (46%N ∉ archive_extension t) as He by (apply (bool_decide_unpack _); by destruct t).
  unfold archive_from_path, type_of_extension. destruct base as [|c b]; [done|].
  rewrite (extension_of_file _ (length b)).
  - unfold typed_name. change (S (S (length b))) with (S (length (c :: b))). rewrite drop_middle. by destruct t.
  - by apply typed_name_file.
  - unfold typed_name. rewrite rposition_app by done. done.
Qed.

Lemma extension_split n ext : file_like n → Path.extension n = Some ext → ∃ base, base ≠ [] ∧ (slash ∉ base) ∧ n = base ++ 46%N :: ext.
Proof.
  intros Hf. unfold Path.extension. rewrite file_name_idem by done.
  destruct (rposition 46%N n) as [[|i]|] eqn:E; [done| |done]. intros [= <-]. exists (take (S i) n).
  apply rposition_lookup in E. split; [|split].
  - by destruct n.
  - destruct Hf as [Hs _]. intros H. apply Hs. by eapply subseteq_take.
  - symmetry. by apply take_drop_middle.
Qed.

Lemma archive_from_file n t : file_like n → archive_from_path n = Ok t →
  ∃ base, base ≠ [] ∧ (slash ∉ base) ∧ n = typed_name base t.
Proof.
  intros Hf. unfold archive_from_path, type_of_extension. destruct (Path.extension n) as [ext|] eqn:E; [|done].
  apply extension_split in E as (base & Hn & Hs & ->); [|done]. simpl. unfold typed_name.
  repeat (case_decide; [intros [= <-]; subst; eauto|]). done.
Qed.

(** The typed names are the names the server uses. *)
Lemma archive_try_from_file n a : file_like n → archive_try_from n = Ok a →
  ∃ base, base ≠ [] ∧ (slash ∉ base) ∧ a.(archive_name) = typed_name base a.(archive_ty) ∧ (n = a.(archive_name) ∨ n = base).
Proof.
  intros Hf. unfold archive_try_from, parse_archive_type. destruct (archive_from_path n) as [t|] eqn:E.
  - apply archive_from_file in E as (base & Hn & Hs & ->); [|done]. intros [= <-]. exists base. auto.
  - destruct (type_of_extension client_extensions n) as [t|]; [|done]. intros [= <-]. exists n. destruct Hf as (? & ? & _).
    auto.
Qed.

Lemma strip_suffix_app s t : strip_suffix t (s ++ t) = Some s.
Proof. unfold strip_suffix. rewrite reverse_app, strip_prefix_app. simpl. by rewrite reverse_involutive. Qed.

Lemma safe_id_file n : SAFE_ID_REGEX n = true → file_like n.
Proof.
  intros H. split; [by apply safe_id_no_slash|]. split; [by apply SAFE_ID_nonempty|]. split; by intros ->.
Qed.

Lemma archive_name_from_file n : file_like n → archive_name_from_path n = archive_try_from n.
Proof.
  intros Hf. unfold archive_name_from_path. rewrite file_name_idem by done. rewrite bool_decide_false; [done|].
  intros Hl%last_Some_elem_of. by destruct Hf as [? _].
Qed.

(** The name of an archive that is made from a path is a file name with the
    extension of its type behind a base that is not empty: it has no slash, it is
    read back as itself, its base can be taken, and it is the file name of the path
    or that file name with the extension added. A name the strict parser accepts is
    accepted with the same result by the other, which leaves it as it is. *)
Theorem archive_names_typed path a :
  (archive_name_from_path path = Ok a →
     archive_name_from_path a.(archive_name) = Ok a ∧ archive_try_from a.(archive_name) = Ok a ∧
     ∃ base n, Path.file_name path = Some n ∧ base ≠ [] ∧ (slash ∉ a.(archive_name)) ∧
       without_type_extension a = Some base ∧ a.(archive_name) = base ++ 46%N :: archive_extension a.(archive_ty) ∧
       (n = a.(archive_name) ∨ n = base)) ∧
  (try_from_strict path = Ok a ↔ SAFE_ID_REGEX path = true ∧ archive_name_from_path path = Ok a ∧ a.(archive_name) = path).
Proof.
  split.
  - unfold archive_name_from_path at 1. case_bool_decide; [done|]. destruct (Path.file_name path) as [n|] eqn:En; [|done].
    intros Ha. destruct (archive_try_from_file n a) as (base & Hb & Hs & Ea & Hn); [by eapply file_name_file|done|].
    pose proof (typed_name_file base a.(archive_ty) Hs Hb) as Hf. rewrite <- Ea in Hf.
    assert (archive_try_from a.(archive_name) = Ok a) as Hagain.
    { unfold archive_try_from, parse_archive_type. rewrite Ea at 1. rewrite archive_from_typed by done. by destruct a. }
    split; [|split; [done|]].
    + by rewrite archive_name_from_file.
    + exists base, n. split; [done|]. split; [done|]. split; [apply Hf|]. split; [|done].
      unfold without_type_extension. rewrite Ea at 1. unfold typed_name. apply strip_suffix_app.
  - unfold try_from_strict. change (check_constraints BACKUP_ARCHIVE_NAME_SCHEMA path) with
      (if SAFE_ID_REGEX path then Ok tt else @Err unit SchemaError PatternMismatch).
    destruct (SAFE_ID_REGEX path) eqn:Hsafe; [|split; [done|by intros [? _]]]. cbn [rbind].
    rewrite archive_name_from_file by by apply safe_id_file. unfold archive_try_from, parse_archive_type.
    destruct (archive_from_path path) as [t|] eqn:E; cbn [rbind fst snd].
    + split; [by intros [= <-]|]. by intros (_ & [= <-] & _).
    + split; [done|]. destruct (type_of_extension client_extensions path) as [t|]; [|by intros (_ & ? & _)].
      intros (_ & [= <-] & H). simpl in H. apply (f_equal length) in H. rewrite length_app in H. simpl in H. lia.
Qed.

Lemma archive_names_typed_witness :
  archive_name_from_path (lit "/valid/archive-name.pxar") = Ok (mkArchive (lit "archive-name.pxar.didx") DynamicIndex) ∧
  archive_try_from (lit "archive-name.pxar.didx") = Ok (mkArchive (lit "archive-name.pxar.didx") DynamicIndex).
Proof.
  split; [reflexivity|].
  destruct (archive_names_typed (lit "/valid/archive-name.pxar") (mkArchive (lit "archive-name.pxar.didx") DynamicIndex)) as [H _].
  destruct (H eq_refl) as (_ & H2 & _). exact H2.
Defined.

(** The parser that takes a text as it is also takes a path that ends in a slash:
    its base cannot be taken, and an added extension makes a name that is not read
    back. *)
Lemma archive_try_from_slash :
  (∃ a, archive_try_from (lit "foo.didx/") = Ok a ∧ without_type_extension a = None) ∧
  (∃ a, archive_try_from (lit "foo.pxar/") = Ok a ∧ archive_try_from a.(archive_name) = Err BadArchiveName).
Proof. split; eexists; split; reflexivity. Qed.
