(* ===== verification/PropertyVerify.v ===== *)
(** * PropertyVerify: the check of property strings

    Models [de::verify] of [proxmox-schema/src/de/mod.rs] with the visitor of
    [de/verify.rs]: the schema deserializer in the mode that collects errors, as
    [StringSchema::check_constraints] uses it for property strings. A step of the
    deserializer ends well, with an error that was moved to the collected ones, or
    with any other error; the errors it collects are those it adds to an empty
    list. Schemas with a [KeyAliasInfo], which only legacy formats have, are left
    out; the error of a nested property string stands for all it consists of. *)
From S2P Require Import Prelude Schema F64 Json ObjectSchema PropertyString.

Inductive DeError :=
| Lexical (e : PropertyError)
| DuplicateKey | MultipleUnkeyed | NoDefaultKey | BadDefaultKey
| BadNullSchema | BadBoolean | BadInteger | BadNumberText
| Violated (e : SchemaError) | NumberViolated (e : JsonError)
| TooFewElements (min : N) | TooManyElements (max : N)
| NoAdditional | MissingRequired | BadType (e : SError)
| Unreported
| DeOutOfFuel.

Abbreviation Errors := (list (rstr * DeError)).

(** [Result<_, Error>] of a step: [Recoverable] is in the list of errors. *)
Inductive Outcome := Done | Recoverable | Fatal (e : DeError).

(** [merge_to_with_key] *)
Definition merge_to_with_key (key : rstr) (o : Outcome) : Outcome * Errors :=
  match o with
  | Fatal e => (Recoverable, [(key, e)])
  | o => (o, [])
  end.

(** [ParameterError::add_errors] of a [ParameterError], and [extend_unreported]. *)
Definition under (prefix : rstr) (errs : Errors) : Errors := map (λ ke, (join_path prefix ke.1, ke.2)) errs.
Definition extend_missing_paths (errs other : Errors) : Errors :=
  foldl (λ errs pe, if decide (pe.1 ∈ errs.*1) then errs else errs ++ [pe]) errs other.

(** ** Elements of a list: [next_str_entry] *)
Definition has_null (s : rstr) : bool := bool_decide (0%N ∈ s).
Fixpoint str_entries (p : rchar → bool) (current s : rstr) : list rstr :=
  match s with
  | [] => match current with [] => [] | _ => [current] end
  | c :: s' => if p c
               then match current with [] => str_entries p [] s' | _ => current :: str_entries p [] s' end
               else str_entries p (current ++ [c]) s'
  end.
Definition entries_of (input : rstr) : list rstr :=
  str_entries (if has_null input then λ c, (c =? 0)%N else list_separator) [] input.

(** ** A property string split into its properties *)
Record ParsedPropertyString := mkParsed {
  entries : list (rstr * rstr);
  entry_order : list (option rstr);
  value_without_key : option rstr
}.

(** The loop of [ParsedPropertyString::split_cow]; each property takes a character. *)
Fixpoint split_cow (fuel : nat) (this : ParsedPropertyString) (errs : Errors) (remainder : rstr) :
    result ParsedPropertyString DeError * Errors :=
  match fuel with
  | O => (Err DeOutOfFuel, errs)
  | S fuel =>
      match next_property remainder with
      | None => (Ok this, errs)
      | Some (Err e) => (Err (Lexical e), errs)
      | Some (Ok (Some key, value, remainder)) =>
          let entries' := bt_insert key value this.(entries) in
          if contains_key this.(entries) key
          then split_cow fuel (mkParsed entries' this.(entry_order) this.(value_without_key))
                 (errs ++ [(key, DuplicateKey)]) remainder
          else split_cow fuel (mkParsed entries' (this.(entry_order) ++ [Some key]) this.(value_without_key)) errs remainder
      | Some (Ok (None, value, remainder)) =>
          match this.(value_without_key) with
          | Some _ => split_cow fuel (mkParsed this.(entries) this.(entry_order) (Some value))
                        (errs ++ [([], MultipleUnkeyed)]) remainder
          | None => split_cow fuel (mkParsed this.(entries) (this.(entry_order) ++ [None]) (Some value)) errs remainder
          end
      end
  end.

(** ** Walking through the properties of an object *)
Record MapAccess := mkAccess {
  rest_entries : list (rstr * rstr);
  used_elements : list (rstr * rstr);
  unkeyed : option rstr;
  required_keys : list (rstr * unit);
  keys_seen : list rstr;
  map_errors : Errors
}.
Definition set_errors (m : MapAccess) (errs : Errors) : MapAccess :=
  mkAccess m.(rest_entries) m.(used_elements) m.(unkeyed) m.(required_keys) m.(keys_seen) errs.

(** [ObjectData::lookup] *)
Definition data_lookup (m : MapAccess) : type_field := λ name,
  match bt_get name m.(rest_entries) with
  | Some v => Some v
  | None => bt_get name m.(used_elements)
  end.

Section Walk.
Context (verify : Schema → rstr → Outcome * Errors) (s : Schema).

(** [MapAccess::prepare_verify] *)
Definition prepare_verify (p : ParsedPropertyString) (errs : Errors) : MapAccess :=
  mkAccess p.(entries) [] p.(value_without_key)
    (foldl (λ req (e : ObjectSchema.entry), if e.1.2 then req else bt_insert e.1.1 tt req) []
       (all_properties s (λ name, bt_get name p.(entries))))
    [] errs.

Definition canonical_key (m : MapAccess) (key : rstr) : rstr :=
  match lookup_alias s key with
  | None => key
  | Some _ =>
      match List.find (λ ec, forallb (λ nv, bool_decide (data_lookup m nv.1 = Some nv.2)) ec.2) (lookup_all s key []) with
      | Some ec => ec.1.1.1
      | None => key
      end
  end.

Definition key_seen (m : MapAccess) (key : rstr) : MapAccess :=
  let canonical := canonical_key m key in
  mkAccess m.(rest_entries) m.(used_elements) m.(unkeyed) (bt_remove canonical m.(required_keys))
    (canonical :: m.(keys_seen))
    (if decide (canonical ∈ m.(keys_seen)) then m.(map_errors) ++ [(key, DuplicateKey)] else m.(map_errors)).

(** [get_next_value_seed] with the visitor: the error is always merged. *)
Definition next_value (m : MapAccess) (key value : rstr) (sch : option Schema) : MapAccess :=
  match sch with
  | Some p =>
      let '(out, errs) := verify p value in
      set_errors m (m.(map_errors) ++ under key errs ++ (merge_to_with_key key out).2)
  | None =>
      if additional_properties s then m else set_errors m (m.(map_errors) ++ [(key, NoAdditional)])
  end.

(** The loop of [visit_map] over [get_next_key_seed], with the entries in order. *)
Fixpoint visit_map (order : list (option rstr)) (m : MapAccess) : Outcome * MapAccess :=
  match order with
  | [] => (Done, m)
  | None :: order =>
      match m.(unkeyed) with
      | None => visit_map order m
      | Some value =>
          let m := mkAccess m.(rest_entries) m.(used_elements) None m.(required_keys) m.(keys_seen) m.(map_errors) in
          match default_key s with
          | None => visit_map order (set_errors m (m.(map_errors) ++ [([], NoDefaultKey)]))
          | Some key =>
              match lookup_schema s key (data_lookup m) with
              | None => (Fatal BadDefaultKey, m)
              | Some (_, p) => visit_map order (next_value (key_seen m key) key value (Some p))
              end
          end
      end
  | Some key :: order =>
      match bt_get key m.(rest_entries) with
      | None => (Done, m)
      | Some value =>
          let m := mkAccess (bt_remove key m.(rest_entries)) (bt_insert key value m.(used_elements)) m.(unkeyed)
                     m.(required_keys) m.(keys_seen) m.(map_errors) in
          visit_map order (next_value (key_seen m key) key value (snd <$> lookup_schema s key (data_lookup m)))
      end
  end.

(** [Drop] for [MapAccess] *)
Definition drop_access (m : MapAccess) : Errors :=
  extend_missing_paths (m.(map_errors) ++ map (λ kv, (kv.1, MissingRequired)) m.(required_keys))
    (map (λ ke, (ke.1, BadType ke.2)) (verify_type_fields s (data_lookup m))).

Definition do_de_map (input : rstr) : Outcome * Errors :=
  match split_cow (S (length input)) (mkParsed [] [] None) [] input with
  | (Err e, errs) => (Fatal e, errs)
  | (Ok p, errs) =>
      let '(out, m) := visit_map p.(entry_order) (prepare_verify p errs) in
      let '(out, errs) := merge_to_with_key [] out in
      (out, drop_access m ++ errs)
  end.
End Walk.

(** ** Elements of an array: [visit_seq] over [SeqAccess::next] *)
Fixpoint visit_seq (verify : rstr → Outcome * Errors) (min_len max_len : option N) (count : N) (max_triggered : bool)
    (items : list rstr) : Errors :=
  match items with
  | [] => match min_len with
          | Some min => if (count <? min)%N then [([], TooFewElements min)] else []
          | None => []
          end
  | item :: items =>
      let count' := (count + 1)%N in
      let triggered := match max_len with Some max => (max <? count')%N | None => false end in
      let index := lit "[" ++ dec count ++ lit "]" in
      let '(out, errs) := verify item in
      match max_len with
      | Some max => if triggered && negb max_triggered then [([], TooManyElements max)] else []
      | None => []
      end ++ under index errs ++ (merge_to_with_key index out).2 ++
      visit_seq verify min_len max_len count' (max_triggered || triggered) items
  end.

Section Verify.
Context `{F64Text}.

(** [de_any] with the visitor, outside of the deserialization of a [PropertyString], whose
    guard [IN_PROPERTY_STRING] leaves out the constraints of strings; the fuel bounds the
    depth of the schema. *)
Fixpoint de_any (fuel : nat) (s : Schema) (input : rstr) : Outcome * Errors :=
  match fuel with
  | O => (Fatal DeOutOfFuel, [])
  | S fuel =>
      match s with
      | SArray items mn mx =>
          (Done, visit_seq (de_any fuel items) mn mx 0 false (match input with [] => [] | _ => entries_of input end))
      | SObject _ _ _ _ | SAllOf _ | SOneOf _ _ _ _ => do_de_map (de_any fuel) s input
      | SNull => (Fatal BadNullSchema, [])
      | SBoolean _ =>
          match ObjectSchema.parse_boolean input with
          | Ok _ => (Done, [])
          | Err _ => merge_to_with_key [] (Fatal BadBoolean)
          end
      | SInteger i =>
          match parse_i64 input with
          | None => merge_to_with_key [] (Fatal BadInteger)
          | Some value =>
              match check_integer i value with
              | Ok _ => (Done, [])
              | Err e => merge_to_with_key [] (Fatal (Violated e))
              end
          end
      | SNumber n =>
          match f64_from_str input with
          | None => merge_to_with_key [] (Fatal BadNumberText)
          | Some value =>
              match check_number n value with
              | Ok _ => (Done, [])
              | Err e => merge_to_with_key [] (Fatal (NumberViolated e))
              end
          end
      | SString t =>
          match check_constraints t input with
          | Ok _ => (Done, [])
          | Err e => (Fatal (Violated e), [])
          end
      end
  end.

(** [de::verify] *)
Definition de_verify (s : Schema) (value : rstr) : result unit Errors :=
  let '(out, errs) := de_any (ObjectSchema.depth s) s value in
  let errs := match out with
              | Done => errs
              | Recoverable => match errs with [] => [([], Unreported)] | _ => errs end
              | Fatal e => errs ++ [([], e)]
              end in
  match errs with
  | [] => Ok tt
  | errs => Err errs
  end.
End Verify.
