(* ===== verification/PropertyVerifyTheory.v ===== *)
(** * PropertyVerifyTheory: the check and the parser of property strings agree

    Both read the same properties off the text; what each of them accepts is
    described by one condition on that list, so that a text passes the check of a
    string schema exactly if the parser makes an object of it. *)
From S2P Require Import Prelude Schema F64 Json ObjectSchema ObjectSchemaTheory PropertyString PropertyStringTheory.
From S2P Require Import PropertyVerify.

(** ** The properties in a text *)
Fixpoint lex (fuel : nat) (data : rstr) : option (list (option rstr * rstr)) :=
  match fuel with
  | O => None
  | S fuel =>
      match next_property data with
      | None => Some []
      | Some (Ok (key, value, data)) => cons (key, value) <$> lex fuel data
      | Some (Err _) => None
      end
  end.

(** The keys, the default key for what has none. *)
Fixpoint resolve (dk : option rstr) (l : list (option rstr * rstr)) : option (list (rstr * rstr)) :=
  match l with
  | [] => Some []
  | (key, value) :: l' =>
      match (match key with Some _ => key | None => dk end) with
      | None => None
      | Some k => cons (k, value) <$> resolve dk l'
      end
  end.

Lemma param_list_lex dk fuel : ∀ data kv,
  param_list fuel dk data = Some (Ok kv) ↔ ∃ l, lex fuel data = Some l ∧ resolve dk l = Some kv.
Proof.
  induction fuel as [|fuel IH]; intros data kv; simpl; [naive_solver|].
  destruct (next_property data) as [[[[key value] data']|e]|]; simpl; [|naive_solver|naive_solver].
  destruct (match key with Some _ => key | None => dk end) as [k|] eqn:Ek.
  - split.
    + destruct (param_list fuel dk data') as [[r|]|] eqn:Ep; try done. intros [= <-].
      apply IH in Ep as (l & -> & Hr). eexists. split; [reflexivity|]. simpl. by rewrite Ek, Hr.
    + intros (l & Hl & Hr). destruct (lex fuel data') as [l'|] eqn:El; [|done]. simplify_eq/=. rewrite Ek in Hr.
      destruct (resolve dk l') as [kv'|] eqn:Er; [|done]. simplify_eq/=.
      by rewrite (proj2 (IH data' kv') (ex_intro _ l' (conj El Er))).
  - split; [done|]. intros (l & Hl & Hr). destruct (lex fuel data') as [l'|]; [|done]. simplify_eq/=. by rewrite Ek in Hr.
Qed.

(** ** Splitting *)
Lemma split_cow_errors fuel : ∀ this errs data r, split_cow fuel this errs data = (r, []) → errs = [].
Proof.
  induction fuel as [|fuel IH]; intros this errs data r; simpl; [by intros [= _ ->]|].
  destruct (next_property data) as [[[[[key|] value] data']|e]|]; simpl; try (by intros [= _ ->]).
  - case_match; intros Hs%IH; [by destruct errs|done].
  - case_match; intros Hs%IH; [by destruct errs|done].
Qed.

(** The parsed string of a list without repeated keys. *)
Definition parsed_of (this : ParsedPropertyString) (l : list (option rstr * rstr)) : ParsedPropertyString :=
  mkParsed (foldl (λ m kv, match kv.1 with Some k => bt_insert k kv.2 m | None => m end) this.(entries) l)
    (this.(entry_order) ++ l.*1)
    (foldl (λ o kv, match kv.1 with Some _ => o | None => Some kv.2 end) this.(value_without_key) l).

Definition key_free (this : ParsedPropertyString) (o : option rstr) : Prop :=
  match o with
  | Some k => contains_key this.(entries) k = false
  | None => this.(value_without_key) = None
  end.

Lemma contains_key_insert {V} k (v : V) m k' :
  contains_key (bt_insert k v m) k' = bool_decide (k' = k) || contains_key m k'.
Proof.
  unfold contains_key. case_bool_decide as H; [subst; by rewrite bt_get_insert_eq|]. by rewrite bt_get_insert_ne by congruence.
Qed.

Lemma split_cow_lex fuel : ∀ this data p,
  split_cow fuel this [] data = (Ok p, []) ↔
  ∃ l, lex fuel data = Some l ∧ NoDup l.*1 ∧ Forall (key_free this) l.*1 ∧ p = parsed_of this l.
Proof.
  induction fuel as [|fuel IH]; intros this data p; simpl; [naive_solver|].
  destruct (next_property data) as [[[[key value] data']|e]|]; simpl.
  - assert (∀ this', (∀ l : list (option rstr * rstr), Forall (key_free this') l.*1 ↔ Forall (key_free this) l.*1 ∧ (key ∉ l.*1)) →
        (∀ l, parsed_of this' l = parsed_of this ((key, value) :: l)) → key_free this key →
        split_cow fuel this' [] data' = (Ok p, []) ↔
        ∃ l, cons (key, value) <$> lex fuel data' = Some l ∧ NoDup l.*1 ∧ Forall (key_free this) l.*1 ∧ p = parsed_of this l) as Hstep.
    { intros this' Hfree Hparsed Hkey. rewrite IH. split.
      - intros (l & -> & Hn & Hf%Hfree & ->). destruct Hf as [Hf Hk]. exists ((key, value) :: l).
        split; [done|]. split; [by constructor|]. split; [by constructor|]. apply Hparsed.
      - intros (l & Hl & Hn & Hf & ->). destruct (lex fuel data') as [l'|]; [|done]. simplify_eq/=.
        apply NoDup_cons in Hn as [Hk Hn]. apply Forall_cons in Hf as [_ Hf]. exists l'.
        split; [done|]. split; [done|]. split; [by apply Hfree|]. symmetry. apply Hparsed. }
    assert (∀ errs this', errs ≠ [] → ¬ key_free this key →
        split_cow fuel this' errs data' = (Ok p, []) ↔
        ∃ l, cons (key, value) <$> lex fuel data' = Some l ∧ NoDup l.*1 ∧ Forall (key_free this) l.*1 ∧ p = parsed_of this l) as Hbad.
    { intros errs this' He Hk. split; [by intros H%split_cow_errors|]. intros (l & Hl & _ & Hf & _).
      destruct (lex fuel data') as [l'|]; [|done]. simplify_eq/=. by apply Forall_cons in Hf as [? _]. }
    destruct key as [k|].
    + destruct (contains_key (entries this) k) eqn:Ek; [apply Hbad; simpl; congruence|].
      apply Hstep; [|by intros l; unfold parsed_of; simpl; rewrite <- app_assoc|done].
      intros l. rewrite !Forall_forall. split.
      * intros H. split.
        -- intros [k'|] Hin; specialize (H _ Hin); cbn in *; [|done]. rewrite contains_key_insert in H. by apply orb_false_iff in H as [].
        -- intros Hin. specialize (H _ Hin). cbn in H. rewrite contains_key_insert, bool_decide_true in H by done. done.
      * intros [H Hk] [k'|] Hin; specialize (H _ Hin); cbn in *; [|done]. rewrite contains_key_insert, H.
        rewrite bool_decide_false; [done|]. by intros ->.
    + destruct (value_without_key this) eqn:Ev; [apply Hbad; simpl; congruence|].
      apply Hstep; [|by intros l; unfold parsed_of; simpl; rewrite <- app_assoc|done].
      intros l. rewrite !Forall_forall. split.
      * intros H. split; [intros [k'|] Hin; specialize (H _ Hin); cbn in *; done|]. intros Hin. by specialize (H _ Hin).
      * intros [H Hk] [k'|] Hin; specialize (H _ Hin); cbn in *; done.
  - split; [done|]. by intros (l & ? & _).
  - split; [intros [= <-]|intros (l & [= <-] & _ & _ & ->)].
    + exists []. split; [done|]. split; [constructor|]. split; [constructor|]. unfold parsed_of. rewrite app_nil_r. by destruct this.
    + unfold parsed_of. rewrite app_nil_r. by destruct this.
Qed.

(** ** Objects with scalar properties *)
Definition plain_scalar (s : Schema) : bool :=
  match s with SBoolean _ | SInteger _ | SString _ => true | _ => false end.

Section Scalar.
Context {F : F64Text} (ps : list entry) (dk : option rstr) (al : list (rstr * rstr)).
Let s : Schema := SObject false ps dk al.
Hypothesis Hscalar : forallb (λ e : entry, plain_scalar e.2) ps = true.
Hypothesis Halias : canonical_aliases s = true.

Definition canon (k : rstr) : rstr := default k (bt_get k al).

Definition value_accepted (k value : rstr) : Prop :=
  ∃ o p, property_entry (canon k) ps = Some (o, p) ∧ is_ok (parse_simple_value p value) = true.

(** The condition on the properties of a text: every one has its key, no two of
    them are the same, the values are valid and nothing is missing. *)
Definition accepted (l : list (option rstr * rstr)) : Prop :=
  ∃ kv, resolve dk l = Some kv ∧ NoDup (canon <$> kv.*1) ∧
    Forall (λ kv, value_accepted kv.1 kv.2) kv ∧
    ∀ name p, (name, false, p) ∈ ps → name ∈ canon <$> kv.*1.

Lemma lookup_canon k g : lookup_schema s k g = property_entry (canon k) ps.
Proof. reflexivity. Qed.

Lemma canon_idem k : canon (canon k) = canon k.
Proof.
  unfold canon. destruct (bt_get k al) as [c|] eqn:E; simpl; [|by rewrite E].
  pose proof (canonical_lookup s k c Halias E) as H. simpl in H. by rewrite H.
Qed.

Lemma entry_scalar k o p : property_entry k ps = Some (o, p) → plain_scalar p = true.
Proof. intros H%property_entry_elem. rewrite forallb_elem in Hscalar. by apply (Hscalar (k, o, p)). Qed.

(** *** The parser *)
Record read_state (st : ParamState) (seen : list rstr) : Prop := {
  read_raw k : bt_get k st.(first_raw) = None ↔ k ∉ seen;
  read_value k : is_null (param_at st k) = true ↔ k ∉ seen
}.

Lemma parameter_step_scalar g st seen raw value :
  errors st = [] → read_state st seen →
  let st' := parameter_step s g st (raw, value) in
  (errors st' = [] ↔ (canon raw ∉ seen) ∧ value_accepted raw value) ∧
  (errors st' = [] → read_state st' (canon raw :: seen)).
Proof.
  intros Herr [Hraw Hval] st'. assert (∃ from, (match lookup_alias s raw with Some c => (c, Some raw) | None => (raw, None) end) = (canon raw, from)) as [from Ef].
  { unfold canon. simpl. destruct (bt_get raw al); eauto. }
  assert (st' = match bt_get (canon raw) st.(first_raw) with
    | Some prev_raw =>
        if decide (prev_raw = raw) then parse_parameter s g st raw (canon raw) value
        else push_error st raw (Msg (BothSet (canon raw) (default prev_raw from)))
    | None => parse_parameter s g (mkParams st.(params) st.(errors) (bt_insert (canon raw) raw st.(first_raw))) raw (canon raw) value
    end) as ->.
  { unfold st', parameter_step. by rewrite Ef. }
  assert (∀ st0, params st0 = params st → errors st0 = [] →
     let r := parse_parameter s g st0 raw (canon raw) value in
     (errors r = [] ↔ (canon raw ∉ seen) ∧ value_accepted raw value) ∧
     (errors r = [] → ∃ v, is_null v = false ∧ r = set_param st0 (canon raw) v)) as Hparse.
  { intros st0 Hp He. unfold parse_parameter. rewrite lookup_canon, canon_idem. unfold value_accepted.
    assert (param_at st0 = param_at st) as Hpa by (unfold param_at; by rewrite Hp).
    destruct (property_entry (canon raw) ps) as [[o p]|] eqn:E.
    - pose proof (entry_scalar _ _ _ E) as Hsc.
      destruct (parse_simple_value p value) as [v|e] eqn:Ep.
      + pose proof (parse_simple_not_null _ _ _ Ep) as Hnn. rewrite Hpa.
        destruct (is_null (param_at st (canon raw))) eqn:En.
        * pose proof (proj1 (Hval _) En). destruct p; try done; (split; [split; [intros _; split; [done|]; eexists _, _; by rewrite Ep|done]|eauto]).
        * assert (¬ (canon raw ∉ seen)) by (intros H%Hval; congruence).
          destruct p; try done; simpl; (split; [split; [by destruct (errors st0)|tauto]|by destruct (errors st0)]).
      + destruct p; try done; simpl; (split; [split; [by destruct (errors st0)|]; intros [_ (? & ? & [= <- <-] & H)]; by rewrite Ep in H|by destruct (errors st0)]).
    - simpl. split; [split; [by destruct (errors st0)|]; by intros [_ (? & ? & ? & _)]|by destruct (errors st0)]. }
  assert (∀ v, is_null v = false → ∀ fr, (∀ k, bt_get k fr = None ↔ k ∉ canon raw :: seen) →
     read_state (mkParams (bt_insert (canon raw) v st.(params)) [] fr) (canon raw :: seen)) as Hnew.
  { intros v Hv fr Hfr. split; [done|]. intros k. unfold param_at in *. cbn [params value_at] in *. rewrite not_elem_of_cons.
    destruct (decide (k = canon raw)) as [->|Hne]; [rewrite bt_get_insert_eq; simpl; naive_solver congruence|].
    rewrite bt_get_insert_ne by congruence. rewrite Hval. tauto. }
  destruct (bt_get (canon raw) (first_raw st)) as [prev|] eqn:Eraw.
  - assert (¬ (canon raw ∉ seen)) as Hseen by (intros H%Hraw; congruence).
    case_decide.
    + destruct (Hparse st eq_refl Herr) as [H1 _]. split; [done|]. intros H2%H1. tauto.
    + simpl. split; [split; [by destruct (errors st)|tauto]|by destruct (errors st)].
  - destruct (Hparse (mkParams st.(params) st.(errors) (bt_insert (canon raw) raw st.(first_raw))) eq_refl Herr) as [H1 H2].
    split; [done|]. intros H. pose proof (proj1 H1 H) as [Hns _]. destruct (H2 H) as (v & Hv & ->).
    unfold set_param. cbn [params errors first_raw]. rewrite Herr. apply Hnew; [done|].
    intros k. rewrite not_elem_of_cons. destruct (decide (k = canon raw)) as [->|Hne]; [rewrite bt_get_insert_eq; naive_solver|].
    rewrite bt_get_insert_ne by congruence. rewrite Hraw. tauto.
Qed.

Lemma parameter_fold_errors g kv st : errors (foldl (parameter_step s g) st kv) = [] → errors st = [].
Proof. revert st. induction kv as [|x kv IH]; intros st; simpl; [done|]. intros H%IH. by apply parameter_step_errors in H. Qed.

Lemma parameter_fold_scalar g kv : ∀ st seen,
  errors st = [] → read_state st seen →
  let st' := foldl (parameter_step s g) st kv in
  (errors st' = [] ↔ NoDup (canon <$> kv.*1) ∧ (∀ k, k ∈ canon <$> kv.*1 → k ∉ seen) ∧ Forall (λ kv, value_accepted kv.1 kv.2) kv) ∧
  (errors st' = [] → read_state st' (reverse (canon <$> kv.*1) ++ seen)).
Proof.
  induction kv as [|[raw value] kv IH]; intros st seen Herr Hst; cbn [foldl fmap list_fmap fst snd].
  - split; [|done]. split; [|done]. intros _. split; [constructor|]. split; [by intros k []%elem_of_nil|constructor].
  - destruct (parameter_step_scalar g st seen raw value Herr Hst) as [Hstep Hst'].
    destruct (decide (errors (parameter_step s g st (raw, value)) = [])) as [E|E].
    + specialize (IH _ _ E (Hst' E)) as [IH1 IH2]. apply Hstep in E as [Hnew Hacc]. split.
      * rewrite IH1, NoDup_cons, Forall_cons. cbn [fst snd]. split.
        -- intros (Hn & Hd & Hf). split; [split; [|done]|split; [|done]].
           ++ intros Hin. apply (Hd _ Hin). by left.
           ++ intros k [->|Hin]%elem_of_cons; [done|]. intros Hs. apply (Hd _ Hin). by right.
        -- intros ([Hr Hn] & Hd & _ & Hf). split; [done|split; [|done]].
           intros k Hin [->|Hs]%elem_of_cons; [done|]. by apply (Hd k); [right|].
      * intros H%IH2. by rewrite reverse_cons, <- app_assoc.
    + assert (errors (foldl (parameter_step s g) (parameter_step s g st (raw, value)) kv) ≠ []) as Hne
        by (intros H%parameter_fold_errors; done).
      split; [|done]. split; [done|]. intros (_ & Hd & [Hacc _]%Forall_cons). destruct E. apply Hstep. split; [|done]. apply Hd. by left.
Qed.

Lemma parse_accepts text :
  is_ok (parse_property_string s text) = true ↔ ∃ l, lex (S (length text)) text = Some l ∧ accepted l.
Proof.
  change (parse_property_string s text) with (parse_object text s dk). unfold parse_object.
  destruct (param_list_enough (S (length text)) dk text) as [r Hr]; [lia|]. rewrite Hr. cbn [from_option id].
  destruct r as [kv|e]; cbn [rbind].
  2:{ split; [done|]. intros (l & Hl & kv & Hkv & _). exfalso.
      assert (param_list (S (length text)) dk text = Some (Ok kv)) as H by (apply param_list_lex; eauto). congruence. }
  assert (is_ok (map_err BadParameters (parse_parameter_strings s kv true)) = true ↔
    NoDup (canon <$> kv.*1) ∧ Forall (λ kv, value_accepted kv.1 kv.2) kv ∧
    ∀ name p, (name, false, p) ∈ ps → name ∈ canon <$> kv.*1) as ->.
  { unfold parse_parameter_strings. set (g := λ name, bt_get name _). change (verify_type_fields s g) with (@nil (rstr * SError)).
    change (all_properties s g) with ps.
    destruct (parameter_fold_scalar g kv (mkParams [] [] []) [] eq_refl) as [H1 H2].
    { split; intros k; (split; [intros _ []%elem_of_nil|done]). }
    destruct (foldl _ _ _) as [pa er fr]. cbn [errors] in *. destruct er as [|e er].
    - destruct (proj1 H1 eq_refl) as (Hn & _ & Hf). destruct (H2 eq_refl) as [_ Hnull]. rewrite app_nil_r in Hnull.
      set (missing := List.filter _ ps).
      assert (missing = [] ↔ ∀ name p, (name, false, p) ∈ ps → name ∈ canon <$> kv.*1) as Hmiss.
      { unfold missing. rewrite filter_nil. split.
        - intros H name p Hin. specialize (H _ Hin). cbn [fst snd negb andb] in H.
          destruct (decide (name ∈ reverse (canon <$> kv.*1))) as [Hd|Hd]; [by apply elem_of_reverse|].
          apply Hnull in Hd. congruence.
        - intros H [[name o] p] Hin. destruct o; [done|]. cbn [fst snd negb andb]. apply not_true_is_false. intros Hd%Hnull. apply Hd.
          apply elem_of_reverse. eauto. }
      destruct missing as [|e0 m]; simpl.
      + split; [intros _|done]. split; [done|split; [done|]]. by apply Hmiss.
      + split; [done|]. intros (_ & _ & H). by apply Hmiss in H.
    - simpl. split; [done|]. intros (Hn & Hf & _). assert (e :: er = []) as [=]. apply H1. split; [done|split; [|done]].
      intros k _ []%elem_of_nil. }
  apply param_list_lex in Hr as (l & Hl & Hres). split.
  - intros H. exists l. split; [done|]. by exists kv.
  - intros (l' & Hl' & kv' & Hkv' & H). assert (l' = l) as -> by congruence. assert (kv' = kv) as -> by congruence. done.
Qed.

(** *** The check *)
Lemma de_scalar fuel p k v : plain_scalar p = true → 1 ≤ fuel →
  (under k (de_any fuel p v).2 ++ (merge_to_with_key k (de_any fuel p v).1).2 = [] ↔ is_ok (parse_simple_value p v) = true).
Proof.
  intros Hp Hf. destruct fuel as [|fuel]; [lia|]. destruct p as [| |i| |t| | | |]; try done; simpl.
  - destruct (parse_boolean v); done.
  - destruct (parse_i64 v) as [z|]; [|done]. simpl. by destruct (check_integer i z).
  - by destruct (check_constraints t v).
Qed.

Lemma option_cases {A} (o : option A) : (∃ x, o = Some x) ∨ o = None.
Proof. destruct o; eauto. Qed.

Section Walk.
Context (fuel : nat) (Hfuel : ps ≠ [] → 1 ≤ fuel).
Let walk := de_any fuel.

Lemma app_nil_iff {A} (a b : list A) : a ++ b = [] ↔ a = [] ∧ b = [].
Proof. split; [apply app_eq_nil|by intros [-> ->]]. Qed.

Lemma step_scalar m k v :
  let m' := next_value walk s (key_seen s m k) k v (snd <$> lookup_schema s k (data_lookup m)) in
  (map_errors m' = [] ↔ map_errors m = [] ∧ (canon k ∉ keys_seen m) ∧ value_accepted k v) ∧
  (map_errors m' = [] → m' = mkAccess m.(rest_entries) m.(used_elements) m.(unkeyed)
     (bt_remove (canon k) m.(required_keys)) (canon k :: m.(keys_seen)) []).
Proof.
  intros m'. subst m'. rewrite lookup_canon. unfold value_accepted.
  destruct (property_entry (canon k) ps) as [[o p]|] eqn:E; simpl.
  - assert (canonical_key s m k = canon k) as Hc.
    { unfold canonical_key, canon in *. cbn [lookup_alias s lookup_all]. unfold lookup_with_canonical_name.
      destruct (bt_get k al) as [c|] eqn:Ea; [|done]. cbn [from_option id] in *. by rewrite E. }
    assert (ps ≠ []) as Hne by by intros ->.
    pose proof (de_scalar fuel p k v (entry_scalar _ _ _ E) (Hfuel Hne)) as Hde. fold walk in Hde.
    unfold next_value, key_seen, set_errors. rewrite Hc. destruct (walk p v) as [out errs]. cbn [fst snd map_errors] in *. split.
    + rewrite app_nil_iff, Hde. case_decide as Hs.
      * split; [|tauto]. by intros [[_ [=]]%app_eq_nil _].
      * split; [intros [H1 H2]; split; [done|split; [done|]]; by exists o, p|]. intros (Ha & Hb & (? & ? & [= <- <-] & Hd)). done.
    + intros [H1 H2]%app_eq_nil. rewrite H1, H2. done.
  - unfold next_value, set_errors. cbn [additional_properties s map_errors key_seen rest_entries].
    split; [|by intros [_ [=]]%app_eq_nil]. split; [by intros [_ [=]]%app_eq_nil|]. by intros (_ & _ & ? & ? & ? & _).
Qed.

Lemma next_value_errors m k v o : map_errors (next_value walk s m k v o) = [] → map_errors m = [].
Proof.
  unfold next_value. destruct o as [p|].
  - destruct (walk p v). simpl. by intros [? _]%app_eq_nil.
  - simpl. by intros [? _]%app_eq_nil.
Qed.

Lemma key_seen_errors m k : map_errors (key_seen s m k) = [] → map_errors m = [].
Proof. simpl. case_decide; [by intros [? _]%app_eq_nil|done]. Qed.

Lemma visit_map_errors order : ∀ m out m', visit_map walk s order m = (out, m') → map_errors m' = [] → map_errors m = [].
Proof.
  induction order as [|[k|] order IH]; intros m out m'; cbn [visit_map]; [by intros [= _ ->]| |].
  - destruct (bt_get k (rest_entries m)); [|by intros [= _ ->]]. intros H1 H2. specialize (IH _ _ _ H1 H2).
    by apply next_value_errors, key_seen_errors in IH.
  - destruct (unkeyed m); [|apply IH]. destruct (default_key s).
    + destruct (lookup_schema _ _ _) as [[o p]|]; [|by intros [= _ <-]]. intros H1 H2. specialize (IH _ _ _ H1 H2).
      by apply next_value_errors, key_seen_errors in IH.
    + intros H1 H2. specialize (IH _ _ _ H1 H2). simpl in IH. by apply app_eq_nil in IH as [? _].
Qed.

(** The walk over the rest of the properties ends with nothing to report. *)
Definition clean (order : list (option rstr)) (m : MapAccess) : Prop :=
  ∃ m', visit_map walk s order m = (Done, m') ∧ map_errors m' = [] ∧ required_keys m' = [].

Lemma clean_errors order m : clean order m → map_errors m = [].
Proof. intros (m' & H1 & H2 & _). by eapply visit_map_errors. Qed.

Definition walkable (l : list (option rstr * rstr)) (m : MapAccess) : Prop :=
  NoDup l.*1 ∧ (∀ k v, (Some k, v) ∈ l → bt_get k m.(rest_entries) = Some v) ∧ (∀ v, (None, v) ∈ l → m.(unkeyed) = Some v).

Definition rest_accepted (l : list (option rstr * rstr)) (m : MapAccess) : Prop :=
  map_errors m = [] ∧ ∃ kv, resolve dk l = Some kv ∧ NoDup (canon <$> kv.*1) ∧
    (∀ k, k ∈ canon <$> kv.*1 → k ∉ keys_seen m) ∧ Forall (λ kv, value_accepted kv.1 kv.2) kv ∧
    ∀ k, k ∈ m.(required_keys).*1 → k ∈ canon <$> kv.*1.

(** One property accepted in front of the rest. *)
Lemma rest_accepted_cons key k v l m0 :
  (match key with Some _ => key | None => dk end) = Some k →
  rest_accepted ((key, v) :: l) m0 ↔
  map_errors m0 = [] ∧ (canon k ∉ keys_seen m0) ∧ value_accepted k v ∧
  rest_accepted l (mkAccess m0.(rest_entries) m0.(used_elements) m0.(unkeyed)
     (bt_remove (canon k) m0.(required_keys)) (canon k :: m0.(keys_seen)) []).
Proof.
  intros Hk. unfold rest_accepted. cbn [resolve map_errors keys_seen required_keys]. rewrite Hk.
  assert (∀ name, name ∈ (bt_remove (canon k) m0.(required_keys)).*1 ↔ name ∈ m0.(required_keys).*1 ∧ name ≠ canon k) as Hrem.
  { intros name. unfold bt_remove. rewrite !list_elem_of_fmap. setoid_rewrite list_elem_of_filter. naive_solver. }
  split.
  - intros (He & kv & Hr & Hn & Hs & Hf & Hq). destruct (resolve dk l) as [kv'|]; [|done]. simplify_eq/=.
    apply NoDup_cons in Hn as [Hn1 Hn2]. apply Forall_cons in Hf as [Hf1 Hf2].
    split; [done|]. split; [apply Hs; by left|]. split; [done|]. split; [done|]. exists kv'. split; [done|]. split; [done|].
    split; [|split; [done|]].
    + intros k' Hin. rewrite not_elem_of_cons. split; [by intros ->|]. apply Hs. by right.
    + intros name [Hin Hne]%Hrem. apply Hq in Hin. by apply elem_of_cons in Hin as [|].
  - intros (He & Hk1 & Hv & _ & kv' & -> & Hn & Hs & Hf & Hq). split; [done|]. exists ((k, v) :: kv'). split; [done|].
    cbn [fmap list_fmap fst]. split; [|split; [|split; [by constructor|]]].
    + constructor; [|done]. intros Hin. apply (Hs _ Hin). by left.
    + intros k' [->|Hin]%elem_of_cons; [done|]. intros H. apply (Hs _ Hin). by right.
    + intros name Hin. destruct (decide (name = canon k)) as [->|Hne]; [by left|]. right. apply Hq. by apply Hrem.
Qed.

Lemma visit_map_scalar l : ∀ m, walkable l m → clean l.*1 m ↔ rest_accepted l m.
Proof.
  induction l as [|[key v] l IH]; intros m (Hnd & Hrest & Hun).
  - split.
    + intros (m' & [= <-] & He & Hr). split; [done|]. exists []. split; [done|]. split; [constructor|].
      split; [by intros k []%elem_of_nil|]. split; [constructor|]. by rewrite Hr.
    + intros (He & kv & [= <-] & _ & _ & _ & Hq). exists m. split; [done|]. split; [done|].
      destruct (required_keys m) as [|[k u] r]; [done|]. exfalso. apply (not_elem_of_nil k), Hq. by left.
  - cbn [fmap list_fmap fst] in *. apply NoDup_cons in Hnd as [Hkey Hnd].
    assert (∀ k m0, (match key with Some _ => key | None => dk end) = Some k → walkable l m0 →
      map_errors m0 = map_errors m → keys_seen m0 = keys_seen m → required_keys m0 = required_keys m →
      clean l.*1 (next_value walk s (key_seen s m0 k) k v (snd <$> lookup_schema s k (data_lookup m0))) ↔ rest_accepted ((key, v) :: l) m) as Hstep.
    { intros k m0 Hk Hw He Hs Hq. destruct (step_scalar m0 k v) as [H1 H2].
      assert (rest_accepted ((key, v) :: l) m ↔ rest_accepted ((key, v) :: l) m0) as ->.
      { unfold rest_accepted. by rewrite He, Hs, Hq. }
      rewrite (rest_accepted_cons key k v l m0 Hk). split.
      - intros Hc. pose proof (clean_errors _ _ Hc) as He'. pose proof (proj1 H1 He') as (? & ? & ?).
        rewrite (H2 He') in Hc. split_and!; try done. by apply IH.
      - intros (? & ? & ? & Hr). rewrite H2; [by apply IH|by apply H1]. }
    destruct key as [k|].
    + unfold clean. cbn [visit_map]. rewrite (Hrest k v) by by left. apply Hstep; try done. split; [done|split].
      * intros k' v' Hin. cbn [rest_entries]. rewrite bt_get_remove_ne; [apply Hrest; by right|].
        intros <-. apply Hkey. apply list_elem_of_fmap. by exists (Some k, v').
      * intros v' Hin. apply Hun. by right.
    + unfold clean. cbn [visit_map]. rewrite (Hun v) by by left. change (default_key s) with dk.
      destruct (option_cases dk) as [[k Edk]|Edk]; rewrite Edk.
      * assert (walkable l (mkAccess (rest_entries m) (used_elements m) None (required_keys m) (keys_seen m) (map_errors m))) as Hw.
        { split; [done|split]; [intros k' v' Hin; apply Hrest; by right|].
          intros v' Hin. destruct Hkey. apply list_elem_of_fmap. by exists (None, v'). }
        pose proof (Hstep k _ Edk Hw eq_refl eq_refl eq_refl) as Hst. unfold clean in Hst. rewrite lookup_canon in *.
        destruct (property_entry (canon k) ps) as [[o p]|] eqn:Ep; [done|].
        split; [by intros (? & ? & _)|]. intros H. apply (rest_accepted_cons None k v l m Edk) in H. destruct H as (_ & _ & (? & ? & ? & _) & _). congruence.
      * split.
        -- intros (m' & H1 & H2 & _). pose proof (visit_map_errors _ _ _ _ H1 H2) as H3. simpl in H3. by apply app_eq_nil in H3 as [_ [=]].
        -- intros (_ & kv & Hr & _). simpl in Hr. by rewrite Edk in Hr.
Qed.
End Walk.

Lemma resolve_keys l kv : resolve dk l = Some kv →
  kv.*1 = (λ o, default [] (match o with Some _ => o | None => dk end)) <$> l.*1.
Proof.
  revert kv. induction l as [|[key v] l IH]; intros kv; simpl; [by intros [= <-]|].
  destruct (match key with Some _ => key | None => dk end) as [k|]; [|done].
  destruct (resolve dk l) as [kv'|]; [|done]. intros [= <-]. simpl. f_equal. by apply IH.
Qed.

Lemma accepted_NoDup l : accepted l → NoDup l.*1.
Proof. intros (kv & Hr & Hn & _). rewrite (resolve_keys _ _ Hr) in Hn. by apply NoDup_fmap_1, NoDup_fmap_1 in Hn. Qed.

Lemma entries_get l : ∀ m, NoDup l.*1 →
  let m' := foldl (λ m (kv : option rstr * rstr), match kv.1 with Some k => bt_insert k kv.2 m | None => m end) m l in
  (∀ k v, (Some k, v) ∈ l → bt_get k m' = Some v) ∧ (∀ k, Some k ∉ l.*1 → bt_get k m' = bt_get k m).
Proof.
  induction l as [|[key v] l IH]; intros m Hn; [split; [by intros k v []%elem_of_nil|done]|].
  cbn [fmap list_fmap fst snd foldl] in *. apply NoDup_cons in Hn as [Hk Hn].
  destruct (IH (match key with Some k => bt_insert k v m | None => m end) Hn) as [H1 H2]. split.
  - intros k v' [[= <- <-]|Hin]%elem_of_cons; [|by apply H1]. rewrite H2 by done. apply bt_get_insert_eq.
  - intros k [Hne Hin]%not_elem_of_cons. rewrite H2 by done. destruct key as [k'|]; [|done].
    by rewrite bt_get_insert_ne by congruence.
Qed.

Lemma unkeyed_get l : ∀ o, NoDup l.*1 → ∀ v, (None, v) ∈ l →
  foldl (λ o (kv : option rstr * rstr), match kv.1 with Some _ => o | None => Some kv.2 end) o l = Some v.
Proof.
  induction l as [|[key v0] l IH]; intros o Hn v; [by intros []%elem_of_nil|].
  cbn [fmap list_fmap fst snd foldl] in *. apply NoDup_cons in Hn as [Hk Hn].
  intros [[= <- <-]|Hin]%elem_of_cons; [|by apply IH].
  clear IH Hn. generalize dependent (Some v). intros o' . induction l as [|[[k|] v1] l IH]; [done| |].
  - cbn [foldl fst]. apply IH. intros H. apply Hk. by right.
  - destruct Hk. by left.
Qed.

Lemma bt_get_is_Some {V} k (m : list (rstr * V)) : is_Some (bt_get k m) ↔ k ∈ m.*1.
Proof.
  rewrite <- not_eq_None_Some, bt_get_None. split; [|by intros ? ?]. intros H. destruct (decide (k ∈ m.*1)); done.
Qed.

Lemma required_elem name :
  name ∈ (prepare_verify s (mkParsed [] [] None) []).(required_keys).*1 ↔ ∃ p, (name, false, p) ∈ ps.
Proof.
  cbn [prepare_verify required_keys]. change (all_properties s _) with ps.
  assert (∀ l req, name ∈ (foldl (λ req (e : entry), if e.1.2 then req else bt_insert e.1.1 tt req) req l).*1 ↔
    name ∈ req.*1 ∨ ∃ p, (name, false, p) ∈ l) as ->.
  { clear. induction l as [|[[n o] p] l IH]; intros req; cbn [foldl fst snd].
    - split; [by left|]. intros [|(p & []%elem_of_nil)]; done.
    - rewrite IH. setoid_rewrite elem_of_cons. destruct o.
      + split; [intros [|[p' ?]]; eauto|]. intros [|(p' & [[=]|?])]; eauto.
      + assert (name ∈ (bt_insert n tt req).*1 ↔ name = n ∨ name ∈ req.*1) as ->.
        { rewrite <- !bt_get_is_Some. destruct (decide (name = n)) as [->|Hne]; [rewrite bt_get_insert_eq; naive_solver|].
          rewrite bt_get_insert_ne by congruence. naive_solver. }
        split; [intros [[->|]|[p' ?]]; eauto|]. intros [|(p' & [[= <- <-]|?])]; eauto. }
  split; [intros [[]%elem_of_nil|]; done|by right].
Qed.

Let fuel : nat := foldr (λ e n, max (ObjectSchema.depth e.2) n) 0 ps.

Lemma fuel_enough : ps ≠ [] → 1 ≤ fuel.
Proof.
  unfold fuel. generalize ps. intros [|e l] Hne; [done|]. simpl.
  assert (1 ≤ ObjectSchema.depth e.2) by (destruct e.2; simpl; lia). lia.
Qed.

Lemma verify_done text : de_verify s text = Ok tt ↔ do_de_map (de_any fuel) s text = (Done, []).
Proof.
  unfold de_verify. change (de_any (ObjectSchema.depth s) s text) with (do_de_map (de_any fuel) s text).
  destruct (do_de_map (de_any fuel) s text) as [[] [|e errs]]; done.
Qed.

Lemma drop_access_nil m : drop_access s m = [] ↔ map_errors m = [] ∧ required_keys m = [].
Proof.
  unfold drop_access. change (verify_type_fields s _) with (@nil (rstr * SError)). cbn [map extend_missing_paths foldl].
  rewrite app_nil_iff. destruct (required_keys m); simpl; [by split; intros [? _]|]. split; by intros [_ [=]].
Qed.

Lemma do_de_map_done text : do_de_map (de_any fuel) s text = (Done, []) ↔
  ∃ p, split_cow (S (length text)) (mkParsed [] [] None) [] text = (Ok p, []) ∧
       clean fuel p.(entry_order) (prepare_verify s p []).
Proof.
  unfold do_de_map, clean. destruct (split_cow _ _ _ _) as [[p|e] errs]; [|split; [done|by intros (? & ? & _)]].
  destruct (visit_map (de_any fuel) s (entry_order p) (prepare_verify s p errs)) as [out m] eqn:Ev. split.
  - destruct out; cbn [merge_to_with_key]; [|done|done]. rewrite app_nil_r. intros [= Hd]. apply drop_access_nil in Hd as [He Hr].
    assert (errs = []) as -> by (apply (visit_map_errors fuel _ _ _ _ Ev He)). exists p. split; [done|]. by exists m.
  - intros (p' & [= <- ->] & m' & Ev' & He & Hr). rewrite Ev in Ev'. simplify_eq. cbn [merge_to_with_key].
    rewrite app_nil_r. by rewrite (proj2 (drop_access_nil m')).
Qed.

Lemma verify_accepts text :
  de_verify s text = Ok tt ↔ ∃ l, lex (S (length text)) text = Some l ∧ accepted l.
Proof.
  rewrite verify_done, do_de_map_done.
  assert (∀ l, NoDup l.*1 → clean fuel l.*1 (prepare_verify s (parsed_of (mkParsed [] [] None) l) []) ↔ accepted l) as Hacc.
  { intros l Hn. rewrite (visit_map_scalar fuel fuel_enough).
    - unfold rest_accepted, accepted. split.
      + intros (_ & kv & Hr & H1 & _ & H2 & H3). exists kv. split_and!; try done. intros name p Hin. apply H3.
        apply required_elem. eauto.
      + intros (kv & Hr & H1 & H2 & H3). split; [done|]. exists kv. split_and!; try done; [by intros k _ []%elem_of_nil|].
        intros k Hk. apply required_elem in Hk as [p Hin]. eauto.
    - split; [done|]. split; [by apply entries_get|]. intros v Hin. by apply unkeyed_get. }
  split.
  - intros (p & (l & Hl & Hn & _ & ->)%split_cow_lex & Hc). exists l. split; [done|]. by apply Hacc.
  - intros (l & Hl & Ha). pose proof (accepted_NoDup l Ha) as Hn. exists (parsed_of (mkParsed [] [] None) l). split.
    + apply split_cow_lex. exists l. split_and!; try done. apply Forall_forall. by intros [k|] _.
    + by apply Hacc.
Qed.
End Scalar.

(** [C30] A text passes the check that a string schema makes of its property strings
    exactly if the parser of property strings makes an object of it, for object schemas
    without additional properties, with boolean, integer and string properties, a
    default key and aliases that lead to canonical names: the deserializer that collects
    all errors and the parser over a list of parameters are two programs for one
    language. *)
Theorem verify_agrees_with_parser {F : F64Text} ps dk al text :
  let s := SObject false ps dk al in
  forallb (λ e : entry, plain_scalar e.2) ps = true → canonical_aliases s = true →
  de_verify s text = Ok tt ↔ ∃ v, parse_property_string s text = Ok v.
Proof.
  intros s Hp Ha. unfold s. rewrite (verify_accepts ps dk al Hp Ha), <- (parse_accepts ps dk al Hp Ha).
  destruct (parse_property_string _ text); simpl; naive_solver.
Qed.

(** ** Examples *)
Definition limit_schema : list entry :=
  [(lit "rate", false, SInteger {| minimum := Some 1%Z; maximum := None |});
   (lit "burst", true, SInteger {| minimum := Some 0%Z; maximum := None |}); (lit "comment", true, plain_string)].

Lemma verify_agrees_with_parser_witness :
  de_verify (H := f64_text) (SObject false limit_schema (Some (lit "rate")) [(lit "size", lit "burst")]) (lit "10,size=3,comment=a") = Ok tt.
Proof.
  apply (verify_agrees_with_parser (F := f64_text) limit_schema (Some (lit "rate")) [(lit "size", lit "burst")]);
    [reflexivity|reflexivity|]. eexists. vm_compute. reflexivity.
Defined.

(** All errors of a text are reported, the missing properties last. *)
Lemma verify_collects :
  de_verify (H := f64_text) (SObject false limit_schema (Some (lit "rate")) [(lit "size", lit "burst")]) (lit "size=-1,burst=x,other=1") =
    Err [(lit "size", Violated (BelowMinimum 0)); (lit "burst", DuplicateKey); (lit "burst", BadInteger);
         (lit "other", NoAdditional); (lit "rate", MissingRequired)].
Proof. vm_compute. reflexivity. Qed.

(** Where the two programs differ: a repeated additional property is a list for the
    parser and an error for the check, and so is a repeated property whose schema
    is an array; the check knows the default key of a combined schema. *)
Lemma verify_parser_differ :
  let any := SObject true [] None [] in
  let flags := SObject false [(lit "x", true, SArray (SBoolean None) None None)] None [] in
  (de_verify (H := f64_text) any (lit "a=1,a=2") = Err [(lit "a", DuplicateKey)] ∧
   parse_property_string (H := f64_text) any (lit "a=1,a=2") = Ok (VObject [(lit "a", VArray [VString (lit "1"); VString (lit "2")])])) ∧
  (de_verify (H := f64_text) flags (lit "x=1 0") = Ok tt ∧
   is_ok (parse_property_string (H := f64_text) flags (lit "x=1 0")) = false ∧
   is_ok (de_verify (H := f64_text) flags (lit "x=1,x=0")) = false ∧
   is_ok (parse_property_string (H := f64_text) flags (lit "x=1,x=0")) = true) ∧
  (de_verify (H := f64_text) (SAllOf [disk_schema]) (lit "a") = Ok tt ∧
   is_ok (parse_property_string (H := f64_text) (SAllOf [disk_schema]) (lit "a")) = false).
Proof. vm_compute. repeat split. Qed.
