(* ===== verification/Datastore.v ===== *)
(** * Datastore: configurations of datastores and their maintenance modes

    Models [DataStoreConfig] of [pbs-api-types/src/datastore.rs] with the check
    for nested datastores and the maintenance mode, which the configuration holds
    as a property string: it is written by the serializer of [PropertyString] and
    read by the schema deserializer, here in the mode that stops at the first
    error and with the visitor that is derived for [MaintenanceMode] of
    [maintenance.rs]. The options of [jobs.rs] for pruning are part of the
    configuration. *)
From S2P Require Import Prelude Schema AuthTypes F64 Json ObjectSchema PropertyString PropertyVerify.
From S2P Require Import Gregorian TmEditor Rfc3339 Notify Backup.

(** ** Maintenance modes *)
Inductive Operation := Read | Write | Lookup.
Inductive MaintenanceType := ReadOnly | Offline | Delete | Unmount | S3Refresh.
#[export] Instance Operation_eq_dec : EqDecision Operation.
Proof. solve_decision. Defined.
#[export] Instance MaintenanceType_eq_dec : EqDecision MaintenanceType.
Proof. solve_decision. Defined.

Definition maintenance_to_string (t : MaintenanceType) : rstr :=
  match t with
  | ReadOnly => lit "read-only"
  | Offline => lit "offline"
  | Delete => lit "delete"
  | Unmount => lit "unmount"
  | S3Refresh => lit "s3-refresh"
  end.
Definition maintenance_types : list MaintenanceType := [ReadOnly; Offline; Delete; Unmount; S3Refresh].
Definition maintenance_from_str (s : rstr) : option MaintenanceType :=
  List.find (λ t, bool_decide (maintenance_to_string t = s)) maintenance_types.

Record MaintenanceMode := mkMode { mode_ty : MaintenanceType; message : option rstr }.

Definition clear_from_cache (m : MaintenanceMode) : bool :=
  bool_decide (m.(mode_ty) = Offline) || bool_decide (m.(mode_ty) = Delete) || bool_decide (m.(mode_ty) = Unmount).

(** The message is part of the errors only. *)
Definition mode_check (m : MaintenanceMode) (operation : Operation) : result unit BackupError :=
  if decide (m.(mode_ty) = Delete) then Err BeingDeleted
  else if decide (operation = Lookup) then Ok tt
  else if decide (m.(mode_ty) = Unmount) then Err BeingUnmounted
  else if decide (m.(mode_ty) = Offline) then Err OfflineMode
  else if decide (m.(mode_ty) = S3Refresh) then Err S3RefreshMode
  else if decide (m.(mode_ty) = ReadOnly ∧ operation = Write) then Err ReadOnlyMode
  else Ok tt.

(** No ASCII control characters. *)
Definition MAINTENANCE_MESSAGE_REGEX (s : rstr) : bool := forallb (λ c, (32 <=? c) && negb (c =? 127))%N s.
Definition MAINTENANCE_MESSAGE_SCHEMA : StringSchema :=
  {| min_length := None; max_length := Some 64%N; format := Some (Pattern MAINTENANCE_MESSAGE_REGEX); format_is_optional := false |}.
Definition MaintenanceType_SCHEMA : StringSchema :=
  {| min_length := None; max_length := None; format := Some (Enum (map maintenance_to_string maintenance_types));
     format_is_optional := false |}.
Definition MaintenanceMode_SCHEMA : Schema :=
  SObject false [(lit "message", true, SString MAINTENANCE_MESSAGE_SCHEMA); (lit "type", false, SString MaintenanceType_SCHEMA)]
    (Some (lit "type")) [].

(** ** The schema deserializer that stops at the first error *)
Fixpoint split_strict (fuel : nat) (this : ParsedPropertyString) (remainder : rstr) : result ParsedPropertyString DeError :=
  match fuel with
  | O => Err DeOutOfFuel
  | S fuel =>
      match next_property remainder with
      | None => Ok this
      | Some (Err e) => Err (Lexical e)
      | Some (Ok (Some key, value, remainder)) =>
          if contains_key this.(entries) key then Err DuplicateKey
          else split_strict fuel (mkParsed (bt_insert key value this.(entries)) (this.(entry_order) ++ [Some key])
                                    this.(value_without_key)) remainder
      | Some (Ok (None, value, remainder)) =>
          match this.(value_without_key) with
          | Some _ => Err MultipleUnkeyed
          | None => split_strict fuel (mkParsed this.(entries) (this.(entry_order) ++ [None]) (Some value)) remainder
          end
      end
  end.

(** The keys and values that [MapAccess] hands to a visitor, with their schemas. *)
Fixpoint strict_fields (s : Schema) (p : ParsedPropertyString) (order : list (option rstr)) :
    result (list (rstr * rstr * option Schema)) DeError :=
  match order with
  | [] => Ok []
  | None :: order =>
      match p.(value_without_key) with
      | None => strict_fields s p order
      | Some value =>
          let? key := ok_or (default_key s) NoDefaultKey in
          match lookup_schema s key (λ name, bt_get name p.(entries)) with
          | None => Err BadDefaultKey
          | Some (_, sch) => let? rest := strict_fields s p order in Ok ((key, value, Some sch) :: rest)
          end
      end
  | Some key :: order =>
      match bt_get key p.(entries) with
      | None => Ok []
      | Some value =>
          match lookup_schema s key (λ name, bt_get name p.(entries)) with
          | None => if additional_properties s
                    then let? rest := strict_fields s p order in Ok ((key, value, None) :: rest)
                    else Err NoAdditional
          | Some (_, sch) => let? rest := strict_fields s p order in Ok ((key, value, Some sch) :: rest)
          end
      end
  end.

Definition strict_map (s : Schema) (input : rstr) : result (list (rstr * rstr * option Schema)) DeError :=
  let? p := split_strict (S (length input)) (mkParsed [] [] None) input in
  strict_fields s p p.(entry_order).

(** [deserialize_string] of a value: an empty optional value is [None]. *)
Definition de_option_string (sch : option Schema) (value : rstr) : option (option rstr) :=
  match value with
  | [] => Some None
  | _ => match sch with
         | Some (SString t) => if is_ok (check_constraints t value) then Some (Some value) else None
         | Some _ => None
         | None => Some (Some value)
         end
  end.

(** The visitor derived for the structure; [None] is any of its errors. *)
Fixpoint mode_visitor (fields : list (rstr * rstr * option Schema)) (ty : option MaintenanceType)
    (message : option (option rstr)) : option MaintenanceMode :=
  match fields with
  | [] => match ty with Some ty => Some (mkMode ty (default None message)) | None => None end
  | (key, value, sch) :: fields =>
      if decide (key = lit "type") then
        match ty, sch, maintenance_from_str value with
        | None, Some (SString _), Some t => mode_visitor fields (Some t) message
        | _, _, _ => None
        end
      else if decide (key = lit "message") then
        match message, de_option_string sch value with
        | None, Some m => mode_visitor fields ty (Some m)
        | _, _ => None
        end
      else None
  end.

Definition mode_from_str (s : rstr) : option MaintenanceMode :=
  match strict_map MaintenanceMode_SCHEMA s with
  | Ok fields => mode_visitor fields None None
  | Err _ => None
  end.

(** ** Configurations *)
Record KeepOptions := mkKeep {
  keep_last : option N; keep_hourly : option N; keep_daily : option N;
  keep_weekly : option N; keep_monthly : option N; keep_yearly : option N
}.
#[export] Instance KeepOptions_eq_dec : EqDecision KeepOptions.
Proof. solve_decision. Defined.

(** The sum of type [u64] wraps around. *)
Definition keeps_something (k : KeepOptions) : bool :=
  let n o := default 0%N o in
  (0 <? (n k.(keep_last) + n k.(keep_hourly) + n k.(keep_daily) + n k.(keep_weekly) + n k.(keep_monthly) + n k.(keep_yearly))
        mod 2 ^ 64)%N.

Inductive NotificationMode := LegacySendmail | NotificationSystem.
#[export] Instance NotificationMode_eq_dec : EqDecision NotificationMode.
Proof. solve_decision. Defined.

Record DataStoreConfig := mkStore {
  ds_name : rstr;
  ds_path : rstr;
  ds_comment : option rstr;
  gc_schedule : option rstr;
  gc_on_unmount : option bool;
  prune_schedule : option rstr;
  keep : KeepOptions;
  verify_new : option bool;
  notify_user : option Userid;
  ds_notify : option rstr;
  notification_mode : option NotificationMode;
  tuning : option rstr;
  maintenance_mode : option rstr;
  backing_device : option rstr;
  backend : option rstr;
  notification_thresholds : option rstr;
  counter_reset_schedule : option rstr;
  max_snapshot_time_skew : option rstr
}.
#[export] Instance DataStoreConfig_eq_dec : EqDecision DataStoreConfig.
Proof. solve_decision. Defined.

Definition datastore_new (name path : rstr) : DataStoreConfig :=
  mkStore name path None None None None (mkKeep None None None None None None) None None None None None None None None
    None None None.

Definition set_mode_text (c : DataStoreConfig) (m : option rstr) : DataStoreConfig :=
  mkStore c.(ds_name) c.(ds_path) c.(ds_comment) c.(gc_schedule) c.(gc_on_unmount) c.(prune_schedule) c.(keep)
    c.(verify_new) c.(notify_user) c.(ds_notify) c.(notification_mode) c.(tuning) m c.(backing_device) c.(backend)
    c.(notification_thresholds) c.(counter_reset_schedule) c.(max_snapshot_time_skew).

Definition DATASTORE_MOUNT_DIR : rstr := lit "/mnt/datastore".
Definition absolute_path (c : DataStoreConfig) : rstr :=
  match c.(backing_device) with
  | Some _ => DATASTORE_MOUNT_DIR ++ slash :: c.(ds_name)
  | None => c.(ds_path)
  end.

Definition get_maintenance_mode (c : DataStoreConfig) : option MaintenanceMode := c.(maintenance_mode) ≫= mode_from_str.

Section Maintenance.
Context `{F64Text}.

(** [PropertyString::to_property_string]: the fields in the order of the
    structure, a missing message is left out. *)
Definition mode_to_string (m : MaintenanceMode) : result rstr PropertyError :=
  print MaintenanceMode_SCHEMA
    (VObject ((lit "type", VString (maintenance_to_string m.(mode_ty))) ::
              match m.(message) with Some t => [(lit "message", VString t)] | None => [] end)).

Definition set_maintenance_mode (c : DataStoreConfig) (new_mode : option MaintenanceMode) : result DataStoreConfig BackupError :=
  let current_type := mode_ty <$> get_maintenance_mode c in
  let new_type := mode_ty <$> new_mode in
  let? _ := match current_type with
            | Some Delete => match new_type with
                             | Some Delete => Ok tt
                             | _ => Err BeingDeleted
                             end
            | _ => Ok tt
            end in
  match new_mode with
  | Some m =>
      match mode_to_string m with
      | Ok text => Ok (set_mode_text c (Some text))
      | Err _ => Err FormatFailed
      end
  | None => Ok (set_mode_text c None)
  end.
End Maintenance.

(** ** Nested datastores *)
Fixpoint ensure_not_nested (c : DataStoreConfig) (stores : list DataStoreConfig) : result unit BackupError :=
  match stores with
  | [] => Ok tt
  | other :: stores =>
      if decide (c = other) then ensure_not_nested c stores
      else if bool_decide (is_Some c.(backing_device)) && bool_decide (other.(backing_device) = c.(backing_device)) &&
              (Path.starts_with c.(ds_path) other.(ds_path) || Path.starts_with other.(ds_path) c.(ds_path))
      then Err (NestedOnDevice other.(ds_name))
      else if Path.starts_with (absolute_path other) (absolute_path c) || Path.starts_with (absolute_path c) (absolute_path other)
      then Err (NestedDatastore other.(ds_name))
      else ensure_not_nested c stores
  end.
