(* ===== verification/DatastoreTheory.v ===== *)
(** * DatastoreTheory: maintenance modes that stay and datastores that do not nest *)
From S2P Require Import Prelude Schema AuthTypes F64 Json ObjectSchema PropertyString PropertyStringTheory PropertyVerify.
From S2P Require Import Notify Backup Datastore.

(** ** The text of a maintenance mode *)

(** Messages that the serializer writes so that they can be read: the schema
    allows them, they are not empty, and a comma is inside of quotes. *)
Definition message_ok (t : rstr) : Prop :=
  t ≠ [] ∧ check_constraints MAINTENANCE_MESSAGE_SCHEMA t = Ok tt ∧ (existsb needs_quote t = true ∨ comma_char ∉ t).
Definition mode_ok (m : MaintenanceMode) : Prop := match m.(message) with Some t => message_ok t | None => True end.

Lemma serialize_repr t : existsb needs_quote t = true ∨ comma_char ∉ t → value_repr t (serialize_str t).
Proof.
  unfold serialize_str. intros Ht. destruct (existsb needs_quote t) eqn:E; [constructor|]. constructor.
  destruct Ht as [[=]|Ht]. split; [done|]. intros Hin. apply not_true_iff_false in E. apply E, existsb_exists.
  exists quote_char. by rewrite list_elem_of_In in Hin.
Qed.

Lemma maintenance_from_to t : maintenance_from_str (maintenance_to_string t) = Some t.
Proof. by destruct t. Qed.

Lemma type_text_plain t : value_repr (maintenance_to_string t) (maintenance_to_string t) ∧
  (equals ∉ maintenance_to_string t) ∧ maintenance_to_string t ≠ [].
Proof. split; [constructor; split|split; [|by destruct t]]; apply not_in_text; by destruct t. Qed.

Lemma message_key_plain : plain_key (lit "message").
Proof. split; [|split; [|done]]; by apply not_in_text. Qed.

Lemma mode_from_type t : mode_from_str (maintenance_to_string t) = Some (mkMode t None).
Proof. by destruct t. Qed.

Lemma split_both fuel t msg repr : value_repr msg repr →
  split_strict (S (S (S fuel))) (mkParsed [] [] None) (maintenance_to_string t ++ comma_char :: lit "message" ++ [equals] ++ repr) =
  Ok (mkParsed [(lit "message", msg)] [None; Some (lit "message")] (Some (maintenance_to_string t))).
Proof.
  intros Hr. destruct (type_text_plain t) as (Ht & He & Htn). cbn [split_strict].
  rewrite (next_unkeyed _ _ _ _ Ht (λ _, conj He Htn) (end_of_field _)). cbn [value_without_key entries entry_order].
  rewrite <- (app_nil_r repr), (next_keyed _ _ _ _ [] message_key_plain Hr end_of_string). done.
Qed.

Lemma mode_from_both t msg repr : value_repr msg repr → msg ≠ [] → check_constraints MAINTENANCE_MESSAGE_SCHEMA msg = Ok tt →
  mode_from_str (maintenance_to_string t ++ comma_char :: lit "message" ++ [equals] ++ repr) = Some (mkMode t (Some msg)).
Proof.
  intros Hr Hne Hc. unfold mode_from_str, strict_map.
  set (text := _ ++ comma_char :: _). assert (∃ fuel, length text = S (S fuel)) as [fuel ->].
  { exists (length text - 2). unfold text. rewrite length_app. simpl. lia. }
  unfold text. rewrite (split_both _ _ msg) by done. cbn [rbind entry_order].
  change (strict_fields MaintenanceMode_SCHEMA _ _) with
    (@Ok (list (rstr * rstr * option Schema)) DeError
       [(lit "type", maintenance_to_string t, Some (SString MaintenanceType_SCHEMA));
        (lit "message", msg, Some (SString MAINTENANCE_MESSAGE_SCHEMA))]).
  cbn [mode_visitor]. rewrite decide_True by done. rewrite maintenance_from_to.
  rewrite (decide_False (P := lit "message" = lit "type")), decide_True by done.
  destruct msg as [|c msg]; [done|]. cbn [de_option_string]. by rewrite Hc.
Qed.

Section Maintenance.
Context {F : F64Text}.

Lemma mode_text m : mode_to_string m =
  Ok (maintenance_to_string m.(mode_ty) ++ match m.(message) with Some t => comma_char :: lit "message" ++ [equals] ++ serialize_str t | None => [] end).
Proof. destruct m as [t [msg|]]; destruct t; try reflexivity; cbn; by rewrite app_nil_r. Qed.

Lemma mode_roundtrip m : mode_ok m → ∃ text, mode_to_string m = Ok text ∧ mode_from_str text = Some m.
Proof.
  intros Hm. rewrite mode_text. eexists. split; [reflexivity|]. destruct m as [t [msg|]]; cbn [mode_ty message mode_ok] in *.
  - destruct Hm as (Hne & Hc & Hq). apply mode_from_both; [by apply serialize_repr|done|done].
  - rewrite app_nil_r. apply mode_from_type.
Qed.

(** Requests for a mode, one after the other; a failed one changes nothing. *)
Definition request (c : DataStoreConfig) (m : option MaintenanceMode) : DataStoreConfig :=
  match set_maintenance_mode c m with Ok c' => c' | Err _ => c end.

Definition in_mode (t : MaintenanceType) (c : DataStoreConfig) : Prop := mode_ty <$> get_maintenance_mode c = Some t.

Lemma set_get c m c' : mode_ok m → set_maintenance_mode c (Some m) = Ok c' → get_maintenance_mode c' = Some m.
Proof.
  intros Hm. destruct (mode_roundtrip m Hm) as (text & E & Hr). unfold set_maintenance_mode. rewrite E.
  destruct (match mode_ty <$> get_maintenance_mode c with Some Delete => _ | _ => _ end); [|done].
  intros [= <-]. unfold get_maintenance_mode. simpl. by rewrite Hr.
Qed.

Lemma deleted_request c m :
  in_mode Delete c → (∀ m', m = Some m' → m'.(mode_ty) = Delete → mode_ok m') → in_mode Delete (request c m).
Proof.
  intros Hc Hm. unfold request. destruct (set_maintenance_mode c m) as [c'|] eqn:E; [|done].
  pose proof E as E'. unfold set_maintenance_mode in E. rewrite Hc in E. destruct m as [[t msg]|]; [|done].
  destruct t; try done. unfold in_mode. by rewrite (set_get c (mkMode Delete msg) c' (Hm _ eq_refl eq_refl) E').
Qed.

(** [C34] A maintenance mode without a message, or with a message that the schema
    allows, that is not empty and has no comma unless it is quoted, is read back when it
    was set, and nothing else of the configuration changes; it can be set unless the
    datastore is being deleted and it is another mode than the one for deletion. A
    datastore in the mode for deletion stays in it whatever is requested, if the
    requests for deletion have such messages; no operation is allowed on it, and every
    request for another mode or for none is an error. *)
Theorem maintenance_mode_stays c :
  (∀ m, mode_ok m → (in_mode Delete c → m.(mode_ty) = Delete) →
     ∃ c', set_maintenance_mode c (Some m) = Ok c' ∧ get_maintenance_mode c' = Some m ∧ set_mode_text c' c.(maintenance_mode) = c) ∧
  (in_mode Delete c →
     (∀ requests, (∀ m, Some m ∈ requests → m.(mode_ty) = Delete → mode_ok m) → in_mode Delete (foldl request c requests)) ∧
     (∀ m, mode_ty <$> m ≠ Some Delete → set_maintenance_mode c m = Err BeingDeleted) ∧
     (∀ m op, get_maintenance_mode c = Some m → mode_check m op = Err BeingDeleted)).
Proof.
  split.
  - intros m Hm Hd. destruct (mode_roundtrip m Hm) as (text & E & Hr). exists (set_mode_text c (Some text)).
    assert (set_maintenance_mode c (Some m) = Ok (set_mode_text c (Some text))) as Hs.
    { unfold set_maintenance_mode. rewrite E. cbn [fmap option_fmap option_map]. unfold in_mode in Hd.
      destruct (mode_ty <$> get_maintenance_mode c) as [[]|] eqn:Et; try done. by rewrite Hd. }
    split; [done|]. split; [by eapply set_get|]. by destruct c.
  - intros Hc. split; [|split].
    + intros requests. revert c Hc. induction requests as [|m l IH]; intros c Hc Hall; [done|]. cbn [foldl]. apply IH.
      * apply deleted_request; [done|]. intros m' ->. apply Hall. by left.
      * intros m' Hin. apply Hall. by right.
    + intros m Hm. unfold set_maintenance_mode. rewrite Hc. destruct (mode_ty <$> m) as [[]|]; done.
    + intros m op Hg. unfold in_mode in Hc. rewrite Hg in Hc. simplify_eq/=. unfold mode_check. by rewrite decide_True.
Qed.
End Maintenance.

(** ** Examples *)
Definition store_a : DataStoreConfig := datastore_new (lit "a") (lit "/a").

Lemma maintenance_mode_stays_witness :
  in_mode Delete (foldl (request (F := f64_text)) store_a
    [Some (mkMode Delete None); None; Some (mkMode Offline (Some (lit "x y")))]).
Proof.
  destruct (maintenance_mode_stays (F := f64_text) store_a) as [H _].
  destruct (H (mkMode Delete None) I) as (c' & E & Hg & _); [done|]. cbn [foldl]. unfold request at 3. rewrite E.
  destruct (maintenance_mode_stays (F := f64_text) c') as [_ H2].
  destruct H2 as [H2 _]; [unfold in_mode; by rewrite Hg|]. apply (H2 [None; Some (mkMode Offline (Some (lit "x y")))]).
  intros m Hm. apply elem_of_cons in Hm as [[=]|Hm]. by apply list_elem_of_singleton in Hm as [= ->].
Defined.

(** The comma of a message is not quoted: the mode is not read back, and the
    datastore that was to be deleted is in no mode at all. *)
Lemma maintenance_message_comma :
  ∃ c', set_maintenance_mode (H := f64_text) store_a (Some (mkMode Delete (Some (lit "a,b")))) = Ok c' ∧
        get_maintenance_mode c' = None ∧ is_ok (set_maintenance_mode (H := f64_text) c' None) = true.
Proof. eexists. split; [vm_compute; reflexivity|]. split; vm_compute; reflexivity. Qed.

(** The counts that are to be kept can add up to nothing. *)
Lemma keeps_something_wraps :
  keeps_something (mkKeep (Some (2 ^ 63 - 1)%N) (Some (2 ^ 63 - 1)%N) (Some 2%N) None None None) = false.
Proof. reflexivity. Qed.

(** ** Nested datastores *)

(** A path, as its components, is in the directory that a datastore uses. *)
Definition in_store (c : DataStoreConfig) (p : list Path.Component) : Prop := Path.components (absolute_path c) `prefix_of` p.
Definition in_device_dir (c : DataStoreConfig) (p : list Path.Component) : Prop := Path.components c.(ds_path) `prefix_of` p.

(** What the check excludes for two configurations. *)
Definition apart (a b : DataStoreConfig) : Prop :=
  (∀ p, in_store a p → ¬ in_store b p) ∧
  (∀ d p, a.(backing_device) = Some d → b.(backing_device) = Some d → in_device_dir a p → ¬ in_device_dir b p).

Lemma prefixes_nested {A} (a b p : list A) : a `prefix_of` p → b `prefix_of` p → a `prefix_of` b ∨ b `prefix_of` a.
Proof. intros Ha Hb. destruct (prefix_weak_total a b p Ha Hb); auto. Qed.

Lemma starts_with_apart x y :
  Path.starts_with x y || Path.starts_with y x = false ↔
  ∀ p, Path.components x `prefix_of` p → ¬ Path.components y `prefix_of` p.
Proof.
  unfold Path.starts_with. rewrite orb_false_iff, !bool_decide_eq_false. split.
  - intros [H1 H2] p Hx Hy. destruct (prefixes_nested _ _ _ Hx Hy); done.
  - intros H. split; intros Hp; [by apply (H (Path.components x))|by apply (H (Path.components y))].
Qed.

Lemma ensure_not_nested_iff c stores :
  ensure_not_nested c stores = Ok tt ↔ ∀ o, o ∈ stores → o = c ∨ apart c o.
Proof.
  induction stores as [|o l IH]; cbn [ensure_not_nested]; [split; [by intros _ o []%elem_of_nil|done]|].
  assert (c ≠ o →
    (bool_decide (is_Some c.(backing_device)) && bool_decide (o.(backing_device) = c.(backing_device)) &&
       (Path.starts_with c.(ds_path) o.(ds_path) || Path.starts_with o.(ds_path) c.(ds_path)) = false ∧
     Path.starts_with (absolute_path o) (absolute_path c) || Path.starts_with (absolute_path c) (absolute_path o) = false)
    ↔ (o = c ∨ apart c o)) as Ho.
  { intros Hne. rewrite (orb_comm (Path.starts_with (absolute_path o) _)), starts_with_apart. unfold apart, in_store, in_device_dir. split.
    - intros [Hd Ha]. right. split; [done|]. intros d p H1 H2. rewrite H1, H2, !bool_decide_true in Hd by eauto.
      apply starts_with_apart. exact Hd.
    - intros [->|[Ha Hd]]; [done|]. split; [|done]. case_bool_decide as Hs; [|done]. case_bool_decide as He; [|done].
      cbn [andb]. apply starts_with_apart. destruct Hs as [d Hd']. rewrite Hd' in He. intros p. eauto. }
  setoid_rewrite elem_of_cons. destruct (decide (c = o)) as [Heq|Heq].
  - subst o. rewrite IH. split; [intros H o [->|]; auto|]. auto.
  - specialize (Ho Heq).
    destruct (bool_decide (is_Some (backing_device c)) && _ && _); [|destruct (Path.starts_with (absolute_path o) (absolute_path c) || _)].
    + split; [intros [=]|]. intros H. by destruct (proj2 Ho (H o (or_introl eq_refl))).
    + split; [intros [=]|]. intros H. by destruct (proj2 Ho (H o (or_introl eq_refl))).
    + rewrite IH. split; [|auto]. intros H x [->|Hx]; [by apply Ho|by apply H].
Qed.

(** Configurations in which each was checked against those before it. *)
Inductive configured : list DataStoreConfig → Prop :=
| configured_nil : configured []
| configured_add c l : configured l → ensure_not_nested c l = Ok tt → configured (c :: l).

Lemma apart_sym a b : apart a b → apart b a.
Proof. intros [H1 H2]. split; [intros p Hb Ha; by apply (H1 p)|]. intros d p Eb Ea Hb Ha. by apply (H2 d p). Qed.

(** [C35] If every datastore was checked against those configured before it, no sequence
    of path components begins with the components of the directories of two of them,
    neither for the absolute paths nor, for datastores on one device, for the paths on
    that device; and each of them still passes the check. Components are compared as
    they are written: neither [..] nor symbolic links are resolved. *)
Theorem datastores_do_not_nest l a b :
  configured l → a ∈ l → b ∈ l →
  (∀ p, in_store a p → in_store b p → a = b) ∧
  (∀ d p, a.(backing_device) = Some d → b.(backing_device) = Some d → in_device_dir a p → in_device_dir b p → a = b) ∧
  ensure_not_nested a l = Ok tt.
Proof.
  intros Hl Ha Hb.
  assert (∀ x y, x ∈ l → y ∈ l → y = x ∨ apart x y) as Hap.
  { clear Ha Hb. induction Hl as [|c l Hl IH Hc]; intros x y; [by intros []%elem_of_nil|]. rewrite ensure_not_nested_iff in Hc.
    intros [->|Hx]%elem_of_cons [->|Hy]%elem_of_cons; [by left|by apply Hc| |by apply IH].
    destruct (Hc x Hx) as [->|H]; [by left|]. right. by apply apart_sym. }
  split; [|split].
  - intros p H1 H2. destruct (Hap a b Ha Hb) as [->|[H _]]; [done|]. by destruct (H p).
  - intros d p E1 E2 H1 H2. destruct (Hap a b Ha Hb) as [->|[_ H]]; [done|]. by destruct (H d p).
  - apply ensure_not_nested_iff. intros o Ho. auto.
Qed.

Definition store_b : DataStoreConfig := datastore_new (lit "b") (lit "/ab").
Lemma configured_a_b : configured [store_b; store_a].
Proof. repeat constructor. Qed.

Lemma datastores_do_not_nest_witness : ensure_not_nested store_a [store_b; store_a] = Ok tt.
Proof.
  apply (datastores_do_not_nest [store_b; store_a] store_a store_b configured_a_b);
    [apply elem_of_cons; right; apply elem_of_cons; by left|apply elem_of_cons; by left].
Defined.

(** The components of a path are not resolved: two texts of one directory pass. *)
Lemma parent_dir_not_resolved :
  ensure_not_nested (datastore_new (lit "c") (lit "/x/../a")) [store_a] = Ok tt.
Proof. reflexivity. Qed.
