(* ===== verification/TextCoding.v ===== *)
(** * TextCoding: texts as bytes, hexadecimal numbers, percent encoding, base64

    What the tickets and the requests share: UTF-8 ([str::as_bytes],
    [str::from_utf8]), [{:08X}] and [i64::from_str_radix(_, 16)], [str::splitn],
    and the interfaces of the crates [percent-encoding] and [base64] (behind
    [proxmox-base64]), which are classes of operations with the laws their
    documentation states.  [spelled_percent] and [spelled_base64] show that the
    laws can hold. *)
From S2P Require Import Prelude.

#[local] Open Scope N_scope.

(** ** UTF-8 *)

(** A Rust [char] is a Unicode scalar value. *)
Definition is_scalar (c : rchar) : bool := (c <? 55296) || (57344 <=? c) && (c <? 1114112).
Definition valid_str (s : rstr) : Prop := Forall (λ c, is_scalar c = true) s.
Definition is_byte (b : N) : Prop := b < 256.

(** [char::encode_utf8] and [str::as_bytes]. *)
Definition utf8_char (c : rchar) : list N :=
  if c <? 128 then [c]
  else if c <? 2048 then [192 + c / 64; 128 + c mod 64]
  else if c <? 65536 then [224 + c / 4096; 128 + c / 64 mod 64; 128 + c mod 64]
  else [240 + c / 262144; 128 + c / 4096 mod 64; 128 + c / 64 mod 64; 128 + c mod 64].
Definition as_bytes (s : rstr) : list N := s ≫= utf8_char.

(** [str::from_utf8]: no overlong forms, no surrogates, nothing above the last
    code point. *)
Definition is_cont (b : N) : bool := (128 <=? b) && (b <? 192).

Fixpoint from_utf8 (l : list N) : option rstr :=
  match l with
  | [] => Some []
  | b0 :: l =>
      if b0 <? 128 then cons b0 <$> from_utf8 l
      else if b0 <? 224 then
        match l with
        | b1 :: l =>
            let c := (b0 - 192) * 64 + (b1 - 128) in
            if (192 <=? b0) && is_cont b1 && (128 <=? c) then cons c <$> from_utf8 l else None
        | _ => None
        end
      else if b0 <? 240 then
        match l with
        | b1 :: b2 :: l =>
            let c := (b0 - 224) * 4096 + (b1 - 128) * 64 + (b2 - 128) in
            if is_cont b1 && is_cont b2 && (2048 <=? c) && is_scalar c
            then cons c <$> from_utf8 l else None
        | _ => None
        end
      else
        match l with
        | b1 :: b2 :: b3 :: l =>
            let c := (b0 - 240) * 262144 + (b1 - 128) * 4096 + (b2 - 128) * 64 + (b3 - 128) in
            if is_cont b1 && is_cont b2 && is_cont b3 && (65536 <=? c) && is_scalar c
            then cons c <$> from_utf8 l else None
        | _ => None
        end
  end.

(** ** Hexadecimal numbers *)
Definition hex_upper (v : N) : rchar := if v <? 10 then 48 + v else 55 + v.

(** [char::to_digit(16)] *)
Definition hex_val (c : rchar) : option N :=
  if (48 <=? c) && (c <=? 57) then Some (c - 48)
  else if (65 <=? c) && (c <=? 70) then Some (c - 55)
  else if (97 <=? c) && (c <=? 102) then Some (c - 87)
  else None.

(** The digits of an [u64] from the lowest one on; it has 16 of them. *)
Fixpoint hex_digits (fuel : nat) (n : N) (acc : rstr) : rstr :=
  match fuel with
  | O => acc
  | S fuel =>
      let acc := hex_upper (n mod 16) :: acc in
      if n <? 16 then acc else hex_digits fuel (n / 16) acc
  end.

(** [format!("{:08X}", t)] of an [i64], which prints its two's complement. *)
Definition fmt_08X (t : Z) : rstr :=
  let s := hex_digits 16 (Z.to_N (t mod 2 ^ 64)) [] in
  replicate (8 - length s) 48 ++ s.

Fixpoint hex_fold (v : Z) (s : rstr) : option Z :=
  match s with
  | [] => Some v
  | c :: s =>
      match hex_val c with
      | Some d => hex_fold (16 * v + Z.of_N d) s
      | None => None
      end
  end.

Definition i64_ok (z : Z) : bool := ((- 2 ^ 63 <=? z) && (z <? 2 ^ 63))%Z.
Definition i64_wrap (z : Z) : Z := ((z + 2 ^ 63) mod 2 ^ 64 - 2 ^ 63)%Z.

(** [i64::from_str_radix(s, 16)]: an optional sign, at least one digit, no overflow. *)
Definition i64_from_hex (s : rstr) : option Z :=
  let '(neg, digits) :=
    match s with
    | 43 :: s => (false, s)
    | 45 :: s => (true, s)
    | _ => (false, s)
    end in
  match digits with
  | [] => None
  | _ =>
      match hex_fold 0 digits with
      | Some v => let z := if (neg : bool) then (- v)%Z else v in if i64_ok z then Some z else None
      | None => None
      end
  end.

(** [str::splitn(n, c)]: at most [n] pieces, the last one with all the rest. *)
Fixpoint splitn (n : nat) (c : rchar) (s : rstr) : list rstr :=
  match n with
  | O => []
  | S O => [s]
  | S n =>
      match split_once c s with
      | Some (a, b) => a :: splitn n c b
      | None => [s]
      end
  end.

(** ** Percent encoding *)
Class PercentCoding := {
  percent_encode : (N → bool) → list N → rstr;
  percent_decode : list N → list N;
}.

(** [percent_encoding::CONTROLS]: the C0 controls and DEL. *)
Definition CONTROLS (b : N) : bool := (b <? 32) || (b =? 127).

(** Bytes of the set and bytes that are not ASCII become [%XX], others stay; an
    escape stands for its byte, and a per cent sign without two digits for itself. *)
Class PercentLaws (P : PercentCoding) : Prop := {
  percent_encode_nil set : percent_encode set [] = [];
  percent_encode_keep set b l : b < 128 → set b = false →
    percent_encode set (b :: l) = b :: percent_encode set l;
  percent_encode_escape set b l : b < 256 → 128 ≤ b ∨ set b = true →
    percent_encode set (b :: l) =
      37 :: hex_upper (b / 16) :: hex_upper (b mod 16) :: percent_encode set l;
  percent_decode_nil : percent_decode [] = [];
  percent_decode_plain b l : b ≠ 37 → percent_decode (b :: l) = b :: percent_decode l;
  percent_decode_escape h1 h2 x y l : hex_val h1 = Some x → hex_val h2 = Some y →
    percent_decode (37 :: h1 :: h2 :: l) = 16 * x + y :: percent_decode l;
  percent_decode_lone l :
    (∀ h1 h2 r, l = h1 :: h2 :: r → hex_val h1 = None ∨ hex_val h2 = None) →
    percent_decode (37 :: l) = 37 :: percent_decode l;
}.

(** [percent_decode_str(s).decode_utf8()] *)
Definition decode_str `{PercentCoding} (s : rstr) : option rstr :=
  from_utf8 (percent_decode (as_bytes s)).

(** ** Base64 without padding *)
Class Base64 := {
  encode_no_pad : list N → rstr;
  decode_no_pad : rstr → option (list N);
}.

Definition base64_char (c : rchar) : bool :=
  is_ascii_alphanumeric c || (c =? 43) || (c =? 47).

Class Base64Laws (B : Base64) : Prop := {
  decode_encode_no_pad l : Forall is_byte l → decode_no_pad (encode_no_pad l) = Some l;
  encode_no_pad_alphabet l : Forall (λ c, base64_char c = true) (encode_no_pad l);
}.

(** ** Lemmas: UTF-8 *)
#[local] Ltac Zify.zify_post_hook ::= Z.to_euclidean_division_equations.

Lemma as_bytes_app s t : as_bytes (s ++ t) = as_bytes s ++ as_bytes t.
Proof. unfold as_bytes. apply bind_app. Qed.

Lemma as_bytes_cons c s : as_bytes (c :: s) = utf8_char c ++ as_bytes s.
Proof. done. Qed.

Lemma as_bytes_ascii s : Forall (λ c, c < 128) s → as_bytes s = s.
Proof.
  induction 1 as [|c s Hc _ IH]; [done|]. rewrite as_bytes_cons, IH. unfold utf8_char.
  by rewrite (proj2 (N.ltb_lt _ _) Hc).
Qed.

Lemma utf8_char_bytes c : is_scalar c = true → Forall is_byte (utf8_char c).
Proof.
  unfold is_scalar, utf8_char, is_byte. intros H.
  repeat match goal with |- context [?a <? ?b] => destruct (N.ltb_spec a b) end;
    repeat constructor; lia.
Qed.

Lemma as_bytes_bytes s : valid_str s → Forall is_byte (as_bytes s).
Proof.
  induction 1 as [|c s Hc _ IH]; [constructor|]. rewrite as_bytes_cons.
  apply Forall_app_2; [by apply utf8_char_bytes|done].
Qed.

Lemma from_utf8_char c l :
  is_scalar c = true → from_utf8 (utf8_char c ++ l) = cons c <$> from_utf8 l.
Proof.
  unfold is_scalar, utf8_char. intros H.
  destruct (N.ltb_spec c 128); [|destruct (N.ltb_spec c 2048); [|destruct (N.ltb_spec c 65536)]];
    cbn [app from_utf8]; unfold is_cont, is_scalar.
  - by rewrite (proj2 (N.ltb_lt _ _)).
  - rewrite (proj2 (N.ltb_ge _ 128)), (proj2 (N.ltb_lt _ 224)) by lia.
    replace ((_ - 192) * 64 + _) with c by lia.
    case_match eqn:E; [done|lia].
  - rewrite (proj2 (N.ltb_ge _ 128)), (proj2 (N.ltb_ge _ 224)), (proj2 (N.ltb_lt _ 240)) by lia.
    replace ((_ - 224) * 4096 + _ + _) with c by lia.
    case_match eqn:E; [done|lia].
  - rewrite (proj2 (N.ltb_ge _ 128)), (proj2 (N.ltb_ge _ 224)), (proj2 (N.ltb_ge _ 240)) by lia.
    replace ((_ - 240) * 262144 + _ + _ + _) with c by lia.
    case_match eqn:E; [done|lia].
Qed.

(** Every text is read back from its bytes. *)
Lemma from_utf8_as_bytes s : valid_str s → from_utf8 (as_bytes s) = Some s.
Proof.
  induction 1 as [|c s Hc _ IH]; [done|]. by rewrite as_bytes_cons, from_utf8_char, IH.
Qed.

Lemma from_utf8_ascii_app p l :
  Forall (λ c, c < 128) p → from_utf8 (p ++ l) = (λ s, p ++ s) <$> from_utf8 l.
Proof.
  induction 1 as [|c p Hc _ IH]; simpl; [by destruct (from_utf8 l)|].
  rewrite (proj2 (N.ltb_lt _ _) Hc), IH. by destruct (from_utf8 l).
Qed.

Lemma as_bytes_inj s t : valid_str s → valid_str t → as_bytes s = as_bytes t → s = t.
Proof. intros Hs Ht E. apply from_utf8_as_bytes in Hs, Ht. congruence. Qed.

(** ** Lemmas: hexadecimal numbers *)
Lemma hex_val_upper v : v < 16 → hex_val (hex_upper v) = Some v.
Proof.
  intros Hv. unfold hex_upper, hex_val. destruct (N.ltb_spec v 10).
  - rewrite (proj2 (N.leb_le 48 _)), (proj2 (N.leb_le _ 57)) by lia. simpl. f_equal. lia.
  - rewrite (proj2 (N.leb_gt _ 57)), (proj2 (N.leb_le 48 _)) by lia. simpl.
    rewrite (proj2 (N.leb_le 65 _)), (proj2 (N.leb_le _ 70)) by lia. simpl. f_equal. lia.
Qed.

Definition is_hex_upper (c : rchar) : Prop := ∃ v, v < 16 ∧ c = hex_upper v.

Lemma hex_upper_in v : v < 16 → 48 ≤ hex_upper v ≤ 57 ∨ 65 ≤ hex_upper v ≤ 70.
Proof. unfold hex_upper. destruct (N.ltb_spec v 10); lia. Qed.

Lemma is_hex_upper_not c s :
  Forall is_hex_upper s → (c < 48 ∨ 57 < c < 65 ∨ 70 < c) → c ∉ s.
Proof.
  intros Hs Hc Hin. rewrite Forall_forall in Hs. destruct (Hs _ Hin) as (v & Hv & ->).
  destruct (hex_upper_in v Hv); lia.
Qed.

Lemma hex_fold_app v s t :
  hex_fold v (s ++ t) = match hex_fold v s with Some w => hex_fold w t | None => None end.
Proof. revert v. induction s as [|c s IH]; intros v; simpl; [done|]. by destruct (hex_val c). Qed.

(** The digits in front of [acc] have the value [n], if there is room for them. *)
Lemma hex_digits_spec fuel n acc : n < 16 ^ N.of_nat (S fuel) →
  ∃ ds, hex_digits (S fuel) n acc = ds ++ acc ∧ hex_fold 0 ds = Some (Z.of_N n) ∧
    Forall is_hex_upper ds ∧ ds ≠ [].
Proof.
  revert n acc. induction fuel as [|fuel IH]; intros n acc Hn.
  - assert (n < 16) by (change (16 ^ N.of_nat 1) with 16 in Hn; lia).
    exists [hex_upper (n mod 16)]. cbn [hex_digits hex_fold].
    rewrite hex_val_upper by (apply N.mod_lt; lia). rewrite N.mod_small by lia.
    destruct (n <? 16); (split; [done|]); (split; [f_equal; lia|]);
      (split; [|done]); constructor; try done; by exists n.
  - remember (S fuel) as f. cbn [hex_digits]. destruct (N.ltb_spec n 16) as [H|H].
    + exists [hex_upper (n mod 16)]. cbn [hex_fold].
      rewrite hex_val_upper by (apply N.mod_lt; lia). rewrite N.mod_small by lia.
      split; [done|]. split; [f_equal; lia|]. split; [|done]. constructor; try done. by exists n.
    + assert (n / 16 < 16 ^ N.of_nat f) as Hd.
      { apply N.Div0.div_lt_upper_bound. rewrite <- N.pow_succ_r'. by rewrite <- Nat2N.inj_succ. }
      subst f. destruct (IH (n / 16) (hex_upper (n mod 16) :: acc) Hd) as (ds & E & Hf & Hh & Hne).
      exists (ds ++ [hex_upper (n mod 16)]). rewrite E, <- app_assoc. split; [done|].
      rewrite hex_fold_app, Hf. cbn [hex_fold].
      rewrite hex_val_upper by (apply N.mod_lt; lia).
      split; [f_equal; lia|]. split; [|by destruct ds].
      apply Forall_app_2; [done|]. constructor; [|done]. exists (n mod 16). split; [|done]. lia.
Qed.

Lemma hex_fold_zeros n s : hex_fold 0 (replicate n 48 ++ s) = hex_fold 0 s.
Proof. induction n as [|n IH]; [done|]. simpl. exact IH. Qed.

Lemma fmt_08X_spec t :
  hex_fold 0 (fmt_08X t) = Some (t mod 2 ^ 64)%Z ∧ Forall is_hex_upper (fmt_08X t) ∧ fmt_08X t ≠ [].
Proof.
  pose proof (Z.mod_pos_bound t (2 ^ 64) ltac:(lia)) as Hb. unfold fmt_08X.
  destruct (hex_digits_spec 15 (Z.to_N (t mod 2 ^ 64)) []) as (ds & E & Hf & Hh & Hne).
  { change (16 ^ N.of_nat 16) with 18446744073709551616. lia. }
  rewrite app_nil_r in E. rewrite E, hex_fold_zeros, Hf. split; [f_equal; lia|]. split.
  - apply Forall_app_2; [|done]. apply Forall_replicate. by exists 0.
  - destruct ds; [done|]. by destruct (8 - _)%nat.
Qed.

(** The time stamps after the epoch are read back, and no two times are written alike. *)
Lemma i64_from_hex_fmt t : (0 ≤ t < 2 ^ 63)%Z → i64_from_hex (fmt_08X t) = Some t.
Proof.
  intros Ht. destruct (fmt_08X_spec t) as (Hf & Hh & Hne). rewrite Z.mod_small in Hf by lia.
  unfold i64_from_hex. destruct (fmt_08X t) as [|c s] eqn:E; [done|].
  assert (c ≠ 43 ∧ c ≠ 45) as [H1 H2].
  { inversion Hh as [|? ? (v & Hv & ->)]; subst. destruct (hex_upper_in v Hv); lia. }
  assert ((match c :: s with 43 :: s0 => (false, s0) | 45 :: s0 => (true, s0) | _ => (false, c :: s) end)
          = (false, c :: s)) as Em.
  { destruct c as [|p]; [done|]. do 6 (destruct p as [p|p|]; try done). }
  rewrite Em, Hf. unfold i64_ok. by rewrite (proj2 (Z.leb_le _ _)), (proj2 (Z.ltb_lt _ _)) by lia.
Qed.

Lemma fmt_08X_inj t u : i64_ok t = true → i64_ok u = true → fmt_08X t = fmt_08X u → t = u.
Proof.
  unfold i64_ok. intros Ht Hu E. destruct (fmt_08X_spec t) as [H1 _], (fmt_08X_spec u) as [H2 _].
  rewrite E in H1. assert (t mod 2 ^ 64 = u mod 2 ^ 64)%Z by congruence.
  pose proof (Z.div_mod t (2 ^ 64)). pose proof (Z.div_mod u (2 ^ 64)). lia.
Qed.

Lemma fmt_08X_not c t : (c < 48 ∨ 57 < c < 65 ∨ 70 < c) → c ∉ fmt_08X t.
Proof. intros Hc. destruct (fmt_08X_spec t) as (_ & Hh & _). by apply is_hex_upper_not. Qed.

Lemma i64_wrap_ok z : i64_ok z = true → i64_wrap z = z.
Proof. unfold i64_ok, i64_wrap. intros H. rewrite Z.mod_small; lia. Qed.

(** ** Lemmas: splitting *)
Lemma splitn_app n c a b : c ∉ a → splitn (S (S n)) c (a ++ c :: b) = a :: splitn (S n) c b.
Proof.
  intros Ha. remember (S n) as m. cbn [splitn]. subst m.
  by rewrite (proj2 (split_once_iff c _ a b) (conj eq_refl Ha)).
Qed.

(** Texts without white space are not changed by trimming. *)
Lemma trim_id s : Forall (λ c, is_whitespace c = false) s → trim s = s.
Proof.
  assert (∀ t, Forall (λ c, is_whitespace c = false) t → drop_while is_whitespace t = t) as Hd.
  { intros t [|c t' Hc _]; simpl; [done|]. by rewrite Hc. }
  intros Hs. unfold trim, trim_start, trim_end. rewrite (Hd s) by done.
  rewrite Hd; [apply reverse_involutive|]. by apply Forall_reverse.
Qed.

Lemma app_cons_inj {A} (c : A) a a' b b' :
  c ∉ a → c ∉ a' → a ++ c :: b = a' ++ c :: b' → a = a' ∧ b = b'.
Proof.
  revert a'. induction a as [|x a IH]; intros [|x' a'] Ha Ha' E; simplify_eq/=.
  - done.
  - set_solver.
  - set_solver.
  - destruct (IH a') as [-> ->]; set_solver.
Qed.

(** ** Lemmas: percent encoding *)
Section Percent.
Context `{P : PercentCoding} {laws : PercentLaws P}.

Lemma percent_encode_cases set b l : b < 256 →
  (percent_encode set (b :: l) = b :: percent_encode set l ∧ b < 128 ∧ set b = false) ∨
  (percent_encode set (b :: l) =
     37 :: hex_upper (b / 16) :: hex_upper (b mod 16) :: percent_encode set l ∧
   (128 ≤ b ∨ set b = true)).
Proof using laws.
  intros Hb. destruct (N.ltb_spec b 128), (set b) eqn:E.
  - right. split; [|by right]. apply percent_encode_escape; auto.
  - left. split; [|done]. by apply percent_encode_keep.
  - right. split; [|by right]. apply percent_encode_escape; auto.
  - right. split; [|by left]. apply percent_encode_escape; auto.
Qed.

Lemma percent_encode_ascii set l : Forall is_byte l → Forall (λ c, c < 128) (percent_encode set l).
Proof using laws.
  induction 1 as [|b l Hb _ IH]; [by rewrite percent_encode_nil|]. unfold is_byte in Hb.
  destruct (percent_encode_cases set b l Hb) as [(-> & ? & _)|(-> & _)]; [by constructor|].
  pose proof (hex_upper_in (b / 16) ltac:(lia)). pose proof (hex_upper_in (b mod 16) ltac:(lia)).
  repeat constructor; try done; lia.
Qed.

(** A character of the set that is not part of an escape does not occur. *)
Lemma percent_encode_not set c l :
  Forall is_byte l → set c = true → c ≠ 37 → (c < 48 ∨ 57 < c < 65 ∨ 70 < c) →
  c ∉ percent_encode set l.
Proof using laws.
  intros Hl Hset Hp Hc. induction Hl as [|b l Hb _ IH].
  { rewrite percent_encode_nil. apply not_elem_of_nil. }
  unfold is_byte in Hb. destruct (percent_encode_cases set b l Hb) as [(-> & ? & ?)|(-> & _)].
  - apply not_elem_of_cons. split; [congruence|done].
  - pose proof (hex_upper_in (b / 16) ltac:(lia)). pose proof (hex_upper_in (b mod 16) ltac:(lia)).
    rewrite !not_elem_of_cons. repeat split; try done; lia.
Qed.

Lemma percent_decode_app p l : 37 ∉ p → percent_decode (p ++ l) = p ++ percent_decode l.
Proof using laws.
  induction p as [|b p IH]; intros Hp; [done|]. apply not_elem_of_cons in Hp as [Hb Hp]. simpl.
  rewrite percent_decode_plain by done. by rewrite IH.
Qed.

(** Neither does a character that is not in the input. *)
Lemma percent_encode_fresh set c l :
  Forall is_byte l → c ∉ l → c ≠ 37 → (c < 48 ∨ 57 < c < 65 ∨ 70 < c) → c ∉ percent_encode set l.
Proof using laws.
  intros Hl Hin Hp Hc. induction Hl as [|b l Hb _ IH].
  { rewrite percent_encode_nil. apply not_elem_of_nil. }
  apply not_elem_of_cons in Hin as [Hcb Hin]. unfold is_byte in Hb.
  destruct (percent_encode_cases set b l Hb) as [(-> & _ & _)|(-> & _)].
  - apply not_elem_of_cons. auto.
  - pose proof (hex_upper_in (b / 16) ltac:(lia)). pose proof (hex_upper_in (b mod 16) ltac:(lia)).
    rewrite !not_elem_of_cons. repeat split; try done; try lia. auto.
Qed.

(** Without a per cent sign in the input, decoding undoes the encoding. *)
Lemma percent_decode_encode_app set l r :
  Forall is_byte l → 37 ∉ l → percent_decode (percent_encode set l ++ r) = l ++ percent_decode r.
Proof using laws.
  induction 1 as [|b l Hb _ IH]; intros Hp; [by rewrite percent_encode_nil|].
  apply not_elem_of_cons in Hp as [Hb' Hp]. unfold is_byte in Hb.
  destruct (percent_encode_cases set b l Hb) as [(-> & _ & _)|(-> & _)]; cbn [app].
  - rewrite percent_decode_plain by done. by rewrite IH.
  - rewrite (percent_decode_escape _ _ (b / 16) (b mod 16)) by (apply hex_val_upper; lia).
    rewrite IH by done. f_equal. lia.
Qed.

Lemma percent_decode_encode set l :
  Forall is_byte l → 37 ∉ l → percent_decode (percent_encode set l) = l.
Proof using laws.
  intros Hb Hl. rewrite <- (app_nil_r (percent_encode _ _)), percent_decode_encode_app by done.
  by rewrite percent_decode_nil, app_nil_r.
Qed.

Lemma percent_decode_id l : 37 ∉ l → percent_decode l = l.
Proof using laws. intros Hl. rewrite <- (app_nil_r l), percent_decode_app, percent_decode_nil; done. Qed.

Lemma percent_encode_app_keep set p l :
  Forall (λ b, b < 128 ∧ set b = false) p → percent_encode set (p ++ l) = p ++ percent_encode set l.
Proof using laws.
  induction 1 as [|b p [Hb Hs] _ IH]; [done|]. simpl. rewrite percent_encode_keep by done. by rewrite IH.
Qed.

Lemma as_bytes_fresh c s : c < 128 → c ∉ s → c ∉ as_bytes s.
Proof.
  intros Hlt.
  induction s as [|d s IH]; intros Hs; [done|]. apply not_elem_of_cons in Hs as [Hc Hs].
  rewrite as_bytes_cons, not_elem_of_app. split; [|auto]. unfold utf8_char.
  repeat match goal with |- context [?a <? ?b] => destruct (N.ltb_spec a b) end;
    rewrite ?not_elem_of_cons; repeat split; try apply not_elem_of_nil; try done; lia.
Qed.

Lemma as_bytes_no_percent s : 37 ∉ s → 37 ∉ as_bytes s.
Proof. by apply as_bytes_fresh. Qed.

Lemma decode_str_encode set s :
  valid_str s → 37 ∉ s → decode_str (percent_encode set (as_bytes s)) = Some s.
Proof using laws.
  intros Hv Hp. unfold decode_str. pose proof (as_bytes_bytes s Hv) as Hb.
  rewrite as_bytes_ascii by by apply percent_encode_ascii.
  rewrite percent_decode_encode by (try done; by apply as_bytes_no_percent).
  by apply from_utf8_as_bytes.
Qed.

Lemma decode_str_plain s : valid_str s → 37 ∉ s → decode_str s = Some s.
Proof using laws.
  intros Hv Hp. unfold decode_str. rewrite percent_decode_id by by apply as_bytes_no_percent.
  by apply from_utf8_as_bytes.
Qed.

(** An ASCII text in front that is not escaped is in front of what is decoded. *)
Lemma decode_str_front p s d :
  Forall (λ b, b < 128) p → 37 ∉ p → decode_str (p ++ s) = Some d → ∃ r, d = p ++ r.
Proof using laws.
  intros Ha Hp. unfold decode_str. rewrite as_bytes_app, (as_bytes_ascii p) by done.
  rewrite percent_decode_app, from_utf8_ascii_app by done.
  destruct (from_utf8 _) as [r|]; intros [= <-]. by exists r.
Qed.

Lemma percent_encode_inj set s t :
  valid_str s → valid_str t → 37 ∉ s → 37 ∉ t →
  percent_encode set (as_bytes s) = percent_encode set (as_bytes t) → s = t.
Proof using laws.
  intros Hs Ht H1 H2 E. pose proof (decode_str_encode set s Hs H1).
  pose proof (decode_str_encode set t Ht H2). congruence.
Qed.
End Percent.

(** ** The laws can hold *)
Definition spelled_encode (set : N → bool) (l : list N) : rstr :=
  l ≫= λ b, if (b <? 128) && negb (set b) then [b]
            else [37; hex_upper (b / 16); hex_upper (b mod 16)].

Fixpoint spelled_decode (l : list N) : list N :=
  match l with
  | [] => []
  | b :: l =>
      if b =? 37 then
        match l with
        | h1 :: (h2 :: r) =>
            match hex_val h1, hex_val h2 with
            | Some x, Some y => 16 * x + y :: spelled_decode r
            | _, _ => 37 :: spelled_decode l
            end
        | _ => 37 :: spelled_decode l
        end
      else b :: spelled_decode l
  end.

Definition spelled_percent : PercentCoding :=
  {| percent_encode := spelled_encode; percent_decode := spelled_decode |}.

Lemma spelled_percent_laws : PercentLaws spelled_percent.
Proof.
  split; simpl; try done.
  - intros set b l Hb Hs. unfold spelled_encode at 1. simpl.
    by rewrite (proj2 (N.ltb_lt _ _) Hb), Hs.
  - intros set b l Hb Hs. unfold spelled_encode at 1. simpl.
    destruct ((b <? 128) && negb (set b)) eqn:E; [|done]. destruct (set b); lia || (destruct Hs; [lia|done]).
  - intros b l Hb. by rewrite (proj2 (N.eqb_neq _ _) Hb).
  - intros h1 h2 x y l -> ->. done.
  - intros l Hl. destruct l as [|h1 [|h2 r]]; [done|done|].
    destruct (Hl h1 h2 r eq_refl) as [->| ->]; [done|]. by destruct (hex_val h1).
Qed.

(** Two digits of base 16 per byte are a coding over the alphabet of base64. *)
Fixpoint pairs_decode (s : rstr) : option (list N) :=
  match s with
  | [] => Some []
  | h1 :: h2 :: s =>
      match hex_val h1, hex_val h2 with
      | Some x, Some y => cons (16 * x + y) <$> pairs_decode s
      | _, _ => None
      end
  | _ => None
  end.

Definition pairs_encode (l : list N) : rstr :=
  l ≫= λ b, [hex_upper (b / 16 mod 16); hex_upper (b mod 16)].

Definition spelled_base64 : Base64 :=
  {| encode_no_pad := pairs_encode; decode_no_pad := pairs_decode |}.

Lemma spelled_base64_laws : Base64Laws spelled_base64.
Proof.
  split; simpl.
  - induction 1 as [|b l Hb _ IH]; [done|]. unfold is_byte in Hb.
    change (pairs_encode (b :: l)) with
      (hex_upper (b / 16 mod 16) :: hex_upper (b mod 16) :: pairs_encode l). cbn [pairs_decode].
    rewrite !hex_val_upper, IH by (apply N.mod_lt; lia). simpl. do 2 f_equal. lia.
  - intros l. induction l as [|b l IH]; [constructor|].
    assert (∀ v, v < 16 → base64_char (hex_upper v) = true) as Hc.
    { intros v Hv. unfold base64_char, is_ascii_alphanumeric, is_ascii_alphabetic, is_ascii_digit.
      destruct (hex_upper_in v Hv); lia. }
    repeat constructor; try done; apply Hc; apply N.mod_lt; lia.
Qed.
