(* ===== verification/TfaLogin.v ===== *)
(** * TfaLogin: the challenge a login creates, and the response to it

    Models [TfaChallenge], [TfaResponse::from_str], [TfaUserData::challenge] and
    [TfaConfig::authentication_challenge] of [proxmox-tfa/src/api/mod.rs], which
    decide whether a password alone is enough to log in. What [webauthn-rs] and
    the random number generator give is a parameter of each call. *)
From stdpp Require Import gmap.
From S2P Require Import Prelude Tfa.

#[local] Open Scope Z_scope.

(** The data of challenges that other crates define, and the JSON parser. *)
Class ChallengeData (crypto : Crypto) := mkChallengeData {
  RegisteredKey : Type;
  RequestChallengeResponse : Type;
  registration_key : U2fRegistration → RegisteredKey;
  challenge_string : RequestChallengeResponse → rstr;
  force_allow_backup_eligibility : WebauthnState → result WebauthnState TfaError;
  value_from_str : rstr → result Value TfaError;
}.

Section TfaLogin.
Context {limits : Limits} {crypto : Crypto} {cdata : ChallengeData crypto}.

(** What one login draws: the webauthn challenge for a list of credentials and the u2f
    challenge. *)
Record Draw := mkDraw {
  start_securitykey_authentication :
    list WebauthnCredential → result (RequestChallengeResponse * WebauthnState) TfaError;
  auth_challenge : result AuthChallenge TfaError;
}.

Record U2fChallenge := mkU2f { u2fc_challenge : AuthChallenge; u2fc_keys : list RegisteredKey }.

Record TfaChallenge := mkChallenge {
  ch_totp : bool;
  ch_recovery : option (list nat);
  ch_u2f : option U2fChallenge;
  ch_webauthn : option RequestChallengeResponse;
  ch_yubico : bool;
}.

(** [TfaChallenge::is_empty] *)
Definition challenge_is_empty (c : TfaChallenge) : bool :=
  negb c.(ch_totp) && bool_decide (c.(ch_recovery) = None) && negb (bool_decide (is_Some c.(ch_u2f)))
  && negb (bool_decide (is_Some c.(ch_webauthn))) && negb c.(ch_yubico).

(** [TfaResponse::from_str] *)
Definition response_from_str (s : rstr) : result TfaResponse TfaError :=
  match strip_prefix (lit "totp:") s with
  | Some totp => Ok (ResTotp totp)
  | None =>
  match strip_prefix (lit "u2f:") s with
  | Some u2f => let? v := value_from_str u2f in Ok (ResU2f v)
  | None =>
  match strip_prefix (lit "webauthn:") s with
  | Some webauthn => let? v := value_from_str webauthn in Ok (ResWebauthn v)
  | None =>
  match strip_prefix (lit "recovery:") s with
  | Some recovery => Ok (ResRecovery recovery)
  | None => Err InvalidResponse
  end end end end.

(** [TfaUserData::is_empty] *)
Definition user_is_empty (u : TfaUserData) : bool :=
  bool_decide (length u.(totp) = 0%nat) && bool_decide (length u.(u2f) = 0%nat)
  && bool_decide (length u.(webauthn) = 0%nat) && bool_decide (length u.(yubico) = 0%nat)
  && bool_decide (u.(recovery) = None).

(** [RecoveryState::from]: the indices of the keys that are left. *)
Definition RecoveryState_from (r : Recovery) : list nat :=
  omap (λ x, match x.2 with Some _ => Some x.1 | None => None end) (imap pair r.(entries)).
Definition recovery_state (u : TfaUserData) : option (list nat) := RecoveryState_from <$> u.(recovery).

Definition enabled_webauthn_entries (u : TfaUserData) : list WebauthnCredential :=
  entry <$> List.filter (λ e, e.(info).(enable)) u.(webauthn).

(** [TfaUserData::webauthn_challenge] *)
Definition webauthn_challenge (env : Env) (d : Draw) (u : TfaUserData) (st : Store)
    : Store * result (option RequestChallengeResponse) TfaError :=
  match u.(webauthn) with
  | [] => (st, Ok None)
  | _ =>
      match enabled_webauthn_entries u with
      | [] => (st, Ok None)
      | creds =>
          match d.(start_securitykey_authentication) creds with
          | Err e => (st, Err e)
          | Ok (challenge, state) =>
              match open env st with
              | Err e => (st, Err e)
              | Ok data =>
                  match force_allow_backup_eligibility state with
                  | Err e => (st, Err e)
                  | Ok state =>
                      let c := mkWaChallenge state (challenge_string challenge) env.(now) in
                      match save env st (with_webauthn_auths data (data.(webauthn_auths) ++ [c])) with
                      | (st, Err e) => (st, Err e)
                      | (st, Ok _) => (st, Ok (Some challenge))
                      end
                  end
              end
          end
      end
  end.

(** [TfaUserData::u2f_challenge] *)
Definition u2f_user_challenge (env : Env) (d : Draw) (u : TfaUserData) (st : Store)
    : Store * result (option U2fChallenge) TfaError :=
  match u.(u2f) with
  | [] => (st, Ok None)
  | _ =>
      match registration_key <$> enabled_u2f_entries u with
      | [] => (st, Ok None)
      | keys =>
          match d.(auth_challenge) with
          | Err e => (st, Err e)
          | Ok c =>
              match open env st with
              | Err e => (st, Err e)
              | Ok data =>
                  let entry := mkU2fChallenge c env.(now) in
                  match save env st (with_u2f_auths data (data.(u2f_auths) ++ [entry])) with
                  | (st, Err e) => (st, Err e)
                  | (st, Ok _) => (st, Ok (Some (mkU2f c keys)))
                  end
              end
          end
      end
  end.

(** The two matches of [TfaUserData::challenge] over the contexts: a challenge that
    cannot be made counts as [not_empty]. *)
Definition factor_challenge {A} (usable has_entries : bool) (st : Store)
    (run : Store → Store * result (option A) TfaError) : Store * option A * bool :=
  if usable then
    match run st with
    | (st, Ok c) => (st, c, false)
    | (st, Err _) => (st, None, true)
    end
  else (st, None, has_entries).

(** [TfaUserData::challenge] *)
Definition user_challenge (env : Env) (d : Draw) (use_webauthn use_u2f : bool) (u : TfaUserData) (st : Store)
    : Store * result (option TfaChallenge) TfaError :=
  if user_is_empty u then (st, Ok None)
  else
    let '(st, wa, wa_not_empty) :=
      factor_challenge use_webauthn (negb (bool_decide (length (enabled_webauthn_entries u) = 0%nat))) st
        (webauthn_challenge env d u) in
    let '(st, u2fc, u2f_not_empty) :=
      factor_challenge use_u2f (negb (bool_decide (length (enabled_u2f_entries u) = 0%nat))) st
        (u2f_user_challenge env d u) in
    let challenge := {|
      ch_totp := existsb (λ e, e.(info).(enable)) u.(totp);
      ch_recovery := recovery_state u;
      ch_u2f := u2fc;
      ch_webauthn := wa;
      ch_yubico := existsb (λ e, e.(info).(enable)) u.(yubico) |} in
    if challenge_is_empty challenge && negb (wa_not_empty || u2f_not_empty) then (st, Ok None)
    else (st, Ok (Some challenge)).

(** [TfaConfig::authentication_challenge]; without an origin [get_webauthn] is a
    context or none, never an error. *)
Definition authentication_challenge (env : Env) (d : Draw) (cfg : TfaConfig) (userid : rstr) (st : Store)
    : Store * result (option TfaChallenge) TfaError :=
  match cfg.(users) !! userid with
  | Some udata =>
      user_challenge env d (cfg.(webauthn_configured) && env.(webauthn_builds)) cfg.(u2f_configured) udata st
  | None => (st, Ok None)
  end.

(** ** When a login needs a second factor *)

(** Some factor of the user can be asked for. *)
Definition has_factor (u : TfaUserData) : bool :=
  existsb (λ e, e.(info).(enable)) u.(totp) || existsb (λ e, e.(info).(enable)) u.(u2f)
  || existsb (λ e, e.(info).(enable)) u.(webauthn) || existsb (λ e, e.(info).(enable)) u.(yubico)
  || bool_decide (is_Some u.(recovery)).

Lemma enabled_entries_nil {A} (l : list (TfaEntry A)) :
  entry <$> List.filter (λ e, e.(info).(enable)) l = []
  ↔ existsb (λ e, e.(info).(enable)) l = false.
Proof. induction l as [|e l IH]; simpl; [done|]. by destruct (enable (info e)). Qed.

(** The challenge of a device is missing only if no device is enabled. *)
Lemma webauthn_challenge_none env d u st st' :
  webauthn_challenge env d u st = (st', Ok None) ↔
  st' = st ∧ existsb (λ e, e.(info).(enable)) u.(webauthn) = false.
Proof.
  rewrite <- enabled_entries_nil. fold (enabled_webauthn_entries u). unfold webauthn_challenge.
  destruct (webauthn u) eqn:E.
  { assert (enabled_webauthn_entries u = []) as -> by (unfold enabled_webauthn_entries; by rewrite E).
    split; [by intros [= ->]|by intros [-> _]]. }
  destruct (enabled_webauthn_entries u) as [|c cs]; [split; [by intros [= ->]|by intros [-> _]]|].
  split; [|by intros [_ ?]]. destruct (start_securitykey_authentication d _) as [[ch s]|]; [|done].
  destruct (open env st); [|done]. destruct (force_allow_backup_eligibility s); [|done].
  by destruct (save env st _) as [? [?|?]].
Qed.

Lemma u2f_challenge_none env d u st st' :
  u2f_user_challenge env d u st = (st', Ok None) ↔
  st' = st ∧ existsb (λ e, e.(info).(enable)) u.(u2f) = false.
Proof.
  rewrite <- enabled_entries_nil. fold (enabled_u2f_entries u).
  unfold u2f_user_challenge.
  destruct (u2f u) eqn:E.
  { assert (enabled_u2f_entries u = []) as -> by (unfold enabled_u2f_entries; by rewrite E).
    split; [by intros [= ->]|by intros [-> _]]. }
  destruct (enabled_u2f_entries u) as [|c cs]; simpl; [split; [by intros [= ->]|by intros [-> _]]|].
  split; [|by intros [_ ?]]. destruct (auth_challenge d); [|done].
  destruct (open env st); [|done]. by destruct (save env st _) as [? [?|?]].
Qed.

(** What a device contributes: nothing exactly if none is enabled. *)
Lemma factor_challenge_nothing {A} usable (enabled : bool) st (run : Store → Store * result (option A) TfaError) :
  (∀ st', run st = (st', Ok None) ↔ st' = st ∧ enabled = false) →
  let '(_, c, ne) := factor_challenge usable enabled st run in
  negb (bool_decide (is_Some c)) && negb ne = negb enabled.
Proof.
  intros Hrun. unfold factor_challenge. destruct usable; [|by destruct enabled].
  destruct (run st) as [st' [[c|]|e]] eqn:E; simpl.
  - destruct enabled; [done|]. pose proof (proj2 (Hrun st) (conj eq_refl eq_refl)). congruence.
  - by destruct (proj1 (Hrun st') eq_refl) as [_ ->].
  - destruct enabled; [done|]. pose proof (proj2 (Hrun st) (conj eq_refl eq_refl)). congruence.
Qed.

Lemma length_enabled {A} (l : list (TfaEntry A)) :
  negb (bool_decide (length (entry <$> List.filter (λ e, e.(info).(enable)) l) = 0%nat))
  = existsb (λ e, e.(info).(enable)) l.
Proof.
  destruct (existsb _ l) eqn:E.
  - rewrite bool_decide_eq_false_2; [done|]. intros H%nil_length_inv.
    apply enabled_entries_nil in H. congruence.
  - apply enabled_entries_nil in E. by rewrite E.
Qed.

(** An empty list of factors has none that is enabled. *)
Lemma user_is_empty_no_factor u : user_is_empty u = true → has_factor u = false.
Proof.
  unfold user_is_empty, has_factor. rewrite !andb_true_iff, !bool_decide_eq_true.
  intros [[[[H1 H2] H3] H4] H5]. apply nil_length_inv in H1, H2, H3, H4.
  by rewrite H1, H2, H3, H4, H5.
Qed.

Lemma user_challenge_none env d wa u2 u st :
  ∃ st' r, user_challenge env d wa u2 u st = (st', Ok r) ∧ (r = None ↔ has_factor u = false).
Proof.
  unfold user_challenge. destruct (user_is_empty u) eqn:Ee.
  { eexists _, _. split; [done|]. split; [|done]. intros _. by apply user_is_empty_no_factor. }
  unfold enabled_webauthn_entries, enabled_u2f_entries. rewrite !length_enabled.
  pose proof (factor_challenge_nothing wa (existsb (λ e, e.(info).(enable)) u.(webauthn)) st
    (webauthn_challenge env d u) (λ st', webauthn_challenge_none env d u st st')) as Hw.
  destruct (factor_challenge wa _ st _) as [[st1 c1] ne1].
  pose proof (factor_challenge_nothing u2 (existsb (λ e, e.(info).(enable)) u.(u2f)) st1
    (u2f_user_challenge env d u) (λ st', u2f_challenge_none env d u st1 st')) as Hu.
  destruct (factor_challenge u2 _ st1 _) as [[st2 c2] ne2].
  unfold challenge_is_empty, has_factor, recovery_state. simpl.
  set (bt := existsb _ (totp u)) in *. set (by_ := existsb _ (yubico u)) in *.
  set (bw := existsb _ (webauthn u)) in *. set (bu := existsb _ (u2f u)) in *.
  destruct (recovery u) as [r|]; simpl.
  - rewrite andb_false_r. simpl.
    eexists _, _. split; [done|]. rewrite orb_true_r. by split.
  - destruct bt, by_, bw, bu, (bool_decide (is_Some c1)), (bool_decide (is_Some c2)), ne1, ne2;
      simpl in *; try discriminate; eexists _, _; (split; [reflexivity|]); by split.
Qed.

(** A login needs no second factor exactly if the user has no factor that is
    enabled, also if the devices' challenges cannot be made. *)
Theorem authentication_challenge_none env d cfg userid st :
  ∃ st' r, authentication_challenge env d cfg userid st = (st', Ok r) ∧
    (r = None ↔ ∀ u, cfg.(users) !! userid = Some u → has_factor u = false).
Proof.
  unfold authentication_challenge. destruct (users cfg !! userid) as [u|].
  - destruct (user_challenge_none env d (webauthn_configured cfg && webauthn_builds env)
      (u2f_configured cfg) u st) as (st' & r & -> & Hr).
    exists st', r. split; [done|]. rewrite Hr. split; [by intros H u' [= <-]|by intros H; apply H].
  - exists st, None. split; [done|]. by split.
Qed.
End TfaLogin.
