(* ===== verification/Ticket.v ===== *)
(** * Ticket: keyrings and signed tickets

    Models [proxmox-auth-api/src/auth_key.rs] (the keyring, its rollover keys and
    HMAC keys), [ticket.rs] (the text form of a ticket, signing, parsing,
    verification) and [api/ticket.rs] (full and partial API tickets). OpenSSL, the
    percent encoding, base64 and the JSON text of a challenge are parameters. *)
From S2P Require Import Prelude AuthTypes Tfa TfaLogin TextCoding.

#[local] Open Scope Z_scope.

(** ** Keys *)
Inductive MessageDigest := sha256 | sha3_256.

Inductive TicketError :=
| SslError | NoSigningKey
| WrongPrefix | WithoutSignature | NewerThanExpected | Expired | InvalidSignature | BadData
| WithoutPart | BadPrefixText | BadDataText | BadTimestamp | WithoutSeparator | BadSignatureText
| SecondFactorRequired | InvalidTfaChallenge.

(** OpenSSL: asymmetric keys ([PKey], private or public), HMAC keys, SHA-256. *)
Class OpenSsl := {
  PKey : Type;
  HmacPKey : Type;
  is_ed25519 : PKey → bool;
  sign_oneshot : PKey → option MessageDigest → list N → result (list N) TicketError;
  verify_oneshot : PKey → option MessageDigest → list N → list N → result bool TicketError;
  hmac_sign_oneshot : HmacPKey → MessageDigest → list N → result (list N) TicketError;
  raw_private_key : HmacPKey → result (list N) TicketError;
  sha256_sum : list N → list N;
}.

(** A key accepts the signatures it made, and a signature consists of bytes. *)
Class OpenSslLaws (S : OpenSsl) : Prop := {
  verify_own k d m s : sign_oneshot k d m = Ok s → verify_oneshot k d s m = Ok true;
  sign_bytes k d m s : sign_oneshot k d m = Ok s → Forall is_byte s;
  hmac_bytes k d m s : hmac_sign_oneshot k d m = Ok s → Forall is_byte s;
}.

Section Keyring.
Context {ssl : OpenSsl}.

(** [PrivateKey::sign] and the local function of [Keyring::verify]. *)
Definition private_key_sign (k : PKey) (d : MessageDigest) (m : list N) : result (list N) TicketError :=
  if is_ed25519 k then sign_oneshot k None m else sign_oneshot k (Some d) m.
Definition verify_with (k : PKey) (d : MessageDigest) (sig m : list N) : result bool TicketError :=
  if is_ed25519 k then verify_oneshot k None sig m else verify_oneshot k (Some d) sig m.

(** [HMACKey::sign] and [HMACKey::verify] *)
Definition hmac_sign (k : HmacPKey) (d : MessageDigest) (m : list N) : result (list N) TicketError :=
  hmac_sign_oneshot k d m.
Definition hmac_verify (k : HmacPKey) (d : MessageDigest) (sig m : list N) : result bool TicketError :=
  let? digest := hmac_sign k d m in
  if (length sig =? length digest)%nat && bool_decide (sig = digest) then Ok true else Ok false.

Inductive SigningKey := SigningPrivate (k : PKey) | SigningHmac (k : HmacPKey).
Inductive VerificationKey := VerifyPublic (k : PKey) | VerifyHmac (k : HmacPKey).

Record Keyring := mkKeyring {
  signing_key : option SigningKey;
  public_keys : list VerificationKey;
}.

Definition keyring_new : Keyring := mkKeyring None [].
Definition with_public_key (k : PKey) : Keyring := mkKeyring None [VerifyPublic k].
Definition with_private_key (k : PKey) : Keyring := mkKeyring (Some (SigningPrivate k)) [].
Definition with_hmac_key (k : HmacPKey) : Keyring := mkKeyring (Some (SigningHmac k)) [].
Definition add_public_key (r : Keyring) (k : PKey) : Keyring :=
  mkKeyring r.(signing_key) (r.(public_keys) ++ [VerifyPublic k]).
Definition add_hmac_key (r : Keyring) (k : HmacPKey) : Keyring :=
  mkKeyring r.(signing_key) (r.(public_keys) ++ [VerifyHmac k]).

(** The loop of [Keyring::verify] over the verification keys. *)
Fixpoint verify_keys (l : list VerificationKey) (d : MessageDigest) (sig m : list N)
    : result bool TicketError :=
  match l with
  | [] => Ok false
  | key :: l =>
      let? accepted := match key with
                       | VerifyPublic k => verify_with k d sig m
                       | VerifyHmac k => hmac_verify k d sig m
                       end in
      if accepted : bool then Ok true else verify_keys l d sig m
  end.

(** [Keyring::verify]: the first key that fails ends the search with its error. *)
Definition keyring_verify (r : Keyring) (d : MessageDigest) (sig m : list N) : result bool TicketError :=
  match r.(signing_key) with
  | Some key =>
      let? accepted := match key with
                       | SigningPrivate k => verify_with k d sig m
                       | SigningHmac k => hmac_verify k d sig m
                       end in
      if accepted : bool then Ok true else verify_keys r.(public_keys) d sig m
  | None => verify_keys r.(public_keys) d sig m
  end.

(** [Keyring::sign] *)
Definition keyring_sign (r : Keyring) (d : MessageDigest) (m : list N) : result (list N) TicketError :=
  match r.(signing_key) with
  | None => Err NoSigningKey
  | Some (SigningPrivate k) => private_key_sign k d m
  | Some (SigningHmac k) => hmac_sign k d m
  end.
End Keyring.

(** ** Tickets *)

(** What a ticket can carry: the bounds [ToString + FromStr] of [Ticket<T>]. *)
Class TicketData (T : Type) := {
  to_string : T → rstr;
  from_str : rstr → result T TicketError;
}.

(** [Empty] *)
Inductive Empty := empty.
#[export] Instance empty_data : TicketData Empty := {|
  to_string := λ _, [];
  from_str := λ s, if decide (s = []) then Ok empty else Err BadData |}.

#[export] Instance userid_data : TicketData Userid := {|
  to_string := AuthTypes.data;
  from_str := λ s, match userid_from_str s with Ok u => Ok u | Err _ => Err BadData end |}.

Definition colon : rchar := 58%N.
Definition TICKET_LIFETIME : Z := 3600 * 2.

(** Controls and the colon, but not the per cent sign. *)
Definition TICKET_ASCIISET (b : N) : bool := CONTROLS b || (b =? colon)%N.

Record Ticket := mkTicket {
  prefix : rstr;
  data : rstr;
  time : Z;
  signature : option (list N);
}.

Section Ticket.
Context {ssl : OpenSsl} {percent : PercentCoding} {base64 : Base64}.

(** [Ticket::new] at the time [now]. *)
Definition ticket_new `{TicketData T} (now : Z) (prefix : rstr) (data : T) : Ticket :=
  mkTicket prefix (to_string data) now None.

(** [Ticket::ticket_data] *)
Definition ticket_data (t : Ticket) : rstr :=
  percent_encode TICKET_ASCIISET (as_bytes t.(prefix)) ++ colon ::
  percent_encode TICKET_ASCIISET (as_bytes t.(data)) ++ colon ::
  fmt_08X t.(time).

(** [Ticket::verification_data] *)
Definition verification_data (t : Ticket) (aad : option rstr) : list N :=
  as_bytes (ticket_data t) ++ match aad with
                              | Some aad => colon :: as_bytes aad
                              | None => []
                              end.

(** [Ticket::sign]: the text, and the ticket with its signature. *)
Definition sign (t : Ticket) (keyring : Keyring) (aad : option rstr)
    : result (rstr * Ticket) TicketError :=
  let? signature := keyring_sign keyring sha256 (verification_data t aad) in
  Ok (ticket_data t ++ colon :: colon :: encode_no_pad signature,
      mkTicket t.(prefix) t.(data) t.(time) (Some signature)).

(** [Ticket::verify_with_time_frame] at the time [now]; the subtraction is that of
    a build without overflow checks. *)
Definition verify_with_time_frame `{TicketData T} (now : Z) (t : Ticket) (keyring : Keyring)
    (prefix' : rstr) (aad : option rstr) (start stop : Z) : result T TicketError :=
  if negb (bool_decide (t.(prefix) = prefix')) then Err WrongPrefix
  else match t.(signature) with
       | None => Err WithoutSignature
       | Some sig =>
           let age := i64_wrap (now - t.(time)) in
           if age <? start then Err NewerThanExpected
           else if stop <? age then Err Expired
           else
             let? is_valid := keyring_verify keyring sha256 sig (verification_data t aad) in
             if negb is_valid then Err InvalidSignature else from_str t.(data)
       end.

(** [Ticket::verify] *)
Definition ticket_verify `{TicketData T} (now : Z) (t : Ticket) (keyring : Keyring) (prefix' : rstr)
    (aad : option rstr) : result T TicketError :=
  verify_with_time_frame now t keyring prefix' aad (-300) TICKET_LIFETIME.

(** [Ticket::parse] *)
Definition ticket_parse (ticket : rstr) : result Ticket TicketError :=
  let parts := splitn 4 colon ticket in
  let? prefix := ok_or (parts !! 0%nat) WithoutPart in
  let? prefix := ok_or (decode_str prefix) BadPrefixText in
  let? data := ok_or (parts !! 1%nat) WithoutPart in
  let? data := ok_or (decode_str data) BadDataText in
  let? time := ok_or (parts !! 2%nat) WithoutPart in
  let? time := ok_or (i64_from_hex time) BadTimestamp in
  let? remainder := ok_or (parts !! 3%nat) WithoutPart in
  match remainder with
  | 58%N :: sig =>
      let? sig := ok_or (decode_no_pad sig) BadSignatureText in
      Ok (mkTicket prefix data time (Some sig))
  | _ => Err WithoutSeparator
  end.

(** [Ticket::ticket_info] *)
Definition ticket_info (t : Ticket) : rstr := ticket_data t ++ lit "::ticketinfo".
End Ticket.

(** ** API tickets *)
Section ApiTicket.
Context {crypto : Crypto} {cdata : ChallengeData crypto}.

(** [serde_json::to_string] and [from_str] of a challenge. *)
Class ChallengeJson := {
  challenge_to_json : TfaChallenge → rstr;
  challenge_of_json : rstr → option TfaChallenge;
}.

Inductive ApiTicket := Full (u : Userid) | Partial (c : TfaChallenge).

(** [ApiTicket::require_full] and [ApiTicket::require_partial] *)
Definition require_full (t : ApiTicket) : result Userid TicketError :=
  match t with Full u => Ok u | Partial _ => Err SecondFactorRequired end.
Definition require_partial (t : ApiTicket) : result TfaChallenge TicketError :=
  match t with Full _ => Err InvalidTfaChallenge | Partial c => Ok c end.

Context {json : ChallengeJson}.

Definition api_ticket_to_string (t : ApiTicket) : rstr :=
  match t with
  | Full u => AuthTypes.data u
  | Partial c => lit "!tfa!" ++ challenge_to_json c
  end.

Definition api_ticket_from_str (s : rstr) : result ApiTicket TicketError :=
  match strip_prefix (lit "!tfa!") s with
  | Some tfa_ticket => let? c := ok_or (challenge_of_json tfa_ticket) BadData in Ok (Partial c)
  | None => let? u := from_str s in Ok (Full u)
  end.

#[export] Instance api_ticket_data : TicketData ApiTicket := {|
  to_string := api_ticket_to_string;
  from_str := api_ticket_from_str |}.
End ApiTicket.
Arguments ChallengeJson {_} _.
