(* ===== verification/TicketTheory.v ===== *)
(** * TicketTheory: what a ticket proves

    A signed ticket is read back and verified within its lifetime, also after the
    keys were rolled over; an accepted ticket carries a signature of a key of the
    ring over exactly its prefix, data, time and additional data; a ticket for the
    second factor never stands for a full one. *)
From S2P Require Import Prelude AuthTypes Tfa TfaLogin TextCoding Ticket.

#[local] Open Scope Z_scope.

(** ** The keyring as a list of keys *)
Section Keys.
Context {ssl : OpenSsl}.

Definition key_verify (k : VerificationKey) (d : MessageDigest) (sig m : list N) : result bool TicketError :=
  match k with
  | VerifyPublic k => verify_with k d sig m
  | VerifyHmac k => hmac_verify k d sig m
  end.

Definition as_verification_key (k : SigningKey) : VerificationKey :=
  match k with SigningPrivate k => VerifyPublic k | SigningHmac k => VerifyHmac k end.

Definition ring_keys (r : Keyring) : list VerificationKey :=
  match r.(signing_key) with
  | Some k => as_verification_key k :: r.(public_keys)
  | None => r.(public_keys)
  end.

Lemma keyring_verify_keys r d sig m : keyring_verify r d sig m = verify_keys (ring_keys r) d sig m.
Proof. unfold keyring_verify, ring_keys. by destruct (signing_key r) as [[|]|]. Qed.

Lemma verify_keys_accepted l d sig m :
  verify_keys l d sig m = Ok true → ∃ k, k ∈ l ∧ key_verify k d sig m = Ok true.
Proof.
  induction l as [|k l IH]; simpl; [done|]. change (match k with VerifyPublic k => _ | VerifyHmac k => _ end)
    with (key_verify k d sig m).
  destruct (key_verify k d sig m) as [[]|] eqn:E; simpl; [|intros (k' & Hk & ?)%IH|done].
  - intros _. exists k. split; [by left|done].
  - exists k'. split; [by right|done].
Qed.

Lemma verify_keys_reaches before k after d sig m :
  (∀ b, b ∈ before → ∃ x, key_verify b d sig m = Ok x) → key_verify k d sig m = Ok true →
  verify_keys (before ++ k :: after) d sig m = Ok true.
Proof.
  intros Hb Hk. induction before as [|b before IH]; simpl.
  - fold (key_verify k d sig m). by rewrite Hk.
  - fold (key_verify b d sig m). destruct (Hb b) as [x ->]; [by left|]. simpl. destruct x; [done|].
    apply IH. intros b' Hb'. apply Hb. by right.
Qed.

Context {laws : OpenSslLaws ssl}.

Lemma key_verify_own r k d m sig :
  r.(signing_key) = Some k → keyring_sign r d m = Ok sig →
  key_verify (as_verification_key k) d sig m = Ok true ∧ Forall is_byte sig.
Proof.
  unfold keyring_sign. intros ->. destruct k as [k|k]; simpl.
  - unfold private_key_sign, verify_with. destruct (is_ed25519 k); intros H;
      (split; [by apply verify_own|by eapply sign_bytes]).
  - unfold hmac_verify, hmac_sign. intros H. rewrite H. simpl.
    rewrite Nat.eqb_refl, bool_decide_eq_true_2 by done. split; [done|by eapply hmac_bytes].
Qed.

(** The ring [r'] still knows the key that [r] signs with, behind keys that give
    an answer. *)
Definition rolled_over (r r' : Keyring) : Prop :=
  ∃ k before after, r.(signing_key) = Some k ∧ ring_keys r' = before ++ as_verification_key k :: after ∧
    ∀ b, b ∈ before → ∀ d sig m, ∃ x, key_verify b d sig m = Ok x.

Lemma rolled_over_refl r d m sig : keyring_sign r d m = Ok sig → rolled_over r r.
Proof using.
  unfold keyring_sign, rolled_over, ring_keys. destruct (signing_key r) as [k|]; [|done]. intros _.
  exists k, [], (public_keys r). split; [done|]. split; [done|]. by intros b H%not_elem_of_nil.
Qed.

Lemma keyring_sign_verify r r' d m sig :
  rolled_over r r' → keyring_sign r d m = Ok sig →
  keyring_verify r' d sig m = Ok true ∧ Forall is_byte sig.
Proof.
  intros (k & before & after & Hk & Hr & Hb) Hs. destruct (key_verify_own _ _ _ _ _ Hk Hs) as [Hv Hy].
  split; [|done]. rewrite keyring_verify_keys, Hr. apply verify_keys_reaches; auto.
Qed.
End Keys.

(** ** The text of a ticket *)
Section Text.
Context {ssl : OpenSsl} {percent : PercentCoding} {base64 : Base64}.
Context {plaws : PercentLaws percent} {blaws : Base64Laws base64}.

(** Texts that survive the percent encoding. *)
Definition plain_text (s : rstr) : Prop := valid_str s ∧ (37%N ∉ s).

Lemma encoded_no_colon s : valid_str s → colon ∉ percent_encode TICKET_ASCIISET (as_bytes s).
Proof using plaws.
  intros Hs. apply percent_encode_not; [by apply as_bytes_bytes|done|done|]. unfold colon. lia.
Qed.

Lemma time_no_colon t : colon ∉ fmt_08X t.
Proof. apply fmt_08X_not. unfold colon. lia. Qed.

Lemma encoded_ascii s : valid_str s → Forall (λ c, (c < 128)%N) (percent_encode TICKET_ASCIISET (as_bytes s)).
Proof using plaws. intros Hs. apply percent_encode_ascii. by apply as_bytes_bytes. Qed.

Lemma time_ascii t : Forall (λ c, (c < 128)%N) (fmt_08X t).
Proof.
  destruct (fmt_08X_spec t) as (_ & Hh & _). eapply Forall_impl; [exact Hh|].
  intros c (v & Hv & ->). destruct (hex_upper_in v Hv); lia.
Qed.

Lemma ticket_data_ascii t :
  valid_str t.(prefix) → valid_str t.(data) → as_bytes (ticket_data t) = ticket_data t.
Proof using plaws.
  intros Hp Hd. apply as_bytes_ascii. unfold ticket_data.
  apply Forall_app_2; [by apply encoded_ascii|]. constructor; [unfold colon; lia|].
  apply Forall_app_2; [by apply encoded_ascii|]. constructor; [unfold colon; lia|]. apply time_ascii.
Qed.

(** The pieces of a ticket's text. *)
Lemma ticket_text_pieces t rest :
  valid_str t.(prefix) → valid_str t.(data) →
  splitn 4 colon (ticket_data t ++ colon :: rest) =
  [percent_encode TICKET_ASCIISET (as_bytes t.(prefix));
   percent_encode TICKET_ASCIISET (as_bytes t.(data)); fmt_08X t.(time); rest].
Proof using plaws.
  intros Hp Hd. unfold ticket_data. rewrite <- !app_assoc. simpl app.
  rewrite <- !app_assoc. simpl app.
  rewrite splitn_app by by apply encoded_no_colon.
  rewrite splitn_app by by apply encoded_no_colon.
  rewrite splitn_app by apply time_no_colon. done.
Qed.

(** Reading the text of a ticket with a signature: the prefix and the data come
    back as the percent decoding has them. *)
Lemma ticket_parse_text t sig p d :
  valid_str t.(prefix) → valid_str t.(data) → Forall is_byte sig → 0 ≤ t.(time) < 2 ^ 63 →
  decode_str (percent_encode TICKET_ASCIISET (as_bytes t.(prefix))) = p →
  decode_str (percent_encode TICKET_ASCIISET (as_bytes t.(data))) = d →
  ticket_parse (ticket_data t ++ colon :: colon :: encode_no_pad sig) =
  (let? p := ok_or p BadPrefixText in let? d := ok_or d BadDataText in
   Ok (mkTicket p d t.(time) (Some sig))).
Proof using plaws blaws.
  intros Hp Hd Hs Ht Ep Ed. unfold ticket_parse. rewrite ticket_text_pieces by done. simpl.
  rewrite Ep, Ed. destruct p; simpl; [|done]. destruct d; simpl; [|done].
  rewrite i64_from_hex_fmt by done. simpl. by rewrite decode_encode_no_pad.
Qed.

Lemma ticket_parse_data t rest t' :
  valid_str t.(prefix) → valid_str t.(data) → ticket_parse (ticket_data t ++ colon :: rest) = Ok t' →
  decode_str (percent_encode TICKET_ASCIISET (as_bytes t.(data))) = Some t'.(data).
Proof using plaws.
  intros Hp Hd. unfold ticket_parse. rewrite ticket_text_pieces by done. simpl.
  repeat (destruct (decode_str _); simpl; [|done]). destruct (i64_from_hex _); simpl; [|done].
  repeat (case_match; simpl; try done). destruct (decode_no_pad _); simpl; [|done]. by intros [= <-].
Qed.

(** The text over which a signature is made names the prefix, the data, the time
    and the additional data uniquely, whether there are additional data or not. *)
Theorem verification_data_inj t t' aad aad' :
  plain_text t.(prefix) → plain_text t.(data) → plain_text t'.(prefix) → plain_text t'.(data) →
  i64_ok t.(time) = true → i64_ok t'.(time) = true →
  (∀ a, aad = Some a → valid_str a) → (∀ a, aad' = Some a → valid_str a) →
  verification_data t aad = verification_data t' aad' →
  t.(prefix) = t'.(prefix) ∧ t.(data) = t'.(data) ∧ t.(time) = t'.(time) ∧ aad = aad'.
Proof using plaws.
  intros [Hp1 Hp2] [Hd1 Hd2] [Hp1' Hp2'] [Hd1' Hd2'] Ht Ht' Ha Ha' E.
  unfold verification_data in E. rewrite !ticket_data_ascii in E by done. unfold ticket_data in E.
  repeat (rewrite <- app_assoc in E; cbn [app] in E).
  apply app_cons_inj in E as [E1 E]; [|by apply encoded_no_colon..].
  apply app_cons_inj in E as [E2 E]; [|by apply encoded_no_colon..].
  split; [by eapply percent_encode_inj|]. split; [by eapply percent_encode_inj|].
  assert (Hno : ∀ x, colon ∉ fmt_08X x) by apply time_no_colon.
  destruct aad as [a|], aad' as [a'|].
  - apply app_cons_inj in E as [E3 E4]; [|done..]. apply as_bytes_inj in E4; auto.
    split; [by apply fmt_08X_inj|congruence].
  - exfalso. rewrite app_nil_r in E. apply (Hno (time t')). rewrite <- E. apply elem_of_app. right. by left.
  - exfalso. rewrite app_nil_r in E. apply (Hno (time t)). rewrite E. apply elem_of_app. right. by left.
  - rewrite !app_nil_r in E. split; [by apply fmt_08X_inj|done].
Qed.

Context {laws : OpenSslLaws ssl}.

Lemma sign_inv t ring aad text t' :
  sign t ring aad = Ok (text, t') → ∃ sig,
    keyring_sign ring sha256 (verification_data t aad) = Ok sig ∧
    text = ticket_data t ++ colon :: colon :: encode_no_pad sig ∧
    t' = mkTicket t.(prefix) t.(data) t.(time) (Some sig).
Proof using.
  unfold sign. destruct (keyring_sign _ _ _) as [sig|]; simpl; [|done].
  intros [= <- <-]. by exists sig.
Qed.

(** ** Verification within the lifetime *)

(** Two times after the epoch are never so far apart that the age wraps around. *)
Lemma age_no_wrap now t : 0 ≤ now < 2 ^ 63 → 0 ≤ t < 2 ^ 63 → i64_wrap (now - t) = now - t.
Proof. intros H1 H2. apply i64_wrap_ok. unfold i64_ok. lia. Qed.

Lemma verify_with_time_frame_ok `{TicketData T} now t ring ring' sig p aad start stop (x : T) :
  rolled_over ring ring' → keyring_sign ring sha256 (verification_data t aad) = Ok sig →
  t.(prefix) = p → t.(signature) = Some sig →
  0 ≤ now < 2 ^ 63 → 0 ≤ t.(time) < 2 ^ 63 → start ≤ now - t.(time) ≤ stop →
  from_str t.(data) = Ok x → verify_with_time_frame now t ring' p aad start stop = Ok x.
Proof using laws.
  intros Hro Hs Hp Hsig Hn Ht Hage Hx. destruct (keyring_sign_verify _ _ _ _ _ Hro Hs) as [Hv _].
  unfold verify_with_time_frame. rewrite bool_decide_eq_true_2, Hsig by done. cbv zeta.
  rewrite age_no_wrap by done. simpl negb. cbv iota.
  rewrite (proj2 (Z.ltb_ge _ _)), (proj2 (Z.ltb_ge _ _)) by lia.
  by rewrite Hv.
Qed.

(** A ticket that is made and signed is read back from its text, and verifies with
    the same prefix and additional data at every time within the frame, with the
    value it was made from; also with a keyring into which the key was rolled over. *)
Theorem signed_ticket_verifies `{TicketData T} (x : T) made now pre ring ring' aad text t' start stop :
  sign (ticket_new made pre x) ring aad = Ok (text, t') → rolled_over ring ring' →
  plain_text pre → plain_text (to_string x) → from_str (to_string x) = Ok x →
  0 ≤ made < 2 ^ 63 → 0 ≤ now < 2 ^ 63 → start ≤ now - made ≤ stop →
  ∃ t, ticket_parse text = Ok t ∧ verify_with_time_frame now t ring' pre aad start stop = Ok x.
Proof using plaws blaws laws.
  intros (sig & Hs & -> & ->)%sign_inv Hro [Hp1 Hp2] [Hd1 Hd2] Hx Hm Hn Hage.
  destruct (keyring_sign_verify _ _ _ _ _ Hro Hs) as [_ Hb].
  exists (mkTicket pre (to_string x) made (Some sig)). split.
  - rewrite (ticket_parse_text _ _ (Some pre) (Some (to_string x))); try done;
      simpl; by apply decode_str_encode.
  - by eapply (verify_with_time_frame_ok _ _ ring ring' sig).
Qed.

(** ** What an accepted ticket proves *)
Theorem verified_ticket_signed `{TicketData T} now t ring p aad start stop (x : T) :
  verify_with_time_frame now t ring p aad start stop = Ok x →
  0 ≤ now < 2 ^ 62 → i64_ok t.(time) = true → - 2 ^ 62 ≤ start →
  t.(prefix) = p ∧ from_str t.(data) = Ok x ∧ start ≤ now - t.(time) ≤ stop ∧
  ∃ sig k, t.(signature) = Some sig ∧ k ∈ ring_keys ring ∧
    key_verify k sha256 sig (verification_data t aad) = Ok true.
Proof using.
  unfold verify_with_time_frame, i64_ok, i64_wrap. intros E Hn Ht Hst.
  case_bool_decide as Hp; [|done]. simpl in E. destruct (signature t) as [sig|]; [|done].
  destruct (Z.ltb_spec ((now - time t + 2 ^ 63) mod 2 ^ 64 - 2 ^ 63) start); [done|].
  destruct (Z.ltb_spec stop ((now - time t + 2 ^ 63) mod 2 ^ 64 - 2 ^ 63)); [done|].
  destruct (keyring_verify _ _ _ _) as [[]|] eqn:Ev; try done. simpl in E.
  rewrite keyring_verify_keys in Ev. apply verify_keys_accepted in Ev as (k & Hk & Hv).
  split; [done|]. split; [done|]. split; [|by exists sig, k].
  destruct (decide (now - time t < 2 ^ 63)).
  - rewrite Z.mod_small in * by lia. lia.
  - assert ((now - time t + 2 ^ 63) mod 2 ^ 64 = now - time t - 2 ^ 63) as Hw.
    { symmetry. apply (Z.mod_unique _ _ 1); lia. }
    rewrite Hw in *. lia.
Qed.
End Text.

(** ** Full and partial tickets *)
Section Api.
Context {ssl : OpenSsl} {percent : PercentCoding} {base64 : Base64}.
Context {plaws : PercentLaws percent} {blaws : Base64Laws base64} {laws : OpenSslLaws ssl}.
Context {crypto : Crypto} {cdata : ChallengeData crypto} {json : ChallengeJson cdata}.

Definition tfa_mark : rstr := lit "!tfa!".

(** The data of a text begin with the mark if they were signed so. *)
Lemma marked_data_parsed made pre json_text sig t :
  valid_str pre → valid_str json_text →
  ticket_parse (ticket_data (mkTicket pre (tfa_mark ++ json_text) made None)
                ++ colon :: colon :: encode_no_pad sig) = Ok t →
  ∃ r, t.(data) = tfa_mark ++ r.
Proof using plaws.
  intros Hp Hj. assert (valid_str (tfa_mark ++ json_text)) by (apply Forall_app_2; [by repeat constructor|done]).
  intros Ed%ticket_parse_data; [|done..]. cbn [data] in Ed.
  rewrite as_bytes_app, (as_bytes_ascii tfa_mark), percent_encode_app_keep in Ed
    by by repeat constructor.
  eapply decode_str_front; [..|exact Ed]; [by repeat constructor|by apply (bool_decide_unpack _)].
Qed.

Lemma marked_never_full r u :
  (let? x := api_ticket_from_str (tfa_mark ++ r) in require_full x) ≠ Ok u.
Proof. unfold api_ticket_from_str. rewrite strip_prefix_app. by destruct (challenge_of_json r). Qed.

(** The ticket a login hands out for the second factor is never accepted as a full
    ticket: whatever the keyring, the time, the prefix and the additional data. *)
Theorem partial_never_full c made pre ring aad text t' :
  sign (ticket_new made pre (Partial c)) ring aad = Ok (text, t') →
  valid_str pre → valid_str (challenge_to_json c) →
  ∀ now ring' p aad' start stop t u, ticket_parse text = Ok t →
    (let? x := verify_with_time_frame now t ring' p aad' start stop in require_full x) ≠ Ok u.
Proof using plaws.
  intros (sig & _ & -> & _)%sign_inv Hp Hj now ring' p aad' start stop t u Ht.
  destruct (marked_data_parsed _ _ _ _ _ Hp Hj Ht) as [r Hr].
  unfold verify_with_time_frame. rewrite Hr. destruct (negb _); [done|].
  destruct (signature t); [|done]. destruct (_ <? _); [done|]. destruct (_ <? _); [done|].
  destruct (keyring_verify _ _ _ _) as [[]|]; simpl; try done. apply marked_never_full.
Qed.

(** A full ticket carries a user id that a parser accepts. *)
Lemma full_data_from_str u :
  valid_userid u → (∀ r, AuthTypes.data u ≠ tfa_mark ++ r) →
  api_ticket_from_str (api_ticket_to_string (Full u)) = Ok (Full u).
Proof.
  intros (name & realm & Hn & Hr & ->) Hm. unfold api_ticket_from_str. simpl api_ticket_to_string.
  destruct (strip_prefix (lit "!tfa!") _) as [r|] eqn:E.
  { apply strip_prefix_Some in E. by destruct (Hm r). }
  simpl. by rewrite userid_from_str_parts.
Qed.

(** The user [%C3%A9@pve] and the user [é@pve]. *)
Definition percent_user : Userid := userid_from_parts (lit "%C3%A9") (lit "pve").
Definition accent_user : Userid := userid_from_parts [233%N] (lit "pve").

(** The per cent sign is not escaped: the ticket signed for one user verifies as a
    ticket of another user. *)
Theorem ticket_of_other_user made now ring text t' :
  sign (ticket_new made (lit "PBS") (Full percent_user)) ring None = Ok (text, t') →
  0 ≤ made < 2 ^ 63 → 0 ≤ now < 2 ^ 63 → -300 ≤ now - made ≤ TICKET_LIFETIME →
  userid_from_str (AuthTypes.data percent_user) = Ok percent_user ∧ percent_user ≠ accent_user ∧
  ∃ t, ticket_parse text = Ok t ∧ ticket_verify now t ring (lit "PBS") None = Ok (Full accent_user).
Proof using plaws blaws laws.
  intros (sig & Hs & -> & _)%sign_inv Hm Hn Hage. split; [done|]. split; [done|].
  pose proof (rolled_over_refl _ _ _ _ Hs) as Hro.
  destruct (keyring_sign_verify _ _ _ _ _ Hro Hs) as [_ Hb].
  assert (percent_encode TICKET_ASCIISET (as_bytes (AuthTypes.data percent_user)) = lit "%C3%A9@pve") as E1.
  { change (as_bytes (AuthTypes.data percent_user)) with (lit "%C3%A9@pve" ++ []).
    rewrite percent_encode_app_keep, percent_encode_nil; [done|]. repeat constructor. }
  assert (percent_encode TICKET_ASCIISET (as_bytes (AuthTypes.data accent_user)) = lit "%C3%A9@pve") as E2.
  { change (as_bytes (AuthTypes.data accent_user)) with (195%N :: 169%N :: lit "@pve" ++ []).
    rewrite !percent_encode_escape by (try done; by left).
    rewrite percent_encode_app_keep, percent_encode_nil; [done|]. repeat constructor. }
  exists (mkTicket (lit "PBS") (AuthTypes.data accent_user) made (Some sig)). split.
  - rewrite (ticket_parse_text _ _ (Some (lit "PBS")) (Some (AuthTypes.data accent_user)));
      try done; try (by repeat constructor).
    + apply decode_str_encode; [by repeat constructor|]. by apply (bool_decide_unpack _).
    + change (data (ticket_new made (lit "PBS") (Full percent_user))) with (AuthTypes.data percent_user).
      rewrite E1, <- E2. apply decode_str_encode; [by repeat constructor|]. by apply (bool_decide_unpack _).
  - apply (verify_with_time_frame_ok _ _ ring ring sig); try done.
    rewrite <- Hs. unfold verification_data, ticket_data, ticket_new. cbn [prefix data time].
    change (to_string (Full percent_user)) with (AuthTypes.data percent_user). by rewrite E1, E2.
Qed.
End Api.

(** ** Witnesses *)
Lemma verification_data_inj_witness :
  let t := mkTicket (lit "PBS") (lit "root@pam") 1700000000 None in
  let t' := mkTicket (lit "PBS") (lit "root@pam") 1700000000 (Some [1%N]) in
  t.(prefix) = t'.(prefix) ∧ t.(data) = t'.(data) ∧ t.(time) = t'.(time) ∧
  Some (lit "root@pam") = Some (lit "root@pam").
Proof.
  intros t t'. apply (verification_data_inj (percent := spelled_percent) (plaws := spelled_percent_laws)
    t t' (Some (lit "root@pam")) (Some (lit "root@pam")));
    try (split; [by repeat constructor|by apply (bool_decide_unpack _)]); try done;
    intros a [= <-]; by repeat constructor.
Defined.
