(* ===== verification/AuthApi.v ===== *)
(** * AuthApi: logging in and checking requests

    Models [proxmox-auth-api/src/api/access.rs] (creating tickets, first and second
    factor, CSRF prevention tokens) and [api/mod.rs] ([http_check_auth]) with
    [extract_cookie] of [proxmox-rest-server/src/lib.rs]. The trait [AuthContext],
    which a product implements, is a record of its methods; a request reads the
    clock once. Logging is left out. *)
From stdpp Require Import gmap.
From S2P Require Import Prelude AuthTypes Tfa TfaLogin TextCoding Ticket.

#[local] Open Scope Z_scope.

Inductive ApiError :=
| NoContext | TicketErr (e : TicketError) | TfaErr (e : TfaError) | ContextErr
| AccountDisabled | MissingCsrfToken | InvalidCsrfToken | NoData | BadTokenHeader
| NoPassword | Unauthorized | WrongUserid | NoSuchPrivilege | VncTicketFailed | UnknownRealm
| AuthenticationFailed | Panic.

Definition ticket_res {A} (r : result A TicketError) : result A ApiError :=
  match r with Ok x => Ok x | Err e => Err (TicketErr e) end.
Definition tfa_res {A} (r : result A TfaError) : result A ApiError :=
  match r with Ok x => Ok x | Err e => Err (TfaErr e) end.

(** ** Cookies *)
Section Cookies.
Context {percent : PercentCoding}.

Fixpoint extract_pair (pairs : list rstr) (cookie_name : rstr) : option rstr :=
  match pairs with
  | [] => None
  | p :: pairs =>
      match split_once 61%N p with
      | None => extract_pair pairs cookie_name
      | Some (name, value) =>
          if decide (trim name = cookie_name) then decode_str (trim value)
          else extract_pair pairs cookie_name
      end
  end.

(** [extract_cookie] *)
Definition extract_cookie (cookie cookie_name : rstr) : option rstr :=
  extract_pair (split_on 59%N cookie) cookie_name.
End Cookies.

(** A header value is what [to_str] makes of it. *)
Record HeaderMap := mkHeaders {
  h_cookies : list (option rstr);
  h_csrf : option (option rstr);
  h_authorization : option (option rstr);
}.

Record UserAuthData := mkUserAuth { auth_ticket : rstr; csrf_token : option rstr }.
Inductive AuthData := User (d : UserAuthData) | ApiToken (t : rstr).

(** ** The parameters and the response of the ticket calls *)
Record CreateTicket := mkCreate {
  username : Userid;
  password : option rstr;
  path : option rstr;
  privs : option rstr;
  port : option Z;
  tfa_challenge : option rstr;
}.
Definition with_password (p : CreateTicket) (pw : option rstr) : CreateTicket :=
  mkCreate p.(username) pw p.(path) p.(privs) p.(port) p.(tfa_challenge).

Record CreateTicketResponse := mkResponse {
  resp_csrf : option rstr;
  resp_ticket : option rstr;
  resp_ticket_info : option rstr;
  resp_username : Userid;
}.
Definition response_new (u : Userid) : CreateTicketResponse := mkResponse None None None u.

Section AuthApi.
Context {ssl : OpenSsl} {percent : PercentCoding} {base64 : Base64}.
Context {limits : Limits} {crypto : Crypto} {cdata : ChallengeData crypto} {json : ChallengeJson cdata}.
Context {IpAddr : Type}.

(** The trait [AuthContext]; [tfa_lock] and [tfa_save] are the outcomes of
    [tfa_config_write_lock] and [save_config]. *)
Record AuthContext := mkContext {
  lookup_realm : rstr → option (rstr → rstr → option IpAddr → result unit ApiError);
  keyring : Keyring;
  auth_prefix : rstr;
  auth_token_prefix : rstr;
  auth_cookie_name : rstr;
  prefixed_auth_cookie_name : rstr;
  tfa_lock : result unit ApiError;
  tfa_save : result unit ApiError;
  auth_id_is_active : Authid → result bool ApiError;
  csrf_secret : HmacPKey;
  verify_token_secret : Authid → rstr → result unit ApiError;
  check_path_ticket : Authid → rstr → rstr → rstr → Z → result (option bool) ApiError;
}.

(** What surrounds a call. *)
Record Call := mkCall { call_env : Env; call_draw : Draw; client_ip : option IpAddr }.
Definition call_now (call : Call) : Z := call.(call_env).(now).

(** The files a login changes: the TFA configuration and the users' challenges. *)
Record AuthState := mkState {
  tfa_config : TfaConfig;
  challenge_files : gmap rstr TfaUserChallenges;
}.

(** The static [AUTH_CONTEXT] *)
Variable AUTH_CONTEXT : option AuthContext.
Definition auth_context : result AuthContext ApiError := ok_or AUTH_CONTEXT NoContext.

(** ** CSRF prevention tokens *)
Definition csrf_token_data (timestamp : Z) (u : Userid) : list N :=
  as_bytes (fmt_08X timestamp ++ colon :: AuthTypes.data u ++ [colon]).

Definition assemble_csrf_prevention_token (epoch : Z) (secret : HmacPKey) (u : Userid) : result rstr ApiError :=
  match hmac_sign secret sha3_256 (csrf_token_data epoch u) with
  | Ok digest => Ok (fmt_08X epoch ++ colon :: encode_no_pad digest)
  | Err _ => Err Panic
  end.

Definition verify_csrf_prevention_token_do (now : Z) (secret : HmacPKey) (u : Userid) (token : rstr)
    (min_age max_age : Z) : result Z ApiError :=
  match split_once colon token with
  | None => Err InvalidCsrfToken
  | Some (timestamp, sig) =>
      if bool_decide (colon ∈ sig) then Err InvalidCsrfToken
      else
        let? sig := ok_or (decode_no_pad sig) InvalidCsrfToken in
        let? ttime := ok_or (i64_from_hex timestamp) InvalidCsrfToken in
        let? _ :=
          match hmac_verify secret sha3_256 sig (csrf_token_data ttime u) with
          | Ok true => Ok tt
          | _ =>
              let? key := ticket_res (raw_private_key secret) in
              let old_digest := sha256_sum (csrf_token_data ttime u ++ key) in
              if negb (length old_digest =? length sig)%nat || negb (bool_decide (old_digest = sig))
              then Err InvalidCsrfToken else Ok tt
          end in
        let age := i64_wrap (now - ttime) in
        if age <? min_age then Err InvalidCsrfToken
        else if max_age <? age then Err InvalidCsrfToken
        else Ok age
  end.

Definition verify_csrf_prevention_token (now : Z) (secret : HmacPKey) (u : Userid) (token : rstr)
    (min_age max_age : Z) : result Z ApiError :=
  match verify_csrf_prevention_token_do now secret u token min_age max_age with
  | Ok age => Ok age
  | Err _ => Err InvalidCsrfToken
  end.

(** ** Checking a request *)

(** The loop over the cookie headers: the prefixed cookie ends it, of others the
    last one counts. *)
Fixpoint extract_ticket (cookies : list rstr) (host_cookie cookie_name : rstr) (ticket : option rstr)
    : option rstr :=
  match cookies with
  | [] => ticket
  | cookie :: cookies =>
      match extract_cookie cookie host_cookie with
      | Some extracted_ticket => Some extracted_ticket
      | None =>
          match extract_cookie cookie cookie_name with
          | Some extracted_ticket => extract_ticket cookies host_cookie cookie_name (Some extracted_ticket)
          | None => extract_ticket cookies host_cookie cookie_name ticket
          end
      end
  end.

(** [extract_auth_data] *)
Definition extract_auth_data (ctx : AuthContext) (headers : HeaderMap) : option AuthData :=
  match extract_ticket (omap (λ c, c) headers.(h_cookies)) ctx.(prefixed_auth_cookie_name)
          ctx.(auth_cookie_name) None with
  | Some ticket => Some (User (mkUserAuth ticket (mjoin headers.(h_csrf))))
  | None =>
      match headers.(h_authorization) with
      | Some (Some v) =>
          match strip_prefix ctx.(auth_token_prefix) v with
          | None => None
          | Some rest =>
              match rest with
              | 32%N :: t | 61%N :: t => Some (ApiToken t)
              | _ => None
              end
          end
      | _ => None
      end
  end.

(** [http_check_auth] *)
Definition http_check_auth (now : Z) (headers : HeaderMap) (method : rstr) : result rstr ApiError :=
  let? ctx := auth_context in
  match extract_auth_data ctx headers with
  | Some (User d) =>
      let? ticket := ticket_res (ticket_parse d.(auth_ticket)) in
      let? content := ticket_res (verify_with_time_frame now ticket ctx.(keyring) ctx.(auth_prefix)
                                    None (-300) TICKET_LIFETIME) in
      let? userid := ticket_res (require_full content) in
      let auth_id := authid_from_userid userid in
      let? active := ctx.(auth_id_is_active) auth_id in
      if negb active then Err AccountDisabled
      else
        let? _ :=
          if decide (method = lit "GET") then Ok 0
          else match d.(csrf_token) with
               | Some csrf_token =>
                   verify_csrf_prevention_token now ctx.(csrf_secret) userid csrf_token
                     (-300) TICKET_LIFETIME
               | None => Err MissingCsrfToken
               end in
        Ok (authid_to_string auth_id)
  | Some (ApiToken api_token) =>
      let parts := splitn 2 colon api_token in
      let? tokenid := ok_or (parts !! 0%nat) BadTokenHeader in
      match authid_from_str tokenid with
      | Err _ => Err BadTokenHeader
      | Ok tokenid =>
          let? active := ctx.(auth_id_is_active) tokenid in
          if negb active then Err AccountDisabled
          else
            let? tokensecret := ok_or (parts !! 1%nat) BadTokenHeader in
            let? tokensecret := ok_or (decode_str tokensecret) BadTokenHeader in
            let? _ := ctx.(verify_token_secret) tokenid tokensecret in
            Ok (authid_to_string tokenid)
      end
  | None => Err NoData
  end.

(** ** Logging in *)
Inductive AuthResult := AuthSuccess | AuthCreateTicket | AuthPartial (c : TfaChallenge).

Definition with_challenges (st : AuthState) (u : rstr) (c : Store) : AuthState :=
  mkState st.(tfa_config) (partial_alter (λ _, c) u st.(challenge_files)).

(** [authenticate_2nd] *)
Definition authenticate_2nd (call : Call) (u : Userid) (challenge_ticket response : rstr) (st : AuthState)
    : AuthState * result AuthResult ApiError :=
  match
    (let? ctx := auth_context in
     let? ticket := ticket_res (ticket_parse challenge_ticket) in
     let? content := ticket_res (verify_with_time_frame (call_now call) ticket ctx.(keyring)
                                   ctx.(auth_prefix) (Some (AuthTypes.data u)) (-60) 600) in
     let? challenge := ticket_res (require_partial content) in
     let? _ := ctx.(tfa_lock) in
     let? response := tfa_res (response_from_str response) in
     Ok (ctx, challenge, response)) with
  | Err e => (st, Err e)
  | Ok (ctx, challenge, response) =>
      let id := AuthTypes.data u in
      let '(cfg, file, res) :=
        verify call.(call_env) st.(tfa_config) id (u2fc_challenge <$> challenge.(ch_u2f)) response
          (st.(challenge_files) !! id) in
      let st := with_challenges st id file in
      match res with
      | Panicked => (st, Err Panic)
      | _ =>
          let '(success, needs_saving) :=
            match res with
            | Success needs_saving => (true, needs_saving)
            | Failure needs_saving _ _ => (false, needs_saving)
            | _ => (false, false)
            end in
          let '(st, saved) :=
            if needs_saving : bool then
              match ctx.(tfa_save) with
              | Ok _ => (mkState cfg st.(challenge_files), Ok tt)
              | Err e => (st, Err e)
              end
            else (st, Ok tt) in
          match saved with
          | Err e => (st, Err e)
          | Ok _ => if negb success then (st, Err AuthenticationFailed) else (st, Ok AuthCreateTicket)
          end
      end
  end.

(** [login_challenge] *)
Definition login_challenge (call : Call) (u : Userid) (st : AuthState)
    : AuthState * result (option TfaChallenge) ApiError :=
  match (let? ctx := auth_context in ctx.(tfa_lock)) with
  | Err e => (st, Err e)
  | Ok _ =>
      let id := AuthTypes.data u in
      let '(file, r) := authentication_challenge call.(call_env) call.(call_draw) st.(tfa_config) id
                          (st.(challenge_files) !! id) in
      (with_challenges st id file, tfa_res r)
  end.

(** What [authenticate_user] does before it asks the realm: [Some] is a result
    that needs no password check. *)
Definition refresh_or_path (call : Call) (ctx : AuthContext) (u : Userid) (password : rstr)
    (path privs : option rstr) (port : option Z) : result (option AuthResult) ApiError :=
  let by_ticket :=
    match strip_prefix ctx.(auth_prefix) password with
    | Some rest => bool_decide (head rest = Some colon)
    | None => false
    end in
  if by_ticket then
    match (let? ticket := ticket_parse password in
           ticket_verify (T := Userid) (call_now call) ticket ctx.(keyring) ctx.(auth_prefix) None) with
    | Ok ticket_userid =>
        if decide (u = ticket_userid) then Ok (Some AuthCreateTicket) else Err WrongUserid
    | Err _ => Ok None
    end
  else
    match path, privs, port with
    | Some path, Some privs, Some port =>
        let? r := ctx.(check_path_ticket) (authid_from_userid u) password path privs port in
        match r with
        | None => Ok None
        | Some true => Ok (Some AuthSuccess)
        | Some false => Err NoSuchPrivilege
        end
    | _, _, _ => Ok None
    end.

(** [authenticate_user] *)
Definition authenticate_user (call : Call) (u : Userid) (password : rstr) (path privs : option rstr)
    (port : option Z) (tfa_challenge : option rstr) (allow_ticket_refresh : bool) (st : AuthState)
    : AuthState * result AuthResult ApiError :=
  match
    (let? ctx := auth_context in
     let? active := ctx.(auth_id_is_active) (authid_from_userid u) in
     if negb active then Err AccountDisabled else Ok ctx) with
  | Err e => (st, Err e)
  | Ok ctx =>
      match tfa_challenge with
      | Some tfa_challenge => authenticate_2nd call u tfa_challenge password st
      | None =>
          match (if allow_ticket_refresh then refresh_or_path call ctx u password path privs port
                 else Ok None) with
          | Err e => (st, Err e)
          | Ok (Some r) => (st, Ok r)
          | Ok None =>
              match
                (let? realm := ok_or (ctx.(lookup_realm) (userid_realm u)) UnknownRealm in
                 realm (userid_name u) password call.(client_ip)) with
              | Err e => (st, Err e)
              | Ok _ =>
                  let '(st, r) := login_challenge call u st in
                  (st, let? c := r in
                       Ok match c with None => AuthCreateTicket | Some c => AuthPartial c end)
              end
          end
      end
  end.

(** [handle_ticket_creation] *)
Definition handle_ticket_creation (call : Call) (params : CreateTicket) (allow_ticket_refresh : bool)
    (st : AuthState) : AuthState * result CreateTicketResponse ApiError :=
  let u := params.(username) in
  match params.(password) with
  | None => (st, Err NoPassword)
  | Some password =>
      let '(st, r) := authenticate_user call u password params.(path) params.(privs) params.(port)
                        params.(tfa_challenge) allow_ticket_refresh st in
      (st,
       match r with
       | Err _ => Err Unauthorized
       | Ok AuthSuccess => Ok (response_new u)
       | Ok AuthCreateTicket =>
           let? ctx := auth_context in
           let ticket := ticket_new (call_now call) ctx.(auth_prefix) (Full u) in
           let? csrf := assemble_csrf_prevention_token (call_now call) ctx.(csrf_secret) u in
           let? signed := ticket_res (sign ticket ctx.(keyring) None) in
           Ok (mkResponse (Some csrf) (Some signed.1) (Some (ticket_info signed.2)) u)
       | Ok (AuthPartial challenge) =>
           let? ctx := auth_context in
           let ticket := ticket_new (call_now call) ctx.(auth_prefix) (Partial challenge) in
           let? signed := ticket_res (sign ticket ctx.(keyring) (Some (AuthTypes.data u))) in
           Ok (mkResponse (Some (lit "invalid")) (Some signed.1) None u)
       end)
  end.

(** [create_ticket] *)
Definition create_ticket (call : Call) (params : CreateTicket) (st : AuthState)
    : AuthState * result CreateTicketResponse ApiError :=
  let '(st, r) := handle_ticket_creation call params true st in
  (st, let? info := r in
       Ok (mkResponse info.(resp_csrf) info.(resp_ticket) None info.(resp_username))).

(** [create_ticket_http_only]: the response and the cookie to set. *)
Definition create_ticket_http_only (call : Call) (headers : HeaderMap) (params : CreateTicket) (st : AuthState)
    : AuthState * result (CreateTicketResponse * option rstr) ApiError :=
  match auth_context with
  | Err e => (st, Err e)
  | Ok ctx =>
      let host_cookie := ctx.(prefixed_auth_cookie_name) in
      let from_cookie :=
        head (omap (λ c, extract_cookie c host_cookie) (omap (λ c, c) headers.(h_cookies))) in
      let '(first, rest) :=
        match from_cookie with
        | Some ticket => (Some ticket, params.(password))
        | None => (params.(password), None)
        end in
      let '(st, r) := handle_ticket_creation call (with_password params first) true st in
      let '(st, r) :=
        if negb (is_ok r) && bool_decide (is_Some rest)
        then handle_ticket_creation call (with_password params rest) false st
        else (st, r) in
      (st,
       let? resp := r in
       match resp.(resp_ticket_info), resp.(resp_ticket) with
       | Some _, Some ticket_str =>
           Ok (mkResponse resp.(resp_csrf) None resp.(resp_ticket_info) resp.(resp_username),
               Some (host_cookie ++ lit "=" ++ ticket_str ++ lit "; Secure; SameSite=Lax; HttpOnly; Path=/;"))
       | _, _ => Ok (resp, None)
       end)
  end.

(** [logout_handler]: the cookie that replaces the ticket. *)
Definition logout_handler : result rstr ApiError :=
  let? ctx := auth_context in
  Ok (ctx.(prefixed_auth_cookie_name) ++
      lit "=; Expires=Thu, 01 Jan 1970 00:00:00 GMT; Secure; SameSite=Lax; HttpOnly; Path=/;").

(** [verify_vnc_ticket] *)
Definition verify_vnc_ticket (authid : Authid) (vncticket path privs : rstr) (port : option Z)
    : result unit ApiError :=
  let? ctx := auth_context in
  let? r := ctx.(check_path_ticket) authid vncticket path privs (default 0 port) in
  match r with
  | None => Err VncTicketFailed
  | Some true => Ok tt
  | Some false => Err NoSuchPrivilege
  end.
End AuthApi.
Arguments AuthContext {_} _.
