(* ===== verification/AuthApiTheory.v ===== *)
(** * AuthApiTheory: who gets in

    A full ticket is only handed out for a refreshed ticket, for a password of a
    user without second factor, or for a verified second factor; with what a login
    returns requests are let in for the lifetime; and a request is only let in with
    a signed, unexpired ticket of an active user and the CSRF token, or with the
    secret of an active token. *)
From stdpp Require Import gmap.
From S2P Require Import Prelude Schema AuthTypes Tfa TfaLogin TextCoding Ticket TicketTheory AuthApi.

#[local] Open Scope Z_scope.

Lemma ticket_res_ok {A} (r : result A TicketError) x : ticket_res r = Ok x → r = Ok x.
Proof. by destruct r; intros [= <-]. Qed.
Lemma tfa_res_ok {A} (r : result A TfaError) x : tfa_res r = Ok x → r = Ok x.
Proof. by destruct r; intros [= <-]. Qed.

(** Taking a chain of fallible steps that succeeded apart. *)
Ltac step H x Hx :=
  apply rbind_ok in H as (x & Hx & H);
  try (apply ticket_res_ok in Hx); try (apply tfa_res_ok in Hx); try (apply ok_or_ok in Hx).

(** ** User ids as texts *)

Lemma safe_id_user_chars s : SAFE_ID_REGEX s = true → Forall (λ c, user_name_char c = true) s.
Proof.
  intros Hs%SAFE_ID_forall. eapply Forall_impl; [exact Hs|]. intros c.
  unfold safe_id_rest, user_name_char, is_whitespace, is_ascii_alphanumeric,
    is_ascii_alphabetic, is_ascii_digit. lia.
Qed.

Lemma valid_userid_chars u : valid_userid u → Forall (λ c, user_name_char c = true) (AuthTypes.data u).
Proof.
  intros (name & realm & Hn & [Hr _] & ->). unfold PROXMOX_USER_NAME_REGEX in Hn.
  apply andb_true_iff in Hn as [_ Hn]. apply Forall_app_2.
  - rewrite forallb_forall in Hn. apply Forall_forall. intros c Hc. apply Hn. by apply list_elem_of_In.
  - constructor; [done|]. by apply safe_id_user_chars.
Qed.

Lemma valid_userid_no_colon u : valid_userid u → colon ∉ AuthTypes.data u.
Proof.
  intros Hu%valid_userid_chars Hin. rewrite Forall_forall in Hu. specialize (Hu _ Hin). done.
Qed.

Lemma valid_userid_no_space u : valid_userid u → Forall (λ c, is_whitespace c = false) (AuthTypes.data u).
Proof.
  intros Hu%valid_userid_chars. eapply Forall_impl; [exact Hu|]. intros c. unfold user_name_char.
  by destruct (is_whitespace c).
Qed.

Section Theory.
Context {ssl : OpenSsl} {percent : PercentCoding} {base64 : Base64}.
Context {limits : Limits} {crypto : Crypto} {cdata : ChallengeData crypto} {json : ChallengeJson cdata}.
Context {IpAddr : Type}.
Implicit Types (ctx : AuthContext IpAddr) (call : Call (IpAddr := IpAddr)).

(** The ticket [text] verifies as [x]: it is signed by a key of the ring over its
    prefix, data, time and the additional data, and its age is within the frame. *)
Definition signed_for `{TicketData T} ctx (now : Z) (text : rstr) (aad : option rstr) (start stop : Z) (x : T)
    : Prop :=
  ∃ t sig k, ticket_parse text = Ok t ∧ t.(prefix) = ctx.(auth_prefix) ∧ from_str t.(Ticket.data) = Ok x ∧
    start ≤ now - t.(time) ≤ stop ∧ t.(signature) = Some sig ∧ k ∈ ring_keys ctx.(keyring) ∧
    key_verify k sha256 sig (verification_data t aad) = Ok true.

Lemma i64_from_hex_ok s z : i64_from_hex s = Some z → i64_ok z = true.
Proof.
  unfold i64_from_hex. destruct (match s with 43%N :: _ => _ | _ => _ end) as [neg digits].
  destruct digits; [done|]. destruct (hex_fold _ _); [|done]. destruct (i64_ok _) eqn:E; [|done].
  by intros [= <-].
Qed.

Lemma ticket_parse_time text t : ticket_parse text = Ok t → i64_ok t.(time) = true.
Proof.
  unfold ticket_parse. intros H. step H p1 H1. step H p2 H2. step H p3 H3. step H p4 H4. step H p5 H5.
  step H tm Htm. step H rest Hrest. apply i64_from_hex_ok in Htm.
  repeat (case_match; simplify_eq). step H sg Hsg. by injection H as <-.
Qed.

Lemma verified_signed_for `{TicketData T} ctx now text t aad start stop (x : T) :
  ticket_parse text = Ok t →
  verify_with_time_frame now t ctx.(keyring) ctx.(auth_prefix) aad start stop = Ok x →
  0 ≤ now < 2 ^ 62 → - 2 ^ 62 ≤ start → signed_for ctx now text aad start stop x.
Proof.
  intros Ht Hv Hn Hs. destruct (verified_ticket_signed _ _ _ _ _ _ _ _ Hv Hn (ticket_parse_time _ _ Ht) Hs)
    as (H1 & H2 & H3 & sig & k & H4 & H5 & H6). by exists t, sig, k.
Qed.

(** ** Requests *)

(** Why a request is let in. *)
Definition request_granted ctx (now : Z) (headers : HeaderMap) (method : rstr) (id : rstr) : Prop :=
  (∃ d u, extract_auth_data ctx headers = Some (User d) ∧
     signed_for ctx now d.(auth_ticket) None (-300) TICKET_LIFETIME (Full u) ∧
     ctx.(auth_id_is_active) (authid_from_userid u) = Ok true ∧ valid_userid u ∧
     id = AuthTypes.data u ∧
     (method ≠ lit "GET" → ∃ token age, d.(csrf_token) = Some token ∧
        verify_csrf_prevention_token now ctx.(csrf_secret) u token (-300) TICKET_LIFETIME = Ok age)) ∨
  (∃ tokenid secret secret', extract_auth_data ctx headers = Some (ApiToken (id ++ colon :: secret)) ∧
     authid_from_str id = Ok tokenid ∧ ctx.(auth_id_is_active) tokenid = Ok true ∧
     decode_str secret = Some secret' ∧ ctx.(verify_token_secret) tokenid secret' = Ok tt).

Lemma from_str_full s u : api_ticket_from_str s = Ok (Full u) → valid_userid u ∧ s = AuthTypes.data u.
Proof.
  unfold api_ticket_from_str. destruct (strip_prefix _ s); [by destruct (challenge_of_json _)|].
  simpl. destruct (userid_from_str s) eqn:E; simpl; [|done]. intros [= <-].
  by apply userid_from_str_valid in E as [? <-].
Qed.

Lemma http_check_auth_granted ctx now headers method id :
  http_check_auth (Some ctx) now headers method = Ok id → 0 ≤ now < 2 ^ 62 →
  request_granted ctx now headers method id.
Proof.
  unfold http_check_auth, request_granted. simpl auth_context. simpl rbind at 1. intros H Hn.
  destruct (extract_auth_data ctx headers) as [[d|tok]|]; [left|right|done].
  - step H t Ht. step H content Hc. step H u Hu. step H active Ha. destruct active; [|done].
    simpl in H. step H age Hage. injection H as <-.
    destruct content as [u'|]; [|done]. injection Hu as ->.
    assert (signed_for ctx now (auth_ticket d) None (-300) TICKET_LIFETIME (Full u)) as Hs
      by (eapply verified_signed_for; try done; lia).
    exists d, u. split; [done|]. split; [done|]. split; [done|].
    split; [by destruct Hs as (? & ? & ? & _ & _ & [Hv _]%from_str_full & _)|]. split; [done|].
    intros Hm. rewrite decide_False in Hage by done. destruct (csrf_token d) as [token|]; [|done].
    by exists token, age.
  - unfold splitn in H. destruct (split_once colon tok) as [[a b]|] eqn:Es; simpl in H.
    + destruct (authid_from_str a) as [tid|] eqn:Ea; [|done]. step H active Ha. destruct active; [|done].
      simpl in H. step H sec Hsec. step H u Hu. injection H as <-. destruct u.
      apply authid_from_str_sound in Ea as Hid. destruct Hid as [_ ->].
      apply split_once_iff in Es as [-> _]. by exists tid, b, sec.
    + destruct (authid_from_str tok) as [tid|]; [|done]. step H active Ha. by destruct active.
Qed.

(** [C9] A request is let in only with a ticket signed by a key of the ring, which is
    full, not expired and of an active user, together with a valid CSRF token
    unless it only reads; or with the secret of an active token. *)
Theorem http_check_auth_sound ctx now headers method id :
  http_check_auth (Some ctx) now headers method = Ok id → 0 ≤ now < 2 ^ 62 →
  request_granted ctx now headers method id.
Proof. apply http_check_auth_granted. Qed.

(** ** Logins *)

(** The three ways to a full ticket. *)
Definition second_factor_given ctx call (u : Userid) (challenge_ticket response : rstr) (st : AuthState) : Prop :=
  ∃ challenge r cfg file saving,
    signed_for ctx (call_now call) challenge_ticket (Some (AuthTypes.data u)) (-60) 600 (Partial challenge) ∧
    response_from_str response = Ok r ∧
    verify call.(call_env) st.(tfa_config) (AuthTypes.data u) (u2fc_challenge <$> challenge.(ch_u2f)) r
      (st.(challenge_files) !! AuthTypes.data u) = (cfg, file, Success saving).

Definition password_is_enough ctx call (u : Userid) (password : rstr) (st : AuthState) : Prop :=
  (∃ realm, ctx.(lookup_realm) (userid_realm u) = Some realm ∧
     realm (userid_name u) password call.(client_ip) = Ok tt) ∧
  (∀ ud, st.(tfa_config).(users) !! AuthTypes.data u = Some ud → has_factor ud = false).

Definition ticket_granted ctx call (params : CreateTicket) (refresh : bool) (st : AuthState) (pw : rstr) : Prop :=
  ctx.(auth_id_is_active) (authid_from_userid params.(username)) = Ok true ∧
  match params.(tfa_challenge) with
  | Some challenge_ticket => second_factor_given ctx call params.(username) challenge_ticket pw st
  | None =>
      (refresh = true ∧
       signed_for ctx (call_now call) pw None (-300) TICKET_LIFETIME params.(username)) ∨
      password_is_enough ctx call params.(username) pw st
  end.

Lemma authenticate_2nd_granted ctx call u challenge_ticket response st st' :
  authenticate_2nd (Some ctx) call u challenge_ticket response st = (st', Ok AuthCreateTicket) →
  0 ≤ call_now call < 2 ^ 62 → second_factor_given ctx call u challenge_ticket response st.
Proof.
  unfold authenticate_2nd. intros H Hn.
  destruct (rbind (auth_context (Some ctx)) _) as [[[ctx' challenge] r]|] eqn:E; [|done].
  simpl auth_context in E. simpl rbind in E at 1. step E t Ht. step E content Hc. step E ch Hch.
  step E l Hl. step E r' Hr. simplify_eq.
  destruct content as [|c]; [done|]. injection Hch as ->.
  destruct (verify _ _ _ _ _ _) as [[cfg file] res] eqn:Ev.
  destruct res as [saving|saving tl fl| |]; simpl in H.
  - exists challenge, r, cfg, file, saving. split; [|done]. eapply verified_signed_for; try done; lia.
  - destruct saving; [|done]. by destruct (tfa_save ctx').
  - done.
  - done.
Qed.

Lemma login_challenge_none ctx call u st st' :
  login_challenge (Some ctx) call u st = (st', Ok None) →
  ∀ ud, st.(tfa_config).(users) !! AuthTypes.data u = Some ud → has_factor ud = false.
Proof.
  unfold login_challenge. simpl. destruct (tfa_lock ctx); [|done].
  destruct (authentication_challenge_none (call_env call) (call_draw call) (tfa_config st)
    (AuthTypes.data u) (challenge_files st !! AuthTypes.data u)) as (file & r & -> & Hr).
  intros [= _ ->]. by apply Hr.
Qed.

Lemma refresh_granted ctx call u pw path privs port :
  refresh_or_path call ctx u pw path privs port = Ok (Some AuthCreateTicket) →
  0 ≤ call_now call < 2 ^ 62 → signed_for ctx (call_now call) pw None (-300) TICKET_LIFETIME u.
Proof.
  unfold refresh_or_path. intros H Hn.
  destruct (match strip_prefix (auth_prefix ctx) pw with Some _ => _ | None => _ end).
  - destruct (rbind (ticket_parse pw) _) as [u'|] eqn:E; [|done]. step E t Ht.
    case_decide; [|done]. subst u'. eapply verified_signed_for; try done; lia.
  - repeat (case_match; try done). step H r Hr. by destruct r as [[]|].
Qed.

Lemma authenticate_user_granted ctx call params refresh pw st st' :
  authenticate_user (Some ctx) call params.(username) pw params.(path) params.(privs) params.(port)
    params.(tfa_challenge) refresh st = (st', Ok AuthCreateTicket) →
  0 ≤ call_now call < 2 ^ 62 → ticket_granted ctx call params refresh st pw.
Proof.
  unfold authenticate_user, ticket_granted. simpl auth_context. simpl rbind at 1. intros H Hn.
  destruct (auth_id_is_active ctx _) as [[]|] eqn:Ea; try done. simpl in H. split; [done|].
  destruct (tfa_challenge params) as [challenge|]; [by eapply authenticate_2nd_granted|].
  destruct (if refresh then _ else _) as [[r|]|] eqn:Er; [|right|done].
  - simplify_eq. destruct refresh; [|done]. left. split; [done|]. by eapply refresh_granted.
  - destruct (lookup_realm ctx _) as [realm|] eqn:El; [|done]. simpl in H.
    destruct (realm _ _ _) as [[]|] eqn:Ep; [|done]. split; [by exists realm|].
    destruct (login_challenge _ _ _ _) as [st1 [[c|]|]] eqn:Ec; simplify_eq/=.
    by eapply login_challenge_none.
Qed.

(** [C8] A full ticket is handed out to active users only: for a ticket that is
    refreshed, for a password if the user has no second factor at all, or for a
    second factor that was verified and whose challenge was signed for this user
    not more than ten minutes ago. *)
Theorem full_ticket_granted ctx call params refresh st st' resp info :
  handle_ticket_creation (Some ctx) call params refresh st = (st', Ok resp) →
  resp.(resp_ticket_info) = Some info → 0 ≤ call_now call < 2 ^ 62 →
  ∃ pw, params.(password) = Some pw ∧ ticket_granted ctx call params refresh st pw.
Proof.
  unfold handle_ticket_creation. intros H Hi Hn. destruct (password params) as [pw|]; [|done].
  exists pw. split; [done|].
  destruct (authenticate_user _ _ _ _ _ _ _ _ _ _) as [st1 r] eqn:Ea. injection H as -> H.
  destruct r as [[| |c]|]; simplify_eq/=.
  - by eapply authenticate_user_granted.
  - step H s Hs. by simplify_eq/=.
Qed.
End Theory.

(** ** From a login to a request *)
Section RoundTrip.
Context {ssl : OpenSsl} {percent : PercentCoding} {base64 : Base64}.
Context {limits : Limits} {crypto : Crypto} {cdata : ChallengeData crypto} {json : ChallengeJson cdata}.
Context {IpAddr : Type}.
Context {plaws : PercentLaws percent} {blaws : Base64Laws base64} {laws : OpenSslLaws ssl}.
Implicit Types (ctx : AuthContext IpAddr) (call : Call (IpAddr := IpAddr)).

(** Letters, digits, dashes and underscores, as in [PBS] and [__Host-PBSAuthCookie]. *)
Definition name_char (c : rchar) : bool := is_ascii_alphanumeric c || (c =? 45)%N || (c =? 95)%N.
Definition name_text (s : rstr) : Prop := Forall (λ c, name_char c = true) s.

Lemma name_text_not s c : name_text s → name_char c = false → c ∉ s.
Proof. intros Hs Hc Hin. unfold name_text in Hs. rewrite Forall_forall in Hs. apply Hs in Hin. congruence. Qed.

Lemma name_text_clean s :
  name_text s → plain_text s ∧ Forall (λ c, is_whitespace c = false) s.
Proof.
  intros Hs. split; [split|].
  - eapply Forall_impl; [exact Hs|]. intros c.
    unfold name_char, is_scalar, is_ascii_alphanumeric, is_ascii_alphabetic, is_ascii_digit. lia.
  - by apply (name_text_not s).
  - eapply Forall_impl; [exact Hs|]. intros c.
    unfold name_char, is_whitespace, is_ascii_alphanumeric, is_ascii_alphabetic, is_ascii_digit. lia.
Qed.

(** *** The ticket in a cookie *)

(** What the server reads from the cookie: the text of the ticket decoded as a whole. *)
Definition raw_text (t : Ticket) (sig_text : rstr) : rstr :=
  t.(prefix) ++ colon :: t.(Ticket.data) ++ colon :: fmt_08X t.(time) ++ colon :: colon :: sig_text.

Lemma base64_clean s c :
  Forall (λ c, base64_char c = true) s → base64_char c = false → c ∉ s.
Proof. intros Hs Hc Hin. rewrite Forall_forall in Hs. apply Hs in Hin. congruence. Qed.

Lemma base64_valid s : Forall (λ c, base64_char c = true) s → Forall (λ c, (c < 128)%N) s.
Proof.
  intros Hs. eapply Forall_impl; [exact Hs|]. intros c.
  unfold base64_char, is_ascii_alphanumeric, is_ascii_alphabetic, is_ascii_digit. lia.
Qed.

Lemma ascii_valid s : Forall (λ c, (c < 128)%N) s → valid_str s.
Proof. intros Hs. eapply Forall_impl; [exact Hs|]. intros c. unfold is_scalar. lia. Qed.

Lemma raw_text_valid t sig :
  valid_str t.(prefix) → valid_str t.(Ticket.data) → valid_str (raw_text t (encode_no_pad sig)).
Proof using blaws.
  intros Hp Hd. unfold raw_text. apply Forall_app_2; [done|]. constructor; [done|].
  apply Forall_app_2; [done|]. constructor; [done|]. apply Forall_app_2; [apply ascii_valid, time_ascii|].
  do 2 (constructor; [done|]). apply ascii_valid, base64_valid, encode_no_pad_alphabet.
Qed.

Lemma decode_ticket_text t sig :
  plain_text t.(prefix) → plain_text t.(Ticket.data) →
  decode_str (ticket_data t ++ colon :: colon :: encode_no_pad sig) = Some (raw_text t (encode_no_pad sig)).
Proof using plaws blaws.
  intros [Hp1 Hp2] [Hd1 Hd2]. unfold decode_str.
  assert (Hb : ∀ s, valid_str s → Forall is_byte (as_bytes s)) by apply as_bytes_bytes.
  pose proof (encode_no_pad_alphabet sig) as Ha.
  rewrite as_bytes_app, ticket_data_ascii by done.
  rewrite (as_bytes_ascii (colon :: colon :: _)) by (repeat constructor; by apply base64_valid).
  unfold ticket_data. repeat (rewrite <- app_assoc; cbn [app]).
  rewrite percent_decode_encode_app by (auto using as_bytes_no_percent).
  rewrite percent_decode_plain by done.
  rewrite percent_decode_encode_app by (auto using as_bytes_no_percent).
  rewrite percent_decode_plain by done.
  rewrite percent_decode_app by (apply fmt_08X_not; lia).
  rewrite !percent_decode_plain by done.
  rewrite percent_decode_id by (by eapply base64_clean).
  rewrite <- (from_utf8_as_bytes (raw_text t (encode_no_pad sig))) by by apply raw_text_valid.
  f_equal. unfold raw_text. rewrite as_bytes_app. f_equal. rewrite as_bytes_cons. cbn [app]. f_equal.
  rewrite as_bytes_app. f_equal. rewrite as_bytes_cons. cbn [app]. f_equal.
  rewrite as_bytes_ascii; [done|]. apply Forall_app_2; [apply time_ascii|].
  repeat constructor. by apply base64_valid.
Qed.

Lemma raw_text_parse t sig :
  plain_text t.(prefix) → plain_text t.(Ticket.data) → colon ∉ t.(prefix) → colon ∉ t.(Ticket.data) →
  0 ≤ t.(time) < 2 ^ 63 → Forall is_byte sig →
  ticket_parse (raw_text t (encode_no_pad sig)) =
  Ok (mkTicket t.(prefix) t.(Ticket.data) t.(time) (Some sig)).
Proof using plaws blaws.
  intros [Hp1 Hp2] [Hd1 Hd2] Hp3 Hd3 Ht Hs. unfold ticket_parse, raw_text.
  rewrite splitn_app by done. rewrite splitn_app by done. rewrite splitn_app by apply time_no_colon.
  simpl. rewrite !decode_str_plain by done. simpl. rewrite i64_from_hex_fmt by done. simpl.
  by rewrite decode_encode_no_pad.
Qed.

Lemma extract_cookie_one host value :
  name_text host → 59%N ∉ value → Forall (λ c, is_whitespace c = false) value →
  extract_cookie (host ++ 61%N :: value) host = decode_str value.
Proof using.
  intros Hh Hv Hw. unfold extract_cookie.
  rewrite split_on_no_sep by (rewrite not_elem_of_app, not_elem_of_cons; split; [by apply name_text_not|done]).
  cbn [extract_pair].
  rewrite (proj2 (split_once_iff _ _ host value)) by (split; [done|by apply name_text_not]).
  rewrite !trim_id by (try done; by apply name_text_clean). by rewrite decide_True.
Qed.

(** A character that neither the parts nor the escapes have is not in the text. *)
Lemma ticket_text_fresh t sig c :
  valid_str t.(prefix) → valid_str t.(Ticket.data) → c ∉ t.(prefix) → c ∉ t.(Ticket.data) →
  c ≠ 37%N → c ≠ colon → (c < 48 ∨ 57 < c < 65 ∨ 70 < c)%N → base64_char c = false →
  c ∉ ticket_data t ++ colon :: colon :: encode_no_pad sig.
Proof using plaws blaws.
  intros Hp1 Hd1 Hp2 Hd2 H37 Hcol Hhex H64.
  assert (Henc : ∀ s, valid_str s → c ∉ s → c ∉ percent_encode TICKET_ASCIISET (as_bytes s)).
  { intros s Hs Hin. destruct (N.ltb_spec c 128).
    - apply percent_encode_fresh; auto using as_bytes_bytes, as_bytes_fresh.
    - intros H'. apply encoded_ascii in Hs. rewrite Forall_forall in Hs. specialize (Hs _ H'). simpl in Hs. lia. }
  unfold ticket_data. rewrite !not_elem_of_app, !not_elem_of_cons, !not_elem_of_app, !not_elem_of_cons.
  pose proof (encode_no_pad_alphabet sig).
  repeat split; auto using fmt_08X_not; by eapply base64_clean.
Qed.

(** *** The CSRF token *)
Lemma csrf_token_verifies epoch now secret u token min_age max_age :
  assemble_csrf_prevention_token epoch secret u = Ok token →
  0 ≤ epoch < 2 ^ 63 → 0 ≤ now < 2 ^ 63 → min_age ≤ now - epoch ≤ max_age →
  verify_csrf_prevention_token now secret u token min_age max_age = Ok (now - epoch).
Proof using blaws laws.
  unfold assemble_csrf_prevention_token. intros H He Hn Ha.
  destruct (hmac_sign _ _ _) as [digest|] eqn:Ed; [|done]. injection H as <-.
  pose proof (hmac_bytes _ _ _ _ Ed) as Hb. pose proof (encode_no_pad_alphabet digest) as Hal.
  unfold verify_csrf_prevention_token, verify_csrf_prevention_token_do.
  rewrite (proj2 (split_once_iff _ _ (fmt_08X epoch) (encode_no_pad digest)))
    by (split; [done|apply time_no_colon]).
  rewrite bool_decide_eq_false_2 by by eapply base64_clean.
  rewrite decode_encode_no_pad by done. simpl. rewrite i64_from_hex_fmt by done. simpl.
  unfold hmac_verify. rewrite Ed. simpl. rewrite Nat.eqb_refl, bool_decide_eq_true_2 by done. simpl.
  rewrite age_no_wrap by done. by rewrite (proj2 (Z.ltb_ge _ _)), (proj2 (Z.ltb_ge _ _)) by lia.
Qed.

(** What a login with a full ticket returns. *)
Lemma full_response ctx call params refresh st st' resp info :
  handle_ticket_creation (Some ctx) call params refresh st = (st', Ok resp) →
  resp.(resp_ticket_info) = Some info →
  ∃ csrf ticket t', resp.(resp_csrf) = Some csrf ∧ resp.(resp_ticket) = Some ticket ∧
    assemble_csrf_prevention_token (call_now call) ctx.(csrf_secret) params.(username) = Ok csrf ∧
    sign (ticket_new (call_now call) ctx.(auth_prefix) (Full params.(username))) ctx.(keyring) None
    = Ok (ticket, t').
Proof using.
  unfold handle_ticket_creation. intros H Hi. destruct (password params) as [pw|]; [|done].
  destruct (authenticate_user _ _ _ _ _ _ _ _ _ _) as [st1 r]. injection H as _ H.
  destruct r as [[| |c]|]; simplify_eq/=.
  - step H csrf Hc. step H s Hs. destruct s as [ticket t']. simplify_eq/=. by exists csrf, ticket, t'.
  - step H s Hs. by simplify_eq/=.
Qed.

(** The user names for which cookies and tickets work: no per cent sign, no
    semicolon, and not beginning with the mark of a challenge. *)
Definition cookie_user (u : Userid) : Prop :=
  valid_userid u ∧ plain_text (AuthTypes.data u) ∧ (59%N ∉ AuthTypes.data u) ∧
  ∀ r, AuthTypes.data u ≠ tfa_mark ++ r.

Lemma cookie_ticket_read ctx u made sig :
  cookie_user u → name_text ctx.(auth_prefix) → name_text ctx.(prefixed_auth_cookie_name) →
  let t := ticket_new made ctx.(auth_prefix) (Full u) in
  extract_cookie (ctx.(prefixed_auth_cookie_name) ++
    61%N :: ticket_data t ++ colon :: colon :: encode_no_pad sig) ctx.(prefixed_auth_cookie_name)
  = Some (raw_text t (encode_no_pad sig)).
Proof using plaws blaws.
  intros (Hu & Hpt & Hsemi & _) Hp Hh t. destruct (name_text_clean _ Hp) as [Hpre Hws].
  pose proof (valid_userid_no_space u Hu) as Hus. destruct Hpre as [Hpv Hp37]. pose proof Hpt as [Hdv Hd37].
  assert (Hfresh : ∀ c, is_whitespace c = true ∨ c = 59%N →
    c ∉ ticket_data t ++ colon :: colon :: encode_no_pad sig).
  { intros c Hc.
    assert (name_char c = false ∧ c ≠ 37%N ∧ c ≠ colon ∧ (c < 48 ∨ 57 < c < 65 ∨ 70 < c)%N ∧ base64_char c = false)
      as (? & ? & ? & ? & ?).
    { unfold is_whitespace, name_char, base64_char, colon, is_ascii_alphanumeric, is_ascii_alphabetic,
        is_ascii_digit in *. lia. }
    apply ticket_text_fresh; try done.
    - by apply (name_text_not (auth_prefix ctx)).
    - change (Ticket.data t) with (AuthTypes.data u). destruct Hc as [Hc| ->]; [|done].
      intros Hin. rewrite Forall_forall in Hus. apply Hus in Hin. congruence. }
  rewrite extract_cookie_one; [|done|by apply Hfresh; right|].
  - by apply decode_ticket_text.
  - apply Forall_forall. intros c Hin. destruct (is_whitespace c) eqn:E; [|done].
    exfalso. revert Hin. apply Hfresh. by left.
Qed.

(** [C10] After a login that gave a full ticket, every request with the ticket as cookie
    and the CSRF token is let in as this user, as long as the account is active, from
    five minutes before the login until the lifetime of the ticket is over. The name of
    the user is one for which cookies work: valid, without per cent sign and semicolon,
    and not beginning with the mark of a challenge; the ticket prefix and the name of
    the cookie consist of letters, digits, dashes and underscores; times are not before
    the epoch. *)
Theorem login_then_request ctx call params refresh st st' resp info :
  handle_ticket_creation (Some ctx) call params refresh st = (st', Ok resp) →
  resp.(resp_ticket_info) = Some info → cookie_user params.(username) →
  name_text ctx.(auth_prefix) → name_text ctx.(prefixed_auth_cookie_name) → 0 ≤ call_now call < 2 ^ 63 →
  ∃ ticket csrf, resp.(resp_ticket) = Some ticket ∧ resp.(resp_csrf) = Some csrf ∧
    ∀ now method, 0 ≤ now < 2 ^ 63 → -300 ≤ now - call_now call ≤ TICKET_LIFETIME →
      ctx.(auth_id_is_active) (authid_from_userid params.(username)) = Ok true →
      http_check_auth (Some ctx) now
        (mkHeaders [Some (ctx.(prefixed_auth_cookie_name) ++ 61%N :: ticket)] (Some (Some csrf)) None) method
      = Ok (AuthTypes.data params.(username)).
Proof using plaws blaws laws.
  intros H Hi Hcu Hp Hh Hm. destruct (full_response _ _ _ _ _ _ _ _ H Hi) as (csrf & ticket & t' & Hc & Ht & Ec & Es).
  exists ticket, csrf. split; [done|]. split; [done|]. intros now method Hn Hage Hact.
  apply sign_inv in Es as (sig & Hs & -> & _).
  pose proof (rolled_over_refl _ _ _ _ Hs) as Hro. destruct (keyring_sign_verify _ _ _ _ _ Hro Hs) as [_ Hb].
  unfold http_check_auth, extract_auth_data. simpl auth_context. simpl rbind at 1.
  cbn [h_cookies omap list_omap extract_ticket h_csrf mjoin option_join].
  rewrite cookie_ticket_read by done. cbn [auth_ticket csrf_token].
  pose proof Hcu as (Hu & Hpt & _ & Hmark). destruct (name_text_clean _ Hp) as [Hpre _].
  rewrite raw_text_parse; [|done|done|by apply (name_text_not (auth_prefix ctx))|by apply valid_userid_no_colon|done|done].
  cbn [ticket_res rbind].
  rewrite (verify_with_time_frame_ok now _ (keyring ctx) (keyring ctx) sig _ None _ _ (Full (username params)));
    [|done|exact Hs|done..|by apply full_data_from_str].
  cbn [ticket_res rbind require_full]. rewrite Hact. cbn [rbind negb].
  assert ((if decide (method = lit "GET") then Ok 0
    else verify_csrf_prevention_token now (csrf_secret ctx) (username params) csrf (-300) TICKET_LIFETIME)
    = Ok (if decide (method = lit "GET") then 0 else now - call_now call)) as ->; [|done].
  case_decide; [done|]. by apply csrf_token_verifies.
Qed.
End RoundTrip.

(** ** Witnesses *)

(** A signature that spells out the key and the message; the laws hold for it. *)
Definition spelled_signature (k m : list N) : list N := (λ b, (b mod 256)%N) <$> k ++ m.

Definition spelled_ssl : OpenSsl := {|
  PKey := list N; HmacPKey := list N;
  is_ed25519 := λ _, false;
  sign_oneshot := λ k _ m, Ok (spelled_signature k m);
  verify_oneshot := λ k _ s m, Ok (bool_decide (s = spelled_signature k m));
  hmac_sign_oneshot := λ k _ m, Ok (spelled_signature k m);
  raw_private_key := λ k, Ok k;
  sha256_sum := λ m, m |}.

Lemma spelled_signature_bytes k m : Forall is_byte (spelled_signature k m).
Proof.
  apply Forall_forall. intros b Hb. apply list_elem_of_fmap in Hb as (x & -> & _). unfold is_byte.
  by apply N.mod_lt.
Qed.

Lemma spelled_ssl_laws : OpenSslLaws spelled_ssl.
Proof.
  split; simpl; intros k d m s [= <-]; [by rewrite bool_decide_eq_true_2|..];
    apply spelled_signature_bytes.
Qed.

Definition wit_crypto : Crypto := {|
  Totp := unit; U2fRegistration := unit; WebauthnCredential := unit; WebauthnState := unit;
  Value := unit; U2fAuthResponse := unit; PublicKeyCredential := unit;
  period := λ _, 30;
  counter := λ _ c, Ok (mkTotpValue (Z.to_N c) 2);
  hmac := λ s k, Ok (s ++ k);
  key_handle := λ _, []; response_key_handle := λ _, [];
  parse_u2f_response := λ _, Err InvalidResponse;
  auth_verify_obj := λ _ _ _, Ok false;
  parse_webauthn_response := λ _, Err InvalidResponse;
  finish_securitykey_authentication := λ _ _, Ok tt;
|}.
Definition wit_cdata : ChallengeData wit_crypto := {|
  RegisteredKey := unit; RequestChallengeResponse := unit;
  registration_key := λ _, tt; challenge_string := λ _, [];
  force_allow_backup_eligibility := λ s, Ok s; value_from_str := λ _, Ok (tt : @Value wit_crypto) |}.
(** The only challenge the witnesses need asks for a TOTP code. *)
Definition wit_json : ChallengeJson wit_cdata := {|
  challenge_to_json := λ _, lit "{}";
  challenge_of_json := λ _, Some (mkChallenge true None None None false) |}.

#[local] Existing Instances spelled_ssl spelled_ssl_laws spelled_percent spelled_percent_laws
  spelled_base64 spelled_base64_laws wit_crypto wit_cdata wit_json default_limits.

Definition wit_ctx : AuthContext unit := {|
  lookup_realm := λ r, if decide (r = lit "pam")
                       then Some (λ _ pw _, if decide (pw = lit "pw") then Ok tt else Err AuthenticationFailed)
                       else None;
  keyring := with_hmac_key [1%N; 2%N];
  auth_prefix := lit "PBS"; auth_token_prefix := lit "PBSAPIToken";
  auth_cookie_name := lit "PBSAuthCookie"; prefixed_auth_cookie_name := lit "__Host-PBSAuthCookie";
  tfa_lock := Ok tt; tfa_save := Ok tt;
  auth_id_is_active := λ _, Ok true;
  csrf_secret := [3%N];
  verify_token_secret := λ _ _, Err ContextErr;
  check_path_ticket := λ _ _ _ _ _, Ok None |}.

Definition wit_user : TfaUserData :=
  mkUser [mkEntry (mkInfo (lit "a") true [] 0) (mkTotp tt (-1))] [] [] None [] false None.
Definition wit_call (t : Z) : Call (IpAddr := unit) :=
  mkCall (mkEnv t true true true) (mkDraw (λ _, Err CryptoError) (Err CryptoError)) None.
(** The user root has a second factor, the user guest has none. *)
Definition wit_state : AuthState :=
  mkState (mkConfig false false {[ lit "root@pam" := wit_user ]}) ∅.
Definition guest : Userid := userid_from_parts (lit "guest") (lit "pam").
Definition wit_login (u : Userid) (pw : rstr) (tfa : option rstr) : CreateTicket :=
  mkCreate u (Some pw) None None None tfa.

Definition response_of (r : AuthState * result CreateTicketResponse ApiError) : CreateTicketResponse :=
  match r.2 with Ok resp => resp | Err _ => response_new ROOT_USERID end.
Definition ticket_of (r : AuthState * result CreateTicketResponse ApiError) : rstr :=
  default [] (response_of r).(resp_ticket).
Definition info_of (r : AuthState * result CreateTicketResponse ApiError) : rstr :=
  default [] (response_of r).(resp_ticket_info).

(** A password login, and both steps of a login with a TOTP code. *)
Definition guest_login :=
  handle_ticket_creation (Some wit_ctx) (wit_call 300) (wit_login guest (lit "pw") None) true wit_state.
Definition root_first :=
  handle_ticket_creation (Some wit_ctx) (wit_call 300) (wit_login ROOT_USERID (lit "pw") None) true wit_state.
Definition root_second :=
  handle_ticket_creation (Some wit_ctx) (wit_call 310)
    (wit_login ROOT_USERID (lit "totp:10") (Some (ticket_of root_first))) true root_first.1.

(** The first step gives a ticket without information on it, the second a full one. *)
Lemma root_login_steps :
  is_ok root_first.2 = true ∧ (response_of root_first).(resp_ticket_info) = None ∧
  is_ok root_second.2 = true ∧ is_Some (response_of root_second).(resp_ticket_info).
Proof. vm_compute. repeat split; eauto. Qed.

Lemma full_ticket_granted_witness :
  second_factor_given wit_ctx (wit_call 310) ROOT_USERID (ticket_of root_first) (lit "totp:10")
    root_first.1.
Proof.
  destruct (full_ticket_granted wit_ctx (wit_call 310)
    (wit_login ROOT_USERID (lit "totp:10") (Some (ticket_of root_first))) true root_first.1
    root_second.1 (response_of root_second) (info_of root_second)) as (pw & [= <-] & _ & H).
  - vm_compute. reflexivity.
  - vm_compute. reflexivity.
  - vm_compute. split; congruence.
  - exact H.
Defined.

Definition cookie_of (ticket : rstr) : rstr := lit "__Host-PBSAuthCookie=" ++ ticket.
Definition guest_headers : HeaderMap :=
  mkHeaders [Some (cookie_of (ticket_of guest_login))] (Some (response_of guest_login).(resp_csrf)) None.

Lemma http_check_auth_sound_witness :
  request_granted wit_ctx 400 guest_headers (lit "POST") (lit "guest@pam").
Proof.
  apply http_check_auth_sound.
  - vm_compute. reflexivity.
  - lia.
Defined.

Lemma guest_cookie_user : cookie_user guest.
Proof.
  split; [|split; [|split]].
  - exists (lit "guest"), (lit "pam"). split; [done|]. split; [|done]. split; [done|]. simpl. lia.
  - split; [by repeat constructor|]. by apply (bool_decide_unpack _).
  - by apply (bool_decide_unpack _).
  - intros r. vm_compute. congruence.
Qed.

Lemma login_then_request_witness :
  ∃ ticket csrf, (response_of guest_login).(resp_ticket) = Some ticket ∧
    (response_of guest_login).(resp_csrf) = Some csrf ∧
    http_check_auth (Some wit_ctx) 7500 (mkHeaders [Some (cookie_of ticket)] (Some (Some csrf)) None)
      (lit "POST") = Ok (lit "guest@pam").
Proof.
  destruct (login_then_request wit_ctx (wit_call 300) (wit_login guest (lit "pw") None) true wit_state
    guest_login.1 (response_of guest_login) (info_of guest_login)) as (ticket & csrf & H1 & H2 & H3).
  - vm_compute. reflexivity.
  - vm_compute. reflexivity.
  - exact guest_cookie_user.
  - by repeat constructor.
  - by repeat constructor.
  - vm_compute. split; congruence.
  - exists ticket, csrf. split; [exact H1|]. split; [exact H2|].
    apply (H3 7500 (lit "POST")); [lia|vm_compute; split; congruence|reflexivity].
Defined.

(** A semicolon in the user name ends the value of the cookie: the user can log in,
    but the ticket that the browser sends back is cut off. *)
Definition semicolon_user : Userid := userid_from_parts (lit "a;b") (lit "pam").
Definition semicolon_login :=
  handle_ticket_creation (Some wit_ctx) (wit_call 300) (wit_login semicolon_user (lit "pw") None) true wit_state.

Theorem semicolon_user_cookie :
  userid_from_str (lit "a;b@pam") = Ok semicolon_user ∧
  is_Some (response_of semicolon_login).(resp_ticket_info) ∧
  http_check_auth (Some wit_ctx) 301
    (mkHeaders [Some (cookie_of (ticket_of semicolon_login))] (Some (response_of semicolon_login).(resp_csrf)) None)
    (lit "GET") = Err (TicketErr WithoutPart).
Proof. vm_compute. repeat split; eauto. Qed.

(** The tickets of [%C3%A9@pve] can be signed and are accepted as those of [é@pve]. *)
Definition percent_text : rstr :=
  match sign (ticket_new 300 (lit "PBS") (Full percent_user)) (keyring wit_ctx) None with
  | Ok (text, _) => text
  | Err _ => []
  end.
Lemma ticket_of_other_user_witness :
  http_check_auth (Some wit_ctx) 400 (mkHeaders [Some (cookie_of percent_text)] None None) (lit "GET")
  = Ok (AuthTypes.data accent_user).
Proof. vm_compute. reflexivity. Qed.
