(* ===== verification/RrdJournal.v ===== *)
(** * RrdJournal: the journal of the database cache

    Models the text of journal entries, the check of metric paths, reading lines
    and dropping an incomplete entry of [proxmox-rrd/src/cache.rs] and
    [cache/journal.rs]. A journal is a file of bytes; the text of floating point
    numbers is a parameter ([F64Text]). *)
From S2P Require Import Prelude F64 Rrd Json TextCoding.

Inductive JournalError :=
| WrongNumberOfComponents | BadTime | BadValue | BadType | StrangeType | InvalidPath | ReservedPath
| WriteFailed | NotUtf8.

(** [char::is_control]: the general category [Cc]. *)
Definition is_control (c : rchar) : bool := ((c <? 32) || (127 <=? c) && (c <? 160))%N.

Definition slash : rchar := 47%N.
Definition colon : rchar := 58%N.
Definition newline : N := 10%N.

Definition is_prefix (p s : rstr) : bool := bool_decide (is_Some (strip_prefix p s)).

(** [validate_rrd_path] *)
Definition validate_rrd_path (rel_path : rstr) : result unit JournalError :=
  if existsb is_control rel_path
     || existsb (λ part, bool_decide (part ∈ [[]; lit "."; lit ".."])) (split_on slash rel_path)
  then Err InvalidPath
  else
    let first := default [] (head (split_on slash rel_path)) in
    if bool_decide (first = lit "rrd.journal") || is_prefix (lit "rrd.journal-") first
    then Err ReservedPath
    else Ok tt.

(** [dst as u8] and the match of the parser. *)
Definition dst_as_u8 (d : DataSourceType) : N :=
  match d with Gauge => 0 | Derive => 1 | Counter => 2 end%N.
Definition dst_from_u8 (n : N) : option DataSourceType :=
  match n with 0 => Some Gauge | 1 => Some Derive | 2 => Some Counter | _ => None end%N.

Record JournalEntry := mkJEntry {
  je_time : f64;
  je_value : f64;
  je_dst : DataSourceType;
  je_path : rstr;
}.

Section Text.
Context {F : F64Text}.

(** [impl FromStr for JournalEntry] *)
Definition journal_entry_from_str (line : rstr) : result JournalEntry JournalError :=
  let line := match rposition newline line with
              | Some i => if decide (S i = length line) then take i line else line
              | None => line
              end in
  match splitn 4 colon line with
  | [time; value; dst; rel_path] =>
      let? time := ok_or (f64_from_str time) BadTime in
      let? value := ok_or (f64_from_str value) BadValue in
      let? dst := ok_or (parse_uint u8_max dst) BadType in
      let? dst := ok_or (dst_from_u8 dst) StrangeType in
      let? _ := validate_rrd_path rel_path in
      Ok (mkJEntry time value dst rel_path)
  | _ => Err WrongNumberOfComponents
  end.

(** The [format!] of [JournalState::append_journal_entry]. *)
Definition journal_entry_text (e : JournalEntry) : rstr :=
  f64_display e.(je_time) ++ colon :: f64_display e.(je_value) ++ colon ::
  dec (dst_as_u8 e.(je_dst)) ++ colon :: e.(je_path) ++ [newline].
Definition journal_entry_bytes (e : JournalEntry) : list N := as_bytes (journal_entry_text e).

(** [BufRead::read_line] at an offset: the bytes up to and with the next line feed,
    or all that are left. *)
Definition next_line (file : list N) (pos : nat) : list N :=
  let rest := drop pos file in
  match position newline rest with
  | Some i => take (S i) rest
  | None => rest
  end.

(** A line of a journal: one that cannot be parsed is skipped, one that is not
    UTF-8 is an error. *)
Definition line_entry (line : list N) : result (option JournalEntry) JournalError :=
  let? text := ok_or (from_utf8 line) NotUtf8 in
  Ok (ok (journal_entry_from_str text)).

(** All lines of a file. *)
Fixpoint file_lines (fuel : nat) (file : list N) : list (list N) :=
  match fuel, file with
  | S fuel, _ :: _ =>
      let line := next_line file 0 in line :: file_lines fuel (drop (length line) file)
  | _, _ => []
  end.
Definition lines_of_file (file : list N) : list (list N) := file_lines (length file) file.
End Text.

(** The loop of [truncate_incomplete_entry]: the file is searched from its end in
    pieces of [size] bytes for a line feed; [stop] is the end of the part that is
    left. *)
Fixpoint truncate_loop (fuel : nat) (size : nat) (file : list N) (stop : nat) : nat :=
  match fuel with
  | O => stop
  | S fuel =>
      if decide (stop = 0) then 0
      else
        let start := stop - size in
        match rposition newline (take (stop - start) (drop start file)) with
        | Some pos => start + pos + 1
        | None => truncate_loop fuel size file start
        end
  end.

(** [truncate_incomplete_entry]; a piece has 4096 bytes. *)
Definition truncate_incomplete_entry (file : list N) : list N :=
  take (truncate_loop (S (length file)) 4096 file (length file)) file.

(** ** The search in pieces finds the last line feed *)
Definition complete_part (file : list N) : list N :=
  match rposition newline file with
  | Some i => take (S i) file
  | None => []
  end.

Lemma rposition_app_r (c : N) s t i : rposition c t = Some i → rposition c (s ++ t) = Some (length s + i).
Proof. intros H. induction s as [|x s IH]; simpl; [done|]. by rewrite IH. Qed.

Lemma rposition_is_None (c : N) s : rposition c s = None ↔ c ∉ s.
Proof.
  split; [|apply rposition_None]. induction s as [|x s IH]; simpl; [intros _; apply not_elem_of_nil|].
  destruct (rposition c s); [done|]. case_decide; [done|]. intros _. apply not_elem_of_cons. split; [congruence|auto].
Qed.

Lemma truncate_loop_spec fuel size file stop :
  0 < size → stop < fuel → stop ≤ length file → newline ∉ drop stop file →
  truncate_loop fuel size file stop = length (complete_part file).
Proof.
  intros Hsize. revert stop. induction fuel as [|fuel IH]; intros stop Hf Hle Hno; [lia|]. cbn [truncate_loop].
  case_decide as Hz.
  { subst. rewrite drop_0 in Hno. unfold complete_part. by rewrite rposition_None. }
  set (start := stop - size) in *. set (chunk := take (stop - start) (drop start file)).
  assert (file = take start file ++ chunk ++ drop stop file) as Hsplit.
  { unfold chunk. rewrite <- (take_drop start file) at 1. f_equal.
    rewrite <- (take_drop (stop - start) (drop start file)) at 1. f_equal. rewrite drop_drop. f_equal. lia. }
  assert (length (take start file) = start) as Hl by (rewrite length_take; lia).
  assert (length chunk = stop - start) as Hlc by (unfold chunk; rewrite length_take, length_drop; lia).
  destruct (rposition newline chunk) as [pos|] eqn:E.
  - unfold complete_part. pose proof (rposition_lt _ _ _ E).
    assert (rposition newline file = Some (start + pos)) as ->.
    { rewrite Hsplit, (rposition_app_r _ _ _ pos); [by rewrite Hl|].
      by rewrite rposition_app_l. }
    rewrite length_take. lia.
  - apply rposition_is_None in E. apply IH; [lia|lia|].
    rewrite Hsplit, drop_app_ge by lia. rewrite Hl, Nat.sub_diag, drop_0, not_elem_of_app. done.
Qed.

(** [truncate_incomplete_entry] keeps exactly the bytes up to the last line feed. *)
Lemma truncate_incomplete_entry_spec file : truncate_incomplete_entry file = complete_part file.
Proof.
  unfold truncate_incomplete_entry. rewrite truncate_loop_spec; [|lia|lia|lia|].
  - unfold complete_part. destruct (rposition newline file) as [i|] eqn:E; [|done].
    apply rposition_lt in E. rewrite length_take. f_equal. lia.
  - rewrite drop_all. apply not_elem_of_nil.
Qed.

(** ** A journal as a list of lines *)
Definition line_ok (l : list N) : Prop := ∃ body, l = body ++ [newline] ∧ (newline ∉ body).

Lemma next_line_concat done_ l ls :
  line_ok l → next_line (concat done_ ++ l ++ ls) (length (concat done_)) = l.
Proof.
  intros (body & -> & Hb). unfold next_line. rewrite drop_app_length, <- app_assoc. simpl.
  rewrite position_app by done. by rewrite cons_middle, app_assoc, take_app_length' by (rewrite length_app; simpl; lia).
Qed.

Lemma line_ok_cons l : line_ok l → ∃ x l', l = x :: l'.
Proof. intros (body & -> & _). destruct body; simpl; eauto. Qed.

Lemma lines_of_file_concat ls : Forall line_ok ls → lines_of_file (concat ls) = ls.
Proof.
  intros H. unfold lines_of_file.
  assert (∀ fuel, length (concat ls) ≤ fuel → file_lines fuel (concat ls) = ls) as Hf; [|by apply Hf].
  induction H as [|l ls Hl _ IH]; intros fuel Hfuel; [by destruct fuel|].
  destruct (line_ok_cons l Hl) as (x & l' & E). simpl concat in *.
  destruct fuel as [|fuel]; [rewrite E in Hfuel; simpl in Hfuel; lia|].
  pose proof (next_line_concat [] l (concat ls) Hl) as Hn. simpl in Hn.
  assert (file_lines (S fuel) (l ++ concat ls) = next_line (l ++ concat ls) 0 ::
            file_lines fuel (drop (length (next_line (l ++ concat ls) 0)) (l ++ concat ls))) as ->.
  { rewrite E. done. }
  rewrite Hn, drop_app_length. f_equal. apply IH. rewrite E in Hfuel. simpl in Hfuel. rewrite length_app in Hfuel. lia.
Qed.

(** An incomplete entry behind complete lines is dropped, and nothing else. *)
Lemma complete_part_concat ls tail :
  Forall line_ok ls → newline ∉ tail → complete_part (concat ls ++ tail) = concat ls.
Proof.
  intros Hls Ht. unfold complete_part. rewrite rposition_app_l by done.
  destruct ls as [|l ls _] using rev_ind; [done|]. apply Forall_app in Hls as [_ Hl].
  apply Forall_cons in Hl as [(body & -> & Hb) _]. rewrite concat_app. simpl. rewrite app_nil_r.
  rewrite app_assoc, rposition_app by apply not_elem_of_nil.
  rewrite take_app_le by (rewrite !length_app; simpl; lia).
  by rewrite firstn_all2 by (rewrite !length_app; simpl; lia).
Qed.

(** ** Round trip of an entry *)
Lemma number_char_not c s : Forall (λ c, number_char c = true) s → number_char c = false → c ∉ s.
Proof. intros Hs Hc Hin. rewrite Forall_forall in Hs. apply Hs in Hin. congruence. Qed.

Lemma valid_path_no_control path c :
  validate_rrd_path path = Ok tt → is_control c = true → c ∉ path.
Proof.
  unfold validate_rrd_path. destruct (existsb is_control path) eqn:E; [done|]. intros _ Hc Hin.
  assert (existsb is_control path = true); [|congruence].
  apply existsb_exists. exists c. split; [by apply list_elem_of_In|done].
Qed.

(** Entries whose numbers are finite and whose path is a valid text. *)
Definition entry_ok (e : JournalEntry) : Prop :=
  f64_valid e.(je_time) = true ∧ f64_is_finite e.(je_time) = true ∧
  f64_valid e.(je_value) = true ∧ f64_is_finite e.(je_value) = true ∧
  valid_str e.(je_path) ∧ validate_rrd_path e.(je_path) = Ok tt.

Section Roundtrip.
Context {F : F64Text} {FL : F64TextLaws F}.

Definition entry_body (e : JournalEntry) : rstr :=
  f64_display e.(je_time) ++ colon :: f64_display e.(je_value) ++ colon ::
  dec (dst_as_u8 e.(je_dst)) ++ colon :: e.(je_path).

Lemma journal_entry_text_body e : journal_entry_text e = entry_body e ++ [newline].
Proof.
  unfold journal_entry_text, entry_body. repeat (rewrite <- app_assoc; cbn [app]). done.
Qed.

Lemma entry_body_no_newline e : entry_ok e → newline ∉ entry_body e.
Proof using FL.
  intros (H1 & H2 & H3 & H4 & _ & H6). unfold entry_body.
  rewrite !not_elem_of_app, !not_elem_of_cons, !not_elem_of_app, !not_elem_of_cons, !not_elem_of_app, !not_elem_of_cons.
  repeat split; try done.
  - eapply number_char_not; [by apply f64_display_chars|done].
  - eapply number_char_not; [by apply f64_display_chars|done].
  - by apply dec_not_in.
  - by apply (valid_path_no_control (je_path e)).
Qed.

(** What is appended for an entry is read as this entry. *)
Theorem journal_entry_roundtrip e : entry_ok e → journal_entry_from_str (journal_entry_text e) = Ok e.
Proof using FL.
  intros He. pose proof He as (H1 & H2 & H3 & H4 & _ & H6). unfold journal_entry_from_str.
  rewrite journal_entry_text_body, rposition_app by apply not_elem_of_nil.
  rewrite decide_True by (rewrite length_app; simpl; lia). rewrite take_app_length. unfold entry_body.
  rewrite splitn_app by (eapply number_char_not; [by apply f64_display_chars|done]).
  rewrite splitn_app by (eapply number_char_not; [by apply f64_display_chars|done]).
  rewrite splitn_app by by apply dec_not_in. simpl splitn.
  rewrite !f64_from_display by done. cbn [ok_or rbind].
  rewrite parse_uint_dec by (by destruct (je_dst e)). cbn [ok_or rbind].
  assert (dst_from_u8 (dst_as_u8 (je_dst e)) = Some (je_dst e)) as -> by by destruct (je_dst e).
  cbn [ok_or rbind]. rewrite H6. by destruct e.
Qed.

Lemma entry_text_valid e : entry_ok e → valid_str (journal_entry_text e).
Proof using FL.
  intros (H1 & H2 & H3 & H4 & H5 & H6).
  assert (∀ s, Forall (λ c, number_char c = true) s → valid_str s) as Hn.
  { intros s Hs. eapply Forall_impl; [exact Hs|]. intros c. unfold number_char, is_scalar, is_ascii_digit. lia. }
  unfold journal_entry_text. apply Forall_app_2; [apply Hn; by apply f64_display_chars|].
  constructor; [done|]. apply Forall_app_2; [apply Hn; by apply f64_display_chars|]. constructor; [done|].
  apply Forall_app_2; [by destruct (je_dst e); repeat constructor|]. constructor; [done|].
  apply Forall_app_2; [done|]. by repeat constructor.
Qed.

Lemma entry_bytes_line e : entry_ok e → line_ok (journal_entry_bytes e).
Proof using FL.
  intros He. exists (as_bytes (entry_body e)). unfold journal_entry_bytes.
  rewrite journal_entry_text_body, as_bytes_app. split; [done|].
  apply as_bytes_fresh; [done|by apply entry_body_no_newline].
Qed.

Lemma line_entry_bytes e : entry_ok e → line_entry (journal_entry_bytes e) = Ok (Some e).
Proof using FL.
  intros He. unfold line_entry, journal_entry_bytes.
  rewrite from_utf8_as_bytes by by apply entry_text_valid. simpl. by rewrite journal_entry_roundtrip.
Qed.

(** A prefix of the bytes of an entry that is cut off has no line feed. *)
Lemma torn_entry_no_newline e k :
  entry_ok e → k < length (journal_entry_bytes e) → newline ∉ take k (journal_entry_bytes e).
Proof using FL.
  intros He Hk. destruct (entry_bytes_line e He) as (body & E & Hb). rewrite E in *.
  rewrite length_app in Hk. simpl in Hk. rewrite take_app_le by lia.
  intros Hin. apply Hb. rewrite <- (take_drop k body). apply elem_of_app. by left.
Qed.
End Roundtrip.
