(* ===== verification/RrdCache.v ===== *)
(** * RrdCache: databases in memory, updates in a journal

    Models [Cache] of [proxmox-rrd/src/cache.rs] with [RRDMap] ([cache/rrd_map.rs])
    and [JournalState] ([cache/journal.rs]): updates are appended to the journal and
    applied in memory; a thread replays the journals after a start, and later writes
    the databases back and removes the journals it no longer needs. The thread takes
    the locks for short times only, so that it runs interleaved with the callers:
    one event of the model is what happens under one lock.

    The directory is the state of its files. A database that is saved replaces its
    file at once ([Database::save] renames) and is loaded as it was saved; dropping
    an incomplete entry and opening a journal do not fail. A crash is one of the
    program: what was written to a file is there when it starts again. The databases are an
    interface, [RrdStore], which [database_store] implements. *)
From stdpp Require Import gmap.
From S2P Require Import Prelude F64 Rrd Json TextCoding RrdJournal.

#[local] Open Scope Z_scope.

(** [Database::update] (which can panic), [Database::last_update], and the callback
    [create_rrd_cb]. *)
Class RrdStore := mkStore {
  DB : Type;
  db_update : DB → f64 → f64 → option DB;
  db_last_update : DB → f64;
  create_rrd : DataSourceType → DB;
}.

Definition database_store (archives : list Archive) : RrdStore := {|
  DB := Database;
  db_update := database_update;
  db_last_update := λ db, db.(source).(last_update);
  create_rrd := λ d, database_new d archives |}.

(** ** The names of old journals *)

(** The time in the name of a rotated journal, as [list_old_journals] reads it. *)
Definition journal_key (now : Z) : Z := now mod 2 ^ 64.

Definition OldJournals : Type := list (Z * list N).

Fixpoint insert_journal (j : Z * list N) (l : OldJournals) : OldJournals :=
  match l with
  | [] => [j]
  | j' :: l' => if j.1 <=? j'.1 then j :: l else j' :: insert_journal j l'
  end.

(** [JournalState::list_old_journals]: sorted by the time of the name. *)
Definition list_old_journals (l : OldJournals) : OldJournals := foldr insert_journal [] l.

(** Renaming the journal replaces an old one of the same name. *)
Definition rename_journal (now : Z) (journal : list N) (l : OldJournals) : OldJournals :=
  List.filter (λ j, negb (j.1 =? journal_key now)) l ++ [(journal_key now, journal)].

(** What can go wrong outside of the program in one step. *)
Inductive RotateOutcome := RotateOk | RenameFails | SyncFails.
Record Outcome := mkOutcome { o_now : Z; o_rotate : RotateOutcome; o_ok : bool }.

Section Cache.
Context {F : F64Text} {store : RrdStore}.

(** Where the thread of [apply_and_commit_journal_thread] is. *)
Inductive Thread :=
| Idle
| StartReplay
| ReplayOld (lines : list (list N))
| ReplayJournal (pos : nat)
| FinishReplay (pos : nat)
| RotateFirst
| ListFiles
| Flush (todo : list rstr) (errors : nat)
| SyncFiles
| RemoveOld (todo : list Z).

Record Cache := mkCache {
  files : gmap rstr DB;
  old : OldJournals;
  journal : list N;
  map : gmap rstr DB;
  journal_applied : bool;
  last_journal_flush : f64;
  thread : Thread;
}.

Definition set_thread (c : Cache) (t : Thread) : Cache :=
  mkCache c.(files) c.(old) c.(journal) c.(map) c.(journal_applied) c.(last_journal_flush) t.
Definition set_map (c : Cache) (m : gmap rstr DB) : Cache :=
  mkCache c.(files) c.(old) c.(journal) m c.(journal_applied) c.(last_journal_flush) c.(thread).
Definition set_journal (c : Cache) (j : list N) : Cache :=
  mkCache c.(files) c.(old) j c.(map) c.(journal_applied) c.(last_journal_flush) c.(thread).
Definition set_file (c : Cache) (p : rstr) (rrd : DB) : Cache :=
  mkCache (<[p := rrd]> c.(files)) c.(old) c.(journal) c.(map) c.(journal_applied) c.(last_journal_flush) c.(thread).
Definition set_old (c : Cache) (l : OldJournals) : Cache :=
  mkCache c.(files) l c.(journal) c.(map) c.(journal_applied) c.(last_journal_flush) c.(thread).
Definition set_applied (c : Cache) : Cache :=
  mkCache c.(files) c.(old) c.(journal) c.(map) true c.(last_journal_flush) c.(thread).

(** ** The map *)
Definition update_db (rrd : DB) (time value : f64) (new_only : bool) : option DB :=
  if negb new_only || f64_lt (db_last_update rrd) time then db_update rrd time value else Some rrd.

(** [RRDMap::update]; [can_create] is the outcome of [create_path]. [None] is a panic. *)
Definition map_update (files m : gmap rstr DB) (e : JournalEntry) (new_only can_create : bool)
    : option (gmap rstr DB * bool) :=
  let finish rrd :=
    match update_db rrd e.(je_time) e.(je_value) new_only with
    | Some rrd => Some (<[e.(je_path) := rrd]> m, true)
    | None => None
    end in
  match m !! e.(je_path) with
  | Some rrd => finish rrd
  | None =>
      match files !! e.(je_path) with
      | Some rrd => finish rrd
      | None => if can_create then finish (create_rrd e.(je_dst)) else Some (m, false)
      end
  end.

(** [RRDMap::load] *)
Definition map_load (files m : gmap rstr DB) (rel_path : rstr) : gmap rstr DB * bool :=
  match m !! rel_path with
  | Some _ => (m, true)
  | None =>
      match files !! rel_path with
      | Some rrd => (<[rel_path := rrd]> m, true)
      | None => (m, false)
      end
  end.

(** ** The journal *)

(** A write that fails, or a crash, can leave a part of the entry. *)
Definition torn_bytes (torn : option (JournalEntry * nat)) : list N :=
  match torn with
  | Some (e, k) => let b := journal_entry_bytes e in take (Nat.min k (length b - 1)) b
  | None => []
  end.

(** [JournalState::append_journal_entry]; [written] is the number of bytes after
    which the write fails, if it does. *)
Definition append_journal_entry (c : Cache) (e : JournalEntry) (written : option nat)
    : Cache * result unit JournalError :=
  match validate_rrd_path e.(je_path) with
  | Err err => (c, Err err)
  | Ok _ =>
      match written with
      | Some k => (set_journal c (truncate_incomplete_entry (c.(journal) ++ torn_bytes (Some (e, k)))),
                   Err WriteFailed)
      | None => (set_journal c (c.(journal) ++ journal_entry_bytes e), Ok tt)
      end
  end.

(** [JournalState::rotate_journal]: the state, and whether there was no error. *)
Definition rotate_journal (c : Cache) (o : Outcome) : Cache * bool :=
  match o.(o_rotate) with
  | RenameFails => (c, false)
  | _ => (set_journal (set_old c (rename_journal o.(o_now) c.(journal) c.(old))) [],
          match o.(o_rotate) with RotateOk => true | _ => false end)
  end.

(** The body of the loop of [apply_journal_lines]: [None] is a panic, [false] the
    end with an error. *)
Definition apply_line (files m : gmap rstr DB) (line : list N) (can_create : bool)
    : option (gmap rstr DB * bool) :=
  match line_entry line with
  | Err _ => Some (m, false)
  | Ok None => Some (m, true)
  | Ok (Some e) => map_update files m e true can_create
  end.

Fixpoint apply_journal_lines (files m : gmap rstr DB) (lines : list (list N)) (can_create : bool)
    : option (gmap rstr DB * bool) :=
  match lines with
  | [] => Some (m, true)
  | line :: lines =>
      match apply_line files m line can_create with
      | Some (m, true) => apply_journal_lines files m lines can_create
      | r => r
      end
  end.

(** ** The thread *)

(** One step of the thread; [None] is a panic. *)
Definition thread_step (o : Outcome) (c : Cache) : option Cache :=
  match c.(thread) with
  | Idle => Some c
  | StartReplay =>
      Some (set_thread c (ReplayOld (concat (lines_of_file <$> (list_old_journals c.(old)).*2))))
  | ReplayOld [] => Some (set_thread c (ReplayJournal 0))
  | ReplayOld (line :: lines) =>
      match apply_line c.(files) c.(map) line o.(o_ok) with
      | None => None
      | Some (m, goes_on) => Some (set_thread (set_map c m) (if goes_on then ReplayOld lines else Idle))
      end
  | ReplayJournal pos =>
      match next_line c.(journal) pos with
      | [] => Some (set_thread c (FinishReplay pos))
      | line =>
          match apply_line c.(files) c.(map) line o.(o_ok) with
          | None => None
          | Some (m, goes_on) =>
              Some (set_thread (set_map c m) (if goes_on then ReplayJournal (pos + length line) else Idle))
          end
      end
  | FinishReplay pos =>
      match apply_journal_lines c.(files) c.(map) (lines_of_file (drop pos c.(journal))) o.(o_ok) with
      | None => None
      | Some (m, false) => Some (set_thread (set_map c m) Idle)
      | Some (m, true) =>
          let '(c, rotated) := rotate_journal (set_map c m) o in
          Some (if rotated then set_thread (set_applied c) ListFiles else set_thread c Idle)
      end
  | RotateFirst =>
      let '(c, rotated) := rotate_journal c o in
      Some (set_thread c (if rotated then ListFiles else Idle))
  | ListFiles => Some (set_thread c (Flush (elements (dom c.(map))) 0))
  | Flush (p :: todo) errors =>
      match c.(map) !! p with
      | Some rrd =>
          if o.(o_ok) then Some (set_thread (set_file c p rrd) (Flush todo errors))
          else Some (set_thread c (Flush todo (S errors)))
      | None => Some (set_thread c (Flush todo (S errors)))
      end
  | Flush [] errors => Some (set_thread c (if decide (errors = 0%nat) then SyncFiles else Idle))
  | SyncFiles => Some (set_thread c (if o.(o_ok) then RemoveOld (list_old_journals c.(old)).*1 else Idle))
  | RemoveOld [] => Some (set_thread c Idle)
  | RemoveOld (k :: todo) =>
      Some (if o.(o_ok) then set_thread (set_old c (List.filter (λ j, negb (j.1 =? k)) c.(old))) (RemoveOld todo)
            else set_thread c Idle)
  end.

(** ** The operations of the cache *)
Variable apply_interval : f64.

(** [Cache::apply_journal]: starts the thread unless it runs. *)
Definition apply_journal (now : f64) (c : Cache) : Cache :=
  match c.(thread) with
  | Idle =>
      let wants_commit := f64_lt apply_interval (f64_sub now c.(last_journal_flush)) in
      if c.(journal_applied) && negb wants_commit then c
      else mkCache c.(files) c.(old) c.(journal) c.(map) c.(journal_applied) now
             (if c.(journal_applied) then RotateFirst else StartReplay)
  | _ => c
  end.

(** The part of [Cache::update_value_impl] under the lock; [None] is a panic. *)
Definition append_and_update (e : JournalEntry) (new_only : bool) (written : option nat)
    (can_create : bool) (c : Cache) : option (Cache * result unit JournalError) :=
  match append_journal_entry c e written with
  | (c, Err err) => Some (c, Err err)
  | (c, Ok _) =>
      if c.(journal_applied) then
        match map_update c.(files) c.(map) e new_only can_create with
        | None => None
        | Some (m, created) => Some (set_map c m, if created then Ok tt else Err WriteFailed)
        end
      else Some (c, Ok tt)
  end.

(** [Cache::update_value_impl] *)
Definition update_value_impl (now : f64) (e : JournalEntry) (new_only : bool) (written : option nat)
    (can_create : bool) (c : Cache) : option (Cache * result unit JournalError) :=
  match validate_rrd_path e.(je_path) with
  | Err err => Some (c, Err err)
  | Ok _ => append_and_update e new_only written can_create (apply_journal now c)
  end.

(** [Cache::extract_cached_data]: the database that is asked. *)
Definition cached_database (base name : rstr) (c : Cache) : Cache * result (option DB) JournalError :=
  let rel_path := base ++ slash :: name in
  match validate_rrd_path rel_path with
  | Err err => (c, Err err)
  | Ok _ =>
      match c.(map) !! rel_path with
      | Some rrd => (c, Ok (Some rrd))
      | None =>
          let '(m, loaded) := map_load c.(files) c.(map) rel_path in
          (set_map c m, Ok (if loaded then m !! rel_path else None))
      end
  end.

(** [Cache::new] on a directory. *)
Definition cache_new (files : gmap rstr DB) (old : OldJournals) (journal : list N) : Cache :=
  mkCache files old (truncate_incomplete_entry journal) ∅ false f64_zero Idle.

(** ** Histories *)

(** [EUpdate] is a call of an update that nothing interrupts; where other events come
    between its two halves, the halves are [EApply] and [EAppend]. *)
Inductive Event :=
| EUpdate (now : f64) (e : JournalEntry) (new_only : bool) (written : option nat) (can_create : bool)
| EAppend (e : JournalEntry) (new_only : bool) (written : option nat) (can_create : bool)
| EExtract (base name : rstr)
| EApply (now : f64)
| EThread (o : Outcome)
| ERestart (torn : option (JournalEntry * nat)).

Definition appended (e : JournalEntry) (written : option nat) : list JournalEntry :=
  match validate_rrd_path e.(je_path), written with Ok _, None => [e] | _, _ => [] end.

(** One event: the state after it, and the entry it has put into the journal. *)
Definition exec (ev : Event) (c : Cache) : option (Cache * list JournalEntry) :=
  match ev with
  | EUpdate now e new_only written can_create =>
      match update_value_impl now e new_only written can_create c with
      | None => None
      | Some (c, _) =>
          Some (c, appended e written)
      end
  | EAppend e new_only written can_create =>
      match append_and_update e new_only written can_create c with
      | None => None
      | Some (c, _) => Some (c, appended e written)
      end
  | EExtract base name => Some ((cached_database base name c).1, [])
  | EApply now => Some (apply_journal now c, [])
  | EThread o => match thread_step o c with Some c => Some (c, []) | None => None end
  | ERestart torn => Some (cache_new c.(files) c.(old) (c.(journal) ++ torn_bytes torn), [])
  end.

Fixpoint run (evs : list Event) (c : Cache) : option (Cache * list JournalEntry) :=
  match evs with
  | [] => Some (c, [])
  | ev :: evs =>
      match exec ev c with
      | None => None
      | Some (c, l) =>
          match run evs c with
          | None => None
          | Some (c, l') => Some (c, l ++ l')
          end
      end
  end.
End Cache.
Arguments Cache {_}.
