(* ===== verification/RrdCacheTheory.v ===== *)
(** * RrdCacheTheory: no update is lost

    The cache refines the log of all updates: in every history of updates, queries,
    steps of the thread, failures and crashes, the databases on disk together with
    the journals determine what the log determines, and once the journal has been
    applied every query sees all updates. After a crash the thread restores exactly
    this state and leaves it on disk. *)
From Stdlib Require Import SpecFloat Sorted.
From stdpp Require Import gmap sorting.
From S2P Require Import Prelude F64 Rrd RrdTheory Json TextCoding RrdJournal RrdCache.

#[local] Open Scope nat_scope.

(** What the cache needs of the databases, for entries that are [good_entry]: an
    update that is replayed changes nothing, then and later. *)
Class RrdStoreLaws (store : RrdStore) (good_entry : JournalEntry → Prop) := {
  good_db : DB → Prop;
  create_good e : good_entry e → good_db (create_rrd e.(je_dst));
  update_good d e : good_db d → good_entry e →
    ∃ d', db_update d e.(je_time) e.(je_value) = Some d' ∧ good_db d';
  update_old d e : good_db d → good_entry e → f64_lt (db_last_update d) e.(je_time) = false →
    db_update d e.(je_time) e.(je_value) = Some d;
  update_settles d e d' : good_db d → good_entry e → db_update d e.(je_time) e.(je_value) = Some d' →
    update_db d' e.(je_time) e.(je_value) true = Some d';
  settled_stays d e e' d' : good_db d → good_entry e → good_entry e' →
    update_db d e.(je_time) e.(je_value) true = Some d →
    db_update d e'.(je_time) e'.(je_value) = Some d' →
    update_db d' e.(je_time) e.(je_value) true = Some d';
}.

(** ** One database and its entries *)
Section Replay.
Context {store : RrdStore} {good_entry : JournalEntry → Prop} {laws : RrdStoreLaws store good_entry}.

(** The effect of an entry on the database of a path, of which there may be none. *)
Definition apply1 (d : option DB) (e : JournalEntry) : option DB :=
  match update_db (default (create_rrd e.(je_dst)) d) e.(je_time) e.(je_value) true with
  | Some d' => Some d'
  | None => d
  end.

Definition good_opt (d : option DB) : Prop := ∀ x, d = Some x → good_db x.

Lemma good_default d e : good_opt d → good_entry e → good_db (default (create_rrd e.(je_dst)) d).
Proof. intros Hd He. destruct d; simpl; [by apply Hd|by apply create_good]. Qed.

(** On good databases the two modes of an update agree, and neither panics. *)
Lemma update_db_good d e new_only : good_db d → good_entry e →
  ∃ d', update_db d e.(je_time) e.(je_value) new_only = Some d' ∧ good_db d' ∧
    db_update d e.(je_time) e.(je_value) = Some d'.
Proof.
  intros Hd He. unfold update_db. destruct (f64_lt (db_last_update d) (je_time e)) eqn:E.
  - rewrite orb_true_r. destruct (update_good d e Hd He) as (d' & -> & Hg). by exists d'.
  - exists d. rewrite (update_old d e Hd He E). by destruct new_only.
Qed.

Lemma apply1_good d e : good_opt d → good_entry e → good_opt (apply1 d e).
Proof.
  intros Hd He x. unfold apply1.
  destruct (update_db_good _ e true (good_default d e Hd He) He) as (d' & -> & Hg & _). by intros [= <-].
Qed.

(** The first entry creates the database. *)
Lemma apply1_create e : good_entry e → apply1 None e = apply1 (Some (create_rrd e.(je_dst))) e.
Proof.
  intros He. unfold apply1. simpl. by destruct (update_db_good _ e true (create_good e He) He) as (d' & -> & _).
Qed.

Definition settled (e : JournalEntry) (d : option DB) : Prop :=
  ∃ x, d = Some x ∧ update_db x e.(je_time) e.(je_value) true = Some x.

Lemma apply1_settled d e : settled e d → apply1 d e = d.
Proof. intros (x & -> & H). unfold apply1. simpl. by rewrite H. Qed.

Lemma apply1_settles d e : good_opt d → good_entry e → settled e (apply1 d e).
Proof.
  intros Hd He. unfold apply1. pose proof (good_default d e Hd He) as Hg.
  destruct (update_db_good _ e true Hg He) as (d' & -> & Hg' & Hu). exists d'. split; [done|].
  exact (update_settles _ e d' Hg He Hu).
Qed.

Lemma settled_apply1 d e e' :
  good_opt d → good_entry e → good_entry e' → settled e d → settled e (apply1 d e').
Proof.
  intros Hd He He' (x & -> & Hs). unfold apply1. simpl. assert (good_db x) as Hx by by apply Hd.
  destruct (update_db_good x e' true Hx He') as (d' & -> & _ & Hu). exists d'. split; [done|].
  exact (settled_stays x e e' d' Hx He He' Hs Hu).
Qed.

(** The database after the first [k] entries of [l]. *)
Definition state_at (init : option DB) (l : list JournalEntry) (k : nat) : option DB :=
  foldl apply1 init (take k l).

Lemma state_at_good init l k : good_opt init → Forall good_entry l → good_opt (state_at init l k).
Proof.
  intros Hi Hl. unfold state_at. apply (Forall_take _ k) in Hl.
  generalize dependent init. induction Hl as [|e l' He _ IH]; intros init Hi; [done|].
  simpl. apply IH. by apply apply1_good.
Qed.

Lemma state_at_S init l k e : l !! k = Some e → state_at init l (S k) = apply1 (state_at init l k) e.
Proof. intros H. unfold state_at. rewrite (take_S_r _ _ e H), foldl_app. done. Qed.

Lemma state_at_settled init l k n e :
  good_opt init → Forall good_entry l → l !! n = Some e → n < k → k ≤ length l →
  settled e (state_at init l k).
Proof.
  intros Hi Hl He Hn. assert (good_entry e) as Hge by (rewrite Forall_forall in Hl; apply Hl; by eapply list_elem_of_lookup_2).
  induction Hn as [|k Hk IH]; intros Hlen.
  - rewrite (state_at_S _ _ _ e He). apply apply1_settles; [by apply state_at_good|done].
  - destruct (lookup_lt_is_Some_2 l k ltac:(lia)) as [e' He']. rewrite (state_at_S _ _ _ e' He').
    apply settled_apply1; [by apply state_at_good|done| |apply IH; lia].
    rewrite Forall_forall in Hl. apply Hl. by eapply list_elem_of_lookup_2.
Qed.

(** Applying the entry at [n] to a state that has the entries before it is the next
    state, or no change if the entry is in it already. *)
Lemma state_at_apply init l k n e :
  good_opt init → Forall good_entry l → l !! n = Some e → n ≤ k → k ≤ length l →
  ∃ k', S n ≤ k' ≤ length l ∧ apply1 (state_at init l k) e = state_at init l k'.
Proof.
  intros Hi Hl He Hn Hk. pose proof (lookup_lt_Some _ _ _ He). destruct (decide (n = k)) as [->|].
  - exists (S k). split; [lia|]. symmetry. by apply state_at_S.
  - exists k. split; [lia|]. apply apply1_settled. apply (state_at_settled _ _ _ n); try done. lia.
Qed.
End Replay.

(** ** Databases and the log *)
Section Cover.
Context {store : RrdStore} {good_entry : JournalEntry → Prop} {laws : RrdStoreLaws store good_entry}.
Variable init : rstr → option DB.
Hypothesis init_good : ∀ p, good_opt (init p).

(** The entries of a path, and what the databases are after all entries. *)
Definition on (p : rstr) (log : list JournalEntry) : list JournalEntry :=
  filter (λ e, je_path e = p) log.
Definition ideal (p : rstr) (log : list JournalEntry) : option DB := foldl apply1 (init p) (on p log).

Lemma on_app p l l' : on p (l ++ l') = on p l ++ on p l'.
Proof. apply filter_app. Qed.

Lemma on_good p l : Forall good_entry l → Forall good_entry (on p l).
Proof.
  rewrite !Forall_forall. intros H e He. apply H. unfold on in He. by apply list_elem_of_filter in He as [_ ?].
Qed.

(** A database of path [p] that has at least the entries [cov] of the log, in their order. *)
Definition covers_at (d : option DB) (log cov : list JournalEntry) (p : rstr) : Prop :=
  ∃ k, length (on p cov) ≤ k ≤ length (on p log) ∧ d = state_at (init p) (on p log) k.
Definition covers (view : rstr → option DB) (log cov : list JournalEntry) : Prop :=
  ∀ p, covers_at (view p) log cov p.

Lemma covers_at_log d log log' cov p : covers_at d log cov p → covers_at d (log ++ log') cov p.
Proof.
  intros (k & Hk & ->). exists k. rewrite on_app. split; [rewrite length_app; lia|].
  unfold state_at. by rewrite take_app_le by lia.
Qed.

Lemma covers_at_mono d log cov cov' p :
  cov' `prefix_of` cov → covers_at d log cov p → covers_at d log cov' p.
Proof.
  intros [r ->] (k & Hk & ->). exists k. split; [|done]. rewrite on_app, length_app in Hk. lia.
Qed.

Lemma covers_at_other d log cov e p :
  je_path e ≠ p → covers_at d log cov p → covers_at d log (cov ++ [e]) p.
Proof.
  intros Hp (k & Hk & ->). exists k. split; [|done]. rewrite on_app. unfold on at 2.
  rewrite filter_cons_False, filter_nil, app_nil_r by done. done.
Qed.

Lemma covers_at_apply d log cov e rest :
  Forall good_entry log → log = cov ++ e :: rest → covers_at d log cov (je_path e) →
  covers_at (apply1 d e) log (cov ++ [e]) (je_path e).
Proof using init_good.
  intros Hg -> (k & Hk & ->). set (p := je_path e) in *.
  assert (on p (cov ++ [e]) = on p cov ++ [e]) as Hon.
  { rewrite on_app. f_equal. unfold on. by rewrite filter_cons_True, filter_nil. }
  assert (on p (cov ++ e :: rest) !! length (on p cov) = Some e) as He.
  { rewrite cons_middle, app_assoc, on_app, Hon, lookup_app_l by (rewrite length_app; simpl; lia).
    rewrite lookup_app_r, Nat.sub_diag by lia. done. }
  destruct (state_at_apply (init p) (on p (cov ++ e :: rest)) k (length (on p cov)) e) as (k' & Hk' & ->);
    [apply init_good|by apply on_good|done|lia|lia|].
  exists k'. split; [|done]. rewrite Hon, length_app. simpl. lia.
Qed.

Lemma covers_at_full d log p : covers_at d log log p → d = ideal p log.
Proof.
  intros (k & Hk & ->). assert (k = length (on p log)) as -> by lia. unfold state_at, ideal.
  by rewrite firstn_all.
Qed.

Lemma covers_at_init log p : covers_at (init p) log [] p.
Proof. exists 0. split; [simpl; lia|done]. Qed.

Lemma covers_at_good d log cov p : Forall good_entry log → covers_at d log cov p → good_opt d.
Proof using init_good.
  intros Hl (k & _ & ->). apply state_at_good; [apply init_good|by apply on_good].
Qed.

(** ** The map *)
Definition view (files m : gmap rstr DB) (p : rstr) : option DB :=
  match m !! p with Some d => Some d | None => files !! p end.

Lemma view_insert files m p d q : view files (<[p := d]> m) q = if decide (q = p) then Some d else view files m q.
Proof.
  unfold view. case_decide; [subst; by rewrite lookup_insert_eq|]. by rewrite lookup_insert_ne.
Qed.

Lemma map_update_apply1 files m e new_only :
  good_opt (view files m (je_path e)) → good_entry e →
  ∃ m', map_update files m e new_only true = Some (m', true) ∧
    dom m ⊆ dom m' ∧
    (∀ p, view files m' p = if decide (p = je_path e) then apply1 (view files m p) e else view files m p).
Proof using laws.
  clear init_good. clear init. intros Hv He. pose proof (good_default _ e Hv He) as Hg.
  destruct (update_db_good _ e new_only Hg He) as (d' & Hu & _ & Hd).
  destruct (update_db_good _ e true Hg He) as (d'' & Hu' & _ & Hd').
  assert (d'' = d') as -> by congruence.
  exists (<[je_path e := d']> m). split; [|split].
  - unfold map_update. unfold view in Hu. destruct (m !! je_path e); simpl in Hu; [by rewrite Hu|].
    destruct (files !! je_path e); simpl in Hu; by rewrite Hu.
  - rewrite dom_insert. set_solver.
  - intros p. rewrite view_insert. case_decide; [|done]. subst. unfold apply1. by rewrite Hu'.
Qed.

(** If a directory cannot be created the map stays as it is. *)
Lemma map_update_false files m e new_only :
  map_update files m e new_only false = map_update files m e new_only true ∨
  map_update files m e new_only false = Some (m, false).
Proof.
  unfold map_update. destruct (m !! je_path e); [by left|]. destruct (files !! je_path e); [by left|by right].
Qed.

Lemma covers_map_update files m e new_only log cov rest :
  Forall good_entry log → log = cov ++ e :: rest → covers (view files m) log cov →
  ∃ m', map_update files m e new_only true = Some (m', true) ∧ dom m ⊆ dom m' ∧
    covers (view files m') log (cov ++ [e]).
Proof using init_good laws.
  intros Hg -> Hc. assert (good_entry e) as He.
  { rewrite Forall_forall in Hg. apply Hg. apply elem_of_app. right. by left. }
  destruct (map_update_apply1 files m e new_only) as (m' & Hm & Hd & Hv);
    [by eapply covers_at_good|done|].
  exists m'. split; [done|]. split; [done|]. intros p. rewrite Hv. case_decide as Hp.
  - subst. by eapply covers_at_apply.
  - apply covers_at_other; [congruence|apply Hc].
Qed.

Lemma map_load_view files m p q : view files (map_load files m p).1 q = view files m q.
Proof.
  unfold map_load. destruct (m !! p) eqn:E; [done|]. destruct (files !! p) eqn:Ef; [|done]. simpl.
  rewrite view_insert. case_decide; [|done]. subst. unfold view. by rewrite E, Ef.
Qed.

Lemma map_load_dom files m p : dom m ⊆ dom (map_load files m p).1.
Proof using.
  clear init_good. clear init. unfold map_load. destruct (m !! p); [done|]. destruct (files !! p); [|done].
  simpl. rewrite dom_insert. set_solver.
Qed.
End Cover.

(** ** The journals as lists of entries *)
Section Journals.
Context {F : F64Text} {FL : F64TextLaws F}.

Definition bytes_of (es : list JournalEntry) : list N := concat (journal_entry_bytes <$> es).
Definition old_text (oldes : list (Z * list JournalEntry)) : OldJournals :=
  (λ j, (j.1, bytes_of j.2)) <$> oldes.
Definition all_old (oldes : list (Z * list JournalEntry)) : list JournalEntry := concat oldes.*2.

Lemma bytes_of_app es es' : bytes_of (es ++ es') = bytes_of es ++ bytes_of es'.
Proof. unfold bytes_of. by rewrite fmap_app, concat_app. Qed.

Lemma bytes_of_snoc es e : bytes_of (es ++ [e]) = bytes_of es ++ journal_entry_bytes e.
Proof. rewrite bytes_of_app. f_equal. unfold bytes_of. simpl. apply app_nil_r. Qed.

Lemma all_old_snoc oldes k es : all_old (oldes ++ [(k, es)]) = all_old oldes ++ es.
Proof. unfold all_old. rewrite fmap_app, concat_app. simpl. by rewrite app_nil_r. Qed.

Lemma lines_ok es : Forall entry_ok es → Forall line_ok (journal_entry_bytes <$> es).
Proof using FL.
  intros H. apply Forall_fmap. eapply Forall_impl; [exact H|]. intros e. apply entry_bytes_line.
Qed.

Lemma lines_of_bytes es : Forall entry_ok es → lines_of_file (bytes_of es) = journal_entry_bytes <$> es.
Proof using FL. intros H. by apply lines_of_file_concat, lines_ok. Qed.

Lemma bytes_of_nil es : Forall entry_ok es → bytes_of es = [] → es = [].
Proof using FL.
  intros H E. apply lines_of_bytes in H. rewrite E in H. by destruct es.
Qed.

Lemma next_line_bytes done_ e rest :
  entry_ok e → next_line (bytes_of (done_ ++ e :: rest)) (length (bytes_of done_)) = journal_entry_bytes e.
Proof using FL.
  intros He. rewrite bytes_of_app. apply next_line_concat. by apply entry_bytes_line.
Qed.

Lemma next_line_end es : next_line (bytes_of es) (length (bytes_of es)) = [].
Proof. unfold next_line. by rewrite drop_all. Qed.

Lemma drop_bytes done_ rest : drop (length (bytes_of done_)) (bytes_of (done_ ++ rest)) = bytes_of rest.
Proof. by rewrite bytes_of_app, drop_app_length. Qed.

(** What a crash or a failed write leaves is dropped. *)
Lemma torn_dropped es torn :
  Forall entry_ok es → (∀ e k, torn = Some (e, k) → entry_ok e) →
  truncate_incomplete_entry (bytes_of es ++ torn_bytes torn) = bytes_of es.
Proof using FL.
  intros He Ht. rewrite truncate_incomplete_entry_spec. apply complete_part_concat; [by apply lines_ok|].
  destruct torn as [[e k]|]; simpl; [|apply not_elem_of_nil]. apply torn_entry_no_newline; [by eapply Ht|].
  destruct (line_ok_cons _ (entry_bytes_line e (Ht e k eq_refl))) as (x & l & ->). simpl. lia.
Qed.

Lemma list_old_journals_sorted oldes :
  StronglySorted Z.lt oldes.*1 → list_old_journals (old_text oldes) = old_text oldes.
Proof.
  induction oldes as [|[k es] oldes IH]; simpl; [done|]. intros Hs. inversion Hs as [|? ? Hs' Hall]; subst.
  unfold list_old_journals in *. simpl. rewrite (IH Hs'). destruct oldes as [|[k' es'] oldes]; [done|].
  simpl in *. inversion Hall; subst. by rewrite (proj2 (Z.leb_le k k')) by lia.
Qed.

Lemma old_lines oldes :
  Forall entry_ok (all_old oldes) →
  concat (lines_of_file <$> (old_text oldes).*2) = journal_entry_bytes <$> all_old oldes.
Proof using FL.
  unfold all_old. induction oldes as [|[k es] oldes IH]; simpl; [done|]. intros [H1 H2]%Forall_app.
  rewrite lines_of_bytes, fmap_app by done. f_equal. by apply IH.
Qed.

Lemma old_text_keys oldes : (old_text oldes).*1 = oldes.*1.
Proof. unfold old_text. rewrite <- list_fmap_compose. done. Qed.

Lemma filter_keys_id (l : OldJournals) k :
  Forall (λ j, j.1 ≠ k) l → List.filter (λ j, negb (j.1 =? k)%Z) l = l.
Proof.
  induction 1 as [|j l Hj _ IH]; simpl; [done|]. rewrite (proj2 (Z.eqb_neq _ _) Hj). simpl. by rewrite IH.
Qed.

Lemma keys_text (P : Z → Prop) oldes : Forall P oldes.*1 → Forall (λ j, P j.1) (old_text oldes).
Proof. induction oldes as [|[k es] oldes IH]; simpl; [constructor|]. intros [H1 H2]%Forall_cons. constructor; auto. Qed.

(** Rotating appends a journal, if its name is behind the others. *)
Lemma rename_journal_text now cur oldes :
  Forall (λ k, (k < journal_key now)%Z) oldes.*1 →
  rename_journal now (bytes_of cur) (old_text oldes) = old_text (oldes ++ [(journal_key now, cur)]).
Proof.
  intros H. unfold rename_journal. rewrite filter_keys_id.
  - unfold old_text. by rewrite fmap_app.
  - apply (keys_text (λ k, k ≠ journal_key now)). eapply Forall_impl; [exact H|]. intros k. simpl. lia.
Qed.

Lemma sorted_snoc (l : list Z) k :
  StronglySorted Z.lt l → Forall (λ k', (k' < k)%Z) l → StronglySorted Z.lt (l ++ [k]).
Proof.
  induction 1 as [|x l Hs IH Hx]; simpl; intros H; [repeat constructor|].
  apply Forall_cons in H as [H1 H2]. constructor; [auto|]. apply Forall_app_2; [done|]. by repeat constructor.
Qed.

(** Removing the first journal. *)
Lemma remove_first k es oldes :
  StronglySorted Z.lt (k :: oldes.*1) →
  List.filter (λ j, negb (j.1 =? k)%Z) (old_text ((k, es) :: oldes)) = old_text oldes.
Proof.
  intros H. inversion H as [|? ? _ Hall]; subst. simpl. rewrite Z.eqb_refl. simpl. apply filter_keys_id.
  apply (keys_text (λ k', k' ≠ k)). eapply Forall_impl; [exact Hall|]. intros k'. simpl. lia.
Qed.
End Journals.

(** ** The invariant *)
Section Invariant.
Context {F : F64Text} {FL : F64TextLaws F}.
Context {store : RrdStore} {good_entry : JournalEntry → Prop} {laws : RrdStoreLaws store good_entry}.
Variable apply_interval : f64.
Variable files0 : gmap rstr DB.
Hypothesis files0_good : ∀ p, good_opt (files0 !! p).

Abbreviation covers := (covers (λ p, files0 !! p)).
Abbreviation covers_at := (covers_at (λ p, files0 !! p)).

(** The log is made of entries that are no longer in a journal, those of the old
    journals and those of the current one. *)
Record Parts := mkParts {
  dropped : list JournalEntry;
  oldes : list (Z * list JournalEntry);
  cur : list JournalEntry;
}.
Definition kept_old (q : Parts) : list JournalEntry := q.(dropped) ++ all_old q.(oldes).
Definition log_of (q : Parts) : list JournalEntry := kept_old q ++ q.(cur).

Definition on_disk (c : Cache) (p : rstr) : option DB := c.(files) !! p.
Definition seen (c : Cache) : rstr → option DB := view c.(files) c.(map).

(** Where the thread is tells what is applied and what is saved. *)
Definition thread_inv (c : Cache) (q : Parts) : Prop :=
  if c.(journal_applied) then
    covers (seen c) (log_of q) (log_of q) ∧
    match c.(thread) with
    | Idle | RotateFirst | ListFiles => True
    | Flush todo errors =>
        (∀ p, p ∈ todo → p ∈ dom c.(map)) ∧
        (errors = 0 → ∀ p, p ∉ todo → covers_at (on_disk c p) (log_of q) (kept_old q) p)
    | SyncFiles => covers (on_disk c) (log_of q) (kept_old q)
    | RemoveOld todo => covers (on_disk c) (log_of q) (kept_old q) ∧ todo = q.(oldes).*1
    | _ => False
    end
  else
    match c.(thread) with
    | Idle | StartReplay => covers (seen c) (log_of q) q.(dropped)
    | ReplayOld lines => ∃ done_ rest, all_old q.(oldes) = done_ ++ rest ∧
        lines = journal_entry_bytes <$> rest ∧ covers (seen c) (log_of q) (q.(dropped) ++ done_)
    | ReplayJournal pos | FinishReplay pos => ∃ done_ rest, q.(cur) = done_ ++ rest ∧
        pos = length (bytes_of done_) ∧ covers (seen c) (log_of q) (kept_old q ++ done_)
    | _ => False
    end.

Record inv (c : Cache) (q : Parts) : Prop := mkInv {
  inv_old : c.(old) = old_text q.(oldes);
  inv_sorted : StronglySorted Z.lt q.(oldes).*1;
  inv_journal : c.(journal) = bytes_of q.(cur);
  inv_ok : Forall entry_ok (log_of q);
  inv_good : Forall good_entry (log_of q);
  inv_disk : covers (on_disk c) (log_of q) q.(dropped);
  inv_thread : thread_inv c q;
}.

Definition append_part (q : Parts) (e : JournalEntry) : Parts :=
  mkParts q.(dropped) q.(oldes) (q.(cur) ++ [e]).

Lemma log_append q e : log_of (append_part q e) = log_of q ++ [e].
Proof. unfold log_of, kept_old. simpl. by rewrite app_assoc. Qed.

Lemma covers_log v q e cov : covers v (log_of q) cov → covers v (log_of (append_part q e)) cov.
Proof. intros H p. rewrite log_append. apply covers_at_log, H. Qed.

Lemma covers_mono v log cov cov' : cov' `prefix_of` cov → covers v log cov → covers v log cov'.
Proof. intros Hp H p. eapply covers_at_mono; [done|apply H]. Qed.

Lemma dropped_kept q : q.(dropped) `prefix_of` kept_old q.
Proof. by apply prefix_app_r. Qed.
Lemma kept_log q : kept_old q `prefix_of` log_of q.
Proof. by apply prefix_app_r. Qed.

Lemma parts_ok q : Forall entry_ok (log_of q) →
  Forall entry_ok (all_old q.(oldes)) ∧ Forall entry_ok q.(cur).
Proof. unfold log_of, kept_old. intros H. by rewrite !Forall_app in H; destruct H as [[_ ?] ?]. Qed.

(** *** Updates *)
Lemma apply_journal_inv now c q : inv c q → inv (apply_journal apply_interval now c) q.
Proof.
  intros [H1 H2 H3 H4 H5 H6 H7]. unfold apply_journal.
  destruct (thread c) eqn:Et; try done. unfold thread_inv in H7. rewrite Et in H7.
  destruct (journal_applied c) eqn:Ea; simpl.
  - destruct (negb _); [split; try done; unfold thread_inv; by rewrite Ea, Et|]. by split.
  - by split.
Qed.

Lemma append_inv c q e :
  inv c q → entry_ok e → good_entry e → c.(journal_applied) = false →
  inv (set_journal c (c.(journal) ++ journal_entry_bytes e)) (append_part q e).
Proof.
  intros [H1 H2 H3 H4 H5 H6 H7] He Hg Ha. split; simpl; try done.
  - by rewrite H3, bytes_of_snoc.
  - rewrite log_append. apply Forall_app_2; [done|by apply Forall_singleton].
  - rewrite log_append. apply Forall_app_2; [done|by apply Forall_singleton].
  - by apply covers_log.
  - unfold thread_inv in *. simpl. rewrite Ha in *. change (seen (set_journal c _)) with (seen c).
    destruct (thread c); try done; try by apply covers_log.
    + destruct H7 as (d & r & ? & ? & ?). exists d, r. split; [done|]. split; [done|]. by apply covers_log.
    + destruct H7 as (d & r & E & ? & ?). exists d, (r ++ [e]).
      split; [simpl; by rewrite E, app_assoc|]. split; [done|]. by apply covers_log.
    + destruct H7 as (d & r & E & ? & ?). exists d, (r ++ [e]).
      split; [simpl; by rewrite E, app_assoc|]. split; [done|]. by apply covers_log.
Qed.

Lemma append_applied_inv c q e m :
  inv c q → entry_ok e → good_entry e → c.(journal_applied) = true →
  dom c.(map) ⊆ dom m → covers (view c.(files) m) (log_of (append_part q e)) (log_of (append_part q e)) →
  inv (set_map (set_journal c (c.(journal) ++ journal_entry_bytes e)) m) (append_part q e).
Proof.
  intros [H1 H2 H3 H4 H5 H6 H7] He Hg Ha Hd Hm. split; simpl; try done.
  - by rewrite H3, bytes_of_snoc.
  - rewrite log_append. apply Forall_app_2; [done|by apply Forall_singleton].
  - rewrite log_append. apply Forall_app_2; [done|by apply Forall_singleton].
  - by apply covers_log.
  - unfold thread_inv in *. simpl. rewrite Ha in *. destruct H7 as [_ H7]. split; [done|].
    change (on_disk (set_map _ m)) with (on_disk c). change (kept_old (append_part q e)) with (kept_old q).
    destruct (thread c); try done.
    + destruct H7 as [Hin Hf]. split; [intros p Hp; apply Hd; by apply Hin|].
      intros Herr p Hp. rewrite log_append. by apply covers_at_log, Hf.
    + by apply covers_log.
    + destruct H7 as [Hf ->]. split; [by apply covers_log|done].
Qed.

(** An entry that the events may write. *)
Definition fine (e : JournalEntry) : Prop := entry_ok e ∧ good_entry e.

Lemma append_update_inv e new_only written c1 q :
  inv c1 q → fine e →
  ∃ c' r, append_and_update e new_only written true c1 = Some (c', r) ∧
    inv c' match written with Some _ => q | None => append_part q e end.
Proof using FL files0_good laws.
  intros Hi [He Hg]. unfold append_and_update, append_journal_entry.
  assert (validate_rrd_path (je_path e) = Ok tt) as -> by apply He.
  destruct written as [k|].
  { eexists _, _. split; [done|]. pose proof Hi as [H1 H2 H3 H4 H5 H6 H7].
    rewrite H3, torn_dropped by (try apply (parts_ok q H4); by intros ? ? [= <- _]).
    rewrite <- H3. by destruct c1. }
  simpl. destruct (journal_applied c1) eqn:Ea; [|eexists _, _; split; [done|]; by apply append_inv].
  pose proof Hi as [H1 H2 H3 H4 H5 H6 H7]. unfold thread_inv in H7. rewrite Ea in H7. destruct H7 as [Hv _].
  destruct (covers_map_update (λ p, files0 !! p) files0_good (files c1) (map c1) e new_only
    (log_of (append_part q e)) (log_of q) []) as (m & Hm & Hd & Hc).
  - rewrite log_append. apply Forall_app_2; [done|by apply Forall_singleton].
  - apply log_append.
  - by apply covers_log.
  - change (files (set_journal c1 _)) with (files c1). change (map (set_journal c1 _)) with (map c1).
    rewrite Hm. eexists _, _. split; [done|]. apply append_applied_inv; try done. by rewrite log_append in *.
Qed.

Lemma log_appended e written q :
  entry_ok e →
  log_of match written with Some _ => q | None => append_part q e end = log_of q ++ appended e written.
Proof.
  intros He. unfold appended. assert (validate_rrd_path (je_path e) = Ok tt) as -> by apply He.
  destruct written; [by rewrite app_nil_r|by rewrite log_append].
Qed.

(** *** Queries and restarts *)
Lemma seen_map_inv c q m :
  inv c q → dom c.(map) ⊆ dom m → (∀ p, view c.(files) m p = seen c p) → inv (set_map c m) q.
Proof.
  intros [H1 H2 H3 H4 H5 H6 H7] Hd Hm. split; try done.
  assert (∀ log cov, covers (seen c) log cov → covers (seen (set_map c m)) log cov) as Hs.
  { intros log cov H p. unfold seen at 1. simpl. rewrite Hm. apply H. }
  unfold thread_inv in *. simpl. change (on_disk (set_map c m)) with (on_disk c).
  destruct (journal_applied c).
  - destruct H7 as [Hv H7]. split; [by apply Hs|]. destruct (thread c); try done.
    destruct H7 as [Hin Hf]. split; [|done]. intros p Hp. apply Hd. by apply Hin.
  - destruct (thread c); auto; destruct H7 as (d & r & ? & ? & ?); exists d, r; auto.
Qed.

Lemma extract_inv base name c q : inv c q → inv (cached_database base name c).1 q.
Proof.
  intros Hi. unfold cached_database. destruct (validate_rrd_path _); [|done].
  destruct (map c !! _) eqn:E; [done|].
  pose proof (map_load_view (files c) (map c) (base ++ slash :: name)) as Hv.
  pose proof (map_load_dom (files c) (map c) (base ++ slash :: name)) as Hd.
  destruct (map_load _ _ _) as [m loaded]. simpl in *. by apply seen_map_inv.
Qed.

Lemma restart_inv torn c q :
  inv c q → (∀ e k, torn = Some (e, k) → entry_ok e) →
  inv (cache_new c.(files) c.(old) (c.(journal) ++ torn_bytes torn)) q.
Proof using FL.
  intros [H1 H2 H3 H4 H5 H6 H7] Ht. split; simpl; try done.
  rewrite H3. apply torn_dropped; [apply (parts_ok q H4)|done].
Qed.

(** *** Steps of the thread *)
Lemma set_thread_inv c q t : inv c q → thread_inv (set_thread c t) q → inv (set_thread c t) q.
Proof. intros [] Ht. by split. Qed.

Lemma apply_line_entry files m e can_create :
  entry_ok e → apply_line files m (journal_entry_bytes e) can_create = map_update files m e true can_create.
Proof using FL. intros He. unfold apply_line. by rewrite line_entry_bytes. Qed.

(** Applying the next entry: it is done, or a directory could not be created. *)
Lemma apply_next files m log e cov rest can_create :
  Forall entry_ok log → Forall good_entry log → log = cov ++ e :: rest → covers (view files m) log cov →
  (can_create = false ∧ apply_line files m (journal_entry_bytes e) can_create = Some (m, false)) ∨
  ∃ m', apply_line files m (journal_entry_bytes e) can_create = Some (m', true) ∧
    dom m ⊆ dom m' ∧ covers (view files m') log (cov ++ [e]).
Proof using FL files0_good laws.
  intros Hok Hg Hlog Hc.
  assert (entry_ok e) as He.
  { rewrite Forall_forall in Hok. apply Hok. rewrite Hlog. apply elem_of_app. right. by left. }
  rewrite apply_line_entry by done.
  destruct (covers_map_update (λ p, files0 !! p) files0_good files m e true log cov rest)
    as (m' & Hm & Hd & Hcov); [done|done|done|].
  destruct can_create; [right; by exists m'|].
  destruct (map_update_false files m e true) as [->| ->]; [right; by exists m'|by left].
Qed.

Lemma apply_rest files m log cov rest can_create :
  Forall entry_ok log → Forall good_entry log → log = cov ++ rest → covers (view files m) log cov →
  ∃ m' b, apply_journal_lines files m (journal_entry_bytes <$> rest) can_create = Some (m', b) ∧
    covers (view files m') log (if b then log else cov) ∧ (can_create = true → b = true).
Proof using FL files0_good laws.
  intros Hok Hg. revert m cov. induction rest as [|e rest IH]; intros m cov Hlog Hc.
  { exists m, true. rewrite app_nil_r in Hlog. subst. by split. }
  rewrite fmap_cons. cbn [apply_journal_lines].
  destruct (apply_next files m log e cov rest can_create Hok Hg Hlog Hc) as [[-> E]|(m' & -> & _ & Hc')].
  - rewrite E. by exists m, false.
  - destruct (IH m' (cov ++ [e])) as (m2 & b & -> & Hc2 & Hb); [by rewrite <- app_assoc|done|].
    exists m2, b. split; [done|]. split; [|done]. destruct b; [done|].
    eapply covers_mono; [|done]. by apply prefix_app_r.
Qed.

(** While the journal is being applied the map may grow as long as it covers enough. *)
Lemma replay_inv c q m t :
  inv c q → c.(journal_applied) = false → thread_inv (set_thread (set_map c m) t) q →
  inv (set_thread (set_map c m) t) q.
Proof. intros [] Ha Ht. by split. Qed.

Lemma replay_idle c q m cov :
  inv c q → c.(journal_applied) = false → q.(dropped) `prefix_of` cov →
  covers (view c.(files) m) (log_of q) cov → inv (set_thread (set_map c m) Idle) q.
Proof.
  intros Hi Ha Hp Hc. apply replay_inv; [done|done|]. unfold thread_inv. simpl. rewrite Ha.
  by eapply covers_mono.
Qed.

Lemma replay_old_step o c q line lines :
  inv c q → c.(thread) = ReplayOld (line :: lines) → ∃ c', thread_step o c = Some c' ∧ inv c' q.
Proof using FL files0_good laws.
  intros Hi Et. pose proof (inv_thread _ _ Hi) as Ht. unfold thread_inv in Ht. rewrite Et in Ht.
  destruct (journal_applied c) eqn:Ea; [by destruct Ht|].
  destruct Ht as (d & r & Hall & Hlines & Hc). destruct r as [|e r]; [done|]. simpl in Hlines. simplify_eq.
  assert (log_of q = (dropped q ++ d) ++ e :: r ++ cur q) as Hlog.
  { unfold log_of, kept_old. rewrite Hall, <- !app_assoc. done. }
  unfold thread_step. rewrite Et.
  destruct (apply_next (files c) (map c) (log_of q) e _ _ (o_ok o) (inv_ok _ _ Hi) (inv_good _ _ Hi) Hlog Hc) as [[_ ->]|(m & -> & Hd & Hcov)].
  - eexists. split; [done|]. apply (replay_idle _ _ _ (dropped q ++ d)); [done|done|by apply prefix_app_r|done].
  - eexists. split; [done|]. apply replay_inv; [done|done|]. unfold thread_inv. simpl. rewrite Ea.
    exists (d ++ [e]), r. rewrite <- app_assoc. split; [done|]. split; [done|]. by rewrite app_assoc.
Qed.

Lemma replay_journal_step o c q pos :
  inv c q → c.(thread) = ReplayJournal pos → ∃ c', thread_step o c = Some c' ∧ inv c' q.
Proof using FL files0_good laws.
  intros Hi Et. pose proof (inv_thread _ _ Hi) as Ht. unfold thread_inv in Ht. rewrite Et in Ht.
  destruct (journal_applied c) eqn:Ea; [by destruct Ht|].
  destruct Ht as (d & r & Hcur & -> & Hc). unfold thread_step. rewrite Et, (inv_journal _ _ Hi).
  destruct r as [|e r].
  - rewrite app_nil_r in Hcur. rewrite Hcur, next_line_end. eexists. split; [done|].
    apply set_thread_inv; [done|]. unfold thread_inv. simpl. rewrite Ea. exists d, [].
    by rewrite app_nil_r.
  - assert (log_of q = (kept_old q ++ d) ++ e :: r) as Hlog by (unfold log_of; by rewrite Hcur, <- app_assoc).
    assert (entry_ok e) as He.
    { pose proof (inv_ok _ _ Hi) as H4. rewrite Forall_forall in H4. apply H4. rewrite Hlog.
      apply elem_of_app. right. by left. }
    rewrite Hcur, next_line_bytes by done.
    destruct (line_ok_cons _ (entry_bytes_line e He)) as (x & l & El). rewrite El. rewrite <- El.
    destruct (apply_next (files c) (map c) (log_of q) e _ _ (o_ok o) (inv_ok _ _ Hi) (inv_good _ _ Hi) Hlog Hc) as [[_ ->]|(m & -> & Hd & Hcov)].
    + eexists. split; [done|]. apply (replay_idle _ _ _ (kept_old q ++ d)); [done|done| |done].
      apply prefix_app_r, dropped_kept.
    + eexists. split; [done|]. apply replay_inv; [done|done|]. unfold thread_inv. simpl. rewrite Ea.
      exists (d ++ [e]), r. split; [by rewrite <- app_assoc|]. split; [by rewrite bytes_of_snoc, length_app|].
      by rewrite app_assoc.
Qed.

Lemma start_replay_step o c q :
  inv c q → c.(thread) = StartReplay → ∃ c', thread_step o c = Some c' ∧ inv c' q.
Proof using FL.
  intros Hi Et. pose proof Hi as [H1 H2 H3 H4 H5 H6 Ht]. unfold thread_inv in Ht. rewrite Et in Ht.
  destruct (journal_applied c) eqn:Ea; [by destruct Ht|]. unfold thread_step. rewrite Et. eexists. split; [done|].
  apply set_thread_inv; [done|]. unfold thread_inv. simpl. rewrite Ea. exists [], (all_old (oldes q)).
  split; [done|]. split; [|by rewrite app_nil_r]. rewrite H1, list_old_journals_sorted by done.
  apply old_lines. apply (parts_ok q H4).
Qed.

Lemma replay_old_end o c q :
  inv c q → c.(thread) = ReplayOld [] → ∃ c', thread_step o c = Some c' ∧ inv c' q.
Proof.
  intros Hi Et. pose proof Hi as [H1 H2 H3 H4 H5 H6 Ht]. unfold thread_inv in Ht. rewrite Et in Ht.
  destruct (journal_applied c) eqn:Ea; [by destruct Ht|]. unfold thread_step. rewrite Et. eexists. split; [done|].
  apply set_thread_inv; [done|]. unfold thread_inv. simpl. rewrite Ea.
  destruct Ht as (d & r & Hall & Hl & Hc). exists [], (cur q). split; [done|]. split; [done|].
  rewrite app_nil_r. unfold kept_old. rewrite Hall. destruct r; [|done]. by rewrite app_nil_r.
Qed.

(** *** Rotation *)
Definition rotated (q : Parts) (now : Z) : Parts :=
  mkParts q.(dropped) (q.(oldes) ++ [(journal_key now, q.(cur))]) [].

Lemma rotated_log q now : log_of (rotated q now) = log_of q ∧ kept_old (rotated q now) = log_of q.
Proof.
  unfold log_of, kept_old, rotated. simpl. rewrite all_old_snoc, app_nil_r, !app_assoc. done.
Qed.

(** The name of the rotated journal is behind those of the old ones. *)
Definition fresh_name (c : Cache) (now : Z) : Prop := Forall (λ j, (j.1 < journal_key now)%Z) c.(old).

Lemma fresh_keys c q now : inv c q → fresh_name c now → Forall (λ k, (k < journal_key now)%Z) (oldes q).*1.
Proof.
  intros Hi Hf. rewrite <- old_text_keys, <- (inv_old _ _ Hi). by apply Forall_fmap.
Qed.

Lemma rotate_inv c q now t :
  inv c q → fresh_name c now →
  let c' := set_thread (set_journal (set_old c (rename_journal now c.(journal) c.(old))) []) t in
  thread_inv c' (rotated q now) → inv c' (rotated q now).
Proof.
  intros Hi Hf c' Ht. pose proof (fresh_keys _ _ _ Hi Hf) as Hk. pose proof Hi as [H1 H2 H3 H4 H5 H6 _].
  destruct (rotated_log q now) as [Hlog _]. split; simpl; rewrite ?Hlog; try done.
  - rewrite H1, H3. by apply rename_journal_text.
  - rewrite fmap_app. simpl. by apply sorted_snoc.
Qed.

Lemma finish_replay_step o c q pos :
  inv c q → c.(thread) = FinishReplay pos → fresh_name c o.(o_now) →
  ∃ c' q', thread_step o c = Some c' ∧ inv c' q' ∧ log_of q' = log_of q.
Proof using FL files0_good laws.
  intros Hi Et Hf. pose proof (inv_thread _ _ Hi) as Ht. unfold thread_inv in Ht. rewrite Et in Ht.
  destruct (journal_applied c) eqn:Ea; [by destruct Ht|]. destruct Ht as (d & r & Hcur & -> & Hc).
  pose proof (parts_ok q (inv_ok _ _ Hi)) as [_ Hok]. rewrite Hcur in Hok. apply Forall_app in Hok as [_ Hok].
  unfold thread_step. rewrite Et, (inv_journal _ _ Hi), Hcur, drop_bytes, lines_of_bytes by done.
  destruct (apply_rest (files c) (map c) (log_of q) (kept_old q ++ d) r (o_ok o)) as (m & b & -> & Hm & _);
    [apply Hi|apply Hi|unfold log_of; by rewrite Hcur, app_assoc|done|].
  assert (Hidle : covers (view (files c) m) (log_of q) (dropped q)).
  { eapply covers_mono; [|exact Hm]. destruct b; [etrans; [apply dropped_kept|apply kept_log]|].
    apply prefix_app_r, dropped_kept. }
  assert (Hi' : inv (set_thread (set_map c m) Idle) q).
  { apply replay_inv; [done|done|]. unfold thread_inv. simpl. by rewrite Ea. }
  destruct b; [|by exists (set_thread (set_map c m) Idle), q].
  destruct (rotated_log q (o_now o)) as [Hlog _].
  unfold rotate_journal. destruct (o_rotate o); simpl.
  - eexists _, (rotated q (o_now o)). split; [done|]. split; [|done].
    destruct (rotate_inv _ _ (o_now o) Idle Hi' Hf) as [R1 R2 R3 R4 R5 R6 _].
    { unfold thread_inv. simpl. by rewrite Ea, Hlog. }
    split; try done. unfold thread_inv. simpl. rewrite Hlog. done.
  - by exists (set_thread (set_map c m) Idle), q.
  - eexists _, (rotated q (o_now o)). split; [done|]. split; [|done].
    apply (rotate_inv _ _ (o_now o) Idle Hi' Hf). unfold thread_inv. simpl. rewrite Ea, Hlog. done.
Qed.

(** *** Writing back *)
Lemma applied_inv c q t :
  inv c q → c.(journal_applied) = true →
  (covers (seen c) (log_of q) (log_of q) → thread_inv (set_thread c t) q) → inv (set_thread c t) q.
Proof.
  intros Hi Ha H. apply set_thread_inv; [done|]. apply H. pose proof (inv_thread _ _ Hi) as Ht.
  unfold thread_inv in Ht. rewrite Ha in Ht. apply Ht.
Qed.

Lemma idle_inv c q : inv c q → inv (set_thread c Idle) q.
Proof.
  intros Hi. apply set_thread_inv; [done|]. pose proof (inv_thread _ _ Hi) as Ht. unfold thread_inv in *. simpl.
  destruct (journal_applied c); [split; [apply Ht|done]|]. destruct (thread c); try done.
  - destruct Ht as (d & r & _ & _ & Hc). eapply covers_mono; [|done]. by apply prefix_app_r.
  - destruct Ht as (d & r & _ & _ & Hc). eapply covers_mono; [|done]. apply prefix_app_r, dropped_kept.
  - destruct Ht as (d & r & _ & _ & Hc). eapply covers_mono; [|done]. apply prefix_app_r, dropped_kept.
Qed.

Lemma rotate_first_step o c q :
  inv c q → c.(thread) = RotateFirst → fresh_name c o.(o_now) →
  ∃ c' q', thread_step o c = Some c' ∧ inv c' q' ∧ log_of q' = log_of q.
Proof.
  intros Hi Et Hf. pose proof (inv_thread _ _ Hi) as Ht. unfold thread_inv in Ht. rewrite Et in Ht.
  destruct (journal_applied c) eqn:Ea; [|done]. destruct Ht as [Hv _].
  unfold thread_step, rotate_journal. rewrite Et. destruct (rotated_log q (o_now o)) as [Hlog _].
  destruct (o_rotate o).
  - eexists _, (rotated q (o_now o)). split; [done|]. split; [|done].
    apply (rotate_inv _ _ _ ListFiles Hi Hf). unfold thread_inv. simpl. by rewrite Ea, Hlog.
  - eexists _, q. split; [done|]. split; [by apply idle_inv|done].
  - eexists _, (rotated q (o_now o)). split; [done|]. split; [|done].
    apply (rotate_inv _ _ _ Idle Hi Hf). unfold thread_inv. simpl. by rewrite Ea, Hlog.
Qed.

Lemma list_files_step o c q :
  inv c q → c.(thread) = ListFiles → ∃ c', thread_step o c = Some c' ∧ inv c' q.
Proof.
  intros Hi Et. pose proof (inv_thread _ _ Hi) as Ht. unfold thread_inv in Ht. rewrite Et in Ht.
  destruct (journal_applied c) eqn:Ea; [|done]. unfold thread_step. rewrite Et. eexists. split; [done|].
  apply applied_inv; [done|done|]. intros Hv. unfold thread_inv. simpl. rewrite Ea. split; [done|].
  split; [intros p; by rewrite elem_of_elements|]. intros _ p Hp. rewrite elem_of_elements in Hp.
  apply not_elem_of_dom in Hp. specialize (Hv p). unfold seen, view in Hv. rewrite Hp in Hv.
  eapply covers_at_mono; [apply kept_log|done].
Qed.

(** Saving a database of the map changes what is on disk, not what is seen. *)
Lemma set_file_inv c q p rrd t :
  inv c q → c.(journal_applied) = true → c.(map) !! p = Some rrd →
  (covers (seen c) (log_of q) (log_of q) →
   (∀ cov, cov `prefix_of` log_of q → covers_at (on_disk (set_file c p rrd) p) (log_of q) cov p) →
   thread_inv (set_thread (set_file c p rrd) t) q) →
  inv (set_thread (set_file c p rrd) t) q.
Proof.
  intros Hi Ha Hp Ht. pose proof Hi as [H1 H2 H3 H4 H5 H6 H7]. unfold thread_inv in H7. rewrite Ha in H7.
  destruct H7 as [Hv _].
  assert (∀ cov, cov `prefix_of` log_of q → covers_at (on_disk (set_file c p rrd) p) (log_of q) cov p) as Hf.
  { intros cov Hcov. unfold on_disk. simpl. rewrite lookup_insert_eq. eapply covers_at_mono; [done|].
    specialize (Hv p). unfold seen, view in Hv. by rewrite Hp in Hv. }
  split; try done; [|by apply Ht].
  intros r. destruct (decide (r = p)) as [->|Hne].
  - apply Hf. etrans; [apply dropped_kept|apply kept_log].
  - unfold on_disk. simpl. rewrite lookup_insert_ne by done. apply H6.
Qed.

Lemma seen_set_file c p rrd t r :
  c.(map) !! p = Some rrd → seen (set_thread (set_file c p rrd) t) r = seen c r.
Proof.
  intros Hp. unfold seen, view. simpl. destruct (decide (r = p)) as [->|]; [by rewrite Hp|].
  by rewrite lookup_insert_ne.
Qed.

Lemma flush_step o c q todo errors :
  inv c q → c.(thread) = Flush todo errors → ∃ c', thread_step o c = Some c' ∧ inv c' q.
Proof.
  intros Hi Et. pose proof (inv_thread _ _ Hi) as Ht. unfold thread_inv in Ht. rewrite Et in Ht.
  destruct (journal_applied c) eqn:Ea; [|done]. destruct Ht as [Hv [Hin Hf]]. unfold thread_step. rewrite Et.
  destruct todo as [|p todo].
  { eexists. split; [done|]. case_decide; [|by apply idle_inv]. apply applied_inv; [done|done|]. intros _.
    unfold thread_inv. simpl. rewrite Ea. split; [done|]. intros p. apply Hf; [done|]. apply not_elem_of_nil. }
  assert (Hskip : inv (set_thread c (Flush todo (S errors))) q).
  { apply applied_inv; [done|done|]. intros _. unfold thread_inv. simpl. rewrite Ea. split; [done|].
    split; [|done]. intros r Hr. apply Hin. by right. }
  destruct (map c !! p) as [rrd|] eqn:Ep; [|by eexists]. destruct (o_ok o); [|by eexists].
  eexists. split; [done|]. apply set_file_inv; [done|done|done|]. intros _ Hcov. unfold thread_inv. simpl.
  rewrite Ea. split; [intros r; rewrite seen_set_file by done; apply Hv|].
  split; [intros r Hr; apply Hin; by right|]. intros Herr r Hr. destruct (decide (r = p)) as [->|Hne].
  - apply Hcov, kept_log.
  - unfold on_disk. simpl. rewrite lookup_insert_ne by done. apply Hf; [done|]. by apply not_elem_of_cons.
Qed.

Lemma sync_step o c q :
  inv c q → c.(thread) = SyncFiles → ∃ c', thread_step o c = Some c' ∧ inv c' q.
Proof.
  intros Hi Et. pose proof (inv_thread _ _ Hi) as Ht. unfold thread_inv in Ht. rewrite Et in Ht.
  destruct (journal_applied c) eqn:Ea; [|done]. unfold thread_step. rewrite Et. eexists. split; [done|].
  destruct (o_ok o); [|by apply idle_inv]. apply applied_inv; [done|done|]. intros Hv. unfold thread_inv. simpl.
  rewrite Ea. split; [done|]. split; [apply Ht|]. rewrite (inv_old _ _ Hi), list_old_journals_sorted by apply Hi.
  apply old_text_keys.
Qed.

(** Removing the oldest journal drops its entries from the log's tail. *)
Definition without_first (q : Parts) : Parts :=
  match q.(oldes) with
  | [] => q
  | (_, es) :: rest => mkParts (q.(dropped) ++ es) rest q.(cur)
  end.

Lemma without_first_log q : log_of (without_first q) = log_of q ∧ kept_old (without_first q) = kept_old q.
Proof.
  destruct q as [d [|[k es] rest] cur_]; [done|]. unfold without_first, log_of, kept_old, all_old. simpl.
  by rewrite <- !app_assoc.
Qed.

Lemma remove_old_step o c q todo :
  inv c q → c.(thread) = RemoveOld todo →
  ∃ c' q', thread_step o c = Some c' ∧ inv c' q' ∧ log_of q' = log_of q.
Proof.
  intros Hi Et. pose proof Hi as [H1 H2 H3 H4 H5 H6 Ht]. unfold thread_inv in Ht. rewrite Et in Ht.
  destruct (journal_applied c) eqn:Ea; [|done]. destruct Ht as [Hv [Hf Htodo]]. unfold thread_step. rewrite Et.
  destruct todo as [|k todo]; [eexists _, q; split; [done|]; split; [by apply idle_inv|done]|].
  destruct (o_ok o); [|eexists _, q; split; [done|]; split; [by apply idle_inv|done]].
  destruct (oldes q) as [|[k' es] rest] eqn:Eo; simpl in Htodo; simplify_eq.
  destruct (without_first_log q) as [Hlog Hkept].
  eexists _, (without_first q). split; [done|]. split; [|done].
  assert (without_first q = mkParts (dropped q ++ es) rest (cur q)) as Hq by (unfold without_first; by rewrite Eo).
  split; rewrite ?Hlog; try done.
  - rewrite Hq. simpl. rewrite H1. by apply remove_first.
  - rewrite Hq. simpl. simpl in H2. by inversion H2.
  - by rewrite Hq.
  - eapply covers_mono; [|exact Hf]. rewrite Hq. simpl. unfold kept_old, all_old. rewrite Eo. simpl.
    rewrite app_assoc. by apply prefix_app_r.
  - unfold thread_inv. simpl. rewrite Ea, Hlog, Hkept. split; [exact Hv|]. split; [exact Hf|]. by rewrite Hq.
Qed.

(** Where a step rotates the journal its name must be new. *)
Definition step_fresh (o : Outcome) (c : Cache) : Prop :=
  match c.(thread) with
  | FinishReplay _ | RotateFirst => fresh_name c o.(o_now)
  | _ => True
  end.

Lemma thread_step_inv o c q :
  inv c q → step_fresh o c → ∃ c' q', thread_step o c = Some c' ∧ inv c' q' ∧ log_of q' = log_of q.
Proof using FL files0_good laws.
  intros Hi Hf. unfold step_fresh in Hf.
  assert (Hsame : (∃ c', thread_step o c = Some c' ∧ inv c' q) →
    ∃ c' q', thread_step o c = Some c' ∧ inv c' q' ∧ log_of q' = log_of q) by (intros (c' & ? & ?); by exists c', q).
  destruct (thread c) as [| |lines|pos|pos| | |todo errors| |todo] eqn:Et.
  - apply Hsame. unfold thread_step. rewrite Et. by exists c.
  - apply Hsame. by apply start_replay_step.
  - apply Hsame. destruct lines; [by apply replay_old_end|by eapply replay_old_step].
  - apply Hsame. by eapply replay_journal_step.
  - by eapply finish_replay_step.
  - by apply rotate_first_step.
  - apply Hsame. by apply list_files_step.
  - apply Hsame. by eapply flush_step.
  - apply Hsame. by apply sync_step.
  - by eapply remove_old_step.
Qed.

(** *** Histories *)

(** The events of a history: entries are fine and directories can be created for
    them, and a journal is rotated to a new name. *)
Definition event_fine (ev : Event) (c : Cache) : Prop :=
  match ev with
  | EUpdate _ e _ _ can_create | EAppend e _ _ can_create => fine e ∧ can_create = true
  | EThread o => step_fresh o c
  | ERestart torn => ∀ e k, torn = Some (e, k) → entry_ok e
  | _ => True
  end.

Fixpoint history_fine (evs : list Event) (c : Cache) : Prop :=
  match evs with
  | [] => True
  | ev :: evs =>
      event_fine ev c ∧ match exec apply_interval ev c with Some (c, _) => history_fine evs c | None => True end
  end.

Lemma exec_inv ev c q :
  inv c q → event_fine ev c →
  ∃ c' l q', exec apply_interval ev c = Some (c', l) ∧ inv c' q' ∧ log_of q' = log_of q ++ l.
Proof using FL files0_good laws.
  intros Hi Hf. destruct ev as [now e new_only written can_create|e new_only written can_create|base name|now|o|torn];
    simpl in *.
  - destruct Hf as [Hf ->]. unfold update_value_impl.
    assert (validate_rrd_path (je_path e) = Ok tt) as -> by apply Hf. apply (apply_journal_inv now) in Hi.
    destruct (append_update_inv e new_only written _ q Hi Hf) as (c' & r & -> & Hi').
    eexists _, _, _. split; [done|]. split; [exact Hi'|by apply log_appended, Hf].
  - destruct Hf as [Hf ->]. destruct (append_update_inv e new_only written _ q Hi Hf) as (c' & r & -> & Hi').
    eexists _, _, _. split; [done|]. split; [exact Hi'|by apply log_appended, Hf].
  - eexists _, _, q. split; [done|]. split; [by apply extract_inv|by rewrite app_nil_r].
  - eexists _, _, q. split; [done|]. split; [by apply apply_journal_inv|by rewrite app_nil_r].
  - destruct (thread_step_inv o c q Hi Hf) as (c' & q' & -> & Hi' & Hl).
    eexists _, _, q'. split; [done|]. split; [done|]. by rewrite app_nil_r.
  - eexists _, _, q. split; [done|]. split; [by apply restart_inv|by rewrite app_nil_r].
Qed.

Lemma run_inv evs c q :
  inv c q → history_fine evs c →
  ∃ c' l q', run apply_interval evs c = Some (c', l) ∧ inv c' q' ∧ log_of q' = log_of q ++ l.
Proof using FL files0_good laws.
  revert c q. induction evs as [|ev evs IH]; intros c q Hi Hf.
  { exists c, [], q. rewrite app_nil_r. done. }
  destruct Hf as [He Hf]. destruct (exec_inv ev c q Hi He) as (c1 & l1 & q1 & E & Hi1 & Hl1).
  rewrite E in Hf. destruct (IH c1 q1 Hi1 Hf) as (c2 & l2 & q2 & E2 & Hi2 & Hl2).
  simpl. rewrite E, E2. eexists _, _, q2. split; [done|]. split; [done|]. by rewrite Hl2, Hl1, app_assoc.
Qed.

Lemma new_inv : inv (cache_new files0 [] []) (mkParts [] [] []).
Proof.
  split; simpl; try done; try constructor.
  - intros p. apply covers_at_init.
  - intros p. apply covers_at_init.
Qed.

(** *** Recovery *)
Section Recovery.
Variables (o : Outcome) (log : list JournalEntry).
Hypotheses (o_fine : o.(o_ok) = true) (o_rotates : o.(o_rotate) = RotateOk).

(** All is written back and no journal is needed. *)
Definition recovered (c : Cache) : Prop :=
  c.(thread) = Idle ∧ c.(journal_applied) = true ∧ c.(old) = [] ∧ c.(journal) = [] ∧
  ∀ p, c.(files) !! p = ideal (λ p, files0 !! p) p log ∧ seen c p = ideal (λ p, files0 !! p) p log.

Definition recovers (c : Cache) : Prop :=
  ∃ n c', run apply_interval (replicate n (EThread o)) c = Some (c', []) ∧ recovered c'.

Definition inv_log (c : Cache) : Prop := ∃ q, inv c q ∧ log_of q = log.

Lemma recovers_step c c' : thread_step o c = Some c' → recovers c' → recovers c.
Proof.
  intros H (n & c2 & Hr & Hc). exists (S n), c2. split; [|done]. simpl. by rewrite H, Hr.
Qed.

Lemma step_inv_log c c' : inv_log c → step_fresh o c → thread_step o c = Some c' → inv_log c'.
Proof using FL files0_good laws.
  intros (q & Hi & Hl) Hf H. destruct (thread_step_inv o c q Hi Hf) as (c2 & q' & E & Hi' & Hl').
  assert (c2 = c') as <- by congruence. exists q'. by rewrite Hl'.
Qed.

Lemma remove_old_recovers todo c :
  inv_log c → c.(thread) = RemoveOld todo → c.(journal) = [] → recovers c.
Proof using FL files0_good laws o_fine.
  revert c. induction todo as [|k todo IH]; intros c Hi Et Hj.
  - destruct Hi as (q & Hi & Hl). pose proof Hi as [H1 H2 H3 H4 H5 H6 Ht]. unfold thread_inv in Ht. rewrite Et in Ht.
    destruct (journal_applied c) eqn:Ea; [|done]. destruct Ht as (Hv & Hf & Hk).
    assert (oldes q = []) as Ho by by destruct (oldes q).
    assert (cur q = []) as Hc by (apply bytes_of_nil; [apply (parts_ok q H4)|congruence]).
    assert (kept_old q = log_of q) as Hkept by (unfold log_of; by rewrite Hc, app_nil_r).
    exists 1, (set_thread c Idle). split; [simpl; unfold thread_step; by rewrite Et|].
    split; [done|]. split; [done|]. split; [simpl; by rewrite H1, Ho|]. split; [done|]. rewrite Hkept in Hf.
    intros p. rewrite <- Hl. split; apply covers_at_full; [apply Hf|apply Hv].
  - assert (thread_step o c = Some (set_thread (set_old c (List.filter (λ j, negb (j.1 =? k)%Z) c.(old))) (RemoveOld todo)))
      as Es by (unfold thread_step; by rewrite Et, o_fine).
    eapply recovers_step; [exact Es|]. apply IH; [|done|done].
    apply (step_inv_log c); [done|unfold step_fresh; by rewrite Et|done].
Qed.

Lemma sync_recovers c : inv_log c → c.(thread) = SyncFiles → c.(journal) = [] → recovers c.
Proof using FL files0_good laws o_fine.
  intros Hi Et Hj. assert (thread_step o c = Some (set_thread c (RemoveOld (list_old_journals c.(old)).*1))) as Es
    by (unfold thread_step; by rewrite Et, o_fine).
  eapply recovers_step; [exact Es|]. eapply remove_old_recovers; [|done|done].
  apply (step_inv_log c); [done|unfold step_fresh; by rewrite Et|done].
Qed.

Lemma flush_recovers todo c : inv_log c → c.(thread) = Flush todo 0 → c.(journal) = [] → recovers c.
Proof using FL files0_good laws o_fine.
  revert c. induction todo as [|p todo IH]; intros c Hi Et Hj.
  - assert (thread_step o c = Some (set_thread c SyncFiles)) as Es by (unfold thread_step; by rewrite Et).
    eapply recovers_step; [exact Es|]. apply sync_recovers; [|done|done].
    apply (step_inv_log c); [done|unfold step_fresh; by rewrite Et|done].
  - assert (is_Some (map c !! p)) as [rrd Ep].
    { destruct Hi as (q & Hi & _). pose proof (inv_thread _ _ Hi) as Ht. unfold thread_inv in Ht. rewrite Et in Ht.
      destruct (journal_applied c); [|done]. destruct Ht as (_ & Hin & _). apply elem_of_dom, Hin. by left. }
    assert (thread_step o c = Some (set_thread (set_file c p rrd) (Flush todo 0))) as Es
      by (unfold thread_step; by rewrite Et, Ep, o_fine).
    eapply recovers_step; [exact Es|]. apply IH; [|done|done].
    apply (step_inv_log c); [done|unfold step_fresh; by rewrite Et|done].
Qed.

Lemma list_files_recovers c : inv_log c → c.(thread) = ListFiles → c.(journal) = [] → recovers c.
Proof using FL files0_good laws o_fine.
  intros Hi Et Hj. assert (thread_step o c = Some (set_thread c (Flush (elements (dom c.(map))) 0))) as Es
    by (unfold thread_step; by rewrite Et).
  eapply recovers_step; [exact Es|]. eapply flush_recovers; [|done|done].
  apply (step_inv_log c); [done|unfold step_fresh; by rewrite Et|done].
Qed.

(** The thread of an inv state that has not applied the journal has a position in it. *)
Lemma finish_recovers pos c :
  inv_log c → c.(thread) = FinishReplay pos → fresh_name c o.(o_now) → recovers c.
Proof using FL files0_good laws o_fine o_rotates.
  intros Hl Et Hf. pose proof Hl as (q & Hi & _). pose proof (inv_thread _ _ Hi) as Ht. unfold thread_inv in Ht.
  rewrite Et in Ht. destruct (journal_applied c) eqn:Ea; [by destruct Ht|]. destruct Ht as (d & r & Hcur & -> & Hc).
  pose proof (parts_ok q (inv_ok _ _ Hi)) as [_ Hok]. rewrite Hcur in Hok. apply Forall_app in Hok as [_ Hok].
  destruct (apply_rest (files c) (map c) (log_of q) (kept_old q ++ d) r (o_ok o)) as (m & b & Er & _ & Hb);
    [apply Hi|apply Hi|unfold log_of; by rewrite Hcur, app_assoc|done|].
  rewrite (Hb o_fine) in Er.
  assert (∃ c', thread_step o c = Some c' ∧ thread c' = ListFiles ∧ journal c' = []) as (c' & Es & Et' & Hj).
  { unfold thread_step. rewrite Et, (inv_journal _ _ Hi), Hcur, drop_bytes, lines_of_bytes, Er by done.
    unfold rotate_journal. rewrite o_rotates. eexists. split; [done|]. by split. }
  eapply recovers_step; [exact Es|]. apply list_files_recovers; [|done|done].
  apply (step_inv_log c); [done|unfold step_fresh; by rewrite Et|done].
Qed.

Lemma replay_journal_recovers n pos c :
  length c.(journal) - pos ≤ n → inv_log c → c.(thread) = ReplayJournal pos → fresh_name c o.(o_now) → recovers c.
Proof using FL files0_good laws o_fine o_rotates.
  revert pos c. induction n as [n IH] using lt_wf_ind. intros pos c Hn Hl Et Hf.
  pose proof Hl as (q & Hi & Hlog). pose proof (inv_thread _ _ Hi) as Ht. unfold thread_inv in Ht. rewrite Et in Ht.
  destruct (journal_applied c) eqn:Ea; [by destruct Ht|]. destruct Ht as (d & r & Hcur & -> & Hc).
  assert (Hstep : ∀ c', thread_step o c = Some c' → inv_log c').
  { intros c'. apply step_inv_log; [done|]. unfold step_fresh. by rewrite Et. }
  destruct r as [|e r].
  - assert (thread_step o c = Some (set_thread c (FinishReplay (length (bytes_of d))))) as Es.
    { unfold thread_step. rewrite Et, (inv_journal _ _ Hi), Hcur, app_nil_r. by rewrite next_line_end. }
    eapply recovers_step; [exact Es|]. eapply finish_recovers; [by apply Hstep|done|done].
  - assert (log_of q = (kept_old q ++ d) ++ e :: r) as Hq by (unfold log_of; by rewrite Hcur, <- app_assoc).
    assert (entry_ok e) as He.
    { pose proof (inv_ok _ _ Hi) as H4. rewrite Forall_forall in H4. apply H4. rewrite Hq.
      apply elem_of_app. right. by left. }
    destruct (line_ok_cons _ (entry_bytes_line e He)) as (x & l & El).
    destruct (apply_next (files c) (map c) (log_of q) e _ _ (o_ok o) (inv_ok _ _ Hi) (inv_good _ _ Hi) Hq Hc)
      as [[Ho _]|(m & Em & _)]; [congruence|].
    assert (thread_step o c = Some (set_thread (set_map c m)
      (ReplayJournal (length (bytes_of d) + length (journal_entry_bytes e))))) as Es.
    { unfold thread_step. rewrite Et, (inv_journal _ _ Hi), Hcur, next_line_bytes by done.
      rewrite El. rewrite <- El. by rewrite Em. }
    assert (length (journal c) = length (bytes_of d) + length (journal_entry_bytes e) + length (bytes_of r)) as Hlen.
    { rewrite (inv_journal _ _ Hi), Hcur, cons_middle, app_assoc, bytes_of_app, bytes_of_snoc, !length_app. done. }
    assert (0 < length (journal_entry_bytes e)) by (rewrite El; simpl; lia).
    eapply recovers_step; [exact Es|]. apply (IH (n - 1)) with (pos := length (bytes_of d) + length (journal_entry_bytes e));
      [lia|simpl; lia|by apply Hstep|done|done].
Qed.

Lemma replay_old_recovers lines c :
  inv_log c → c.(thread) = ReplayOld lines → fresh_name c o.(o_now) → recovers c.
Proof using FL files0_good laws o_fine o_rotates.
  revert c. induction lines as [|line lines IH]; intros c Hl Et Hf.
  - assert (thread_step o c = Some (set_thread c (ReplayJournal 0))) as Es by (unfold thread_step; by rewrite Et).
    eapply recovers_step; [exact Es|]. eapply replay_journal_recovers; [done| |done|done].
    apply (step_inv_log c); [done|unfold step_fresh; by rewrite Et|done].
  - pose proof Hl as (q & Hi & Hlog). pose proof (inv_thread _ _ Hi) as Ht. unfold thread_inv in Ht. rewrite Et in Ht.
    destruct (journal_applied c) eqn:Ea; [by destruct Ht|]. destruct Ht as (d & [|e r] & Hall & Hlines & Hc); [done|].
    rewrite fmap_cons in Hlines. injection Hlines as -> ->.
    assert (log_of q = (dropped q ++ d) ++ e :: r ++ cur q) as Hq.
    { unfold log_of, kept_old. rewrite Hall, <- !app_assoc. done. }
    destruct (apply_next (files c) (map c) (log_of q) e _ _ (o_ok o) (inv_ok _ _ Hi) (inv_good _ _ Hi) Hq Hc)
      as [[Ho _]|(m & Em & _)]; [congruence|].
    assert (thread_step o c = Some (set_thread (set_map c m) (ReplayOld (journal_entry_bytes <$> r)))) as Es
      by (unfold thread_step; by rewrite Et, Em).
    eapply recovers_step; [exact Es|]. apply IH; [|done|done].
    apply (step_inv_log c); [done|unfold step_fresh; by rewrite Et|done].
Qed.

Lemma start_recovers c : inv_log c → c.(thread) = StartReplay → fresh_name c o.(o_now) → recovers c.
Proof using FL files0_good laws o_fine o_rotates.
  intros Hl Et Hf. unfold thread_step.
  assert (∃ lines, thread_step o c = Some (set_thread c (ReplayOld lines))) as [lines Es]
    by (unfold thread_step; rewrite Et; eauto).
  eapply recovers_step; [exact Es|]. eapply replay_old_recovers; [|done|done].
  apply (step_inv_log c); [done|unfold step_fresh; by rewrite Et|done].
Qed.
End Recovery.

(** *** What queries see, and what is there after a crash *)
Lemma cached_database_seen base name c :
  validate_rrd_path (base ++ slash :: name) = Ok tt →
  (cached_database base name c).2 = Ok (seen c (base ++ slash :: name)).
Proof.
  intros Hp. unfold cached_database. rewrite Hp. unfold seen, view, map_load.
  destruct (map c !! _) eqn:E; [done|]. destruct (files c !! _) eqn:Ef; simpl; [|done]. by rewrite lookup_insert_eq.
Qed.

Lemma history_log evs :
  history_fine evs (cache_new files0 [] []) →
  ∃ c log q, run apply_interval evs (cache_new files0 [] []) = Some (c, log) ∧ inv c q ∧ log_of q = log.
Proof using FL files0_good laws.
  intros Hf. destruct (run_inv evs _ _ new_inv Hf) as (c & l & q & Hr & Hi & Hl). by exists c, l, q.
Qed.

Lemma queries_see_log evs :
  history_fine evs (cache_new files0 [] []) →
  ∃ c log, run apply_interval evs (cache_new files0 [] []) = Some (c, log) ∧
    Forall fine log ∧
    (c.(journal_applied) = true → ∀ base name, validate_rrd_path (base ++ slash :: name) = Ok tt →
     (cached_database base name c).2 = Ok (ideal (λ p, files0 !! p) (base ++ slash :: name) log)).
Proof using FL files0_good laws.
  intros Hf. destruct (history_log evs Hf) as (c & log & q & Hr & Hi & Hl). exists c, log. split; [done|].
  split; [rewrite <- Hl; apply Forall_and; split; apply Hi|].
  intros Ha base name Hp. rewrite cached_database_seen by done. f_equal.
  pose proof (inv_thread _ _ Hi) as Ht. unfold thread_inv in Ht. rewrite Ha, Hl in Ht.
  apply covers_at_full, Ht.
Qed.

End Invariant.
