(* ===== verification/RrdCacheHistory.v ===== *)
(** * RrdCacheHistory: the cache with the databases of [Rrd]

    The databases of gauges and of derived values satisfy what the cache needs of
    them ([RrdStoreLaws]), so that a query of the cache sees all updates of its
    metric. Counters do not: replaying a counter reset records a value. *)
From Stdlib Require Import SpecFloat.
From stdpp Require Import gmap.
From S2P Require Import Prelude F64 Rrd RrdTheory Json TextCoding RrdJournal RrdCache RrdCacheTheory.

#[local] Open Scope Z_scope.

(** ** The order of binary64 numbers *)

(** Numbers compare like these triples, lexicographically. *)
Definition f64_key (x : f64) : Z * Z * Z :=
  match x with
  | S754_infinity true => (-2, 0, 0)
  | S754_finite true m e => (-1, - e, - Z.pos m)
  | S754_finite false m e => (1, e, Z.pos m)
  | S754_infinity false => (2, 0, 0)
  | _ => (0, 0, 0)
  end.
Definition key_lt (a b : Z * Z * Z) : Prop :=
  a.1.1 < b.1.1 ∨ a.1.1 = b.1.1 ∧ (a.1.2 < b.1.2 ∨ a.1.2 = b.1.2 ∧ a.2 < b.2).

Lemma f64_lt_key x y :
  f64_lt x y = true ↔ f64_is_nan x = false ∧ f64_is_nan y = false ∧ key_lt (f64_key x) (f64_key y).
Proof.
  unfold f64_lt, SFltb, key_lt.
  destruct x as [[]|[]| |[] m1 e1], y as [[]|[]| |[] m2 e2]; simpl; try (split; [done|lia]);
    try (split; [intros _; repeat split; lia|done]);
    destruct (Z.compare_spec e1 e2) as [->|?|?]; simpl;
    try (change (Pos.compare_cont Eq m1 m2) with (Pos.compare m1 m2);
         destruct (Pos.compare_spec m1 m2) as [->|?|?]; simpl);
    (split; [intros Hk; try discriminate Hk; repeat split; lia|intros (_ & _ & Hk); try done; exfalso; lia]).
Qed.

Lemma f64_lt_trans x y z : f64_lt x y = true → f64_lt y z = true → f64_lt x z = true.
Proof. rewrite !f64_lt_key. unfold key_lt. intros (? & ? & ?) (? & ? & ?). repeat split; [done|done|lia]. Qed.

Lemma f64_lt_irrefl x : f64_lt x x = false.
Proof.
  destruct (f64_lt x x) eqn:E; [|done]. apply f64_lt_key in E as (_ & _ & H). unfold key_lt in H. lia.
Qed.

Lemma f64_le_lt x y :
  f64_is_nan x = false → f64_is_nan y = false → f64_le x y = negb (f64_lt y x).
Proof.
  unfold f64_le, f64_lt, SFleb, SFltb. intros Hx Hy.
  destruct x as [[]|[]| |[] m1 e1], y as [[]|[]| |[] m2 e2]; simpl; try done;
    rewrite (Z.compare_antisym e1 e2); destruct (Z.compare e1 e2); simpl; try done;
    change (Pos.compare_cont Eq) with Pos.compare; rewrite (Pos.compare_antisym m1 m2);
    by destruct (Pos.compare m1 m2).
Qed.

(** ** Sources that are not counters *)
Definition rejected (s : DataSource) (time value : f64) : bool :=
  f64_lt time f64_zero || f64_le time s.(last_update) || f64_is_nan value.

Lemma source_not_counter s time value :
  s.(dst) ≠ Counter →
  if rejected s time value then ∃ er, source_compute_new_value s time value = (s, Err er)
  else ∃ v, source_compute_new_value s time value = (with_value s value, Ok v).
Proof.
  intros Hd. unfold rejected, source_compute_new_value. destruct (f64_lt time f64_zero); [by eexists|].
  destruct (f64_le time (last_update s)); [by eexists|]. destruct (f64_is_nan value); [by eexists|]. simpl.
  rewrite bool_decide_eq_false_2 by done. simpl.
  repeat match goal with |- context [if ?b then _ else _] => destruct b end; by eexists.
Qed.

Section Database.
Variable archives : list Archive.
Hypothesis archives_fresh : Forall fresh_archive archives.

(** Updates of gauges and derived values at times the archives can hold. *)
Definition entry_good (e : JournalEntry) : Prop := good_time archives e.(je_time) ∧ e.(je_dst) ≠ Counter.
Definition database_good (db : Database) : Prop :=
  (∃ h, db_represents archives db h) ∧ db.(source).(dst) ≠ Counter.

(** An update is rejected and changes nothing, or it sets the time of the database. *)
Lemma database_update_cases db e :
  database_good db → entry_good e →
  if rejected db.(source) e.(je_time) e.(je_value)
  then database_update db e.(je_time) e.(je_value) = Some db
  else f64_lt db.(source).(last_update) e.(je_time) = true ∧
       ∃ db', database_update db e.(je_time) e.(je_value) = Some db' ∧ database_good db' ∧
         db'.(source).(last_update) = e.(je_time).
Proof.
  intros [[h Hr] Hd] [Ht _]. pose proof (source_not_counter (source db) (je_time e) (je_value e) Hd) as Hs.
  destruct (database_update_represents archives db h _ (je_value e) Hr Ht) as (db' & Hu & Hr' & Hsrc).
  destruct (rejected _ _ _) eqn:Er.
  - destruct Hs as [er Hs]. unfold database_update. rewrite Hs. by destruct db.
  - destruct Hs as [v Hs]. rewrite Hs in *. split.
    + unfold rejected in Er. apply orb_false_iff in Er as [[_ Hle]%orb_false_iff _].
      destruct Hr as (_ & Hn & _). destruct Ht as (_ & Hn' & _).
      rewrite f64_le_lt in Hle by done. by destruct (f64_lt _ _).
    + exists db'. split; [done|]. split; [|by rewrite Hsrc]. split; [eauto|]. by rewrite Hsrc.
Qed.

Lemma rejected_old db e :
  database_good db → entry_good e → f64_lt db.(source).(last_update) e.(je_time) = false →
  rejected db.(source) e.(je_time) e.(je_value) = true.
Proof.
  intros [[h (_ & Hn & _)] _] [(_ & Hn' & _) _] Hlt. unfold rejected.
  rewrite f64_le_lt, Hlt by done. by rewrite orb_true_r.
Qed.

#[export] Instance database_laws : RrdStoreLaws (database_store archives) entry_good.
Proof using archives_fresh.
  refine {| good_db := database_good : @DB (database_store archives) → Prop |}; simpl.
  - intros e [_ Hd]. split; [exists []; by apply database_new_represents|done].
  - intros d e Hg He. pose proof (database_update_cases d e Hg He) as H.
    destruct (rejected _ _ _); [by exists d|]. destruct H as (_ & d' & ? & ? & _). by exists d'.
  - intros d e Hg He Hlt. pose proof (database_update_cases d e Hg He) as H.
    by rewrite rejected_old in H.
  - intros d e d' Hg He Hu. pose proof (database_update_cases d e Hg He) as H. unfold update_db. simpl.
    destruct (rejected _ _ _).
    + assert (d' = d) as -> by congruence. by destruct (f64_lt _ _).
    + destruct H as (_ & d2 & H2 & _ & Hl). assert (d2 = d') as -> by congruence. by rewrite Hl, f64_lt_irrefl.
  - intros d e e' d' Hg He He' Hs Hu. unfold update_db in *. simpl in *.
    pose proof (database_update_cases d e' Hg He') as H'. destruct (rejected (source d) (je_time e') _).
    { by assert (d' = d) as -> by congruence. }
    destruct H' as (Hlt' & d2 & H2 & Hg2 & Hl). assert (d2 = d') as -> by congruence. rewrite Hl.
    destruct (f64_lt (je_time e') (je_time e)) eqn:Hlt; [|done].
    pose proof (f64_lt_trans _ _ _ Hlt' Hlt) as Hlt2. rewrite Hlt2 in Hs.
    pose proof (database_update_cases d e Hg He) as H. destruct (rejected (source d) (je_time e) _) eqn:Er.
    + pose proof (database_update_cases d' e Hg2 He) as H3.
      assert (rejected (source d') (je_time e) (je_value e) = true) as Er'; [|by rewrite Er' in H3].
      unfold rejected in *. destruct (f64_lt (je_time e) f64_zero); [done|].
      destruct Hg as [[h (_ & Hn & _)] _]. destruct He as [(_ & Hn' & _) _].
      rewrite f64_le_lt, Hlt2 in Er by done. simpl in Er. rewrite Er. by rewrite orb_true_r.
    + destruct H as (_ & d3 & H3 & _ & Hl3). assert (d3 = d) as -> by congruence.
      rewrite Hl3, f64_lt_irrefl in Hlt2. done.
Defined.
End Database.

(** ** A directory that was empty *)
Definition updates_of (l : list JournalEntry) : list (f64 * f64) := (λ e, (je_time e, je_value e)) <$> l.

Lemma apply1_updates archives (fresh : Forall fresh_archive archives) l (db : Database) :
  database_good archives db → Forall (entry_good archives) l →
  ∃ db', foldl (@apply1 (database_store archives)) (Some db) l = Some db' ∧
    database_updates db (updates_of l) = Some db'.
Proof.
  pose (laws := database_laws archives fresh). intros Hdb Hl. revert db Hdb.
  induction Hl as [|e l He _ IH]; intros db Hdb; [by exists db|].
  destruct (update_db_good (laws := laws) db e true Hdb He) as (db' & H1 & H2 & H3).
  destruct (IH db' H2) as (db2 & H4 & H5). exists db2. cbn [foldl]. unfold apply1 at 2. cbn [default].
 simpl. rewrite H1. split; [done|].
  simpl in H3. by rewrite H3.
Qed.

Section Cache.
Context {F : F64Text} {FL : F64TextLaws F}.
Variables (apply_interval : f64) (archives : list Archive).

End Cache.

(** ** Histories that are checked by evaluation *)
Section Check.
Context {F : F64Text}.
Variables (apply_interval : f64) (archives : list Archive).

Definition entry_check (e : JournalEntry) : bool :=
  f64_valid e.(je_time) && f64_is_finite e.(je_time) && f64_valid e.(je_value) && f64_is_finite e.(je_value)
  && forallb is_scalar e.(je_path) && is_ok (validate_rrd_path e.(je_path)).
Definition update_check (e : JournalEntry) : bool :=
  entry_check e && negb (f64_is_nan e.(je_time)) &&
  forallb (λ a, a.(resolution) <=? f64_as_u64 e.(je_time)) archives && bool_decide (e.(je_dst) ≠ Counter).

Definition event_check (ev : Event) (c : @Cache (database_store archives)) : bool :=
  match ev with
  | EUpdate _ e _ _ can_create | EAppend e _ _ can_create => update_check e && can_create
  | EThread o =>
      match c.(thread) with
      | FinishReplay _ | RotateFirst => forallb (λ j, j.1 <? journal_key o.(o_now)) c.(old)
      | _ => true
      end
  | ERestart (Some (e, _)) => entry_check e
  | _ => true
  end.

Fixpoint history_check (evs : list Event) (c : @Cache (database_store archives)) : bool :=
  match evs with
  | [] => true
  | ev :: evs =>
      event_check ev c && match exec apply_interval ev c with Some (c, _) => history_check evs c | None => true end
  end.

Lemma forallb_true {A} (p : A → bool) l : forallb p l = true → Forall (λ x, p x = true) l.
Proof. rewrite forallb_forall, Forall_forall. intros H x Hx. by apply H, list_elem_of_In. Qed.

Lemma entry_check_ok e : entry_check e = true → entry_ok e.
Proof.
  unfold entry_check. rewrite !andb_true_iff. intros [[[[[H1 H2] H3] H4] H5] H6].
  repeat split; try done; [by apply forallb_true|].
  by destruct (validate_rrd_path (je_path e)) as [[]|].
Qed.

Lemma update_check_ok e : update_check e = true → entry_ok e ∧ entry_good archives e.
Proof.
  unfold update_check. rewrite !andb_true_iff. intros [[[H1 H2] H3] H4]. apply entry_check_ok in H1 as He.
  split; [done|]. split; [|by apply bool_decide_eq_true in H4]. repeat split; [apply He|by destruct (f64_is_nan _)|].
  eapply Forall_impl; [by apply forallb_true|]. intros a Ha. by apply Z.leb_le.
Qed.

Lemma history_check_ok evs c :
  history_check evs c = true → history_fine (good_entry := entry_good archives) apply_interval evs c.
Proof.
  revert c. induction evs as [|ev evs IH]; intros c; [done|]. cbn [history_check history_fine].
  rewrite andb_true_iff. intros [He Hr]. split.
  - destruct ev as [now e new_only written can_create|e new_only written can_create| | |o|[[e k]|]]; simpl in *;
      try done.
    + apply andb_true_iff in He as [He ->]. split; [by apply update_check_ok|done].
    + apply andb_true_iff in He as [He ->]. split; [by apply update_check_ok|done].
    + unfold step_fresh. destruct (thread c); try done; (eapply Forall_impl; [by apply forallb_true|]);
        intros j Hj; by apply Z.ltb_lt.
    + intros e' k' [= <- <-]. by apply entry_check_ok.
  - destruct (exec apply_interval ev c) as [[c' l]|]; [by apply IH|done].
Qed.
End Check.

(** ** Runs *)
Definition demo_archives : list Archive := [archive_new Last 60 5].
Definition demo_entry (t v : Z) (d : DataSourceType) : JournalEntry := mkJEntry (f t) (f v) d (lit "host/cpu").
Definition demo_ok (now : Z) : Outcome := mkOutcome now RotateOk true.
Definition demo_update (t v : Z) (d : DataSourceType) : Event := EUpdate (f t) (demo_entry t v d) false None true.
Definition demo_run (evs : list Event) : option (@Cache (database_store demo_archives) * list JournalEntry) :=
  run (F := f64_text) (f 1800) evs (cache_new ∅ [] []).
Definition demo_query (r : option (@Cache (database_store demo_archives) * list JournalEntry))
    : option (result (option Database) JournalError) :=
  (λ cl, (cached_database (lit "host") (lit "cpu") cl.1).2) <$> r.

(** A failing write and a crash in the middle of a write. *)
Definition demo_history : list Event :=
  [EApply (f 50); demo_update 60 7 Gauge] ++ replicate 12 (EThread (demo_ok 61)) ++
  [demo_update 120 8 Gauge; EUpdate (f 125) (demo_entry 125 9 Gauge) true (Some 5%nat) true;
   ERestart (Some (demo_entry 126 9 Gauge, 9%nat)); demo_update 180 9 Gauge].

Lemma demo_archives_fresh : Forall fresh_archive demo_archives.
Proof. repeat constructor. exists Last, 60, 5%nat. repeat split; lia. Qed.


(** The journal is applied at the end of this run, and the query sees three updates. *)
Lemma demo_history_query :
  (λ cl, journal_applied cl.1) <$> demo_run (demo_history ++ replicate 10 (EThread (demo_ok 185))) = Some true ∧
  demo_query (demo_run (demo_history ++ replicate 10 (EThread (demo_ok 185)))) =
  Some (Ok (database_updates (database_new Gauge demo_archives) [(f 60, f 7); (f 120, f 8); (f 180, f 9)])).
Proof. split; vm_compute; reflexivity. Qed.


(** ** Where updates are not kept *)

(** The reset of a counter changes the last value but not the time of the database:
    when its entry is replayed it is taken as a new measurement. *)
Lemma counter_reset_replayed :
  let ups := [(f 60, f 10); (f 120, f 5)] in
  (λ db, last_update (source db)) <$> database_updates (database_new Counter demo_archives) ups = Some (f 60) ∧
  (λ db, last_update (source db)) <$> database_updates (database_new Counter demo_archives) (ups ++ [(f 120, f 5)])
  = Some (f 120).
Proof. split; vm_compute; reflexivity. Qed.

(** So after a restart a query does not see what the log determines. *)
Lemma counter_restart_differs :
  let before := [EApply (f 50)] ++ replicate 9 (EThread (demo_ok 51)) ++
                [demo_update 60 10 Counter; demo_update 120 5 Counter] in
  let committed := before ++ [EApply (f 3000); EThread (demo_ok 3000); EThread (demo_ok 3000); EThread (demo_ok 3000)] in
  demo_query (demo_run before) ≠
  demo_query (demo_run (committed ++ [ERestart None; EApply (f 3010)] ++ replicate 9 (EThread (demo_ok 3011)))).
Proof. vm_compute. discriminate. Qed.

(** Two rotations in one second: the first journal is replaced, and a crash before
    the databases are written loses its update. *)
Definition two_rotations (second : Z) : list Event :=
  [EApply (f 50); demo_update 60 7 Gauge] ++ replicate 4 (EThread (demo_ok 61)) ++
  [EThread (mkOutcome 61 SyncFails true); EApply (f 61)] ++
  replicate 4 (EThread (demo_ok second)) ++ [EThread (mkOutcome second SyncFails true)] ++
  [ERestart None; EApply (f 70)] ++ replicate 12 (EThread (demo_ok 71)).

Lemma rotation_in_one_second_loses :
  demo_query (demo_run (two_rotations 61)) = Some (Ok None) ∧
  demo_query (demo_run (two_rotations 62)) =
  Some (Ok (database_updates (database_new Gauge demo_archives) [(f 60, f 7)])).
Proof. split; vm_compute; reflexivity. Qed.
