(* ===== verification/Shellword.v ===== *)
(** * Shellword: words of a command line

    Models [proxmox-router/src/cli/shellword.rs]: the state machine that splits a
    text into words as a Bourne shell does. It is compared with a grammar: a word is
    a sequence of plain characters, escaped characters and quoted parts. *)
From S2P Require Import Prelude.

#[local] Open Scope N_scope.

Inductive ParseMode := Space | DoubleQuote | EscapeNormal | EscapeInDoubleQuote | Normal | SingleQuote.
Inductive Quote := QDouble | QSingle | QNone.

#[export] Instance ParseMode_eq_dec : EqDecision ParseMode.
Proof. solve_decision. Defined.

Definition dquote : rchar := 34.
Definition squote : rchar := 39.
Definition backslash : rchar := 92.

Definition is_space (c : rchar) : bool := bool_decide (c ∈ [32; 9; 10]).
(** The characters a backslash escapes inside of double quotes. *)
Definition dq_special (c : rchar) : bool := bool_decide (c ∈ [36; squote; dquote; backslash; 10]).

Record Splitter := mkSplitter {
  args : list rstr;
  field_start : option (N * Quote);
  field : rstr;
  mode : ParseMode;
}.

Definition set_mode (st : Splitter) (m : ParseMode) : Splitter :=
  mkSplitter st.(args) st.(field_start) st.(field) m.
Definition push_char (st : Splitter) (c : rchar) : Splitter :=
  mkSplitter st.(args) st.(field_start) (st.(field) ++ [c]) st.(mode).
Definition start_field (st : Splitter) (index : N) (q : Quote) (m : ParseMode) : Splitter :=
  mkSplitter st.(args) (Some (index, q)) st.(field) m.

(** [field_start.take().unwrap()], then the field is moved to the words. *)
Definition push_field (st : Splitter) (m : ParseMode) : option Splitter :=
  match st.(field_start) with
  | Some _ => Some (mkSplitter (st.(args) ++ [st.(field)]) None [] m)
  | None => None
  end.

(** One character; [None] is a panic. *)
Definition split_step (st : Splitter) (index : N) (c : rchar) : option Splitter :=
  match st.(mode) with
  | Space =>
      if decide (c = dquote) then Some (start_field st index QDouble DoubleQuote)
      else if decide (c = backslash) then Some (start_field st index QNone EscapeNormal)
      else if decide (c = squote) then Some (start_field st index QSingle SingleQuote)
      else if is_space c then Some st
      else Some (push_char (start_field st index QNone Normal) c)
  | EscapeNormal => Some (push_char (set_mode st Normal) c)
  | EscapeInDoubleQuote =>
      let st := if dq_special c then st else push_char st backslash in
      Some (set_mode (push_char st c) DoubleQuote)
  | Normal =>
      if decide (c = dquote) then Some (set_mode st DoubleQuote)
      else if decide (c = squote) then Some (set_mode st SingleQuote)
      else if decide (c = backslash) then Some (set_mode st EscapeNormal)
      else if is_space c then push_field st Space
      else Some (push_char st c)
  | DoubleQuote =>
      if decide (c = dquote) then Some (set_mode st Normal)
      else if decide (c = backslash) then Some (set_mode st EscapeInDoubleQuote)
      else Some (push_char st c)
  | SingleQuote =>
      if decide (c = squote) then Some (set_mode st Normal) else Some (push_char st c)
  end.

(** The loop over [char_indices]. *)
Fixpoint split_loop (st : Splitter) (index : N) (s : rstr) : option Splitter :=
  match s with
  | [] => Some st
  | c :: s =>
      match split_step st index c with
      | Some st => split_loop st (index + utf8_width c) s
      | None => None
      end
  end.

Definition shellword_split_unclosed (s : rstr) (finalize : bool)
    : option (list rstr * option (N * rstr * Quote)) :=
  match split_loop (mkSplitter [] None [] Space) 0 s with
  | None => None
  | Some st =>
      match (if finalize && bool_decide (st.(mode) = Normal) then push_field st Normal else Some st) with
      | None => None
      | Some st =>
          Some (st.(args), match st.(field_start) with
                           | Some (start, quote) => Some (start, st.(field), quote)
                           | None => None
                           end)
      end
  end.

Inductive ShellwordError := UnclosedQuote.

Definition shellword_split (s : rstr) : option (result (list rstr) ShellwordError) :=
  match shellword_split_unclosed s true with
  | Some (args, None) => Some (Ok args)
  | Some (_, Some _) => Some (Err UnclosedQuote)
  | None => None
  end.

(** ** The grammar *)

(** Inside of double quotes. *)
Inductive DqPart := DqChar (c : rchar) | DqEscape (c : rchar).
Definition dq_ok (p : DqPart) : Prop :=
  match p with DqChar c => c ≠ dquote ∧ c ≠ backslash | DqEscape _ => True end.
Definition dq_text (p : DqPart) : rstr := match p with DqChar c => [c] | DqEscape c => [backslash; c] end.
Definition dq_value (p : DqPart) : rstr :=
  match p with DqChar c => [c] | DqEscape c => if dq_special c then [c] else [backslash; c] end.

Inductive Part := PChar (c : rchar) | PEscape (c : rchar) | PSingle (l : rstr) | PDouble (l : list DqPart).
Definition part_ok (p : Part) : Prop :=
  match p with
  | PChar c => c ≠ dquote ∧ c ≠ squote ∧ c ≠ backslash ∧ is_space c = false
  | PEscape _ => True
  | PSingle l => squote ∉ l
  | PDouble l => Forall dq_ok l
  end.
Definition part_text (p : Part) : rstr :=
  match p with
  | PChar c => [c]
  | PEscape c => [backslash; c]
  | PSingle l => squote :: l ++ [squote]
  | PDouble l => dquote :: (l ≫= dq_text) ++ [dquote]
  end.
Definition part_value (p : Part) : rstr :=
  match p with PChar c | PEscape c => [c] | PSingle l => l | PDouble l => l ≫= dq_value end.

Definition word_text (w : list Part) : rstr := w ≫= part_text.
Definition word_value (w : list Part) : rstr := w ≫= part_value.
Definition word_ok (w : list Part) : Prop := w ≠ [] ∧ Forall part_ok w.

(** A word ends at a space or at the end. *)
Definition word_end (s : rstr) : Prop := ∀ c s', s = c :: s' → is_space c = true.

Inductive splits : rstr → list rstr → Prop :=
| splits_nil : splits [] []
| splits_space c s ws : is_space c = true → splits s ws → splits (c :: s) ws
| splits_word w s ws : word_ok w → word_end s → splits s ws → splits (word_text w ++ s) (word_value w :: ws).

(** ** The machine follows the grammar *)

(** What is left to read in a mode, when the words [ws] follow and the word that is
    being read has the value [v]. *)
Definition rest_of_word (s v : rstr) (ws : list rstr) : Prop :=
  ∃ w s', s = word_text w ++ s' ∧ Forall part_ok w ∧ v = word_value w ∧ word_end s' ∧ splits s' ws.

Definition rest (m : ParseMode) (s : rstr) (v : rstr) (ws : list rstr) : Prop :=
  match m with
  | Space => False
  | Normal => rest_of_word s v ws
  | EscapeNormal => ∃ c s' v', s = c :: s' ∧ v = c :: v' ∧ rest_of_word s' v' ws
  | SingleQuote => ∃ l s' v', s = l ++ squote :: s' ∧ (squote ∉ l) ∧ v = l ++ v' ∧ rest_of_word s' v' ws
  | DoubleQuote => ∃ l s' v', s = (l ≫= dq_text) ++ dquote :: s' ∧ Forall dq_ok l ∧ v = (l ≫= dq_value) ++ v' ∧
      rest_of_word s' v' ws
  | EscapeInDoubleQuote => ∃ c l s' v', s = c :: (l ≫= dq_text) ++ dquote :: s' ∧ Forall dq_ok l ∧
      v = dq_value (DqEscape c) ++ (l ≫= dq_value) ++ v' ∧ rest_of_word s' v' ws
  end.

Lemma rest_part p s v ws : part_ok p → rest_of_word s v ws → rest_of_word (part_text p ++ s) (part_value p ++ v) ws.
Proof.
  intros Hp (w & s' & -> & Hw & -> & He & Hs). exists (p :: w), s'.
  unfold word_text, word_value. cbn [mbind list_bind]. rewrite app_assoc. repeat split; try done. by constructor.
Qed.

(** The end of the loop, with [finalize]. *)
Definition finish (st : Splitter) : option (list rstr) :=
  match st.(mode), st.(field_start) with
  | Normal, Some _ => Some (st.(args) ++ [st.(field)])
  | Normal, None => None
  | _, None => Some st.(args)
  | _, Some _ => None
  end.

(** A field is open exactly outside of spaces, where it is empty. *)
Definition splitter_ok (st : Splitter) : Prop :=
  match st.(mode) with
  | Space => st.(field_start) = None ∧ st.(field) = []
  | _ => is_Some st.(field_start)
  end.

Lemma split_step_ok st index c : splitter_ok st → ∃ st', split_step st index c = Some st' ∧ splitter_ok st'.
Proof.
  destruct st as [a fs f m]. unfold splitter_ok, split_step, push_field. simpl.
  intros H. destruct m; simpl in *; try destruct H as [-> ->]; try destruct H as [x ->]; simpl;
    repeat (case_decide; [eexists; split; [done|]; simpl; eauto|]);
    repeat case_match; eexists; (split; [done|]); simpl; eauto.
Qed.

(** No text makes the splitter panic. *)
Lemma split_loop_ok st index s : splitter_ok st → ∃ st', split_loop st index s = Some st' ∧ splitter_ok st'.
Proof.
  revert st index. induction s as [|c s IH]; intros st index H; [by exists st|]. simpl.
  destruct (split_step_ok st index c H) as (st1 & -> & H1). by apply IH.
Qed.

(** *** Reading a character, mode by mode *)
Lemma space_not_special c : is_space c = true → c ≠ dquote ∧ c ≠ squote ∧ c ≠ backslash.
Proof. intros H. repeat split; intros ->; vm_compute in H; done. Qed.

Lemma part_text_head p s c s' :
  part_ok p → part_text p ++ s = c :: s' → is_space c = false ∧
  match p with
  | PChar d => d = c ∧ s' = s
  | PEscape d => c = backslash ∧ s' = d :: s
  | PSingle l => c = squote ∧ s' = l ++ squote :: s
  | PDouble l => c = dquote ∧ s' = (l ≫= dq_text) ++ dquote :: s
  end.
Proof.
  destruct p; simpl; intros Hp [= <- <-]; (split; [|split; [done|]; by rewrite <- ?app_assoc]).
  - apply Hp.
  - done.
  - done.
  - done.
Qed.

Lemma word_text_nil w : Forall part_ok w → word_text w = [] → w = [].
Proof. destruct w as [|[] w]; [done|intros _; unfold word_text; simpl; done..]. Qed.

Lemma rest_of_word_cons s v ws c :
  rest_of_word (c :: s) v ws ↔
  (is_space c = true ∧ v = [] ∧ splits (c :: s) ws) ∨
  (∃ p s' v', part_ok p ∧ c :: s = part_text p ++ s' ∧ v = part_value p ++ v' ∧ rest_of_word s' v' ws).
Proof.
  split.
  - intros (w & s' & E & Hw & -> & He & Hs). destruct w as [|p w].
    + left. simpl in E. subst s'. split; [by eapply He|done].
    + right. apply Forall_cons in Hw as [Hp Hw]. unfold word_text in E. cbn [mbind list_bind] in E.
      rewrite <- app_assoc in E. exists p, ((w ≫= part_text) ++ s'), (word_value w). split; [done|]. split; [done|].
      split; [done|]. by exists w, s'.
  - intros [(Hc & -> & Hs)|(p & s' & v' & Hp & -> & -> & Hr)]; [|by apply rest_part].
    exists [], (c :: s). repeat split; [constructor|by intros ? ? [= <- _]|done].
Qed.

Lemma rest_of_word_nil v ws : rest_of_word [] v ws ↔ v = [] ∧ ws = [].
Proof.
  split.
  - intros (w & s' & E & Hw & -> & He & Hs). symmetry in E. apply app_nil in E as [Ew ->].
    apply word_text_nil in Ew as ->; [|done]. split; [done|]. inversion Hs as [| |w s ws' [Hne Hok] _ _ E]; [done|].
    apply app_nil in E as [E _]. by apply word_text_nil in E.
  - intros [-> ->]. exists [], []. repeat split; [constructor|by intros ? ?|constructor].
Qed.

(** A line of words: it starts with a space, or with a word. *)
Lemma splits_cons c s ws :
  splits (c :: s) ws ↔
  if is_space c then splits s ws else ∃ v ws', ws = v :: ws' ∧ rest_of_word (c :: s) v ws'.
Proof.
  split.
  - inversion 1 as [|? ? ? Hc Hs|w s' ws' [Hne Hok] He Hs E]; subst; [by rewrite Hc|].
    destruct w as [|p w]; [done|]. apply Forall_cons in Hok as Hok'. destruct Hok' as [Hp Hw].
    unfold word_text in E. cbn [mbind list_bind] in E. rewrite <- app_assoc in E.
    destruct (part_text_head p _ c s Hp E) as [-> _]. eexists _, ws'. split; [done|].
    exists (p :: w), s'. by repeat split.
  - destruct (is_space c) eqn:Hc; [by constructor|]. intros (v & ws' & -> & w & s' & E & Hw & -> & He & Hs).
    rewrite E. constructor; [|done|done]. split; [|done]. intros ->. simpl in E. subst s'.
    assert (is_space c = true) by by eapply He. congruence.
Qed.

Lemma rest_space c s v ws : is_space c = true → rest_of_word (c :: s) v ws ↔ v = [] ∧ splits s ws.
Proof.
  intros Hc. rewrite rest_of_word_cons, splits_cons, Hc. split; [|intros [-> ?]; by left].
  intros [(_ & ? & ?)|(p & s' & v' & Hp & E & _)]; [done|]. symmetry in E. apply part_text_head in E as [? _]; [congruence|done].
Qed.

Lemma rest_not_space c s v ws :
  is_space c = false →
  rest_of_word (c :: s) v ws ↔
  ∃ p s' v', part_ok p ∧ c :: s = part_text p ++ s' ∧ v = part_value p ++ v' ∧ rest_of_word s' v' ws.
Proof. intros Hc. rewrite rest_of_word_cons. split; [|by right]. intros [(? & _)|?]; [congruence|done]. Qed.

Ltac part_inv :=
  match goal with
  | E : _ :: _ = part_text ?p ++ _, Hp : part_ok ?p |- _ =>
      symmetry in E; apply part_text_head in E as [_ E]; [|exact Hp]; destruct p; destruct E as [? E]; simplify_eq
  end.

Lemma rest_plain c s v ws :
  part_ok (PChar c) → rest_of_word (c :: s) v ws ↔ ∃ v', v = c :: v' ∧ rest_of_word s v' ws.
Proof.
  intros (H1 & H2 & H3 & H4). rewrite rest_not_space by done. split.
  - intros (p & s' & v' & Hp & E & -> & Hr). part_inv; try done. by exists v'.
  - intros (v' & -> & Hr). exists (PChar c), s, v'. by repeat split.
Qed.

Lemma rest_escape s v ws : rest_of_word (backslash :: s) v ws ↔ rest EscapeNormal s v ws.
Proof.
  rewrite rest_not_space by done. split.
  - intros (p & s' & v' & Hp & E & -> & Hr). part_inv; try by destruct Hp as (? & ? & ? & ?). by exists c, s', v'.
  - intros (c & s' & v' & -> & -> & Hr). by exists (PEscape c), s', v'.
Qed.

Lemma rest_single s v ws : rest_of_word (squote :: s) v ws ↔ rest SingleQuote s v ws.
Proof.
  rewrite rest_not_space by done. split.
  - intros (p & s' & v' & Hp & E & -> & Hr). part_inv; try by destruct Hp as (? & ? & ? & ?). by exists l, s', v'.
  - intros (l & s' & v' & -> & Hl & -> & Hr). exists (PSingle l), s', v'. split; [done|]. split; [|done].
    simpl. by rewrite <- app_assoc.
Qed.

Lemma rest_double s v ws : rest_of_word (dquote :: s) v ws ↔ rest DoubleQuote s v ws.
Proof.
  rewrite rest_not_space by done. split.
  - intros (p & s' & v' & Hp & E & -> & Hr). part_inv; try by destruct Hp as (? & ? & ? & ?). by exists l, s', v'.
  - intros (l & s' & v' & -> & Hl & -> & Hr). exists (PDouble l), s', v'. split; [done|]. split; [|done].
    simpl. by rewrite <- app_assoc.
Qed.

(** Inside of quotes. *)
Lemma single_cons c s v ws :
  rest SingleQuote (c :: s) v ws ↔
  if decide (c = squote) then rest_of_word s v ws else ∃ v', v = c :: v' ∧ rest SingleQuote s v' ws.
Proof.
  split.
  - intros ([|x l] & s' & v' & E & Hl & -> & Hr); simpl in E; injection E as -> ->.
    + by rewrite decide_True.
    + apply not_elem_of_cons in Hl as [Hx Hl]. rewrite decide_False by done. exists (l ++ v'). split; [done|].
      by exists l, s', v'.
  - case_decide as Hc; [subst; intros Hr; exists [], s, v; repeat split; [apply not_elem_of_nil|done]|].
    intros (v' & -> & l & s' & v'' & -> & Hl & -> & Hr). exists (c :: l), s', v''. repeat split; try done.
    by apply not_elem_of_cons.
Qed.

Lemma double_cons c s v ws :
  rest DoubleQuote (c :: s) v ws ↔
  if decide (c = dquote) then rest_of_word s v ws
  else if decide (c = backslash) then rest EscapeInDoubleQuote s v ws
  else ∃ v', v = c :: v' ∧ rest DoubleQuote s v' ws.
Proof.
  split.
  - intros ([|[x|x] l] & s' & v' & E & Hl & -> & Hr); simpl in E; injection E as -> ->.
    + by rewrite decide_True.
    + apply Forall_cons in Hl as [[H1 H2] Hl]. rewrite !decide_False by done.
      exists ((l ≫= dq_value) ++ v'). split; [done|]. by exists l, s', v'.
    + apply Forall_cons in Hl as [_ Hl]. rewrite decide_False, decide_True by done. exists x, l, s', v'.
      split; [done|]. split; [done|]. split; [|done]. cbn [mbind list_bind]. by rewrite <- app_assoc.
  - case_decide as Hq; [subst; intros Hr; by exists [], s, v|]. case_decide as Hb.
    + subst. intros (x & l & s' & v' & -> & Hl & -> & Hr). exists (DqEscape x :: l), s', v'.
      repeat split; [by constructor| |done]. cbn [mbind list_bind]. by rewrite <- app_assoc.
    + intros (v' & -> & l & s' & v'' & -> & Hl & -> & Hr). exists (DqChar c :: l), s', v''.
      repeat split; [|done]. by constructor.
Qed.

Lemma single_end s v ws : rest SingleQuote (squote :: s) v ws ↔ rest_of_word s v ws.
Proof. by rewrite single_cons, decide_True. Qed.
Lemma single_char c s v ws :
  c ≠ squote → rest SingleQuote (c :: s) v ws ↔ ∃ v', v = [c] ++ v' ∧ rest SingleQuote s v' ws.
Proof. intros H. by rewrite single_cons, decide_False. Qed.
Lemma double_end s v ws : rest DoubleQuote (dquote :: s) v ws ↔ rest_of_word s v ws.
Proof. by rewrite double_cons, decide_True. Qed.
Lemma double_escape s v ws : rest DoubleQuote (backslash :: s) v ws ↔ rest EscapeInDoubleQuote s v ws.
Proof. by rewrite double_cons, decide_False, decide_True. Qed.
Lemma double_char c s v ws :
  c ≠ dquote → c ≠ backslash → rest DoubleQuote (c :: s) v ws ↔ ∃ v', v = [c] ++ v' ∧ rest DoubleQuote s v' ws.
Proof. intros H1 H2. by rewrite double_cons, !decide_False. Qed.

Lemma escape_double_cons c s v ws :
  rest EscapeInDoubleQuote (c :: s) v ws ↔ ∃ v', v = dq_value (DqEscape c) ++ v' ∧ rest DoubleQuote s v' ws.
Proof.
  split.
  - intros (x & l & s' & v' & E & Hl & -> & Hr). injection E as -> ->.
    eexists. split; [done|]. by exists l, s', v'.
  - intros (v' & -> & l & s' & v'' & -> & Hl & -> & Hr). by exists c, l, s', v''.
Qed.

Lemma escape_cons c s v ws : rest EscapeNormal (c :: s) v ws ↔ ∃ v', v = c :: v' ∧ rest_of_word s v' ws.
Proof.
  split.
  - intros (x & s' & v' & E & -> & Hr). injection E as -> ->. by exists v'.
  - intros (v' & -> & Hr). by exists c, s, v'.
Qed.

(** *** The run *)
Definition accepts (st : Splitter) (s : rstr) (out : list rstr) : Prop :=
  match st.(mode) with
  | Space => ∃ ws, splits s ws ∧ out = st.(args) ++ ws
  | m => ∃ v ws, rest m s v ws ∧ out = st.(args) ++ (st.(field) ++ v) :: ws
  end.

Lemma accepts_nil st out : splitter_ok st → finish st = Some out ↔ accepts st [] out.
Proof.
  destruct st as [a fs f m]. unfold splitter_ok, finish, accepts. simpl.
  destruct m; simpl; (intros [-> ->] || intros [x ->]); simpl;
    try (split; [done|]; intros (v & ws & H & _); destruct_and?; try done).
  - split.
    + intros [= <-]. exists []. split; [constructor|by rewrite app_nil_r].
    + intros (ws & Hs & ->). inversion Hs as [| |w s ws' [Hne Hok] _ _ E]; [by rewrite app_nil_r|].
      apply app_nil in E as [E _]. by apply word_text_nil in E.
  - by destruct H as ([|[] l] & s' & v' & H & _).
  - by destruct H as (c & s' & v' & H & _).
  - by destruct H as (c & l & s' & v' & H & _).
  - setoid_rewrite rest_of_word_nil. split.
    + intros [= <-]. exists [], []. by rewrite app_nil_r.
    + intros (v & ws & [-> ->] & ->). by rewrite app_nil_r.
  - by destruct H as ([|] & s' & v' & H & _).
Qed.

(** Pushing characters to the field moves them from the value that is left. *)
Lemma shift_value (P : rstr → list rstr → Prop) a f l (out : list rstr) :
  (∃ v ws, P v ws ∧ out = a ++ ((f ++ l) ++ v) :: ws) ↔
  (∃ v ws, (∃ v', v = l ++ v' ∧ P v' ws) ∧ out = a ++ (f ++ v) :: ws).
Proof.
  split.
  - intros (v & ws & H & ->). exists (l ++ v), ws. split; [by exists v|]. by rewrite app_assoc.
  - intros (v & ws & (v' & -> & H) & ->). exists v', ws. split; [done|]. by rewrite app_assoc.
Qed.

Lemma plain_ok c :
  c ≠ dquote → c ≠ squote → c ≠ backslash → is_space c = false → part_ok (PChar c).
Proof. done. Qed.

Ltac shift := match goal with
  | |- (∃ v ws, rest_of_word _ v ws ∧ _ = _ ++ ((_ ++ ?l) ++ v) :: ws) ↔ _ =>
      rewrite (shift_value (λ v ws, rest_of_word _ v ws) _ _ l)
  | |- (∃ v ws, rest ?m ?s v ws ∧ _ = _ ++ ((_ ++ ?l) ++ v) :: ws) ↔ _ =>
      rewrite (shift_value (λ v ws, rest m s v ws) _ _ l)
  end.

(** In a space the first character of a word opens the field. *)
Lemma accepts_open a s c (out : list rstr) :
  is_space c = false →
  (∃ ws, splits (c :: s) ws ∧ out = a ++ ws) ↔ (∃ v ws, rest_of_word (c :: s) v ws ∧ out = a ++ ([] ++ v) :: ws).
Proof.
  intros Hc. setoid_rewrite splits_cons. rewrite Hc. split.
  - intros (? & (v & ws & -> & H) & ->). by exists v, ws.
  - intros (v & ws & H & ->). exists (v :: ws). split; [by exists v, ws|done].
Qed.

Lemma split_step_accepts st index c s st' out :
  splitter_ok st → split_step st index c = Some st' → accepts st' s out ↔ accepts st (c :: s) out.
Proof.
  destruct st as [a fs f m]. unfold splitter_ok, split_step, accepts, push_field. cbn -[rest]. intros Hok.
  destruct m; cbn -[rest] in *.
  - destruct Hok as [-> ->]. case_decide as Hd; [subst|case_decide as Hb; [subst|case_decide as Hq; [subst|]]].
    + intros [= <-]. rewrite accepts_open by done. cbn -[rest]. by setoid_rewrite rest_double.
    + intros [= <-]. rewrite accepts_open by done. cbn -[rest]. by setoid_rewrite rest_escape.
    + intros [= <-]. rewrite accepts_open by done. cbn -[rest]. by setoid_rewrite rest_single.
    + destruct (is_space c) eqn:Hs; intros [= <-]; cbn -[rest].
      * setoid_rewrite splits_cons. by rewrite Hs.
      * rewrite accepts_open by done. pose proof (shift_value (λ v ws, rest_of_word s v ws) a [] [c] out) as H.
        cbn -[rest] in *. rewrite H. by setoid_rewrite (rest_plain c _ _ _ (plain_ok c Hd Hq Hb Hs)).
  - destruct Hok as [x ->]. case_decide as Hd; [subst|case_decide as Hb; [subst|]]; intros [= <-]; cbn -[rest].
    + by setoid_rewrite double_end.
    + by setoid_rewrite double_escape.
    + shift. by setoid_rewrite (double_char c _ _ _ Hd Hb).
  - destruct Hok as [x ->]. intros [= <-]. cbn -[rest]. shift. by setoid_rewrite escape_cons.
  - destruct Hok as [x ->]. intros [= <-]. setoid_rewrite escape_double_cons. cbn -[rest].
    destruct (dq_special c); cbn -[rest]; [by shift|]. rewrite <- app_assoc. by shift.
  - destruct Hok as [x ->]. case_decide as Hd; [subst|case_decide as Hq; [subst|case_decide as Hb; [subst|]]].
    + intros [= <-]. cbn -[rest]. by setoid_rewrite rest_double.
    + intros [= <-]. cbn -[rest]. by setoid_rewrite rest_single.
    + intros [= <-]. cbn -[rest]. by setoid_rewrite rest_escape.
    + destruct (is_space c) eqn:Hs; intros [= <-]; cbn -[rest].
      * setoid_rewrite (rest_space c _ _ _ Hs). split.
        -- intros (ws & H & ->). exists [], ws. split; [done|]. by rewrite app_nil_r, <- app_assoc.
        -- intros (v & ws & [-> H] & ->). exists ws. split; [done|]. by rewrite app_nil_r, <- app_assoc.
      * shift. by setoid_rewrite (rest_plain c _ _ _ (plain_ok c Hd Hq Hb Hs)).
  - destruct Hok as [x ->]. case_decide as Hq; [subst|]; intros [= <-]; cbn -[rest].
    + by setoid_rewrite single_end.
    + shift. by setoid_rewrite (single_char c _ _ _ Hq).
Qed.

Lemma split_loop_accepts st index s out :
  splitter_ok st → (split_loop st index s ≫= finish) = Some out ↔ accepts st s out.
Proof.
  revert st index. induction s as [|c s IH]; intros st index H; [by apply accepts_nil|]. cbn [split_loop].
  destruct (split_step_ok st index c H) as (st1 & E & H1). rewrite E, IH by done. by eapply split_step_accepts.
Qed.

Lemma shellword_split_finish s :
  shellword_split s =
  Some match split_loop (mkSplitter [] None [] Space) 0 s ≫= finish with
       | Some ws => Ok ws
       | None => Err UnclosedQuote
       end.
Proof.
  unfold shellword_split, shellword_split_unclosed.
  destruct (split_loop_ok (mkSplitter [] None [] Space) 0 s) as ([a fs f m] & -> & Hok); [done|].
  unfold splitter_ok in Hok. simpl in *. unfold finish, push_field. simpl.
  destruct m; simpl in *; (destruct Hok as [-> ->] || destruct Hok as [[x q] ->]); done.
Qed.

(** [C32] A text is split into words exactly if it is a sequence of words in the sense
    of the grammar - plain characters, characters behind a backslash, parts in single
    quotes, where nothing is escaped, and parts in double quotes, where the backslash
    escapes five characters and stands for itself before any other - separated by
    spaces, tabs and line feeds, and then these are the words. Any other text has an
    unclosed quote and is an error; no text is a panic. *)
Theorem shellword_split_grammar s :
  match shellword_split s with
  | Some (Ok ws) => splits s ws ∧ ∀ ws', splits s ws' → ws' = ws
  | Some (Err _) => ∀ ws, ¬ splits s ws
  | None => False
  end.
Proof.
  rewrite shellword_split_finish.
  pose proof (split_loop_accepts (mkSplitter [] None [] Space) 0 s) as H. unfold accepts in H. simpl in H.
  assert (∀ out, (split_loop (mkSplitter [] None [] Space) 0 s ≫= finish) = Some out ↔ splits s out) as H'.
  { intros out. rewrite H by done. split; [by intros (ws & ? & ->)|by intros ?; exists out]. }
  destruct (_ ≫= finish) as [ws|].
  - split; [by apply H'|]. intros ws' Hs. apply H' in Hs. congruence.
  - intros ws Hs. apply H' in Hs. done.
Qed.

(** The tests of the source. *)
Example shellword_tests :
  shellword_split (lit "ls /e't''c'") = Some (Ok [lit "ls"; lit "/etc"]) ∧
  shellword_split (lit "ls /etc\ \08x") = Some (Ok [lit "ls"; lit "/etc 08x"]) ∧
  shellword_split (lit "ls " ++ [dquote] ++ lit "/etc \08x" ++ [dquote]) = Some (Ok [lit "ls"; lit "/etc \08x"]) ∧
  shellword_split_unclosed (lit "ls './File1 name with spaces") false
  = Some ([lit "ls"], Some (3, lit "./File1 name with spaces", QSingle)).
Proof. repeat split. Qed.
