(* ===== verification/Cli.v ===== *)
(** * Cli: command line arguments and commands

    Models [proxmox-router/src/cli]: the two parsers of options of [getopts.rs], the
    search for commands with aliases and abbreviations of [mod.rs] and [command.rs],
    and both drivers, [handle_command] and [CommandLine] with its global options, up
    to the call of the handler. [None] is a panic, which the definitions of the
    commands can cause but no argument. Usage texts, completion and the help command
    are not modelled. Hash maps are lists by key; the order in which the fixed
    parameters of a command and the types of global options are visited is that of
    their list. *)
From S2P Require Import Prelude F64 Json Schema ObjectSchema.

Definition dash : rchar := 45%N.
Definition equals : rchar := 61%N.
Definition separator : rstr := [dash; dash].

Inductive CliError :=
| MissingBoolean | MissingValue | MissingArgument | UnknownOption
| SchemaErr (e : SError).

Abbreviation cli_errors := (list (rstr * CliError)).

(** What a loop over arguments collects: options, other arguments and errors. *)
Definition Collected : Type := list (rstr * rstr) * list rstr * cli_errors.
Definition add_option (kv : rstr * rstr) (c : Collected) : Collected := let '(d, r, e) := c in (kv :: d, r, e).
Definition add_argument (a : rstr) (c : Collected) : Collected := let '(d, r, e) := c in (d, a :: r, e).
Definition add_error (ke : rstr * CliError) (c : Collected) : Collected := let '(d, r, e) := c in (d, r, ke :: e).

(** ** [getopts.rs] *)
Inductive RawArgument :=
| Separator
| Argument (value : rstr)
| RawOption (name : rstr) (value : option rstr).

Definition raw_option (s : rstr) : RawArgument :=
  match split_once equals s with
  | Some (name, value) => RawOption name (Some value)
  | None => RawOption s None
  end.

Definition parse_argument (arg : rstr) : RawArgument :=
  match arg with
  | c0 :: c1 :: s =>
      if decide (c0 = dash) then
        if decide (c1 = dash) then match s with [] => Separator | _ => raw_option s end
        else raw_option (c1 :: s)
      else Argument arg
  | _ => Argument arg
  end.

(** The loop over the properties of an option without a value: whether it wants a
    boolean and whether it can be given alone. *)
Fixpoint scan_properties (l : list (entry * list (rstr * rstr))) (want_bool can_default : bool) : bool * bool :=
  match l with
  | [] => (want_bool, can_default)
  | ((_, _, SBoolean d), _) :: l => scan_properties l true (can_default && negb (bool_decide (d = Some true)))
  | _ :: _ => (false, false)
  end.

Definition is_array (s : Schema) : bool := match s with SArray _ _ _ => true | _ => false end.

Section Getopts.
Context `{F64Text} (schema : Schema).

Definition option_kind (name : rstr) : bool * bool :=
  match lookup_all schema name [] with
  | [] => (false, false)
  | l => scan_properties l false true
  end.

(** Whether the next argument is one that is not an option, and whether it is a boolean. *)
Definition next_kind (args : list rstr) : bool * bool :=
  match args with
  | next :: _ => match parse_argument next with
                 | Argument _ => (true, is_ok (parse_boolean next))
                 | _ => (false, false)
                 end
  | [] => (false, false)
  end.

Fixpoint parse_argument_list (args : list rstr) : Collected :=
  match args with
  | [] => ([], [], [])
  | arg :: args' =>
      match parse_argument arg with
      | Separator => ([], args, [])
      | RawOption name None =>
          let '(want_bool, can_default) := option_kind name in
          let '(next_is_argument, next_is_bool) := next_kind args' in
          let with_next := match args' with
                           | next :: rest => add_option (name, next) (parse_argument_list rest)
                           | [] => ([], [], [])
                           end in
          if want_bool then
            if next_is_bool then with_next
            else if can_default then add_option (name, lit "true") (parse_argument_list args')
            else add_error (name, MissingBoolean) (parse_argument_list args')
          else if next_is_argument then with_next
          else add_error (name, MissingValue) (parse_argument_list args')
      | RawOption name (Some v) => add_option (name, v) (parse_argument_list args')
      | Argument value => add_argument value (parse_argument_list args')
      end
  end.

(** The first loop of [parse_arguments]: whether the last positional parameter is
    optional and whether it is an array. *)
Fixpoint arg_param_flags (names : list rstr) : option (bool * bool) :=
  match names with
  | [] => Some (false, false)
  | name :: names' =>
      match lookup_all schema name [] with
      | [] => None
      | ((_, optional, s), _) :: _ =>
          match names' with
          | [] => Some (optional, is_array s)
          | _ => if optional then None else arg_param_flags names'
          end
      end
  end.

(** The loop that gives the arguments to the positional parameters. *)
Fixpoint assign_arguments (names : list rstr) (last_optional last_array : bool) (remaining : list rstr) : Collected :=
  match names with
  | [] => ([], remaining, [])
  | name :: names' =>
      let is_last := bool_decide (names' = []) in
      match remaining with
      | [] =>
          let c := assign_arguments names' last_optional last_array [] in
          if is_last && last_optional then c else add_error (name, MissingArgument) c
      | value :: rest =>
          if is_last && last_array then (map (λ v, (name, v)) remaining, [], [])
          else add_option (name, value) (assign_arguments names' last_optional last_array rest)
      end
  end.

Definition parse_arguments (args arg_param : list rstr) (fixed_param : list (rstr * rstr))
    : option (result (Value * list rstr) cli_errors) :=
  match arg_param_flags arg_param with
  | None => None
  | Some (last_optional, last_array) =>
      let '(data, remaining, errors) := parse_argument_list args in
      let '(data', remaining, errors') := assign_arguments arg_param last_optional last_array remaining in
      match errors ++ errors' with
      | [] =>
          Some (let? options := map_err (map (λ ke, (ke.1, SchemaErr ke.2)))
                                  (parse_parameter_strings schema (data ++ data' ++ fixed_param) true) in
                Ok (options, remaining))
      | errs => Some (Err errs)
      end
  end.
End Getopts.

(** [ParseOptions] *)
Record ParseOptions := mkOptions {
  option_schemas : list (rstr * Schema);
  stop_at_positional : bool;
  stop_at_unknown : bool;
  deny_unknown : bool;
  retain_unknown : bool;
  retain_separator : bool;
}.

(** An option with the value behind its equals sign. *)
Definition split_option (opt : rstr) : rstr * option rstr :=
  match split_once equals opt with
  | Some (option, value) => (option, Some value)
  | None => (opt, None)
  end.

Section ParseOptions.
Variable o : ParseOptions.

(** The loop of [ParseOptions::parse]. *)
Fixpoint parse_options_loop (args : list rstr) : Collected :=
  match args with
  | [] => ([], [], [])
  | arg :: args' =>
      if decide (arg = separator) then ([], (if o.(retain_separator) then [arg] else []) ++ args', [])
      else
        match strip_prefix separator arg with
        | None => if o.(stop_at_positional) then ([], args, []) else add_argument arg (parse_options_loop args')
        | Some opt =>
            let '(option, value) := split_option opt in
            let with_value :=
              match value with
              | Some v => add_option (option, v) (parse_options_loop args')
              | None =>
                  match bt_get option o.(option_schemas) with
                  | Some (SBoolean d) =>
                      let alone :=
                        let c := add_option (option, lit "true") (parse_options_loop args') in
                        if bool_decide (d = Some true) then add_error (option, MissingBoolean) c else c in
                      match args' with
                      | next :: rest =>
                          if is_ok (parse_boolean next) then add_option (option, next) (parse_options_loop rest)
                          else alone
                      | [] => alone
                      end
                  | _ =>
                      match args' with
                      | next :: rest => add_option (option, next) (parse_options_loop rest)
                      | [] => ([], [], [(option, MissingValue)])
                      end
                  end
              end in
            match bt_get option o.(option_schemas) with
            | Some _ => with_value
            | None =>
                if o.(retain_unknown) then add_argument arg (parse_options_loop args')
                else if o.(deny_unknown) then
                  if o.(stop_at_unknown) then ([], args, []) else add_error (option, UnknownOption) with_value
                else with_value
            end
        end
  end.

(** [ParseOptions::parse]: the options and the positional arguments. *)
Definition parse_options (args : list rstr) : result (list (rstr * rstr) * list rstr) cli_errors :=
  match parse_options_loop args with
  | (target, positional, []) => Ok (target, positional)
  | (_, _, errors) => Err errors
  end.
End ParseOptions.

(** ** Commands *)
Record CliCommand := mkCommand {
  parameters : Schema;
  arg_param : list rstr;
  fixed_param : list (rstr * rstr);
}.

(** [CommandLineInterface] with [CliCommandMap]; global options are listed with the
    id of their type. *)
Unset Elimination Schemes.
Inductive CommandLineInterface :=
| Simple (cli_cmd : CliCommand)
| Nested (commands : list (rstr * CommandLineInterface)) (aliases : list (list rstr * list rstr))
    (global_options : list (N * Schema)).
Set Elimination Schemes.

Inductive CommandError :=
| NoCommand | NoSuchCommand (command : rstr)
| ArgumentErrors (errors : cli_errors)
| AdditionalArguments (remaining : list rstr)
| NotDeserialized (type_id : N).

(** [CliCommandMap::find_command]: the name of the command. *)
Definition find_command (names : list rstr) (name : rstr) : option rstr :=
  if decide (name ∈ names) then Some name
  else match filter (λ cmd, is_Some (strip_prefix name cmd)) names with
       | [cmd] => Some cmd
       | _ => None
       end.

(** What is done with the command of a name. *)
Definition with_command {B} (f : CommandLineInterface → B) (name : rstr)
    : list (rstr * CommandLineInterface) → option B :=
  fix search commands :=
    match commands with
    | [] => None
    | (n, c) :: commands' => if decide (n = name) then Some (f c) else search commands'
    end.

Fixpoint replace_aliases (args : list rstr) (aliases : list (list rstr * list rstr)) : list rstr :=
  match aliases with
  | [] => args
  | (old, new) :: aliases' =>
      if (length args <? length old)%nat then replace_aliases args aliases'
      else if decide (take (length old) args = old) then new ++ drop (length old) args
      else replace_aliases args aliases'
  end.

Definition space : rstr := [32%N].

(** [parse_nested_command], for both kinds of interfaces: the prefix, the command and
    its arguments. *)
Fixpoint parse_nested_command (cli : CommandLineInterface) (prefix : rstr) (args : list rstr)
    : result (rstr * CliCommand * list rstr) CommandError :=
  match cli with
  | Simple cli_cmd => Ok (prefix, cli_cmd, args)
  | Nested commands aliases _ =>
      match replace_aliases args aliases with
      | [] => Err NoCommand
      | command :: args =>
          match find_command commands.*1 command with
          | None => Err (NoSuchCommand command)
          | Some name =>
              default (Err (NoSuchCommand command))
                (with_command (λ sub, parse_nested_command sub (prefix ++ space ++ command) args) name commands)
          end
      end
  end.

Section Commands.
Context `{F64Text}.

(** [parse_arguments] of [command.rs]. *)
Definition command_arguments (cli_cmd : CliCommand) (args : list rstr) : option (result Value CommandError) :=
  match parse_arguments cli_cmd.(parameters) args cli_cmd.(arg_param) cli_cmd.(fixed_param) with
  | None => None
  | Some (Err errors) => Some (Err (ArgumentErrors errors))
  | Some (Ok (params, [])) => Some (Ok params)
  | Some (Ok (_, remaining)) => Some (Err (AdditionalArguments remaining))
  end.

(** The handler of a command is called with its parameters. *)
Definition Call : Type := rstr * CliCommand * Value.

Definition handle_simple_command (prefix : rstr) (cli_cmd : CliCommand) (args : list rstr)
    : option (result Call CommandError) :=
  match command_arguments cli_cmd args with
  | None => None
  | Some r => Some (let? params := r in Ok (prefix, cli_cmd, params))
  end.

(** [handle_command] *)
Definition handle_command (def : CommandLineInterface) (prefix : rstr) (args : list rstr)
    : option (result Call CommandError) :=
  match def with
  | Simple cli_cmd => handle_simple_command prefix cli_cmd args
  | Nested _ _ _ =>
      match parse_nested_command def prefix args with
      | Err e => Some (Err e)
      | Ok (prefix, cli_cmd, args) => handle_simple_command prefix cli_cmd args
      end
  end.

(** ** [CommandLine]: global options *)

(** Whether [serde_json] makes a value of the type of a global option. *)
Variable deserializes : N → Value → bool.

(** [all_properties] of a schema, those of all variants. *)
Fixpoint every_property (s : Schema) : list entry :=
  match s with
  | SObject _ properties _ _ => properties
  | SAllOf l => flat_map every_property l
  | SOneOf type_property optional type_schema variants =>
      (type_property, optional, type_schema) :: flat_map (λ v, every_property v.2) variants
  | _ => []
  end.

(** [GlobalOptions::properties]: the first property of each name. *)
Fixpoint first_of_name (seen : list rstr) (l : list entry) : list (rstr * Schema) :=
  match l with
  | [] => []
  | (name, _, s) :: l =>
      if decide (name ∈ seen) then first_of_name seen l else (name, s) :: first_of_name (name :: seen) l
  end.

Definition is_object (s : Schema) : bool :=
  match s with SObject _ _ _ _ | SAllOf _ | SOneOf _ _ _ _ => true | _ => false end.

Definition global_properties (s : Schema) : option (list (rstr * Schema)) :=
  if is_object s then Some (first_of_name [] (every_property s)) else None.

Section IdMap.
Context {V : Type}.
Definition id_insert (id : N) (v : V) (m : list (N * V)) : list (N * V) := filter (λ kv, kv.1 ≠ id) m ++ [(id, v)].
End IdMap.

(** [CommandLineParseState] *)
Record CommandLineParseState := mkState {
  ps_prefix : rstr;
  global_option_schemas : list (rstr * Schema);
  global_option_values : list (rstr * rstr);
  global_option_types : list (N * Schema);
}.

Fixpoint insert_schemas (schemas props : list (rstr * Schema)) : option (list (rstr * Schema)) :=
  match props with
  | [] => Some schemas
  | (name, s) :: props =>
      match bt_get name schemas with
      | Some _ => None
      | None => insert_schemas (bt_insert name s schemas) props
      end
  end.

Definition enable_global_options (globals : list (N * Schema)) (st : CommandLineParseState) : option CommandLineParseState :=
  foldl (λ st entry,
    match st with
    | None => None
    | Some st =>
        let types := foldl (λ m e, id_insert e.1 e.2 m) st.(global_option_types) globals in
        match global_properties entry.2 ≫= insert_schemas st.(global_option_schemas) with
        | Some schemas => Some (mkState st.(ps_prefix) schemas st.(global_option_values) types)
        | None => None
        end
    end) (Some st) globals.

Definition handle_current_global_options (args : list rstr) (needs_subcommand : bool) (st : CommandLineParseState)
    : result (CommandLineParseState * list rstr) CommandError :=
  let o := mkOptions st.(global_option_schemas) needs_subcommand false needs_subcommand (negb needs_subcommand) false in
  let? '(global_args, args) := map_err ArgumentErrors (parse_options o args) in
  let values := foldl (λ m kv, bt_insert kv.1 kv.2 m) st.(global_option_values) global_args in
  Ok (mkState st.(ps_prefix) st.(global_option_schemas) values st.(global_option_types), args).

(** The global options of the environment, by the id of their type. *)
Definition Globals : Type := list (N * Value).

(** The loop of [parse_option_entry]: known parameters are taken from the values. *)
Fixpoint take_params (names : list rstr) (values : list (rstr * rstr)) : list (rstr * rstr) * list (rstr * rstr) :=
  match names with
  | [] => ([], values)
  | name :: names =>
      match bt_get name values with
      | Some v => let '(params, values) := take_params names (bt_remove name values) in ((name, v) :: params, values)
      | None => take_params names values
      end
  end.

Definition parse_option_entry (id : N) (s : Schema) (env : Globals) (values : list (rstr * rstr))
    : option (result (Globals * list (rstr * rstr)) CommandError) :=
  match s with
  | SObject _ _ _ _ | SAllOf _ =>
      let '(params, values) := take_params (every_property s).*1.*1 values in
      Some match parse_parameter_strings s params true with
           | Err errors => Err (ArgumentErrors (map (λ ke, (ke.1, SchemaErr ke.2)) errors))
           | Ok value => if deserializes id value then Ok (id_insert id value env, values) else Err (NotDeserialized id)
           end
  | _ => None
  end.

Fixpoint build_global_options (types : list (N * Schema)) (env : Globals) (values : list (rstr * rstr))
    : option (result Globals CommandError) :=
  match types with
  | [] => Some (Ok env)
  | (id, s) :: types =>
      match parse_option_entry id s env values with
      | Some (Ok (env, values)) => build_global_options types env values
      | Some (Err e) => Some (Err e)
      | None => None
      end
  end.

(** [Invocation]: the command that is called, with its arguments. *)
Record Invocation := mkInvocation { inv_prefix : rstr; inv_command : CliCommand; inv_args : list rstr }.

Definition parse_simple (cli_cmd : CliCommand) (st : CommandLineParseState) (env : Globals) (args : list rstr)
    : option (result (Globals * Invocation) CommandError) :=
  match handle_current_global_options args false st with
  | Err e => Some (Err e)
  | Ok (st, args) =>
      match build_global_options st.(global_option_types) env st.(global_option_values) with
      | None => None
      | Some (Err e) => Some (Err e)
      | Some (Ok env) => Some (Ok (env, mkInvocation st.(ps_prefix) cli_cmd args))
      end
  end.

(** [parse_do] and [parse_nested] *)
Fixpoint parse_do (cli : CommandLineInterface) (st : CommandLineParseState) (env : Globals) (args : list rstr)
    : option (result (Globals * Invocation) CommandError) :=
  match cli with
  | Simple cli_cmd => parse_simple cli_cmd st env args
  | Nested commands aliases globals =>
      let args := replace_aliases args aliases in
      match enable_global_options globals st with
      | None => None
      | Some st =>
          match handle_current_global_options args true st with
          | Err e => Some (Err e)
          | Ok (st, []) => Some (Err NoCommand)
          | Ok (st, command :: args) =>
              match find_command commands.*1 command with
              | None => Some (Err (NoSuchCommand command))
              | Some name =>
                  let st := mkState (st.(ps_prefix) ++ space ++ command) st.(global_option_schemas)
                              st.(global_option_values) st.(global_option_types) in
                  default (Some (Err (NoSuchCommand command)))
                    (with_command (λ sub, parse_do sub st env args) name commands)
              end
          end
      end
  end.

Definition command_line_parse (interface : CommandLineInterface) (prefix : rstr) (args : list rstr)
    : option (result (Globals * Invocation) CommandError) :=
  parse_do interface (mkState prefix [] [] []) [] args.

Definition invocation_call (i : Invocation) : option (result Call CommandError) :=
  handle_simple_command i.(inv_prefix) i.(inv_command) i.(inv_args).

(** [CommandLine::try_run] without a callback. *)
Definition command_line_run (interface : CommandLineInterface) (prefix : rstr) (args : list rstr)
    : option (result Call CommandError) :=
  match command_line_parse interface prefix args with
  | None => None
  | Some (Err e) => Some (Err e)
  | Some (Ok (_, i)) => invocation_call i
  end.
End Commands.

(** [prepare_cli_command]: the name of the program without its path, or one of the
    special commands. *)
Inductive Prepared := BashComplete | PrintDoc | RunCommand (prefix : rstr) (args : list rstr).

Definition prepare_cli_command (argv : list rstr) : option Prepared :=
  match argv with
  | [] => None
  | program :: args =>
      let prefix := default [] (last (split_on 47%N program)) in
      Some (if decide (head args = Some (lit "bashcomplete")) then BashComplete
            else if decide (head args = Some (lit "printdoc")) then PrintDoc
            else RunCommand prefix args)
  end.
