(* ===== verification/CliTheory.v ===== *)
(** * CliTheory: what a command line means

    A command line in a canonical form (options as [--name=value]) gives its command
    exactly the parameters that are written; the two drivers agree on command lines
    without global options; global options are found wherever they stand. *)
From S2P Require Import Prelude F64 Json Schema ObjectSchema Cli.

(** ** Canonical arguments *)
Inductive Item := IOption (name value : rstr) | IArgument (value : rstr).

Definition long_option (name value : rstr) : rstr := separator ++ name ++ equals :: value.
Definition item_text (i : Item) : rstr :=
  match i with IOption name value => long_option name value | IArgument value => value end.
Definition item_ok (i : Item) : Prop :=
  match i with IOption name _ => equals ∉ name | IArgument value => parse_argument value = Argument value end.

Definition item_options (l : list Item) : list (rstr * rstr) :=
  omap (λ i, match i with IOption n v => Some (n, v) | IArgument _ => None end) l.
Definition item_arguments (l : list Item) : list rstr :=
  omap (λ i, match i with IOption _ _ => None | IArgument v => Some v end) l.

Lemma split_once_mid n v : equals ∉ n → split_once equals (n ++ equals :: v) = Some (n, v).
Proof. intros H. by apply split_once_iff. Qed.

Lemma parse_argument_long n v : equals ∉ n → parse_argument (long_option n v) = RawOption n (Some v).
Proof.
  intros H. unfold parse_argument, long_option. simpl.
  assert (∃ c s, n ++ equals :: v = c :: s) as (c & s & E) by (destruct n; simpl; eauto).
  rewrite E. rewrite <- E. unfold raw_option. by rewrite split_once_mid.
Qed.

(** An argument that is not an option, in the sense of either parser. *)
Lemma argument_not_option a : parse_argument a = Argument a → strip_prefix separator a = None.
Proof.
  intros H. destruct (strip_prefix separator a) as [s|] eqn:E; [|done]. apply strip_prefix_Some in E as ->.
  unfold parse_argument in H. simpl in H. destruct s; [done|].
  unfold raw_option in H. by destruct (split_once _ _) as [[]|].
Qed.

Lemma long_option_prefix n v : strip_prefix separator (long_option n v) = Some (n ++ equals :: v).
Proof. apply strip_prefix_app. Qed.

Lemma long_option_not_separator n v : long_option n v ≠ separator.
Proof. unfold long_option, separator. intros [=]. by destruct n. Qed.

(** ** Arguments of a command *)
Section Arguments.
Context `{F64Text} (schema : Schema).

Lemma parse_argument_list_items items :
  Forall item_ok items →
  parse_argument_list schema (item_text <$> items) = (item_options items, item_arguments items, []).
Proof.
  induction 1 as [|i items Hi _ IH]; [done|]. rewrite fmap_cons. cbn [parse_argument_list].
  destruct i as [n v|v]; simpl in Hi.
  - cbn [item_text]. rewrite parse_argument_long, IH by done. done.
  - cbn [item_text]. rewrite Hi, IH. done.
Qed.

(** The names that the positional arguments get, in their order: those of the
    positional parameters, the last one again for what is left if it is an array. *)
Definition positional_names (a : bool) (names args : list rstr) : list rstr :=
  names ++ (if a then replicate (length args - length names) (default [] (last names)) else []).

(** The positional parameters that must have an argument: all but an optional last one. *)
Definition required_names (o : bool) (names : list rstr) : list rstr :=
  take (length names - if o then 1 else 0) names.

(** The required parameters that get no argument, and the arguments without a parameter. *)
Definition missing_names (o : bool) (names args : list rstr) : list rstr :=
  drop (length args) (required_names o names).
Definition extra_arguments (a : bool) (names args : list rstr) : list rstr :=
  if a then [] else drop (length names) args.

Lemma assign_arguments_cons name names o a args :
  names ≠ [] →
  assign_arguments (name :: names) o a args =
  match args with
  | [] => add_error (name, MissingArgument) (assign_arguments names o a [])
  | v :: args' => add_option (name, v) (assign_arguments names o a args')
  end.
Proof. intros Hn. simpl. by rewrite bool_decide_eq_false_2. Qed.

Lemma assign_arguments_spec names o a args :
  (names = [] → o = false ∧ a = false) →
  assign_arguments names o a args =
  (zip (positional_names a names args) args, extra_arguments a names args,
   (λ n, (n, MissingArgument)) <$> missing_names o names args).
Proof.
  revert args. induction names as [|name names IH]; intros args Hne.
  { destruct (Hne eq_refl) as [-> ->]. unfold missing_names, required_names. simpl. by rewrite drop_nil. }
  destruct names as [|name' names].
  - destruct args as [|v args]; [by destruct o, a|].
    unfold missing_names, extra_arguments, positional_names. simpl. rewrite Nat.sub_0_r.
    destruct a; simpl; destruct o; simpl; rewrite ?drop_nil; try done;
      f_equal; f_equal; f_equal; clear; by induction args as [|x args IH]; simpl; f_equal.
  - rewrite assign_arguments_cons by done.
    assert (required_names o (name :: name' :: names) = name :: required_names o (name' :: names)) as Hr.
    { unfold required_names. destruct o; simpl; by rewrite ?Nat.sub_0_r. }
    destruct args as [|v args]; rewrite IH by done; unfold missing_names; rewrite Hr; [|by destruct a].
    unfold positional_names, extra_arguments. simpl. by destruct a.
Qed.

Lemma arg_param_flags_nil o a names : arg_param_flags schema names = Some (o, a) → names = [] → o = false ∧ a = false.
Proof. intros Hf ->. by simplify_eq/=. Qed.

Definition parameters_of (a : bool) (names : list rstr) (fixed : list (rstr * rstr)) (items : list Item) : list (rstr * rstr) :=
  item_options items ++ zip (positional_names a names (item_arguments items)) (item_arguments items) ++ fixed.

Lemma parse_arguments_items items names fixed o a :
  Forall item_ok items → arg_param_flags schema names = Some (o, a) →
  parse_arguments schema (item_text <$> items) names fixed =
  Some match missing_names o names (item_arguments items) with
       | [] => let? options := map_err (map (λ ke, (ke.1, SchemaErr ke.2)))
                                 (parse_parameter_strings schema (parameters_of a names fixed items) true) in
               Ok (options, extra_arguments a names (item_arguments items))
       | missing => Err ((λ n, (n, MissingArgument)) <$> missing)
       end.
Proof.
  intros Hi Hf. unfold parse_arguments. rewrite Hf, parse_argument_list_items by done.
  rewrite assign_arguments_spec by (by eapply arg_param_flags_nil). cbn [app].
  by destruct (missing_names _ _ _).
Qed.
End Arguments.

(** ** Commands *)
Lemma CommandLineInterface_ind (P : CommandLineInterface → Prop) :
  (∀ c, P (Simple c)) → (∀ cs al gl, Forall (λ nc, P nc.2) cs → P (Nested cs al gl)) → ∀ cli, P cli.
Proof.
  intros Hs Hn. fix rec 1. intros [c|cs al gl]; [apply Hs|apply Hn].
  induction cs as [|[n c] cs IH]; constructor; [apply rec|exact IH].
Qed.

(** A command is found by its name, or by a prefix that no other command has. *)
Lemma find_command_spec names w n :
  NoDup names →
  find_command names w = Some n ↔
  n ∈ names ∧ (n = w ∨ (w ∉ names) ∧ w `prefix_of` n ∧ ∀ n', n' ∈ names → w `prefix_of` n' → n' = n).
Proof.
  intros Hnd. assert (∀ cmd, is_Some (strip_prefix w cmd) ↔ w `prefix_of` cmd) as Hpre.
  { intros cmd. split; [intros [r E%strip_prefix_Some]; by exists r|intros [r ->]; by rewrite strip_prefix_app]. }
  unfold find_command. case_decide as Hin.
  { split; [intros [= <-]; auto|]. intros [_ [->|[? _]]]; done. }
  assert (∀ n', n' ∈ filter (λ cmd, is_Some (strip_prefix w cmd)) names ↔ n' ∈ names ∧ w `prefix_of` n') as Hf.
  { intros n'. rewrite list_elem_of_filter, Hpre. tauto. }
  pose proof (NoDup_filter (λ cmd, is_Some (strip_prefix w cmd)) _ Hnd) as Hnd'.
  destruct (filter _ names) as [|c1 [|c2 l]].
  - split; [done|]. intros [Hn [->|(_ & Hp & _)]]; [done|]. destruct (not_elem_of_nil n). by apply Hf.
  - split.
    + intros [= <-]. destruct (proj1 (Hf c1) ltac:(by left)) as [H1 H2]. split; [done|]. right. split; [done|].
      split; [done|]. intros n' H3 H4. by apply list_elem_of_singleton, Hf.
    + intros [Hn [->|(_ & Hp & _)]]; [done|]. f_equal. symmetry. by apply list_elem_of_singleton, Hf.
  - split; [done|]. intros [Hn [->|(_ & Hp & Hu)]]; [done|].
    destruct (proj1 (Hf c1) ltac:(by left)) as [H1 H2]. destruct (proj1 (Hf c2) ltac:(right; by left)) as [H3 H4].
    rewrite (Hu _ H1 H2), (Hu _ H3 H4) in Hnd'. apply NoDup_cons in Hnd' as [Hx _]. by destruct Hx; left.
Qed.

Lemma find_command_in names w n : find_command names w = Some n → n ∈ names ∧ w `prefix_of` n.
Proof.
  unfold find_command. case_decide as Hin; [by intros [= <-]|].
  destruct (filter _ names) as [|c1 [|c2 l]] eqn:E; try done. intros [= <-].
  assert (c1 ∈ filter (λ cmd, is_Some (strip_prefix w cmd)) names) as Hc by (rewrite E; by left).
  apply list_elem_of_filter in Hc as [[r Hr%strip_prefix_Some] Hc]. split; [done|]. by exists r.
Qed.

Lemma with_command_in {B} (f : CommandLineInterface → B) name commands :
  name ∈ commands.*1 → ∃ c, (name, c) ∈ commands ∧
    ∀ C (g : CommandLineInterface → C), with_command g name commands = Some (g c).
Proof.
  induction commands as [|[n c] commands IH]; [by intros []%not_elem_of_nil|]. rewrite fmap_cons, elem_of_cons. simpl.
  destruct (decide (n = name)) as [->|Hn].
  - intros _. exists c. split; [by left|done].
  - intros [->|Hin]; [done|]. destruct (IH Hin) as (c' & Hc & Hw). exists c'. split; [by right|]. intros C g. apply Hw.
Qed.

Section Commands.
Context `{F64Text} (deserializes : N → Value → bool).

(** [C31] Give a command its options in the form [--name=value] and its positional
    arguments as they are, in any order and however the command itself was found -
    by its name, an abbreviation or an alias. If a positional parameter other than an
    optional last one has no argument, the line is refused and the parameters without
    an argument are named. Otherwise the schema decides about the options, the
    arguments under the names of the positional parameters in their order, and the
    fixed parameters: if it refuses them the line is refused with its errors; if there
    are more arguments than the positional parameters take (any number if the last one
    is an array), the line is refused and names the rest; and else the handler is
    called with exactly what the schema made of them. *)
Theorem handle_command_parameters def prefix args prefix' cli_cmd items o a :
  parse_nested_command def prefix args = Ok (prefix', cli_cmd, item_text <$> items) →
  Forall item_ok items → arg_param_flags cli_cmd.(parameters) cli_cmd.(arg_param) = Some (o, a) →
  handle_command def prefix args =
  Some match missing_names o cli_cmd.(arg_param) (item_arguments items) with
       | [] =>
           match parse_parameter_strings cli_cmd.(parameters)
                   (parameters_of a cli_cmd.(arg_param) cli_cmd.(fixed_param) items) true with
           | Err errors => Err (ArgumentErrors (map (λ ke, (ke.1, SchemaErr ke.2)) errors))
           | Ok params =>
               match extra_arguments a cli_cmd.(arg_param) (item_arguments items) with
               | [] => Ok (prefix', cli_cmd, params)
               | extra => Err (AdditionalArguments extra)
               end
           end
       | missing => Err (ArgumentErrors (map (λ n, (n, MissingArgument)) missing))
       end.
Proof.
  intros Hp Hi Hf.
  assert (handle_command def prefix args = handle_simple_command prefix' cli_cmd (item_text <$> items)) as ->.
  { unfold handle_command. destruct def; [simpl in Hp; by simplify_eq|]. by rewrite Hp. }
  unfold handle_simple_command, command_arguments. erewrite parse_arguments_items by done.
  destruct (missing_names _ _ _); [|done]. destruct (parse_parameter_strings _ _ _); [|done]. simpl.
  by destruct (extra_arguments _ _ _).
Qed.

(** ** The two drivers *)

(** Interfaces without global options, whose commands do not look like options. *)
Fixpoint plain_cli (cli : CommandLineInterface) : Prop :=
  match cli with
  | Simple _ => True
  | Nested commands aliases globals =>
      globals = [] ∧ Forall (λ n, ¬ separator `prefix_of` n) commands.*1 ∧
      Forall (λ on, separator ∉ on.2) aliases ∧ foldr (λ nc P, plain_cli nc.2 ∧ P) True commands
  end.

Lemma plain_commands (commands : list (rstr * CommandLineInterface)) :
  foldr (λ nc P, plain_cli nc.2 ∧ P) True commands → Forall (λ nc, plain_cli nc.2) commands.
Proof. induction commands as [|nc commands IH]; simpl; [constructor|]. intros [? ?]. constructor; auto. Qed.

Lemma replace_aliases_no_separator args aliases :
  separator ∉ args → Forall (λ on, separator ∉ on.2) aliases → separator ∉ replace_aliases args aliases.
Proof.
  intros Ha. induction 1 as [|[old new] aliases Hn _ IH]; simpl; [done|].
  destruct (_ <? _)%nat; [done|]. case_decide; [|done]. rewrite not_elem_of_app. split; [done|].
  intros Hin. apply Ha. rewrite <- (take_drop (length old) args). apply elem_of_app. by right.
Qed.

Abbreviation no_options needs := (mkOptions [] needs false needs (negb needs) false).

(** Before a command: a name is kept, an option is refused. *)
Lemma no_options_command w args :
  separator ∉ w :: args →
  if decide (separator `prefix_of` w) then ∃ e, parse_options (no_options true) (w :: args) = Err e
  else parse_options (no_options true) (w :: args) = Ok ([], w :: args).
Proof.
  intros Hs. apply not_elem_of_cons in Hs as [Hw _]. unfold parse_options. cbn [parse_options_loop].
  rewrite (decide_False (P := w = separator)) by congruence. case_decide as Hp.
  - destruct Hp as [r ->]. rewrite strip_prefix_app. destruct (split_option r) as [option value]. cbn.
    match goal with |- context [add_error ?x ?c] => destruct c as [[d p] er] end. simpl. eauto.
  - destruct (strip_prefix separator w) as [r|] eqn:E; [|done]. apply strip_prefix_Some in E as ->.
    destruct Hp. by exists r.
Qed.

(** After it: all arguments are kept. *)
Lemma no_options_rest args : separator ∉ args → parse_options (no_options false) args = Ok ([], args).
Proof.
  cbn [negb]. intros Hs. unfold parse_options.
  assert (parse_options_loop (mkOptions [] false false false true false) args = ([], args, [])) as ->; [|done].
  induction args as [|a args IH]; [done|]. apply not_elem_of_cons in Hs as [Ha Hs]. cbn [parse_options_loop].
  rewrite decide_False by congruence. specialize (IH Hs).
  destruct (strip_prefix separator a); [|simpl; by rewrite IH].
  destruct (split_option _) as [option value]. simpl. by rewrite IH.
Qed.

Lemma parse_do_plain cli : ∀ prefix env args,
  plain_cli cli → separator ∉ args →
  match parse_nested_command cli prefix args with
  | Ok (p, c, rest) => parse_do deserializes cli (mkState prefix [] [] []) env args = Some (Ok (env, mkInvocation p c rest))
  | Err _ => ∃ e, parse_do deserializes cli (mkState prefix [] [] []) env args = Some (Err e)
  end.
Proof.
  induction cli as [c|commands aliases globals IH] using CommandLineInterface_ind; intros prefix env args Hcli Hs.
  - simpl. unfold parse_simple, handle_current_global_options. cbn [global_option_schemas ps_prefix].
    by rewrite no_options_rest.
  - cbn [plain_cli] in Hcli. destruct Hcli as (-> & Hnames & Hal & Hsub). apply plain_commands in Hsub.
    apply (replace_aliases_no_separator args aliases) in Hs; [|done]. cbn [parse_nested_command parse_do].
    unfold enable_global_options, handle_current_global_options. cbn [foldl global_option_schemas].
    destruct (replace_aliases args aliases) as [|w rest]; [by exists NoCommand|].
    pose proof (no_options_command w rest Hs) as Hc. case_decide as Hp.
    + destruct Hc as [e ->]. simpl. assert (find_command commands.*1 w = None) as ->; [|eauto].
      destruct (find_command _ w) as [n|] eqn:E; [|done]. apply find_command_in in E as [Hn Hw].
      rewrite Forall_forall in Hnames. destruct (Hnames n Hn). by transitivity w.
    + rewrite Hc. simpl. destruct (find_command commands.*1 w) as [n|] eqn:E; [|eauto].
      apply find_command_in in E as [Hn _].
      destruct (with_command_in (λ _, tt) n commands Hn) as (sub & Hin & Hw). rewrite !Hw. simpl.
      rewrite Forall_forall in IH, Hsub. apply not_elem_of_cons in Hs as [_ Hs].
      apply (IH (n, sub) Hin); [exact (Hsub (n, sub) Hin)|done].
Qed.

(** Without global options, and where no argument is the separator [--], the parser
    of [CommandLine] and the older [handle_command] accept the same command lines and
    call the same command with the same parameters. *)
Theorem command_line_agrees cli prefix args call :
  plain_cli cli → separator ∉ args →
  command_line_run deserializes cli prefix args = Some (Ok call) ↔ handle_command cli prefix args = Some (Ok call).
Proof.
  intros Hcli Hs. unfold command_line_run, command_line_parse.
  pose proof (parse_do_plain cli prefix [] args Hcli Hs) as Hp.
  assert (handle_command cli prefix args = match parse_nested_command cli prefix args with
            | Err e => Some (Err e)
            | Ok (prefix, cli_cmd, args) => handle_simple_command prefix cli_cmd args end) as -> by by destruct cli.
  destruct (parse_nested_command cli prefix args) as [[[p c] rest]|e].
  - by rewrite Hp.
  - destruct Hp as [e' ->]. done.
Qed.

(** ** Global options *)

(** Whether an item is one of the known global options. *)
Definition is_global (schemas : list (rstr * Schema)) (i : Item) : bool :=
  match i with
  | IOption n _ => match bt_get n schemas with Some _ => true | None => false end
  | IArgument _ => false
  end.

Lemma parse_options_before schemas before w rest :
  Forall (λ kv, (equals ∉ kv.1) ∧ is_Some (bt_get kv.1 schemas)) before → ¬ separator `prefix_of` w →
  parse_options_loop (mkOptions schemas true false true false false)
    (((λ kv, long_option kv.1 kv.2) <$> before) ++ w :: rest) = (before, w :: rest, []).
Proof.
  intros Hb Hw. induction Hb as [|[n v] before [Hn [s Hs]] _ IH].
  - cbn [fmap list_fmap app parse_options_loop]. rewrite decide_False by (intros ->; by destruct Hw; exists []; rewrite app_nil_r).
    destruct (strip_prefix separator w) as [r|] eqn:E; [|done]. apply strip_prefix_Some in E as ->. destruct Hw. by exists r.
  - simpl in Hn, Hs. rewrite fmap_cons. cbn [app parse_options_loop fst snd].
    rewrite decide_False by apply long_option_not_separator. rewrite long_option_prefix.
    unfold split_option. rewrite split_once_mid by done. cbn [option_schemas]. rewrite Hs, IH. done.
Qed.

Lemma parse_options_items schemas items :
  Forall item_ok items →
  parse_options_loop (mkOptions schemas false false false true false) (item_text <$> items) =
  (item_options (List.filter (is_global schemas) items),
   item_text <$> List.filter (λ i, negb (is_global schemas i)) items, []).
Proof.
  induction 1 as [|[n v|v] items Hi _ IH]; [done| |]; rewrite fmap_cons; cbn [parse_options_loop item_text]; simpl in Hi.
  - rewrite decide_False by apply long_option_not_separator. rewrite long_option_prefix.
    unfold split_option. rewrite split_once_mid by done. cbn [option_schemas retain_unknown]. cbn [List.filter].
    cbn [is_global]. rewrite IH. destruct (bt_get n schemas); done.
  - rewrite (argument_not_option v Hi). rewrite decide_False; [|by intros ->].
    cbn [stop_at_positional List.filter is_global negb]. rewrite IH. done.
Qed.

Lemma enable_keeps globals st st' :
  enable_global_options globals st = Some st' →
  global_option_values st' = global_option_values st ∧ ps_prefix st' = ps_prefix st.
Proof.
  unfold enable_global_options. generalize globals at 1 as all. revert st.
  induction globals as [|e globals IH]; intros st all; simpl; [by intros [= <-]|].
  destruct (global_properties e.2 ≫= _) as [schemas|]; simpl.
  - intros Hst. by apply IH in Hst as [-> ->].
  - clear. induction globals as [|e' globals IH]; simpl; [done|exact IH].
Qed.

(** Global options may stand before and after the name of the command: those
    before it and those among its arguments are taken out of the command line, in
    their order, and their values - the last one of each name - are what the global
    options are made of; the command gets the other arguments as they are. *)
Theorem global_options_anywhere commands globals prefix st before w name cli_cmd items :
  enable_global_options globals (mkState prefix [] [] []) = Some st →
  Forall (λ kv, (equals ∉ kv.1) ∧ is_Some (bt_get kv.1 st.(global_option_schemas))) before →
  ¬ separator `prefix_of` w → find_command commands.*1 w = Some name →
  with_command id name commands = Some (Simple cli_cmd) → Forall item_ok items →
  command_line_parse deserializes (Nested commands [] globals) prefix
    (((λ kv, long_option kv.1 kv.2) <$> before) ++ w :: (item_text <$> items)) =
  match build_global_options deserializes st.(global_option_types) []
          (collect (before ++ item_options (List.filter (is_global st.(global_option_schemas)) items))) with
  | Some (Ok env) =>
      Some (Ok (env, mkInvocation (prefix ++ space ++ w) cli_cmd
                       (item_text <$> List.filter (λ i, negb (is_global st.(global_option_schemas) i)) items)))
  | Some (Err e) => Some (Err e)
  | None => None
  end.
Proof.
  intros Hst Hb Hw Hn Hc Hi. unfold command_line_parse. cbn [parse_do replace_aliases]. rewrite Hst.
  assert (global_option_values st = [] ∧ ps_prefix st = prefix) as [Hv Hp] by by apply enable_keeps in Hst.
  unfold handle_current_global_options at 1. cbn [negb]. unfold parse_options at 1.
  rewrite parse_options_before by done. cbn. rewrite Hn, Hv, Hp.
  destruct (with_command_in (λ _, tt) name commands (proj1 (find_command_in _ _ _ Hn))) as (sub & _ & Hsub).
  rewrite Hsub in *. simplify_eq/=. unfold parse_simple, handle_current_global_options, parse_options. cbn.
  rewrite parse_options_items by done. cbn. unfold collect. by rewrite foldl_app.
Qed.
End Commands.

(** ** Runs *)
Definition any_string : Schema := SString {| min_length := None; max_length := None; format := None; format_is_optional := false |}.
Definition show_command : CliCommand :=
  mkCommand (SObject false [(lit "name", false, any_string); (lit "verbose", true, SBoolean None)] None []) [lit "name"] [].
Definition demo_cli (globals : list (N * Schema)) : CommandLineInterface :=
  Nested [(lit "list", Simple (mkCommand (SObject false [] None []) [] [])); (lit "show", Simple show_command)]
    [] globals.
Definition demo_globals : list (N * Schema) := [(1%N, SObject false [(lit "config", true, any_string)] None [])].
Definition demo_items : list Item := [IOption (lit "verbose") (lit "yes"); IArgument (lit "disk")].
Definition show_value : Value := VObject [(lit "name", VString (lit "disk")); (lit "verbose", VBool true)].

Lemma handle_command_parameters_witness :
  handle_command (H := f64_text) (demo_cli []) (lit "prog") [lit "sh"; lit "--verbose=yes"; lit "disk"] =
  Some (Ok (lit "prog sh", show_command, show_value)).
Proof.
  rewrite (handle_command_parameters (H := f64_text) (demo_cli []) (lit "prog") _ (lit "prog sh") show_command
             demo_items false false).
  - vm_compute. reflexivity.
  - reflexivity.
  - repeat constructor. by apply (bool_decide_unpack _).
  - reflexivity.
Defined.

Lemma command_line_agrees_witness :
  command_line_run (H := f64_text) (λ _ _, true) (demo_cli []) (lit "prog") [lit "sh"; lit "--verbose=yes"; lit "disk"] =
  Some (Ok (lit "prog sh", show_command, show_value)).
Proof.
  apply (command_line_agrees (H := f64_text) (λ _ _, true) (demo_cli []) (lit "prog")).
  - repeat split; repeat constructor; by intros [r [=]].
  - by apply (bool_decide_unpack _).
  - vm_compute. reflexivity.
Defined.

Lemma global_options_anywhere_witness :
  (λ r, (λ ei, (ei.1, ei.2.(inv_args))) <$> ok r) <$>
    command_line_parse (H := f64_text) (λ _ _, true) (demo_cli demo_globals) (lit "prog")
      [lit "--config=a"; lit "show"; lit "--verbose=yes"; lit "--config=b"; lit "disk"] =
  Some (Some ([(1%N, VObject [(lit "config", VString (lit "b"))])], [lit "--verbose=yes"; lit "disk"])).
Proof.
  pose proof (global_options_anywhere (H := f64_text) (λ _ _, true)
    [(lit "list", Simple (mkCommand (SObject false [] None []) [] [])); (lit "show", Simple show_command)]
    demo_globals (lit "prog") (mkState (lit "prog") [(lit "config", any_string)] [] demo_globals)
    [(lit "config", lit "a")] (lit "show") (lit "show") show_command
    [IOption (lit "verbose") (lit "yes"); IOption (lit "config") (lit "b"); IArgument (lit "disk")]) as H.
  etransitivity; [apply (f_equal (fmap (M := option) _)); apply H|].
  - reflexivity.
  - repeat constructor; [by apply (bool_decide_unpack _)|by eexists].
  - by intros [r [=]].
  - reflexivity.
  - reflexivity.
  - repeat constructor; by apply (bool_decide_unpack _).
  - vm_compute. reflexivity.
Defined.

(** The separator does not work: [handle_command] takes it as an argument of its own. *)
Lemma separator_is_argument :
  handle_command (H := f64_text) (demo_cli []) (lit "prog") [lit "show"; lit "--"; lit "-disk"] =
  Some (Err (AdditionalArguments [lit "-disk"])).
Proof. vm_compute. reflexivity. Qed.

(** [CommandLine] drops it, and what follows is read as options. *)
Lemma separator_is_lost :
  command_line_run (H := f64_text) (λ _ _, true) (demo_cli []) (lit "prog") [lit "show"; lit "--"; lit "-verbose"; lit "disk"] =
  Some (Ok (lit "prog show", show_command, show_value)).
Proof. vm_compute. reflexivity. Qed.
