(* ===== verification/Apt.v ===== *)
(** * Apt: repository files of APT

    Models the formats of [proxmox-apt/src/repositories]: the parsers of the one-line
    format ([file/list_parser.rs]) and of the stanza format ([file/sources_parser.rs]),
    the writers and the check of repositories ([repository.rs]), and parsing and writing
    of the text of a file ([file.rs]). Texts are lists of characters, but the position
    inside of a line is counted as the source counts it: [None] is a panic because the
    position is not at the start of a character. The loops over tokens have one more
    unit of fuel than the line has bytes, and every token takes at least one. *)
From S2P Require Import Prelude TextCoding.

Inductive APTRepositoryFileType := List_ | Sources.
Inductive APTRepositoryPackageType := Deb | DebSrc.

#[export] Instance APTRepositoryFileType_eq_dec : EqDecision APTRepositoryFileType.
Proof. solve_decision. Defined.
#[export] Instance APTRepositoryPackageType_eq_dec : EqDecision APTRepositoryPackageType.
Proof. solve_decision. Defined.

Definition package_type_text (t : APTRepositoryPackageType) : rstr :=
  match t with Deb => lit "deb" | DebSrc => lit "deb-src" end.
Definition package_type_from_str (s : rstr) : option APTRepositoryPackageType :=
  if decide (s = lit "deb") then Some Deb else if decide (s = lit "deb-src") then Some DebSrc else None.

Record APTRepositoryOption := mkOption { opt_key : rstr; opt_values : list rstr }.

Record APTRepository := mkRepo {
  types : list APTRepositoryPackageType;
  uris : list rstr;
  suites : list rstr;
  components : list rstr;
  options : list APTRepositoryOption;
  comment : rstr;
  file_type : APTRepositoryFileType;
  enabled : bool;
}.

Inductive AptError :=
| MissingTerminator (c : rchar) | OptionsNotClosed | OptionNoKey (o : rstr) | OptionNoValue (o : rstr) | InvalidOption (o : rstr)
| InvalidPackageType (t : rstr) | MissingUri | MissingSuite | InvalidLine (l : rstr)
| MissingPackageType | MissingUris | MissingSuites | InvalidUri (u : rstr) | MissingComponents
| AbsoluteSuite (s : rstr) | MoreThanOne
| AtLine (n : nat) (e : AptError) | AtStanza (n : nat) (e : AptError) | AtRepository (n : nat) (e : AptError)
| WrongFormat.

Definition repo_new (ft : APTRepositoryFileType) : APTRepository := mkRepo [] [] [] [] [] [] ft true.

Definition nl : rchar := 10%N.
Definition hash : rchar := 35%N.
Definition dquote : rchar := 34%N.
Definition lbracket : rchar := 91%N.
Definition rbracket : rchar := 93%N.
Definition equals : rchar := 61%N.
Definition comma : rchar := 44%N.
Definition colon : rchar := 58%N.
Definition blank : rchar := 32%N.

(** [char::is_ascii_whitespace], [trim_matches], [trim_start_matches]. *)
Definition is_ws (c : rchar) : bool := bool_decide (c ∈ [32; 9; 10; 12; 13])%N.
Definition trim_ws_start (s : rstr) : rstr := drop_while is_ws s.
Definition trim_ws (s : rstr) : rstr := reverse (drop_while is_ws (reverse (drop_while is_ws s))).

(** ** The one-line format *)

(** [&s[position..]]; [None] if the position is not at a character. *)
Fixpoint slice_from (s : rstr) (position : N) : option rstr :=
  if decide (position = 0)%N then Some s
  else match s with
       | [] => None
       | c :: s => if (position <? utf8_width c)%N then None else slice_from s (position - utf8_width c)
       end.

Definition remove_quotes (w : rstr) : rstr := filter (λ c, c ≠ dquote) w.

(** The loop of [SplitQuoteWord::next]: the word from its start, the character that is
    waited for, and the number of characters read. *)
Fixpoint quote_loop (s : rstr) (read : N) (word : option rstr) (wait_for : option rchar)
    : option (result rstr AptError) * N :=
  match s with
  | [] =>
      (match wait_for with
       | Some w => Some (Err (MissingTerminator w))
       | None => match word with Some w => Some (Ok (remove_quotes w)) | None => None end
       end, read)
  | c :: s =>
      let read := (read + 1)%N in
      match wait_for with
      | Some w => quote_loop s read (Some (default [] word ++ [c])) (if decide (w = c) then None else wait_for)
      | None =>
          if is_ws c then
            match word with
            | Some w => (Some (Ok (remove_quotes w)), read)
            | None => quote_loop s read None None
            end
          else
            quote_loop s read (Some (default [] word ++ [c]))
              (if decide (c = dquote) then Some dquote else if decide (c = lbracket) then Some rbracket else None)
      end
  end.

(** [SplitQuoteWord] *)
Record SplitQuoteWord := mkTokens { line_rest : rstr; position : N }.

Definition tokens_next (t : SplitQuoteWord) : option (option (result rstr AptError) * SplitQuoteWord) :=
  match slice_from t.(line_rest) t.(position) with
  | None => None
  | Some rest =>
      let '(token, read) := quote_loop rest 0 None None in
      Some (token, mkTokens t.(line_rest) (t.(position) + read))
  end.

(** [strip_suffix(']')] *)
Definition strip_bracket (s : rstr) : option rstr :=
  match last s with
  | Some c => if decide (c = rbracket) then Some (removelast s) else None
  | None => None
  end.

(** One option of [parse_list_options]. *)
Definition parse_option (option : rstr) : result (list APTRepositoryOption) AptError :=
  match split_once equals option with
  | Some (key, value_str) =>
      if decide (key = []) then Err (OptionNoKey option)
      else if decide (value_str = []) then Err (OptionNoValue option)
      else Ok [mkOption key (split_on comma value_str)]
  | None => if decide (option = []) then Ok [] else Err (InvalidOption option)
  end.

(** [parse_list_options]; every token takes at least one character. *)
Fixpoint parse_list_options (fuel : nat) (t : SplitQuoteWord) (acc : list APTRepositoryOption)
    : option (result (list APTRepositoryOption * SplitQuoteWord) AptError) :=
  match fuel with
  | O => Some (Err OptionsNotClosed)
  | S fuel =>
      match tokens_next t with
      | None => None
      | Some (None, _) => Some (Err OptionsNotClosed)
      | Some (Some (Err e), _) => Some (Err e)
      | Some (Some (Ok token), t) =>
          let '(option, finished) := match strip_bracket token with
                                     | Some stripped => (stripped, true)
                                     | None => (token, false)
                                     end in
          if finished && bool_decide (option = []) then Some (Ok (acc, t))
          else
            match parse_option option with
            | Err e => Some (Err e)
            | Ok o => if finished then Some (Ok (acc ++ o, t)) else parse_list_options fuel t (acc ++ o)
            end
      end
  end.

(** All tokens that are left. *)
Fixpoint tokens_all (fuel : nat) (t : SplitQuoteWord) (acc : list rstr) : option (result (list rstr) AptError) :=
  match fuel with
  | O => Some (Ok acc)
  | S fuel =>
      match tokens_next t with
      | None => None
      | Some (None, _) => Some (Ok acc)
      | Some (Some (Err e), _) => Some (Err e)
      | Some (Some (Ok token), t) => tokens_all fuel t (acc ++ [token])
      end
  end.

(** What follows the options: URI, suite and components. *)
Definition parse_words (t : APTRepositoryPackageType) (fuel : nat) (opts : list APTRepositoryOption)
    (tokens : SplitQuoteWord) (comment : rstr) : option (result APTRepository AptError) :=
  match tokens_next tokens with
  | None => None
  | Some (None, _) => Some (Err MissingUri)
  | Some (Some (Err e), _) => Some (Err e)
  | Some (Some (Ok uri), tokens) =>
      match tokens_next tokens with
      | None => None
      | Some (None, _) => Some (Err MissingSuite)
      | Some (Some (Err e), _) => Some (Err e)
      | Some (Some (Ok suite), tokens) =>
          match tokens_all fuel tokens [] with
          | None => None
          | Some (Err e) => Some (Err e)
          | Some (Ok comps) => Some (Ok (mkRepo [t] [uri] [suite] comps opts comment List_ true))
          end
      end
  end.

(** What follows the package type. *)
Definition parse_after_type (t : APTRepositoryPackageType) (line : rstr) (comment : rstr)
    : option (result APTRepository AptError) :=
  let line := trim_ws_start line in
  let '(line, has_options) := match line with
                              | c :: rest => if decide (c = lbracket) then (rest, true) else (line, false)
                              | [] => (line, false)
                              end in
  let fuel := S (N.to_nat (utf8_len line)) in
  match (if has_options then parse_list_options fuel (mkTokens line 0) [] else Some (Ok ([], mkTokens line 0))) with
  | None => None
  | Some (Err e) => Some (Err e)
  | Some (Ok (opts, tokens)) => parse_words t fuel opts tokens comment
  end.

(** [split_once(is_ascii_whitespace)] *)
Fixpoint split_once_ws (s : rstr) : option (rstr * rstr) :=
  match s with
  | [] => None
  | c :: s => if is_ws c then Some ([], s) else (λ p, (c :: p.1, p.2)) <$> split_once_ws s
  end.

Definition disable (r : APTRepository) : APTRepository :=
  mkRepo r.(types) r.(uris) r.(suites) r.(components) r.(options) r.(comment) r.(file_type) false.

(** A trimmed line, after the attempt to read it as a line that is commented out. *)
Definition parse_trimmed_line (line comment : rstr) : option (result (option APTRepository) AptError * rstr) :=
  let '(line, comment) := match split_once hash line with
                          | Some (line_start, c) => (line_start, comment ++ c ++ [nl])
                          | None => (line, comment)
                          end in
  match split_once_ws line with
  | None => Some (Ok None, comment)
  | Some (package_type, rest) =>
      match package_type_from_str package_type with
      | None => Some (Err (InvalidPackageType package_type), comment)
      | Some t =>
          match parse_after_type t rest comment with
          | None => None
          | Some (Err e) => Some (Err e, comment)
          | Some (Ok repo) => Some (Ok (Some repo), [])
          end
      end
  end.

(** [parse_one_line] with the comment collected before and after it; a commented out
    line is parsed by a second call. *)
Fixpoint parse_one_line (fuel : nat) (comment : rstr) (line : rstr)
    : option (result (option APTRepository) AptError * rstr) :=
  match fuel with
  | O => Some (Ok None, comment)
  | S fuel =>
      let line := trim_ws line in
      match line with
      | c :: commented_out =>
          if decide (c = hash) then
            match parse_one_line fuel comment commented_out with
            | None => None
            | Some (Ok (Some repo), comment) => Some (Ok (Some (disable repo)), comment)
            | Some (_, comment) => parse_trimmed_line line comment
            end
          else parse_trimmed_line line comment
      | [] => parse_trimmed_line line comment
      end
  end.

(** The loop over the lines of a [.list] file. *)
Fixpoint parse_list_loop (line_nr : nat) (comment : rstr) (lines : list rstr) (repos : list APTRepository)
    : option (result (list APTRepository) AptError) :=
  match lines with
  | [] => Some (Ok repos)
  | line :: lines =>
      match parse_one_line (S (length line)) comment line with
      | None => None
      | Some (Ok (Some repo), comment) => parse_list_loop (S line_nr) comment lines (repos ++ [repo])
      | Some (Ok None, comment) => parse_list_loop (S line_nr) comment lines repos
      | Some (Err e, _) => Some (Err (AtLine line_nr e))
      end
  end.

(** The lines that [read_line] returns, without their line feeds: [parse_one_line]
    trims them. *)
Definition apt_lines (s : rstr) : list rstr :=
  let pieces := split_on nl s in
  if decide (last pieces = Some []) then removelast pieces else pieces.

Definition parse_list (s : rstr) : option (result (list APTRepository) AptError) :=
  parse_list_loop 1 [] (apt_lines s) [].

(** *** The writer *)

(** The loop of [quote_for_one_line]: whether there is a space outside of brackets. *)
Fixpoint needs_quotes (wait_for_bracket : bool) (s : rstr) : bool :=
  match s with
  | [] => false
  | c :: s =>
      if wait_for_bracket then needs_quotes (negb (bool_decide (c = rbracket))) s
      else if is_ws c then true
      else needs_quotes (bool_decide (c = lbracket)) s
  end.

Definition quote_for_one_line (s : rstr) : rstr :=
  let s := remove_quotes s in
  if needs_quotes false s then dquote :: s ++ [dquote] else s.

Definition write_comment (c : rstr) : rstr := concat (map (λ line, hash :: line ++ [nl]) (lines c)).

Definition write_option (o : APTRepositoryOption) : rstr :=
  quote_for_one_line (o.(opt_key) ++ equals :: join_with [comma] o.(opt_values)) ++ [blank].

Definition write_one_line (r : APTRepository) : option (result rstr AptError) :=
  if decide (r.(file_type) = List_) then
    match r.(types), r.(uris), r.(suites) with
    | t :: _, u :: _, s :: _ =>
        Some (Ok (write_comment r.(comment) ++ (if r.(enabled) then [] else lit "# ") ++
          package_type_text t ++ [blank] ++
          (match r.(options) with
           | [] => []
           | opts => lit "[ " ++ concat (map write_option opts) ++ lit "] "
           end) ++
          quote_for_one_line u ++ [blank] ++ quote_for_one_line s ++ [blank] ++
          join_with [blank] (map quote_for_one_line r.(components)) ++ [nl]))
    | _, _, _ => None
    end
  else Some (Err WrongFormat).

(** ** The stanza format *)

(** [str::replace] of a pattern of two characters by a space. *)
Fixpoint replace_two (a b : rchar) (s : rstr) : rstr :=
  match s with
  | c :: (d :: s') as rest => if decide (c = a ∧ d = b) then blank :: replace_two a b s' else c :: replace_two a b rest
  | _ => s
  end.

Definition ascii_lower (s : rstr) : rstr := map (λ c, if ((65 <=? c) && (c <=? 90))%N then (c + 32)%N else c) s.

(** The words have no letter that is the lower case of a character outside of ASCII. *)
Definition string_to_bool (s : rstr) (default : bool) : bool :=
  let s := ascii_lower (trim_ws s) in
  if decide (s ∈ [lit "1"; lit "yes"; lit "true"; lit "with"; lit "on"; lit "enable"]) then true
  else if decide (s ∈ [lit "0"; lit "no"; lit "false"; lit "without"; lit "off"; lit "disable"]) then false
  else default.

Definition valid_key (key : rstr) : bool :=
  match key with
  | c :: _ => negb (bool_decide (c = 45%N))
  | [] => true
  end && forallb (λ c, ((33 <=? c) && (c <=? 57) || (59 <=? c) && (c <=? 126))%N) key.

(** [split_ascii_whitespace] *)
Fixpoint split_ws_loop (s : rstr) (word : rstr) : list rstr :=
  match s with
  | [] => if decide (word = []) then [] else [word]
  | c :: s =>
      if is_ws c then if decide (word = []) then split_ws_loop s [] else word :: split_ws_loop s []
      else split_ws_loop s (word ++ [c])
  end.
Definition split_at_ws (s : rstr) : list rstr := split_ws_loop s [].

(** The loop of [set_enabled] over the options. *)
Fixpoint set_enabled_option (v : rstr) (l : list APTRepositoryOption) : list APTRepositoryOption :=
  match l with
  | [] => [mkOption (lit "Enabled") [v]]
  | o :: l => if decide (o.(opt_key) = lit "Enabled") then mkOption o.(opt_key) [v] :: l else o :: set_enabled_option v l
  end.

Definition bool_text (b : bool) : rstr := if b then lit "true" else lit "false".

(** [set_enabled] *)
Definition set_enabled (b : bool) (r : APTRepository) : APTRepository :=
  mkRepo r.(types) r.(uris) r.(suites) r.(components)
    (match r.(file_type) with Sources => set_enabled_option (bool_text b) r.(options) | List_ => r.(options) end)
    r.(comment) r.(file_type) b.

Fixpoint parse_types (l : list rstr) : result (list APTRepositoryPackageType) AptError :=
  match l with
  | [] => Ok []
  | t :: l =>
      let? t := ok_or (package_type_from_str t) (InvalidPackageType t) in
      let? l := parse_types l in
      Ok (t :: l)
  end.

(** A key with its value. *)
Definition apply_key (r : APTRepository) (key value_str : rstr) : result APTRepository AptError :=
  let values := split_at_ws value_str in
  let k := ascii_lower key in
  if decide (k = lit "types") then
    let? ts := parse_types values in
    Ok (mkRepo ts r.(uris) r.(suites) r.(components) r.(options) r.(comment) r.(file_type) r.(enabled))
  else if decide (k = lit "uris") then
    Ok (mkRepo r.(types) values r.(suites) r.(components) r.(options) r.(comment) r.(file_type) r.(enabled))
  else if decide (k = lit "suites") then
    Ok (mkRepo r.(types) r.(uris) values r.(components) r.(options) r.(comment) r.(file_type) r.(enabled))
  else if decide (k = lit "components") then
    Ok (mkRepo r.(types) r.(uris) r.(suites) values r.(options) r.(comment) r.(file_type) r.(enabled))
  else if decide (k = lit "enabled") then Ok (set_enabled (string_to_bool value_str true) r)
  else
    Ok (mkRepo r.(types) r.(uris) r.(suites) r.(components) (r.(options) ++ [mkOption key values])
          r.(comment) r.(file_type) r.(enabled)).

(** The state of the loop of [parse_stanza]: the repository, the comment of the
    parser, and whether something was found. *)
Record Stanza := mkStanza { st_repo : APTRepository; st_comment : rstr; got_something : bool }.

Definition stanza_line (st : Stanza) (line : rstr) : result Stanza AptError :=
  let line := trim_ws line in
  match line with
  | [] => Ok st
  | c :: commented_out =>
      if decide (c = hash) then
        Ok (mkStanza st.(st_repo) (st.(st_comment) ++ commented_out ++ [nl]) st.(got_something))
      else
        match split_once colon line with
        | None => Err (InvalidLine line)
        | Some (key, value_str) =>
            let key := trim_ws key in
            if decide (key = []) then Err (OptionNoKey line)
            else if decide (value_str = []) then Ok st
            else if negb (valid_key key) then Ok st
            else
              let? r := apply_key st.(st_repo) key value_str in
              Ok (mkStanza r st.(st_comment) true)
        end
  end.

Fixpoint stanza_loop (st : Stanza) (lines : list rstr) : result Stanza AptError :=
  match lines with
  | [] => Ok st
  | line :: lines => let? st := stanza_line st line in stanza_loop st lines
  end.

Definition with_comment (r : APTRepository) (c : rstr) : APTRepository :=
  mkRepo r.(types) r.(uris) r.(suites) r.(components) r.(options) c r.(file_type) r.(enabled).

(** [parse_stanza] with the comment of the parser before and after it. *)
Definition parse_stanza (comment : rstr) (text : rstr) : result (option APTRepository * rstr) AptError :=
  let text := replace_two nl 9%N (replace_two nl blank text) in
  let? st := stanza_loop (mkStanza (repo_new Sources) comment false) (lines text) in
  if st.(got_something) then Ok (Some (with_comment st.(st_repo) st.(st_comment)), [])
  else Ok (None, st.(st_comment)).

(** The loop of [parse_repositories] over the lines with their line feeds; [text] are
    the lines of the stanza so far. *)
Fixpoint parse_sources_loop (stanza_nr : nat) (comment text : rstr) (input : list rstr) (repos : list APTRepository)
    : result (list APTRepository) AptError :=
  match input with
  | [] =>
      match parse_stanza comment text with
      | Err e => Err (AtStanza stanza_nr e)
      | Ok (Some repo, _) => Ok (repos ++ [repo])
      | Ok (None, _) => Ok repos
      end
  | line :: input =>
      let text := text ++ line in
      if decide (trim_ws line = []) then
        match parse_stanza comment text with
        | Err e => Err (AtStanza stanza_nr e)
        | Ok (Some repo, comment) => parse_sources_loop (S stanza_nr) comment [] input (repos ++ [repo])
        | Ok (None, comment) => parse_sources_loop stanza_nr comment [] input repos
        end
      else parse_sources_loop stanza_nr comment text input repos
  end.

(** The lines that [read_line] returns, with their line feeds. *)
Fixpoint terminated (pieces : list rstr) : list rstr :=
  match pieces with
  | [] => []
  | [p] => if decide (p = []) then [] else [p]
  | p :: pieces => (p ++ [nl]) :: terminated pieces
  end.

Definition parse_sources (s : rstr) : result (list APTRepository) AptError :=
  parse_sources_loop 1 [] [] (terminated (split_on nl s)) [].

(** *** The writer *)
Definition write_field (key : rstr) (values : list rstr) : rstr :=
  key ++ colon :: blank :: join_with [blank] values ++ [nl].

Definition write_stanza (r : APTRepository) : result rstr AptError :=
  if decide (r.(file_type) = Sources) then
    Ok (write_comment r.(comment) ++
        lit "Types:" ++ concat (map (λ t, blank :: package_type_text t) r.(types)) ++ [nl] ++
        write_field (lit "URIs") r.(uris) ++ write_field (lit "Suites") r.(suites) ++
        (match r.(components) with [] => [] | l => write_field (lit "Components") l end) ++
        concat (map (λ o, write_field o.(opt_key) o.(opt_values)) r.(options)))
  else Err WrongFormat.

(** [APTRepositoryImpl::write] *)
Definition repo_write (r : APTRepository) : option (result rstr AptError) :=
  match r.(file_type) with
  | List_ => write_one_line r
  | Sources => Some (write_stanza r)
  end.

(** ** Files *)
Definition has_char (c : rchar) (s : rstr) : bool := bool_decide (c ∈ s).
Definition ends_with_slash (s : rstr) : bool := bool_decide (last s = Some 47%N).

Fixpoint check_each {A} (f : A → result unit AptError) (l : list A) : result unit AptError :=
  match l with
  | [] => Ok tt
  | x :: l => let? _ := f x in check_each f l
  end.

Definition basic_check (r : APTRepository) : result unit AptError :=
  if decide (r.(types) = []) then Err MissingPackageType
  else if decide (r.(uris) = []) then Err MissingUris
  else if decide (r.(suites) = []) then Err MissingSuites
  else
    let? _ := check_each (λ u, if negb (has_char colon u) || (utf8_len u <? 3)%N then Err (InvalidUri u) else Ok tt) r.(uris) in
    let? _ := check_each (λ s,
      if negb (ends_with_slash s) && bool_decide (r.(components) = []) then Err MissingComponents
      else if ends_with_slash s && negb (bool_decide (r.(components) = [])) then Err (AbsoluteSuite s)
      else Ok tt) r.(suites) in
    if decide (r.(file_type) = List_) then
      if (1 <? length r.(types))%nat || (1 <? length r.(uris))%nat || (1 <? length r.(suites))%nat
      then Err MoreThanOne else Ok tt
    else Ok tt.

(** The loop over the repositories that were parsed. *)
Fixpoint check_repos (n : nat) (repos : list APTRepository) : result unit AptError :=
  match repos with
  | [] => Ok tt
  | r :: repos =>
      match basic_check r with
      | Ok _ => check_repos (S n) repos
      | Err e => Err (AtRepository n e)
      end
  end.

(** [APTRepositoryFile::parse] on the text of the file. *)
Definition file_parse (ft : APTRepositoryFileType) (text : rstr) : option (result (list APTRepository) AptError) :=
  let parsed := match ft with List_ => parse_list text | Sources => Some (parse_sources text) end in
  match parsed with
  | None => None
  | Some (Err e) => Some (Err e)
  | Some (Ok repos) => Some (let? _ := check_repos 1 repos in Ok repos)
  end.

(** The loop of [APTRepositoryFile::write]: the new text of the file. *)
Fixpoint file_content (n : nat) (content : rstr) (repos : list APTRepository) : option (result rstr AptError) :=
  match repos with
  | [] => Some (Ok content)
  | r :: repos =>
      match basic_check r with
      | Err e => Some (Err (AtRepository n e))
      | Ok _ =>
          let content := if decide (content = []) then content else content ++ [nl] in
          match repo_write r with
          | None => None
          | Some (Err e) => Some (Err (AtRepository n e))
          | Some (Ok text) => file_content (S n) (content ++ text) repos
          end
      end
  end.

(** [APTRepositoryFile::write]: a file without repositories is removed. *)
Definition file_write (repos : list APTRepository) : option (result (option rstr) AptError) :=
  match repos with
  | [] => Some (Ok None)
  | _ => match file_content 1 [] repos with
         | None => None
         | Some (Ok content) => Some (Ok (Some content))
         | Some (Err e) => Some (Err e)
         end
  end.
