(* ===== verification/AptTheory.v ===== *)
(** * AptTheory: what is written is read back

    Files of repositories in both formats: for repositories whose words the format can
    express, the parser reads back from the text of the writer exactly the
    repositories it was written from, with their options, comments and whether they
    are enabled. *)
From S2P Require Import Prelude TextCoding Apt.

(** ** Texts *)
Definition ascii (s : rstr) : Prop := Forall (λ c, (c < 128)%N) s.
Definition unlines (ls : list rstr) : rstr := concat (map (λ l, l ++ [nl]) ls).

Lemma unlines_cons l ls : unlines (l :: ls) = l ++ nl :: unlines ls.
Proof. unfold unlines. simpl. by rewrite <- app_assoc. Qed.

Lemma unlines_append a b : unlines (a ++ b) = unlines a ++ unlines b.
Proof. unfold unlines. by rewrite map_app, concat_app. Qed.

Lemma split_unlines ls : Forall (λ l, nl ∉ l) ls → split_on nl (unlines ls) = ls ++ [[]].
Proof.
  induction 1 as [|l ls Hl _ IH]; [done|]. rewrite unlines_cons, split_on_app by done. by rewrite IH.
Qed.

Lemma apt_lines_unlines ls : Forall (λ l, nl ∉ l) ls → apt_lines (unlines ls) = ls.
Proof.
  intros H. unfold apt_lines. rewrite split_unlines by done. rewrite last_snoc, decide_True by done.
  by rewrite removelast_last.
Qed.

Lemma terminated_unlines ls :
  Forall (λ l, nl ∉ l) ls → terminated (split_on nl (unlines ls)) = map (λ l, l ++ [nl]) ls.
Proof.
  intros H. rewrite split_unlines by done. clear. induction ls as [|l ls IH]; [done|]. simpl. rewrite <- IH.
  by destruct (ls ++ [[]]) as [|x y] eqn:E; [destruct ls|].
Qed.

(** Text without white space at its ends. *)
Definition trimmed (s : rstr) : Prop := drop_while is_ws s = s ∧ drop_while is_ws (reverse s) = reverse s.

Lemma trim_ws_trimmed s : trimmed s → trim_ws s = s.
Proof. intros [H1 H2]. unfold trim_ws. by rewrite H1, H2, reverse_involutive. Qed.

Definition no_ws_end (s : rstr) : Prop := ∀ c, last s = Some c → is_ws c = false.
Definition no_ws_start (s : rstr) : Prop := ∀ c, head s = Some c → is_ws c = false.

Lemma drop_while_start s : no_ws_start s → drop_while is_ws s = s.
Proof. intros H. destruct s as [|c s]; simpl; [done|]. by rewrite (H c eq_refl). Qed.

Lemma drop_while_end s : no_ws_end s → drop_while is_ws (reverse s) = reverse s.
Proof.
  intros H. apply drop_while_start. intros c Hc. apply H. by rewrite <- head_reverse.
Qed.

Lemma trimmed_intro s : no_ws_start s → no_ws_end s → trimmed s.
Proof. intros H1 H2. split; [by apply drop_while_start|by apply drop_while_end]. Qed.

Lemma trim_ws_snoc s w : no_ws_start s → s ≠ [] → no_ws_end s → is_ws w = true → trim_ws (s ++ [w]) = s.
Proof.
  intros H1 Hne H2 Hw. unfold trim_ws. rewrite (drop_while_start (s ++ [w])) by (destruct s; [done|exact H1]).
  rewrite reverse_app. simpl. by rewrite Hw, drop_while_end, reverse_involutive.
Qed.

Lemma trim_ws_lead s : no_ws_start s → no_ws_end s → trim_ws (blank :: s) = s.
Proof.
  intros H1 H2. unfold trim_ws. simpl. by rewrite (drop_while_start s), drop_while_end, reverse_involutive.
Qed.

Lemma no_ws_end_app s t : t ≠ [] → no_ws_end t → no_ws_end (s ++ t).
Proof. intros Hne H c. rewrite last_app. destruct (last t) eqn:E; [|by apply last_None in E]. intros [= <-]. by apply H. Qed.

(** Positions in text of ASCII characters. *)
Lemma utf8_width_ascii c : (c < 128)%N → utf8_width c = 1%N.
Proof. intros H. unfold utf8_width. by rewrite (proj2 (N.ltb_lt _ _) H). Qed.

Lemma slice_ascii pre rest : ascii pre → slice_from (pre ++ rest) (N.of_nat (length pre)) = Some rest.
Proof.
  induction 1 as [|c pre Hc _ IH]; simpl; [destruct rest; done|].
  rewrite utf8_width_ascii by done. rewrite (proj2 (N.ltb_ge _ _)) by lia.
  replace (N.of_nat (S (length pre)) - 1)%N with (N.of_nat (length pre)) by lia. exact IH.
Qed.

Lemma utf8_len_ascii s : ascii s → utf8_len s = N.of_nat (length s).
Proof.
  induction 1 as [|c s Hc _ IH]; [done|]. unfold utf8_len in *. simpl. rewrite utf8_width_ascii, IH by done. lia.
Qed.

(** ** Words of the one-line format *)

(** Whether the text ends inside of brackets. *)
Fixpoint open_end (wait_for_bracket : bool) (s : rstr) : bool :=
  match s with
  | [] => wait_for_bracket
  | c :: s =>
      if wait_for_bracket then open_end (negb (bool_decide (c = rbracket))) s else open_end (bool_decide (c = lbracket)) s
  end.

Definition word_char (c : rchar) : Prop := (c < 128)%N ∧ c ≠ dquote ∧ c ≠ hash ∧ c ≠ nl.

(** ASCII text without quotes, number signs and line feeds whose brackets are closed,
    or which is quoted. *)
Definition word_ok (w : rstr) : Prop :=
  w ≠ [] ∧ Forall word_char w ∧ (needs_quotes false w = true ∨ open_end false w = false).

Lemma word_no_quote w : Forall word_char w → dquote ∉ w.
Proof. intros H Hin. rewrite Forall_forall in H. by apply H in Hin as (_ & ? & _). Qed.

Lemma remove_quotes_id w : dquote ∉ w → remove_quotes w = w.
Proof.
  intros H. unfold remove_quotes. induction w as [|c w IH]; [done|]. apply not_elem_of_cons in H as [H1 H2].
  rewrite filter_cons_True by done. by rewrite IH.
Qed.

Lemma quote_loop_in_quotes w s read acc :
  dquote ∉ w →
  quote_loop (w ++ dquote :: s) read (Some acc) (Some dquote) =
  quote_loop s (read + N.of_nat (length w) + 1) (Some (acc ++ w ++ [dquote])) None.
Proof.
  revert read acc. induction w as [|c w IH]; intros read acc Hw.
  - simpl. by rewrite N.add_0_r.
  - apply not_elem_of_cons in Hw as [Hc Hw]. cbn [app quote_loop]. rewrite decide_False by done. cbn [default].
    rewrite IH by done. f_equal; [simpl; lia|]. by rewrite <- app_assoc.
Qed.

(** Text that is not quoted: spaces are inside of brackets only. *)
Lemma quote_loop_plain w : ∀ s read acc (wait : bool),
  dquote ∉ w → needs_quotes wait w = false → open_end wait w = false →
  quote_loop (w ++ s) read (Some acc) (if wait then Some rbracket else None) =
  quote_loop s (read + N.of_nat (length w)) (Some (acc ++ w)) None.
Proof.
  induction w as [|c w IH]; intros s read acc wait Hw Hn Ho.
  - simpl in Ho. subst wait. by rewrite N.add_0_r, app_nil_r.
  - apply not_elem_of_cons in Hw as [Hc Hw]. cbn [needs_quotes] in Hn. cbn [open_end] in Ho. cbn [app quote_loop].
    replace (N.of_nat (length (c :: w))) with (1 + N.of_nat (length w))%N by (simpl; lia).
    rewrite N.add_assoc, (cons_middle c acc w), app_assoc. destruct wait.
    + rewrite <- (IH s (read + 1)%N (acc ++ [c]) _ Hw Hn Ho). f_equal.
      destruct (decide (rbracket = c)) as [<-|Hr]; [by rewrite bool_decide_eq_true_2|].
      by rewrite (bool_decide_eq_false_2 (c = rbracket)) by congruence.
    + destruct (is_ws c); [done|]. rewrite <- (IH s (read + 1)%N (acc ++ [c]) _ Hw Hn Ho). f_equal.
      rewrite decide_False by congruence. case_decide; [by rewrite bool_decide_eq_true_2|by rewrite bool_decide_eq_false_2].
Qed.

(** The written word is read up to its end. *)
Lemma quote_loop_word w s read :
  word_ok w →
  quote_loop (quote_for_one_line w ++ s) read None None =
  quote_loop s (read + N.of_nat (length (quote_for_one_line w))) (Some (quote_for_one_line w)) None.
Proof.
  intros (Hne & Hw & Hb). pose proof (word_no_quote w Hw) as Hq. unfold quote_for_one_line.
  rewrite remove_quotes_id by done. destruct (needs_quotes false w) eqn:En.
  - cbn [app quote_loop]. replace (is_ws dquote) with false by done. rewrite decide_True by done. cbn [default app].
    rewrite <- app_assoc. cbn [app]. rewrite quote_loop_in_quotes by done. f_equal. simpl. rewrite length_app. simpl. lia.
  - destruct Hb as [?|Ho]; [done|]. destruct w as [|c w]; [done|]. apply not_elem_of_cons in Hq as [Hc Hq].
    cbn [needs_quotes] in En. cbn [open_end] in Ho. cbn [app quote_loop]. destruct (is_ws c); [done|].
    replace (N.of_nat (length (c :: w))) with (1 + N.of_nat (length w))%N by (simpl; lia). rewrite N.add_assoc.
    pose proof (quote_loop_plain w s (read + 1)%N [c] (bool_decide (c = lbracket)) Hq En Ho) as H. simpl default.
    cbn [app] in *. rewrite <- H. f_equal. rewrite decide_False by congruence.
    case_decide; [by rewrite bool_decide_eq_true_2|by rewrite bool_decide_eq_false_2].
Qed.

Lemma unquote_word w : word_ok w → remove_quotes (quote_for_one_line w) = w.
Proof.
  intros (_ & Hw & _). pose proof (word_no_quote w Hw) as Hq. unfold quote_for_one_line. rewrite (remove_quotes_id w) by done.
  destruct (needs_quotes false w); [|by apply remove_quotes_id]. unfold remove_quotes.
  rewrite filter_cons_False by auto. rewrite filter_app, filter_cons_False, filter_nil, app_nil_r by auto.
  by apply remove_quotes_id.
Qed.

Lemma quote_loop_shift s n m word wait :
  quote_loop s (n + m) word wait = let '(token, read) := quote_loop s m word wait in (token, n + read)%N.
Proof.
  revert m word wait. induction s as [|c s IH]; intros m word wait; simpl; [done|]. rewrite <- N.add_assoc.
  destruct wait; [apply IH|]. destruct (is_ws c); [|apply IH]. destruct word; [done|apply IH].
Qed.

(** What is left of the line. *)
Definition tokens_at (rest : rstr) (t : SplitQuoteWord) : Prop :=
  ∃ pre, t.(line_rest) = pre ++ rest ∧ t.(position) = N.of_nat (length pre) ∧ ascii t.(line_rest).

Lemma tokens_at_next rest t :
  tokens_at rest t → tokens_next t = Some (let '(token, read) := quote_loop rest 0 None None in
                                           (token, mkTokens t.(line_rest) (t.(position) + read))).
Proof.
  intros (pre & E & Hp & Ha). unfold tokens_next. rewrite E, Hp. rewrite E in Ha. apply Forall_app in Ha as [Ha _].
  rewrite slice_ascii by done. by destruct (quote_loop rest 0 None None).
Qed.

Lemma tokens_advance w rest t :
  tokens_at (w ++ rest) t → tokens_at rest (mkTokens t.(line_rest) (t.(position) + N.of_nat (length w))).
Proof.
  intros (pre & E & Hp & Ha). exists (pre ++ w). simpl. split; [by rewrite E, app_assoc|]. split; [|done].
  rewrite length_app. lia.
Qed.

Lemma token_word w rest t :
  word_ok w → tokens_at (quote_for_one_line w ++ blank :: rest) t →
  ∃ t', tokens_next t = Some (Some (Ok w), t') ∧ tokens_at rest t'.
Proof.
  intros Hw Ht. rewrite (tokens_at_next _ t Ht), quote_loop_word by done. cbn [quote_loop].
  replace (is_ws blank) with true by done. rewrite unquote_word by done. eexists. split; [done|].
  rewrite cons_middle, app_assoc in Ht. apply tokens_advance in Ht. rewrite length_app in Ht. simpl in Ht.
  by replace (0 + _ + 1)%N with (N.of_nat (length (quote_for_one_line w) + 1)) by lia.
Qed.

Lemma token_last w t :
  word_ok w → tokens_at (quote_for_one_line w) t →
  ∃ t', tokens_next t = Some (Some (Ok w), t') ∧ tokens_at [] t'.
Proof.
  intros Hw Ht. rewrite <- (app_nil_r (quote_for_one_line w)) in Ht.
  rewrite (tokens_at_next _ t Ht), quote_loop_word by done. cbn [quote_loop]. rewrite unquote_word by done.
  eexists. split; [done|]. apply tokens_advance in Ht. by rewrite N.add_0_l.
Qed.

Lemma token_none t : tokens_at [] t → ∃ t', tokens_next t = Some (None, t').
Proof. intros Ht. rewrite (tokens_at_next _ t Ht). simpl. eauto. Qed.

Lemma token_blank rest t : tokens_at (blank :: rest) t → ∃ t', tokens_next t = tokens_next t' ∧ tokens_at rest t'.
Proof.
  intros Ht. exists (mkTokens t.(line_rest) (t.(position) + 1)).
  assert (tokens_at rest (mkTokens t.(line_rest) (t.(position) + 1))) as Ht' by exact (tokens_advance [blank] rest t Ht).
  split; [|exact Ht']. rewrite (tokens_at_next _ _ Ht), (tokens_at_next _ _ Ht'). f_equal. cbn [quote_loop].
  replace (is_ws blank) with true by done. cbn [line_rest position].
  change (0 + 1)%N with (1 + 0)%N. rewrite (quote_loop_shift rest 1 0 None None).
  destruct (quote_loop rest 0 None None) as [token read]. f_equal. f_equal. lia.
Qed.

(** *** Options and components *)
Definition option_word (o : APTRepositoryOption) : rstr := o.(opt_key) ++ equals :: join_with [comma] o.(opt_values).

Definition option_ok (o : APTRepositoryOption) : Prop :=
  o.(opt_key) ≠ [] ∧ (equals ∉ o.(opt_key)) ∧ o.(opt_values) ≠ [] ∧ Forall (λ v, comma ∉ v) o.(opt_values) ∧
  join_with [comma] o.(opt_values) ≠ [] ∧ word_ok (option_word o) ∧ last (option_word o) ≠ Some rbracket.

Lemma parse_option_word o : option_ok o → parse_option (option_word o) = Ok [o].
Proof.
  intros (H1 & H2 & H3 & H4 & H5 & _). unfold parse_option, option_word.
  rewrite (proj2 (split_once_iff equals _ o.(opt_key) (join_with [comma] o.(opt_values)))) by done.
  rewrite !decide_False by done. rewrite split_on_join by done. by destruct o.
Qed.

Lemma strip_bracket_none w : last w ≠ Some rbracket → strip_bracket w = None.
Proof. unfold strip_bracket. intros H. destruct (last w); [|done]. rewrite decide_False; [done|congruence]. Qed.

Lemma bracket_word : word_ok [rbracket].
Proof. repeat split; [done| |by right]. repeat constructor; done. Qed.

Definition options_text (opts : list APTRepositoryOption) : rstr := concat (map write_option opts).

Lemma parse_options_text opts rest : ∀ fuel t acc,
  Forall option_ok opts → length opts < fuel → tokens_at (options_text opts ++ rbracket :: blank :: rest) t →
  ∃ t', parse_list_options fuel t acc = Some (Ok (acc ++ opts, t')) ∧ tokens_at rest t'.
Proof.
  induction opts as [|o opts IH]; intros fuel t acc Hok Hf Ht; (destruct fuel as [|fuel]; [simpl in Hf; lia|]);
    cbn [parse_list_options].
  - change (options_text [] ++ rbracket :: blank :: rest) with (quote_for_one_line [rbracket] ++ blank :: rest) in Ht.
    destruct (token_word _ _ _ bracket_word Ht) as (t' & -> & Ht'). exists t'. split; [|done]. simpl. by rewrite app_nil_r.
  - apply Forall_cons in Hok as [Ho Hok].
    assert (options_text (o :: opts) ++ rbracket :: blank :: rest =
      quote_for_one_line (option_word o) ++ blank :: options_text opts ++ rbracket :: blank :: rest) as E.
    { unfold options_text. simpl. unfold write_option. by rewrite <- !app_assoc. }
    rewrite E in Ht. destruct (token_word _ _ _ ltac:(apply Ho) Ht) as (t' & -> & Ht').
    rewrite strip_bracket_none by apply Ho. cbn [andb]. rewrite parse_option_word by done.
    destruct (IH fuel t' (acc ++ [o]) Hok ltac:(simpl in Hf; lia) Ht') as (t'' & -> & Ht''). exists t''.
    by rewrite <- app_assoc.
Qed.

Lemma parse_options_next fuel t t' acc :
  tokens_next t = tokens_next t' → parse_list_options (S fuel) t acc = parse_list_options (S fuel) t' acc.
Proof. intros E. simpl. by rewrite E. Qed.

Definition words_text (ws : list rstr) : rstr := join_with [blank] (map quote_for_one_line ws).

Lemma words_text_cons w ws :
  words_text (w :: ws) = quote_for_one_line w ++ match ws with [] => [] | _ => blank :: words_text ws end.
Proof. unfold words_text. destruct ws; simpl; [by rewrite app_nil_r|done]. Qed.

Lemma tokens_all_text ws : ∀ fuel t acc,
  Forall word_ok ws → length ws < fuel → tokens_at (words_text ws) t →
  tokens_all fuel t acc = Some (Ok (acc ++ ws)).
Proof.
  induction ws as [|w ws IH]; intros fuel t acc Hok Hf Ht; (destruct fuel as [|fuel]; [simpl in Hf; lia|]);
    cbn [tokens_all].
  - destruct (token_none t Ht) as [t' ->]. by rewrite app_nil_r.
  - apply Forall_cons in Hok as [Hw Hok]. rewrite words_text_cons in Ht.
    assert (∃ t', tokens_next t = Some (Some (Ok w), t') ∧ tokens_at (words_text ws) t') as (t' & -> & Ht').
    { destruct ws; [rewrite app_nil_r in Ht; by apply token_last|by apply token_word]. }
    rewrite (IH fuel t' (acc ++ [w]) Hok ltac:(simpl in Hf; lia) Ht'). by rewrite <- app_assoc.
Qed.

(** ** A line of the one-line format *)
Definition tail_text (comps : list rstr) : rstr := match comps with [] => [] | _ => blank :: words_text comps end.
Definition list_options (opts : list APTRepositoryOption) : rstr :=
  match opts with [] => [] | _ => lit "[ " ++ options_text opts ++ lit "] " end.
Definition entry_rest (opts : list APTRepositoryOption) (u s : rstr) (comps : list rstr) : rstr :=
  list_options opts ++ quote_for_one_line u ++ blank :: quote_for_one_line s ++ tail_text comps.

Lemma quote_word_chars (P : rchar → Prop) w : Forall P w → P dquote → Forall P (quote_for_one_line w).
Proof.
  intros Hw Hq. assert (Forall P (remove_quotes w)) as Hr.
  { rewrite Forall_forall in *. intros c Hc. apply Hw. unfold remove_quotes in Hc. by apply list_elem_of_filter in Hc as [_ ?]. }
  unfold quote_for_one_line. destruct (needs_quotes false (remove_quotes w)); [|done].
  constructor; [done|]. apply Forall_app_2; [done|]. by constructor.
Qed.

Lemma Forall_concat_map {A B} (P : B → Prop) (f : A → list B) l :
  Forall (λ x, Forall P (f x)) l → Forall P (concat (map f l)).
Proof. induction 1; simpl; [constructor|]. by apply Forall_app_2. Qed.

Lemma Forall_join {A} (P : A → Prop) sep l : Forall P sep → Forall (Forall P) l → Forall P (join_with sep l).
Proof.
  intros Hs Hl. induction Hl as [|x l Hx Hl IH]; [constructor|]. destruct l; [done|].
  simpl. apply Forall_app_2; [done|]. by apply Forall_app_2.
Qed.

(** All characters of a line are word characters, quotes or spaces. *)
Lemma entry_rest_chars (P : rchar → Prop) opts u s comps :
  (∀ c, word_char c → P c) → P dquote → P blank → Forall option_ok opts → word_ok u → word_ok s → Forall word_ok comps →
  Forall P (entry_rest opts u s comps).
Proof.
  intros HP Hq Hb Ho (_ & Hu & _) (_ & Hs & _) Hc.
  assert (∀ w, Forall word_char w → Forall P (quote_for_one_line w)) as Hw.
  { intros w H. apply quote_word_chars; [|done]. eapply Forall_impl; [exact H|done]. }
  unfold entry_rest. apply Forall_app_2; [|apply Forall_app_2; [by apply Hw|]; constructor; [done|]; apply Forall_app_2; [by apply Hw|]].
  - unfold list_options. destruct opts as [|o opts]; [constructor|]. apply Forall_app_2; [|apply Forall_app_2].
    + repeat constructor; [apply HP; by repeat split|done].
    + apply Forall_concat_map. eapply Forall_impl; [exact Ho|]. intros o' (_ & _ & _ & _ & _ & (_ & H & _) & _).
      apply Forall_app_2; [by apply Hw|]. by repeat constructor.
    + repeat constructor; [apply HP; by repeat split|done].
  - unfold tail_text. destruct comps; [constructor|]. constructor; [done|]. apply Forall_join; [by repeat constructor|].
    apply Forall_fmap. eapply Forall_impl; [exact Hc|]. intros w (_ & H & _). by apply Hw.
Qed.

Lemma length_concat_ge {A} (f : A → rstr) l : (∀ x, x ∈ l → f x ≠ []) → length l ≤ length (concat (map f l)).
Proof.
  induction l as [|x l IH]; intros H; simpl; [lia|]. rewrite length_app.
  pose proof (H x ltac:(by left)). pose proof (IH ltac:(intros y Hy; apply H; by right)).
  destruct (f x); [done|]. simpl. lia.
Qed.

Lemma quote_word_nonempty w : word_ok w → quote_for_one_line w ≠ [].
Proof.
  intros (Hne & Hw & _). unfold quote_for_one_line. rewrite remove_quotes_id by by apply word_no_quote.
  by destruct (needs_quotes false w).
Qed.

Lemma words_text_length ws : Forall word_ok ws → length ws ≤ length (words_text ws).
Proof.
  induction 1 as [|w ws Hw _ IH]; [done|]. rewrite words_text_cons, length_app. apply quote_word_nonempty in Hw.
  destruct (quote_for_one_line w); [done|]. destruct ws; simpl in *; lia.
Qed.

Lemma quote_word_head w c : word_ok w → head (quote_for_one_line w) = Some c → is_ws c = false ∧ (c = lbracket → head w = Some lbracket).
Proof.
  intros (Hne & Hw & _). unfold quote_for_one_line. rewrite remove_quotes_id by by apply word_no_quote.
  destruct (needs_quotes false w) eqn:En; simpl; [by intros [= <-]|]. destruct w as [|d w]; [done|]. intros [= <-].
  cbn [needs_quotes] in En. destruct (is_ws d); [done|]. split; [done|]. by intros ->.
Qed.

Lemma tokens_start line : ascii line → tokens_at line (mkTokens line 0).
Proof. intros H. by exists []. Qed.

(** URI, suite and components from where the options end. *)
Lemma parse_words_text pt opts c u s comps fuel t :
  word_ok u → word_ok s → Forall word_ok comps → length comps < fuel →
  tokens_at (quote_for_one_line u ++ blank :: quote_for_one_line s ++ tail_text comps) t →
  parse_words pt fuel opts t c = Some (Ok (mkRepo [pt] [u] [s] comps opts c List_ true)).
Proof.
  intros Hu Hs Hc Hf Ht. unfold parse_words. destruct (token_word u _ t Hu Ht) as (t1 & -> & Ht1).
  assert (∃ t2, tokens_next t1 = Some (Some (Ok s), t2) ∧ tokens_at (words_text comps) t2) as (t2 & -> & Ht2).
  { unfold tail_text in Ht1. destruct comps; [rewrite app_nil_r in Ht1; by apply token_last|by apply token_word]. }
  by rewrite (tokens_all_text comps fuel t2 [] Hc Hf Ht2).
Qed.

Lemma entry_rest_ascii opts u s comps :
  Forall option_ok opts → word_ok u → word_ok s → Forall word_ok comps → ascii (entry_rest opts u s comps).
Proof. intros. apply entry_rest_chars; try done. by intros c [? _]. Qed.

Lemma entry_rest_length opts u s comps :
  Forall option_ok opts → Forall word_ok comps →
  length opts ≤ length (entry_rest opts u s comps) - 1 ∧ length comps ≤ length (entry_rest opts u s comps) - 1.
Proof.
  intros Ho Hc. assert (length opts ≤ length (options_text opts)).
  { apply length_concat_ge. intros o Hin. unfold write_option. by destruct (quote_for_one_line _). }
  pose proof (words_text_length comps Hc). unfold entry_rest, list_options, tail_text.
  destruct opts, comps; rewrite ?length_app; simpl in *; rewrite ?length_app in *; simpl in *; lia.
Qed.

Lemma parse_entry_text t opts u s comps c :
  Forall option_ok opts → word_ok u → head u ≠ Some lbracket → word_ok s → Forall word_ok comps →
  parse_after_type t (entry_rest opts u s comps) c = Some (Ok (mkRepo [t] [u] [s] comps opts c List_ true)).
Proof.
  intros Ho Hu Hh Hs Hc. pose proof (entry_rest_ascii opts u s comps Ho Hu Hs Hc) as Ha.
  destruct (entry_rest_length opts u s comps Ho Hc) as [L1 L2]. unfold parse_after_type.
  assert (trim_ws_start (entry_rest opts u s comps) = entry_rest opts u s comps) as ->.
  { apply drop_while_start. intros x. unfold entry_rest, list_options. destruct opts; [|by intros [= <-]].
    destruct (quote_for_one_line u) eqn:E; [by apply quote_word_nonempty in E|]. intros [= <-]. eapply quote_word_head; [exact Hu|]. by rewrite E. }
  destruct opts as [|o opts].
  - assert (entry_rest [] u s comps = quote_for_one_line u ++ blank :: quote_for_one_line s ++ tail_text comps) as E by done.
    destruct (quote_for_one_line u) as [|x q] eqn:Eq.
    { by apply quote_word_nonempty in Eq. }
    rewrite E in *. cbn [app] in *. rewrite decide_False.
    2:{ intros ->. apply Hh. eapply quote_word_head; [exact Hu| |done]. by rewrite Eq. }
    change (x :: q ++ blank :: quote_for_one_line s ++ tail_text comps) with ((x :: q) ++ blank :: quote_for_one_line s ++ tail_text comps) in *.
    rewrite <- Eq in *. rewrite utf8_len_ascii, Nat2N.id by done.
    apply parse_words_text; [done..|lia|by apply tokens_start].
  - assert (entry_rest (o :: opts) u s comps = lbracket :: blank :: options_text (o :: opts) ++ rbracket :: blank ::
      (quote_for_one_line u ++ blank :: quote_for_one_line s ++ tail_text comps)) as E.
    { unfold entry_rest, list_options. simpl. rewrite <- !app_assoc. simpl. done. }
    rewrite E in *. rewrite decide_True by done. apply Forall_cons in Ha as [_ Ha].
    set (w := quote_for_one_line u ++ blank :: quote_for_one_line s ++ tail_text comps) in *.
    set (line := blank :: options_text (o :: opts) ++ rbracket :: blank :: w) in *.
    rewrite utf8_len_ascii, Nat2N.id by done. change (length (lbracket :: line)) with (S (length line)) in L1, L2.
    destruct (token_blank (options_text (o :: opts) ++ rbracket :: blank :: w) (mkTokens line 0)) as (t0 & E0 & Ht0);
      [by apply tokens_start|].
    rewrite (parse_options_next _ _ _ _ E0).
    destruct (parse_options_text (o :: opts) w (S (length line)) t0 [] Ho) as (t' & -> & Ht'); [lia|done|].
    apply parse_words_text; [done..|lia|done].
Qed.

(** *** The line of a repository *)
Lemma unquoted_end w : ∀ wait c,
  needs_quotes wait w = false → open_end wait w = false → last w = Some c → is_ws c = false.
Proof.
  induction w as [|d w IH]; intros wait c Hn Ho Hl; [done|]. cbn [needs_quotes] in Hn. cbn [open_end] in Ho.
  destruct w as [|d' w].
  - assert (d = c) as -> by by injection Hl. destruct wait; [|by destruct (is_ws c)].
    simpl in Ho. destruct (bool_decide_reflect (c = rbracket)) as [->|]; done.
  - rewrite last_cons_cons in Hl. destruct wait; [by eapply IH|]. destruct (is_ws d); [done|]. by eapply IH.
Qed.

Lemma quote_word_end w : word_ok w → no_ws_end (quote_for_one_line w).
Proof.
  intros (Hne & Hw & Hb) c. unfold quote_for_one_line. rewrite remove_quotes_id by by apply word_no_quote.
  destruct (needs_quotes false w) eqn:En.
  - rewrite app_comm_cons, last_snoc. by intros [= <-].
  - destruct Hb as [?|Ho]; [done|]. by eapply unquoted_end.
Qed.

Lemma words_text_end ws : ws ≠ [] → Forall word_ok ws → words_text ws ≠ [] ∧ no_ws_end (words_text ws).
Proof.
  intros Hne H. induction H as [|w ws Hw H IH]; [done|]. rewrite words_text_cons. destruct ws as [|w' ws].
  - rewrite app_nil_r. split; [by apply quote_word_nonempty|by apply quote_word_end].
  - destruct IH as [H1 H2]; [done|]. split; [by destruct (quote_for_one_line w)|].
    rewrite cons_middle, app_assoc. by apply no_ws_end_app.
Qed.

Definition entry_text (t : APTRepositoryPackageType) opts u s comps : rstr :=
  package_type_text t ++ blank :: entry_rest opts u s comps.

Lemma entry_text_end t opts u s comps : word_ok s → Forall word_ok comps → no_ws_end (entry_text t opts u s comps).
Proof.
  intros Hs Hc. unfold entry_text, entry_rest. rewrite (cons_middle blank), !app_assoc, (cons_middle blank), !app_assoc.
  unfold tail_text. destruct comps as [|w ws].
  - rewrite app_nil_r. apply no_ws_end_app; [by apply quote_word_nonempty|by apply quote_word_end].
  - destruct (words_text_end (w :: ws)) as [H1 H2]; [done|done|]. rewrite cons_middle, app_assoc. by apply no_ws_end_app.
Qed.

Lemma split_once_ws_app w r : Forall (λ c, is_ws c = false) w → split_once_ws (w ++ blank :: r) = Some (w, r).
Proof. induction 1 as [|c w Hc _ IH]; simpl; [done|]. by rewrite Hc, IH. Qed.

Lemma package_type_roundtrip t : package_type_from_str (package_type_text t) = Some t.
Proof. by destruct t. Qed.

Lemma hash_not_in opts u s comps t :
  Forall option_ok opts → word_ok u → word_ok s → Forall word_ok comps → hash ∉ entry_text t opts u s comps.
Proof.
  intros Ho Hu Hs Hc. unfold entry_text. rewrite not_elem_of_app, not_elem_of_cons. split; [by destruct t; apply (bool_decide_unpack _)|].
  split; [done|]. intros Hin.
  pose proof (entry_rest_chars (λ c, c ≠ hash) opts u s comps ltac:(by intros c (_ & _ & ? & _)) ltac:(done) ltac:(done) Ho Hu Hs Hc) as H.
  rewrite Forall_forall in H. by apply (H hash).
Qed.

Lemma parse_entry_line fuel cm line t opts u s comps :
  Forall option_ok opts → word_ok u → head u ≠ Some lbracket → word_ok s → Forall word_ok comps →
  trim_ws line = entry_text t opts u s comps →
  parse_one_line (S fuel) cm line = Some (Ok (Some (mkRepo [t] [u] [s] comps opts cm List_ true)), []).
Proof.
  intros Ho Hu Hh Hs Hc Hl. cbn [parse_one_line]. rewrite Hl.
  assert (parse_trimmed_line (entry_text t opts u s comps) cm =
    Some (Ok (Some (mkRepo [t] [u] [s] comps opts cm List_ true)), [])) as E; [|by unfold entry_text in *; destruct t].
  unfold parse_trimmed_line. rewrite (proj2 (split_once_None hash (entry_text t opts u s comps))) by by apply hash_not_in.
  assert (split_once_ws (entry_text t opts u s comps) = Some (package_type_text t, entry_rest opts u s comps)) as ->.
  { apply split_once_ws_app. destruct t; repeat constructor. }
  by rewrite package_type_roundtrip, parse_entry_text by done.
Qed.

(** *** Comments *)
Definition comment_line_ok (c : rstr) : Prop :=
  (hash ∉ c) ∧ (nl ∉ c) ∧ no_ws_end c ∧
  ∀ pt rest, split_once_ws (trim_ws c) = Some (pt, rest) → package_type_from_str pt = None.

Lemma trim_subset c x : x ∈ trim_ws c → x ∈ c.
Proof.
  assert (∀ s : rstr, ∀ x, x ∈ drop_while is_ws s → x ∈ s) as Hd.
  { induction s as [|d s IH]; intros y; simpl; [done|]. destruct (is_ws d); [|done]. intros Hy. right. by apply IH. }
  unfold trim_ws. rewrite elem_of_reverse. intros Hx%Hd. rewrite elem_of_reverse in Hx. by apply Hd.
Qed.

(** A comment is not taken for a repository that is commented out. *)
Lemma parse_comment_text fuel cm c :
  comment_line_ok c → ∃ r, parse_one_line fuel cm c = Some (r, cm) ∧ ∀ repo, r ≠ Ok (Some repo).
Proof.
  intros (Hh & _ & _ & Hp). destruct fuel as [|fuel]; [by eexists|]. cbn [parse_one_line].
  assert (hash ∉ trim_ws c) as Ht by (intros ?%trim_subset; done).
  assert (∃ r, parse_trimmed_line (trim_ws c) cm = Some (r, cm) ∧ ∀ repo, r ≠ Ok (Some repo)) as Hr.
  { unfold parse_trimmed_line. rewrite (proj2 (split_once_None hash (trim_ws c))) by done.
    destruct (split_once_ws (trim_ws c)) as [[pt rest]|] eqn:E; [|by eexists]. rewrite (Hp pt rest eq_refl). by eexists. }
  destruct (trim_ws c) as [|d s]; [done|]. apply not_elem_of_cons in Ht as [Hd _]. by rewrite decide_False by congruence.
Qed.

Lemma parse_comment_line fuel cm c :
  comment_line_ok c → parse_one_line (S fuel) cm (hash :: c) = Some (Ok None, cm ++ c ++ [nl]).
Proof.
  intros Hc. pose proof Hc as (_ & _ & He & _). cbn [parse_one_line].
  assert (trim_ws (hash :: c) = hash :: c) as ->.
  { apply trim_ws_trimmed, trimmed_intro; [by intros x [= <-]|]. intros x. destruct c as [|d c]; [by intros [= <-]|].
    rewrite last_cons_cons. apply He. }
  rewrite decide_True by done. destruct (parse_comment_text fuel cm c Hc) as (r & -> & Hr).
  unfold parse_trimmed_line. rewrite (proj2 (split_once_iff hash (hash :: c) [] c)) by (split; [done|apply not_elem_of_nil]).
  destruct r as [[repo|]|e]; [by destruct (Hr repo)|done..].
Qed.

Definition comment_ok (cm : rstr) (cs : list rstr) : Prop := cm = unlines cs ∧ Forall comment_line_ok cs.

Lemma strip_cr_id s : no_ws_end s → strip_cr s = s.
Proof.
  intros H. unfold strip_cr. destruct (reverse s) as [|c r] eqn:E; [done|].
  assert (is_ws c = false) as Hc by (apply H; rewrite <- head_reverse, E; done).
  destruct c as [|p]; [done|]. do 4 (destruct p as [p|p|]; try done).
Qed.

Lemma lines_of_unlines ls : Forall (λ l, (nl ∉ l) ∧ no_ws_end l) ls → lines (unlines ls) = ls.
Proof.
  intros H. unfold lines. change 10%N with nl. rewrite split_unlines by (eapply Forall_impl; [exact H|]; by intros l [? _]).
  induction H as [|l ls [_ Hl] _ IH]; [done|]. simpl. rewrite IH.
  destruct (ls ++ [[]]) eqn:E; [by destruct ls|]. by rewrite strip_cr_id.
Qed.

Lemma write_comment_lines cm cs : comment_ok cm cs → write_comment cm = unlines (map (cons hash) cs).
Proof.
  intros [-> H]. unfold write_comment. rewrite lines_of_unlines.
  - unfold unlines. f_equal. rewrite map_map. done.
  - eapply Forall_impl; [exact H|]. by intros c (_ & ? & ? & _).
Qed.

(** ** ASCII text never makes the parser panic *)
Lemma quote_loop_read s : ∀ m word wait, (m ≤ (quote_loop s m word wait).2 ≤ m + N.of_nat (length s))%N.
Proof.
  assert (∀ m (x : rstr) r, m + 1 ≤ r ≤ m + 1 + N.of_nat (length x) → m ≤ r ≤ m + N.of_nat (S (length x)))%N as step by (intros; lia).
  induction s as [|c s IH]; intros m word wait; simpl; [lia|].
  destruct wait; [apply (step _ s), IH|]. destruct (is_ws c); [|apply (step _ s), IH].
  destruct word; [simpl; lia|apply (step _ s), IH].
Qed.

Lemma tokens_step rest t : tokens_at rest t → ∃ token t' rest', tokens_next t = Some (token, t') ∧ tokens_at rest' t'.
Proof.
  intros Ht. rewrite (tokens_at_next rest t Ht). pose proof (quote_loop_read rest 0 None None) as Hr.
  destruct (quote_loop rest 0 None None) as [token read]. simpl in Hr. eexists _, _, (drop (N.to_nat read) rest). split; [done|].
  rewrite <- (take_drop (N.to_nat read) rest) in Ht. apply tokens_advance in Ht. rewrite length_take in Ht.
  by replace (N.of_nat (N.to_nat read `min` length rest)) with read in Ht by lia.
Qed.

Lemma tokens_all_total fuel : ∀ rest t acc, tokens_at rest t → tokens_all fuel t acc ≠ None.
Proof.
  induction fuel as [|fuel IH]; intros rest t acc Ht; simpl; [done|].
  destruct (tokens_step rest t Ht) as ([[token|e]|] & t' & rest' & -> & Ht'); [by eapply IH|done..].
Qed.

Lemma parse_options_total fuel : ∀ rest t acc, tokens_at rest t →
  ∃ res, parse_list_options fuel t acc = Some res ∧ ∀ opts t', res = Ok (opts, t') → ∃ rest', tokens_at rest' t'.
Proof.
  induction fuel as [|fuel IH]; intros rest t acc Ht; simpl; [by eexists|].
  destruct (tokens_step rest t Ht) as ([[token|e]|] & t' & rest' & -> & Ht'); [|by eexists..].
  destruct (strip_bracket token) as [stripped|]; cbn [andb].
  - destruct (bool_decide _); [eexists; split; [done|]; intros ?? [= <- <-]; eauto|].
    destruct (parse_option stripped); [eexists; split; [done|]; intros ?? [= <- <-]; eauto|by eexists].
  - destruct (parse_option token); [by eapply IH|by eexists].
Qed.

Lemma parse_words_total pt fuel opts rest t c : tokens_at rest t → parse_words pt fuel opts t c ≠ None.
Proof.
  intros Ht. unfold parse_words. destruct (tokens_step _ _ Ht) as ([[u|]|] & t1 & r1 & -> & H1); [|done..].
  destruct (tokens_step _ _ H1) as ([[s|]|] & t2 & r2 & -> & H2); [|done..].
  pose proof (tokens_all_total fuel r2 t2 [] H2). by destruct (tokens_all fuel t2 []) as [[]|].
Qed.

Lemma drop_while_ascii s : ascii s → ascii (drop_while is_ws s).
Proof. induction 1 as [|c s Hc Hs IH]; simpl; [constructor|]. destruct (is_ws c); [done|by constructor]. Qed.

Lemma parse_entry_total t line c : ascii line → parse_after_type t line c ≠ None.
Proof.
  intros Ha%drop_while_ascii. unfold parse_after_type, trim_ws_start in *.
  destruct (drop_while is_ws line) as [|x rest]; [by eapply parse_words_total, tokens_start|].
  destruct (decide (x = lbracket)); [|by eapply parse_words_total, tokens_start].
  apply Forall_cons in Ha as [_ Ha].
  destruct (parse_options_total (S (N.to_nat (utf8_len rest))) rest _ [] (tokens_start _ Ha)) as ([[opts t']|err] & -> & H); [|done].
  destruct (H _ _ eq_refl) as [rest' Ht']. by eapply parse_words_total.
Qed.

Lemma trim_ascii s : ascii s → ascii (trim_ws s).
Proof. unfold ascii. rewrite !Forall_forall. intros H c Hc%trim_subset. by apply H. Qed.

Lemma split_once_ws_ascii l pt rest : split_once_ws l = Some (pt, rest) → ascii l → ascii rest.
Proof.
  intros E Hl. revert pt E. induction Hl as [|c l Hc Hl IH]; intros pt E; simpl in E; [done|].
  destruct (is_ws c); [by injection E as <- <-|]. destruct (split_once_ws l) as [[p r]|] eqn:E'; [|done].
  injection E as <- ->. by eapply IH.
Qed.

Lemma parse_trimmed_total line cm : ascii line → parse_trimmed_line line cm ≠ None.
Proof.
  intros Ha. unfold parse_trimmed_line.
  assert (∃ l cm', (match split_once hash line with
    | Some (line_start, c) => (line_start, cm ++ c ++ [nl]) | None => (line, cm) end) = (l, cm') ∧ ascii l) as (l & cm' & -> & Hl).
  { destruct (split_once hash line) as [[a b]|] eqn:E; [|by eexists _, _].
    apply split_once_iff in E as [-> _]. apply Forall_app in Ha as [Ha _]. by eexists _, _. }
  destruct (split_once_ws l) as [[pt rest]|] eqn:E; [|done]. destruct (package_type_from_str pt) as [t|]; [|done].
  pose proof (parse_entry_total t rest cm' (split_once_ws_ascii _ _ _ E Hl)). by destruct (parse_after_type t rest cm') as [[]|].
Qed.

Lemma parse_one_line_total fuel : ∀ cm line, ascii line → parse_one_line fuel cm line ≠ None.
Proof.
  induction fuel as [|fuel IH]; intros cm line Ha; cbn [parse_one_line]; [done|]. apply trim_ascii in Ha.
  pose proof (λ cm, parse_trimmed_total (trim_ws line) cm Ha) as Hf.
  destruct (trim_ws line) as [|c rest] eqn:E; [by apply Hf|]. destruct (decide (c = hash)); [|apply Hf].
  apply Forall_cons in Ha as [_ Ha]. pose proof (IH cm rest Ha).
  destruct (parse_one_line fuel cm rest) as [[[[r|]|err] cm']|]; try done; apply Hf.
Qed.

Lemma parse_list_loop_total ls : ∀ n cm acc, Forall ascii ls → parse_list_loop n cm ls acc ≠ None.
Proof.
  induction ls as [|l ls IH]; intros n cm acc H; [done|]. apply Forall_cons in H as [Hl H]. cbn [parse_list_loop].
  pose proof (parse_one_line_total (S (length l)) cm l Hl).
  destruct (parse_one_line (S (length l)) cm l) as [[[[r|]|e] cm']|]; [by apply IH..|done|done].
Qed.

Lemma split_on_ascii s : ascii s → Forall ascii (split_on nl s).
Proof.
  induction 1 as [|c s Hc Hs IH]; [apply Forall_singleton, Forall_nil_2|]. simpl.
  case_decide; [apply Forall_cons_2; [apply Forall_nil_2|done]|].
  destruct (split_on nl s) as [|w ws]; [apply Forall_singleton, Forall_singleton, Hc|].
  apply Forall_cons in IH as [? ?]. by apply Forall_cons_2; [apply Forall_cons_2|].
Qed.

Lemma parse_list_total s : ascii s → parse_list s ≠ None.
Proof.
  intros Ha%split_on_ascii. apply parse_list_loop_total. unfold apt_lines. case_decide as E; [|done].
  apply last_Some in E as [l E]. rewrite E, removelast_last. rewrite E in Ha. by apply Forall_app in Ha as [? _].
Qed.

(** ** Files of the one-line format *)

(** A repository that the one-line format can express. *)
Record list_repo_ok (r : APTRepository) : Prop := {
  lr_type : r.(file_type) = List_;
  lr_shape : ∃ t u s, r.(types) = [t] ∧ r.(uris) = [u] ∧ r.(suites) = [s] ∧
    word_ok u ∧ head u ≠ Some lbracket ∧ word_ok s;
  lr_components : Forall word_ok r.(components);
  lr_options : Forall option_ok r.(options);
  lr_comment : ∃ cs, comment_ok r.(comment) cs;
}.

Definition disabled_mark (r : APTRepository) : rstr := if r.(enabled) then [] else lit "# ".

Lemma trim_pad s pad :
  no_ws_start s → s ≠ [] → no_ws_end s → pad = [] ∨ pad = [blank] → trim_ws (s ++ pad) = s.
Proof.
  intros Hb Hne He [->| ->]; [rewrite app_nil_r; by apply trim_ws_trimmed, trimmed_intro|by apply trim_ws_snoc].
Qed.

Lemma entry_text_start t opts u s comps : no_ws_start (entry_text t opts u s comps) ∧ entry_text t opts u s comps ≠ [].
Proof. unfold entry_text. split; [|by destruct t]. intros x. by destruct t; intros [= <-]. Qed.

Definition entry_pad (comps : list rstr) : rstr := match comps with [] => [blank] | _ => [] end.

Lemma entry_pad_cases comps : entry_pad comps = [] ∨ entry_pad comps = [blank].
Proof. destruct comps; auto. Qed.

Definition entry_line (en : bool) t opts u s comps : rstr :=
  (if en then [] else lit "# ") ++ entry_text t opts u s comps ++ entry_pad comps.

Lemma parse_written_line (en : bool) cm t opts u s comps :
  Forall option_ok opts → word_ok u → head u ≠ Some lbracket → word_ok s → Forall word_ok comps →
  parse_one_line (S (length (entry_line en t opts u s comps))) cm (entry_line en t opts u s comps) =
  Some (Ok (Some (mkRepo [t] [u] [s] comps opts cm List_ en)), []).
Proof.
  intros Ho Hu Hh Hs Hc. pose proof (entry_text_end t opts u s comps Hs Hc) as He.
  destruct (entry_text_start t opts u s comps) as [Hb Hne]. unfold entry_line. destruct en.
  - cbn [app]. apply parse_entry_line; try done. apply trim_pad; [done..|apply entry_pad_cases].
  - set (e := entry_text t opts u s comps) in *. change (lit "# " ++ e ++ entry_pad comps) with ((hash :: blank :: e) ++ entry_pad comps).
    set (fuel := length _). cbn [parse_one_line]. rewrite trim_pad; [|by intros x [= <-]|done| |apply entry_pad_cases].
    2:{ apply (no_ws_end_app [hash; blank] e); done. }
    rewrite decide_True by done. unfold fuel. cbn [app length].
    rewrite (parse_entry_line _ cm (blank :: e) t opts u s comps); try done. by apply trim_ws_lead.
Qed.

Lemma write_one_line_text r t u s cs :
  r.(file_type) = List_ → r.(types) = [t] → r.(uris) = [u] → r.(suites) = [s] → comment_ok r.(comment) cs →
  write_one_line r =
  Some (Ok (unlines (map (cons hash) cs ++ [entry_line r.(enabled) t r.(options) u s r.(components)]))).
Proof.
  intros Hf Ht Hu Hs Hc. unfold write_one_line. rewrite decide_True, Ht, Hu, Hs by done. do 2 f_equal.
  rewrite (write_comment_lines _ cs Hc), unlines_append. f_equal. unfold entry_line, entry_text, entry_rest, list_options, tail_text, entry_pad, words_text.
  rewrite unlines_cons. change (unlines []) with (@nil rchar).
  destruct r.(options), r.(components); cbn [map join_with app]; repeat (rewrite <- !app_assoc; cbn [app]); done.
Qed.

Lemma line_no_nl en t opts u s comps :
  Forall option_ok opts → word_ok u → word_ok s → Forall word_ok comps → nl ∉ entry_line en t opts u s comps.
Proof.
  intros Ho Hu Hs Hc. unfold entry_line, entry_text. rewrite !not_elem_of_app, not_elem_of_cons.
  repeat split; [by destruct en; apply (bool_decide_unpack _)|by destruct t; apply (bool_decide_unpack _)|done| |].
  - intros Hin.
    pose proof (entry_rest_chars (λ c, c ≠ nl) opts u s comps ltac:(by intros c (_ & _ & _ & ?)) ltac:(done) ltac:(done) Ho Hu Hs Hc) as H.
    rewrite Forall_forall in H. by apply (H nl).
  - by destruct comps; apply (bool_decide_unpack _).
Qed.

(** The lines of a repository, and that they are read as this repository. *)
Lemma list_repo_lines r :
  list_repo_ok r → ∃ ls, ls ≠ [] ∧ Forall (λ l, nl ∉ l) ls ∧ repo_write r = Some (Ok (unlines ls)) ∧
  ∀ n rest acc, ∃ m, parse_list_loop n [] (ls ++ rest) acc = parse_list_loop m [] rest (acc ++ [r]).
Proof.
  intros [Hf (t & u & s & Ht & Hu & Hs & Wu & Hh & Ws) Hc Ho (cs & Hcm)].
  exists (map (cons hash) cs ++ [entry_line r.(enabled) t r.(options) u s r.(components)]).
  split; [by destruct cs|]. split.
  { apply Forall_app. split; [|constructor; [by apply line_no_nl|constructor]]. apply Forall_fmap.
    eapply Forall_impl; [exact (proj2 Hcm)|]. intros c (_ & H & _). cbn. by rewrite not_elem_of_cons. }
  split; [unfold repo_write; rewrite Hf; by apply write_one_line_text|].
  destruct Hcm as [Hcm Hcs]. intros n rest acc.
  assert (∀ cm n, ∃ m, parse_list_loop n cm ((map (cons hash) cs ++ [entry_line r.(enabled) t r.(options) u s r.(components)]) ++ rest) acc =
    parse_list_loop m [] rest (acc ++ [mkRepo [t] [u] [s] r.(components) r.(options) (cm ++ unlines cs) List_ r.(enabled)])) as H.
  { clear Hcm. induction Hcs as [|c cs Hc' _ IH]; intros cm k.
    - cbn [map app]. cbn [parse_list_loop]. rewrite parse_written_line by done. rewrite app_nil_r. by eexists.
    - cbn [map app]. cbn [parse_list_loop]. rewrite parse_comment_line by done.
      destruct (IH (cm ++ c ++ [nl]) (S k)) as [m ->]. exists m.
      by rewrite unlines_cons, <- !app_assoc. }
  destruct (H [] n) as [m ->]. exists m. do 4 f_equal. simpl. rewrite <- Hcm, <- Ht, <- Hu, <- Hs, <- Hf. by destruct r.
Qed.

(** ** Stanzas *)

(** A line of a stanza: no white space at its ends. *)
Definition line_ok (l : rstr) : Prop := l ≠ [] ∧ (nl ∉ l) ∧ no_ws_start l ∧ no_ws_end l.
Definition plain_word (w : rstr) : Prop := w ≠ [] ∧ Forall (λ c, is_ws c = false) w.
Definition key_ok (key : rstr) : Prop := key ≠ [] ∧ valid_key key = true ∧ head key ≠ Some hash.
Definition key_line (key : rstr) (vs : list rstr) : rstr := key ++ colon :: blank :: join_with [blank] vs.

(** Continuation lines are joined; lines that do not start with a space are left as they are. *)
Lemma replace_two_app b l rest : nl ∉ l → replace_two nl b (l ++ rest) = l ++ replace_two nl b rest.
Proof.
  induction l as [|c l IH]; intros Hl; [done|]. apply not_elem_of_cons in Hl as [Hc Hl]. simpl.
  destruct (l ++ rest) as [|d s] eqn:E; [by destruct l; [simpl in E; subst rest|]|].
  rewrite decide_False by (intros [? _]; congruence). by rewrite IH.
Qed.

Lemma replace_two_unlines b ls :
  b ≠ nl → Forall (λ l, (nl ∉ l) ∧ head l ≠ Some b) ls → replace_two nl b (unlines ls) = unlines ls.
Proof.
  intros Hb H. induction H as [|l ls [Hl Hh] H IH]; [done|]. rewrite unlines_cons, replace_two_app by done. f_equal.
  cbn [replace_two]. destruct (unlines ls) as [|d s] eqn:E; [done|]. rewrite decide_False; [by rewrite IH|].
  intros [_ ->]. destruct H as [|l' ls' [_ Hh'] _]; [done|]. rewrite unlines_cons in E.
  destruct l' as [|x l']; simpl in E; [congruence|]. apply Hh'. simpl. congruence.
Qed.

Lemma line_ok_start l b : line_ok l ∨ l = [] → is_ws b = true → head l ≠ Some b.
Proof. intros [(_ & _ & Hs & _)| ->] Hb Hh; [|done]. apply Hs in Hh. congruence. Qed.

Lemma stanza_text_lines ls :
  Forall (λ l, line_ok l ∨ l = []) ls → lines (replace_two nl 9%N (replace_two nl blank (unlines ls))) = ls.
Proof.
  intros H. assert (Forall (λ l, nl ∉ l) ls) as Hn.
  { eapply Forall_impl; [exact H|]. intros l [(_ & ? & _)| ->]; [done|apply not_elem_of_nil]. }
  rewrite !replace_two_unlines; [|done| |done|].
  - apply lines_of_unlines. rewrite Forall_forall in *. intros l Hl. split; [by apply Hn|].
    destruct (H l Hl) as [(_ & _ & _ & ?)| ->]; [done|]. by intros c.
  - rewrite Forall_forall in *. intros l Hl. split; [by apply Hn|]. by apply line_ok_start; [apply H|].
  - rewrite Forall_forall in *. intros l Hl. split; [by apply Hn|]. by apply line_ok_start; [apply H|].
Qed.

(** Words that are separated by single spaces. *)
Lemma split_ws_word w s acc :
  Forall (λ c, is_ws c = false) w → split_ws_loop (w ++ s) acc = split_ws_loop s (acc ++ w).
Proof.
  intros H. revert acc. induction H as [|c w Hc _ IH]; intros acc; [by rewrite app_nil_r|]. simpl. rewrite Hc, IH.
  by rewrite <- app_assoc.
Qed.

Lemma split_join_blank vs :
  Forall plain_word vs → split_at_ws (blank :: join_with [blank] vs) = vs.
Proof.
  intros H. unfold split_at_ws. cbn [split_ws_loop]. replace (is_ws blank) with true by done.
  rewrite decide_True by done. induction H as [|v vs [Hne Hv] _ IH]; [done|]. destruct vs as [|v' vs].
  - cbn [join_with]. rewrite <- (app_nil_r v) at 1. rewrite split_ws_word by done. simpl. by rewrite decide_False.
  - change (join_with [blank] (v :: v' :: vs)) with (v ++ blank :: join_with [blank] (v' :: vs)).
    rewrite split_ws_word by done. cbn [app split_ws_loop]. replace (is_ws blank) with true by done.
    rewrite decide_False by done. by rewrite IH.
Qed.

Lemma join_blank_end vs : vs ≠ [] → Forall plain_word vs → join_with [blank] vs ≠ [] ∧ no_ws_end (join_with [blank] vs).
Proof.
  intros Hne H. induction H as [|v vs [Hv Hw] _ IH]; [done|]. destruct vs as [|v' vs].
  - split; [done|]. intros c Hc. rewrite Forall_forall in Hw. apply Hw. by apply last_Some_elem_of.
  - destruct IH as [H1 H2]; [done|].
    change (join_with [blank] (v :: v' :: vs)) with (v ++ ([blank] ++ join_with [blank] (v' :: vs))).
    split; [by destruct v|]. rewrite app_assoc. by apply no_ws_end_app.
Qed.

Lemma key_chars key : valid_key key = true → Forall (λ c, is_ws c = false ∧ c ≠ colon) key.
Proof.
  unfold valid_key. intros [_ H]%andb_prop. rewrite Forall_forall. rewrite forallb_forall in H. intros c Hc.
  apply list_elem_of_In, H in Hc. assert (c ≠ 32 ∧ c ≠ 9 ∧ c ≠ 10 ∧ c ≠ 12 ∧ c ≠ 13 ∧ c ≠ 58)%N as (?&?&?&?&?&?).
  { apply orb_prop in Hc as [Hc|Hc]; apply andb_prop in Hc as [H1%N.leb_le H2%N.leb_le]; lia. }
  split; [|done]. unfold is_ws. apply bool_decide_eq_false_2. rewrite !elem_of_cons, elem_of_nil. tauto.
Qed.

Lemma key_line_ok key vs : key_ok key → vs ≠ [] → Forall plain_word vs → line_ok (key_line key vs).
Proof.
  intros (Hne & Hk & _) Hv Hp. apply key_chars in Hk. destruct (join_blank_end vs Hv Hp) as [H1 H2]. unfold key_line.
  assert (∀ v, v ∈ vs → nl ∉ v) as Hnl.
  { intros v Hin Hx. rewrite Forall_forall in Hp. destruct (Hp v Hin) as [_ Hw]. rewrite Forall_forall in Hw.
    by apply Hw in Hx. }
  repeat split.
  - by destruct key.
  - rewrite not_elem_of_app, !not_elem_of_cons. repeat split; [|done|done|].
    + intros Hx. rewrite Forall_forall in Hk. by destruct (Hk nl Hx).
    + clear -Hnl. induction vs as [|v vs IH]; [apply not_elem_of_nil|]. pose proof (Hnl v ltac:(by left)) as Hv.
      destruct vs as [|v' vs]; [done|].
      change (join_with [blank] (v :: v' :: vs)) with (v ++ blank :: join_with [blank] (v' :: vs)).
      rewrite not_elem_of_app, not_elem_of_cons. split; [done|]. split; [done|]. apply IH. intros x Hx. apply Hnl. by right.
  - destruct key as [|c key]; [done|]. intros x [= <-]. apply Forall_cons in Hk as [[? _] _]. done.
  - rewrite cons_middle, app_assoc, cons_middle, app_assoc. by apply no_ws_end_app.
Qed.

Lemma stanza_key_line st key vs :
  key_ok key → vs ≠ [] → Forall plain_word vs →
  stanza_line st (key_line key vs) =
  (let? r := apply_key st.(st_repo) key (blank :: join_with [blank] vs) in Ok (mkStanza r st.(st_comment) true)).
Proof.
  intros Hok Hv Hp. destruct (key_line_ok key vs Hok Hv Hp) as (_ & _ & Hs & He). destruct Hok as (Hne & Hk & Hh).
  unfold stanza_line. rewrite trim_ws_trimmed by by apply trimmed_intro.
  assert (split_once colon (key_line key vs) = Some (key, blank :: join_with [blank] vs)) as ->.
  { apply split_once_iff. split; [done|]. intros Hx. apply key_chars in Hk. rewrite Forall_forall in Hk. by destruct (Hk _ Hx). }
  assert (trim_ws key = key) as ->.
  { apply key_chars in Hk. rewrite Forall_forall in Hk. apply trim_ws_trimmed, trimmed_intro.
    - intros c Hc. apply Hk. destruct key; [done|]. injection Hc as <-. by left.
    - intros c Hc. apply Hk. by apply last_Some_elem_of. }
  rewrite Hk. unfold key_line. destruct key as [|c key]; [done|]. cbn [app negb].
  by rewrite !decide_False by (intros ->; done).
Qed.

Lemma stanza_comment_line st c :
  no_ws_end c → stanza_line st (hash :: c) = Ok (mkStanza st.(st_repo) (st.(st_comment) ++ c ++ [nl]) st.(got_something)).
Proof.
  intros He. unfold stanza_line. rewrite trim_ws_trimmed; [by rewrite decide_True|]. apply trimmed_intro; [by intros x [= <-]|].
  intros x. destruct c as [|d c]; [by intros [= <-]|]. rewrite last_cons_cons. apply He.
Qed.

Lemma stanza_loop_app st a b : stanza_loop st (a ++ b) = (let? st := stanza_loop st a in stanza_loop st b).
Proof. revert st. induction a as [|l a IH]; intros st; simpl; [done|]. destruct (stanza_line st l); simpl; [apply IH|done]. Qed.

Lemma stanza_comments r cs : ∀ cm, Forall no_ws_end cs →
  stanza_loop (mkStanza r cm false) (map (cons hash) cs) = Ok (mkStanza r (cm ++ unlines cs) false).
Proof.
  induction cs as [|c cs IH]; intros cm H; [by rewrite app_nil_r|]. apply Forall_cons in H as [Hc H].
  cbn [map stanza_loop]. rewrite stanza_comment_line by done. simpl. rewrite IH by done. f_equal.
  by rewrite unlines_cons, <- !app_assoc.
Qed.

(** *** Options of stanzas *)
Definition reserved_keys : list rstr := [lit "types"; lit "uris"; lit "suites"; lit "components"; lit "enabled"].

Definition plain_option (o : APTRepositoryOption) : Prop :=
  key_ok o.(opt_key) ∧ (ascii_lower o.(opt_key) ∉ reserved_keys) ∧ o.(opt_values) ≠ [] ∧ Forall plain_word o.(opt_values).

Definition with_options (r : APTRepository) (opts : list APTRepositoryOption) (en : bool) : APTRepository :=
  mkRepo r.(types) r.(uris) r.(suites) r.(components) opts r.(comment) r.(file_type) en.

Definition option_line (o : APTRepositoryOption) : rstr := key_line o.(opt_key) o.(opt_values).

Lemma stanza_options opts : ∀ r cm, Forall plain_option opts →
  stanza_loop (mkStanza r cm true) (map option_line opts) =
  Ok (mkStanza (with_options r (r.(options) ++ opts) r.(enabled)) cm true).
Proof.
  induction opts as [|o opts IH]; intros r cm H; [simpl; rewrite app_nil_r; by destruct r|].
  apply Forall_cons in H as [(Hk & Hr & Hv & Hp) H]. cbn [map stanza_loop]. unfold option_line at 1.
  rewrite stanza_key_line by done. unfold apply_key. cbn [st_repo st_comment].
  rewrite split_join_blank by done. unfold reserved_keys in Hr. rewrite !not_elem_of_cons in Hr.
  destruct Hr as (?&?&?&?&?&_). rewrite !decide_False by done. cbn [rbind]. rewrite IH by done.
  unfold with_options. simpl. rewrite <- app_assoc. by destruct o.
Qed.

Lemma set_enabled_append v l : Forall plain_option l → set_enabled_option v l = l ++ [mkOption (lit "Enabled") [v]].
Proof.
  induction 1 as [|o l (_ & Hr & _) _ IH]; [done|]. simpl. rewrite decide_False; [by rewrite IH|].
  intros E. rewrite E in Hr. by apply Hr, (bool_decide_unpack _).
Qed.

(** The option [Enabled] states what the flag says; without it a repository is enabled. *)
Definition stanza_options_ok (opts : list APTRepositoryOption) (en : bool) : Prop :=
  (Forall plain_option opts ∧ en = true) ∨
  ∃ a b, opts = a ++ mkOption (lit "Enabled") [bool_text en] :: b ∧ Forall plain_option a ∧ Forall plain_option b.

Lemma bool_word b : plain_word (bool_text b).
Proof. destruct b; (split; [done|]); repeat constructor. Qed.

Lemma enabled_key : key_ok (lit "Enabled").
Proof. by split_and!. Qed.

Lemma string_to_bool_text b : string_to_bool (blank :: join_with [blank] [bool_text b]) true = b.
Proof. by destruct b. Qed.

Lemma stanza_all_options opts en r cm :
  r.(file_type) = Sources → r.(options) = [] → r.(enabled) = true → stanza_options_ok opts en →
  stanza_loop (mkStanza r cm true) (map option_line opts) = Ok (mkStanza (with_options r opts en) cm true).
Proof.
  intros Hf Ho He [[H ->]|(a & b & -> & Ha & Hb)].
  - rewrite stanza_options by done. by rewrite Ho, He.
  - rewrite map_app, stanza_loop_app, stanza_options, Ho, He by done. cbn [rbind map stanza_loop app].
    unfold option_line at 1. cbn [opt_key opt_values].
    rewrite stanza_key_line; [|exact enabled_key|done|by constructor; [apply bool_word|]].
    unfold apply_key. change (ascii_lower (lit "Enabled")) with (lit "enabled"). rewrite !decide_False by done.
    rewrite decide_True, string_to_bool_text by done. cbn [rbind st_repo st_comment]. unfold set_enabled.
    cbn [with_options file_type options]. rewrite Hf, set_enabled_append by done. rewrite stanza_options by done.
    unfold with_options. simpl. rewrite <- app_assoc. by rewrite <- Hf.
Qed.

(** *** A repository as a stanza *)
Record stanza_repo_ok (r : APTRepository) : Prop := {
  sr_type : r.(file_type) = Sources;
  sr_types : r.(types) ≠ [];
  sr_uris : r.(uris) ≠ [] ∧ Forall plain_word r.(uris);
  sr_suites : r.(suites) ≠ [] ∧ Forall plain_word r.(suites);
  sr_components : Forall plain_word r.(components);
  sr_options : stanza_options_ok r.(options) r.(enabled);
  sr_comment : ∃ cs, r.(comment) = unlines cs ∧ Forall (λ c, (nl ∉ c) ∧ no_ws_end c) cs;
}.

Definition component_lines (comps : list rstr) : list rstr :=
  match comps with [] => [] | _ => [key_line (lit "Components") comps] end.

Definition stanza_lines (r : APTRepository) (cs : list rstr) : list rstr :=
  map (cons hash) cs ++
  [key_line (lit "Types") (map package_type_text r.(types)); key_line (lit "URIs") r.(uris); key_line (lit "Suites") r.(suites)] ++
  component_lines r.(components) ++ map option_line r.(options).

Lemma types_text l : l ≠ [] →
  concat (map (λ t, blank :: package_type_text t) l) = blank :: join_with [blank] (map package_type_text l).
Proof.
  induction l as [|t l IH]; [done|]. intros _. destruct l as [|t' l]; [simpl; by rewrite app_nil_r|].
  cbn [map concat] in *. rewrite IH by done. done.
Qed.

Lemma write_line_key key vs : write_field key vs = key_line key vs ++ [nl].
Proof. unfold write_field, key_line. by rewrite <- app_assoc. Qed.

Lemma write_stanza_text r cs :
  r.(file_type) = Sources → r.(types) ≠ [] → r.(comment) = unlines cs → Forall (λ c, (nl ∉ c) ∧ no_ws_end c) cs →
  write_stanza r = Ok (unlines (stanza_lines r cs)).
Proof.
  intros Hf Ht Hc Hcs. unfold write_stanza. rewrite decide_True by done. f_equal. unfold stanza_lines.
  rewrite !unlines_append. f_equal.
  - unfold write_comment. rewrite Hc, lines_of_unlines by done. unfold unlines. f_equal. by rewrite map_map.
  - rewrite types_text, !write_line_key by done. rewrite !unlines_cons.
    assert (match r.(components) with [] => [] | l => write_field (lit "Components") l end =
      unlines (component_lines r.(components))) as ->.
    { destruct r.(components); [done|]. rewrite write_line_key. unfold unlines. simpl. by rewrite app_nil_r. }
    assert (concat (map (λ o, write_field o.(opt_key) o.(opt_values)) r.(options)) = unlines (map option_line r.(options))) as ->.
    { unfold unlines. f_equal. rewrite map_map. apply map_ext. intros o. apply write_line_key. }
    unfold key_line. repeat (rewrite <- !app_assoc; cbn [app]). done.
Qed.

Lemma package_type_word t : plain_word (package_type_text t).
Proof. destruct t; (split; [done|]); repeat constructor. Qed.

Lemma package_type_words l : Forall plain_word (map package_type_text l).
Proof. apply Forall_fmap, Forall_true, package_type_word. Qed.

Lemma parse_types_text l : parse_types (map package_type_text l) = Ok l.
Proof. induction l as [|t l IH]; [done|]. simpl. by rewrite package_type_roundtrip, IH. Qed.

Lemma stanza_lines_ok r cs :
  stanza_repo_ok r → Forall (λ c, (nl ∉ c) ∧ no_ws_end c) cs → Forall line_ok (stanza_lines r cs).
Proof.
  intros [Hf Ht [Hu Wu] [Hs Ws] Wc Ho _] Hcs. unfold stanza_lines.
  assert (∀ o, plain_option o → line_ok (option_line o)) as Hp by (intros o (? & _ & ? & ?); by apply key_line_ok).
  apply Forall_app_2; [|apply Forall_app_2; [|apply Forall_app_2]].
  - apply Forall_fmap. eapply Forall_impl; [exact Hcs|]. intros c [Hn He]. split; [done|].
    split; [by rewrite not_elem_of_cons|]. split; [by intros x [= <-]|]. intros x. destruct c; [by intros [= <-]|apply He].
  - repeat apply Forall_cons_2; [apply key_line_ok; [done|by destruct r.(types)|apply package_type_words]|by apply key_line_ok..|done].
  - unfold component_lines. destruct r.(components); [done|]. apply Forall_cons_2; [by apply key_line_ok|done].
  - apply Forall_fmap. destruct Ho as [[Ho _]|(a & b & -> & Ha & Hb)]; [by eapply Forall_impl|].
    apply Forall_app_2; [by eapply Forall_impl|]. constructor; [|by eapply Forall_impl].
    apply key_line_ok; [exact enabled_key|done|]. constructor; [apply bool_word|done].
Qed.

Lemma stanza_fields r cm :
  stanza_repo_ok r →
  stanza_loop (mkStanza (repo_new Sources) cm false)
    ([key_line (lit "Types") (map package_type_text r.(types)); key_line (lit "URIs") r.(uris); key_line (lit "Suites") r.(suites)] ++
     component_lines r.(components)) =
  Ok (mkStanza (mkRepo r.(types) r.(uris) r.(suites) r.(components) [] [] Sources true) cm true).
Proof.
  intros [Hf Ht [Hu Wu] [Hs Ws] Wc _ _]. cbn [app stanza_loop].
  rewrite stanza_key_line; [|done|by destruct r.(types)|apply package_type_words].
  unfold apply_key at 1. rewrite decide_True by done. rewrite split_join_blank by apply package_type_words.
  rewrite parse_types_text. cbn [rbind].
  rewrite stanza_key_line by done. unfold apply_key at 1. rewrite decide_False, decide_True by done.
  rewrite split_join_blank by done. cbn [rbind].
  rewrite stanza_key_line by done. unfold apply_key at 1. rewrite !decide_False, decide_True by done.
  rewrite split_join_blank by done. cbn [rbind].
  unfold component_lines. destruct r.(components) as [|x l] eqn:E; [done|]. cbn [stanza_loop].
  rewrite stanza_key_line by done. unfold apply_key at 1. rewrite !decide_False, decide_True by done.
  by rewrite split_join_blank by done.
Qed.

Lemma parse_stanza_text r cs tail :
  stanza_repo_ok r → r.(comment) = unlines cs → Forall (λ c, (nl ∉ c) ∧ no_ws_end c) cs → tail = [] ∨ tail = [[]] →
  parse_stanza [] (unlines (stanza_lines r cs ++ tail)) = Ok (Some r, []).
Proof.
  intros Hr Hc Hcs Htail. pose proof (stanza_lines_ok r cs Hr Hcs) as Hl. unfold parse_stanza. rewrite stanza_text_lines.
  2:{ apply Forall_app_2; [eapply Forall_impl; [exact Hl|]; by left|]. destruct Htail as [-> | ->]; [done|]. by apply Forall_cons_2; [right|]. }
  assert (stanza_loop (mkStanza (repo_new Sources) [] false) (stanza_lines r cs) = Ok (mkStanza
    (mkRepo r.(types) r.(uris) r.(suites) r.(components) r.(options) [] Sources r.(enabled)) r.(comment) true)) as H.
  { unfold stanza_lines. rewrite stanza_loop_app, stanza_comments.
    2:{ eapply Forall_impl; [exact Hcs|]. by intros c [_ ?]. }
    cbn [rbind]. rewrite app_assoc, stanza_loop_app, stanza_fields by done. cbn [rbind].
    rewrite (stanza_all_options _ r.(enabled)) by (try done; apply Hr). by rewrite Hc. }
  rewrite stanza_loop_app, H. cbn [rbind].
  assert (∀ st, stanza_loop st tail = Ok st) as -> by (intros st; by destruct Htail as [-> | ->]).
  cbn [rbind got_something st_repo st_comment]. rewrite <- (sr_type r Hr). by destruct r.
Qed.

(** The lines of a repository, and that they are read as this repository: at the end
    of the file, or before an empty line. *)
Lemma sources_text_loop ls : ∀ n cm text rest acc, Forall line_ok ls →
  parse_sources_loop n cm text (map (λ l, l ++ [nl]) ls ++ rest) acc =
  parse_sources_loop n cm (text ++ unlines ls) rest acc.
Proof.
  induction ls as [|l ls IH]; intros n cm text rest acc H; [by rewrite app_nil_r|].
  apply Forall_cons in H as [(H1 & H2 & H3 & H4) H]. cbn [map app parse_sources_loop].
  rewrite trim_ws_snoc, decide_False by done. rewrite IH by done. by rewrite unlines_cons, <- !app_assoc.
Qed.

(** ** Files *)

(** The lines of a repository. *)
Definition repo_block (r : APTRepository) : list rstr :=
  match repo_write r with Some (Ok text) => apt_lines text | _ => [] end.

Lemma repo_block_lines r ls : Forall (λ l, nl ∉ l) ls → repo_write r = Some (Ok (unlines ls)) → repo_block r = ls.
Proof. intros H E. unfold repo_block. by rewrite E, apt_lines_unlines. Qed.

Definition block_ok (r : APTRepository) : Prop :=
  repo_block r ≠ [] ∧ Forall (λ l, nl ∉ l) (repo_block r) ∧ repo_write r = Some (Ok (unlines (repo_block r))).

(** What a format promises of the repositories it can express: the text of the writer
    consists of lines, and a file made of such texts, separated by empty lines, is
    read as these repositories. *)
Class FileFormat (ft : APTRepositoryFileType) := {
  repo_ok : APTRepository → Prop;
  repo_ok_block : ∀ r, repo_ok r → block_ok r;
  file_read : ∀ repos, repos ≠ [] → Forall repo_ok repos →
    match ft with
    | List_ => parse_list (unlines (join_with [[]] (map repo_block repos)))
    | Sources => Some (parse_sources (unlines (join_with [[]] (map repo_block repos))))
    end = Some (Ok repos);
}.

Lemma join_blocks_cons r r' repos :
  join_with [[]] (map repo_block (r :: r' :: repos)) = repo_block r ++ [] :: join_with [[]] (map repo_block (r' :: repos)).
Proof. done. Qed.

Lemma join_blocks_lines repos :
  Forall block_ok repos → Forall (λ l, nl ∉ l) (join_with [[]] (map repo_block repos)).
Proof.
  intros H. apply Forall_join; [constructor; [apply not_elem_of_nil|done]|]. apply Forall_fmap.
  eapply Forall_impl; [exact H|]. by intros r (_ & ? & _).
Qed.

(** The text of a file is made of the lines of its repositories. *)
Lemma file_content_append repos : ∀ n ls,
  ls ≠ [] → Forall block_ok repos → Forall (λ r, basic_check r = Ok tt) repos →
  file_content n (unlines ls) repos = Some (Ok (unlines (ls ++ concat (map (λ r, [] :: repo_block r) repos)))).
Proof.
  induction repos as [|r repos IH]; intros n ls Hne Hb Hc; [simpl; by rewrite app_nil_r|].
  apply Forall_cons in Hb as [(H1 & H2 & H3) Hb]. apply Forall_cons in Hc as [Hr Hc].
  cbn [file_content]. rewrite Hr, H3. rewrite decide_False by (destruct ls as [|[|]]; done).
  assert ((unlines ls ++ [nl]) ++ unlines (repo_block r) = unlines (ls ++ [] :: repo_block r)) as ->.
  { rewrite unlines_append, unlines_cons. by rewrite <- app_assoc. }
  rewrite IH by (try done; by destruct ls). simpl. by rewrite <- !app_assoc.
Qed.

Lemma join_blocks r repos :
  join_with [[]] (map repo_block (r :: repos)) = repo_block r ++ concat (map (λ r, [] :: repo_block r) repos).
Proof.
  revert r. induction repos as [|r' repos IH]; intros r; [simpl; by rewrite app_nil_r|].
  rewrite join_blocks_cons, IH. done.
Qed.

Lemma file_write_text repos :
  repos ≠ [] → Forall block_ok repos → Forall (λ r, basic_check r = Ok tt) repos →
  file_write repos = Some (Ok (Some (unlines (join_with [[]] (map repo_block repos))))).
Proof.
  intros Hne Hb Hc. destruct repos as [|r repos]; [done|]. unfold file_write. cbn [file_content].
  apply Forall_cons in Hb as [(H1 & H2 & H3) Hb]. apply Forall_cons in Hc as [Hr Hc]. rewrite Hr, H3.
  rewrite decide_True by done. cbn [app]. rewrite file_content_append by done. by rewrite join_blocks.
Qed.

Lemma check_repos_ok repos : ∀ n, Forall (λ r, basic_check r = Ok tt) repos → check_repos n repos = Ok tt.
Proof. induction repos as [|r repos IH]; intros n H; [done|]. apply Forall_cons in H as [Hr H]. simpl. by rewrite Hr, IH. Qed.

(** *** The one-line format *)
Lemma list_block r :
  list_repo_ok r → block_ok r ∧
  ∀ n rest acc, ∃ m, parse_list_loop n [] (repo_block r ++ rest) acc = parse_list_loop m [] rest (acc ++ [r]).
Proof.
  intros Hr. destruct (list_repo_lines r Hr) as (ls & H1 & H2 & H3 & H4). unfold block_ok.
  by rewrite (repo_block_lines r ls).
Qed.

Lemma list_file_read repos : ∀ n acc,
  Forall list_repo_ok repos →
  parse_list_loop n [] (join_with [[]] (map repo_block repos)) acc = Some (Ok (acc ++ repos)).
Proof.
  induction repos as [|r repos IH]; intros n acc H; [simpl; by rewrite app_nil_r|].
  apply Forall_cons in H as [Hr H]. destruct (list_block r Hr) as [_ Hp]. destruct repos as [|r' repos].
  - cbn [map join_with]. rewrite <- (app_nil_r (repo_block r)). by destruct (Hp n [] acc) as [m ->].
  - rewrite join_blocks_cons. destruct (Hp n ([] :: join_with [[]] (map repo_block (r' :: repos))) acc) as [m ->].
    cbn [parse_list_loop]. change (parse_one_line (S (length [])) [] []) with (Some (Ok (E := AptError) (@None APTRepository), @nil rchar)).
    cbn beta iota. rewrite IH by done. by rewrite <- app_assoc.
Qed.

#[export] Program Instance list_format : FileFormat List_ := {| repo_ok := list_repo_ok |}.
Next Obligation. intros r Hr. by apply list_block. Qed.
Next Obligation.
  intros repos _ H. cbn beta iota. unfold parse_list. rewrite apt_lines_unlines; [by apply list_file_read|].
  apply join_blocks_lines. eapply Forall_impl; [exact H|]. intros r Hr. by apply list_block.
Qed.

(** *** The stanza format *)
Lemma stanza_block r :
  stanza_repo_ok r → block_ok r ∧ Forall line_ok (repo_block r) ∧
  parse_stanza [] (unlines (repo_block r)) = Ok (Some r, []) ∧
  parse_stanza [] (unlines (repo_block r) ++ [nl]) = Ok (Some r, []).
Proof.
  intros Hr. destruct (sr_comment r Hr) as (cs & Hc & Hcs). pose proof (stanza_lines_ok r cs Hr Hcs) as Hl.
  assert (Forall (λ l, nl ∉ l) (stanza_lines r cs)) as Hn by (eapply Forall_impl; [exact Hl|]; by intros l (_ & ? & _)).
  assert (repo_write r = Some (Ok (unlines (stanza_lines r cs)))) as Hw.
  { unfold repo_write. rewrite (sr_type r Hr). f_equal. apply write_stanza_text; [apply Hr..|done|done]. }
  unfold block_ok. rewrite (repo_block_lines r _ Hn Hw). split; [split_and!; try done|split; [done|split]].
  - unfold stanza_lines. by destruct cs.
  - rewrite <- (parse_stanza_text r cs [] Hr Hc Hcs); [by rewrite app_nil_r|by left].
  - rewrite <- (parse_stanza_text r cs [[]] Hr Hc Hcs); [by rewrite unlines_append|by right].
Qed.

Lemma sources_file_read repos : ∀ n acc,
  repos ≠ [] → Forall stanza_repo_ok repos →
  parse_sources_loop n [] [] (map (λ l, l ++ [nl]) (join_with [[]] (map repo_block repos))) acc = Ok (acc ++ repos).
Proof.
  induction repos as [|r repos IH]; intros n acc Hne H; [done|].
  apply Forall_cons in H as [Hr H]. destruct (stanza_block r Hr) as (_ & Hl & Hp & Hp'). destruct repos as [|r' repos].
  - cbn [map join_with]. rewrite <- (app_nil_r (map _ _)), sources_text_loop by done. cbn [app parse_sources_loop].
    by rewrite Hp.
  - rewrite join_blocks_cons, map_app, sources_text_loop by done. cbn [map app parse_sources_loop].
    rewrite decide_True by done. rewrite Hp'. rewrite IH by done. by rewrite <- app_assoc.
Qed.

#[export] Program Instance sources_format : FileFormat Sources := {| repo_ok := stanza_repo_ok |}.
Next Obligation. intros r Hr. by apply stanza_block. Qed.
Next Obligation.
  intros repos Hne H. cbn beta iota. unfold parse_sources. rewrite terminated_unlines; [by rewrite sources_file_read|].
  apply join_blocks_lines. eapply Forall_impl; [exact H|]. intros r Hr. by apply stanza_block.
Qed.

(** ** Round trip *)

Lemma format_roundtrip (ft : APTRepositoryFileType) `{FileFormat ft} repos :
  repos ≠ [] → Forall repo_ok repos → Forall (λ r, basic_check r = Ok tt) repos →
  ∃ text, file_write repos = Some (Ok (Some text)) ∧ file_parse ft text = Some (Ok repos).
Proof.
  intros Hne Hok Hc. eexists. split.
  - apply file_write_text; [done| |done]. eapply Forall_impl; [exact Hok|]. apply repo_ok_block.
  - unfold file_parse. rewrite file_read by done. by rewrite check_repos_ok.
Qed.

Definition expressible (ft : APTRepositoryFileType) (r : APTRepository) : Prop :=
  match ft with List_ => list_repo_ok r | Sources => stanza_repo_ok r end.

(** [C22] A file is written, and read back as exactly the repositories it was written from,
    with their options, comments and whether they are enabled: in either format, for
    repositories that the format can express and that pass the check. *)
Theorem file_roundtrip ft repos :
  repos ≠ [] → Forall (expressible ft) repos → Forall (λ r, basic_check r = Ok tt) repos →
  ∃ text, file_write repos = Some (Ok (Some text)) ∧ file_parse ft text = Some (Ok repos).
Proof. destruct ft; [exact (format_roundtrip List_ repos)|exact (format_roundtrip Sources repos)]. Qed.

Definition example_list : list APTRepository :=
  [ mkRepo [Deb] [lit "http://ftp.debian.org/debian"] [lit "bookworm"] [lit "main"; lit "contrib non-free"]
      [mkOption (lit "arch") [lit "amd64"; lit "arm64"]] (lit " the base system" ++ [nl]) List_ true;
    mkRepo [DebSrc] [lit "cdrom:[Debian 12 x]/"] [lit "dists/"] [] [] [] List_ false ].

Definition example_sources : list APTRepository :=
  [ mkRepo [Deb; DebSrc] [lit "http://deb.debian.org/debian"] [lit "trixie"; lit "trixie-updates"] [lit "main"]
      [mkOption (lit "Signed-By") [lit "/usr/share/keyrings/x.gpg"]; mkOption (lit "Enabled") [lit "false"];
       mkOption (lit "Architectures") [lit "amd64"; lit "arm64"]]
      (lit " first # line" ++ [nl]) Sources false;
    mkRepo [Deb] [lit "file:///srv/x"] [lit "x/"] [] [] [] Sources true ].

(** Deciding the conditions on concrete words. *)
#[export] Instance word_char_dec c : Decision (word_char c).
Proof. unfold word_char. apply _. Defined.
#[export] Instance word_ok_dec w : Decision (word_ok w).
Proof. unfold word_ok. apply _. Defined.
#[export] Instance option_ok_dec o : Decision (option_ok o).
Proof. unfold option_ok. apply _. Defined.
#[export] Instance plain_word_dec w : Decision (plain_word w).
Proof. unfold plain_word. apply _. Defined.
#[export] Instance plain_option_dec o : Decision (plain_option o).
Proof. unfold plain_option, key_ok. apply _. Defined.

Lemma no_ws_end_bool s : match last s with Some c => negb (is_ws c) | None => true end = true → no_ws_end s.
Proof. intros H c E. rewrite E in H. by apply negb_true_iff. Qed.

Lemma comment_line_bool c :
  bool_decide (hash ∉ c) && bool_decide (nl ∉ c) && (match last c with Some c => negb (is_ws c) | None => true end) &&
  (match split_once_ws (trim_ws c) with
   | Some (pt, _) => bool_decide (package_type_from_str pt = None)
   | None => true
   end) = true → comment_line_ok c.
Proof.
  rewrite !andb_true_iff. intros [[[H1%bool_decide_eq_true_1 H2%bool_decide_eq_true_1] H3] H4].
  split_and!; [done..|by apply no_ws_end_bool|]. intros pt rest E. rewrite E in H4. by apply bool_decide_eq_true_1 in H4.
Qed.

Lemma example_list_ok : Forall list_repo_ok example_list.
Proof.
  repeat apply Forall_cons_2; [| |done].
  - split; [done| | | |].
    + exists Deb, (lit "http://ftp.debian.org/debian"), (lit "bookworm").
      split_and!; try done; apply (bool_decide_unpack _); vm_compute; done.
    + apply (bool_decide_unpack _); vm_compute; done.
    + apply (bool_decide_unpack _); vm_compute; done.
    + exists [lit " the base system"]. split; [done|]. by apply Forall_cons_2; [apply comment_line_bool|].
  - split; [done| | | |].
    + exists DebSrc, (lit "cdrom:[Debian 12 x]/"), (lit "dists/").
      split_and!; try done; apply (bool_decide_unpack _); vm_compute; done.
    + constructor.
    + constructor.
    + by exists [].
Qed.

Lemma example_sources_ok : Forall stanza_repo_ok example_sources.
Proof.
  repeat apply Forall_cons_2; [| |done].
  - split; try done; try (apply (bool_decide_unpack _); vm_compute; done).
    + right. exists [mkOption (lit "Signed-By") [lit "/usr/share/keyrings/x.gpg"]], [mkOption (lit "Architectures") [lit "amd64"; lit "arm64"]].
      split; [done|]. apply (bool_decide_unpack _); vm_compute; done.
    + exists [lit " first # line"]. split; [done|]. constructor; [|done].
      split; [apply (bool_decide_unpack _); vm_compute; done|by apply no_ws_end_bool].
  - split; try done; try (apply (bool_decide_unpack _); vm_compute; done).
    + by left.
    + by exists [].
Qed.

Lemma file_roundtrip_witness :
  (∃ text, file_write example_list = Some (Ok (Some text)) ∧ file_parse List_ text = Some (Ok example_list)) ∧
  (∃ text, file_write example_sources = Some (Ok (Some text)) ∧ file_parse Sources text = Some (Ok example_sources)).
Proof.
  split; apply file_roundtrip; try done; [apply example_list_ok| |apply example_sources_ok|];
    repeat (apply Forall_cons_2; [vm_compute; reflexivity|]); apply Forall_nil_2.
Defined.

(** ** Where reading back differs *)

(** Positions are counted in characters but used in bytes: a line with characters
    outside of ASCII makes the parser panic, or gives components that are not there. *)
Lemma non_ascii_panics : parse_list (lit "deb http://x.org/ " ++ [233; 233]%N ++ lit " main") = None.
Proof. vm_compute. reflexivity. Qed.

Lemma non_ascii_component :
  match parse_list (lit "deb http://x.org/ a m" ++ [233]%N ++ lit "in") with
  | Some (Ok [r]) => r.(components) = [lit "m" ++ [233]%N ++ lit "in"; lit "n"]
  | _ => False
  end.
Proof. vm_compute. reflexivity. Qed.

(** A comment with a second number sign is collected twice, and grows each time the
    file is read and written. *)
Lemma comment_grows :
  match parse_list (lit "# foo # bar" ++ [nl] ++ lit "deb http://x.org/ a main") with
  | Some (Ok [r]) => r.(comment) = lit " bar" ++ [nl] ++ lit " foo # bar" ++ [nl]
  | _ => False
  end.
Proof. vm_compute. reflexivity. Qed.
