(* ===== verification/AptStandard.v ===== *)
(** * AptStandard: the standard repositories and the notes on repositories

    Models the types of [proxmox-apt-api-types/src/lib.rs] that name releases, products
    and repositories, with the handles and their text form; the table of standard
    repositories of [proxmox-apt/src/repositories/standard.rs], how a handle becomes a
    repository and a repository is recognised; and from [file.rs], [repository.rs] and
    [mod.rs] the notes on suites and origins and the names of release files. Whether the
    release file of a URI is signed by a key ([is_signed_by_key]: files and OpenPGP) and
    the origin a release file states are parameters. *)
From S2P Require Import Prelude TextCoding Apt.

(** ** Releases, products, repository types *)
Inductive DebianCodename :=
| Lenny | Squeeze | Wheezy | Jessie | Stretch | Buster | Bullseye | Bookworm | Trixie | Forky | Duke
| UnknownCodename (s : rstr).

#[export] Instance DebianCodename_eq_dec : EqDecision DebianCodename.
Proof. solve_decision. Defined.

Definition rank (c : DebianCodename) : N :=
  match c with
  | Lenny => 1 | Squeeze => 2 | Wheezy => 3 | Jessie => 4 | Stretch => 5 | Buster => 6 | Bullseye => 7
  | Bookworm => 8 | Trixie => 9 | Forky => 10 | Duke => 11 | UnknownCodename _ => 255
  end%N.

Definition codename_cmp (a b : DebianCodename) : comparison :=
  match a, b with
  | UnknownCodename a, UnknownCodename b => str_compare a b
  | _, _ => (rank a ?= rank b)%N
  end.

Definition codename_text (c : DebianCodename) : rstr :=
  match c with
  | Lenny => lit "lenny" | Squeeze => lit "squeeze" | Wheezy => lit "wheezy" | Jessie => lit "jessie"
  | Stretch => lit "stretch" | Buster => lit "buster" | Bullseye => lit "bullseye" | Bookworm => lit "bookworm"
  | Trixie => lit "trixie" | Forky => lit "forky" | Duke => lit "duke" | UnknownCodename s => s
  end.

Definition known_codenames : list DebianCodename :=
  [Lenny; Squeeze; Wheezy; Jessie; Stretch; Buster; Bullseye; Bookworm; Trixie; Forky; Duke].

(** [DebianCodename::from_known] *)
Definition from_known (s : rstr) : option DebianCodename :=
  if decide (s = lit "lenny") then Some Lenny
  else if decide (s = lit "squeeze") then Some Squeeze
  else if decide (s = lit "wheezy") then Some Wheezy
  else if decide (s = lit "jessie") then Some Jessie
  else if decide (s = lit "stretch") then Some Stretch
  else if decide (s = lit "buster") then Some Buster
  else if decide (s = lit "bullseye") then Some Bullseye
  else if decide (s = lit "bookworm") then Some Bookworm
  else if decide (s = lit "trixie") then Some Trixie
  else if decide (s = lit "forky") then Some Forky
  else if decide (s = lit "duke") then Some Duke
  else None.

(** [TryFrom<&str>] *)
Definition codename_try_from (s : rstr) : option DebianCodename := from_known (ascii_lower s).

Definition next_codename (c : DebianCodename) : option DebianCodename :=
  match c with
  | Lenny => Some Squeeze | Squeeze => Some Wheezy | Wheezy => Some Jessie | Jessie => Some Stretch
  | Stretch => Some Buster | Buster => Some Bullseye | Bullseye => Some Bookworm | Bookworm => Some Trixie
  | Trixie => Some Forky | Forky => Some Duke | Duke | UnknownCodename _ => None
  end.

Inductive HostProduct := HPve | HPbs | HPdm | HPmg | UnknownProduct (s : rstr).
Inductive APTRepoType :=
| RPve | RPbs | RPbsClient | RPdm | RPmg | Debian | DebianSecurity | DebianBackports | CephSquid | CephTentacle
| UnknownType (s : rstr).
Inductive APTRepoComponent := Enterprise | NoSubscription | Test_ | Main | Staging | UnknownComponent (s : rstr).

#[export] Instance HostProduct_eq_dec : EqDecision HostProduct.
Proof. solve_decision. Defined.
#[export] Instance APTRepoType_eq_dec : EqDecision APTRepoType.
Proof. solve_decision. Defined.
#[export] Instance APTRepoComponent_eq_dec : EqDecision APTRepoComponent.
Proof. solve_decision. Defined.

Definition is_host_product (t : APTRepoType) : bool :=
  match t with RPve | RPbs | RPdm | RPmg => true | _ => false end.
Definition is_ceph_release (t : APTRepoType) : bool :=
  match t with CephSquid | CephTentacle => true | _ => false end.

Definition repo_type_text (t : APTRepoType) : rstr :=
  match t with
  | RPve => lit "pve" | RPbs => lit "pbs" | RPbsClient => lit "pbs-client" | RPdm => lit "pdm" | RPmg => lit "pmg"
  | Debian => lit "debian" | DebianSecurity => lit "debian-security" | DebianBackports => lit "debian-backports"
  | CephSquid => lit "ceph-squid" | CephTentacle => lit "ceph-tentacle" | UnknownType s => s
  end.

Definition component_text (c : APTRepoComponent) : rstr :=
  match c with
  | Enterprise => lit "enterprise" | NoSubscription => lit "no-subscription" | Test_ => lit "test"
  | Main => lit "main" | Staging => lit "staging" | UnknownComponent s => s
  end.

(** ** Handles *)
Record APTRepositoryHandle := mkHandle { repo_type : option APTRepoType; component : APTRepoComponent }.

#[export] Instance APTRepositoryHandle_eq_dec : EqDecision APTRepositoryHandle.
Proof. solve_decision. Defined.

Definition dash : rchar := 45%N.

(** [^[a-z][a-z0-9]*(-[a-z0-9]+)*$]: parts of letters and digits between dashes. *)
Definition is_lower (c : rchar) : bool := ((97 <=? c) && (c <=? 122))%N.
Definition handle_char (c : rchar) : bool := is_lower c || is_ascii_digit c.
Definition handle_regex (s : rstr) : bool :=
  match s with c :: _ => is_lower c | [] => false end &&
  forallb (λ p, negb (bool_decide (p = [])) && forallb handle_char p) (split_on dash s).

(** [APTRepositoryHandle::new]; the assertions on unknown names are for debug builds. *)
Definition handle_new (t : option APTRepoType) (c : APTRepoComponent) : APTRepositoryHandle :=
  mkHandle
    (match t with
     | Some t => if is_host_product t then None
                 else match t with UnknownType s => Some (UnknownType (ascii_lower s)) | _ => Some t end
     | None => None
     end)
    (match c with UnknownComponent s => UnknownComponent (ascii_lower s) | _ => c end).

Definition handle_text (h : APTRepositoryHandle) : rstr :=
  match h.(repo_type) with
  | None => component_text h.(component)
  | Some t => if is_host_product t then component_text h.(component)
              else repo_type_text t ++ dash :: component_text h.(component)
  end.

Definition KNOWN_COMPONENTS : list (rstr * APTRepoComponent) :=
  [(lit "no-subscription", NoSubscription); (lit "enterprise", Enterprise); (lit "staging", Staging);
   (lit "test", Test_); (lit "main", Main)].

Definition KNOWN_NONHOST_REPO_TYPES : list (rstr * APTRepoType) :=
  [(lit "debian-backports", DebianBackports); (lit "debian-security", DebianSecurity);
   (lit "ceph-tentacle", CephTentacle); (lit "ceph-squid", CephSquid); (lit "pbs-client", RPbsClient);
   (lit "debian", Debian)].

(** [str::strip_suffix] *)
Definition strip_end (suffix s : rstr) : option rstr := reverse <$> strip_prefix (reverse suffix) (reverse s).

Fixpoint find_type (types : list (rstr * APTRepoType)) (prefix : rstr) : option APTRepoType :=
  match types with
  | [] => None
  | (s, t) :: types => if decide (s = prefix) then Some t else find_type types prefix
  end.

(** The loop of [from_str] over the known components. *)
Fixpoint handle_loop (known : list (rstr * APTRepoComponent)) (s : rstr) : APTRepositoryHandle :=
  match known with
  | [] => mkHandle None (UnknownComponent s)
  | (comp_str, c) :: known =>
      match strip_end comp_str s with
      | None => handle_loop known s
      | Some prefix =>
          match strip_end [dash] prefix with
          | Some p =>
              if decide (p = []) then handle_loop known s
              else mkHandle (Some (default (UnknownType p) (find_type KNOWN_NONHOST_REPO_TYPES p))) c
          | None => if decide (prefix = []) then mkHandle None c else handle_loop known s
          end
      end
  end.

Definition handle_from_str (s : rstr) : option APTRepositoryHandle :=
  if handle_regex s then Some (handle_loop KNOWN_COMPONENTS s) else None.

(** ** The table of standard repositories *)
Definition PROXMOX_KEYRING : rstr := lit "/usr/share/keyrings/proxmox-archive-keyring.gpg".
Definition STANDARD_KEYRINGS : list rstr := [PROXMOX_KEYRING].
Definition ENTERPRISE_DOMAIN : rstr := lit "https://enterprise.proxmox.com/debian".
Definition DOWNLOAD_DOMAIN : rstr := lit "http://download.proxmox.com/debian".

Record Channel := mkChannel {
  ch_component : APTRepoComponent;
  kebab : rstr;
  title : rstr;
  domain : rstr;
  host_description : rstr;
  ceph_description_before : rstr;
  ceph_description_after : rstr;
}.

(** The templates of the descriptions are split at the name of the release. *)
Definition CHANNELS : list Channel :=
  [ mkChannel Enterprise (lit "enterprise") (lit "Enterprise") ENTERPRISE_DOMAIN
      (lit "This is the default, stable, and recommended repository, available for all Proxmox subscription users.")
      (lit "This repository holds the production-ready Proxmox Ceph ") (lit " packages.");
    mkChannel NoSubscription (lit "no-subscription") (lit "No-Subscription") DOWNLOAD_DOMAIN
      (lit "This is the recommended repository for testing and non-production use. Its packages are not as heavily tested and validated as the production ready enterprise repository. You don't need a subscription key to access this repository.")
      (lit "This repository holds the Proxmox Ceph ") (lit " packages intended for non-production use.");
    mkChannel Test_ (lit "test") (lit "Test") DOWNLOAD_DOMAIN
      (lit "This repository contains the latest packages and is primarily used for test labs and by developers to test new features.")
      (lit "This repository contains the Ceph ") (lit " packages before they are moved to the main repository.") ].

Definition ceph_description (c : Channel) (name : rstr) : rstr :=
  c.(ceph_description_before) ++ name ++ c.(ceph_description_after).

Record HostProductDef := mkHost { hp_repo_type : APTRepoType; host_product : HostProduct; slug : rstr; has_legacy_uri : bool }.

Definition HOST_PRODUCTS : list HostProductDef :=
  [mkHost RPve HPve (lit "pve") true; mkHost RPbs HPbs (lit "pbs") false; mkHost RPdm HPdm (lit "pdm") false;
   mkHost RPmg HPmg (lit "pmg") false].

Record CephRelease := mkCeph { cr_repo_type : APTRepoType; cr_name : rstr; cr_suites : list DebianCodename }.

Definition CEPH_RELEASES : list CephRelease :=
  [mkCeph CephSquid (lit "Squid") [Trixie]; mkCeph CephTentacle (lit "Tentacle") [Trixie]].

Record StandardRepoEntry := mkEntry {
  e_repo_type : APTRepoType;
  e_component : APTRepoComponent;
  offered_on_host : HostProduct;
  e_name : rstr;
  e_description : rstr;
  package_type : APTRepositoryPackageType;
  canonical_uri : rstr;
  extra_detect_uris : list rstr;
  deb_component : rstr;
  extra_detect_components : list rstr;
  signing_keys : list rstr;
  file_path_legacy : rstr;
  file_path_deb822 : rstr;
  e_suites : list DebianCodename;
}.

Definition slash : rchar := 47%N.

Definition host_product_entry (hp : HostProductDef) (c : Channel) : StandardRepoEntry :=
  let is_enterprise := bool_decide (c.(ch_component) = Enterprise) in
  mkEntry hp.(hp_repo_type) c.(ch_component) hp.(host_product) c.(title) c.(host_description) Deb
    (c.(domain) ++ slash :: hp.(slug))
    (if hp.(has_legacy_uri) then [c.(domain)] else [])
    (hp.(slug) ++ dash :: c.(kebab))
    (if decide (c.(ch_component) = Test_) then [hp.(slug) ++ lit "test"] else [])
    STANDARD_KEYRINGS
    (if is_enterprise then lit "/etc/apt/sources.list.d/" ++ hp.(slug) ++ lit "-enterprise.list"
     else lit "/etc/apt/sources.list")
    (if is_enterprise then lit "/etc/apt/sources.list.d/" ++ hp.(slug) ++ lit "-enterprise.sources"
     else lit "/etc/apt/sources.list.d/proxmox.sources")
    [].

Definition ceph_release_entry (cr : CephRelease) (c : Channel) : StandardRepoEntry :=
  mkEntry cr.(cr_repo_type) c.(ch_component) HPve (lit "Ceph " ++ cr.(cr_name) ++ blank :: c.(title))
    (ceph_description c cr.(cr_name)) Deb
    (c.(domain) ++ slash :: repo_type_text cr.(cr_repo_type)) [] c.(kebab) [] STANDARD_KEYRINGS
    (lit "/etc/apt/sources.list.d/ceph.list") (lit "/etc/apt/sources.list.d/ceph.sources") cr.(cr_suites).

Definition STANDARD_REPOS : list StandardRepoEntry :=
  concat (map (λ hp, map (host_product_entry hp) CHANNELS) HOST_PRODUCTS) ++
  concat (map (λ cr, map (ceph_release_entry cr) CHANNELS) CEPH_RELEASES).

Definition all_detect_uris (e : StandardRepoEntry) : list rstr := e.(canonical_uri) :: e.(extra_detect_uris).
Definition applies_to_suite (e : StandardRepoEntry) (suite : DebianCodename) : bool :=
  bool_decide (e.(e_suites) = []) || bool_decide (suite ∈ e.(e_suites)).
Definition matches_component (e : StandardRepoEntry) (c : rstr) : bool :=
  bool_decide (c = e.(deb_component)) || bool_decide (c ∈ e.(extra_detect_components)).

Definition entry_handle (e : StandardRepoEntry) : APTRepositoryHandle := handle_new (Some e.(e_repo_type)) e.(e_component).

(** [Iterator::find] *)
Fixpoint find_first {A} (f : A → bool) (l : list A) : option A :=
  match l with
  | [] => None
  | x :: l => if f x then Some x else find_first f l
  end.

Definition lookup_entry (h : APTRepositoryHandle) (host : HostProduct) : option StandardRepoEntry :=
  find_first (λ e, bool_decide (e.(offered_on_host) = host) && bool_decide (entry_handle e = h)) STANDARD_REPOS.

(** [trim_end_matches('/')] *)
Definition trim_slashes (s : rstr) : rstr := reverse (drop_while (λ c, bool_decide (c = slash)) (reverse s)).

(** ** Repositories and handles *)
Record APTStandardRepository := mkStandard { sh_handle : APTRepositoryHandle; status : option bool; s_name : rstr; s_description : rstr }.

Definition from_handle_for (h : APTRepositoryHandle) (host : HostProduct) : APTStandardRepository :=
  let '(name, description) :=
    match lookup_entry h host with
    | Some e => (e.(e_name), e.(e_description))
    | None => let label := lit "Unknown repository (" ++ handle_text h ++ lit ")" in (label, label)
    end in
  mkStandard h None name description.

(** [*suite >= DebianCodename::Trixie] *)
Definition deb822_suite (suite : DebianCodename) : bool := negb (bool_decide (codename_cmp suite Trixie = Lt)).

Definition entry_repository (e : StandardRepoEntry) (suite : DebianCodename) : APTRepository :=
  mkRepo [e.(package_type)] [e.(canonical_uri)] [codename_text suite] [e.(deb_component)]
    [mkOption (lit "Signed-By") [default [] (head e.(signing_keys))]] []
    (if deb822_suite suite then Sources else List_) true.

Definition to_repository (h : APTRepositoryHandle) (host : HostProduct) (suite : DebianCodename) : option APTRepository :=
  match lookup_entry h host with
  | None => None
  | Some e => if applies_to_suite e suite then Some (entry_repository e suite) else None
  end.

Definition handle_file_path (h : APTRepositoryHandle) (host : HostProduct) (suite : DebianCodename) : option rstr :=
  match lookup_entry h host with
  | None => None
  | Some e => if applies_to_suite e suite
              then Some (if deb822_suite suite then e.(file_path_deb822) else e.(file_path_legacy)) else None
  end.

Definition standard_repos_offered_for (host : HostProduct) (suite : DebianCodename) : list APTStandardRepository :=
  map (λ e, from_handle_for (entry_handle e) host)
    (filter (λ e, bool_decide (e.(offered_on_host) = host) && applies_to_suite e suite = true) STANDARD_REPOS).

(** [get_standard_repository] *)
Definition get_standard_repository (h : APTRepositoryHandle) (host : HostProduct) (suite : DebianCodename)
    : option (APTRepository * rstr) :=
  match to_repository h host suite with
  | None => None
  | Some repo => match handle_file_path h host suite with
                 | None => None
                 | Some path => Some (repo, path)
                 end
  end.

Section Signed.
Context (is_signed_by_key : rstr → rstr → rstr → bool).

Definition entry_uri_matches (e : StandardRepoEntry) (r : APTRepository) (suite : DebianCodename) : bool :=
  existsb (λ u,
    let u_trim := trim_slashes u in
    existsb (λ known, bool_decide (known = u_trim)) (all_detect_uris e) ||
    existsb (λ key, is_signed_by_key u_trim (codename_text suite) key) e.(signing_keys)) r.(uris).

(** What [find_entry_for_repository] and [is_referenced_by] ask of an entry. *)
Definition entry_matches (e : StandardRepoEntry) (r : APTRepository) (suite : DebianCodename) : bool :=
  existsb (λ s, bool_decide (s = codename_text suite)) r.(suites) && applies_to_suite e suite &&
  bool_decide (e.(package_type) ∈ r.(types)) && existsb (matches_component e) r.(components) &&
  entry_uri_matches e r suite.

Definition find_entry_for_repository (r : APTRepository) (host : HostProduct) (suite : DebianCodename)
    : option StandardRepoEntry :=
  find_first (λ e, bool_decide (e.(offered_on_host) = host) && entry_matches e r suite) STANDARD_REPOS.

Definition is_referenced_by (h : APTRepositoryHandle) (r : APTRepository) (host : HostProduct) (suite : DebianCodename) : bool :=
  match lookup_entry h host with
  | None => false
  | Some e => entry_matches e r suite
  end.

Definition find_handle_for_repository (r : APTRepository) (host : HostProduct) (suite : DebianCodename)
    : option APTRepositoryHandle := entry_handle <$> find_entry_for_repository r host suite.

Definition with_components (r : APTRepository) (comps : list rstr) : APTRepository :=
  mkRepo r.(types) r.(uris) r.(suites) comps r.(options) r.(comment) r.(file_type) r.(enabled).

Definition canonical_component (e : StandardRepoEntry) (c : rstr) : rstr :=
  if negb (bool_decide (c = e.(deb_component))) && matches_component e c then e.(deb_component) else c.

(** [canonicalize_components_to_standard]: the repository and whether it changed. *)
Definition canonicalize_components_to_standard (r : APTRepository) (host : HostProduct) (suite : DebianCodename)
    : APTRepository * bool :=
  match find_entry_for_repository r host suite with
  | None => (r, false)
  | Some e =>
      (with_components r (map (canonical_component e) r.(components)),
       existsb (λ c, negb (bool_decide (c = e.(deb_component))) && matches_component e c) r.(components))
  end.

(** The body of the loops of [standard_repositories]. *)
Definition update_status (host : HostProduct) (suite : DebianCodename) (r : APTRepository) (s : APTStandardRepository)
    : APTStandardRepository :=
  if decide (s.(status) = Some true) then s
  else if is_referenced_by s.(sh_handle) r host suite
       then mkStandard s.(sh_handle) (Some r.(enabled)) s.(s_name) s.(s_description)
       else s.

(** [standard_repositories] on the repositories of all files in their order. *)
Definition standard_repositories (repos : list APTRepository) (host : HostProduct) (suite : DebianCodename)
    : list APTStandardRepository :=
  foldl (λ result r, map (update_status host suite r) result) (standard_repos_offered_for host suite) repos.

End Signed.

(** [APTStandardRepoSummary::from_repos] *)
Record APTStandardRepoSummary := mkSummary {
  has_enterprise : bool; has_no_subscription : bool; has_test : bool;
  has_ceph_enterprise : bool; has_ceph_no_subscription : bool; has_ceph_test : bool;
  unrecognized : list APTRepositoryHandle;
}.

Definition summary_add (s : APTStandardRepoSummary) (r : APTStandardRepository) : APTStandardRepoSummary :=
  let h := r.(sh_handle) in
  let other := mkSummary s.(has_enterprise) s.(has_no_subscription) s.(has_test) s.(has_ceph_enterprise)
    s.(has_ceph_no_subscription) s.(has_ceph_test) (s.(unrecognized) ++ [h]) in
  if negb (bool_decide (r.(status) = Some true)) then s
  else
    match h.(repo_type) with
    | Some (UnknownType _) => other
    | t =>
        let is_ceph := match t with Some t => is_ceph_release t | None => false end in
        let is_none := match t with Some _ => false | None => true end in
        match h.(component) with
        | UnknownComponent _ => other
        | c =>
            match is_none, is_ceph, c with
            | true, _, Enterprise => mkSummary true s.(has_no_subscription) s.(has_test) s.(has_ceph_enterprise)
                s.(has_ceph_no_subscription) s.(has_ceph_test) s.(unrecognized)
            | true, _, NoSubscription => mkSummary s.(has_enterprise) true s.(has_test) s.(has_ceph_enterprise)
                s.(has_ceph_no_subscription) s.(has_ceph_test) s.(unrecognized)
            | true, _, Test_ => mkSummary s.(has_enterprise) s.(has_no_subscription) true s.(has_ceph_enterprise)
                s.(has_ceph_no_subscription) s.(has_ceph_test) s.(unrecognized)
            | false, true, Enterprise => mkSummary s.(has_enterprise) s.(has_no_subscription) s.(has_test) true
                s.(has_ceph_no_subscription) s.(has_ceph_test) s.(unrecognized)
            | false, true, NoSubscription => mkSummary s.(has_enterprise) s.(has_no_subscription) s.(has_test)
                s.(has_ceph_enterprise) true s.(has_ceph_test) s.(unrecognized)
            | false, true, Test_ => mkSummary s.(has_enterprise) s.(has_no_subscription) s.(has_test)
                s.(has_ceph_enterprise) s.(has_ceph_no_subscription) true s.(unrecognized)
            | _, _, _ => s
            end
        end
    end.

Definition summary_from_repos (l : list APTStandardRepository) : APTStandardRepoSummary :=
  foldl summary_add (mkSummary false false false false false false []) l.

(** ** Notes on repositories *)
Definition suffix_or_same (suffix s : rstr) : rstr := default s (strip_end suffix s).

(** [suite_variant] *)
Fixpoint suite_variant (s : rstr) : rstr * rstr :=
  match s with
  | [] => ([], [])
  | c :: s' => if decide (c = dash ∨ c = slash) then ([], s) else let '(b, v) := suite_variant s' in (c :: b, v)
  end.

Inductive InfoKind := Warning | IgnorePreUpgradeWarning | Origin.
Inductive InfoMessage := OldSuite (s : rstr) | NotForProduction (s : rstr) | UseStableName | ExpectedSuite (s : rstr) | OriginOf (s : rstr).
Record APTRepositoryInfo := mkInfo { info_index : nat; info_property : option rstr; info_kind : InfoKind; info_message : InfoMessage }.

Definition is_security_uri (uri : rstr) : bool :=
  let uri := trim_slashes (suffix_or_same (lit "debian-security") (trim_slashes uri)) in
  bool_decide (uri ∈ [lit "http://security.debian.org"; lit "https://security.debian.org"]).

(** The suffix that suites of a security repository need. *)
Definition required_suffix (r : APTRepository) (current : DebianCodename) : option rstr :=
  if existsb is_security_uri r.(uris)
  then Some (if decide (codename_cmp current Bullseye = Lt) then lit "/updates" else lit "-security")
  else None.

(** The notes on one suite. *)
Definition check_suite (n : nat) (current : DebianCodename) (require_suffix : option rstr) (suite : rstr)
    : list APTRepositoryInfo :=
  let '(base_suite, suffix) := suite_variant suite in
  let info kind message := mkInfo n (Some (lit "Suites")) kind message in
  (if decide (base_suite ∈ [lit "oldoldstable"; lit "oldstable"]) then [info Warning (OldSuite base_suite)]
   else if decide (base_suite ∈ [lit "testing"; lit "unstable"; lit "experimental"; lit "sid"])
        then [info Warning (NotForProduction base_suite)]
   else if decide (base_suite = lit "stable") then [info Warning UseStableName]
   else []) ++
  match codename_try_from base_suite with
  | None => []
  | Some codename =>
      (if decide (codename_cmp codename current = Lt) then [info Warning (OldSuite base_suite)] else []) ++
      (if decide (next_codename current = Some codename) then [info IgnorePreUpgradeWarning (NotForProduction base_suite)]
       else if decide (codename_cmp codename current = Gt) then [info Warning (NotForProduction base_suite)] else []) ++
      match require_suffix with
      | Some required => if decide (suffix = required) then []
                         else [info Warning (ExpectedSuite (codename_text current ++ required))]
      | None => []
      end
  end.

(** [check_suites] of a file with a path, from the repository with the given number. *)
Fixpoint check_suites (n : nat) (current : DebianCodename) (repos : list APTRepository) : list APTRepositoryInfo :=
  match repos with
  | [] => []
  | r :: repos =>
      (if decide (Deb ∈ r.(types)) then concat (map (check_suite n current (required_suffix r current)) r.(suites)) else []) ++
      check_suites (S n) current repos
  end.

(** [host_from_uri] *)
Definition before_char (c : rchar) (s : rstr) : rstr := match split_once c s with Some (a, _) => a | None => s end.
Definition after_char (c : rchar) (s : rstr) : rstr := match split_once c s with Some (_, b) => b | None => s end.
Definition host_from_uri (uri : rstr) : option rstr :=
  match strip_prefix (lit "http") uri with
  | None => None
  | Some host =>
      let host := default host (strip_prefix (lit "s") host) in
      match strip_prefix (lit "://") host with
      | None => None
      | Some host => Some (before_char colon (after_char 64%N (before_char slash host)))
      end
  end.

Definition in_domain (d host : rstr) : bool :=
  bool_decide (host = d) || bool_decide (is_Some (strip_end (46%N :: d) host)).

Fixpoint origin_from_uris (l : list rstr) : option rstr :=
  match l with
  | [] => None
  | uri :: l =>
      match host_from_uri uri with
      | Some host => if in_domain (lit "proxmox.com") host then Some (lit "Proxmox")
                     else if in_domain (lit "debian.org") host then Some (lit "Debian") else origin_from_uris l
      | None => origin_from_uris l
      end
  end.

(** [str::find] of a text: what is behind its first occurrence. *)
Fixpoint after_text (p s : rstr) : option rstr :=
  match strip_prefix p s with
  | Some rest => Some rest
  | None => match s with [] => None | _ :: s => after_text p s end
  end.

(** [uri_to_filename] *)
Definition encode_chars : rstr := lit "\|{}[]<>" ++ [dquote] ++ lit "^~_=!@#$%^&*".
Definition hex_lower (v : N) : rchar := if (v <? 10)%N then (48 + v)%N else (87 + v)%N.
Definition encode_byte (b : N) : rstr :=
  if ((b <=? 32) || (127 <=? b))%N || bool_decide (b ∈ encode_chars) then [37%N; hex_lower (b / 16); hex_lower (b mod 16)]
  else [b].
Definition uri_to_filename (uri : rstr) : rstr :=
  let filename := default uri (after_text (lit "://") uri) in
  let filename :=
    if bool_decide (is_Some (strip_prefix (lit "http://") uri)) || bool_decide (is_Some (strip_prefix (lit "https://") uri))
    then after_char 64%N filename else filename in
  let filename := suffix_or_same [slash] filename in
  map (λ c, if decide (c = slash) then 95%N else c) (concat (map encode_byte (as_bytes filename))).

(** [release_filename] below the directory of the lists. *)
Definition release_filename (uri suite : rstr) (detached : bool) : rstr :=
  let encoded_uri := uri_to_filename uri in
  let filename := if detached then lit "Release" else lit "InRelease" in
  if decide (suite = lit "/") then encoded_uri ++ lit "_" ++ filename
  else if decide (suite = lit "./") then encoded_uri ++ lit "_._" ++ filename
  else encoded_uri ++ lit "_dists_" ++ map (λ c, if decide (c = slash) then 95%N else c) suite ++ lit "_" ++ filename.

(** [get_cached_origin]: the text of a release file, or an error of reading it. *)
Definition origin_line (line : rstr) : option rstr := trim_ws <$> strip_prefix (lit "Origin:") line.

Section Releases.
Context (release_file : rstr → option (result rstr AptError)).

Fixpoint first_origin (lines : list rstr) : option rstr :=
  match lines with
  | [] => None
  | line :: lines => match origin_line line with Some o => Some o | None => first_origin lines end
  end.

Definition release_text (uri suite : rstr) : option (result rstr AptError) :=
  match release_file (release_filename uri suite false) with
  | Some r => Some r
  | None => release_file (release_filename uri suite true)
  end.

Fixpoint cached_origin_loop (pairs : list (rstr * rstr)) : result (option rstr) AptError :=
  match pairs with
  | [] => Ok None
  | (uri, suite) :: pairs =>
      match release_text uri suite with
      | None => cached_origin_loop pairs
      | Some (Err e) => Err e
      | Some (Ok text) => match first_origin (lines text) with Some o => Ok (Some o) | None => cached_origin_loop pairs end
      end
  end.

Definition get_cached_origin (r : APTRepository) : result (option rstr) AptError :=
  cached_origin_loop (concat (map (λ uri, map (λ suite, (uri, suite)) r.(suites)) r.(uris))).

Definition repo_origin (r : APTRepository) : option rstr :=
  match (match get_cached_origin r with Ok o => o | Err _ => None end) with
  | Some o => Some o
  | None => origin_from_uris r.(uris)
  end.

(** [check_uris] from the repository with the given number. *)
Fixpoint check_uris (n : nat) (repos : list APTRepository) : list APTRepositoryInfo :=
  match repos with
  | [] => []
  | r :: repos =>
      (match repo_origin r with Some o => [mkInfo n None Origin (OriginOf o)] | None => [] end) ++ check_uris (S n) repos
  end.

End Releases.
