(* ===== verification/AptStandardTheory.v ===== *)
(** * AptStandardTheory: handles, standard repositories and their status

    The text of a handle is read back; the repository that a handle stands for is
    recognised as this handle and no other; bringing components into canonical form
    changes neither what a repository is recognised as nor what references it; and the
    status of a standard repository is that of the repositories that it references. *)
From S2P Require Import Prelude TextCoding Apt AptStandard.

(** ** Handles *)
Lemma strip_end_Some p s r : strip_end p s = Some r ↔ s = r ++ p.
Proof.
  unfold strip_end. split.
  - destruct (strip_prefix (reverse p) (reverse s)) as [x|] eqn:E; [|done]. intros [= <-].
    apply strip_prefix_Some in E. apply (f_equal reverse) in E. by rewrite reverse_involutive, reverse_app, reverse_involutive in E.
  - intros ->. rewrite reverse_app, strip_prefix_app. simpl. by rewrite reverse_involutive.
Qed.

Lemma find_type_known p t : find_type KNOWN_NONHOST_REPO_TYPES p = Some t → repo_type_text t = p ∧ is_host_product t = false.
Proof.
  unfold KNOWN_NONHOST_REPO_TYPES. cbn [find_type]. intros H.
  repeat (case_decide as E; [by injection H as <-|clear E]). done.
Qed.

Lemma handle_loop_text known s :
  Forall (λ kc, component_text kc.2 = kc.1) known → handle_text (handle_loop known s) = s.
Proof.
  induction 1 as [|[comp c] known Hc _ IH]; [done|]. simpl in Hc. cbn [handle_loop].
  destruct (strip_end comp s) as [prefix|] eqn:E; [|done]. apply strip_end_Some in E.
  destruct (strip_end [dash] prefix) as [p|] eqn:Ed.
  - apply strip_end_Some in Ed. case_decide; [done|]. unfold handle_text. cbn [repo_type component].
    assert (repo_type_text (default (UnknownType p) (find_type KNOWN_NONHOST_REPO_TYPES p)) = p ∧
      is_host_product (default (UnknownType p) (find_type KNOWN_NONHOST_REPO_TYPES p)) = false) as [-> ->].
    { destruct (find_type KNOWN_NONHOST_REPO_TYPES p) as [t|] eqn:Et; [by apply find_type_known|done]. }
    rewrite Hc, E, Ed. by rewrite <- app_assoc.
  - case_decide as Hp; [|done]. unfold handle_text. simpl. by rewrite Hc, E, Hp.
Qed.

(** Whatever text is accepted as a handle is the text of this handle. *)
Lemma handle_parse_display s h : handle_from_str s = Some h → handle_text h = s.
Proof.
  unfold handle_from_str. destruct (handle_regex s); [|done]. intros <-%(inj Some). apply handle_loop_text.
  by repeat constructor.
Qed.

Lemma split_on_snoc (c : rchar) s t : split_on c (s ++ c :: t) = split_on c s ++ split_on c t.
Proof.
  induction s as [|x s IH]; simpl; [by rewrite decide_True|]. rewrite IH. case_decide; [done|].
  destruct (split_on c s) as [|w ws] eqn:E; [by apply split_on_nonempty in E|done].
Qed.

(** The part of the text in front of the component. *)
Definition known_component (c : APTRepoComponent) : Prop := ∀ s, c ≠ UnknownComponent s.

Lemma handle_regex_app p q : handle_regex p = true → forallb (λ p, negb (bool_decide (p = [])) && forallb handle_char p) (split_on dash q) = true →
  handle_regex (p ++ dash :: q) = true.
Proof.
  unfold handle_regex. intros [H1 H2]%andb_prop H3. rewrite split_on_snoc, forallb_app, H2, H3.
  destruct p; [done|]. cbn [app] in *. by rewrite H1.
Qed.

Lemma handle_loop_component p c :
  p ≠ [] → known_component c → handle_loop KNOWN_COMPONENTS (p ++ dash :: component_text c) =
  mkHandle (Some (default (UnknownType p) (find_type KNOWN_NONHOST_REPO_TYPES p))) c.
Proof.
  intros Hp Hc.
  assert (∀ comp, strip_end comp (p ++ dash :: component_text c) =
    reverse <$> strip_prefix (reverse comp) (reverse (component_text c) ++ dash :: reverse p)) as Hs.
  { intros comp. unfold strip_end. by rewrite reverse_app, reverse_cons, <- app_assoc. }
  assert (strip_end (component_text c) (p ++ dash :: component_text c) = Some (p ++ [dash])) as Hok.
  { apply strip_end_Some. by rewrite <- app_assoc. }
  assert (strip_end [dash] (p ++ [dash]) = Some p) as Hd by by apply strip_end_Some.
  destruct c; try (by destruct (Hc s)); cbn [component_text] in *; unfold KNOWN_COMPONENTS; cbn [handle_loop];
    repeat match goal with
    | |- context [strip_end ?comp (p ++ ?t)] =>
        first [ rewrite Hok | replace (strip_end comp (p ++ t)) with (@None rstr) by (rewrite Hs; reflexivity) ]
    end; by rewrite Hd, decide_False.
Qed.

Definition canonical_handle (h : APTRepositoryHandle) : Prop :=
  known_component h.(component) ∧
  match h.(repo_type) with
  | None => True
  | Some t => is_host_product t = false ∧ handle_regex (repo_type_text t) = true ∧
              ∀ s, t = UnknownType s → find_type KNOWN_NONHOST_REPO_TYPES s = None
  end.

(** The text of a handle with a known component is read back as the handle. *)
Lemma handle_display_parse h : canonical_handle h → handle_from_str (handle_text h) = Some h.
Proof.
  destruct h as [[t|] c]; intros [Hc Ht]; unfold handle_text; cbn [repo_type component] in *.
  - destruct Ht as (Hh & Hr & Hu). rewrite Hh. unfold handle_from_str. rewrite handle_regex_app; [|done|by destruct c; try by destruct (Hc s)].
    rewrite handle_loop_component; [|by intros E; rewrite E in Hr|done]. do 3 f_equal.
    destruct t; try done; cbn [repo_type_text]. by rewrite (Hu s eq_refl).
  - destruct c; try reflexivity. by destruct (Hc s).
Qed.

(** A handle of a known type with an unknown component is read back as another one. *)
Lemma unknown_component_not_read_back :
  handle_from_str (handle_text (handle_new (Some CephSquid) (UnknownComponent (lit "nightly")))) =
  Some (mkHandle None (UnknownComponent (lit "ceph-squid-nightly"))).
Proof. reflexivity. Qed.

(** ** The table *)
#[export] Instance StandardRepoEntry_eq_dec : EqDecision StandardRepoEntry.
Proof. solve_decision. Defined.

Lemma find_first_Some {A} (f : A → bool) l x : find_first f l = Some x → x ∈ l ∧ f x = true.
Proof.
  induction l as [|y l IH]; simpl; [done|]. destruct (f y) eqn:E; [intros [= <-]; by split; [left|]|].
  intros [? ?]%IH. by split; [right|].
Qed.

Lemma find_first_unique {A} (f : A → bool) l x :
  x ∈ l → f x = true → (∀ y, y ∈ l → f y = true → y = x) → find_first f l = Some x.
Proof.
  intros Hx Hf Hu. induction l as [|y l IH]; [by apply elem_of_nil in Hx|]. simpl. destruct (f y) eqn:E.
  - f_equal. by apply Hu; [left|].
  - apply elem_of_cons in Hx as [->|Hx]; [congruence|]. apply IH; [done|]. intros z Hz. apply Hu. by right.
Qed.

Lemma find_first_ext {A} (f g : A → bool) l : (∀ x, x ∈ l → f x = g x) → find_first f l = find_first g l.
Proof.
  intros H. induction l as [|x l IH]; simpl; [done|]. rewrite (H x) by by left.
  destruct (g x); [done|]. apply IH. intros y Hy. apply H. by right.
Qed.

(** A decidable relation holds on all pairs of entries if it can be computed. *)
Lemma table_pairs (P : StandardRepoEntry → StandardRepoEntry → Prop) `{∀ e e', Decision (P e e')} :
  forallb (λ e, forallb (λ e', bool_decide (P e e')) STANDARD_REPOS) STANDARD_REPOS = true →
  ∀ e e', e ∈ STANDARD_REPOS → e' ∈ STANDARD_REPOS → P e e'.
Proof.
  rewrite forallb_forall. intros Hb e e' He He'. apply list_elem_of_In, Hb in He. rewrite forallb_forall in He.
  apply list_elem_of_In, He in He'. by apply bool_decide_eq_true_1 in He'.
Qed.

Lemma handles_unique e e' :
  e ∈ STANDARD_REPOS → e' ∈ STANDARD_REPOS → e.(offered_on_host) = e'.(offered_on_host) → entry_handle e = entry_handle e' → e = e'.
Proof.
  intros He He'. revert e e' He He'.
  apply (table_pairs (λ e e', e.(offered_on_host) = e'.(offered_on_host) → entry_handle e = entry_handle e' → e = e')).
  vm_compute. reflexivity.
Qed.

Lemma components_unique e e' :
  e ∈ STANDARD_REPOS → e' ∈ STANDARD_REPOS → e.(offered_on_host) = e'.(offered_on_host) →
  matches_component e' e.(deb_component) = true →
  e' = e ∨ ((entry_handle e).(repo_type) ≠ None ∧ e.(extra_detect_components) = [] ∧ e.(canonical_uri) ∉ all_detect_uris e').
Proof.
  intros He He'. revert e e' He He'. apply (table_pairs (λ e e', e.(offered_on_host) = e'.(offered_on_host) →
    matches_component e' e.(deb_component) = true → e' = e ∨
    ((entry_handle e).(repo_type) ≠ None ∧ e.(extra_detect_components) = [] ∧ e.(canonical_uri) ∉ all_detect_uris e'))).
  vm_compute. reflexivity.
Qed.

Lemma legacy_unique e e' c :
  e ∈ STANDARD_REPOS → e' ∈ STANDARD_REPOS → e.(offered_on_host) = e'.(offered_on_host) →
  c ∈ e.(extra_detect_components) → matches_component e' c = true → e' = e.
Proof.
  intros He He' Ho Hc. revert e e' He He' Ho c Hc.
  assert (∀ e e', e ∈ STANDARD_REPOS → e' ∈ STANDARD_REPOS → e.(offered_on_host) = e'.(offered_on_host) →
    Forall (λ c, matches_component e' c = true → e' = e) e.(extra_detect_components)) as H.
  { apply (table_pairs (λ e e', e.(offered_on_host) = e'.(offered_on_host) →
      Forall (λ c, matches_component e' c = true → e' = e) e.(extra_detect_components))). vm_compute. reflexivity. }
  intros e e' He He' Ho c Hc. specialize (H e e' He He' Ho). rewrite Forall_forall in H. by apply H.
Qed.

Lemma table_entries (P : StandardRepoEntry → Prop) `{∀ e, Decision (P e)} :
  forallb (λ e, bool_decide (P e)) STANDARD_REPOS = true → ∀ e, e ∈ STANDARD_REPOS → P e.
Proof. rewrite forallb_forall. intros Hb e He. by apply list_elem_of_In, Hb, bool_decide_eq_true_1 in He. Qed.

Lemma canonical_uri_trimmed e : e ∈ STANDARD_REPOS → trim_slashes e.(canonical_uri) = e.(canonical_uri).
Proof. revert e. apply (table_entries (λ e, trim_slashes e.(canonical_uri) = e.(canonical_uri))). vm_compute. reflexivity. Qed.

Lemma lookup_entry_iff h host e :
  lookup_entry h host = Some e ↔ e ∈ STANDARD_REPOS ∧ e.(offered_on_host) = host ∧ entry_handle e = h.
Proof.
  unfold lookup_entry. split.
  - intros [He Hf]%find_first_Some. apply andb_prop in Hf as [H1%bool_decide_eq_true_1 H2%bool_decide_eq_true_1]. done.
  - intros (He & Hh & Hn). apply find_first_unique; [done| |].
    + by rewrite !bool_decide_eq_true_2.
    + intros e' He' [H1%bool_decide_eq_true_1 H2%bool_decide_eq_true_1]%andb_prop.
      apply handles_unique; try done; congruence.
Qed.

(** ** Recognising repositories *)
Section Recognise.
Context (signed : rstr → rstr → rstr → bool).

Lemma entry_matches_self e suite :
  e ∈ STANDARD_REPOS → applies_to_suite e suite = true → entry_matches signed e (entry_repository e suite) suite = true.
Proof.
  intros He Ha. unfold entry_matches, entry_repository. cbn [suites types components existsb].
  rewrite Ha, (bool_decide_eq_true_2 (codename_text suite = _)) by done. cbn [orb andb].
  rewrite (bool_decide_eq_true_2 (_ ∈ _)) by by left. unfold matches_component.
  rewrite (bool_decide_eq_true_2 (deb_component e = _)) by done. cbn [orb andb].
  unfold entry_uri_matches. cbn [uris existsb all_detect_uris]. rewrite canonical_uri_trimmed by done.
  by rewrite (bool_decide_eq_true_2 (canonical_uri e = _)).
Qed.

(** No entry but its own matches the repository that an entry stands for, unless the
    signature is all that decides between releases of Ceph. *)
Lemma entry_matches_only e e' suite :
  e ∈ STANDARD_REPOS → e' ∈ STANDARD_REPOS → e.(offered_on_host) = e'.(offered_on_host) →
  (entry_handle e).(repo_type) = None ∨ (∀ key, signed e.(canonical_uri) (codename_text suite) key = false) →
  entry_matches signed e' (entry_repository e suite) suite = true → e' = e.
Proof.
  intros He He' Ho Hs Hm. unfold entry_matches in Hm. apply andb_prop in Hm as [Hm Hu]. apply andb_prop in Hm as [_ Hc].
  cbn [entry_repository components existsb] in Hc. rewrite orb_false_r in Hc.
  destruct (components_unique e e' He He' Ho Hc) as [?|(Hn & _ & Hd)]; [done|].
  destruct Hs as [?|Hs]; [done|]. unfold entry_uri_matches in Hu. cbn [entry_repository uris existsb] in Hu.
  rewrite canonical_uri_trimmed, orb_false_r in Hu by done. apply orb_prop in Hu as [Hu|Hu].
  - apply existsb_exists in Hu as (u & Hin & ->%bool_decide_eq_true_1). by apply list_elem_of_In in Hin.
  - apply existsb_exists in Hu as (key & _ & Hk). by rewrite Hs in Hk.
Qed.

(** The repository that a handle stands for is recognised as this handle, and
    referenced by no other handle. *)
Theorem standard_repository_recognised h host suite r :
  to_repository h host suite = Some r →
  h.(repo_type) = None ∨ (∀ uri key, uri ∈ r.(uris) → signed uri (codename_text suite) key = false) →
  find_handle_for_repository signed r host suite = Some h ∧
  ∀ h', is_referenced_by signed h' r host suite = true ↔ h' = h.
Proof.
  unfold to_repository. destruct (lookup_entry h host) as [e|] eqn:El; [|done].
  apply lookup_entry_iff in El as (He & <- & <-). destruct (applies_to_suite e suite) eqn:Ha; [|done]. intros [= <-] Hs.
  assert ((entry_handle e).(repo_type) = None ∨ (∀ key, signed e.(canonical_uri) (codename_text suite) key = false)) as Hs'.
  { destruct Hs as [?|Hs]; [by left|right]. intros key. apply Hs. by left. }
  pose proof (entry_matches_self e suite He Ha) as Hself. split.
  - unfold find_handle_for_repository, find_entry_for_repository. rewrite (find_first_unique _ _ e); [done|done| |].
    + by rewrite Hself, bool_decide_eq_true_2.
    + intros e' He' [Ho%bool_decide_eq_true_1 Hm]%andb_prop. by apply (entry_matches_only e e' suite).
  - intros h'. unfold is_referenced_by. split.
    + destruct (lookup_entry h' e.(offered_on_host)) as [e'|] eqn:El; [|done].
      apply lookup_entry_iff in El as (He' & Ho & <-). intros Hm. by rewrite (entry_matches_only e e' suite).
    + intros ->. by rewrite (proj2 (lookup_entry_iff _ _ e)).
Qed.

End Recognise.

(** A repository of Ceph Tentacle whose release file carries the signature of the
    archive, as that of the official one does, is taken for Ceph Squid. *)
Lemma tentacle_taken_for_squid :
  match to_repository (mkHandle (Some CephTentacle) Enterprise) HPve Trixie with
  | Some r => find_handle_for_repository (λ _ _ _, true) r HPve Trixie = Some (mkHandle (Some CephSquid) Enterprise)
  | None => False
  end.
Proof. vm_compute. reflexivity. Qed.

(** ** Components in canonical form *)
Section Canonical.
Context (signed : rstr → rstr → rstr → bool).

Lemma canonical_component_matches e e' c :
  e ∈ STANDARD_REPOS → e' ∈ STANDARD_REPOS → e.(offered_on_host) = e'.(offered_on_host) →
  matches_component e' (canonical_component e c) = matches_component e' c.
Proof.
  intros He He' Ho. unfold canonical_component.
  destruct (bool_decide_reflect (c = e.(deb_component))) as [->|Hne]; [done|].
  destruct (matches_component e c) eqn:Hm; [|done]. cbn [negb andb].
  assert (c ∈ e.(extra_detect_components)) as Hc.
  { unfold matches_component in Hm. rewrite (bool_decide_eq_false_2 _ Hne) in Hm. by apply bool_decide_eq_true_1 in Hm. }
  destruct (matches_component e' c) eqn:E1.
  - rewrite (legacy_unique e e' c He He' Ho Hc E1). unfold matches_component. by rewrite (bool_decide_eq_true_2 (deb_component e = _)).
  - destruct (matches_component e' (deb_component e)) eqn:E2; [|done].
    destruct (components_unique e e' He He' Ho E2) as [->|(_ & Hn & _)]; [congruence|].
    rewrite Hn in Hc. by apply elem_of_nil in Hc.
Qed.

Lemma existsb_of_map {A B} (f : A → B) p l : existsb p (map f l) = existsb (λ x, p (f x)) l.
Proof. induction l as [|x l IH]; simpl; [done|]. by rewrite IH. Qed.

Lemma existsb_ext' {A} (p q : A → bool) l : (∀ x, p x = q x) → existsb p l = existsb q l.
Proof. intros H. induction l as [|x l IH]; simpl; [done|]. by rewrite H, IH. Qed.

Lemma canonical_entry_matches e e' r suite :
  e ∈ STANDARD_REPOS → e' ∈ STANDARD_REPOS → e.(offered_on_host) = e'.(offered_on_host) →
  entry_matches signed e' (with_components r (map (canonical_component e) r.(components))) suite = entry_matches signed e' r suite.
Proof.
  intros He He' Ho. unfold entry_matches. cbn [with_components suites types components].
  rewrite existsb_of_map. rewrite (existsb_ext' (λ c, matches_component e' (canonical_component e c)) (matches_component e')); [done|].
  intros c. by apply canonical_component_matches.
Qed.

Lemma canonical_component_idem e c : canonical_component e (canonical_component e c) = canonical_component e c.
Proof.
  unfold canonical_component at 2 3. destruct (negb (bool_decide (c = deb_component e)) && matches_component e c) eqn:E.
  - unfold canonical_component. by rewrite bool_decide_eq_true_2.
  - unfold canonical_component. by rewrite E.
Qed.

(** Bringing a repository into canonical form changes neither what it is recognised
    as nor which handles reference it, and is done when it is done once. *)
Theorem canonicalize_keeps r host suite :
  let '(r', changed) := canonicalize_components_to_standard signed r host suite in
  find_entry_for_repository signed r' host suite = find_entry_for_repository signed r host suite ∧
  (∀ h, is_referenced_by signed h r' host suite = is_referenced_by signed h r host suite) ∧
  canonicalize_components_to_standard signed r' host suite = (r', false).
Proof.
  unfold canonicalize_components_to_standard at 1.
  destruct (find_entry_for_repository signed r host suite) as [e|] eqn:Ef.
  2:{ split; [done|]. split; [done|]. unfold canonicalize_components_to_standard. by rewrite Ef. }
  pose proof Ef as [He Hf]%find_first_Some. apply andb_prop in Hf as [Ho%bool_decide_eq_true_1 _].
  set (r' := with_components r (map (canonical_component e) r.(components))).
  assert (find_entry_for_repository signed r' host suite = Some e) as Ef'.
  { rewrite <- Ef. apply find_first_ext. intros e' He'. destruct (bool_decide_reflect (e'.(offered_on_host) = host)); [|done].
    cbn [andb]. apply canonical_entry_matches; try done. congruence. }
  split; [done|]. split.
  - intros h. unfold is_referenced_by. destruct (lookup_entry h host) as [e'|] eqn:El; [|done].
    apply lookup_entry_iff in El as (He' & Ho' & _). apply canonical_entry_matches; try done. congruence.
  - unfold canonicalize_components_to_standard. rewrite Ef'. unfold r' at 2 3. cbn [with_components components].
    f_equal.
    + assert (map (canonical_component e) (map (canonical_component e) r.(components)) = map (canonical_component e) r.(components)) as E;
        [|unfold r', with_components; cbn [types uris suites components options comment file_type enabled]; by rewrite E].
      rewrite map_map. apply map_ext. intros c. apply canonical_component_idem.
    + rewrite existsb_of_map. apply not_true_is_false. intros (c & _ & Hc)%existsb_exists.
      apply andb_prop in Hc as [H1 H2]. pose proof (canonical_component_idem e c) as Hi.
      unfold canonical_component at 1 in Hi. rewrite H1, H2 in Hi. simpl in Hi. rewrite <- Hi in H1.
      by rewrite bool_decide_eq_true_2 in H1.
Qed.

(** ** The status of standard repositories *)
Definition status_spec (h : APTRepositoryHandle) (repos : list APTRepository) (host : HostProduct) (suite : DebianCodename)
    : option bool :=
  if existsb (λ r, is_referenced_by signed h r host suite && r.(enabled)) repos then Some true
  else if existsb (λ r, is_referenced_by signed h r host suite) repos then Some false
  else None.

Lemma foldl_map {A B} (f : B → A → A) (repos : list B) : ∀ l,
  foldl (λ l r, map (f r) l) l repos = map (λ s, foldl (λ s r, f r s) s repos) l.
Proof. induction repos as [|r repos IH]; intros l; simpl; [by rewrite map_id|]. rewrite IH. by rewrite map_map. Qed.

Lemma update_status_spec host suite repos : ∀ s,
  foldl (λ s r, update_status signed host suite r s) s repos =
  mkStandard s.(sh_handle)
    (if decide (s.(status) = Some true) then Some true
     else match status_spec s.(sh_handle) repos host suite with None => s.(status) | st => st end)
    s.(s_name) s.(s_description).
Proof.
  induction repos as [|r repos IH]; intros s.
  { destruct s as [h [[]|] n d]; reflexivity. }
  cbn [foldl]. rewrite IH. unfold update_status. destruct s as [h st n d]. cbn [sh_handle status s_name s_description].
  case_decide as Ht; [subst st; by rewrite decide_True|]. unfold status_spec. cbn [existsb].
  destruct (is_referenced_by signed h r host suite) eqn:Er; cbn [sh_handle status s_name s_description orb andb].
  - destruct (r.(enabled)); [by rewrite decide_True|]. rewrite decide_False by done. cbn [orb]. f_equal.
    destruct (existsb (λ r0, is_referenced_by signed h r0 host suite && enabled r0) repos); [done|].
    by destruct (existsb _ repos).
  - by rewrite decide_False.
Qed.

(** The list shows exactly the repositories of the product for the suite, each with
    the status of the repositories that are configured. *)
Theorem standard_repositories_status repos host suite :
  standard_repositories signed repos host suite =
  map (λ s, mkStandard s.(sh_handle) (status_spec s.(sh_handle) repos host suite) s.(s_name) s.(s_description))
    (standard_repos_offered_for host suite).
Proof.
  unfold standard_repositories. rewrite foldl_map. unfold standard_repos_offered_for. rewrite !map_map.
  apply map_ext. intros e. rewrite update_status_spec. unfold from_handle_for.
  destruct (lookup_entry (entry_handle e) host); cbn [sh_handle status s_name s_description];
    rewrite decide_False by done; by destruct (status_spec _ _ _ _).
Qed.

Lemma referenced_offered h r host suite :
  is_referenced_by signed h r host suite = true → ∃ s, s ∈ standard_repos_offered_for host suite ∧ s.(sh_handle) = h.
Proof.
  unfold is_referenced_by. destruct (lookup_entry h host) as [e|] eqn:El; [|done]. intros Hm. exists (from_handle_for h host).
  apply lookup_entry_iff in El as (He & Ho & <-). split; [|unfold from_handle_for; by destruct (lookup_entry _ host)].
  unfold standard_repos_offered_for. apply list_elem_of_fmap. exists e. split; [done|]. apply list_elem_of_filter. split; [|done].
  rewrite bool_decide_eq_true_2 by done. unfold entry_matches in Hm. repeat (apply andb_prop in Hm as [Hm ?]). done.
Qed.

(** A repository that is configured and enabled is shown as such. *)
Lemma enabled_is_listed h r repos host suite :
  r ∈ repos → r.(enabled) = true → is_referenced_by signed h r host suite = true →
  ∃ s, s ∈ standard_repositories signed repos host suite ∧ s.(sh_handle) = h ∧ s.(status) = Some true.
Proof.
  intros Hr He Hm. destruct (referenced_offered h r host suite Hm) as (s & Hs & <-).
  rewrite standard_repositories_status. eexists. split; [apply list_elem_of_fmap; by exists s|]. split; [done|]. cbn [status].
  unfold status_spec. rewrite (proj2 (existsb_exists _ _)); [done|]. exists r. rewrite Hm, He. split; [by apply list_elem_of_In|done].
Qed.

End Canonical.

(** ** Names of release files *)
Definition file_name_char (c : rchar) : Prop := (32 < c < 127)%N.

Lemma encode_byte_safe b : (b < 256)%N → Forall file_name_char (encode_byte b).
Proof.
  intros Hb. unfold encode_byte. assert (∀ v, (v < 16)%N → file_name_char (hex_lower v)) as Hx.
  { intros v Hv. unfold hex_lower, file_name_char. destruct (N.ltb_spec v 10); lia. }
  destruct ((b <=? 32)%N || (127 <=? b)%N || bool_decide (b ∈ encode_chars)) eqn:E.
  - apply Forall_cons_2; [done|]. apply Forall_cons_2; [apply Hx, N.Div0.div_lt_upper_bound; lia|].
    apply Forall_cons_2; [by apply Hx, N.mod_lt|done].
  - apply orb_false_iff in E as [[H1%N.leb_gt H2%N.leb_gt]%orb_false_iff _]. apply Forall_singleton. done.
Qed.

Lemma after_text_app p s r : after_text p s = Some r → ∃ x, s = x ++ r.
Proof.
  induction s as [|c s IH]; cbn [after_text].
  - destruct (strip_prefix p []) eqn:E; [|done]. intros [= <-]. apply strip_prefix_Some in E. by exists p.
  - destruct (strip_prefix p (c :: s)) eqn:E.
    + intros [= <-]. apply strip_prefix_Some in E. by exists p.
    + intros [x ->]%IH. by exists (c :: x).
Qed.

Lemma after_char_app c s : ∃ x, s = x ++ after_char c s.
Proof.
  unfold after_char. destruct (split_once c s) as [[a b]|] eqn:E; [|by exists []]. apply split_once_iff in E as [-> _].
  exists (a ++ [c]). by rewrite <- app_assoc.
Qed.

(** The name of a release file is a single component of a path, of printable ASCII
    characters: no URI leads outside of the directory of the lists. *)
Lemma uri_to_filename_safe uri : valid_str uri → Forall (λ c, file_name_char c ∧ c ≠ slash) (uri_to_filename uri).
Proof.
  intros Hv. unfold uri_to_filename.
  assert (∀ x y : rstr, valid_str (x ++ y) → valid_str x ∧ valid_str y) as Happ by (intros x y; apply Forall_app).
  set (f1 := default uri (after_text (lit "://") uri)).
  assert (valid_str f1) as H1.
  { unfold f1. destruct (after_text (lit "://") uri) as [r|] eqn:E; [|done]. apply after_text_app in E as [x ->]. by apply Happ in Hv as [_ ?]. }
  set (f2 := if _ || _ then after_char 64%N f1 else f1).
  assert (valid_str f2) as H2.
  { unfold f2. destruct (_ || _); [|done]. destruct (after_char_app 64%N f1) as [x Ex]. rewrite Ex in H1. by apply Happ in H1 as [_ ?]. }
  assert (valid_str (suffix_or_same [slash] f2)) as H3.
  { unfold suffix_or_same. destruct (strip_end [slash] f2) as [r|] eqn:E; [|done]. apply strip_end_Some in E. rewrite E in H2. by apply Happ in H2 as [? _]. }
  apply Forall_fmap, Forall_concat. apply Forall_fmap. eapply Forall_impl; [apply as_bytes_bytes, H3|].
  intros b Hb. eapply Forall_impl; [by apply encode_byte_safe|]. intros c Hc. simpl. by case_decide.
Qed.
