(* ===== verification/AptApi.v ===== *)
(** * AptApi: the repository files of a host

    Models [APTRepositoryFile::new], [parse] and [write] on a file system, reading of
    all files ([proxmox-apt/src/repositories/mod.rs]), the name of the release
    ([release.rs]) and the calls of [proxmox-apt/src/api.rs] that list, add and change
    repositories. The disk holds [/etc/apt/sources.list] and the regular files of
    [/etc/apt/sources.list.d] in the order in which the directory is read; failing input
    and output is not modelled. The digest is a parameter; [None] is a panic. *)
From S2P Require Import Prelude TextCoding Apt AptStandard.

Inductive ApiError :=
| Apt (e : AptError) | InvalidPath | InvalidExtension | InvalidFileName
| DigestWithoutFile | DigestMismatch | DetectedModification
| NoStandardRepository | UnableToParse (path : rstr) | InvalidIndex | NoCodename | UnknownCodenameText (s : rstr).

(** ** Names of files *)
Definition dot : rchar := 46%N.

(** [Path::file_name] and [Path::extension] *)
Definition path_file_name (path : rstr) : rstr := default [] (last (split_on slash path)).
Definition path_extension (name : rstr) : option rstr :=
  match rposition dot name with
  | Some (S n) => Some (drop (S (S n)) name)
  | _ => None
  end.

Definition file_type_from_str (s : rstr) : option APTRepositoryFileType :=
  if decide (s = lit "list") then Some List_ else if decide (s = lit "sources") then Some Sources else None.

Definition starts_with_text (p s : rstr) : bool := bool_decide (is_Some (strip_prefix p s)).

(** [APTRepositoryFile::new] for a path that is not a directory. *)
Definition file_new (path : rstr) : result (option APTRepositoryFileType) ApiError :=
  let file_name := path_file_name path in
  if decide (file_name = []) then Err InvalidPath
  else if decide (head file_name = Some dot ∨ last file_name = Some 126%N) then Ok None
  else
    match path_extension file_name with
    | None => Err InvalidExtension
    | Some extension =>
        if starts_with_text (lit "dpkg-") extension || starts_with_text (lit "ucf-") extension ||
           bool_decide (extension ∈ [lit "disabled"; lit "bak"; lit "save"; lit "orig"; lit "distUpgrade"])
        then Ok None
        else
          match file_type_from_str extension with
          | None => Err InvalidExtension
          | Some ft =>
              if forallb (λ x, is_ascii_alphanumeric x || bool_decide (x ∈ [95; 45; 46]%N)) file_name
              then Ok (Some ft) else Err InvalidFileName
          end
    end.

(** ** The disk *)
Record Disk := mkDisk { sources_list : option rstr; sources_dir : list (rstr * rstr) }.

Definition APT_SOURCES_LIST_FILENAME : rstr := lit "/etc/apt/sources.list".

Definition disk_entries (d : Disk) : list (rstr * rstr) :=
  match d.(sources_list) with Some text => [(APT_SOURCES_LIST_FILENAME, text)] | None => [] end ++ d.(sources_dir).

Fixpoint assoc_get (path : rstr) (l : list (rstr * rstr)) : option rstr :=
  match l with
  | [] => None
  | (p, t) :: l => if decide (p = path) then Some t else assoc_get path l
  end.

Fixpoint assoc_set (path text : rstr) (l : list (rstr * rstr)) : list (rstr * rstr) :=
  match l with
  | [] => [(path, text)]
  | (p, t) :: l => if decide (p = path) then (p, text) :: l else (p, t) :: assoc_set path text l
  end.

Definition disk_read (path : rstr) (d : Disk) : option rstr := assoc_get path (disk_entries d).

Definition disk_write (path text : rstr) (d : Disk) : Disk :=
  if decide (path = APT_SOURCES_LIST_FILENAME) then mkDisk (Some text) d.(sources_dir)
  else mkDisk d.(sources_list) (assoc_set path text d.(sources_dir)).

Definition disk_remove (path : rstr) (d : Disk) : Disk :=
  if decide (path = APT_SOURCES_LIST_FILENAME) then mkDisk None d.(sources_dir)
  else mkDisk d.(sources_list) (filter (λ e, e.1 ≠ path) d.(sources_dir)).

(** ** Files *)
Record APTRepositoryFile := mkFile {
  path : rstr;
  f_type : APTRepositoryFileType;
  repositories_of : list APTRepository;
  digest : option (list N);
}.

Definition with_repositories (f : APTRepositoryFile) (repos : list APTRepository) : APTRepositoryFile :=
  mkFile f.(path) f.(f_type) repos f.(digest).

(** The release of the host. *)
Definition is_quote (c : rchar) : bool := bool_decide (c ∈ [34; 39]%N).
Definition trim_quotes (s : rstr) : rstr := reverse (drop_while is_quote (reverse (drop_while is_quote s))).

Fixpoint codename_of_lines (ls : list rstr) : result DebianCodename ApiError :=
  match ls with
  | [] => Err NoCodename
  | line :: ls =>
      match strip_prefix (lit "VERSION_CODENAME=") line with
      | Some codename => ok_or (codename_try_from (trim_quotes codename)) (UnknownCodenameText (trim_quotes codename))
      | None => codename_of_lines ls
      end
  end.

(** [get_current_release_codename] on the text of [/etc/os-release]. *)
Definition get_current_release_codename (os_release : rstr) : result DebianCodename ApiError :=
  codename_of_lines (lines os_release).

Section Api.
Context (sha256 : list N → list N) (is_signed_by_key : rstr → rstr → rstr → bool)
  (release_file : rstr → option (result rstr AptError)).

Definition text_digest (text : rstr) : list N := sha256 (as_bytes text).

(** [new] and [parse] *)
Definition read_file (path text : rstr) : option (result (option APTRepositoryFile) ApiError) :=
  match file_new path with
  | Err e => Some (Err e)
  | Ok None => Some (Ok None)
  | Ok (Some ft) =>
      match file_parse ft text with
      | None => None
      | Some (Err e) => Some (Err (Apt e))
      | Some (Ok repos) => Some (Ok (Some (mkFile path ft repos (Some (text_digest text)))))
      end
  end.

(** The loop of [repositories] over the files. *)
Fixpoint read_files (l : list (rstr * rstr)) : option (list APTRepositoryFile * list (rstr * ApiError)) :=
  match l with
  | [] => Some ([], [])
  | (path, text) :: l =>
      match read_file path text, read_files l with
      | Some r, Some (files, errors) =>
          Some (match r with
                | Ok (Some f) => (f :: files, errors)
                | Ok None => (files, errors)
                | Err e => (files, (path, e) :: errors)
                end)
      | _, _ => None
      end
  end.

(** [common_digest] *)
Definition common_digest (files : list APTRepositoryFile) : list N :=
  sha256 (concat (map (λ e, default [] e.2)
    (foldl (λ digests f, bt_insert f.(path) f.(digest) digests) [] files))).

(** [repositories] *)
Definition repositories (d : Disk) : option (list APTRepositoryFile * list (rstr * ApiError) * list N) :=
  match read_files (disk_entries d) with
  | None => None
  | Some (files, errors) => Some (files, errors, common_digest files)
  end.

Definition detect_modification (current : list N) (user_digest : option (list N)) : result unit ApiError :=
  match user_digest with
  | Some u => if decide (u = current) then Ok tt else Err DetectedModification
  | None => Ok tt
  end.

(** [APTRepositoryFile::write] *)
Definition check_digest (f : APTRepositoryFile) (d : Disk) : result unit ApiError :=
  match f.(digest) with
  | None => Ok tt
  | Some dg =>
      match disk_read f.(path) d with
      | None => Err DigestWithoutFile
      | Some text => if decide (dg = text_digest text) then Ok tt else Err DigestMismatch
      end
  end.

Definition write_file (f : APTRepositoryFile) (d : Disk) : option (result Disk ApiError) :=
  match check_digest f d with
  | Err e => Some (Err e)
  | Ok _ =>
      match file_write f.(repositories_of) with
      | None => None
      | Some (Err e) => Some (Err (Apt e))
      | Some (Ok None) => Some (Ok (disk_remove f.(path) d))
      | Some (Ok (Some text)) => Some (Ok (disk_write f.(path) text d))
      end
  end.

(** ** The calls *)

(** The first repository that a handle references, with what is before and behind it. *)
Fixpoint split_reference (p : APTRepository → bool) (repos : list APTRepository)
    : option (list APTRepository * APTRepository * list APTRepository) :=
  match repos with
  | [] => None
  | r :: repos =>
      if p r then Some ([], r, repos)
      else match split_reference p repos with
           | Some (before, x, behind) => Some (r :: before, x, behind)
           | None => None
           end
  end.

Fixpoint find_reference (p : APTRepository → bool) (files : list APTRepositoryFile)
    : option (APTRepositoryFile * list APTRepository * APTRepository * list APTRepository) :=
  match files with
  | [] => None
  | f :: files =>
      match split_reference p f.(repositories_of) with
      | Some (before, r, behind) => Some (f, before, r, behind)
      | None => find_reference p files
      end
  end.

Definition error_at (path : rstr) (errors : list (rstr * ApiError)) : bool := existsb (λ e, bool_decide (e.1 = path)) errors.

(** The repository is configured already: it is brought into canonical form and enabled. *)
Definition enable_reference (host : HostProduct) (suite : DebianCodename) (f : APTRepositoryFile)
    (before : list APTRepository) (r : APTRepository) (behind : list APTRepository) (d : Disk) : option (result Disk ApiError) :=
  let '(r, canonicalized) := canonicalize_components_to_standard is_signed_by_key r host suite in
  if r.(enabled) then
    if canonicalized then write_file (with_repositories f (before ++ r :: behind)) d else Some (Ok d)
  else write_file (with_repositories f (before ++ set_enabled true r :: behind)) d.

(** A new repository is appended to its file. *)
Definition append_repository (repo : APTRepository) (p : rstr) (files : list APTRepositoryFile)
    (errors : list (rstr * ApiError)) (d : Disk) : option (result Disk ApiError) :=
  if error_at p errors then Some (Err (UnableToParse p))
  else
    match find_first (λ f, bool_decide (f.(path) = p)) files with
    | Some f => write_file (with_repositories f (f.(repositories_of) ++ [repo])) d
    | None =>
        match file_new p with
        | Err e => Some (Err e)
        | Ok None => Some (Err InvalidPath)
        | Ok (Some ft) => write_file (mkFile p ft [repo] None) d
        end
    end.

Definition add_repository_handle (host : HostProduct) (h : APTRepositoryHandle) (user_digest : option (list N))
    (os_release : rstr) (d : Disk) : option (result Disk ApiError) :=
  match repositories d with
  | None => None
  | Some (files, errors, current) =>
      match detect_modification current user_digest with
      | Err e => Some (Err e)
      | Ok _ =>
          match get_current_release_codename os_release with
          | Err e => Some (Err e)
          | Ok suite =>
              match find_reference (λ r, is_referenced_by is_signed_by_key h r host suite) files with
              | Some (f, before, r, behind) => enable_reference host suite f before r behind d
              | None =>
                  match get_standard_repository h host suite with
                  | None => Some (Err NoStandardRepository)
                  | Some (repo, p) => append_repository repo p files errors d
                  end
              end
          end
      end
  end.

Definition change_repository (p : rstr) (index : nat) (enabled : option bool) (user_digest : option (list N)) (d : Disk)
    : option (result Disk ApiError) :=
  match repositories d with
  | None => None
  | Some (files, errors, current) =>
      match detect_modification current user_digest with
      | Err e => Some (Err e)
      | Ok _ =>
          if error_at p errors then Some (Err (UnableToParse p))
          else
            match find_first (λ f, bool_decide (f.(path) = p)) files with
            | None => Some (Err InvalidPath)
            | Some f =>
                match f.(repositories_of) !! index with
                | None => Some (Err InvalidIndex)
                | Some r =>
                    let r := match enabled with Some b => set_enabled b r | None => r end in
                    write_file (with_repositories f (<[index := r]> f.(repositories_of))) d
                end
            end
      end
  end.

Definition all_repositories (files : list APTRepositoryFile) : list APTRepository := concat (map repositories_of files).

Record APTRepositoriesResult := mkResult {
  res_files : list APTRepositoryFile;
  res_errors : list (rstr * ApiError);
  res_digest : list N;
  res_infos : list (rstr * APTRepositoryInfo);
  res_standard : list APTStandardRepository;
}.

(** [check_repositories]: every note with the path of its file. *)
Definition check_repositories (files : list APTRepositoryFile) (suite : DebianCodename) : list (rstr * APTRepositoryInfo) :=
  concat (map (λ f, map (pair f.(path))
    (check_suites 0 suite f.(repositories_of) ++ check_uris release_file 0 f.(repositories_of))) files).

Definition list_repositories (host : HostProduct) (os_release : rstr) (d : Disk) : option (result APTRepositoriesResult ApiError) :=
  match repositories d with
  | None => None
  | Some (files, errors, current) =>
      Some (let? suite := get_current_release_codename os_release in
            Ok (mkResult files errors current (check_repositories files suite)
                  (standard_repositories is_signed_by_key (all_repositories files) host suite)))
  end.

End Api.
