(* ===== verification/AptApiTheory.v ===== *)
(** * AptApiTheory: adding and changing repositories

    On a disk whose repositories their files can express, a call never panics and leaves
    such a disk: a standard repository that was added is listed as enabled when the
    files are read again, and a change of a repository changes this repository of its
    file only. *)
From S2P Require Import Prelude TextCoding Apt AptTheory AptStandard AptStandardTheory AptApi.

(** ** The disk *)
Definition disk_ok (d : Disk) : Prop := NoDup (map fst (disk_entries d)).

Lemma assoc_set_elem p t l q u :
  NoDup (map fst l) → (q, u) ∈ assoc_set p t l ↔ (q = p ∧ u = t) ∨ (q ≠ p ∧ (q, u) ∈ l).
Proof.
  induction l as [|[a b] l IH]; intros Hnd.
  - simpl. rewrite list_elem_of_singleton, elem_of_nil. naive_solver.
  - simpl in Hnd. apply NoDup_cons in Hnd as [Ha Hnd]. specialize (IH Hnd). cbn [assoc_set]. case_decide as E.
    + subst a. rewrite !elem_of_cons. split.
      * intros [[= -> ->]|Hin]; [by left|]. right. split; [|by right]. intros ->. apply Ha. apply list_elem_of_fmap. by exists (p, u).
      * intros [[-> ->]|[Hne [[= -> ->]|Hin]]]; [by left|done|by right].
    + rewrite !elem_of_cons, IH. naive_solver.
Qed.

Lemma assoc_set_paths p t l : NoDup (map fst l) → NoDup (map fst (assoc_set p t l)) ∧
  ∀ q, q ∈ map fst (assoc_set p t l) ↔ q = p ∨ q ∈ map fst l.
Proof.
  induction l as [|[a b] l IH]; intros Hnd; simpl.
  - split; [apply NoDup_singleton|]. intros q. rewrite list_elem_of_singleton, elem_of_nil. tauto.
  - simpl in Hnd. apply NoDup_cons in Hnd as [Ha Hnd]. destruct (IH Hnd) as [H1 H2]. case_decide as E; simpl.
    + subst a. split; [by constructor|]. intros q. rewrite elem_of_cons. tauto.
    + split; [constructor; [|done]; rewrite H2; naive_solver|]. intros q. rewrite !elem_of_cons, H2. tauto.
Qed.

Lemma disk_dir_ok d : disk_ok d → NoDup (map fst d.(sources_dir)).
Proof. unfold disk_ok, disk_entries. destruct d.(sources_list); simpl; [by intros [_ ?]%NoDup_cons|done]. Qed.

(** In the directory there is no file with the path of [sources.list]. *)
Definition dir_ok (d : Disk) : Prop := APT_SOURCES_LIST_FILENAME ∉ map fst d.(sources_dir).

Lemma disk_write_elem p t d q u :
  disk_ok d → dir_ok d →
  (q, u) ∈ disk_entries (disk_write p t d) ↔ (q = p ∧ u = t) ∨ (q ≠ p ∧ (q, u) ∈ disk_entries d).
Proof.
  intros Hd Hdir. pose proof (disk_dir_ok d Hd) as Hnd. unfold disk_write, disk_entries.
  assert ((APT_SOURCES_LIST_FILENAME, u) ∉ d.(sources_dir)) as Hn.
  { intros Hin. apply Hdir. apply list_elem_of_fmap. by eexists (_, u). }
  case_decide as E; cbn [sources_list sources_dir]; rewrite !elem_of_app.
  - subst p. rewrite list_elem_of_singleton. destruct d.(sources_list); rewrite ?list_elem_of_singleton, ?elem_of_nil; naive_solver.
  - rewrite assoc_set_elem by done. destruct d.(sources_list); rewrite ?list_elem_of_singleton, ?elem_of_nil; naive_solver.
Qed.

Lemma disk_write_ok p t d : disk_ok d → dir_ok d → disk_ok (disk_write p t d) ∧ dir_ok (disk_write p t d).
Proof.
  intros Hd Hdir. pose proof (disk_dir_ok d Hd) as Hnd. unfold disk_ok, dir_ok, disk_write, disk_entries in *. case_decide as E.
  - simpl. split; [|done]. by constructor.
  - cbn [sources_list sources_dir]. destruct (assoc_set_paths p t d.(sources_dir) Hnd) as [H1 H2].
    assert (APT_SOURCES_LIST_FILENAME ∉ map fst (assoc_set p t d.(sources_dir))) as H3 by (rewrite H2; naive_solver).
    split; [|done]. destruct d.(sources_list); simpl; [by constructor|done].
Qed.

(** ** Files *)
Section Files.
Context (sha256 : list N → list N).

Lemma read_file_new path text f :
  read_file sha256 path text = Some (Ok (Some f)) → f.(AptApi.path) = path ∧ file_new path = Ok (Some f.(f_type)).
Proof.
  unfold read_file. destruct (file_new path) as [[ft|]|]; [|done..].
  destruct (file_parse ft text) as [[repos|]|]; [|done..]. by intros [= <-].
Qed.

Lemma read_files_Some l :
  (∀ p t, (p, t) ∈ l → read_file sha256 p t ≠ None) ↔ ∃ files errors, read_files sha256 l = Some (files, errors).
Proof.
  induction l as [|[p t] l IH]; cbn [read_files].
  - split; [by eexists _, _|]. intros _ p t Hin. by apply elem_of_nil in Hin.
  - split.
    + intros H. destruct (read_file sha256 p t) as [r|] eqn:E; [|by destruct (H p t); [left|]].
      destruct (proj1 IH) as (files & errors & ->); [intros q u Hin; apply H; by right|].
      destruct r as [[f|]|e]; by eexists _, _.
    + intros (files & errors & H) q u. destruct (read_file sha256 p t) as [r|] eqn:E; [|done].
      destruct (read_files sha256 l) as [[fs es]|] eqn:El; [|done].
      intros [[= -> ->]|Hin]%elem_of_cons; [by rewrite E|]. apply (proj2 IH); [by eexists _, _|done].
Qed.

Lemma read_files_elem l files errors f :
  read_files sha256 l = Some (files, errors) →
  f ∈ files ↔ ∃ t, (f.(path), t) ∈ l ∧ read_file sha256 f.(path) t = Some (Ok (Some f)).
Proof.
  revert files errors. induction l as [|[p t] l IH]; intros files errors; cbn [read_files].
  - intros [= <- <-]. rewrite elem_of_nil. split; [done|]. intros (t & Hin & _). by apply elem_of_nil in Hin.
  - destruct (read_file sha256 p t) as [r|] eqn:E; [|done].
    destruct (read_files sha256 l) as [[fs es]|]; [|done]. intros H. specialize (IH fs es eq_refl).
    assert (f ∈ files ↔ r = Ok (Some f) ∨ f ∈ fs) as ->.
    { destruct r as [[g|]|e]; injection H as <- <-; rewrite ?elem_of_cons; naive_solver. }
    rewrite IH. split.
    + intros [->|(u & Hin & Hu)]; [|exists u; split; [by right|done]]. exists t.
      destruct (read_file_new _ _ _ E) as [-> _]. split; [by left|done].
    + intros (u & [[= Hp ->]|Hin]%elem_of_cons & Hu); [left; rewrite Hp in Hu; congruence|]. right. eauto.
Qed.

End Files.

(** ** Expressible repositories *)
Lemma expressible_type ft r : expressible ft r → r.(file_type) = ft.
Proof. destruct ft; intros H; apply H. Qed.

Lemma expressible_block ft r : expressible ft r → block_ok r.
Proof. destruct ft; intros H; [by apply list_block|by apply stanza_block]. Qed.

Lemma file_content_checked repos : ∀ n content text,
  file_content n content repos = Some (Ok text) → Forall (λ r, basic_check r = Ok tt) repos.
Proof.
  induction repos as [|r repos IH]; intros n content text; cbn [file_content]; [done|].
  destruct (basic_check r) as [[]|e] eqn:E; [|done]. destruct (repo_write r) as [[w|]|]; [|done..]. intros H%IH. by constructor.
Qed.

Lemma file_write_checked repos text :
  file_write repos = Some (Ok (Some text)) → Forall (λ r, basic_check r = Ok tt) repos.
Proof.
  unfold file_write. destruct repos as [|r repos]; [done|]. destruct (file_content 1 [] (r :: repos)) as [[w|]|] eqn:E; [|done..].
  intros _. by eapply file_content_checked.
Qed.

Lemma file_write_removes repos : file_write repos = Some (Ok None) → repos = [].
Proof. unfold file_write. destruct repos as [|r repos]; [done|]. by destruct (file_content 1 [] (r :: repos)) as [[]|]. Qed.

Lemma file_content_total repos : ∀ n content, Forall block_ok repos → file_content n content repos ≠ None.
Proof.
  induction repos as [|r repos IH]; intros n content H; cbn [file_content]; [done|]. apply Forall_cons in H as [(_ & _ & Hw) H].
  destruct (basic_check r) as [[]|]; [|done]. rewrite Hw. by apply IH.
Qed.

Lemma file_write_total ft repos : Forall (expressible ft) repos → file_write repos ≠ None.
Proof.
  intros H. unfold file_write. destruct repos as [|r repos]; [done|].
  pose proof (file_content_total (r :: repos) 1 []) as Ht. destruct (file_content 1 [] (r :: repos)) as [[]|]; try done.
  exfalso. apply Ht; [|done]. eapply Forall_impl; [exact H|]. apply expressible_block.
Qed.

Lemma file_write_read ft repos text :
  Forall (expressible ft) repos → file_write repos = Some (Ok (Some text)) → file_parse ft text = Some (Ok repos).
Proof.
  intros He Hw. assert (repos ≠ []) as Hne by (by intros ->).
  assert (∃ text, file_write repos = Some (Ok (Some text)) ∧ file_parse ft text = Some (Ok repos)) as (t & Ht & Hp).
  { pose proof (file_write_checked _ _ Hw) as Hc.
    destruct ft; [exact (format_roundtrip List_ repos Hne He Hc)|exact (format_roundtrip Sources repos Hne He Hc)]. }
  by replace text with t by congruence.
Qed.

Lemma set_enabled_option_middle v a o b :
  Forall plain_option a → o.(opt_key) = lit "Enabled" → set_enabled_option v (a ++ o :: b) = a ++ mkOption (lit "Enabled") [v] :: b.
Proof.
  intros H Ho. induction H as [|x a (_ & Hr & _) _ IH]; simpl; [by rewrite decide_True, Ho|].
  rewrite decide_False; [by rewrite IH|]. intros E. rewrite E in Hr. by apply Hr, (bool_decide_unpack _).
Qed.

Lemma set_enabled_options opts en b : stanza_options_ok opts en → stanza_options_ok (set_enabled_option (bool_text b) opts) b.
Proof.
  intros [[H _]|(x & y & -> & Hx & Hy)]; right.
  - exists opts, []. by rewrite set_enabled_append.
  - exists x, y. by rewrite set_enabled_option_middle.
Qed.

Lemma set_enabled_expressible ft b r : expressible ft r → expressible ft (set_enabled b r).
Proof.
  destruct ft; cbn [expressible].
  - intros [Ht Hs Hc Ho Hm]. unfold set_enabled. rewrite Ht. by split.
  - intros [Ht H1 H2 H3 H4 H5 H6]. unfold set_enabled. rewrite Ht. split; try done. by eapply set_enabled_options.
Qed.

Lemma entry_component_words e : e ∈ STANDARD_REPOS → word_ok e.(deb_component) ∧ plain_word e.(deb_component).
Proof. revert e. apply (table_entries (λ e, word_ok e.(deb_component) ∧ plain_word e.(deb_component))). vm_compute. reflexivity. Qed.

Lemma canonical_components (P : rstr → Prop) e l :
  P e.(deb_component) → Forall P l → Forall P (map (canonical_component e) l).
Proof.
  intros He H. apply Forall_fmap. eapply Forall_impl; [exact H|]. intros c Hc. unfold canonical_component. simpl.
  by destruct (_ && _).
Qed.

Lemma with_components_expressible ft e r :
  e ∈ STANDARD_REPOS → expressible ft r → expressible ft (with_components r (map (canonical_component e) r.(components))).
Proof.
  intros [Hw Hp]%entry_component_words. destruct ft; cbn [expressible].
  - intros [Ht Hs Hc Ho Hm]. split; try done. by apply canonical_components.
  - intros [Ht H1 H2 H3 H4 H5 H6]. split; try done. by apply canonical_components.
Qed.

(** The repository of an entry for a release that the host can have. *)
Definition entry_words (e : StandardRepoEntry) (suite : DebianCodename) : Prop :=
  (word_ok e.(canonical_uri) ∧ head e.(canonical_uri) ≠ Some lbracket ∧ plain_word e.(canonical_uri)) ∧
  (word_ok (codename_text suite) ∧ plain_word (codename_text suite)) ∧
  option_ok (mkOption (lit "Signed-By") [default [] (head e.(signing_keys))]) ∧
  plain_option (mkOption (lit "Signed-By") [default [] (head e.(signing_keys))]) ∧
  file_new e.(file_path_legacy) = Ok (Some List_) ∧ file_new e.(file_path_deb822) = Ok (Some Sources).

#[export] Instance AptError_eq_dec : EqDecision AptError.
Proof. solve_decision. Defined.
#[export] Instance ApiError_eq_dec : EqDecision ApiError.
Proof. solve_decision. Defined.
#[export] Instance result_eq_dec {A E} `{EqDecision A, EqDecision E} : EqDecision (result A E).
Proof. solve_decision. Defined.
#[export] Instance entry_words_dec e suite : Decision (entry_words e suite).
Proof. unfold entry_words. apply _. Defined.

Lemma entry_words_ok e suite : e ∈ STANDARD_REPOS → suite ∈ known_codenames → entry_words e suite.
Proof.
  intros He. revert suite. apply Forall_forall. revert e He.
  apply (table_entries (λ e, Forall (entry_words e) known_codenames)). vm_compute. reflexivity.
Qed.

Lemma entry_expressible e suite :
  e ∈ STANDARD_REPOS → suite ∈ known_codenames → expressible (if deb822_suite suite then Sources else List_) (entry_repository e suite).
Proof.
  intros He Hs. destruct (entry_words_ok e suite He Hs) as ((U1 & U2 & U3) & (S1 & S2) & O1 & O2 & _).
  destruct (entry_component_words e He) as [C1 C2]. unfold entry_repository. destruct (deb822_suite suite); cbn [expressible].
  - split; try done; try (split; [done|]); try (by apply Forall_singleton).
    + left. split; [|done]. by apply Forall_singleton.
    + by exists [].
  - split; try done; try (by apply Forall_singleton).
    + by eexists _, _, _.
    + by exists [].
Qed.

Lemma codename_known s c : from_known s = Some c → c ∈ known_codenames.
Proof.
  unfold from_known. intros H. repeat (case_decide; [injection H as <-; by apply (bool_decide_unpack _)|]). done.
Qed.

Lemma current_codename_known os suite : get_current_release_codename os = Ok suite → suite ∈ known_codenames.
Proof.
  unfold get_current_release_codename. induction (lines os) as [|l ls IH]; cbn [codename_of_lines]; [done|].
  destruct (strip_prefix (lit "VERSION_CODENAME=") l) as [c|]; [|exact IH]. intros H%ok_or_ok. by eapply codename_known.
Qed.

(** ** Writing a file *)
Section Calls.
Context (sha256 : list N → list N) (signed : rstr → rstr → rstr → bool)
  (release_file : rstr → option (result rstr AptError)).

Definition files_ok (files : list APTRepositoryFile) : Prop :=
  Forall (λ f, Forall (expressible f.(f_type)) f.(repositories_of)) files.

(** The files of a disk that can be read, with repositories that they can express. *)
Definition disk_files (d : Disk) (files : list APTRepositoryFile) : Prop :=
  disk_ok d ∧ dir_ok d ∧ files_ok files ∧ ∃ errors, read_files sha256 (disk_entries d) = Some (files, errors).

Lemma disk_files_repositories d files :
  disk_files d files → ∃ errors c, repositories sha256 d = Some (files, errors, c).
Proof. intros (_ & _ & _ & errors & H). unfold repositories. rewrite H. eauto. Qed.

Lemma files_new d files f : disk_files d files → f ∈ files → file_new f.(path) = Ok (Some f.(f_type)).
Proof.
  intros (_ & _ & _ & errors & H) Hf. apply (read_files_elem sha256 _ _ _ f H) in Hf as (t & _ & Ht).
  by apply read_file_new in Ht as [_ ?].
Qed.

Lemma files_expressible d files f : disk_files d files → f ∈ files → Forall (expressible f.(f_type)) f.(repositories_of).
Proof. intros (_ & _ & H & _) Hf. unfold files_ok in H. rewrite Forall_forall in H. by apply H. Qed.

Lemma write_file_total f d : Forall (expressible f.(f_type)) f.(repositories_of) → write_file sha256 f d ≠ None.
Proof.
  intros H%file_write_total. unfold write_file. destruct (check_digest sha256 f d); [|done].
  by destruct (file_write f.(repositories_of)) as [[[|]|]|].
Qed.

(** A file that is written is read with its repositories, and no other file changes. *)
Lemma write_file_files f d d' files :
  disk_files d files → file_new f.(path) = Ok (Some f.(f_type)) →
  Forall (expressible f.(f_type)) f.(repositories_of) → f.(repositories_of) ≠ [] →
  write_file sha256 f d = Some (Ok d') →
  ∃ files' dg, disk_files d' files' ∧
    ∀ g, g ∈ files' ↔ g = mkFile f.(path) f.(f_type) f.(repositories_of) (Some dg) ∨ (g.(path) ≠ f.(path) ∧ g ∈ files).
Proof.
  intros (Hd & Hdir & Hok & errors & Hr) Hn He Hne. unfold write_file. destruct (check_digest sha256 f d); [|done].
  destruct (file_write f.(repositories_of)) as [[[text|]|]|] eqn:Hw; [|by apply file_write_removes in Hw|done..].
  intros [= <-]. pose proof (file_write_read _ _ _ He Hw) as Hp.
  assert (read_file sha256 f.(path) text =
    Some (Ok (Some (mkFile f.(path) f.(f_type) f.(repositories_of) (Some (text_digest sha256 text)))))) as Hf.
  { unfold read_file. by rewrite Hn, Hp. }
  destruct (proj1 (read_files_Some sha256 (disk_entries (disk_write f.(path) text d)))) as (files' & errors' & Hr').
  { intros p t [[-> ->]|[_ Hin]]%disk_write_elem; [by rewrite Hf| |done..].
    revert p t Hin. apply (proj2 (read_files_Some sha256 (disk_entries d))). eauto. }
  assert (∀ g, g ∈ files' ↔ g = mkFile f.(path) f.(f_type) f.(repositories_of) (Some (text_digest sha256 text)) ∨
    (g.(path) ≠ f.(path) ∧ g ∈ files)) as Hg.
  { intros g. rewrite (read_files_elem _ _ _ _ g Hr'), (read_files_elem _ _ _ _ g Hr).
    setoid_rewrite (disk_write_elem f.(path) text d g.(path)); [|done..]. split.
    - intros (t & [[Hp' ->]|[Hp' Hin]] & Ht); [|by right; eauto]. left. rewrite Hp' in Ht. congruence.
    - intros [->|(Hp' & t & Hin & Ht)]; [|exists t; split; [by right|done]]. exists text. split; [by left|done]. }
  exists files', (text_digest sha256 text). split; [|done]. destruct (disk_write_ok f.(path) text d Hd Hdir) as [H1 H2].
  split; [done|]. split; [done|]. split; [|by exists errors'].
  unfold files_ok. rewrite Forall_forall. intros g [->|[_ Hin]]%Hg; [done|]. unfold files_ok in Hok. rewrite Forall_forall in Hok. by apply Hok.
Qed.

(** ** Adding a repository *)
Lemma split_reference_Some p repos before r behind :
  split_reference p repos = Some (before, r, behind) → repos = before ++ r :: behind ∧ p r = true.
Proof.
  revert before. induction repos as [|x repos IH]; intros before; cbn [split_reference]; [done|].
  destruct (p x) eqn:E; [by intros [= <- <- <-]|]. destruct (split_reference p repos) as [[[b y] l]|]; [|done].
  intros [= <- <- <-]. by destruct (IH b eq_refl) as [-> ?].
Qed.

Lemma find_reference_Some p files f before r behind :
  find_reference p files = Some (f, before, r, behind) →
  f ∈ files ∧ f.(repositories_of) = before ++ r :: behind ∧ p r = true.
Proof.
  induction files as [|g files IH]; cbn [find_reference]; [done|].
  destruct (split_reference p g.(repositories_of)) as [[[b y] l]|] eqn:E.
  - intros [= <- <- <- <-]. apply split_reference_Some in E as [? ?]. by split; [left|].
  - intros (H1 & H2)%IH. by split; [right|].
Qed.

Lemma referenced_set_enabled h b r host suite :
  is_referenced_by signed h (set_enabled b r) host suite = is_referenced_by signed h r host suite.
Proof. done. Qed.

(** What a call leaves: a disk whose files list the handle as enabled. *)
Definition lists_enabled (h : APTRepositoryHandle) (host : HostProduct) (os_release : rstr) (d : Disk) : Prop :=
  ∃ res s, list_repositories sha256 signed release_file host os_release d = Some (Ok res) ∧
    s ∈ res.(res_standard) ∧ s.(sh_handle) = h ∧ s.(status) = Some true.

Lemma lists_enabled_intro h host os suite d files f r :
  disk_files d files → get_current_release_codename os = Ok suite → f ∈ files → r ∈ f.(repositories_of) →
  r.(enabled) = true → is_referenced_by signed h r host suite = true → lists_enabled h host os d.
Proof.
  intros Hd Hs Hf Hr He Hm. destruct (disk_files_repositories d files Hd) as (errors & c & E).
  destruct (enabled_is_listed signed h r (all_repositories files) host suite) as (s & Hin & Hh & Hst); [|done..|].
  { unfold all_repositories. apply list_elem_of_In, in_concat. exists f.(repositories_of).
    rewrite <- !list_elem_of_In. split; [|done]. apply list_elem_of_fmap. eauto. }
  eexists _, s. unfold list_repositories. rewrite E, Hs. cbn [rbind]. split; [done|]. by split.
Qed.

Lemma forall_middle {A} (P : A → Prop) a x y b : Forall P (a ++ x :: b) → P y → Forall P (a ++ y :: b).
Proof. rewrite !Forall_app, !Forall_cons. tauto. Qed.

(** Writing a file of the disk with one repository replaced. *)
Lemma write_replaced h host os suite d d' files f before r r' behind :
  disk_files d files → get_current_release_codename os = Ok suite → f ∈ files →
  f.(repositories_of) = before ++ r :: behind → expressible f.(f_type) r' →
  r'.(enabled) = true → is_referenced_by signed h r' host suite = true →
  write_file sha256 (with_repositories f (before ++ r' :: behind)) d = Some (Ok d') →
  (∃ files', disk_files d' files') ∧ lists_enabled h host os d'.
Proof.
  intros Hd Hs Hf Hrepos He Hen Href Hw. pose proof (files_expressible d files f Hd Hf) as Hex. rewrite Hrepos in Hex.
  destruct (write_file_files (with_repositories f (before ++ r' :: behind)) d d' files) as (files' & dg & Hd' & Hg); try done.
  - exact (files_new d files f Hd Hf).
  - cbn [with_repositories f_type repositories_of]. by eapply forall_middle.
  - by destruct before.
  - split; [by exists files'|]. eapply (lists_enabled_intro h host os suite d' files' _ r'); try done.
    + apply Hg. by left.
    + cbn [with_repositories repositories_of]. rewrite elem_of_app, elem_of_cons. auto.
Qed.

Lemma enable_reference_total host suite d files f before r behind :
  disk_files d files → f ∈ files → f.(repositories_of) = before ++ r :: behind →
  enable_reference sha256 signed host suite f before r behind d ≠ None.
Proof.
  intros Hd Hf Hrepos. pose proof (files_expressible d files f Hd Hf) as Hex. rewrite Hrepos in Hex.
  assert (expressible f.(f_type) r) as Hr by (by apply Forall_app in Hex as [_ [? _]%Forall_cons]).
  unfold enable_reference, canonicalize_components_to_standard.
  destruct (find_entry_for_repository signed r host suite) as [e|] eqn:Ef.
  - apply find_first_Some in Ef as [He _]. pose proof (with_components_expressible _ e r He Hr) as Hc.
    destruct (enabled _); [destruct (existsb _ _); [|done]|]; apply write_file_total; cbn [with_repositories f_type repositories_of];
      (eapply forall_middle; [exact Hex|]); [done|by apply set_enabled_expressible].
  - destruct (enabled r); [done|]. apply write_file_total. cbn [with_repositories f_type repositories_of].
    eapply forall_middle; [exact Hex|]. by apply set_enabled_expressible.
Qed.

Lemma enable_reference_lists h host os suite d d' files f before r behind :
  disk_files d files → get_current_release_codename os = Ok suite → f ∈ files →
  f.(repositories_of) = before ++ r :: behind → is_referenced_by signed h r host suite = true →
  enable_reference sha256 signed host suite f before r behind d = Some (Ok d') →
  (∃ files', disk_files d' files') ∧ lists_enabled h host os d'.
Proof.
  intros Hd Hs Hf Hrepos Href. pose proof (files_expressible d files f Hd Hf) as Hex. rewrite Hrepos in Hex.
  assert (expressible f.(f_type) r) as Hr by (by apply Forall_app in Hex as [_ [? _]%Forall_cons]).
  unfold enable_reference. pose proof (canonicalize_keeps signed r host suite) as Hk.
  assert (expressible f.(f_type) (canonicalize_components_to_standard signed r host suite).1 ∧
    enabled (canonicalize_components_to_standard signed r host suite).1 = enabled r) as [Hc Hen].
  { unfold canonicalize_components_to_standard. destruct (find_entry_for_repository signed r host suite) as [e|] eqn:Ef; [|done].
    split; [|done]. apply with_components_expressible; [|done]. by apply find_first_Some in Ef as [? _]. }
  destruct (canonicalize_components_to_standard signed r host suite) as [r' changed]. cbn [fst] in *.
  destruct Hk as (_ & Hk & _). rewrite <- Hk in Href. destruct (enabled r') eqn:He; [destruct changed|].
  - intros Hw. eapply (write_replaced h host os suite d d' files f before r r' behind); done.
  - intros [= <-]. split; [by exists files|]. eapply (lists_enabled_intro h host os suite d files f r); try done; [|by rewrite <- Hk].
    rewrite Hrepos, elem_of_app, elem_of_cons. auto.
  - intros Hw. eapply (write_replaced h host os suite d d' files f before r (set_enabled true r') behind); try done.
    by apply set_enabled_expressible.
Qed.

Lemma standard_repository_entry h host suite repo p :
  get_standard_repository h host suite = Some (repo, p) →
  ∃ e, e ∈ STANDARD_REPOS ∧ e.(offered_on_host) = host ∧ entry_handle e = h ∧ applies_to_suite e suite = true ∧
    repo = entry_repository e suite ∧ p = (if deb822_suite suite then e.(file_path_deb822) else e.(file_path_legacy)).
Proof.
  unfold get_standard_repository, to_repository, handle_file_path. destruct (lookup_entry h host) as [e|] eqn:El; [|done].
  apply lookup_entry_iff in El as (He & Ho & Hh). destruct (applies_to_suite e suite) eqn:Ha; [|done]. intros [= <- <-]. by exists e.
Qed.

(** The repository that is appended is expressible in the file it goes to. *)
Lemma standard_repository_file h host suite repo p :
  get_standard_repository h host suite = Some (repo, p) → suite ∈ known_codenames →
  ∃ ft, file_new p = Ok (Some ft) ∧ expressible ft repo ∧ repo.(enabled) = true ∧
    is_referenced_by signed h repo host suite = true.
Proof.
  intros (e & He & Ho & Hh & Ha & -> & ->)%standard_repository_entry Hs.
  destruct (entry_words_ok e suite He Hs) as (_ & _ & _ & _ & F1 & F2).
  exists (if deb822_suite suite then Sources else List_). split; [by destruct (deb822_suite suite)|].
  split; [by apply entry_expressible|]. split; [done|]. unfold is_referenced_by.
  rewrite (proj2 (lookup_entry_iff h host e)) by done. by apply entry_matches_self.
Qed.

Lemma append_total repo p files errors d :
  disk_files d files → (∃ ft, file_new p = Ok (Some ft) ∧ expressible ft repo) →
  append_repository sha256 repo p files errors d ≠ None.
Proof.
  intros Hd (ft & Hn & He). unfold append_repository. destruct (error_at p errors); [done|].
  destruct (find_first (λ f, bool_decide (path f = p)) files) as [f|] eqn:Ef.
  - apply find_first_Some in Ef as [Hf Hp%bool_decide_eq_true_1]. subst p. apply write_file_total.
    cbn [with_repositories f_type repositories_of]. apply Forall_app_2; [by eapply files_expressible|].
    rewrite (files_new d files f Hd Hf) in Hn. injection Hn as ->. by apply Forall_singleton.
  - rewrite Hn. apply write_file_total. by apply Forall_singleton.
Qed.

Lemma append_lists h host os suite repo p files errors d d' :
  disk_files d files → get_current_release_codename os = Ok suite →
  (∃ ft, file_new p = Ok (Some ft) ∧ expressible ft repo ∧ repo.(enabled) = true ∧ is_referenced_by signed h repo host suite = true) →
  append_repository sha256 repo p files errors d = Some (Ok d') →
  (∃ files', disk_files d' files') ∧ lists_enabled h host os d'.
Proof.
  intros Hd Hs (ft & Hn & He & Hen & Href). unfold append_repository. destruct (error_at p errors); [done|].
  assert (∀ f, file_new f.(path) = Ok (Some f.(f_type)) → Forall (expressible f.(f_type)) f.(repositories_of) →
    repo ∈ f.(repositories_of) → write_file sha256 f d = Some (Ok d') → (∃ files', disk_files d' files') ∧ lists_enabled h host os d') as H.
  { intros f Hnf Hef Hin Hw. destruct (write_file_files f d d' files) as (files' & dg & Hd' & Hg); try done.
    { intros E. rewrite E in Hin. by apply elem_of_nil in Hin. }
    split; [by exists files'|]. apply (lists_enabled_intro h host os suite d' files'
      (mkFile f.(path) f.(f_type) f.(repositories_of) (Some dg)) repo); try done. apply Hg. by left. }
  destruct (find_first (λ f, bool_decide (path f = p)) files) as [f|] eqn:Ef.
  - apply find_first_Some in Ef as [Hf Hp%bool_decide_eq_true_1]. subst p.
    rewrite (files_new d files f Hd Hf) in Hn. injection Hn as <-. apply H.
    + exact (files_new d files f Hd Hf).
    + cbn [with_repositories f_type repositories_of]. apply Forall_app_2; [by eapply files_expressible|]. by apply Forall_singleton.
    + cbn [with_repositories repositories_of]. rewrite elem_of_app, list_elem_of_singleton. auto.
  - rewrite Hn. apply H; cbn [path f_type repositories_of]; [done|by apply Forall_singleton|by left].
Qed.

(** [C23] Adding a standard repository does not panic, and when it succeeds the files can
    still be read, and listing them shows the repository as configured and enabled. *)
Theorem added_repository_listed host h user_digest os_release d files :
  disk_files d files →
  add_repository_handle sha256 signed host h user_digest os_release d ≠ None ∧
  ∀ d', add_repository_handle sha256 signed host h user_digest os_release d = Some (Ok d') →
    (∃ files', disk_files d' files') ∧ lists_enabled h host os_release d'.
Proof.
  intros Hd. destruct (disk_files_repositories d files Hd) as (errors & c & E). unfold add_repository_handle. rewrite E.
  destruct (detect_modification c user_digest); [|done]. destruct (get_current_release_codename os_release) as [suite|] eqn:Hs; [|done].
  destruct (find_reference _ files) as [[[[f before] r] behind]|] eqn:Er.
  - apply find_reference_Some in Er as (Hf & Hrepos & Href). split; [by eapply enable_reference_total|].
    intros d'. by eapply enable_reference_lists.
  - destruct (get_standard_repository h host suite) as [[repo p]|] eqn:Eg; [|done].
    pose proof (standard_repository_file h host suite repo p Eg (current_codename_known _ _ Hs)) as Hstd.
    split; [|intros d'; by apply append_lists with suite]. apply append_total; [done|]. destruct Hstd as (ft & ? & ? & _). eauto.
Qed.

(** ** Changing a repository *)

(** Changing a repository does not panic, and when it succeeds the repository at this
    place has been enabled or disabled and nothing else has changed. *)
Theorem changed_repository_read p index b user_digest d files :
  disk_files d files →
  change_repository sha256 p index (Some b) user_digest d ≠ None ∧
  ∀ d', change_repository sha256 p index (Some b) user_digest d = Some (Ok d') →
    ∃ f r files' dg, f ∈ files ∧ f.(path) = p ∧ f.(repositories_of) !! index = Some r ∧ disk_files d' files' ∧
      ∀ g, g ∈ files' ↔ g = mkFile p f.(f_type) (<[index := set_enabled b r]> f.(repositories_of)) (Some dg) ∨ (g.(path) ≠ p ∧ g ∈ files).
Proof.
  intros Hd. destruct (disk_files_repositories d files Hd) as (errors & c & E). unfold change_repository. rewrite E.
  destruct (detect_modification c user_digest); [|done]. destruct (error_at p errors); [done|].
  destruct (find_first (λ f, bool_decide (path f = p)) files) as [f|] eqn:Ef; [|done].
  apply find_first_Some in Ef as [Hf Hp%bool_decide_eq_true_1]. subst p.
  destruct (f.(repositories_of) !! index) as [r|] eqn:Er; [|done].
  assert (Forall (expressible f.(f_type)) (<[index := set_enabled b r]> f.(repositories_of))) as He.
  { pose proof (files_expressible d files f Hd Hf) as He. apply Forall_insert; [done|]. apply set_enabled_expressible.
    by eapply Forall_lookup_1. }
  split; [by apply write_file_total|]. intros d' Hw.
  destruct (write_file_files (with_repositories f (<[index:=set_enabled b r]> (repositories_of f))) d d' files) as (files' & dg & Hd' & Hg);
    try done.
  - exact (files_new d files f Hd Hf).
  - cbn [with_repositories repositories_of]. intros E'. apply (f_equal length) in E'. rewrite length_insert in E'.
    apply lookup_lt_Some in Er. simpl in E'. lia.
  - exists f, r, files', dg. by split_and!.
Qed.

End Calls.

(** ** An example *)
Definition example_repo : APTRepository :=
  mkRepo [Deb] [lit "http://ftp.debian.org/debian"] [lit "trixie"] [lit "main"] [] [] List_ true.
Definition example_text : rstr := lit "deb http://ftp.debian.org/debian trixie main" ++ [nl].
Definition example_disk : Disk := mkDisk (Some example_text) [].
Definition example_release : rstr := lit "VERSION_CODENAME=trixie" ++ [nl].
Definition example_file : APTRepositoryFile := mkFile APT_SOURCES_LIST_FILENAME List_ [example_repo] (Some (as_bytes example_text)).

Lemma example_disk_files : disk_files id example_disk [example_file].
Proof.
  split; [apply NoDup_singleton|]. split; [apply not_elem_of_nil|]. split.
  - apply Forall_singleton, Forall_singleton. split; [done| | | |].
    + exists Deb, (lit "http://ftp.debian.org/debian"), (lit "trixie").
      split_and!; try done; apply (bool_decide_unpack _); vm_compute; done.
    + apply (bool_decide_unpack _); vm_compute; done.
    + constructor.
    + by exists [].
  - exists []. vm_compute. reflexivity.
Qed.

Lemma added_repository_listed_witness :
  ∃ d', add_repository_handle id (λ _ _ _, false) HPve (mkHandle None NoSubscription) None example_release example_disk = Some (Ok d') ∧
    lists_enabled id (λ _ _ _, false) (λ _, None) (mkHandle None NoSubscription) HPve example_release d'.
Proof.
  eexists. split; [vm_compute; reflexivity|].
  apply (added_repository_listed id (λ _ _ _, false) (λ _, None) HPve (mkHandle None NoSubscription) None example_release
    example_disk [example_file] example_disk_files). vm_compute. reflexivity.
Defined.
