(* ===== verification/Rest.v ===== *)
(** * Rest: from a request to the call of an API method

    Models the router of [proxmox-router/src/router.rs] and the handling of requests of
    [proxmox-rest-server]: paths, handlers and static files ([lib.rs], [api_config.rs]),
    authorization, parameters and dispatch ([rest.rs]), the status of error answers
    ([formatter.rs]), compression ([compression.rs]) and the address of a client behind a
    proxy ([rest.rs]). What a handler does, the connection to the privileged server, logs
    and rate limits are not modelled: the outcome is that a method is called with
    parameters and a user, that the request is passed on, or an answer.

    The order of a hash map is a parameter, as are the percent encoding, the parsers of
    forms and of JSON, the check of credentials and the text of addresses. *)
From S2P Require Import Prelude TextCoding F64 Json Schema ObjectSchema Permission.

(** ** The router *)
Inductive ApiHandler :=
| Sync | StreamSync | SerializingSync | Async | StreamAsync | SerializingAsync | AsyncHttp | AsyncHttpBodyParameters.

Record ApiMethod := mkMethod {
  protected : bool;
  parameters : Schema;
  handler : ApiHandler;
  permission : Permission;
}.

Inductive Router : Type :=
| mkRouter (get put post delete : option ApiMethod) (subroute : option SubRoute)
with SubRoute : Type :=
| Map_ (map : list (rstr * Router))
| MatchAll (router : Router) (param_name : rstr).

Definition subroute (r : Router) : option SubRoute := let '(mkRouter _ _ _ _ s) := r in s.

Inductive Method := GET | PUT | POST | DELETE | OtherMethod.

#[export] Instance Method_eq_dec : EqDecision Method.
Proof. solve_decision. Defined.

(** [slice::binary_search_by_key]: the loop halves the range until one entry is left. *)
Fixpoint search_loop {A} (fuel : nat) (key : rstr) (l : list (rstr * A)) (base size : nat) : nat :=
  match fuel with
  | O => base
  | S fuel =>
      if (1 <? size)%nat then
        let half := Nat.div2 size in
        let mid := base + half in
        let base := match l !! mid with
                    | Some (name, _) => match str_compare name key with Gt => base | _ => mid end
                    | None => base
                    end in
        search_loop fuel key l base (size - half)
      else base
  end.

Definition binary_search {A} (key : rstr) (l : list (rstr * A)) : option A :=
  match l !! search_loop (length l) key l 0 (length l) with
  | Some (name, x) => match str_compare name key with Eq => Some x | _ => None end
  | None => None
  end.

Section Routing.
Context `{PercentCoding}.

(** [percent_decode_str(dir).decode_utf8()] *)
Definition decode_component (dir : rstr) : option rstr := from_utf8 (percent_decode (as_bytes dir)).

Fixpoint find_route (components : list rstr) (r : Router) (uri_param : gmap rstr rstr)
    : option (Router * gmap rstr rstr) :=
  match components with
  | [] => Some (r, uri_param)
  | dir :: remaining =>
      match decode_component dir with
      | None => None
      | Some dir =>
          match subroute r with
          | None => None
          | Some (Map_ dirmap) =>
              match binary_search dir dirmap with
              | Some router => find_route remaining router uri_param
              | None => None
              end
          | Some (MatchAll router param_name) => find_route remaining router (<[param_name := dir]> uri_param)
          end
      end
  end.

Definition method_of (m : Method) (r : Router) : option ApiMethod :=
  let '(mkRouter get put post delete _) := r in
  match m with GET => get | PUT => put | POST => post | DELETE => delete | OtherMethod => None end.

Definition find_method (components : list rstr) (m : Method) (r : Router) : option (ApiMethod * gmap rstr rstr) :=
  match find_route components r ∅ with
  | Some (info, uri_param) => (λ api, (api, uri_param)) <$> method_of m info
  | None => None
  end.

End Routing.

(** ** Requests *)
Inductive RestError := HttpError (code : N) | Parameters (e : list (rstr * SError)) | Schema_ (e : SError) | Other.

Inductive AuthError := Generic | NoData.

Inductive Frame := Data (bytes : list N) | Trailers | Broken.

Record Request (H : Type) := mkRequest {
  method : Method;
  uri_path : rstr;
  uri_query : option rstr;
  headers : H;
  body : list Frame;
}.
Arguments mkRequest {H}.
Arguments method {H}.
Arguments uri_path {H}.
Arguments uri_query {H}.
Arguments headers {H}.
Arguments body {H}.

Inductive RpcEnvironmentType := CLI | PUBLIC | PRIVILEGED.

#[export] Instance RpcEnvironmentType_eq_dec : EqDecision RpcEnvironmentType.
Proof. solve_decision. Defined.

Inductive Formatter := JSON_FORMATTER | EXTJS_FORMATTER | DIRECT_JSON_FORMATTER.

Definition error_code (e : RestError) : N := match e with HttpError code => code | _ => 400%N end.

(** [format_error]: the status of the answer, and the one that its text states. *)
Definition format_error (f : Formatter) (e : RestError) : N * N :=
  match f with
  | EXTJS_FORMATTER => (200%N, error_code e)
  | _ => (error_code e, error_code e)
  end.

(** [normalize_path] *)
Fixpoint normalize_items (items : list rstr) (output : rstr) : option rstr :=
  match items with
  | [] => Some output
  | item :: items =>
      match item with
      | [] => normalize_items items output
      | c :: _ => if decide (c = 46%N) then None else normalize_items items (output ++ 47%N :: item)
      end
  end.

Definition normalize_path (path : rstr) : option rstr := normalize_items (split_on 47%N path) [].

Definition path_components (path : rstr) : list rstr := filter (λ s, s ≠ []) (split_on 47%N path).

Definition MAX_URI_QUERY_LENGTH : N := 3072.
Definition MAX_REQUEST_BODY_SIZE : N := 524288.

(** The body of a request. *)
Fixpoint read_body (frames : list Frame) (acc : list N) : result (list N) RestError :=
  match frames with
  | [] => Ok acc
  | Data frame :: frames =>
      if (N.of_nat (length acc + length frame) <? MAX_REQUEST_BODY_SIZE)%N then read_body frames (acc ++ frame)
      else Err (HttpError 400)
  | Trailers :: _ => Err Other
  | Broken :: _ => Err (HttpError 400)
  end.

(** [params[key] = value]; [None] is a panic. *)
Definition index_mut (params : Value) (key : rstr) (v : Value) : option Value :=
  match params with
  | VNull => Some (VObject [(key, v)])
  | VObject m => Some (VObject (bt_insert key v m))
  | _ => None
  end.

Section Server.
Context {H : Type} (content_type : H → option (option rstr)).
Context `{P : PercentCoding} `{F : F64Text}.
Context (form_parse : list N → list (rstr * rstr)) (json_from_str : rstr → option Value)
  (uri_list : gmap rstr rstr → list (rstr * rstr)).

Definition parse_query_parameters (s : Schema) (form : rstr) (r : Request H) (uri_param : gmap rstr rstr)
    : result Value RestError :=
  let form_list := if decide (form = []) then [] else form_parse (as_bytes form) in
  let query_list := match r.(uri_query) with
                    | Some q => filter (λ kv, kv.1 ≠ lit "_dc") (form_parse (as_bytes q))
                    | None => []
                    end in
  map_err Parameters (parse_parameter_strings s (form_list ++ query_list ++ uri_list uri_param) true).

(** The parameters of the path are merged into the object of the body. *)
Fixpoint merge_uri (s : Schema) (uri_param : gmap rstr rstr) (l : list (rstr * rstr)) (params : Value)
    : option (result Value RestError) :=
  match l with
  | [] => Some (Ok params)
  | (k, v) :: l =>
      let with_type_field : type_field :=
        λ key, match uri_param !! key with Some x => Some x | None => as_str (value_at params key) end in
      match lookup_schema s k with_type_field with
      | Some (_, prop_schema) =>
          match parse_simple_value prop_schema v with
          | Err e => Some (Err (Schema_ e))
          | Ok x => match index_mut params k x with
                    | None => None
                    | Some params => merge_uri s uri_param l params
                    end
          end
      | None => merge_uri s uri_param l params
      end
  end.

Definition json_parameters (s : Schema) (text : rstr) (uri_param : gmap rstr rstr) : option (result Value RestError) :=
  match (if decide (text = []) then Some (VObject []) else json_from_str text) with
  | None => Some (Err Other)
  | Some params =>
      match merge_uri s uri_param (uri_list uri_param) params with
      | None => None
      | Some (Err e) => Some (Err e)
      | Some (Ok params) =>
          Some (let? params := map_err Schema_ (canonicalize_aliases s params) in
                let? _ := map_err Schema_ (verify_json s params) in
                Ok params)
      end
  end.

(** The media type in front of its parameters; [None] for one that is not supported. *)
Definition is_json (h : H) : option bool :=
  match content_type h with
  | None => Some false
  | Some (Some value) =>
      let media := default [] (head (split_on 59%N value)) in
      if decide (media = lit "application/x-www-form-urlencoded") then Some false
      else if decide (media = lit "application/json") then Some true else None
  | Some None => None
  end.

Definition get_request_parameters (s : Schema) (r : Request H) (uri_param : gmap rstr rstr)
    : option (result Value RestError) :=
  match is_json r.(headers) with
  | None => Some (Err Other)
  | Some json =>
      match read_body r.(body) [] with
      | Err e => Some (Err e)
      | Ok bytes =>
          match from_utf8 bytes with
          | None => Some (Err Other)
          | Some text => if json then json_parameters s text uri_param
                         else Some (parse_query_parameters s text r uri_param)
          end
      end
  end.

(** ** Authorization *)
Inductive RequestError := Unauthorized | NotFound | Forbidden.

Definition EmptyUserInformation : UserInformation :=
  {| info_is_superuser := λ _, false; info_is_group_member := λ _ _, false; info_lookup_privs := λ _ _, 0%N |}.

(** [check_auth] without a handler has no data. *)
Context (auth_handler : option (H → Method → result (rstr * UserInformation) AuthError)).

Definition check_auth (h : H) (m : Method) : result (rstr * UserInformation) AuthError :=
  match auth_handler with Some f => f h m | None => Err NoData end.

(** A method and the parameters of its path with the user, or why not, and the time
    in milliseconds before which a refusal is not answered. *)
Definition authorize_request (router : Router) (components : list rstr) (r : Request H) (request_start : N)
    : result (ApiMethod * gmap rstr rstr * option rstr) (RequestError * N) :=
  let api_method := find_method components r.(method) router in
  let auth_required := match api_method with
                       | Some (api, _) => match api.(permission) with World => false | _ => true end
                       | None => true
                       end in
  let? user := if auth_required then
                 match check_auth r.(headers) r.(method) with
                 | Ok (authid, info) => Ok (Some authid, info)
                 | Err _ => Err (Unauthorized, (request_start + 3000)%N)
                 end
               else Ok (None, EmptyUserInformation) in
  match api_method with
  | None => Err (NotFound, request_start)
  | Some (api, uri_param) =>
      if check_api_permission (info := user.2) uri_param api.(permission) user.1
      then Ok (api, uri_param, user.1) else Err (Forbidden, (request_start + 500)%N)
  end.

Definition request_error_code (e : RequestError) : N :=
  match e with Unauthorized => 401 | NotFound => 404 | Forbidden => 403 end%N.

(** ** Dispatch *)
Inductive Outcome :=
| Called (m : ApiMethod) (params : Value) (auth_id : option rstr)
| Proxied (m : ApiMethod) (auth_id : option rstr)
| Answer (status stated : N) (not_before : N)
| Index (auth_id : option rstr) (not_before : N)
| StaticFile (path : rstr)
| Panic.

(** An error that stands for a panic of [parse_simple_value]. *)
Definition is_panic (e : SError) : bool := match e with Msg NotFinitePanic => true | _ => false end.
Definition panics (e : RestError) : bool :=
  match e with
  | Parameters l => existsb (λ ke, is_panic ke.2) l
  | Schema_ e => is_panic e
  | _ => false
  end.

Definition handle_api_request (m : ApiMethod) (f : Formatter) (r : Request H) (uri_param : gmap rstr rstr)
    (auth_id : option rstr) (request_start : N) : Outcome :=
  let params := match m.(handler) with
                | AsyncHttp => Some (parse_query_parameters m.(parameters) [] r uri_param)
                | _ => get_request_parameters m.(parameters) r uri_param
                end in
  match params with
  | None => Panic
  | Some (Ok params) => Called m params auth_id
  | Some (Err e) =>
      if panics e then Panic
      else let '(status, stated) := format_error f e in Answer status stated request_start
  end.

Definition dispatch (env : RpcEnvironmentType) (m : ApiMethod) (f : Formatter) (r : Request H)
    (uri_param : gmap rstr rstr) (auth_id : option rstr) (request_start : N) : Outcome :=
  if m.(protected) && bool_decide (env = PUBLIC) then Proxied m auth_id
  else handle_api_request m f r uri_param auth_id request_start.

(** [Formatted::handle_request] *)
Definition handle_formatted (env : RpcEnvironmentType) (router : Router) (components : list rstr) (r : Request H)
    (request_start : N) : Outcome :=
  match components with
  | [] => Answer 404 404 request_start
  | format :: components =>
      let formatter := if decide (format = lit "json") then Some JSON_FORMATTER
                       else if decide (format = lit "extjs") then Some EXTJS_FORMATTER else None in
      match formatter with
      | None => Answer 400 400 request_start
      | Some f =>
          match authorize_request router components r request_start with
          | Ok (m, uri_param, auth_id) => dispatch env m f r uri_param auth_id request_start
          | Err (Unauthorized, t) => Answer 401 401 t
          | Err (e, t) => let '(status, stated) := format_error f (HttpError (request_error_code e)) in Answer status stated t
          end
      end
  end.

(** [Unformatted::handle_request] *)
Definition handle_unformatted (env : RpcEnvironmentType) (router : Router) (components : list rstr) (r : Request H)
    (request_start : N) : Outcome :=
  match components with
  | [] => Answer 404 404 request_start
  | _ =>
      match authorize_request router components r request_start with
      | Ok (m, uri_param, auth_id) => dispatch env m DIRECT_JSON_FORMATTER r uri_param auth_id request_start
      | Err (e, t) => Answer (request_error_code e) (request_error_code e) t
      end
  end.

Record Handler := mkHandler { prefix : list rstr; formatted : bool; handler_router : Router }.

(** [Action::handle_request] *)
Definition handle_action (env : RpcEnvironmentType) (h : Handler) (components : list rstr) (r : Request H)
    (request_start : N) : Outcome :=
  if h.(formatted) then handle_formatted env h.(handler_router) components r request_start
  else handle_unformatted env h.(handler_router) components r request_start.

(** [slice::strip_prefix] *)
Fixpoint strip_components (p l : list rstr) : option (list rstr) :=
  match p, l with
  | [], _ => Some l
  | a :: p, b :: l => if decide (a = b) then strip_components p l else None
  | _, _ => None
  end.

Fixpoint find_handler (handlers : list Handler) (components : list rstr) : option (Handler * list rstr) :=
  match handlers with
  | [] => None
  | h :: handlers =>
      match strip_components h.(prefix) components with
      | Some rest => Some (h, rest)
      | None => find_handler handlers components
      end
  end.

Record ApiConfig := mkConfig {
  basedir : rstr;
  aliases : gmap rstr rstr;
  env_type : RpcEnvironmentType;
  handlers : list Handler;
}.

(** [PathBuf::push] *)
Definition path_push (base p : rstr) : rstr :=
  if decide (head p = Some 47%N) then p
  else if decide (base = [] ∨ last base = Some 47%N) then base ++ p else base ++ 47%N :: p.

Definition find_alias (config : ApiConfig) (components : list rstr) : rstr :=
  match components with
  | [] => config.(basedir)
  | c :: rest =>
      match config.(aliases) !! c with
      | Some subdir => foldl path_push (path_push config.(basedir) subdir) rest
      | None => foldl path_push config.(basedir) components
      end
  end.

(** [ApiConfig::handle_request]; errors are answered by [ApiService::call]. *)
Definition handle_request (config : ApiConfig) (r : Request H) (request_start : N) : Outcome :=
  match normalize_path r.(uri_path) with
  | None => Answer 400 400 request_start
  | Some path =>
      let components := path_components path in
      if (MAX_URI_QUERY_LENGTH <? utf8_len path + utf8_len (default [] r.(uri_query)))%N then Answer 414 414 request_start
      else
        match find_handler config.(handlers) components with
        | Some (h, rest) => handle_action config.(env_type) h rest r request_start
        | None =>
            if decide (r.(method) = GET) then
              match components with
              | [] =>
                  match check_auth r.(headers) r.(method) with
                  | Ok (authid, _) => Index (Some authid) request_start
                  | Err Generic => Index None (request_start + 3000)
                  | Err NoData => Index None request_start
                  end
              | _ => StaticFile (find_alias config components)
              end
            else Answer 400 400 request_start
        end
  end.

End Server.

(** ** Clients behind a proxy *)

(** [split_unquoted]: the loop with the part that has been read, and whether it is
    inside of quotes or behind a backslash. *)
Fixpoint split_unquoted_loop (s : rstr) (delimiter : rchar) (part : rstr) (quoted escaped : bool) : option (list rstr) :=
  match s with
  | [] => if quoted || escaped then None else Some [part]
  | c :: s =>
      if escaped then split_unquoted_loop s delimiter (part ++ [c]) quoted false
      else if quoted && bool_decide (c = 92%N) then split_unquoted_loop s delimiter (part ++ [c]) quoted true
      else if decide (c = 34%N) then split_unquoted_loop s delimiter (part ++ [c]) (negb quoted) false
      else if bool_decide (c = delimiter) && negb quoted then cons part <$> split_unquoted_loop s delimiter [] quoted false
      else split_unquoted_loop s delimiter (part ++ [c]) quoted false
  end.
Definition split_unquoted (value : rstr) (delimiter : rchar) : option (list rstr) :=
  split_unquoted_loop value delimiter [] false false.

(** The loop of [unquote] that resolves escapes. *)
Fixpoint resolve_escapes (s : rstr) (escaped : bool) : rstr :=
  match s with
  | [] => []
  | c :: s => if escaped || negb (bool_decide (c = 92%N)) then c :: resolve_escapes s false else resolve_escapes s true
  end.

Definition unquote (value : rstr) : rstr :=
  match value with
  | 34%N :: rest =>
      match last rest with
      | Some 34%N => let inner := removelast rest in
                     if decide (92%N ∈ inner) then resolve_escapes inner false else inner
      | _ => value
      end
  | _ => value
  end.

(** The first parameter with the name [for]. *)
Fixpoint for_parameter (parameters : list rstr) : option rstr :=
  match parameters with
  | [] => None
  | parameter :: parameters =>
      match split_once 61%N parameter with
      | Some (name, value) => if decide (to_lower (trim name) = lit "for") then Some (unquote (trim value)) else for_parameter parameters
      | None => for_parameter parameters
      end
  end.

Definition forwarded_for (header : rstr) : option rstr :=
  match split_unquoted header 44%N with
  | None => None
  | Some elements =>
      match last elements with
      | None => None
      | Some element => match split_unquoted element 59%N with
                        | None => None
                        | Some parameters => for_parameter parameters
                        end
      end
  end.

(** The header that [proxy_protected_request] sets for the address of the peer. *)
Definition forwarded_header (peer : rstr) : rstr := lit "for=" ++ [34%N] ++ peer ++ [34%N] ++ lit ";".

(** ** Compression *)
Definition is_positive_qvalue (value : rstr) : bool :=
  let '(integer, fraction) := match split_once 46%N value with Some p => p | None => (value, []) end in
  if (3 <? utf8_len fraction)%N || negb (forallb is_ascii_digit fraction) then false
  else if decide (integer = lit "1") then forallb (λ b, bool_decide (b = 48%N)) fraction
  else if decide (integer = lit "0") then existsb (λ b, negb (bool_decide (b = 48%N))) fraction
  else false.

(** A parameter of a coding that refuses it. *)
Definition refuses (parameter : rstr) : bool :=
  match split_once 61%N parameter with
  | Some (name, value) => bool_decide (to_lower (trim name) = lit "q") && negb (is_positive_qvalue (trim value))
  | None => false
  end.

(** [CompressionMethod::from_str]: whether an entry accepts deflate, the only method. *)
Definition accepts_deflate (s : rstr) : bool :=
  let '(coding, parameters) := match split_once 59%N s with Some (c, p) => (trim c, Some p) | None => (trim s, None) end in
  bool_decide (to_lower coding = lit "deflate") &&
  match parameters with
  | Some p => negb (existsb refuses (split_on 59%N p))
  | None => true
  end.

Definition extract_compression_method (accept_encoding : option rstr) : bool :=
  match accept_encoding with
  | Some encodings => existsb accepts_deflate (split_on 44%N encodings)
  | None => false
  end.

(** [extension_to_content_type], and whether files of this type are not compressed. *)
Definition extension_to_content_type (ext : option rstr) : rstr * bool :=
  match ext with
  | None => (lit "application/octet-stream", false)
  | Some e =>
      if decide (e = lit "css") then (lit "text/css", false)
      else if decide (e = lit "html") then (lit "text/html", false)
      else if decide (e = lit "js") then (lit "application/javascript", false)
      else if decide (e = lit "json") then (lit "application/json", false)
      else if decide (e = lit "map") then (lit "application/json", false)
      else if decide (e = lit "png") then (lit "image/png", true)
      else if decide (e = lit "ico") then (lit "image/x-icon", true)
      else if decide (e = lit "gif") then (lit "image/gif", true)
      else if decide (e = lit "svg") then (lit "image/svg+xml", false)
      else if decide (e = lit "jar") then (lit "application/java-archive", true)
      else if decide (e = lit "woff") then (lit "application/font-woff", true)
      else if decide (e = lit "woff2") then (lit "application/font-woff2", true)
      else if decide (e = lit "ttf") then (lit "application/font-snft", true)
      else if decide (e = lit "pdf") then (lit "application/pdf", true)
      else if decide (e = lit "epub") then (lit "application/epub+zip", true)
      else if decide (e = lit "mp3") then (lit "audio/mpeg", true)
      else if decide (e = lit "oga") then (lit "audio/ogg", true)
      else if decide (e = lit "tgz") then (lit "application/x-compressed-tar", true)
      else if decide (e = lit "wasm") then (lit "application/wasm", true)
      else (lit "application/octet-stream", false)
  end.
