(* ===== verification/RestTheory.v ===== *)
(** * RestTheory: what a request may do

    A handler is called only for the method that the path leads to, with the user that
    the credentials prove and the permission that this user has for the parameters of
    the path, and with parameters that conform to the schema and have the values of the
    path. Files are served below the configured directories only, and the address of
    a client is what the last proxy states. *)
From S2P Require Import Prelude TextCoding F64 Json Schema ObjectSchema ObjectSchemaTheory Permission Rest.

(** ** Binary search *)
Definition names_sorted {A} (l : list (rstr * A)) : Prop :=
  ∀ i j a b, i < j → l !! i = Some a → l !! j = Some b → str_compare a.1 b.1 = Lt.

Lemma search_loop_finds {A} key (l : list (rstr * A)) x i : ∀ fuel base size,
  names_sorted l → l !! i = Some (key, x) → base ≤ i < base + size → base + size ≤ length l → size ≤ S fuel →
  search_loop fuel key l base size = i.
Proof.
  induction fuel as [|fuel IH]; intros base size Hs Hi Hr Hl Hf; cbn [search_loop]; [lia|].
  destruct (Nat.ltb_spec 1 size) as [Hsize|]; [|lia].
  assert (1 ≤ Nat.div2 size) as H1 by (destruct size as [|[|size]]; simpl; lia).
  assert (Nat.div2 size + Nat.div2 size ≤ size) as H2 by (rewrite Nat.div2_div; pose proof (Nat.Div0.mul_div_le size 2); lia).
  destruct (l !! (base + Nat.div2 size)) as [[name y]|] eqn:Em; [|apply lookup_ge_None in Em; lia].
  destruct (str_compare name key) eqn:Ec; apply IH; try done; try lia.
  - apply str_compare_eq in Ec as ->. destruct (Nat.lt_trichotomy i (base + Nat.div2 size)) as [Hlt|[->|]]; try lia.
    pose proof (Hs _ _ _ _ Hlt Hi Em) as Hc. simpl in Hc. rewrite str_compare_refl in Hc. done.
  - destruct (Nat.lt_trichotomy i (base + Nat.div2 size)) as [Hlt|[->|]]; try lia.
    pose proof (Hs _ _ _ _ Hlt Hi Em) as Hc. simpl in Hc. rewrite str_compare_antisym, Hc in Ec. done.
  - destruct (Nat.lt_trichotomy i (base + Nat.div2 size)) as [Hlt|[->|Hgt]]; try lia.
    + rewrite Em in Hi. injection Hi as -> ->. rewrite str_compare_refl in Ec. done.
    + pose proof (Hs _ _ _ _ Hgt Em Hi) as Hc. simpl in Hc. congruence.
Qed.

Lemma binary_search_elem {A} key (l : list (rstr * A)) x : binary_search key l = Some x → (key, x) ∈ l.
Proof.
  unfold binary_search. destruct (l !! _) as [[name y]|] eqn:E; [|done]. destruct (str_compare name key) eqn:Ec; [|done..].
  intros [= <-]. apply str_compare_eq in Ec as ->. by apply list_elem_of_lookup_2 in E.
Qed.

(** In a sorted map the search finds exactly its entries. *)
Lemma binary_search_iff {A} key (l : list (rstr * A)) x :
  names_sorted l → binary_search key l = Some x ↔ (key, x) ∈ l.
Proof.
  intros Hs. split; [apply binary_search_elem|]. intros [i Hi]%list_elem_of_lookup_1. unfold binary_search.
  pose proof (lookup_lt_Some _ _ _ Hi). rewrite (search_loop_finds key l x i) by (try done; lia).
  by rewrite Hi, str_compare_refl.
Qed.

(** ** Routes *)
Section Routes.
Context `{PercentCoding}.

Inductive routes : list rstr → Router → gmap rstr rstr → Router → gmap rstr rstr → Prop :=
| routes_end r u : routes [] r u r u
| routes_map dir name rest r dirmap router u r' u' :
    decode_component dir = Some name → subroute r = Some (Map_ dirmap) → (name, router) ∈ dirmap →
    routes rest router u r' u' → routes (dir :: rest) r u r' u'
| routes_match_all dir value rest r router param_name u r' u' :
    decode_component dir = Some value → subroute r = Some (MatchAll router param_name) →
    routes rest router (<[param_name := value]> u) r' u' → routes (dir :: rest) r u r' u'.

Lemma find_route_sound components : ∀ r u r' u', find_route components r u = Some (r', u') → routes components r u r' u'.
Proof.
  induction components as [|dir rest IH]; intros r u r' u'; cbn [find_route]; [intros [= <- <-]; constructor|].
  destruct (decode_component dir) as [name|] eqn:Ed; [|done].
  destruct (subroute r) as [[dirmap|router param]|] eqn:Es; [| |done].
  - destruct (binary_search name dirmap) as [router|] eqn:Eb; [|done]. intros Hr%IH.
    eapply routes_map; [done|done| |done]. by apply binary_search_elem.
  - intros Hr%IH. by eapply routes_match_all.
Qed.

(** Routers whose maps are sorted, as their documentation asks. *)
Inductive sorted_router : Router → Prop :=
| sorted_leaf r : subroute r = None → sorted_router r
| sorted_map r dirmap :
    subroute r = Some (Map_ dirmap) → names_sorted dirmap → (∀ n r', (n, r') ∈ dirmap → sorted_router r') → sorted_router r
| sorted_all r router param : subroute r = Some (MatchAll router param) → sorted_router router → sorted_router r.

Lemma find_route_iff components r u r' u' :
  sorted_router r → find_route components r u = Some (r', u') ↔ routes components r u r' u'.
Proof.
  intros Hs. split; [apply find_route_sound|]. intros Hr.
  induction Hr as [|dir name rest r dirmap router u r' u' Hd Hsub Hin _ IH|dir value rest r router param u r' u' Hd Hsub _ IH];
    cbn [find_route]; [done|rewrite Hd, Hsub..].
  - inversion Hs as [? E|? dm E Hn Hrec|? ? ? E]; rewrite Hsub in E; try done. injection E as <-.
    rewrite (proj2 (binary_search_iff name dirmap router Hn)) by done. apply IH. by eapply Hrec.
  - inversion Hs as [? E|? dm E Hn Hrec|? ? ? E]; rewrite Hsub in E; try done. injection E as <- <-. by apply IH.
Qed.

End Routes.

(** ** Parameters of the path in a form *)
Definition not_array (p : Schema) : Prop := ∀ items mn mx, p ≠ SArray items mn mx.

Section Values.
Context `{F64Text}.

Lemma param_at_get st k : param_at st k = default VNull (bt_get k st.(params)).
Proof. unfold param_at, value_at. by destruct (bt_get k (params st)). Qed.

Lemma param_at_set st k v k' : k ≠ k' → bt_get k (params (set_param st k' v)) = bt_get k (params st).
Proof. intros Hne. unfold set_param. simpl. by apply bt_get_insert_ne. Qed.

(** A scalar parameter is not changed by later ones. *)
Lemma parse_parameter_keeps s g st raw key value k x o p :
  lookup_schema s k g = Some (o, p) → not_array p → is_null x = false → bt_get k st.(params) = Some x →
  errors (parse_parameter s g st raw key value) = [] → bt_get k (params (parse_parameter s g st raw key value)) = Some x.
Proof.
  intros Hl Hp Hx Hk. unfold parse_parameter. destruct (decide (key = k)) as [->|Hne].
  - rewrite Hl. assert (is_null (param_at st k) = false) as Hn by by rewrite param_at_get, Hk.
    destruct p; try (by destruct (Hp p min_len max_len)); destruct (parse_simple_value _ value); rewrite ?Hn;
      by intros []%push_error_nil.
  - assert (∀ st v, bt_get k st.(params) = Some x → bt_get k (params (set_param st key v)) = Some x) as Hset.
    { intros st' v E. by rewrite param_at_set. }
    assert (∀ st path e, errors (push_error st path e) = [] → False) as Herr by (intros st' path e E; by apply push_error_nil in E).
    destruct (lookup_schema s key g) as [[o' p']|].
    + destruct p' as [| |i|n|t|a ps d al|items mn mx|l|tp to ts vs];
        lazymatch goal with
        | |- context [VArray []] => idtac
        | _ => destruct (parse_simple_value _ value); [destruct (is_null (param_at st key)); [by intros _; apply Hset|by intros []%Herr]|by intros []%Herr]
        end.
      set (st' := if is_null (param_at st key) then set_param st key (VArray []) else st).
      assert (bt_get k st'.(params) = Some x) as Hst' by (unfold st'; destruct (is_null (param_at st key)); [by apply Hset|done]).
      destruct (param_at st' key); try (by intros []%Herr). destruct (parse_simple_value items value); [by intros _; apply Hset|by intros []%Herr].
    + destruct (additional_properties s); [|by intros []%Herr].
      destruct (param_at st key); try (by intros []%Herr); intros _; by apply Hset.
Qed.

Definition canonical_name (s : Schema) (k : rstr) : rstr := default k (lookup_alias s k).

(** A step is the parser of the parameter with its canonical name. *)
Lemma parameter_step_parse s g st k v :
  errors (parameter_step s g st (k, v)) = [] →
  ∃ st', st'.(params) = st.(params) ∧ parameter_step s g st (k, v) = parse_parameter s g st' k (canonical_name s k) v.
Proof.
  unfold parameter_step, canonical_name. destruct (lookup_alias s k) as [c|]; cbn [default];
    (destruct (bt_get _ (first_raw st)); [case_decide; [intros _; by exists st|by intros []%push_error_nil]|intros _; eexists; split; [|reflexivity]; done]).
Qed.

Lemma parameter_fold_errors_nil s g data st : errors (foldl (parameter_step s g) st data) = [] → errors st = [].
Proof.
  revert st. induction data as [|kv data IH]; intros st; cbn [foldl]; [done|]. intros E%IH. by eapply parameter_step_errors.
Qed.

Lemma parameter_fold_keeps s g data k x o p : ∀ st,
  lookup_schema s k g = Some (o, p) → not_array p → is_null x = false → bt_get k st.(params) = Some x →
  errors (foldl (parameter_step s g) st data) = [] → bt_get k (params (foldl (parameter_step s g) st data)) = Some x.
Proof.
  induction data as [|[k' v'] data IH]; intros st Hl Hp Hx Hk He; cbn [foldl] in *; [done|].
  apply IH; [done..| |done]. apply parameter_fold_errors_nil in He.
  destruct (parameter_step_parse s g st k' v' He) as (st' & Est & E). rewrite E in *.
  by eapply parse_parameter_keeps; [done..|rewrite Est|].
Qed.

(** Every scalar parameter of an accepted form has the value of its text. *)
Lemma parameter_fold_value s g data k v o p : ∀ st,
  (k, v) ∈ data → lookup_schema s (canonical_name s k) g = Some (o, p) → not_array p →
  errors (foldl (parameter_step s g) st data) = [] →
  ∃ x, parse_simple_value p v = Ok x ∧ bt_get (canonical_name s k) (params (foldl (parameter_step s g) st data)) = Some x.
Proof.
  induction data as [|[k' v'] data IH]; intros st Hin Hl Hp He; [by apply elem_of_nil in Hin|]. cbn [foldl] in *.
  apply elem_of_cons in Hin as [[= <- <-]|Hin]; [|by apply IH].
  pose proof (parameter_fold_errors_nil _ _ _ _ He) as He'.
  destruct (parameter_step_parse s g st k v He') as (st' & Est & E).
  assert (∃ x, parse_simple_value p v = Ok x ∧ bt_get (canonical_name s k) (params (parameter_step s g st (k, v))) = Some x)
    as (x & Hx & Hg).
  { rewrite E in *. unfold parse_parameter in *. rewrite Hl in *.
    destruct p; try (by destruct (Hp p min_len max_len)); destruct (parse_simple_value _ v) as [x|e];
      try (by apply push_error_nil in He'); destruct (is_null (param_at st' (canonical_name s k)));
      try (by apply push_error_nil in He'); exists x; (split; [done|]); unfold set_param; simpl; apply bt_get_insert_eq. }
  exists x. split; [done|]. eapply parameter_fold_keeps; try done. by eapply parse_simple_not_null.
Qed.

Lemma form_value s data v' k v o p :
  parse_parameter_strings s data true = Ok v' → (k, v) ∈ data → no_one_of s = true →
  lookup_schema s (canonical_name s k) NoTypeData = Some (o, p) → not_array p →
  ∃ x m, parse_simple_value p v = Ok x ∧ v' = VObject m ∧ bt_get (canonical_name s k) m = Some x.
Proof.
  intros Hok Hin Hno Hl Hp. unfold parse_parameter_strings in Hok.
  set (g := λ name, bt_get name (collect data)) in *.
  destruct (extend_unreported _ _) eqn:Ee; [|done]. injection Hok as <-. apply extend_unreported_nil in Ee as [Ee _].
  rewrite (no_one_of_lookup s NoTypeData g) in Hl by done.
  destruct (errors (foldl (parameter_step s g) (mkParams [] [] []) data)) eqn:Er; [|done].
  destruct (parameter_fold_value s g data k v o p (mkParams [] [] [])) as (x & Hx & Hg); try done. by exists x, (params (foldl (parameter_step s g) (mkParams [] [] []) data)).
Qed.

(** ** Parameters of the path in an object *)
Lemma lookup_alias_none s k : lookup_alias s k = None → ∀ c, (k, c) ∉ alias_list s.
Proof.
  induction s as [| | | | |a ps d al _|items mn mx _|l Hl|tp o ts vs _ Hvs] using Schema_ind; simpl; intros Hn c; try apply not_elem_of_nil.
  - apply bt_get_None in Hn. intros Hin. apply Hn. apply list_elem_of_fmap. by exists (k, c).
  - intros (e & He & Hin)%elem_of_flat_map. rewrite first_some_None in Hn. rewrite Forall_forall in Hl. by eapply Hl; [|apply Hn|].
  - intros (e & He & Hin)%elem_of_flat_map. rewrite first_some_None in Hn. rewrite Forall_forall in Hvs. by eapply Hvs; [|apply Hn|].
Qed.

Lemma alias_conflicts_nil m present : ∀ seen, alias_conflicts m seen present = [] →
  ∀ a c, (a, c) ∈ present → contains_key m c = false.
Proof.
  induction present as [|[a0 c0] present IH]; intros seen E a c Hin; [by apply elem_of_nil in Hin|]. cbn [alias_conflicts] in E.
  destruct (contains_key m c0) eqn:Ec; [done|]. case_decide; [done|].
  apply elem_of_cons in Hin as [[= -> ->]|Hin]; [done|]. by eapply IH.
Qed.

Lemma contains_key_get {V} (m : list (rstr * V)) k x : bt_get k m = Some x → contains_key m k = true.
Proof. intros E. unfold contains_key. by rewrite E. Qed.

Lemma rename_keys_keep k x present : ∀ m,
  bt_get k m = Some x → (∀ a c, (a, c) ∈ present → a ≠ k ∧ c ≠ k) → bt_get k (foldl rename_key m present) = Some x.
Proof.
  induction present as [|[a c] present IH]; intros m Hk Hp; cbn [foldl]; [done|]. apply IH.
  - destruct (Hp a c) as [Ha Hc]; [by left|]. unfold rename_key. cbn [fst snd]. destruct (bt_get a m); [|done].
    rewrite bt_get_insert_ne by done. by rewrite bt_get_remove_ne.
  - intros a' c' Hin. apply Hp. by right.
Qed.

Lemma each_schema_keeps {A} (f : A → Value → result Value SError) k x l :
  (∀ a m v', a ∈ l → bt_get k m = Some x → f a (VObject m) = Ok v' → ∃ m', v' = VObject m' ∧ bt_get k m' = Some x) →
  ∀ m v', bt_get k m = Some x → each_schema f l (VObject m) = Ok v' → ∃ m', v' = VObject m' ∧ bt_get k m' = Some x.
Proof.
  induction l as [|a l IH]; intros Hf m v' Hk; cbn [each_schema]; [intros [= <-]; eauto|].
  intros (v1 & Hv1 & Hr)%rbind_ok. destruct (Hf a m v1 ltac:(by left) Hk Hv1) as (m1 & -> & Hk1).
  eapply IH; [|exact Hk1|exact Hr]. intros a' m' v'' Hin. apply Hf. by right.
Qed.

(** Renaming of aliases does not touch a canonical name. *)
Lemma canonicalize_keeps_key s k x :
  (∀ c, (k, c) ∉ alias_list s) → ∀ m v', bt_get k m = Some x → canonicalize_aliases s (VObject m) = Ok v' →
  ∃ m', v' = VObject m' ∧ bt_get k m' = Some x.
Proof.
  induction s as [| | | | |a ps d al _|items mn mx _|l Hl|tp o ts vs _ Hvs] using Schema_ind; intros Ha m v' Hk;
    cbn [canonicalize_aliases]; try (intros [= <-]; by eauto).
  - destruct (filter _ al) as [|ac present] eqn:Ef; [intros [= <-]; by eauto|].
    intros (m' & Hm & [= <-])%rbind_ok. unfold rename_aliases_to_canonicals in Hm.
    destruct (alias_conflicts m [] (ac :: present)) eqn:Ec; [|done]. injection Hm as <-.
    eexists. split; [done|]. apply (rename_keys_keep k x (ac :: present)); [done|]. intros a' c Hin. split.
    + intros ->. apply (Ha c). cbn [alias_list]. rewrite <- Ef in Hin. by apply list_elem_of_filter in Hin as [_ ?].
    + intros ->. pose proof (alias_conflicts_nil _ _ _ Ec _ _ Hin) as Hc. by rewrite (contains_key_get m k x Hk) in Hc.
  - apply each_schema_keeps; [|done]. intros e m' v'' Hin. rewrite Forall_forall in Hl. apply Hl; [done|].
    intros c Hc. apply (Ha c). cbn [alias_list]. apply elem_of_flat_map. eauto.
  - apply each_schema_keeps; [|done]. intros e m' v'' Hin. rewrite Forall_forall in Hvs. apply Hvs; [done|].
    intros c Hc. apply (Ha c). cbn [alias_list]. apply elem_of_flat_map. eauto.
Qed.

Lemma merge_uri_keeps s u l k x : ∀ m v', k ∉ l.*1 → bt_get k m = Some x →
  merge_uri s u l (VObject m) = Some (Ok v') → ∃ m', v' = VObject m' ∧ bt_get k m' = Some x.
Proof.
  induction l as [|[k' v] l IH]; intros m v' Hn Hk; cbn [merge_uri]; [intros [= <-]; eauto|].
  rewrite fmap_cons, not_elem_of_cons in Hn. destruct Hn as [Hne Hn]. simpl in Hne.
  destruct (lookup_schema s k' _) as [[o p]|]; [|by apply IH]. destruct (parse_simple_value p v) as [y|]; [|done].
  cbn [index_mut]. apply IH; [done|]. by rewrite bt_get_insert_ne.
Qed.

Lemma merge_uri_value s u l k v o p : ∀ params v',
  (k, v) ∈ l → NoDup l.*1 → no_one_of s = true → lookup_schema s k NoTypeData = Some (o, p) →
  merge_uri s u l params = Some (Ok v') → ∃ x m, parse_simple_value p v = Ok x ∧ v' = VObject m ∧ bt_get k m = Some x.
Proof.
  induction l as [|[k' w] l IH]; intros params v' Hin Hnd Hno Hl; [by apply elem_of_nil in Hin|]. cbn [merge_uri].
  rewrite fmap_cons in Hnd. apply NoDup_cons in Hnd as [Hk' Hnd]. simpl in Hk'.
  apply elem_of_cons in Hin as [[= <- <-]|Hin].
  - rewrite (no_one_of_lookup s _ NoTypeData), Hl by done. destruct (parse_simple_value p v) as [x|]; [|done].
    destruct (index_mut params k x) as [params'|] eqn:Ei; [|done]. intros Hm.
    assert (∃ m, params' = VObject m ∧ bt_get k m = Some x) as (m & -> & Hg).
    { destruct params; try done; injection Ei as <-; eexists; (split; [done|]).
      - simpl. by rewrite decide_True.
      - apply bt_get_insert_eq. }
    destruct (merge_uri_keeps s u l k x m v' Hk' Hg Hm) as (m' & -> & Hg'). eauto.
  - destruct (lookup_schema s k' _) as [[o' p']|]; [|by apply IH]. destruct (parse_simple_value p' w); [|done].
    destruct (index_mut params k' a); [|done]. by apply IH.
Qed.

End Values.

(** ** Requests *)
Section Requests.
Context {Hd : Type} (content_type : Hd → option (option rstr)).
Context `{P : PercentCoding} `{F : F64Text}.
Context (form_parse : list N → list (rstr * rstr)) (json_from_str : rstr → option Value)
  (uri_list : gmap rstr rstr → list (rstr * rstr)).
Context (auth_handler : option (Hd → Method → result (rstr * UserInformation) AuthError)).

(** Schemas for which a form that is accepted conforms. *)
Definition form_schema (s : Schema) : Prop :=
  combined s ∧ no_one_of s = true ∧ canonical_aliases s = true ∧ unbounded_arrays s = true.

(** A scalar property with the name of a path parameter that is no alias. *)
Definition path_property (s : Schema) (k : rstr) (p : Schema) : Prop :=
  no_one_of s = true ∧ lookup_alias s k = None ∧ not_array p ∧ ∃ o, lookup_schema s k NoTypeData = Some (o, p).

Definition has_path_value (params : Value) (k v : rstr) (p : Schema) : Prop :=
  ∃ x m, parse_simple_value p v = Ok x ∧ params = VObject m ∧ bt_get k m = Some x.

(** The parameters of a call. *)
Definition call_parameters (m : ApiMethod) (r : Request Hd) (uri : gmap rstr rstr) : option (result Value RestError) :=
  match m.(handler) with
  | AsyncHttp => Some (parse_query_parameters form_parse uri_list m.(parameters) [] r uri)
  | _ => get_request_parameters content_type form_parse json_from_str uri_list m.(parameters) r uri
  end.

Lemma query_parameters_conform s form r uri params :
  form_schema s → parse_query_parameters (H:=Hd) form_parse uri_list s form r uri = Ok params → conforms s params.
Proof.
  intros (Hs & Hno & Hc & Hu) E. unfold parse_query_parameters in E. apply map_err_ok in E.
  by eapply parse_parameter_strings_accepted in E as [E _].
Qed.

Lemma json_parameters_conform s text uri params :
  json_parameters json_from_str uri_list s text uri = Some (Ok params) → conforms s params.
Proof.
  unfold json_parameters. destruct (if decide _ then _ else _) as [v|]; [|done].
  destruct (merge_uri s uri (uri_list uri) v) as [[v'|]|]; [|done..]. intros [= E].
  apply rbind_ok in E as (v1 & _ & E). apply rbind_ok in E as ([] & Hv & [= <-]). apply map_err_ok in Hv.
  by apply verify_json_decides.
Qed.

Lemma request_parameters_conform s r uri params :
  form_schema s → get_request_parameters content_type form_parse json_from_str uri_list s r uri = Some (Ok params) →
  conforms s params.
Proof.
  intros Hs. unfold get_request_parameters. destruct (is_json _ _) as [json|]; [|done].
  destruct (read_body _ _) as [bytes|]; [|done]. destruct (from_utf8 bytes) as [text|]; [|done].
  destruct json; [apply json_parameters_conform|]. intros [= E]. by eapply query_parameters_conform.
Qed.

Lemma call_parameters_conform m r uri params :
  form_schema m.(parameters) → call_parameters m r uri = Some (Ok params) → conforms m.(parameters) params.
Proof.
  intros Hs. unfold call_parameters.
  destruct (handler m); try (by apply request_parameters_conform). intros [= E]. by eapply query_parameters_conform.
Qed.

Section PathValues.
Context (uri_list_entries : ∀ u, uri_list u ≡ₚ map_to_list u).

Lemma uri_list_elem u k v : u !! k = Some v → (k, v) ∈ uri_list u.
Proof. intros E. rewrite uri_list_entries. by apply elem_of_map_to_list. Qed.

Lemma uri_list_NoDup u : NoDup (uri_list u).*1.
Proof. rewrite uri_list_entries. apply NoDup_fst_map_to_list. Qed.

Lemma query_parameters_value s form r uri params k v p :
  path_property s k p → uri !! k = Some v →
  parse_query_parameters (H:=Hd) form_parse uri_list s form r uri = Ok params → has_path_value params k v p.
Proof.
  intros (Hno & Ha & Hp & o & Hl) Hk E. unfold parse_query_parameters in E. apply map_err_ok in E.
  assert (canonical_name s k = k) as Hc by (unfold canonical_name; by rewrite Ha).
  unfold has_path_value. rewrite <- Hc. eapply form_value; [exact E| |done|by rewrite Hc|done].
  rewrite !elem_of_app. right. right. by apply uri_list_elem.
Qed.

Lemma json_parameters_value s text uri params k v p :
  path_property s k p → uri !! k = Some v →
  json_parameters json_from_str uri_list s text uri = Some (Ok params) → has_path_value params k v p.
Proof.
  intros (Hno & Ha & Hp & o & Hl) Hk. unfold json_parameters. destruct (if decide _ then _ else _) as [v0|]; [|done].
  destruct (merge_uri s uri (uri_list uri) v0) as [[v'|]|] eqn:Em; [|done..]. intros [= E].
  eapply merge_uri_value in Em as (x & m & Hx & -> & Hg); [|by apply uri_list_elem|apply uri_list_NoDup|done|done].
  apply rbind_ok in E as (v1 & Hc & E). apply rbind_ok in E as (_ & _ & [= <-]). apply map_err_ok in Hc.
  destruct (canonicalize_keeps_key s k x (lookup_alias_none s k Ha) m v1 Hg Hc) as (m' & -> & Hg').
  by exists x, m'.
Qed.

(** The value of the path is not changed by a body or a query. *)
Lemma call_parameters_value m r uri params k v p :
  path_property m.(parameters) k p → uri !! k = Some v → call_parameters m r uri = Some (Ok params) →
  has_path_value params k v p.
Proof.
  intros Hp Hk. unfold call_parameters.
  assert (get_request_parameters content_type form_parse json_from_str uri_list m.(parameters) r uri = Some (Ok params) →
    has_path_value params k v p) as Hg.
  { unfold get_request_parameters. destruct (is_json _ _) as [json|]; [|done].
    destruct (read_body _ _) as [bytes|]; [|done]. destruct (from_utf8 bytes) as [text|]; [|done].
    destruct json; [by apply json_parameters_value|]. intros [= E]. by eapply query_parameters_value. }
  destruct (handler m); try done. intros [= E]. by eapply query_parameters_value.
Qed.
End PathValues.

(** ** Authorization *)

(** Without authentication only methods for everybody are called; otherwise the user is
    the one of the credentials and the permission is granted for the path. *)
Definition authorized (r : Request Hd) (uri : gmap rstr rstr) (m : ApiMethod) (auth : option rstr) : Prop :=
  match auth with
  | None => m.(permission) = World
  | Some a => m.(permission) ≠ World ∧
      ∃ info, check_auth auth_handler r.(headers) r.(method) = Ok (a, info) ∧ @grants info uri (Some a) m.(permission)
  end.

Lemma find_method_sound components me router m uri :
  find_method components me router = Some (m, uri) →
  ∃ rt, find_route components router ∅ = Some (rt, uri) ∧ method_of me rt = Some m.
Proof.
  unfold find_method. destruct (find_route components router ∅) as [[rt u]|]; [|done].
  destruct (method_of me rt) as [api|] eqn:E; [|done]. intros [= <- <-]. eauto.
Qed.

Lemma authorize_request_ok router components r t m uri auth :
  authorize_request auth_handler router components r t = Ok (m, uri, auth) ↔
  find_method components r.(method) router = Some (m, uri) ∧ authorized r uri m auth.
Proof.
  unfold authorize_request, authorized. destruct (find_method components (method r) router) as [[api u]|] eqn:Em.
  - destruct (permission api) eqn:Ep.
    2: { cbn. split; [intros [= <- <- <-]; done|]. intros [[= <- <-] Ha]. destruct auth; [|done]. by destruct Ha as [[] _]. }
    all: destruct (check_auth auth_handler (headers r) (method r)) as [[a info]|e] eqn:Ea; cbn -[check_api_permission];
      [|split; [done|intros [[= <- <-] Ha]; destruct auth; [by destruct Ha as (_ & ? & ? & _)|by rewrite Ep in Ha]]].
    all: split;
      [destruct (check_api_permission _ _ _) eqn:Ec; [|done]; intros [= <- <- <-]; rewrite Ep; split; [done|]; split; [done|];
       exists info; split; [done|]; by apply check_api_permission_iff
      |intros [[= <- <-] Ha]; destruct auth as [a'|]; rewrite Ep in Ha; [|done]; destruct Ha as (_ & info' & [= <- <-] & Hg);
       apply check_api_permission_iff in Hg; by rewrite Hg].
  - split; [|by intros [? _]]. by destruct (check_auth _ _ _) as [[]|].
Qed.

(** Without valid credentials the answer does not depend on whether the path exists. *)
Lemma unauthenticated_uniform router components r t e :
  check_auth auth_handler r.(headers) r.(method) = Err e →
  (∀ m uri, find_method components r.(method) router = Some (m, uri) → m.(permission) ≠ World) →
  authorize_request auth_handler router components r t = Err (Unauthorized, (t + 3000)%N).
Proof.
  intros Ha Hw. unfold authorize_request. rewrite Ha. destruct (find_method _ _ _) as [[m uri]|]; [|done].
  specialize (Hw m uri eq_refl). by destruct (permission m).
Qed.

Lemma dispatch_called env m f r uri auth t m' params auth' :
  dispatch content_type form_parse json_from_str uri_list env m f r uri auth t = Called m' params auth' →
  m' = m ∧ auth' = auth ∧ call_parameters m r uri = Some (Ok params) ∧ ¬ (m.(protected) = true ∧ env = PUBLIC).
Proof.
  unfold dispatch. destruct (protected m && bool_decide (env = PUBLIC)) eqn:E; [done|].
  unfold handle_api_request. fold (call_parameters m r uri).
  destruct (call_parameters m r uri) as [[v|e]|]; [|destruct (panics e); [done|by destruct (format_error f e)]|done]. intros [= <- <- <-].
  repeat split. intros [Hp He]. by rewrite Hp, bool_decide_eq_true_2 in E.
Qed.

Lemma find_handler_elem hs components h rest : find_handler hs components = Some (h, rest) → h ∈ hs.
Proof.
  induction hs as [|h' hs IH]; cbn [find_handler]; [done|]. destruct (strip_components _ _); [intros [= <- <-]; by left|].
  intros E. right. by apply IH.
Qed.

(** The router of a handler is asked for the components behind the output format. *)
Definition method_components (h : Handler) (rest : list rstr) : list rstr := if h.(formatted) then tail rest else rest.

Lemma handler_called (config : ApiConfig) h rest r t m params auth :
  handle_action content_type form_parse json_from_str uri_list auth_handler config.(env_type) h rest r t
    = Called m params auth →
  ∃ uri, authorize_request auth_handler h.(handler_router) (method_components h rest) r t = Ok (m, uri, auth) ∧
    call_parameters m r uri = Some (Ok params) ∧ ¬ (m.(protected) = true ∧ config.(env_type) = PUBLIC).
Proof.
  unfold method_components, handle_action. destruct (formatted h); unfold handle_formatted, handle_unformatted.
  - destruct rest as [|format rest]; [done|]. cbn [tail].
    destruct (if decide (format = lit "json") then _ else _) as [f|]; [|done].
    destruct (authorize_request _ _ _ _ _) as [[[m' uri] auth']|[e t']]; [|destruct e; by destruct f].
    intros (-> & -> & Hc & Hp)%dispatch_called. by exists uri.
  - destruct rest as [|c rest]; [done|].
    destruct (authorize_request _ _ _ _ _) as [[[m' uri] auth']|[e t']]; [|done].
    intros (-> & -> & Hc & Hp)%dispatch_called. by exists uri.
Qed.

Lemma handle_request_called config r t m params auth :
  handle_request content_type form_parse json_from_str uri_list auth_handler config r t = Called m params auth →
  ∃ path h rest uri,
    normalize_path r.(uri_path) = Some path ∧
    find_handler config.(handlers) (path_components path) = Some (h, rest) ∧
    authorize_request auth_handler h.(handler_router) (method_components h rest) r t = Ok (m, uri, auth) ∧
    call_parameters m r uri = Some (Ok params) ∧ ¬ (m.(protected) = true ∧ config.(env_type) = PUBLIC).
Proof.
  unfold handle_request. destruct (normalize_path (uri_path r)) as [path|]; [|done].
  destruct (_ <? _)%N; [done|]. destruct (find_handler _ _) as [[h rest]|] eqn:Eh.
  - intros (uri & Ha & Hp & He)%handler_called. by exists path, h, rest, uri.
  - case_decide; [|done]. destruct (path_components path); [|done]. by destruct (check_auth _ _ _) as [[]|[]].
Qed.

(** [C4] A method is called only when a handler is configured for the normalized path
    and its router leads with the rest of the path to this method; when the method is
    for everybody, or the caller has the permission for the parameters of the path with
    the user of the checked credentials; and when this server may run the method itself.
    If the schema of the method is an object or allOf schema without choices, whose
    aliases lead to canonical names and whose arrays have no bounds on their length, the
    parameters conform to it. A parameter of the path that is a scalar property under
    its canonical name, in a schema without choices, has exactly the value of the path
    for which the permission was checked, whatever the query and the body state. The
    hash map of path parameters may be listed in any order. *)
Theorem called_authorized config r t m params auth :
  (∀ u, uri_list u ≡ₚ map_to_list u) →
  handle_request content_type form_parse json_from_str uri_list auth_handler config r t = Called m params auth →
  ∃ path h rest rt uri,
    normalize_path r.(uri_path) = Some path ∧
    find_handler config.(handlers) (path_components path) = Some (h, rest) ∧
    routes (method_components h rest) h.(handler_router) ∅ rt uri ∧ method_of r.(method) rt = Some m ∧
    authorized r uri m auth ∧ ¬ (m.(protected) = true ∧ config.(env_type) = PUBLIC) ∧
    (form_schema m.(parameters) → conforms m.(parameters) params) ∧
    ∀ k v p, path_property m.(parameters) k p → uri !! k = Some v → has_path_value params k v p.
Proof.
  intros Hu (path & h & rest & uri & Hn & Hh & (Hm & Ha)%authorize_request_ok & Hp & He)%handle_request_called.
  apply find_method_sound in Hm as (rt & Hr & Hm). apply find_route_sound in Hr.
  exists path, h, rest, rt, uri. do 6 (split; [done|]). split; [by intros; eapply call_parameters_conform|].
  intros k v p Hk Hv. by eapply call_parameters_value.
Qed.

(** ** Paths *)

(** A component that names an entry of a directory that is not hidden. *)
Definition plain_component (c : rstr) : Prop := c ≠ [] ∧ (47%N ∉ c) ∧ head c ≠ Some 46%N.

Definition joined (components : list rstr) : rstr := components ≫= cons 47%N.

Lemma normalize_items_spec items : ∀ output path, Forall (λ i, 47%N ∉ i) items → normalize_items items output = Some path →
  ∃ components, components = filter (λ i, i ≠ []) items ∧ path = output ++ joined components ∧ Forall plain_component components.
Proof.
  induction items as [|[|c item] items IH]; intros output path Hi E; cbn [normalize_items] in E.
  - injection E as <-. exists []. by rewrite app_nil_r.
  - apply Forall_cons in Hi as [_ Hi]. destruct (IH _ _ Hi E) as (? & -> & -> & Hp). eexists. rewrite filter_cons_False by (intros n; by apply n). done.
  - apply Forall_cons in Hi as [Hc Hi]. case_decide; [done|]. destruct (IH _ _ Hi E) as (? & -> & -> & Hp).
    eexists. rewrite filter_cons_True by done. split; [done|]. split; [by rewrite <- app_assoc|].
    constructor; [|done]. split; [done|]. split; [done|]. intros [= ->]. done.
Qed.

Lemma split_joined components : Forall (λ c, 47%N ∉ c) components → split_on 47%N (joined components) = [] :: components.
Proof.
  induction 1 as [|c components Hc _ IH]; [done|]. unfold joined. rewrite bind_cons. fold (joined components). simpl.
  f_equal. destruct components as [|d components].
  - rewrite app_nil_r. by apply split_on_no_sep.
  - change (joined (d :: components)) with (47%N :: (d ++ joined components)) in *.
    rewrite split_on_app by done. f_equal. simpl in IH. by injection IH.
Qed.

(** Normalized paths have the components of the path, none of them hidden. *)
Lemma normalize_path_components path path' :
  normalize_path path = Some path' →
  path_components path' = filter (λ c, c ≠ []) (split_on 47%N path) ∧ Forall plain_component (path_components path').
Proof.
  unfold normalize_path, path_components. intros E.
  destruct (normalize_items_spec _ _ _ (split_on_no_sep_in 47%N path) E) as (cs & Hcs & -> & Hp).
  rewrite app_nil_l, split_joined by (eapply Forall_impl; [exact Hp|by intros c (_ & ? & _)]).
  rewrite filter_cons_False by (intros n; by apply n).
  assert (filter (λ s : list rchar, s ≠ []) cs = cs) as ->; [|by rewrite Hcs in *].
  rewrite Hcs. by apply list_filter_filter_l.
Qed.

Lemma path_push_plain base c : plain_component c →
  ∃ sep, (sep = [] ∨ sep = [47%N]) ∧ path_push base c = base ++ sep ++ c.
Proof.
  intros (Hne & Hs & _). unfold path_push. rewrite decide_False.
  - case_decide; [exists []|exists [47%N]]; auto.
  - destruct c as [|x c]; [done|]. intros [= ->]. apply Hs. by left.
Qed.

Lemma push_all_plain components : ∀ base, base ≠ [] → last base ≠ Some 47%N → Forall plain_component components →
  foldl path_push base components = base ++ joined components.
Proof.
  induction components as [|c components IH]; intros base Hb Hl Hp; cbn [foldl]; [by rewrite app_nil_r|].
  apply Forall_cons in Hp as [(Hne & Hs & Hh) Hp].
  assert (path_push base c = base ++ 47%N :: c) as ->.
  { unfold path_push. rewrite !decide_False; [done|tauto|]. destruct c as [|x c]; [done|]. intros [= ->]. apply Hs. by left. }
  assert (last (base ++ 47%N :: c) = last c) as El by (rewrite last_app_cons; by destruct c).
  rewrite IH; [by unfold joined; rewrite bind_cons; simpl; rewrite <- app_assoc|by destruct base| |done].
  rewrite El. intros Hc. apply Hs. by apply last_Some_elem_of.
Qed.

(** The directory that static files are served from. *)
Definition static_directory (config : ApiConfig) (dir : rstr) : Prop :=
  dir = config.(basedir) ∨ ∃ a subdir, config.(aliases) !! a = Some subdir ∧ dir = path_push config.(basedir) subdir.

Lemma push_components_below dir components :
  Forall plain_component components → components ≠ [] →
  ∃ sep c rest, (sep = [] ∨ sep = [47%N]) ∧ components = c :: rest ∧ foldl path_push dir components = dir ++ sep ++ c ++ joined rest.
Proof.
  intros Hp Hne. destruct components as [|c rest]; [done|]. apply Forall_cons in Hp as [Hc Hp]. cbn [foldl].
  destruct (path_push_plain dir c Hc) as (sep & Hsep & E). exists sep, c, rest. do 2 (split; [done|]).
  destruct Hc as (Hn & Hs & _). rewrite E, push_all_plain; [by rewrite !app_assoc| | |done].
  - destruct c; [done|]. intros H. by apply app_eq_nil in H as [_ []%app_eq_nil].
  - rewrite app_assoc, last_app. destruct (last c) as [x|] eqn:El; [|by apply last_None in El].
    intros [= ->]. apply Hs. by apply last_Some_elem_of.
Qed.

(** A static file is one below the base directory or the directory of an alias: the path
    is continued with components that are not hidden and do not lead upwards. *)
Theorem static_file_confined config r t file :
  handle_request content_type form_parse json_from_str uri_list auth_handler config r t = StaticFile file →
  r.(method) = GET ∧
  ∃ dir components, static_directory config dir ∧ Forall plain_component components ∧
    (components = [] ∧ file = dir ∨
     ∃ sep c rest, (sep = [] ∨ sep = [47%N]) ∧ components = c :: rest ∧ file = dir ++ sep ++ c ++ joined rest).
Proof.
  unfold handle_request. destruct (normalize_path (uri_path r)) as [path|] eqn:En; [|done].
  destruct (_ <? _)%N; [done|]. destruct (find_handler _ _) as [[h rest]|].
  { unfold handle_action, handle_formatted, handle_unformatted, dispatch, handle_api_request, format_error.
    intros E. repeat case_match; simplify_eq. }
  case_decide as Hm; [|done]. apply normalize_path_components in En as [_ Hp].
  destruct (path_components path) as [|c rest] eqn:Ec; [by destruct (check_auth _ _ _) as [[]|[]]|]. intros [= <-].
  split; [done|]. cbn [find_alias]. destruct (aliases config !! c) as [subdir|] eqn:Ea.
  - exists (path_push (basedir config) subdir), rest. split; [right; eauto|]. apply Forall_cons in Hp as [_ Hp]. split; [done|].
    destruct (decide (rest = [])) as [->|]; [by left|]. right. by apply push_components_below.
  - exists (basedir config), (c :: rest). split; [by left|]. split; [done|]. right.
    by apply (push_components_below (basedir config) (c :: rest)).
Qed.

(** ** A body that is no object

    The values of the path are written into the value of the body by index, which panics
    unless this is an object or null. *)
Lemma json_array_panics s text l uri k v o p x :
  text ≠ [] → json_from_str text = Some (VArray l) → uri_list uri = [(k, v)] → no_one_of s = true →
  lookup_schema s k NoTypeData = Some (o, p) → parse_simple_value p v = Ok x →
  json_parameters json_from_str uri_list s text uri = None.
Proof.
  intros Ht Hj Hu Hno Hl Hp. unfold json_parameters. rewrite decide_False, Hj, Hu by done. cbn [merge_uri].
  by rewrite (no_one_of_lookup s _ NoTypeData), Hl, Hp by done.
Qed.

End Requests.

(** ** The address of a client *)

(** Text without escapes that has its quotes closed from one state leaves them open
    from the other one. *)
Lemma split_unquoted_parity d e : 92%N ∉ e → d ≠ 34%N → ∀ p p' q,
  split_unquoted_loop e d p q false ≠ None → split_unquoted_loop e d p' (negb q) false = None.
Proof.
  intros He Hd. induction e as [|c e IH]; intros p p' q; cbn [split_unquoted_loop]; [by destruct q|].
  apply not_elem_of_cons in He as [Hc He]. rewrite (bool_decide_eq_false_2 (c = 92%N)), !andb_false_r by congruence.
  destruct (decide (c = 34%N)) as [->|]; [by apply (IH He)|].
  destruct (bool_decide (c = d)), q; cbn [andb negb]; intros Hs.
  - pose proof (IH He (p ++ [c]) [] true Hs) as E. cbn [negb] in E. by rewrite E.
  - apply (IH He [] _ false). intros E. by rewrite E in Hs.
  - by apply (IH He (p ++ [c]) _ true).
  - by apply (IH He (p ++ [c]) _ false).
Qed.

(** Whatever is in front of a delimiter, the parts behind it stay or there are none. *)
Lemma split_unquoted_appended x e d parts : 92%N ∉ e → d ≠ 34%N → d ≠ 92%N → split_unquoted e d = Some parts →
  ∀ p q esc, (esc = true → q = true) →
  split_unquoted_loop (x ++ d :: e) d p q esc = None ∨ ∃ l, split_unquoted_loop (x ++ d :: e) d p q esc = Some (l ++ parts).
Proof.
  intros He Hd Hd' Hs. unfold split_unquoted in Hs.
  assert (∀ p, split_unquoted_loop e d p true false = None) as Hopen.
  { intros p. apply (split_unquoted_parity d e He Hd [] p false). by rewrite Hs. }
  induction x as [|c x IH]; intros p q esc Hq; cbn [app split_unquoted_loop].
  - destruct esc; [rewrite Hq by done; left; apply Hopen|].
    rewrite (bool_decide_eq_false_2 (d = 92%N)), andb_false_r, decide_False, bool_decide_eq_true_2 by done.
    destruct q; cbn [andb negb]; [left; apply Hopen|]. rewrite Hs. right. by exists [p].
  - destruct esc; [by apply IH|]. destruct (q && _) eqn:Eq; [apply IH; intros _; by destruct q|].
    destruct (decide (c = 34%N)); [by apply IH|]. destruct (bool_decide (c = d) && negb q); [|by apply IH].
    destruct (IH [] q false) as [->|[l ->]]; [done|by left|]. right. by exists (p :: l).
Qed.

(** A peer cannot choose the address that is read when a proxy appends its element: what
    the peer sent in front of it is not used, or the header is refused. *)
Theorem forwarded_for_last x e :
  92%N ∉ e → split_unquoted e 44%N = Some [e] →
  forwarded_for (x ++ 44%N :: e) = None ∨ forwarded_for (x ++ 44%N :: e) = forwarded_for e.
Proof.
  intros He Hs.
  destruct (split_unquoted_appended x e 44%N [e] He ltac:(done) ltac:(done) Hs [] false false ltac:(done)) as [E|[l E]];
    fold (split_unquoted (x ++ 44%N :: e) 44%N) in E; unfold forwarded_for; rewrite E; [by left|].
  right. by rewrite Hs, last_snoc.
Qed.

(** With escapes in the element of the proxy the quotes of the peer can pair with it, and
    the address of the peer is used. *)
Example forwarded_for_escaped :
  forwarded_for (lit "for=1.1.1.1;" ++ [34%N; 44%N] ++ lit "for=" ++ [34%N; 97%N; 92%N; 34%N; 98%N; 34%N]) = Some (lit "1.1.1.1").
Proof. vm_compute. reflexivity. Qed.

Lemma split_unquoted_plain s d : 34%N ∉ s → d ∉ s → 92%N ∉ s → ∀ rest p,
  split_unquoted_loop (s ++ rest) d p false false = split_unquoted_loop rest d (p ++ s) false false.
Proof.
  induction s as [|c s IH]; intros Hq Hd Hb rest p; cbn [app split_unquoted_loop]; [by rewrite app_nil_r|].
  apply not_elem_of_cons in Hq as [? Hq], Hd as [? Hd], Hb as [? Hb]. cbn [andb].
  rewrite decide_False, (bool_decide_eq_false_2 (c = d)) by congruence. cbn [andb]. rewrite IH by done. by rewrite <- app_assoc.
Qed.

Lemma split_unquoted_quoted s d : 34%N ∉ s → 92%N ∉ s → ∀ rest p,
  split_unquoted_loop (s ++ rest) d p true false = split_unquoted_loop rest d (p ++ s) true false.
Proof.
  induction s as [|c s IH]; intros Hq Hb rest p; cbn [app split_unquoted_loop]; [by rewrite app_nil_r|].
  apply not_elem_of_cons in Hq as [? Hq], Hb as [? Hb].
  rewrite (bool_decide_eq_false_2 (c = 92%N)), decide_False by congruence. cbn [andb negb].
  rewrite andb_false_r, IH by done. by rewrite <- app_assoc.
Qed.

Lemma forwarded_split peer d rest : 34%N ∉ peer → 92%N ∉ peer → d ∉ lit "for=" → d ≠ 34%N →
  split_unquoted_loop (lit "for=" ++ [34%N] ++ peer ++ [34%N] ++ rest) d [] false false
  = split_unquoted_loop rest d (lit "for=" ++ [34%N] ++ peer ++ [34%N]) false false.
Proof.
  intros Hq Hb Hd Hd'.
  rewrite split_unquoted_plain by (try done; vm_compute; set_solver).
  cbn [app split_unquoted_loop andb]. rewrite decide_True by done. cbn [negb].
  rewrite split_unquoted_quoted by done. cbn [app split_unquoted_loop].
  rewrite bool_decide_eq_false_2, andb_false_r, decide_True by done. cbn [negb].
  done.
Qed.

Lemma trim_quoted s : trim (34%N :: s ++ [34%N]) = 34%N :: s ++ [34%N].
Proof.
  unfold trim, trim_start, trim_end. cbn [drop_while]. replace (is_whitespace 34%N) with false by done.
  change (34%N :: s ++ [34%N]) with ((34%N :: s) ++ [34%N]). rewrite reverse_snoc. cbn [drop_while].
  replace (is_whitespace 34%N) with false by done. by rewrite <- reverse_snoc, reverse_involutive.
Qed.

(** The privileged server reads the address that the public one has sent. *)
Theorem forwarded_for_header peer : 34%N ∉ peer → 92%N ∉ peer → forwarded_for (forwarded_header peer) = Some peer.
Proof.
  intros Hq Hb. unfold forwarded_for, forwarded_header, split_unquoted.
  rewrite (forwarded_split peer 44%N) by (try done; vm_compute; set_solver).
  change (split_unquoted_loop (lit ";") 44%N (lit "for=" ++ [34%N] ++ peer ++ [34%N]) false false)
    with (Some [(lit "for=" ++ [34%N] ++ peer ++ [34%N]) ++ [59%N]]). cbn [last].
  rewrite <- !app_assoc, (forwarded_split peer 59%N) by (try done; vm_compute; set_solver).
  change (split_unquoted_loop [59%N] 59%N (lit "for=" ++ [34%N] ++ peer ++ [34%N]) false false)
    with (Some [lit "for=" ++ [34%N] ++ peer ++ [34%N]; []]). cbn [for_parameter].
  assert (split_once 61%N (lit "for=" ++ [34%N] ++ peer ++ [34%N]) = Some (lit "for", 34%N :: peer ++ [34%N])) as ->.
  { apply split_once_iff. split; [done|]. vm_compute. set_solver. }
  rewrite decide_True by done. rewrite trim_quoted. unfold unquote. rewrite last_snoc, removelast_last.
  by rewrite decide_False.
Qed.

(** ** A server with one method *)
Module UserServer.
Definition userid_schema : Schema := SString {| min_length := None; max_length := None; Schema.format := None; format_is_optional := false |}.
Definition user_schema : Schema := SObject false [(lit "userid", false, userid_schema)] None [].
Definition get_user : ApiMethod := mkMethod false user_schema Sync (UserParam (lit "userid")).
Definition router : Router :=
  mkRouter None None None None (Some (Map_ [(lit "users",
    mkRouter None None None None (Some (MatchAll (mkRouter (Some get_user) None None None None) (lit "userid"))))])).
Definition config : ApiConfig := mkConfig (lit "/www") ∅ PRIVILEGED [mkHandler [lit "api2"] true router].
Definition request : Request unit := mkRequest GET (lit "/api2/json/users/alice") None tt [].
Definition auth_handler : option (unit → Method → result (rstr * UserInformation) AuthError) :=
  Some (λ _ _, Ok (lit "alice", EmptyUserInformation)).
Definition handled : Outcome :=
  handle_request (P:=spelled_percent) (F:=f64_text) (λ _ : unit, None) (λ _, []) (λ _, None) map_to_list auth_handler config request 0.
End UserServer.

Lemma called_authorized_witness :
  UserServer.handled = Called UserServer.get_user (VObject [(lit "userid", VString (lit "alice"))]) (Some (lit "alice")) ∧
  ∃ path h rest rt uri,
    normalize_path (lit "/api2/json/users/alice") = Some path ∧
    find_handler UserServer.config.(handlers) (path_components path) = Some (h, rest) ∧
    @routes spelled_percent (method_components h rest) h.(handler_router) ∅ rt uri ∧
    method_of GET rt = Some UserServer.get_user ∧
    authorized UserServer.auth_handler UserServer.request uri UserServer.get_user (Some (lit "alice")) ∧
    conforms UserServer.user_schema (VObject [(lit "userid", VString (lit "alice"))]) ∧
    path_property UserServer.user_schema (lit "userid") UserServer.userid_schema.
Proof.
  split; [vm_compute; reflexivity|].
  destruct (called_authorized (P:=spelled_percent) (F:=f64_text) (λ _ : unit, None) (λ _, []) (λ _, None) map_to_list
    UserServer.auth_handler UserServer.config UserServer.request 0 UserServer.get_user
    (VObject [(lit "userid", VString (lit "alice"))]) (Some (lit "alice")))
    as (path & h & rest & rt & uri & Hn & Hh & Hr & Hm & Ha & _ & Hc & _).
  - reflexivity.
  - vm_compute. reflexivity.
  - exists path, h, rest, rt, uri. do 5 (split; [done|]). split.
    + apply Hc. by repeat split.
    + do 2 (split; [vm_compute; reflexivity|]). split; [done|]. exists false. vm_compute. reflexivity.
Defined.

(** ** With tickets and the access control tree

    The composition of the server with what it is configured with: the check of
    credentials by tickets and tokens ([AuthApi]) and the user information of the access
    control tree ([CachedUserInfo]). *)
From S2P Require Import AuthTypes Acl AclConfig CachedUserInfo Tfa TfaLogin Ticket TicketTheory AuthApi AuthApiTheory F64 Json ObjectSchema Permission Rest.

(** The name of a method, as far as [http_check_auth] reads it. *)
Definition method_text (m : Method) : rstr :=
  match m with
  | GET => lit "GET" | PUT => lit "PUT" | POST => lit "POST" | DELETE => lit "DELETE" | OtherMethod => lit "PATCH"
  end.

Section EndToEnd.
Context {ssl : OpenSsl} {percent : PercentCoding} {base64 : Base64} {F : F64Text}.
Context {limits : Limits} {crypto : Crypto} {cdata : ChallengeData crypto} {json : ChallengeJson cdata}.
Context {IpAddr : Type} {conf : AccessControlConfig}.
Context (ctx : AuthContext IpAddr) (now : Z) (info : CachedUserInfo).
Context {Hd : Type} (header_map : Hd → HeaderMap) (content_type : Hd → option (option rstr)).
Context (form_parse : list N → list (rstr * rstr)) (json_from_str : rstr → option Value)
  (uri_list : gmap rstr rstr → list (rstr * rstr)).
Context (auth_handler : option (Hd → Method → result (rstr * UserInformation) AuthError)).

(** The handler of a product calls [http_check_auth] and adds the cached user information. *)
Definition checks_tickets : Prop :=
  ∀ h m id ui, check_auth auth_handler h m = Ok (id, ui) →
    http_check_auth (Some ctx) now (header_map h) (method_text m) = Ok id ∧ ui = CachedUserInfo_UserInformation info.

(** The id of a request that is let in is the text of a valid id. *)
Lemma request_granted_id headers method id :
  request_granted ctx now headers method id → ∃ a, id = authid_to_string a ∧ valid_authid a.
Proof.
  intros [(d & u & _ & _ & _ & Hu & -> & _)|(a & _ & _ & _ & Ha & _)].
  - by exists (authid_from_userid u).
  - apply authid_from_str_sound in Ha as [Hv <-]. eauto.
Qed.

(** A privilege is granted to superusers and to whom the tree grants it. *)
Lemma privilege_granted uri path required partial a :
  required ≠ 0%N → valid_authid a →
  @grants (CachedUserInfo_UserInformation info) uri (Some (authid_to_string a)) (Privilege path required partial) →
  info_superuser (authid_to_string a) = true ∨
  ∃ new_path, expand_path uri path = Some new_path ∧ check_privs info.(acl_tree) a new_path required partial = Ok tt.
Proof.
  intros Hr Ha Hg. inversion Hg as [u perm Hs|u perm Ht]; subst; [by left|]. right.
  apply check_tail_grants in Ht. destruct (expand_path uri path) as [new_path|] eqn:Ex; [|simpl in Ht; by rewrite Ex in Ht].
  exists new_path. split; [done|]. rewrite (privilege_check_agrees info uri path new_path) in Ht by done.
  by destruct (check_privs _ _ _ _ _) as [[]|].
Qed.

End EndToEnd.

(** ** A server with a privileged method *)
#[local] Existing Instances spelled_ssl spelled_percent spelled_base64 wit_crypto wit_cdata wit_json default_limits
  f64_text test_conf.

Module StoreServer.
Definition store_schema : ObjectSchema.Schema := SObject false [(lit "name", false, UserServer.userid_schema)] None [].
Definition verify_store : ApiMethod :=
  mkMethod false store_schema Async (Privilege [lit "store"; lit "{name}"] 4%N false).
Definition router : Router :=
  mkRouter None None None None (Some (Map_ [(lit "store",
    mkRouter None None None None (Some (MatchAll (mkRouter None None (Some verify_store) None None) (lit "name"))))])).
Definition config : ApiConfig := Rest.mkConfig (lit "/www") ∅ PUBLIC [mkHandler [lit "api2"] true router].
Definition info : CachedUserInfo :=
  {| user_cfg := ∅;
     acl_tree := insert_user_role node_new (lit "/store/s1") (authid_from_userid guest) (lit "Admin") true |}.
Definition auth_handler (h : HeaderMap) (m : Method) : result (rstr * UserInformation) AuthError :=
  match http_check_auth (Some wit_ctx) 400 h (method_text m) with
  | Ok id => Ok (id, CachedUserInfo_UserInformation info)
  | Err _ => Err Generic
  end.
Definition request : Request HeaderMap := mkRequest POST (lit "/api2/json/store/s1") None guest_headers [].
End StoreServer.

